(* ===== verification/_CoqProject ===== *)
-Q . S2P
Prelude.v
SetSegName.v
Cpuid.v
BootArgs.v
IpcSplay.v
IpcHash.v
IpcTable.v
IpcPort.v
IpcStore.v
IpcRight.v
IpcRightSpec.v
IpcRightMove.v
IpcEntry.v
IpcEntrySpec.v
IpcEntryOps.v
IpcEntryGrow.v
IpcEntryAlloc.v
IpcEntryMain.v
Lockf.v
LockfSpec.v
LockfList.v
LockfMain.v
Volume.v
VolumeSpec.v
VolumeWalk.v
VolumeRuns.v
VolumeAny.v
VolumeCache.v
VolumeContig.v
VolumeAlloc.v
VolumeMain.v
UtfData.v
Utf.v
UtfTables.v
UtfDecompose.v
UtfSort.v
UtfSpec.v
UtfText.v
UtfDecode.v
UtfCanon.v
UtfEncode.v
UtfMain.v
UtfNormal.v
