(* ===== verification/Prelude.v ===== *)
(** * A verification of parts of the Atom kernel kit

    The repository holds an installation kit for Mac OS X on a small laptop.  Its program is a
    kernel for the Intel Atom, kernel/Atom-Kernel-N570/src/xnu (XNU 1504.3.12), with the tools
    that build it.  This development models parts of that kernel, in C, as functions of Rocq and
    proves what makes them correct.  File names below are relative to the kernel's directory.

    ** How code is modelled

    A routine that can stop the machine (a [panic], a failed [assert], an access through a null
    or freed pointer, an index outside of a table) is a function of the monad [kern] of this file
    on a state of its component; [None] is the stop.  [runs m Q s] says that [m] started in [s]
    returns, and that [Q] holds of result and final state: every theorem about [runs] includes
    that the routine does not stop and that it ends.  Older files (SetSegName, Cpuid, BootArgs,
    IpcSplay, IpcHash) use [option] directly.  Integers are [Z]; where the C type can wrap the
    wrapping is written out ([wrap], [u8] to [u64], [Lockf.s64]).  Pointers are numbers, with 0
    the null one, into a finite map of the allocated objects, so that use after free is seen.

    Loops without a structural bound take fuel, and running out of it is a stop; theorems about
    such loops give the fuel that is enough: the length of the string or the number of commands
    (SetSegName, BootArgs), the number of slots of a table (IpcHash, IpcEntry), the number of
    allocated locks or ports, the patience of a caller (IpcEntryAlloc, see below).  The loop of
    [lf_setlock] that waits has no bound in the code and takes its fuel from the caller.

    Code that is not under src/ or not modelled is a parameter: the answers of the [cpuid]
    instruction, files, allocators, sleeping, and what other threads do while a lock is free.
    Calls into parts that are not modelled and that give no answer (the notification routines,
    message queues) are recorded in order in a trace of the state.

    ** The files

    - Prelude: this vocabulary, and lemmas on integers, bits, bytes, lists and maps.
    - SetSegName (tools/snowleopard/setsegname.c): the build tool that renames segments of a
      Mach-O file.  The nested loops equal a reference that first finds all the sections and then
      renames them, in a file that may be cut off anywhere behind its header ([long_cmds]: both
      fault then at the same inputs); in one that is not, exactly the 16 bytes of the names of
      the sections change; an empty file crashes the tool.
    - Cpuid (osfmk/i386/cpuid.c): decoding of the CPUID leaves, the list of processor families
      on which the kernel boots, the cache and TLB tables, the printable feature lists and when
      they overflow.
    - BootArgs (pexpert/gen/bootargs.c): the parser of boot arguments, against a reference on
      words; bounds of the stores through the caller's pointer; number literals, all but a decimal
      zero with a unit, which the code takes for a string ([zero_with_unit]).
    - IpcSplay (osfmk/ipc/ipc_splay.c): the splay tree of port names with the holes and the
      inverted pointers of the source; it refines a finite map, split and join included, and the
      traversal visits every entry once.
    - IpcHash (osfmk/ipc/ipc_hash.c): from objects to names, an open-addressing table inside the
      entry table and a global table of buckets.
    - IpcTable (osfmk/ipc/ipc_table.c): the sizes that tables grow along, and the interface
      [RequestSizes] that IpcPort relies on.
    - IpcPort (osfmk/ipc/ipc_port.c): references, rights counts, requests for dead-name
      notifications as a table with a free list, circularity of ports in transit, destruction.
    - IpcStore: the interface [EntryStore] between the routines on rights and the entries they
      work on, with finite maps as its instance.
    - IpcRight, IpcRightSpec, IpcRightMove (osfmk/ipc/ipc_right.c): every routine on a name of a
      space, against the interface.  Each claim on a routine names its result and the whole state
      that it leaves: the ports with all their fields, the calls made on the way (references given
      back, notifications) in order, and the entries ([outcome] and [Effect] for giving up rights,
      [transferred] and [Transfer] for moving them).  A receive right that arrives may be in limbo
      or in transit, and gives the reference to its destination back ([in_transit]).
    - IpcEntry, IpcEntrySpec, IpcEntryOps, IpcEntryGrow, IpcEntryAlloc, IpcEntryMain
      (osfmk/ipc/ipc_entry.c, [ipc_space_create] of ipc_space.c and [task_set_port_space] of
      mach_port.c): the table of a space with generations and free list, the overflow tree, and
      growing the table.  The lock of the space is a flag; [others] is what other threads do
      while it is free, and the theorems hold for any of it that keeps the space well formed.
      That allocation ends is proved for every bound on how often the others use up the entries
      that a growth made (the patience of the statement).
    - Lockf, LockfSpec, LockfList, LockfMain (bsd/kern/kern_lockf.c): advisory byte-range locks.
      Lockf is the code on a heap of locks.  LockfSpec has the ranges, the list in the heap as a
      list segment, the searches and the queues of waiting requests; LockfList follows the
      pointers of the operations that relink ([view]: the locks on the list and the nodes that
      are held off it); LockfMain states what a user sees in terms of the bytes that are locked
      for an owner.

    - Volume, VolumeSpec, VolumeWalk, VolumeRuns, VolumeAny, VolumeCache, VolumeContig,
      VolumeAlloc, VolumeMain (bsd/hfs/hfscommon/Misc/VolumeAllocation.c): the allocation bitmap
      of an HFS volume.  Volume is the code on blocks of big-endian words in a buffer cache, where
      a word can be used only while its block is held.  VolumeSpec reads the bitmap as a function
      from blocks to bits ([bit], and [view] for a state in the middle of an operation).
      VolumeWalk has the walk over the words of a run for any operation on the bits of a word
      (the class [WordOp], with instances for marking, freeing and testing), and VolumeRuns the
      three routines.  VolumeAny and VolumeContig are the searches, VolumeCache the sorted cache
      of free extents as a list, and VolumeAlloc and VolumeMain put the parts together:
      allocating and deallocating keep bitmap, count and cache in agreement ([volume_ok]).

    - UtfData, Utf, UtfTables, UtfDecompose, UtfSort, UtfSpec, UtfText, UtfDecode, UtfCanon,
      UtfEncode, UtfMain, UtfNormal (bsd/vfs/vfs_utfconv.c and vfs_utfconvdata.h): the conversions of
      names between UTF-8 and UTF-16.  UtfData has the tables and Utf the code; a pointer into the
      input is the list of what is left of it, so that a read behind the end is a stop, as is one
      outside of a table ([item]), and stores are checked against the buffer.  UtfTables shows which
      reads of the tables and bitmaps are inside and what they give, UtfDecompose has
      decomposition and composition of characters, UtfSort the canonical order of marks, UtfSpec the
      encodings by arithmetic.  UtfText is validation, UtfDecode decoding of any bytes, UtfCanon
      decoding of valid strings, UtfEncode encoding, UtfMain and UtfNormal put the parts together.
      What becomes of slashes, nulls and the characters of Services for Macintosh is specified by
      tables of these files, apart from the code ([replacement], [sfm_name], [sfm_original]).

    ** The theorems

    The claims are numbered (C1 and so on), the most important first.  By kind: equivalence with
    a reference ([cmd_loop_two_pass], [parse_boot_argn_words], [copyin_check_decides],
    [deadlock_search], [find_contiguous_first_fit], [encodestr_correct], [validatestr_exact],
    [combine_correct]); refinement of an abstract object ([splay_implements_map],
    [dnrequest_cancel], [naked_rights_refine]); invariants kept by operations
    ([BlockAllocate_keeps_volume], [local_hash_delete_removes], [check_circularity_correct],
    [entry_dealloc_correct], [serve_keeps_exclusion]); results of operations on every branch
    ([right_dealloc_correct], [right_delta_correct], [right_copyin_correct],
    [right_copyout_correct], [advlock_set], [advlock_clear], [BlockDeallocate_keeps_volume],
    [decodestr_correct], [normalizestr_nfd]); round trips ([getval_literal],
    [deallocate_allocated], [names_roundtrip]); bounds ([parse_boot_argn_in_bounds],
    [lock_range_exact], [decodestr_in_bounds]); termination and progress ([entry_alloc_ends],
    [dngrow_makes_room], [priortysort_stable]); and errors ([mark_free_exact]).  Other theorems are
    proved in the same way but are not among the claims: [leaf4_loop_publishes],
    [feature_names_complete], [splay_split_join], [hash_lookup_exact], [hash_insert_delete_tree],
    [receive_right_destroyed], [entry_lookup_correct], [entry_alloc_name_correct], [advlock_get],
    [isallocated_exact], [allocate_any_first], [cache_keeps_order], [decompose_correct],
    [encodelen_exact], and those that show errors of the code, [backup_keeps_send_count],
    [set_port_space_unlocks_twice], [unlock_to_last_offset], [coelesce_drops_between],
    [feature_names_overflow], and the examples at the end of VolumeRuns, VolumeAny, VolumeMain and
    of the files on Unicode.  A theorem with hypotheses has a witness, a lemma named after it, that
    applies it to a concrete state.

    ** Bounds of the statements

    The theorems on whole lock requests are for requests that do not wait and whose range does
    not end with the largest offset, which [unlock_to_last_offset] shows to be necessary.  Others
    keep their locks when no two locks of the owner have to be joined ([separate]); when some have,
    nothing is added to the locks of others, but [coelesce_drops_between] shows that they can lose
    some.  The allocator of locks returns fresh non-null pointers or fails.
    The theorems on IPC entries assume that another thread does not make the name that
    [ipc_entry_alloc_name] is about to make.

    The theorems on volumes are for bitmap blocks of a power of two in size, at least one word,
    and a bitmap that ends before block 2^32.  Marking, freeing, testing and searching are proved
    with any errors of reading; the agreement of bitmap, count and cache is proved for volumes
    whose bitmap can be read, because an error in the middle of an operation breaks it
    ([allocate_any_leaves_marked], [failed_mark_counts_all]).

    The theorems on decoding are for buffers of a whole number of characters and without escapes and
    composing, where the examples [odd_buffer_overruns], [truncated_escape_overruns] and
    [compose_counts_base] show that the code leaves its buffers.  What is said of the characters is
    for the byte order of the machine and for strings in which no character outside of the basic
    plane directly follows a mark ([swapped_not_sorted], [pair_takes_mark]).  Sorting [n] marks takes
    at most [n * n + 1] passes, the loops over a string one round for a character, and a
    decomposition nests at most [decompose_depth] deep.

    ** Not modelled

    The IPC message queues and message bodies (they need the virtual memory system and generated
    code), port sets, [ipc_space_destroy], the notification messages, the [mach_port_*] calls;
    the printing of locks for debugging; locks and reference counts around operations that run
    with one lock held throughout; MAC labels ([CONFIG_MACF_MACH] is off).  The self-check of the
    extent cache of a volume is compiled out.  Composing (NFC) is modelled, but of its results only
    [combine_correct] is proved.  Virtual memory, scheduler, the rest of the file
    systems, network, DTrace, the kernel debugger and the platform expert's device code are
    outside; IOKit and libkern's C++ are in another language.  Next in line are the waiting of
    lock requests with its wakeups, the counting of free blocks in the metadata zone
    ([MetaZoneFreeBlocks] is modelled but nothing is proved of it), the run queues of the
    scheduler, and ipc_object.c and ipc_notify.c on top of the routines on rights. *)

From Stdlib Require Export ZArith Lia Bool Sorted.
From stdpp Require Export base tactics list gmap fin_maps strings.

#[global] Open Scope Z_scope.

(** * Notations of C expressions *)

Declare Scope c_scope.
Delimit Scope c_scope with C.
Notation "a &&& b" := (Z.land a b) (at level 40, left associativity) : c_scope.
Notation "a ||| b" := (Z.lor a b) (at level 50, left associativity) : c_scope.
#[global] Open Scope c_scope.

(** * Machine integers *)

(** [wrap w z] is the value of [z] stored in a [w]-bit unsigned C integer. *)
Definition wrap (w z : Z) : Z := z mod 2 ^ w.

Abbreviation u8 := (wrap 8).
Abbreviation u16 := (wrap 16).
Abbreviation u32 := (wrap 32).
Abbreviation u64 := (wrap 64).

(** [in_range w z]: [z] is a value of a [w]-bit unsigned integer. *)
Definition in_range (w z : Z) : Prop := 0 <= z < 2 ^ w.

(** Truth value of a C integer used as a condition. *)
Definition truth (z : Z) : bool := negb (z =? 0).

Lemma wrap_range w z : 0 <= w -> in_range w (wrap w z).
Proof. intros. apply Z.mod_pos_bound. lia. Qed.

Lemma wrap_small w z : in_range w z -> wrap w z = z.
Proof. apply Z.mod_small. Qed.

Lemma wrap_wrap w z : wrap w (wrap w z) = wrap w z.
Proof. unfold wrap. destruct (decide (2 ^ w = 0)) as [->|]; [by rewrite !Z.mod_0_r|].
  by apply Z.mod_mod. Qed.

Lemma wrap_add_l w a b : wrap w (wrap w a + b) = wrap w (a + b).
Proof. apply Zplus_mod_idemp_l. Qed.

Lemma wrap_add_r w a b : wrap w (a + wrap w b) = wrap w (a + b).
Proof. apply Zplus_mod_idemp_r. Qed.

Lemma wrap_mul_l w a b : wrap w (wrap w a * b) = wrap w (a * b).
Proof. apply Zmult_mod_idemp_l. Qed.

Lemma wrap_mul_r w a b : wrap w (a * wrap w b) = wrap w (a * b).
Proof. apply Zmult_mod_idemp_r. Qed.

Lemma truth_true z : truth z = true <-> z <> 0.
Proof. unfold truth. rewrite negb_true_iff, Z.eqb_neq. done. Qed.

Lemma truth_false z : truth z = false <-> z = 0.
Proof. unfold truth. rewrite negb_false_iff, Z.eqb_eq. done. Qed.

#[global] Instance in_range_dec w z : Decision (in_range w z).
Proof. unfold in_range. apply _. Defined.

(** * Bit fields *)

Lemma land_ones_mod z w : 0 <= w -> z &&& Z.ones w = z mod 2 ^ w.
Proof. intros. by apply Z.land_ones. Qed.

(** A mask of [n] ones starting at bit [l] selects [(z / 2^l) mod 2^n]. *)
Lemma land_field z l n : 0 <= l -> 0 <= n ->
  z &&& (Z.shiftl (Z.ones n) l) = ((z / 2 ^ l) mod 2 ^ n) * 2 ^ l.
Proof.
  intros. rewrite <- Z.land_ones, <- Z.shiftr_div_pow2, <- Z.shiftl_mul_pow2 by lia.
  apply Z.bits_inj'. intros i Hi.
  rewrite Z.land_spec. destruct (Z.ltb_spec i l).
  - rewrite !Z.shiftl_spec_low by lia. by rewrite andb_false_r.
  - rewrite !Z.shiftl_spec, Z.land_spec, Z.shiftr_spec by lia.
    by replace (i - l + l) with i by lia.
Qed.

(** The test [z & (1 << k)] of C is the [k]-th bit. *)
Lemma truth_land_bit z k : 0 <= k -> truth (z &&& 2 ^ k) = Z.testbit z k.
Proof.
  intros. replace (2 ^ k) with (Z.shiftl (Z.ones 1) k)
    by (rewrite Z.shiftl_mul_pow2 by lia; change (Z.ones 1) with 1; lia).
  rewrite land_field by lia. change (2 ^ 1) with 2.
  rewrite <- Z.bit0_mod, <- Z.shiftr_div_pow2, Z.shiftr_spec by lia.
  replace (0 + k) with k by lia.
  destruct (Z.testbit z k); simpl; [|done].
  rewrite Z.mul_1_l. apply truth_true. lia.
Qed.

(** * Little-endian words in byte buffers *)

Abbreviation zlen l := (Z.of_nat (length l)).

Definition byte_ok (b : Z) : Prop := in_range 8 b.

(** The [uint32_t] at byte offset [off]; [None] outside of the buffer. *)
Definition rd32 (buf : list Z) (off : Z) : option Z :=
  if decide (0 <= off) then
    b0 ← buf !! Z.to_nat off;
    b1 ← buf !! Z.to_nat (off + 1);
    b2 ← buf !! Z.to_nat (off + 2);
    b3 ← buf !! Z.to_nat (off + 3);
    Some (b0 + b1 * 2 ^ 8 + b2 * 2 ^ 16 + b3 * 2 ^ 24)
  else None.

(** Store of one byte; [None] outside of the buffer. *)
Definition wr8 (buf : list Z) (off v : Z) : option (list Z) :=
  if decide (0 <= off < zlen buf) then Some (<[Z.to_nat off := v]> buf) else None.

(** [OSSwapInt32]. *)
Definition swap32 (z : Z) : Z :=
  (z mod 2 ^ 8) * 2 ^ 24 + ((z / 2 ^ 8) mod 2 ^ 8) * 2 ^ 16
  + ((z / 2 ^ 16) mod 2 ^ 8) * 2 ^ 8 + (z / 2 ^ 24) mod 2 ^ 8.

Lemma swap32_range z : in_range 32 (swap32 z).
Proof.
  unfold swap32, in_range.
  pose proof (Z.mod_pos_bound z (2 ^ 8)).
  pose proof (Z.mod_pos_bound (z / 2 ^ 8) (2 ^ 8)).
  pose proof (Z.mod_pos_bound (z / 2 ^ 16) (2 ^ 8)).
  pose proof (Z.mod_pos_bound (z / 2 ^ 24) (2 ^ 8)). lia.
Qed.

(** A word is the sum of its bytes; the workhorse of the swap lemmas. *)
Lemma bytes_of_word a b c d :
  byte_ok a -> byte_ok b -> byte_ok c -> byte_ok d ->
  let z := a + b * 2 ^ 8 + c * 2 ^ 16 + d * 2 ^ 24 in
  z mod 2 ^ 8 = a /\ (z / 2 ^ 8) mod 2 ^ 8 = b /\
  (z / 2 ^ 16) mod 2 ^ 8 = c /\ (z / 2 ^ 24) mod 2 ^ 8 = d.
Proof. unfold byte_ok, in_range. intros. cbv zeta. repeat split; Z.to_euclidean_division_equations; lia. Qed.

Lemma swap32_bytes a b c d :
  byte_ok a -> byte_ok b -> byte_ok c -> byte_ok d ->
  swap32 (a + b * 2 ^ 8 + c * 2 ^ 16 + d * 2 ^ 24) = d + c * 2 ^ 8 + b * 2 ^ 16 + a * 2 ^ 24.
Proof.
  intros Ha Hb Hc Hd. destruct (bytes_of_word a b c d Ha Hb Hc Hd) as (E1 & E2 & E3 & E4).
  unfold swap32. rewrite E1, E2, E3, E4. lia.
Qed.

Lemma word_of_bytes z : in_range 32 z -> ∃ a b c d,
  (byte_ok a /\ byte_ok b /\ byte_ok c /\ byte_ok d) /\
  z = a + b * 2 ^ 8 + c * 2 ^ 16 + d * 2 ^ 24.
Proof.
  intros Hz. exists (z mod 2 ^ 8), ((z / 2 ^ 8) mod 2 ^ 8), ((z / 2 ^ 16) mod 2 ^ 8),
    ((z / 2 ^ 24) mod 2 ^ 8).
  split; [repeat split; apply Z.mod_pos_bound; lia|].
  unfold in_range in Hz. Z.to_euclidean_division_equations. lia.
Qed.

Lemma swap32_involutive z : in_range 32 z -> swap32 (swap32 z) = z.
Proof.
  intros (a & b & c & d & (?&?&?&?) & ->)%word_of_bytes. by rewrite !swap32_bytes.
Qed.

(** * The kernel monad *)

(** Code that runs on a state [S] and may stop the machine: [None] is a failed
    [assert], a [panic] or an access through a null or dangling pointer. *)
Definition kern (S A : Type) : Type := S -> option (A * S).

#[global] Instance kern_ret S : MRet (kern S) := λ A a s, Some (a, s).
#[global] Instance kern_bind S : MBind (kern S) :=
  λ A B f m s, match m s with Some (a, s') => f a s' | None => None end.

Definition panic {S A} : kern S A := λ _, None.
Definition assert_ {S} (b : bool) : kern S unit := λ s, if b then Some (tt, s) else None.
Definition gets {S A} (f : S -> A) : kern S A := λ s, Some (f s, s).
Definition modify {S} (f : S -> S) : kern S unit := λ s, Some (tt, f s).
(** A pointer dereference: the read of a partial function of the state. *)
Definition deref {S A} (f : S -> option A) : kern S A :=
  λ s, match f s with Some a => Some (a, s) | None => None end.

(** [runs m Q s]: from [s], [m] returns (it does not panic), and the result and
    final state satisfy [Q]. *)
Definition runs {S A} (m : kern S A) (Q : A -> S -> Prop) (s : S) : Prop :=
  match m s with Some (a, s') => Q a s' | None => False end.

Section runs_rules.
Context {S : Type}.

Lemma runs_ret {A} (a : A) Q (s : S) : Q a s -> runs (mret a) Q s.
Proof. done. Qed.

Lemma runs_bind {A B} (m : kern S A) (f : A -> kern S B) Q s :
  runs m (λ a s', runs (f a) Q s') s -> runs (m ≫= f) Q s.
Proof. unfold runs, mbind, kern_bind. by destruct (m s) as [[a s']|]. Qed.

Lemma runs_assert b Q (s : S) : b = true -> Q tt s -> runs (assert_ b) Q s.
Proof. by intros -> ?. Qed.

Lemma runs_gets {A} (f : S -> A) Q s : Q (f s) s -> runs (gets f) Q s.
Proof. done. Qed.

Lemma runs_modify (f : S -> S) Q s : Q tt (f s) -> runs (modify f) Q s.
Proof. done. Qed.

Lemma runs_deref {A} (f : S -> option A) a Q s : f s = Some a -> Q a s -> runs (deref f) Q s.
Proof. unfold runs, deref. by intros ->. Qed.

Lemma runs_weaken {A} (m : kern S A) (P Q : A -> S -> Prop) s :
  runs m P s -> (∀ a s', P a s' -> Q a s') -> runs m Q s.
Proof. unfold runs. destruct (m s) as [[a s']|]; auto. Qed.

Lemma runs_if {A} (b : bool) (m1 m2 : kern S A) Q s :
  (b = true -> runs m1 Q s) -> (b = false -> runs m2 Q s) -> runs (if b then m1 else m2) Q s.
Proof. destruct b; auto. Qed.

Lemma runs_result {A} (m : kern S A) Q s :
  runs m Q s <-> ∃ a s', m s = Some (a, s') /\ Q a s'.
Proof.
  unfold runs. split.
  - destruct (m s) as [[a s']|]; [eauto|done].
  - by intros (a & s' & -> & ?).
Qed.
End runs_rules.

(** One symbolic step of a triple; [runs_steps] iterates it. *)
Ltac runs_step :=
  lazymatch goal with
  | |- runs (mret _) _ _ => apply runs_ret
  | |- runs (mbind _ _) _ _ => apply runs_bind
  | |- runs (gets _) _ _ => apply runs_gets
  | |- runs (modify _) _ _ => apply runs_modify
  end.
Ltac runs_steps := repeat (runs_step; cbv beta).

(** * Lists *)

Lemma lookup_insert_Z_eq {A} (l : list A) (i : Z) x :
  0 <= i < zlen l -> <[Z.to_nat i := x]> l !! Z.to_nat i = Some x.
Proof. intros. apply list_lookup_insert_eq. lia. Qed.

Lemma lookup_insert_Z_ne {A} (l : list A) (i j : Z) x :
  0 <= i -> 0 <= j -> i <> j -> <[Z.to_nat i := x]> l !! Z.to_nat j = l !! Z.to_nat j.
Proof. intros. apply list_lookup_insert_ne. lia. Qed.

Lemma length_wr8 buf off v buf' : wr8 buf off v = Some buf' -> length buf' = length buf.
Proof. unfold wr8. case_decide; intros [= <-]. apply length_insert. Qed.

Lemma filter_all {A} (P : A -> Prop) `{!∀ x, Decision (P x)} l : Forall P l -> filter P l = l.
Proof. induction 1; [done|]. rewrite filter_cons_True by done. by f_equal. Qed.

Lemma filter_none {A} (P : A -> Prop) `{!∀ x, Decision (P x)} l :
  Forall (λ x, ~ P x) l -> filter P l = [].
Proof. induction 1; [done|]. by rewrite filter_cons_False. Qed.

(** ** Runs of bytes *)

Fixpoint wr_bytes (buf : list Z) (off : Z) (bs : list Z) : option (list Z) :=
  match bs with
  | [] => Some buf
  | b :: bs => buf ← wr8 buf off b; wr_bytes buf (off + 1) bs
  end.

Lemma wr8_mid pre c0 suf c : wr8 (pre ++ c0 :: suf) (zlen pre) c = Some (pre ++ c :: suf).
Proof.
  unfold wr8. rewrite decide_True by (rewrite length_app; simpl; lia).
  rewrite Nat2Z.id, insert_app_r_alt, Nat.sub_diag by lia. done.
Qed.

(** A run of bytes replaces as many bytes of the buffer. *)
Lemma wr_bytes_mid bs : ∀ pre mid suf, length mid = length bs ->
  wr_bytes (pre ++ mid ++ suf) (zlen pre) bs = Some (pre ++ bs ++ suf).
Proof.
  induction bs as [|c bs IH]; intros pre mid suf E; [by destruct mid|].
  destruct mid as [|c0 mid]; [done|]. simpl. rewrite wr8_mid. simpl.
  replace (zlen pre + 1) with (zlen (pre ++ [c])) by (rewrite length_app; simpl; lia).
  specialize (IH (pre ++ [c]) mid suf). rewrite <- !app_assoc in IH. apply IH.
  simpl in E. lia.
Qed.

Lemma wr_bytes_front bs buf : (length bs <= length buf)%nat ->
  wr_bytes buf 0 bs = Some (bs ++ drop (length bs) buf).
Proof.
  intros H. rewrite <- (take_drop (length bs) buf) at 1.
  apply (wr_bytes_mid bs []). rewrite length_take. lia.
Qed.


(** ** C strings, as byte lists *)

Definition bytes_of (s : string) : list Z :=
  (λ c, Z.of_nat (Ascii.nat_of_ascii c)) <$> String.list_ascii_of_string s.

(** The bytes of a C string up to its NUL; [None] when the array has none. *)
Fixpoint c_string (l : list Z) : option (list Z) :=
  match l with
  | [] => None
  | b :: l => if b =? 0 then Some [] else cons b <$> c_string l
  end.

(** [!strncmp(a, b, n)] on C strings. *)
Definition strncmp_eq (a b : list Z) (n : nat) : bool :=
  bool_decide (take n (a ++ [0]) = take n (b ++ [0])).

Lemma c_string_Some l v : c_string l = Some v -> ∃ r, l = v ++ 0 :: r.
Proof.
  revert v. induction l as [|b l IH]; intros v; [done|]. simpl.
  destruct (Z.eqb_spec b 0) as [->|].
  - intros [= <-]. by exists l.
  - destruct (c_string l) as [v'|]; [|done]. intros [= <-].
    destruct (IH v' eq_refl) as [r ->]. by exists r.
Qed.

Lemma c_string_app0 l : exists v, c_string (l ++ [0]) = Some v.
Proof.
  induction l as [|b l [v Hv]]; [by exists []|]. simpl.
  destruct (b =? 0); [by eexists|]. rewrite Hv. by eexists.
Qed.

Lemma strncmp_eq_spec a b n :
  (length a < n)%nat -> (length b < n)%nat -> strncmp_eq a b n = true <-> a = b.
Proof.
  intros. unfold strncmp_eq. rewrite bool_decide_eq_true.
  rewrite !take_ge by (rewrite length_app; simpl; lia).
  split; [apply app_inv_tail|by intros ->].
Qed.

Lemma c_string_end l r : Forall (λ b, b <> 0) l -> c_string (l ++ 0 :: r) = Some l.
Proof.
  induction 1 as [|b l Hb _ IH]; [done|]. simpl.
  by rewrite (proj2 (Z.eqb_neq b 0)), IH.
Qed.

(** A table filled by a run over [rs]: item [r] stores [g r] in slot [f r]. *)
Definition assign_all {A B} (f : A -> option nat) (g : A -> B) (l : list B) (rs : list A)
    : list B :=
  foldl (λ l r, match f r with Some k => <[k := g r]> l | None => l end) l rs.

Lemma length_assign_all {A B} (f : A -> option nat) (g : A -> B) l rs :
  length (assign_all f g l rs) = length l.
Proof.
  unfold assign_all. revert l. induction rs as [|r rs IH]; intros l; simpl; [done|].
  rewrite IH. destruct (f r); [apply length_insert|done].
Qed.

(** The last item that stores in a slot decides what the table holds there. *)
Lemma lookup_assign_all {A B} (f : A -> option nat) (g : A -> B) l rs k :
  (k < length l)%nat ->
  assign_all f g l rs !! k =
    match last (filter (λ r, f r = Some k) rs) with
    | Some r => Some (g r) | None => l !! k end.
Proof.
  revert l. induction rs as [|r rs IH] using rev_ind; intros l Hk; [done|].
  unfold assign_all in *. rewrite foldl_app, filter_app. simpl.
  rewrite filter_cons, filter_nil. destruct (decide (f r = Some k)) as [->|Hne].
  - rewrite last_snoc. apply list_lookup_insert_eq.
    pose proof (length_assign_all f g l rs) as E. unfold assign_all in E. lia.
  - rewrite app_nil_r, <- IH by done. destruct (f r) as [j|]; [|done].
    apply list_lookup_insert_ne. congruence.
Qed.

(** ** Sums over maps *)

Definition map_sum {A} (f : A -> Z) (m : gmap Z A) : Z := map_fold (λ _ x acc, f x + acc) 0 m.

Lemma map_sum_insert {A} (f : A -> Z) i x m : m !! i = None ->
  map_sum f (<[i := x]> m) = f x + map_sum f m.
Proof. intros H. unfold map_sum. rewrite map_fold_insert_L; [done| |done]. intros. lia. Qed.

Lemma map_sum_upd {A} (f : A -> Z) i x m :
  map_sum f (<[i := x]> m) = f x + map_sum f (delete i m).
Proof. rewrite <- insert_delete_eq. apply map_sum_insert, lookup_delete_eq. Qed.

Lemma map_sum_delete {A} (f : A -> Z) i x m : m !! i = Some x ->
  map_sum f m = f x + map_sum f (delete i m).
Proof. intros H. rewrite <- map_sum_upd. by rewrite insert_id. Qed.

Lemma map_sum_nonneg {A} (f : A -> Z) m : (∀ x, 0 <= f x) -> 0 <= map_sum f m.
Proof.
  intros Hf. induction m as [|i x m Hi IH] using map_ind; [done|].
  rewrite map_sum_insert by done. specialize (Hf x). lia.
Qed.

Lemma map_sum_zero {A} (f : A -> Z) m i x : (∀ x, 0 <= f x) -> map_sum f m = 0 ->
  m !! i = Some x -> f x = 0.
Proof.
  intros Hf H0 Hi. rewrite (map_sum_delete f i x m Hi) in H0.
  pose proof (map_sum_nonneg f (delete i m) Hf). specialize (Hf x). lia.
Qed.

Create HintDb kernel.
#[export] Hint Resolve wrap_range wrap_small swap32_range : kernel.
#[export] Hint Resolve runs_ret runs_gets runs_modify : kernel.
Create Rewrite HintDb kernel_rw.
#[export] Hint Rewrite wrap_wrap wrap_add_l wrap_add_r : kernel_rw.
