(* ===== verification/SetSegName.v ===== *)
(** The segment-renaming tool of the Snow Leopard build,
    kernel/Atom-Kernel-N570/tools/snowleopard/setsegname.c: it maps a Mach-O
    file, walks the load commands of either byte order and word size, and
    overwrites the segment name of every section that is not a debug section.

    The mapped file is a byte list and a pointer into it an offset; a read or
    write outside of the mapping is a fault, [None].  The structure offsets are
    those of EXTERNAL_HEADERS/mach-o/loader.h. *)

From S2P Require Import Prelude.

Module SetSegName.

Definition MH_MAGIC : Z := 0xfeedface.
Definition MH_CIGAM : Z := 0xcefaedfe.
Definition MH_MAGIC_64 : Z := 0xfeedfacf.
Definition MH_CIGAM_64 : Z := 0xcffaedfe.
Definition LC_SEGMENT : Z := 0x1.
Definition LC_SEGMENT_64 : Z := 0x19.
Definition S_ATTR_DEBUG : Z := 0x02000000.
Definition S_IFREG : Z := 0x8000.

(** Offsets of [nsects] in the segment command, of the first section behind it,
    of [segname] and [flags] in a section, and the size of a section. *)
Record layout := Layout {
  seg_nsects : Z; seg_size : Z; sect_segname : Z; sect_flags : Z; sect_size : Z }.

(** struct [segment_command] and struct [section]
    (EXTERNAL_HEADERS/mach-o/loader.h, 306-318). *)
Definition layout32 : layout := Layout 48 56 16 56 68.
(** struct [segment_command_64] and struct [section_64]
    (EXTERNAL_HEADERS/mach-o/loader.h, 326-338). *)
Definition layout64 : layout := Layout 64 72 16 64 80.

(** What the tool asks of the operating system, with the answers. *)
Record os_env := OsEnv {
  in_open : bool; in_fstat : bool; in_mode : Z; in_mmap : bool;
  in_data : list Z;            (* contents of the input file *)
  out_open : bool;
  out_written : Z -> Z }.      (* what write(2) returns for a length *)

(** Outcome of the program: an exit status and the output file, if opened. *)
Inductive outcome := Exited (status : Z) (output : option (list Z)).

(** [writeFile] (tools/snowleopard/setsegname.c, 18-32): the error code. *)
Definition writeFile (env : os_env) (length : Z) : Z :=
  let error := 0 in
  let error := if negb (length =? out_written env length) then -1 else error in
  error.

(** [readFile] (tools/snowleopard/setsegname.c, 34-85): the error code and the
    mapping, [None] for the null address. *)
Definition readFile (env : os_env) : Z * option (list Z) :=
  let error := -1 in
  if negb (in_open env) then (error, None)
  else if negb (in_fstat env) then (error, None)
  else if 0 =? (in_mode env &&& S_IFREG) then (error, None)
  else if 0 =? zlen (in_data env) then (0, None)
  else if negb (in_mmap env) then (error, None)
  else (0, Some (in_data env)).

(** A [uint32_t] of the file in the byte order of the tool. *)
Definition get32 (swap : bool) (buf : list Z) (off : Z) : option Z :=
  z ← rd32 buf off; Some (if swap then swap32 z else z).

(** The 16 bytes that [strncpy(names, newseg_name, 16)] stores. *)
Definition strncpy16 (newseg_name : list Z) : list Z :=
  take 16 newseg_name ++ replicate (16 - length newseg_name) 0.

(** [main], the loop over the sections of one segment
    (tools/snowleopard/setsegname.c, 175-187). *)
Fixpoint sect_loop (swap : bool) (L : layout) (newseg_name : list Z)
    (nsects : nat) (names flags : Z) (buf : list Z) : option (list Z) :=
  match nsects with
  | O => Some buf
  | S nsects =>
      attr ← get32 swap buf flags;
      buf ← (if negb (truth (S_ATTR_DEBUG &&& attr))
             then wr_bytes buf names (strncpy16 newseg_name) else Some buf);
      sect_loop swap L newseg_name nsects (names + sect_size L) (flags + sect_size L) buf
  end.

(** [main], the segment layout a command selects
    (tools/snowleopard/setsegname.c, 149-171). *)
Definition command_layout (cmdtype : Z) : option layout :=
  if LC_SEGMENT =? cmdtype then Some layout32
  else if LC_SEGMENT_64 =? cmdtype then Some layout64
  else None.

(** [main], the loop over the load commands
    (tools/snowleopard/setsegname.c, 144-194). *)
Fixpoint cmd_loop (swap : bool) (newseg_name : list Z)
    (ncmds : nat) (cmds : Z) (buf : list Z) : option (list Z) :=
  match ncmds with
  | O => Some buf
  | S ncmds =>
      cmdtype ← get32 swap buf cmds;
      buf ← match command_layout cmdtype with
            | Some L =>
                nsects ← get32 swap buf (cmds + seg_nsects L);
                sect_loop swap L newseg_name (Z.to_nat nsects)
                  (cmds + seg_size L + sect_segname L) (cmds + seg_size L + sect_flags L) buf
            | None => Some buf
            end;
      len ← get32 swap buf (cmds + 4);
      cmd_loop swap newseg_name ncmds (cmds + len) buf
  end.

(** [main], the header cases: byte order and offset of the first command
    (tools/snowleopard/setsegname.c, 119-139); [None] is "not macho". *)
Definition header (magic : Z) : option (bool * Z) :=
  if magic =? MH_CIGAM then Some (true, 28)
  else if magic =? MH_MAGIC then Some (false, 28)
  else if magic =? MH_CIGAM_64 then Some (true, 32)
  else if magic =? MH_MAGIC_64 then Some (false, 32)
  else None.

(** [main] (tools/snowleopard/setsegname.c, 87-212), with [argv] as byte lists;
    [None] is a fault. *)
Definition main (env : os_env) (argv : list (list Z)) : option outcome :=
  match argv with
  | [_; newseg_name; _; minus_o; _] =>
      if negb (bool_decide (minus_o = [45; 111])) then Some (Exited 1 None)
      else
        let '(error, input) := readFile env in
        if negb (error =? 0) then Some (Exited 1 None)
        else
          input ← input;
          magic ← rd32 input 0;
          match header magic with
          | None => Some (Exited 1 None)
          | Some (swap, cmds) =>
              ncmds ← get32 swap input 16;
              input ← cmd_loop swap newseg_name (Z.to_nat ncmds) cmds input;
              if negb (out_open env) then Some (Exited 1 None)
              else
                let output := take (Z.to_nat (out_written env (zlen input))) input in
                if negb (writeFile env (zlen input) =? 0) then Some (Exited 1 (Some output))
                else Some (Exited 0 (Some output))
          end
  | _ => Some (Exited 1 None)
  end.

(** * Specification: the fields to rename, read off the original file *)

Fixpoint sect_targets (swap : bool) (L : layout) (nsects : nat) (names flags : Z)
    (buf : list Z) : option (list Z) :=
  match nsects with
  | O => Some []
  | S nsects =>
      attr ← get32 swap buf flags;
      rest ← sect_targets swap L nsects (names + sect_size L) (flags + sect_size L) buf;
      Some (if negb (truth (S_ATTR_DEBUG &&& attr)) then names :: rest else rest)
  end.

Fixpoint cmd_targets (swap : bool) (ncmds : nat) (cmds : Z) (buf : list Z) : option (list Z) :=
  match ncmds with
  | O => Some []
  | S ncmds =>
      cmdtype ← get32 swap buf cmds;
      here ← match command_layout cmdtype with
             | Some L =>
                 nsects ← get32 swap buf (cmds + seg_nsects L);
                 sect_targets swap L (Z.to_nat nsects)
                   (cmds + seg_size L + sect_segname L) (cmds + seg_size L + sect_flags L) buf
             | None => Some []
             end;
      len ← get32 swap buf (cmds + 4);
      rest ← cmd_targets swap ncmds (cmds + len) buf;
      Some (here ++ rest)
  end.

Fixpoint rename_all (newseg_name : list Z) (targets : list Z) (buf : list Z) : option (list Z) :=
  match targets with
  | [] => Some buf
  | t :: ts => buf ← wr_bytes buf t (strncpy16 newseg_name); rename_all newseg_name ts buf
  end.

(** Each command lies in the file and is long enough for its fields and sections. *)
Fixpoint wf_cmds (swap : bool) (ncmds : nat) (cmds : Z) (buf : list Z) : Prop :=
  match ncmds with
  | O => True
  | S ncmds =>
      ∃ cmdtype len, get32 swap buf cmds = Some cmdtype /\ get32 swap buf (cmds + 4) = Some len /\
        match command_layout cmdtype with
        | Some L => ∃ nsects, get32 swap buf (cmds + seg_nsects L) = Some nsects /\
                     seg_size L + Z.max 0 nsects * sect_size L <= len
        | None => 8 <= len
        end /\ cmds + len <= zlen buf /\ wf_cmds swap ncmds (cmds + len) buf
  end.

(** Each segment command that can be read is at least as long as its own fields and the sections
    that it counts.  Nothing says that the commands and the sections lie in the file: reading or
    writing them may fault. *)
Fixpoint long_cmds (swap : bool) (ncmds : nat) (cmds : Z) (buf : list Z) : Prop :=
  match ncmds with
  | O => True
  | S ncmds => ∀ cmdtype len,
      get32 swap buf cmds = Some cmdtype -> get32 swap buf (cmds + 4) = Some len ->
      match command_layout cmdtype with
      | Some L => ∀ nsects, get32 swap buf (cmds + seg_nsects L) = Some nsects ->
                   seg_size L + Z.max 0 nsects * sect_size L <= len /\ long_cmds swap ncmds (cmds + len) buf
      | None => 0 <= len /\ long_cmds swap ncmds (cmds + len) buf
      end
  end.

Lemma wf_long swap buf : ∀ ncmds cmds, wf_cmds swap ncmds cmds buf -> long_cmds swap ncmds cmds buf.
Proof.
  induction ncmds as [|n IH]; intros cmds; [done|]. intros (ct & len & Hc & Hl & HL & _ & Hw).
  intros ct' len'. rewrite Hc, Hl. intros [= <-] [= <-].
  destruct (command_layout ct); [|split; [lia|by apply IH]].
  destruct HL as (ns & Hns & ?). intros ns'. rewrite Hns. intros [= <-]. split; [done|by apply IH].
Qed.

(** * Writes and the reads they leave alone *)

(** [buf'] is [buf] except on the offsets [a <= i < b]. *)
Definition same_outside (a b : Z) (buf buf' : list Z) : Prop :=
  length buf' = length buf /\
  ∀ i, 0 <= i -> i < a \/ b <= i -> buf' !! Z.to_nat i = buf !! Z.to_nat i.

Lemma same_outside_refl a b buf : same_outside a b buf buf.
Proof. by split. Qed.

Lemma same_outside_trans a b c d x y z :
  same_outside a b x y -> same_outside c d y z ->
  same_outside (Z.min a c) (Z.max b d) x z.
Proof. intros [L1 E1] [L2 E2]. split; [congruence|]. intros. rewrite E2, E1 by lia. done. Qed.

Lemma same_outside_weaken a b a' b' x y :
  same_outside a b x y -> a' <= a -> b <= b' -> same_outside a' b' x y.
Proof. intros [L E] ??. split; [done|]. intros. apply E; lia. Qed.

Lemma wr_bytes_outside bs : ∀ buf off buf',
  wr_bytes buf off bs = Some buf' -> same_outside off (off + zlen bs) buf buf'.
Proof.
  induction bs as [|b bs IH]; intros buf off buf'; simpl; [intros [= <-]; apply same_outside_refl|].
  unfold wr8. case_decide as Hr; simpl; [|done]. intros [Hl E]%IH.
  rewrite length_insert in Hl. split; [done|].
  intros i Hi Ho. rewrite E by lia. apply lookup_insert_Z_ne; lia.
Qed.

Lemma wr_bytes_ok bs : ∀ buf off, 0 <= off -> off + zlen bs <= zlen buf ->
  ∃ buf', wr_bytes buf off bs = Some buf' /\
    ∀ k, 0 <= k < zlen bs -> buf' !! Z.to_nat (off + k) = bs !! Z.to_nat k.
Proof.
  induction bs as [|b bs IH]; intros buf off H0 Hl; cbn [length wr_bytes] in *.
  { eexists; split; [done|]. lia. }
  unfold wr8. rewrite decide_True by lia. simpl.
  destruct (IH (<[Z.to_nat off := b]> buf) (off + 1)) as (buf' & Hw & Hk);
    [lia|rewrite length_insert; lia|].
  eexists; split; [exact Hw|]. intros k Hk'.
  destruct (decide (k = 0)) as [->|].
  - apply wr_bytes_outside in Hw as [_ E]. rewrite Z.add_0_r, E by lia.
    apply lookup_insert_Z_eq. lia.
  - replace (off + k) with (off + 1 + (k - 1)) by lia. rewrite Hk by lia.
    by replace (Z.to_nat k) with (S (Z.to_nat (k - 1))) by lia.
Qed.


Lemma get32_outside swap a b buf buf' off :
  same_outside a b buf buf' -> off + 4 <= a \/ b <= off -> get32 swap buf' off = get32 swap buf off.
Proof.
  intros [Hl E] Ho. unfold get32, rd32. case_decide; [|done].
  rewrite !E by lia. done.
Qed.

Lemma length_strncpy16 nm : length (strncpy16 nm) = 16%nat.
Proof. unfold strncpy16. rewrite length_app, length_take, length_replicate. lia. Qed.

(** A read pass over sections at or above the end of a write is unaffected. *)
Lemma sect_targets_outside swap L a b buf buf' : 0 <= sect_size L ->
  same_outside a b buf buf' -> ∀ n names flags, b <= flags ->
  sect_targets swap L n names flags buf' = sect_targets swap L n names flags buf.
Proof.
  intros Hs Ho. induction n as [|n IH]; intros names flags Hf; simpl; [done|].
  rewrite (get32_outside swap a b buf buf') by auto. rewrite IH by lia. done.
Qed.

Definition layout_ok (L : layout) : Prop :=
  8 <= seg_nsects L /\ seg_nsects L + 4 <= seg_size L /\ 0 <= sect_segname L /\
  sect_segname L + 16 <= sect_flags L /\ sect_flags L + 4 <= sect_size L.

Lemma command_layout_ok c L : command_layout c = Some L -> layout_ok L.
Proof. unfold command_layout, layout_ok. repeat case_match; intros [= <-]; simpl; lia. Qed.

(** * One pass over a segment *)

Lemma rename_all_app nm ts1 : ∀ ts2 buf,
  rename_all nm (ts1 ++ ts2) buf = (buf ← rename_all nm ts1 buf; rename_all nm ts2 buf).
Proof.
  induction ts1 as [|t ts IH]; intros; simpl; [done|].
  destruct (wr_bytes _ _ _); simpl; [apply IH|done].
Qed.

Lemma sect_loop_two_pass swap L nm : layout_ok L -> ∀ n names flags buf,
  names + 16 <= flags + sect_size L ->
  sect_loop swap L nm n names flags buf =
    (ts ← sect_targets swap L n names flags buf; rename_all nm ts buf).
Proof.
  intros (?&?&?&?&?). induction n as [|n IH]; intros names flags buf Hf; simpl; [done|].
  destruct (get32 swap buf flags) as [attr|]; simpl; [|done].
  destruct (negb _); simpl.
  - destruct (wr_bytes buf names _) as [buf'|] eqn:Hw; simpl.
    + rewrite IH by lia.
      apply wr_bytes_outside in Hw as Ho. rewrite length_strncpy16 in Ho.
      rewrite (sect_targets_outside swap L _ _ _ _ ltac:(lia) Ho) by lia.
      destruct (sect_targets _ _ _ _ _ buf); simpl; [by rewrite Hw|done].
    + destruct (sect_targets _ _ _ _ _ buf); simpl; [by rewrite Hw|done].
  - rewrite IH by lia. by destruct (sect_targets _ _ _ _ _ buf).
Qed.

(** The bytes one segment may change. *)
Lemma sect_loop_outside swap L nm : layout_ok L -> ∀ n names flags buf buf',
  sect_loop swap L nm n names flags buf = Some buf' ->
  same_outside names (names + Z.of_nat n * sect_size L - sect_segname L) buf buf'.
Proof.
  intros (?&?&?&?&?). induction n as [|n IH]; intros names flags buf buf'; simpl.
  { intros [= <-]. apply same_outside_refl. }
  destruct (get32 swap buf flags) as [attr|]; simpl; [|done].
  destruct (negb _); simpl.
  - destruct (wr_bytes buf names _) as [buf1|] eqn:Hw; simpl; [|done]. intros Hl%IH.
    apply wr_bytes_outside in Hw. rewrite length_strncpy16 in Hw.
    destruct n as [|n].
    + eapply same_outside_weaken; [exact (same_outside_trans _ _ _ _ _ _ _ Hw Hl)|lia|lia].
    + eapply same_outside_weaken; [exact (same_outside_trans _ _ _ _ _ _ _ Hw Hl)|lia|nia].
  - intros Hl%IH. eapply same_outside_weaken; [exact Hl|lia|lia].
Qed.

(** * One pass over the commands *)

Lemma long_cmds_outside swap a b buf buf' : same_outside a b buf buf' ->
  ∀ n cmds, b <= cmds -> long_cmds swap n cmds buf ->
  long_cmds swap n cmds buf' /\ cmd_targets swap n cmds buf' = cmd_targets swap n cmds buf.
Proof.
  intros Ho. induction n as [|n IH]; intros cmds Hb Hlong; [done|].
  assert (∀ off, cmds <= off -> get32 swap buf' off = get32 swap buf off) as Hsame
    by (intros; eapply get32_outside; [done|lia]).
  cbn [long_cmds cmd_targets] in *. rewrite !Hsame by lia.
  destruct (get32 swap buf cmds) as [ct|]; [|done]. specialize (Hlong ct).
  destruct (get32 swap buf (cmds + 4)) as [len|]; cbn [mbind option_bind].
  2:{ split; [done|]. destruct (command_layout ct) as [L|] eqn:HcL; [|done].
      destruct (command_layout_ok _ _ HcL) as (?&?&?&?&?). rewrite Hsame by lia.
      destruct (get32 swap buf (cmds + seg_nsects L)); [|done]. cbn [mbind option_bind].
      by rewrite (sect_targets_outside swap L a b buf buf') by (auto; lia). }
  specialize (Hlong len eq_refl eq_refl).
  destruct (command_layout ct) as [L|] eqn:HcL.
  - destruct (command_layout_ok _ _ HcL) as (?&?&?&?&?). rewrite Hsame by lia.
    destruct (get32 swap buf (cmds + seg_nsects L)) as [ns|] eqn:Hns; cbn [mbind option_bind].
    2:{ split; [|done]. intros ct' len' [= <-] [= <-]. rewrite HcL, Hsame, Hns by lia. done. }
    destruct (Hlong ns eq_refl) as [Hlen Hrest].
    assert (0 <= Z.max 0 ns * sect_size L) by (apply Z.mul_nonneg_nonneg; lia).
    destruct (IH (cmds + len)) as [Hw' ->]; [lia|done|].
    rewrite (sect_targets_outside swap L a b buf buf') by (auto; lia).
    split; [|done]. intros ct' len' [= <-] [= <-]. rewrite HcL, Hsame, Hns by lia. by intros ns' [= <-].
  - destruct Hlong as [Hlen Hrest]. destruct (IH (cmds + len)) as [Hw' ->]; [lia|done|].
    split; [|done]. intros ct' len' [= <-] [= <-]. by rewrite HcL.
Qed.

(** The writes of one command stay inside of it and behind its own fields. *)
Lemma command_outside swap L nm cmds ns buf buf' : layout_ok L ->
  sect_loop swap L nm (Z.to_nat ns) (cmds + seg_size L + sect_segname L)
    (cmds + seg_size L + sect_flags L) buf = Some buf' ->
  same_outside (cmds + seg_size L) (cmds + seg_size L + Z.max 0 ns * sect_size L) buf buf'.
Proof.
  intros HL Hl. pose proof HL as (?&?&?&?&?).
  apply sect_loop_outside in Hl; [|done].
  eapply same_outside_weaken; [exact Hl|lia|]. rewrite ZifyInst.of_nat_to_nat_eq. lia.
Qed.

Lemma cmd_loop_is_two_pass swap nm : ∀ ncmds cmds buf,
  long_cmds swap ncmds cmds buf ->
  cmd_loop swap nm ncmds cmds buf =
    (ts ← cmd_targets swap ncmds cmds buf; rename_all nm ts buf).
Proof.
  induction ncmds as [|n IH]; intros cmds buf Hlong; [done|].
  cbn [cmd_loop cmd_targets long_cmds] in *.
  destruct (get32 swap buf cmds) as [ct|]; [|done]. specialize (Hlong ct). cbn [mbind option_bind].
  destruct (command_layout ct) as [L|] eqn:HcL; cbn [mbind option_bind].
  2:{ destruct (get32 swap buf (cmds + 4)) as [len|]; [|done]. cbn [mbind option_bind].
      rewrite IH by (by apply Hlong). by destruct (cmd_targets _ _ _ buf). }
  pose proof (command_layout_ok _ _ HcL) as HLok. pose proof HLok as (?&?&?&?&?).
  destruct (get32 swap buf (cmds + seg_nsects L)) as [ns|]; [|done]. cbn [mbind option_bind].
  rewrite sect_loop_two_pass by (done || lia).
  destruct (sect_targets swap L _ _ _ buf) as [ts|] eqn:Hts; [|done]. cbn [mbind option_bind].
  destruct (rename_all nm ts buf) as [buf1|] eqn:Hr; cbn [mbind option_bind].
  2:{ destruct (get32 swap buf (cmds + 4)) as [len|]; [|done]. cbn [mbind option_bind].
      destruct (cmd_targets _ _ _ buf); [|done]. cbn [mbind option_bind]. by rewrite rename_all_app, Hr. }
  assert (Ho : same_outside (cmds + seg_size L) (cmds + seg_size L + Z.max 0 ns * sect_size L) buf buf1).
  { eapply (command_outside swap L nm); [done|]. rewrite sect_loop_two_pass, Hts by (done || lia). exact Hr. }
  rewrite (get32_outside swap _ _ _ _ _ Ho) by lia.
  destruct (get32 swap buf (cmds + 4)) as [len|]; [|done]. cbn [mbind option_bind].
  destruct (Hlong len eq_refl eq_refl ns eq_refl) as [Hlen Hrest].
  destruct (long_cmds_outside swap _ _ _ _ Ho n (cmds + len)) as [Hw1 Ht1]; [lia|done|].
  rewrite IH, Ht1 by done. destruct (cmd_targets _ _ _ buf); [|done]. cbn [mbind option_bind].
  by rewrite rename_all_app, Hr.
Qed.

(** C11 (equivalence): the single pass of the tool, which reads the commands and the sections of a
    file that it is changing, equals a read pass over the original file that lists the segment-name
    fields of the non-debug sections, followed by a [strncpy] of the new name into each of them.  It
    faults exactly when a read of the one pass or a write of the other does: the commands and their
    sections may reach behind the end of the file.  The only condition is that a segment command is
    at least as long as its own fields and the sections that it counts, so that the names which were
    written are not read again as a later command. *)
Theorem cmd_loop_two_pass swap nm ncmds cmds buf :
  long_cmds swap ncmds cmds buf ->
  cmd_loop swap nm ncmds cmds buf =
    (ts ← cmd_targets swap ncmds cmds buf; rename_all nm ts buf).
Proof. apply cmd_loop_is_two_pass. Qed.

(** * Where the fields are, and what the pass leaves in them *)

Definition apart (a b : Z) : Prop := a + 16 <= b.

(** The listed fields lie in [lo, hi) and are at least 16 bytes apart. *)
Definition spaced (lo hi : Z) (ts : list Z) : Prop :=
  StronglySorted apart ts /\ Forall (λ t, lo <= t /\ t + 16 <= hi) ts.

Lemma spaced_nil lo hi : spaced lo hi [].
Proof. split; constructor. Qed.

Lemma spaced_cons lo hi t ts : lo <= t -> t + 16 <= hi -> spaced (t + 16) hi ts -> spaced lo hi (t :: ts).
Proof.
  intros Hlo Hhi [Hs Hf]. split.
  - constructor; [done|]. eapply Forall_impl; [exact Hf|]. unfold apart. simpl. lia.
  - constructor; [lia|]. eapply Forall_impl; [exact Hf|]. simpl. lia.
Qed.

Lemma spaced_weaken lo hi lo' hi' ts : spaced lo hi ts -> lo' <= lo -> hi <= hi' -> spaced lo' hi' ts.
Proof. intros [Hs Hf] ??. split; [done|]. eapply Forall_impl; [exact Hf|]. simpl. lia. Qed.

Lemma spaced_app lo mid hi ts1 ts2 : lo <= mid -> mid <= hi ->
  spaced lo mid ts1 -> spaced mid hi ts2 -> spaced lo hi (ts1 ++ ts2).
Proof.
  intros Hlm Hmh [Hs1 Hf1] H2. revert lo Hlm Hf1. induction Hs1 as [|t ts Hs IH Ht]; intros lo Hlm Hf1; simpl.
  - eapply spaced_weaken; eauto; lia.
  - inversion_clear Hf1 as [|? ? Hb Hf]. apply spaced_cons; [lia|lia|].
    apply IH; [lia|]. rewrite Forall_forall in Ht, Hf |- *. unfold apart in Ht.
    intros x Hx. specialize (Ht x Hx). specialize (Hf x Hx). lia.
Qed.

Lemma sect_targets_spaced swap L n : layout_ok L -> ∀ names flags buf ts,
  sect_targets swap L n names flags buf = Some ts ->
  spaced names (names + Z.of_nat n * sect_size L - sect_segname L) ts.
Proof.
  intros (?&?&?&?&?). induction n as [|n IH]; intros names flags buf ts; simpl.
  { intros [= <-]. apply spaced_nil. }
  destruct (get32 _ _ _); simpl; [|done].
  destruct (sect_targets _ _ _ _ _ _) as [rest|] eqn:Hr; simpl; [|done]. apply IH in Hr.
  destruct (negb _); intros [= <-].
  - apply spaced_cons; [lia|nia|]. eapply spaced_weaken; [exact Hr|lia|lia].
  - eapply spaced_weaken; [exact Hr|lia|lia].
Qed.

Lemma get32_in swap buf off : 0 <= off -> off + 4 <= zlen buf -> ∃ z, get32 swap buf off = Some z.
Proof.
  intros. unfold get32, rd32. rewrite decide_True by done.
  destruct (lookup_lt_is_Some_2 buf (Z.to_nat off)) as [b0 ->]; [lia|].
  destruct (lookup_lt_is_Some_2 buf (Z.to_nat (off + 1))) as [b1 ->]; [lia|].
  destruct (lookup_lt_is_Some_2 buf (Z.to_nat (off + 2))) as [b2 ->]; [lia|].
  destruct (lookup_lt_is_Some_2 buf (Z.to_nat (off + 3))) as [b3 ->]; [lia|]. simpl. eauto.
Qed.

Lemma sect_targets_total swap L buf n : layout_ok L -> ∀ names flags,
  0 <= flags -> flags + Z.of_nat n * sect_size L + 4 - sect_size L <= zlen buf ->
  ∃ ts, sect_targets swap L n names flags buf = Some ts.
Proof.
  intros (?&?&?&?&?). induction n as [|n IH]; intros names flags Hf Hn; simpl; [eauto|].
  destruct (get32_in swap buf flags) as [z ->]; [done|nia|]. simpl.
  destruct (IH (names + sect_size L) (flags + sect_size L)) as [ts ->]; [lia|lia|]. simpl. eauto.
Qed.

(** A well-formed file is walked without a fault, and lists separated fields. *)
Lemma cmd_targets_ok swap buf : ∀ n cmds, 0 <= cmds -> wf_cmds swap n cmds buf ->
  cmds <= zlen buf ->
  ∃ ts, cmd_targets swap n cmds buf = Some ts /\ spaced cmds (zlen buf) ts.
Proof.
  induction n as [|n IH]; intros cmds H0; simpl; [eauto using spaced_nil|].
  intros (ct & len & Hc & Hl & HL & Hle & Hw) Hcl. rewrite Hc, Hl. simpl.
  destruct (command_layout ct) as [L|] eqn:HcL; simpl.
  - destruct HL as (ns & Hns & Hlen). rewrite Hns. simpl.
    pose proof (command_layout_ok _ _ HcL) as HLok. pose proof HLok as (?&?&?&?&?).
    assert (Z.of_nat (Z.to_nat ns) = Z.max 0 ns) as Hn by lia.
    assert (0 <= Z.max 0 ns * sect_size L) by (apply Z.mul_nonneg_nonneg; lia).
    destruct (sect_targets_total swap L buf (Z.to_nat ns) HLok
      (cmds + seg_size L + sect_segname L) (cmds + seg_size L + sect_flags L)) as [ts Hts];
      [lia|rewrite Hn; lia|].
    rewrite Hts. simpl. apply sect_targets_spaced in Hts; [|done]. rewrite Hn in Hts.
    destruct (IH (cmds + len)) as (ts' & -> & Hsp); [lia|done|lia|]. simpl.
    eexists; split; [done|]. apply (spaced_app _ (cmds + len)); [lia|lia| |done].
    eapply spaced_weaken; [exact Hts|lia|lia].
  - destruct (IH (cmds + len)) as (ts' & -> & Hsp); [lia|done|lia|]. simpl.
    eexists; split; [done|]. eapply spaced_weaken; [exact Hsp|lia|lia].
Qed.

(** What a successful byte store leaves behind. *)
(** [buf'] is [buf] with the new name in every listed field. *)
Definition renamed (nm : list Z) (ts : list Z) (buf buf' : list Z) : Prop :=
  length buf' = length buf /\
  (∀ i, 0 <= i -> Forall (λ t, i < t \/ t + 16 <= i) ts -> buf' !! Z.to_nat i = buf !! Z.to_nat i) /\
  (∀ t k, t ∈ ts -> 0 <= k < 16 -> buf' !! Z.to_nat (t + k) = strncpy16 nm !! Z.to_nat k).

Lemma rename_all_ok nm ts : ∀ lo buf, 0 <= lo -> spaced lo (zlen buf) ts ->
  ∃ buf', rename_all nm ts buf = Some buf' /\ renamed nm ts buf buf'.
Proof.
  unfold renamed. induction ts as [|t ts IH]; intros lo buf H0 [Hs Hf]; simpl.
  { eexists; repeat split. intros t k Ht. by apply not_elem_of_nil in Ht. }
  inversion_clear Hs as [|? ? Hss Hap]. inversion_clear Hf as [|? ? Hb Hff].
  destruct (wr_bytes_ok (strncpy16 nm) buf t) as (b1 & Hw & Hin);
    [lia|rewrite length_strncpy16; lia|]. rewrite Hw. simpl.
  apply wr_bytes_outside in Hw as [Hl1 Ho1]. rewrite length_strncpy16 in *.
  destruct (IH lo b1) as (b2 & -> & Hl2 & Ho2 & Hi2); [done|by rewrite Hl1|].
  eexists; split; [done|]. split; [congruence|]. split.
  - intros i Hi Hall. inversion_clear Hall. rewrite Ho2, Ho1 by (done || lia). done.
  - intros t' k Ht' Hk. apply elem_of_cons in Ht' as [->|Ht']; [|by apply Hi2].
    rewrite Ho2; [by apply Hin|lia|]. eapply Forall_impl; [exact Hap|]. unfold apart. simpl. lia.
Qed.

(** C12 (functional): on a file whose load commands are well formed, the tool
    never faults; it writes a file of the same length, in which exactly the
    segment-name fields of the non-debug sections hold the new name, cut or
    padded with zeros to 16 bytes, and every other byte is unchanged. *)
Theorem cmd_loop_renames swap nm ncmds cmds buf :
  0 <= cmds <= zlen buf -> wf_cmds swap ncmds cmds buf ->
  ∃ ts buf', cmd_targets swap ncmds cmds buf = Some ts /\
    cmd_loop swap nm ncmds cmds buf = Some buf' /\ renamed nm ts buf buf'.
Proof.
  intros [H0 H1] Hw.
  assert (cmd_loop swap nm ncmds cmds buf =
    (ts ← cmd_targets swap ncmds cmds buf; rename_all nm ts buf)) as ->
    by by apply cmd_loop_is_two_pass, wf_long.
  destruct (cmd_targets_ok swap buf ncmds cmds) as (ts & -> & Hs); [done..|]. simpl.
  destruct (rename_all_ok nm ts cmds buf) as (buf' & Hr & Hren); [done..|]. eauto.
Qed.

(** [readFile] reports success with a null mapping for an empty
    regular file, and [main] then reads the magic through the null pointer:
    the tool faults on an empty input. *)
Theorem main_empty_input_faults env a0 nm path out :
  in_open env = true -> in_fstat env = true -> truth (in_mode env &&& S_IFREG) = true ->
  in_data env = [] -> readFile env = (0, None) /\ main env [a0; nm; path; [45; 111]; out] = None.
Proof.
  intros Ho Hf Hm Hd. apply truth_true in Hm.
  assert (readFile env = (0, None)) as Hr.
  { unfold readFile. rewrite Ho, Hf, Hd, (proj2 (Z.eqb_neq 0 _)) by lia. done. }
  split; [done|]. unfold main. rewrite bool_decide_true by done. simpl. by rewrite Hr.
Qed.

(** * Witnesses: a 32-bit object file with a text and a debug section *)

Definition le32 (z : Z) : list Z := [z mod 256; (z / 256) mod 256; (z / 65536) mod 256; z / 16777216].

Definition demo_section (flags : Z) : list Z :=
  replicate 16 97 ++ replicate 16 98 ++ concat (le32 <$> [0; 0; 0; 0; 0; 0; flags; 0; 0]).

Definition demo_file : list Z :=
  concat (le32 <$> [MH_MAGIC; 7; 3; 1; 1; 192; 0]) ++
  concat (le32 <$> [LC_SEGMENT; 192]) ++ replicate 16 0 ++
  concat (le32 <$> [0; 0; 0; 0; 7; 7; 2; 0]) ++
  demo_section 0x80000400 ++ demo_section S_ATTR_DEBUG.

Definition demo_env : os_env := OsEnv true true S_IFREG true demo_file true (λ n, n).

Lemma demo_wf : wf_cmds false 1 28 demo_file.
Proof.
  exists 1, 192. split; [vm_compute; reflexivity|]. split; [vm_compute; reflexivity|].
  split; [|split; [vm_compute; discriminate|exact I]].
  simpl. exists 2. split; [vm_compute; reflexivity|]. simpl. lia.
Defined.

(** The text section is renamed to "__TEXT", the debug section is not. *)
Example demo_main :
  main demo_env [[]; [95; 95; 84; 69; 88; 84]; []; [45; 111]; []] =
  Some (Exited 0 (Some (take 100 demo_file ++ [95; 95; 84; 69; 88; 84] ++ replicate 10 0
                        ++ drop 116 demo_file))).
Proof. vm_compute. reflexivity. Qed.

(** A file that ends before the flags of its second section, and a count of one command too many. *)
Example truncated_faults :
  cmd_loop false [65] 1 28 (take 200 demo_file) = None /\ cmd_loop false [65] 2 28 demo_file = None.
Proof. by vm_compute. Qed.

Lemma truncated_long : long_cmds false 1 28 (take 200 demo_file).
Proof.
  intros ct len Hc Hl. vm_compute in Hc, Hl. injection Hc as <-. injection Hl as <-.
  intros ns Hns. vm_compute in Hns. injection Hns as <-. by vm_compute.
Defined.

Lemma cmd_loop_two_pass_witness :
  long_cmds false 1 28 (take 200 demo_file) /\
  cmd_loop false [65] 1 28 (take 200 demo_file) =
    (ts ← cmd_targets false 1 28 (take 200 demo_file); rename_all [65] ts (take 200 demo_file)).
Proof.
  split; [exact truncated_long|].
  exact (cmd_loop_two_pass false [65] 1 28 (take 200 demo_file) truncated_long).
Defined.

Lemma cmd_loop_renames_witness :
  0 <= 28 <= zlen demo_file /\
  ∃ ts buf', cmd_targets false 1 28 demo_file = Some ts /\
    cmd_loop false [65] 1 28 demo_file = Some buf' /\ renamed [65] ts demo_file buf'.
Proof.
  assert (0 <= 28 <= zlen demo_file) as H by (split; vm_compute; discriminate).
  split; [exact H|]. exact (cmd_loop_renames false [65] 1 28 demo_file H demo_wf).
Defined.

Lemma main_empty_input_faults_witness :
  let env := OsEnv true true S_IFREG true [] true (λ n, n) in
  in_data env = [] /\ readFile env = (0, None) /\ main env [[]; [65]; []; [45; 111]; []] = None.
Proof.
  split; [reflexivity|].
  exact (main_empty_input_faults (OsEnv true true S_IFREG true [] true (λ n, n)) [] [65] [] []
           eq_refl eq_refl eq_refl eq_refl).
Defined.

End SetSegName.
