(* ===== verification/Cpuid.v ===== *)
(** CPU identification, osfmk/i386/cpuid.c: the decoding of the CPUID leaves
    into [i386_cpu_info_t], the family whitelist that decides whether the kernel
    boots on a processor, the leaf-2 and leaf-4 cache and TLB tables, and the
    printable feature lists.

    The processor is a record of the answers it gives to the [cpuid] and
    [rdmsr] instructions; it is an argument of every definition.  A panic and a
    store outside of a buffer are [None]. *)

From S2P Require Import Prelude.

Module Cpuid.

(** The four registers an execution of [cpuid] returns. *)
Record regs := Regs { eax : Z; ebx : Z; ecx : Z; edx : Z }.

(** The processor: leaf 2 may answer differently each time it is asked, leaf 4
    has a sub-leaf in [%ecx], and [hw_stack] is what the 80 bytes of stack behind
    the 48 bytes of the brand string happen to hold. *)
Record cpu_hw := CpuHw {
  hw_cpuid : Z -> regs;
  hw_leaf2 : Z -> regs;
  hw_leaf4 : Z -> regs;
  hw_rdmsr64 : Z -> Z;
  hw_stack : list Z }.

Definition regs_ok (r : regs) : Prop :=
  in_range 32 (eax r) /\ in_range 32 (ebx r) /\ in_range 32 (ecx r) /\ in_range 32 (edx r).

(** What the instruction set promises: registers have 32 bits. *)
Record hw_ok (hw : cpu_hw) : Prop := {
  hw_cpuid_ok l : regs_ok (hw_cpuid hw l);
  hw_leaf2_ok n : regs_ok (hw_leaf2 hw n);
  hw_leaf4_ok n : regs_ok (hw_leaf4 hw n) }.

(** [quad] (osfmk/i386/cpuid.c, 49-49). *)
Definition quad (hi lo : Z) : Z := Z.shiftl hi 32 ||| lo.

(** [bit32] (osfmk/i386/cpuid.c, 52-52). *)
Definition bit32 (n : Z) : Z := u32 (Z.shiftl 1 n).

(** [bitmask32] (osfmk/i386/cpuid.c, 53-53). *)
Definition bitmask32 (h l : Z) : Z :=
  (bit32 h ||| u32 (bit32 h - 1)) &&& u32 (Z.lnot (u32 (bit32 l - 1))).

(** [bitfield32] (osfmk/i386/cpuid.c, 54-54). *)
Definition bitfield32 (x h l : Z) : Z := Z.shiftr (x &&& bitmask32 h l) l.

(** [cpuid_leaf2_desc_type_t] (osfmk/i386/cpuid.c, 59-65). *)
Inductive leaf2_desc_type := NULL_ | CACHE | TLB | STLB | PREFETCH.

(** * Leaf 2: the cache descriptor table *)

(** [cpuid_leaf2_qualifier_t] (osfmk/i386/cpuid.c, 67-85): the qualifiers share
    the level and size columns of the table with plain numbers. *)
Inductive leaf2_qualifier :=
  | NA | FULLY | TRACE | INST | DATA | DATA0 | DATA1 | L1 | L1_INST | L1_DATA
  | L2 | L3 | L2_2LINESECTOR | L3_2LINESECTOR | SMALL | LARGE | BOTH.

Definition qual (q : leaf2_qualifier) : Z :=
  match q with
  | NA => 0 | FULLY => 1 | TRACE => 2 | INST => 3 | DATA => 4 | DATA0 => 5
  | DATA1 => 6 | L1 => 7 | L1_INST => 8 | L1_DATA => 9 | L2 => 10 | L3 => 11
  | L2_2LINESECTOR => 12 | L3_2LINESECTOR => 13 | SMALL => 14 | LARGE => 15 | BOTH => 16
  end.
Coercion qual : leaf2_qualifier >-> Z.

(** [cpuid_cache_descriptor] (osfmk/i386/cpuid.c, 87-94). *)
Record cache_descriptor := Desc {
  value : Z; type : leaf2_desc_type; level : Z; ways : Z; size : Z; entries : Z }.

(** [K] (osfmk/i386/cpuid.c, 99-99). *)
Definition K : Z := 1.
(** [M] (osfmk/i386/cpuid.c, 100-100). *)
Definition M : Z := 1024.

(** [intel_cpuid_leaf2_descriptor_table] (osfmk/i386/cpuid.c, 105-207). *)
Definition intel_cpuid_leaf2_descriptor_table : list cache_descriptor := [
    Desc 0x00 NULL_ NA (NA) (NA) (NA);
    Desc 0x01 TLB INST (4) (SMALL) (32);
    Desc 0x02 TLB INST (FULLY) (LARGE) (2);
    Desc 0x03 TLB DATA (4) (SMALL) (64);
    Desc 0x04 TLB DATA (4) (LARGE) (8);
    Desc 0x05 TLB DATA1 (4) (LARGE) (32);
    Desc 0x06 CACHE L1_INST (4) (8 * K) (32);
    Desc 0x08 CACHE L1_INST (4) (16 * K) (32);
    Desc 0x09 CACHE L1_INST (4) (32 * K) (64);
    Desc 0x0A CACHE L1_DATA (2) (8 * K) (32);
    Desc 0x0B TLB INST (4) (LARGE) (4);
    Desc 0x0C CACHE L1_DATA (4) (16 * K) (32);
    Desc 0x0D CACHE L1_DATA (4) (16 * K) (64);
    Desc 0x0E CACHE L1_DATA (6) (24 * K) (64);
    Desc 0x21 CACHE L2 (8) (256 * K) (64);
    Desc 0x22 CACHE L3_2LINESECTOR (4) (512 * K) (64);
    Desc 0x23 CACHE L3_2LINESECTOR (8) (1 * M) (64);
    Desc 0x25 CACHE L3_2LINESECTOR (8) (2 * M) (64);
    Desc 0x29 CACHE L3_2LINESECTOR (8) (4 * M) (64);
    Desc 0x2C CACHE L1_DATA (8) (32 * K) (64);
    Desc 0x30 CACHE L1_INST (8) (32 * K) (64);
    Desc 0x40 CACHE L2 (NA) (0) (NA);
    Desc 0x41 CACHE L2 (4) (128 * K) (32);
    Desc 0x42 CACHE L2 (4) (256 * K) (32);
    Desc 0x43 CACHE L2 (4) (512 * K) (32);
    Desc 0x44 CACHE L2 (4) (1 * M) (32);
    Desc 0x45 CACHE L2 (4) (2 * M) (32);
    Desc 0x46 CACHE L3 (4) (4 * M) (64);
    Desc 0x47 CACHE L3 (8) (8 * M) (64);
    Desc 0x48 CACHE L2 (12) (3 * M) (64);
    Desc 0x49 CACHE L2 (16) (4 * M) (64);
    Desc 0x4A CACHE L3 (12) (6 * M) (64);
    Desc 0x4B CACHE L3 (16) (8 * M) (64);
    Desc 0x4C CACHE L3 (12) (12 * M) (64);
    Desc 0x4D CACHE L3 (16) (16 * M) (64);
    Desc 0x4E CACHE L2 (24) (6 * M) (64);
    Desc 0x4F TLB INST (NA) (SMALL) (32);
    Desc 0x50 TLB INST (NA) (BOTH) (64);
    Desc 0x51 TLB INST (NA) (BOTH) (128);
    Desc 0x52 TLB INST (NA) (BOTH) (256);
    Desc 0x55 TLB INST (FULLY) (BOTH) (7);
    Desc 0x56 TLB DATA0 (4) (LARGE) (16);
    Desc 0x57 TLB DATA0 (4) (SMALL) (16);
    Desc 0x59 TLB DATA0 (FULLY) (SMALL) (16);
    Desc 0x5A TLB DATA0 (4) (LARGE) (32);
    Desc 0x5B TLB DATA (NA) (BOTH) (64);
    Desc 0x5C TLB DATA (NA) (BOTH) (128);
    Desc 0x5D TLB DATA (NA) (BOTH) (256);
    Desc 0x60 CACHE L1 (16 * K) (8) (64);
    Desc 0x61 CACHE L1 (4) (8 * K) (64);
    Desc 0x62 CACHE L1 (4) (16 * K) (64);
    Desc 0x63 CACHE L1 (4) (32 * K) (64);
    Desc 0x70 CACHE TRACE (8) (12 * K) (NA);
    Desc 0x71 CACHE TRACE (8) (16 * K) (NA);
    Desc 0x72 CACHE TRACE (8) (32 * K) (NA);
    Desc 0x78 CACHE L2 (4) (1 * M) (64);
    Desc 0x79 CACHE L2_2LINESECTOR (8) (128 * K) (64);
    Desc 0x7A CACHE L2_2LINESECTOR (8) (256 * K) (64);
    Desc 0x7B CACHE L2_2LINESECTOR (8) (512 * K) (64);
    Desc 0x7C CACHE L2_2LINESECTOR (8) (1 * M) (64);
    Desc 0x7D CACHE L2 (8) (2 * M) (64);
    Desc 0x7F CACHE L2 (2) (512 * K) (64);
    Desc 0x80 CACHE L2 (8) (512 * K) (64);
    Desc 0x82 CACHE L2 (8) (256 * K) (32);
    Desc 0x83 CACHE L2 (8) (512 * K) (32);
    Desc 0x84 CACHE L2 (8) (1 * M) (32);
    Desc 0x85 CACHE L2 (8) (2 * M) (32);
    Desc 0x86 CACHE L2 (4) (512 * K) (64);
    Desc 0x87 CACHE L2 (8) (1 * M) (64);
    Desc 0xB0 TLB INST (4) (SMALL) (128);
    Desc 0xB1 TLB INST (4) (LARGE) (8);
    Desc 0xB2 TLB INST (4) (SMALL) (64);
    Desc 0xB3 TLB DATA (4) (SMALL) (128);
    Desc 0xB4 TLB DATA1 (4) (SMALL) (256);
    Desc 0xBA TLB DATA1 (4) (BOTH) (64);
    Desc 0xCA STLB DATA1 (4) (BOTH) (512);
    Desc 0xD0 CACHE L3 (4) (512 * K) (64);
    Desc 0xD1 CACHE L3 (4) (1 * M) (64);
    Desc 0xD2 CACHE L3 (4) (2 * M) (64);
    Desc 0xD3 CACHE L3 (4) (4 * M) (64);
    Desc 0xD4 CACHE L3 (4) (8 * M) (64);
    Desc 0xD6 CACHE L3 (8) (1 * M) (64);
    Desc 0xD7 CACHE L3 (8) (2 * M) (64);
    Desc 0xD8 CACHE L3 (8) (4 * M) (64);
    Desc 0xD9 CACHE L3 (8) (8 * M) (64);
    Desc 0xDA CACHE L3 (8) (12 * M) (64);
    Desc 0xDC CACHE L3 (12) (1536 * K) (64);
    Desc 0xDD CACHE L3 (12) (3 * M) (64);
    Desc 0xDE CACHE L3 (12) (6 * M) (64);
    Desc 0xDF CACHE L3 (12) (12 * M) (64);
    Desc 0xE0 CACHE L3 (12) (18 * M) (64);
    Desc 0xE2 CACHE L3 (16) (2 * M) (64);
    Desc 0xE3 CACHE L3 (16) (4 * M) (64);
    Desc 0xE4 CACHE L3 (16) (8 * M) (64);
    Desc 0xE5 CACHE L3 (16) (16 * M) (64);
    Desc 0xE6 CACHE L3 (16) (24 * M) (64);
    Desc 0xF0 PREFETCH NA (NA) (64) (NA);
    Desc 0xF1 PREFETCH NA (NA) (128) (NA)
  ].

(** [cpuid_leaf2_find] (osfmk/i386/cpuid.c, 211-220). *)
Definition cpuid_leaf2_find (v : Z) : option cache_descriptor :=
  snd <$> list_find (λ d, value d = v) intel_cpuid_leaf2_descriptor_table.

(** * Feature bits *)

Definition CPUID_FEATURE_FPU : Z := 2 ^ 0.
Definition CPUID_FEATURE_VME : Z := 2 ^ 1.
Definition CPUID_FEATURE_DE : Z := 2 ^ 2.
Definition CPUID_FEATURE_PSE : Z := 2 ^ 3.
Definition CPUID_FEATURE_TSC : Z := 2 ^ 4.
Definition CPUID_FEATURE_MSR : Z := 2 ^ 5.
Definition CPUID_FEATURE_PAE : Z := 2 ^ 6.
Definition CPUID_FEATURE_MCE : Z := 2 ^ 7.
Definition CPUID_FEATURE_CX8 : Z := 2 ^ 8.
Definition CPUID_FEATURE_APIC : Z := 2 ^ 9.
Definition CPUID_FEATURE_SEP : Z := 2 ^ 11.
Definition CPUID_FEATURE_MTRR : Z := 2 ^ 12.
Definition CPUID_FEATURE_PGE : Z := 2 ^ 13.
Definition CPUID_FEATURE_MCA : Z := 2 ^ 14.
Definition CPUID_FEATURE_CMOV : Z := 2 ^ 15.
Definition CPUID_FEATURE_PAT : Z := 2 ^ 16.
Definition CPUID_FEATURE_PSE36 : Z := 2 ^ 17.
Definition CPUID_FEATURE_PSN : Z := 2 ^ 18.
Definition CPUID_FEATURE_CLFSH : Z := 2 ^ 19.
Definition CPUID_FEATURE_DS : Z := 2 ^ 21.
Definition CPUID_FEATURE_ACPI : Z := 2 ^ 22.
Definition CPUID_FEATURE_MMX : Z := 2 ^ 23.
Definition CPUID_FEATURE_FXSR : Z := 2 ^ 24.
Definition CPUID_FEATURE_SSE : Z := 2 ^ 25.
Definition CPUID_FEATURE_SSE2 : Z := 2 ^ 26.
Definition CPUID_FEATURE_SS : Z := 2 ^ 27.
Definition CPUID_FEATURE_HTT : Z := 2 ^ 28.
Definition CPUID_FEATURE_TM : Z := 2 ^ 29.
Definition CPUID_FEATURE_PBE : Z := 2 ^ 31.
Definition CPUID_FEATURE_SSE3 : Z := 2 ^ 32.
Definition CPUID_FEATURE_MONITOR : Z := 2 ^ 35.
Definition CPUID_FEATURE_DSCPL : Z := 2 ^ 36.
Definition CPUID_FEATURE_VMX : Z := 2 ^ 37.
Definition CPUID_FEATURE_SMX : Z := 2 ^ 38.
Definition CPUID_FEATURE_EST : Z := 2 ^ 39.
Definition CPUID_FEATURE_TM2 : Z := 2 ^ 40.
Definition CPUID_FEATURE_SSSE3 : Z := 2 ^ 41.
Definition CPUID_FEATURE_CID : Z := 2 ^ 42.
Definition CPUID_FEATURE_CX16 : Z := 2 ^ 45.
Definition CPUID_FEATURE_xTPR : Z := 2 ^ 46.
Definition CPUID_FEATURE_PDCM : Z := 2 ^ 47.
Definition CPUID_FEATURE_DCA : Z := 2 ^ 50.
Definition CPUID_FEATURE_SSE4_1 : Z := 2 ^ 51.
Definition CPUID_FEATURE_SSE4_2 : Z := 2 ^ 52.
Definition CPUID_FEATURE_xAPIC : Z := 2 ^ 53.
Definition CPUID_FEATURE_POPCNT : Z := 2 ^ 55.
Definition CPUID_FEATURE_VMM : Z := 2 ^ 63.
Definition CPUID_EXTFEATURE_SYSCALL : Z := 2 ^ 11.
Definition CPUID_EXTFEATURE_XD : Z := 2 ^ 20.
Definition CPUID_EXTFEATURE_RDTSCP : Z := 2 ^ 27.
Definition CPUID_EXTFEATURE_EM64T : Z := 2 ^ 29.
Definition CPUID_EXTFEATURE_LAHF : Z := 2 ^ 32.
Definition CPUID_EXTFEATURE_TSCI : Z := 2 ^ 8.

(** [feature_map] (osfmk/i386/cpuid.c, 677-727). *)
Definition feature_map : list (Z * string) := [
    (CPUID_FEATURE_FPU, "FPU");
    (CPUID_FEATURE_VME, "VME");
    (CPUID_FEATURE_DE, "DE");
    (CPUID_FEATURE_PSE, "PSE");
    (CPUID_FEATURE_TSC, "TSC");
    (CPUID_FEATURE_MSR, "MSR");
    (CPUID_FEATURE_PAE, "PAE");
    (CPUID_FEATURE_MCE, "MCE");
    (CPUID_FEATURE_CX8, "CX8");
    (CPUID_FEATURE_APIC, "APIC");
    (CPUID_FEATURE_SEP, "SEP");
    (CPUID_FEATURE_MTRR, "MTRR");
    (CPUID_FEATURE_PGE, "PGE");
    (CPUID_FEATURE_MCA, "MCA");
    (CPUID_FEATURE_CMOV, "CMOV");
    (CPUID_FEATURE_PAT, "PAT");
    (CPUID_FEATURE_PSE36, "PSE36");
    (CPUID_FEATURE_PSN, "PSN");
    (CPUID_FEATURE_CLFSH, "CLFSH");
    (CPUID_FEATURE_DS, "DS");
    (CPUID_FEATURE_ACPI, "ACPI");
    (CPUID_FEATURE_MMX, "MMX");
    (CPUID_FEATURE_FXSR, "FXSR");
    (CPUID_FEATURE_SSE, "SSE");
    (CPUID_FEATURE_SSE2, "SSE2");
    (CPUID_FEATURE_SS, "SS");
    (CPUID_FEATURE_HTT, "HTT");
    (CPUID_FEATURE_TM, "TM");
    (CPUID_FEATURE_SSE3, "SSE3");
    (CPUID_FEATURE_MONITOR, "MON");
    (CPUID_FEATURE_DSCPL, "DSCPL");
    (CPUID_FEATURE_VMX, "VMX");
    (CPUID_FEATURE_SMX, "SMX");
    (CPUID_FEATURE_EST, "EST");
    (CPUID_FEATURE_TM2, "TM2");
    (CPUID_FEATURE_SSSE3, "SSSE3");
    (CPUID_FEATURE_CID, "CID");
    (CPUID_FEATURE_CX16, "CX16");
    (CPUID_FEATURE_xTPR, "TPR");
    (CPUID_FEATURE_PDCM, "PDCM");
    (CPUID_FEATURE_SSE4_1, "SSE4.1");
    (CPUID_FEATURE_SSE4_2, "SSE4.2");
    (CPUID_FEATURE_xAPIC, "xAPIC");
    (CPUID_FEATURE_POPCNT, "POPCNT");
    (CPUID_FEATURE_VMM, "VMM")
  ]%string.

(** [extfeature_map] (osfmk/i386/cpuid.c, 728-736). *)
Definition extfeature_map : list (Z * string) := [
    (CPUID_EXTFEATURE_SYSCALL, "SYSCALL");
    (CPUID_EXTFEATURE_XD, "XD");
    (CPUID_EXTFEATURE_RDTSCP, "RDTSCP");
    (CPUID_EXTFEATURE_EM64T, "EM64T");
    (CPUID_EXTFEATURE_LAHF, "LAHF");
    (CPUID_EXTFEATURE_TSCI, "TSCI")
  ]%string.

(** * Strings *)

(** [strlcpy] into [n] bytes: what the destination string is. *)
Definition strlcpy (n : nat) (s : list Z) : list Z := take (n - 1) s.

Definition reg_bytes (z : Z) : list Z :=
  [z mod 256; z / 2 ^ 8 mod 256; z / 2 ^ 16 mod 256; z / 2 ^ 24 mod 256].

Definition regs_bytes (r : regs) : list Z :=
  reg_bytes (eax r) ++ reg_bytes (ebx r) ++ reg_bytes (ecx r) ++ reg_bytes (edx r).

Definition CPUID_VID_INTEL : list Z := bytes_of "GenuineIntel".
Definition CPUID_STRING_UNKNOWN : list Z := bytes_of "Unknown CPU Typ".

Fixpoint skip_spaces (p : list Z) : list Z :=
  match p with
  | c :: p' => if c =? 32 then skip_spaces p' else p
  | [] => []
  end.

(** * [i386_cpu_info_t] *)

Record mwait_leaf := MwaitLeaf {
  linesize_min : Z; linesize_max : Z; extensions : Z; sub_Cstates : Z }.
Record thermal_leaf := ThermalLeaf {
  sensor : Z; dynamic_acceleration : Z; invariant_APIC_timer : Z; thresholds : Z;
  ACNT_MCNT : Z }.
Record arch_perf_leaf := ArchPerfLeaf {
  version : Z; number : Z; width : Z; events_number : Z; events : Z;
  fixed_number : Z; fixed_width : Z }.

(** The fields [cpuid_set_generic_info] fills; the last three are the leaves
    behind the [..._leafp] pointers, [None] for a null pointer. *)
Record generic_info := GenericInfo {
  cpuid_vendor : list Z;
  cpuid_max_basic : Z;
  cpuid_max_ext : Z;
  cpuid_brand_string : list Z;
  cpuid_cache_linesize : Z;
  cpuid_cache_L2_associativity : Z;
  cpuid_cache_size : Z;
  cpuid_address_bits_physical : Z;
  cpuid_address_bits_virtual : Z;
  cpuid_signature : Z;
  cpuid_stepping : Z;
  cpuid_model : Z;
  cpuid_family : Z;
  cpuid_type : Z;
  cpuid_extmodel : Z;
  cpuid_extfamily : Z;
  cpuid_brand : Z;
  cpuid_features : Z;
  generic_logical_per_package : Z;
  cpuid_extfeatures : Z;
  cpuid_microcode_version : Z;
  cpuid_mwait_leafp : option mwait_leaf;
  cpuid_thermal_leafp : option thermal_leaf;
  cpuid_arch_perf_leafp : option arch_perf_leaf }.

Definition MSR_IA32_BIOS_SIGN_ID : Z := 0x8B.
Definition MSR_CORE_THREAD_COUNT : Z := 0x35.

(** [cpuid_set_generic_info], the brand string
    (osfmk/i386/cpuid.c, 469-496). *)
Definition set_brand_string (hw : cpu_hw) (max_ext : Z) : option (list Z) :=
  if 0x80000004 <=? max_ext then
    let str := regs_bytes (hw_cpuid hw 0x80000002) ++ regs_bytes (hw_cpuid hw 0x80000003)
               ++ regs_bytes (hw_cpuid hw 0x80000004) ++ hw_stack hw in
    p ← c_string (skip_spaces str);
    let brand_string := strlcpy 48 p in
    if strncmp_eq brand_string CPUID_STRING_UNKNOWN
         (Nat.min 48 (length CPUID_STRING_UNKNOWN + 1))
    then Some [] else Some brand_string
  else Some [].

(** [cpuid_set_generic_info], family and model with the extensions folded in;
    both are [uint8_t] (osfmk/i386/cpuid.c, 515-528). *)
Definition fold_family_model (sig : Z) : Z * Z :=
  let family := bitfield32 sig 11 8 in
  let model := bitfield32 sig 7 4 in
  let family := if family =? 0x0f then u8 (family + bitfield32 sig 27 20) else family in
  let model := if (family =? 0x0f) || (family =? 0x06)
               then u8 (model + Z.shiftl (bitfield32 sig 19 16) 4) else model in
  (family, model).

(** [cpuid_set_generic_info], the thermal and power leaf
    (osfmk/i386/cpuid.c, 567-580). *)
Definition set_thermal_leaf (hw : cpu_hw) (max_basic : Z) : option thermal_leaf :=
  if 0x6 <=? max_basic then
    let reg := hw_cpuid hw 6 in
    Some (ThermalLeaf (bitfield32 (eax reg) 0 0) (bitfield32 (eax reg) 1 1)
            (bitfield32 (eax reg) 2 2) (bitfield32 (ebx reg) 3 0) (bitfield32 (ecx reg) 0 0))
  else None.

(** [cpuid_set_generic_info], the performance monitoring leaf
    (osfmk/i386/cpuid.c, 582-597). *)
Definition set_arch_perf_leaf (hw : cpu_hw) (max_basic : Z) : option arch_perf_leaf :=
  if 0xa <=? max_basic then
    let reg := hw_cpuid hw 0xa in
    Some (ArchPerfLeaf (bitfield32 (eax reg) 7 0) (bitfield32 (eax reg) 15 8)
            (bitfield32 (eax reg) 23 16) (bitfield32 (eax reg) 31 24) (ebx reg)
            (bitfield32 (edx reg) 4 0) (bitfield32 (edx reg) 12 5))
  else None.

(** [cpuid_set_generic_info] (osfmk/i386/cpuid.c, 451-600): the fields that
    stay zero after [bzero] when their leaf is missing are written out. *)
Definition cpuid_set_generic_info (hw : cpu_hw) : option generic_info :=
  let reg0 := hw_cpuid hw 0 in
  let max_basic := eax reg0 in
  let vendor := reg_bytes (ebx reg0) ++ reg_bytes (edx reg0) ++ reg_bytes (ecx reg0) ++ [0] in
  let max_ext := eax (hw_cpuid hw 0x80000000) in
  brand_string ← set_brand_string hw max_ext;
  let has_cache := 0x80000006 <=? max_ext in
  let reg6 := hw_cpuid hw 0x80000006 in
  let reg8 := hw_cpuid hw 0x80000008 in
  let reg := hw_cpuid hw 1 in
  let features := quad (ecx reg) (edx reg) in
  let '(family, model) := fold_family_model (eax reg) in
  let logical := if truth (features &&& CPUID_FEATURE_HTT)
                 then bitfield32 (ebx reg) 23 16 else 1 in
  let extfeatures := if 0x80000001 <=? max_ext
                     then quad (ecx (hw_cpuid hw 0x80000001)) (edx (hw_cpuid hw 0x80000001))
                     else 0 in
  let extfeatures := if 0x80000007 <=? max_ext
                     then extfeatures ||| (edx (hw_cpuid hw 0x80000007)
                                           &&& u32 CPUID_EXTFEATURE_TSCI)
                     else extfeatures in
  let mwait := if 0x5 <=? max_basic
               then let r := hw_cpuid hw 5 in Some (MwaitLeaf (eax r) (ebx r) (ecx r) (edx r))
               else None in
  Some {|
    cpuid_vendor := vendor;
    cpuid_max_basic := max_basic;
    cpuid_max_ext := max_ext;
    cpuid_brand_string := brand_string;
    cpuid_cache_linesize := if has_cache then bitfield32 (ecx reg6) 7 0 else 0;
    cpuid_cache_L2_associativity := if has_cache then bitfield32 (ecx reg6) 15 12 else 0;
    cpuid_cache_size := if has_cache then bitfield32 (ecx reg6) 31 16 else 0;
    cpuid_address_bits_physical := if has_cache then bitfield32 (eax reg8) 7 0 else 0;
    cpuid_address_bits_virtual := if has_cache then bitfield32 (eax reg8) 15 8 else 0;
    cpuid_signature := eax reg;
    cpuid_stepping := bitfield32 (eax reg) 3 0;
    cpuid_model := model;
    cpuid_family := family;
    cpuid_type := bitfield32 (eax reg) 13 12;
    cpuid_extmodel := bitfield32 (eax reg) 19 16;
    cpuid_extfamily := bitfield32 (eax reg) 27 20;
    cpuid_brand := bitfield32 (ebx reg) 7 0;
    cpuid_features := features;
    generic_logical_per_package := logical;
    cpuid_extfeatures := extfeatures;
    cpuid_microcode_version := u32 (Z.shiftr (hw_rdmsr64 hw MSR_IA32_BIOS_SIGN_ID) 32);
    cpuid_mwait_leafp := mwait;
    cpuid_thermal_leafp := set_thermal_leaf hw max_basic;
    cpuid_arch_perf_leafp := set_arch_perf_leaf hw max_basic |}.

(** * Cache and TLB information *)

Inductive cache_type_t := Lnone | L1I | L1D | L2U | L3U.

#[global] Instance cache_type_eq_dec : EqDecision cache_type_t.
Proof. solve_decision. Defined.

Definition ct (t : cache_type_t) : nat :=
  match t with Lnone => 0 | L1I => 1 | L1D => 2 | L2U => 3 | L3U => 4 end%nat.
Abbreviation LCACHE_MAX := 5%nat.

(** [cpuid_set_cache_info], one answer of leaf 2 stored from word [base] on
    (osfmk/i386/cpuid.c, 278-283). *)
Definition store_leaf2 (r : regs) (base : nat) (words : list Z) : list Z :=
  foldl (λ ws '(j, v), if Z.shiftr v 31 =? 1 then ws else <[(base + j)%nat := v]> ws) words
    [(0%nat, eax r); (1%nat, ebx r); (2%nat, ecx r); (3%nat, edx r)].

(** Byte [k] of [cache_info], seen through its words. *)
Definition cache_info_byte (words : list Z) (k : nat) : Z :=
  match words !! (k / 4)%nat with
  | Some w => (w / 2 ^ (8 * Z.of_nat (k mod 4))) mod 2 ^ 8
  | None => 0
  end.

(** [cpuid_set_cache_info], the repeated leaf 2 requests
    (osfmk/i386/cpuid.c, 274-284). *)
Fixpoint leaf2_loop (hw : cpu_hw) (i : nat) (fuel : nat) (words : list Z) : list Z :=
  match fuel with
  | O => words
  | S fuel =>
      if Z.of_nat i <? cache_info_byte words 0 then
        if 64 <? Z.of_nat i * 16 then words
        else leaf2_loop hw (i + 1) fuel (store_leaf2 (hw_leaf2 hw (Z.of_nat i)) (4 * i) words)
      else words
  end.

(** [cpuid_set_cache_info], leaf 2 (osfmk/i386/cpuid.c, 264-284).  The result is
    the 16 words of [cache_info] and the four words that follow it in
    [i386_cpu_info_t]: [cpuid_cores_per_package], [cpuid_logical_per_package] and
    the first two of [cache_sharing]; the loop can reach them. *)
Definition leaf2_words (hw : cpu_hw) (logical : Z) : list Z :=
  let words := replicate 16 0 ++ [0; logical; 0; 0] in
  let words := store_leaf2 (hw_leaf2 hw 0) 0 words in
  leaf2_loop hw 1 6 words.

(** What the deterministic cache loop changes. *)
Record cache_state := CacheState {
  cores_per_package : Z;
  cache_size : list Z; cache_sharing : list Z; cache_partitions : list Z;
  linesizes : list Z;
  vm_cache_geometry_colors : Z }.

(** [cpuid_set_cache_info], type and level of a leaf 4 answer as a
    [cache_type_t] (osfmk/i386/cpuid.c, 326-344). *)
Definition cache_type_of (cache_level cache_type : Z) : cache_type_t :=
  if cache_level =? 1 then
    if cache_type =? 1 then L1D else if cache_type =? 2 then L1I else Lnone
  else if cache_level =? 2 then if cache_type =? 3 then L2U else Lnone
  else if cache_level =? 3 then if cache_type =? 3 then L3U else Lnone
  else Lnone.

(** [cpuid_set_cache_info], one round of the leaf 4 loop; [None] is the [break]
    (osfmk/i386/cpuid.c, 308-386). *)
Definition leaf4_step (reg : regs) (st : cache_state) : option cache_state :=
  let cache_type := bitfield32 (eax reg) 4 0 in
  if cache_type =? 0 then None
  else
    let cache_level := bitfield32 (eax reg) 7 5 in
    let sharing := bitfield32 (eax reg) 25 14 + 1 in
    let cores := bitfield32 (eax reg) 31 26 + 1 in
    let cache_linesize := bitfield32 (ebx reg) 11 0 + 1 in
    let partitions := bitfield32 (ebx reg) 21 12 + 1 in
    let cache_associativity := bitfield32 (ebx reg) 31 22 + 1 in
    let cache_sets := u32 (bitfield32 (ecx reg) 31 0 + 1) in
    let type := cache_type_of cache_level cache_type in
    if bool_decide (type = Lnone) then
      Some (CacheState cores (cache_size st) (cache_sharing st) (cache_partitions st)
              (linesizes st) (vm_cache_geometry_colors st))
    else
      let size := u32 (cache_linesize * cache_sets * cache_associativity * partitions) in
      let colors := Z.shiftr (u32 (cache_linesize * cache_sets)) 12 in
      Some {|
        cores_per_package := cores;
        cache_size := <[ct type := size]> (cache_size st);
        cache_sharing := <[ct type := sharing]> (cache_sharing st);
        cache_partitions := <[ct type := partitions]> (cache_partitions st);
        linesizes := <[ct type := cache_linesize]> (linesizes st);
        vm_cache_geometry_colors :=
          if vm_cache_geometry_colors st <? colors then colors
          else vm_cache_geometry_colors st |}.

(** [cpuid_set_cache_info], the leaf 4 loop (osfmk/i386/cpuid.c, 295-387);
    [None] when the fuel does not reach the end. *)
Fixpoint leaf4_loop (hw : cpu_hw) (fuel : nat) (index : Z) (st : cache_state)
    : option cache_state :=
  match fuel with
  | O => None
  | S fuel =>
      match leaf4_step (hw_leaf4 hw index) st with
      | None => Some st
      | Some st => leaf4_loop hw fuel (u32 (index + 1)) st
      end
  end.

Definition TLB_INST : nat := 0.
Definition TLB_DATA : nat := 1.
Definition TLB_SMALL : nat := 0.
Definition TLB_LARGE : nat := 1.

(** [cpuid_tlb[id][page][level]] as one list of eight entries, and [cpuid_stlb]. *)
Record tlb_info := TlbInfo { cpuid_tlb : list Z; cpuid_stlb : Z }.

Definition tlb_index (id page level : nat) : nat := (id * 4 + page * 2 + level)%nat.

(** [cpuid_set_cache_info], where a TLB descriptor is published; [None] for the
    levels the switch skips (osfmk/i386/cpuid.c, 420-443). *)
Definition tlb_slot (d : cache_descriptor) : option nat :=
  let page := if size d =? SMALL then TLB_SMALL else TLB_LARGE in
  id ← (if level d =? INST then Some TLB_INST
        else if (level d =? DATA) || (level d =? DATA0) || (level d =? DATA1)
        then Some TLB_DATA else None);
  let lev := if level d =? DATA1 then 1%nat else 0%nat in
  Some (tlb_index id page lev).

(** [cpuid_set_cache_info], one descriptor byte of the TLB loop
    (osfmk/i386/cpuid.c, 408-448). *)
Definition tlb_step (t : tlb_info) (b : Z) : tlb_info :=
  match cpuid_leaf2_find b with
  | None => t
  | Some d =>
      match type d with
      | TLB => match tlb_slot d with
               | Some k => TlbInfo (<[k := entries d]> (cpuid_tlb t)) (cpuid_stlb t)
               | None => t
               end
      | STLB => TlbInfo (cpuid_tlb t) (entries d)
      | _ => t
      end
  end.

(** Why [cpuid_set_info] does not return: a brand string without a NUL, the two
    panics, and a leaf 4 list longer than the fuel. *)
Inductive cpuid_panic := Brand_string_overread | Unsupported_CPU | No_linesize | Leaf4_endless.

(** The fields [cpuid_set_cache_info] fills. *)
Record cache_details := CacheDetails {
  cache_info : list Z;            (* 16 words *)
  logical_per_package : Z;
  caches : cache_state;
  cache_linesize : Z;
  tlbs : tlb_info }.

(** [cpuid_set_cache_info] (osfmk/i386/cpuid.c, 251-400): without leaf 4 the
    L2 cache of leaf 0x80000006 is published. *)
Definition cpuid_set_cache_info (hw : cpu_hw) (fuel : nat) (g : generic_info) (colors : Z)
    : cpuid_panic + cache_details :=
  let words := leaf2_words hw (generic_logical_per_package g) in
  let word i := default 0 (words !! i) in
  let cpuid_deterministic_supported := 4 <=? eax (hw_cpuid hw 0) in
  let st := CacheState (word 16%nat) (replicate LCACHE_MAX 0)
              [word 18%nat; word 19%nat; 0; 0; 0]
              (replicate LCACHE_MAX 0) (replicate LCACHE_MAX 0) colors in
  match (if cpuid_deterministic_supported then leaf4_loop hw fuel 0 st else Some st) with
  | None => inl Leaf4_endless
  | Some st =>
      let st :=
        if cores_per_package st =? 0 then
          CacheState 1 (<[ct L2U := u32 (cpuid_cache_size g * 1024)]> (cache_size st))
            (<[ct L2U := 1]> (cache_sharing st)) (<[ct L2U := 1]> (cache_partitions st))
            (<[ct L2U := cpuid_cache_linesize g]> (linesizes st)) (vm_cache_geometry_colors st)
        else st in
      let ls t := default 0 (linesizes st !! ct t) in
      let bytes := cache_info_byte words <$> seq 1 63 in
      let done l := inr (CacheDetails (take 16 words) (word 17%nat) st l
                           (foldl tlb_step (TlbInfo (replicate 8 0) 0) bytes)) in
      if truth (ls L2U) then done (ls L2U)
      else if truth (ls L1D) then done (ls L1D)
      else inl No_linesize
  end.

(** * The whitelist and [cpuid_set_info] *)

Definition CPUFAMILY_UNKNOWN : Z := 0.
Definition CPUFAMILY_INTEL_6_13 : Z := 0xaa33392b.
Definition CPUFAMILY_INTEL_YONAH : Z := 0x73d67300.
Definition CPUFAMILY_INTEL_MEROM : Z := 0x426f69ef.
Definition CPUFAMILY_INTEL_PENRYN : Z := 0x78ea4fbc.
Definition CPUFAMILY_INTEL_NEHALEM : Z := 0x6b5a4cd2.
Definition CPUID_MODEL_NEHALEM : Z := 26.
Definition CPUID_MODEL_FIELDS : Z := 30.
Definition CPUID_MODEL_DALES : Z := 31.
Definition CPUID_MODEL_NEHALEM_EX : Z := 46.
Definition CPU_TYPE_X86 : Z := 7.
Definition CPU_SUBTYPE_X86_ARCH1 : Z := 4.

(** [cpuid_set_cpufamily] (osfmk/i386/cpuid.c, 602-634). *)
Definition cpuid_set_cpufamily (g : generic_info) : Z :=
  if cpuid_family g =? 6 then
    let m := cpuid_model g in
    if m =? 13 then CPUFAMILY_INTEL_6_13
    else if m =? 14 then CPUFAMILY_INTEL_YONAH
    else if m =? 15 then CPUFAMILY_INTEL_MEROM
    else if m =? 23 then CPUFAMILY_INTEL_PENRYN
    else if (m =? CPUID_MODEL_NEHALEM) || (m =? CPUID_MODEL_FIELDS)
            || (m =? CPUID_MODEL_DALES) || (m =? CPUID_MODEL_NEHALEM_EX)
    then CPUFAMILY_INTEL_NEHALEM
    else CPUFAMILY_UNKNOWN
  else CPUFAMILY_UNKNOWN.

Record cpu_info := CpuInfo {
  generic : generic_info;
  cpuid_cpufamily : Z;
  cpuid_cpu_type : Z;
  cpuid_cpu_subtype : Z;
  details : cache_details;
  core_count : Z;
  thread_count : Z }.

(** [cpuid_set_info] (osfmk/i386/cpuid.c, 636-675). *)
Definition cpuid_set_info (hw : cpu_hw) (fuel : nat) (colors : Z) : cpuid_panic + cpu_info :=
  match cpuid_set_generic_info hw with
  | None => inl Brand_string_overread
  | Some g =>
      let vendor_ok :=
        match c_string (cpuid_vendor g) with
        | Some v => strncmp_eq CPUID_VID_INTEL v (Nat.min (length CPUID_STRING_UNKNOWN + 1) 16)
        | None => false
        end in
      let cpufamily := cpuid_set_cpufamily g in
      if negb vendor_ok || (cpufamily =? CPUFAMILY_UNKNOWN) then inl Unsupported_CPU
      else
        match cpuid_set_cache_info hw fuel g colors with
        | inl e => inl e
        | inr c =>
            let '(core_count, thread_count) :=
              if cpufamily =? CPUFAMILY_INTEL_NEHALEM then
                let msr := u32 (hw_rdmsr64 hw MSR_CORE_THREAD_COUNT) in
                (bitfield32 msr 31 16, bitfield32 msr 15 0)
              else (0, 0) in
            let '(core_count, thread_count) :=
              if core_count =? 0
              then (cores_per_package (caches c), logical_per_package c)
              else (core_count, thread_count) in
            inr (CpuInfo g cpufamily CPU_TYPE_X86 CPU_SUBTYPE_X86_ARCH1 c
                   core_count thread_count)
        end
  end.

(** * Feature lists *)

(** [cpuid_get_feature_names], the loop (osfmk/i386/cpuid.c, 756-767).
    [buf] is the memory the caller owns; [size_t] has 32 bits. *)
Fixpoint names_loop (map : list (Z * string)) (features : Z) (buf_len : Z)
    (len : Z) (p : nat) (buf : list Z) : option (list Z) :=
  match map with
  | [] => wr8 buf (Z.of_nat p) 0
  | (mask, name) :: map =>
      if (features &&& mask) =? 0 then names_loop map features buf_len len p buf
      else
        '(p, buf) ← (if 0 <? len then buf ← wr8 buf (Z.of_nat p) 32; Some ((p + 1)%nat, buf)
                     else Some (p, buf));
        let len := Z.min (zlen (bytes_of name)) (u32 (u32 (buf_len - 1) - Z.of_nat p)) in
        if len =? 0 then wr8 buf (Z.of_nat p) 0
        else
          buf ← wr_bytes buf (Z.of_nat p) (take (Z.to_nat len) (bytes_of name));
          names_loop map features buf_len len (p + Z.to_nat len) buf
  end.

(** [cpuid_get_feature_names] (osfmk/i386/cpuid.c, 749-769). *)
Definition cpuid_get_feature_names (features : Z) (buf : list Z) (buf_len : Z)
    : option (list Z) :=
  names_loop feature_map features buf_len (u32 (-1)) 0 buf.

(** [cpuid_get_extfeature_names] (osfmk/i386/cpuid.c, 771-791). *)
Definition cpuid_get_extfeature_names (extfeatures : Z) (buf : list Z) (buf_len : Z)
    : option (list Z) :=
  names_loop extfeature_map extfeatures buf_len (u32 (-1)) 0 buf.

(** [cpuid_features] (osfmk/i386/cpuid.c, 858-880): the boot argument [_fpu],
    looked up on the first call only, can hide SSE.  The state is the [checked]
    flag and the feature word. *)
Definition cpuid_features_call (fpu_arg : option (list Z)) (st : bool * Z) : Z * (bool * Z) :=
  let '(checked, features) := st in
  if checked then (features, st)
  else
    let features :=
      match fpu_arg with
      | Some arg =>
          if strncmp_eq (bytes_of "387") arg 4 || strncmp_eq (bytes_of "mmx") arg 4 then
            features &&& Z.lnot (CPUID_FEATURE_SSE ||| CPUID_FEATURE_SSE2 ||| CPUID_FEATURE_FXSR)
          else if strncmp_eq (bytes_of "sse") arg 4 then
            features &&& Z.lnot CPUID_FEATURE_SSE2
          else features
      | None => features
      end in
    (features, (true, features)).

(** * Bit fields of registers *)

Lemma bitmask32_ones h l : 0 <= l <= h -> h < 32 ->
  bitmask32 h l = Z.shiftl (Z.ones (h - l + 1)) l.
Proof.
  intros Hl Hh.
  assert (forallb (λ h, forallb (λ l, (h <? l)%nat ||
            (bitmask32 (Z.of_nat h) (Z.of_nat l) =?
             Z.shiftl (Z.ones (Z.of_nat h - Z.of_nat l + 1)) (Z.of_nat l))) (seq 0 32))
            (seq 0 32) = true) as H by (vm_compute; reflexivity).
  rewrite forallb_forall in H. specialize (H (Z.to_nat h)).
  rewrite forallb_forall in H.
  assert (Z.to_nat h ∈ seq 0 32) as Hin%list_elem_of_In by (apply elem_of_seq; lia).
  specialize (H Hin (Z.to_nat l)).
  assert (Z.to_nat l ∈ seq 0 32) as Hin'%list_elem_of_In by (apply elem_of_seq; lia).
  specialize (H Hin'). apply orb_true_iff in H as [H|H].
  - apply Nat.ltb_lt in H. lia.
  - apply Z.eqb_eq in H. by rewrite !Z2Nat.id in H by lia.
Qed.

Lemma bitfield32_div x h l : 0 <= l <= h -> h < 32 ->
  bitfield32 x h l = (x / 2 ^ l) mod 2 ^ (h - l + 1).
Proof.
  intros. unfold bitfield32. rewrite bitmask32_ones, land_field by lia.
  rewrite Z.shiftr_div_pow2, Z.div_mul by lia. done.
Qed.
#[local] Hint Rewrite bitfield32_div using lia : kernel_rw.

(** * The whitelist *)

Lemma reg_bytes_inj z z' : in_range 32 z -> in_range 32 z' ->
  reg_bytes z = reg_bytes z' -> z = z'.
Proof.
  unfold reg_bytes, in_range. intros ?? [= ????].
  Z.to_euclidean_division_equations. lia.
Qed.

(** The vendor test of [cpuid_set_info] on the three registers of leaf 0. *)
Definition vendor_is_intel (r : regs) : bool :=
  (ebx r =? 0x756e6547) && (edx r =? 0x49656e69) && (ecx r =? 0x6c65746e).

Lemma vendor_test r v : regs_ok r ->
  c_string (reg_bytes (ebx r) ++ reg_bytes (edx r) ++ reg_bytes (ecx r) ++ [0]) = Some v ->
  strncmp_eq CPUID_VID_INTEL v (Nat.min (length CPUID_STRING_UNKNOWN + 1) 16)
  = vendor_is_intel r.
Proof.
  intros (_ & Hb & Hc & Hd) Hv.
  assert (length v <= 12)%nat as Hlen.
  { destruct (c_string_Some _ _ Hv) as [t Ht]. apply (f_equal length) in Ht.
    rewrite !length_app in Ht. simpl in Ht. lia. }
  change (Nat.min (length CPUID_STRING_UNKNOWN + 1) 16) with 16%nat.
  apply eq_true_iff_eq. rewrite strncmp_eq_spec by (try change (length CPUID_VID_INTEL) with 12%nat; lia).
  unfold vendor_is_intel. rewrite !andb_true_iff, !Z.eqb_eq. split.
  - intros <-. destruct (c_string_Some _ _ Hv) as [t Ht].
    assert (t = []) as -> by (apply (f_equal length) in Ht; rewrite !length_app in Ht;
      destruct t; [done|simpl in Ht; lia]).
    rewrite !app_assoc in Ht. apply app_inj_tail in Ht as [Ht _].
    rewrite <- app_assoc in Ht.
    replace CPUID_VID_INTEL with
      (reg_bytes 0x756e6547 ++ reg_bytes 0x49656e69 ++ reg_bytes 0x6c65746e) in Ht
      by (vm_compute; reflexivity).
    apply app_inj_1 in Ht as [E1 Ht]; [|done]. apply app_inj_1 in Ht as [E2 E3]; [|done].
    split_and!; apply reg_bytes_inj; (done || (vm_compute; by split)).
  - intros [[E1 E2] E3]. rewrite E1, E2, E3 in Hv. vm_compute in Hv. by injection Hv.
Qed.

(** Family and model a signature encodes, written with arithmetic. *)
Definition sig_family (sig : Z) : Z :=
  let base := (sig / 2 ^ 8) mod 16 in
  if base =? 15 then (15 + (sig / 2 ^ 20) mod 2 ^ 8) mod 2 ^ 8 else base.
Definition sig_model (sig : Z) : Z := (sig / 2 ^ 4) mod 16 + 16 * ((sig / 2 ^ 16) mod 16).

(** The models of family 6 this kernel knows. *)
Definition supported_models : list Z := [13; 14; 15; 23; 26; 30; 31; 46].

Lemma fold_family_model_fst sig : (fold_family_model sig).1 = sig_family sig.
Proof.
  unfold fold_family_model, sig_family. rewrite !bitfield32_div by lia.
  change (11 - 8 + 1) with 4. change (27 - 20 + 1) with 8. change (2 ^ 4) with 16. simpl.
  destruct (Z.eqb_spec ((sig / 2 ^ 8) mod 16) 15) as [E|]; [by rewrite E|done].
Qed.

Lemma fold_family_model_snd sig :
  sig_family sig = 6 -> (fold_family_model sig).2 = sig_model sig.
Proof.
  rewrite <- fold_family_model_fst. unfold fold_family_model, sig_model. simpl. intros E.
  rewrite E, !bitfield32_div by lia. simpl. rewrite Z.shiftl_mul_pow2 by lia.
  unfold wrap. change (7 - 4 + 1) with 4. change (19 - 16 + 1) with 4.
  change (2 ^ 4) with 16. change (2 ^ 8) with 256.
  pose proof (Z.mod_pos_bound (sig / 16) 16). pose proof (Z.mod_pos_bound (sig / 2 ^ 16) 16).
  rewrite Z.mod_small by lia. lia.
Qed.

Lemma cpufamily_known g : cpuid_set_cpufamily g = CPUFAMILY_UNKNOWN <->
  ~ (cpuid_family g = 6 /\ cpuid_model g ∈ supported_models).
Proof.
  unfold cpuid_set_cpufamily, supported_models. rewrite !elem_of_cons, elem_of_nil.
  unfold CPUID_MODEL_NEHALEM, CPUID_MODEL_FIELDS, CPUID_MODEL_DALES, CPUID_MODEL_NEHALEM_EX.
  repeat case_match; rewrite ?orb_true_iff, ?orb_false_iff in *;
    (split; [try (vm_compute; discriminate)|try done]); lia.
Qed.

(** What the whitelist asks of the processor, on its registers. *)
Definition supported (hw : cpu_hw) : bool :=
  vendor_is_intel (hw_cpuid hw 0) && (sig_family (eax (hw_cpuid hw 1)) =? 6)
  && bool_decide (sig_model (eax (hw_cpuid hw 1)) ∈ supported_models).

Lemma generic_info_fields hw g : cpuid_set_generic_info hw = Some g ->
  cpuid_vendor g = reg_bytes (ebx (hw_cpuid hw 0)) ++ reg_bytes (edx (hw_cpuid hw 0))
                   ++ reg_bytes (ecx (hw_cpuid hw 0)) ++ [0] /\
  (cpuid_family g, cpuid_model g) = fold_family_model (eax (hw_cpuid hw 1)).
Proof.
  unfold cpuid_set_generic_info. destruct (set_brand_string _ _); [|done].
  cbn [mbind option_bind]. destruct (fold_family_model _) as [f m]. by intros [= <-].
Qed.

(** A processor is rejected exactly when the whitelist does not hold of it. *)
Lemma set_info_unsupported hw fuel colors :
  hw_ok hw -> set_brand_string hw (eax (hw_cpuid hw 0x80000000)) <> None ->
  cpuid_set_info hw fuel colors = inl Unsupported_CPU <-> supported hw = false.
Proof.
  intros Hok Hb. unfold cpuid_set_info.
  destruct (cpuid_set_generic_info hw) as [g|] eqn:Hg.
  2: { exfalso. revert Hg. unfold cpuid_set_generic_info.
       destruct (set_brand_string _ _); [|done]. cbn [mbind option_bind].
       by destruct (fold_family_model _). }
  destruct (generic_info_fields _ _ Hg) as [Hv Hfm]. rewrite Hv.
  destruct (c_string_app0 (reg_bytes (ebx (hw_cpuid hw 0)) ++ reg_bytes (edx (hw_cpuid hw 0))
              ++ reg_bytes (ecx (hw_cpuid hw 0)))) as [v Hs].
  rewrite <- !app_assoc in Hs. rewrite Hs, (vendor_test _ _ (hw_cpuid_ok _ Hok 0) Hs).
  unfold supported.
  assert ((cpuid_set_cpufamily g =? CPUFAMILY_UNKNOWN) =
    negb ((sig_family (eax (hw_cpuid hw 1)) =? 6)
          && bool_decide (sig_model (eax (hw_cpuid hw 1)) ∈ supported_models))) as ->.
  { rewrite <- fold_family_model_fst. apply eq_true_iff_eq.
    rewrite Z.eqb_eq, cpufamily_known, negb_true_iff, andb_false_iff, Z.eqb_neq,
      bool_decide_eq_false.
    rewrite <- Hfm. simpl.
    destruct (decide (cpuid_family g = 6)) as [E|]; [|tauto].
    rewrite <- fold_family_model_snd by (by rewrite <- fold_family_model_fst, <- Hfm).
    rewrite <- Hfm. simpl. tauto. }
  destruct (vendor_is_intel _); simpl; [|done].
  destruct (_ && _); simpl; [|done]. split; [|done].
  destruct (cpuid_set_cache_info _ _ _ _) as [e|c] eqn:Hc.
  - intros [= ->]. exfalso. revert Hc. unfold cpuid_set_cache_info.
    repeat case_match; done.
  - by repeat case_match.
Qed.

(** * The deterministic cache parameters, read off the registers *)

Definition leaf_type (r : regs) : cache_type_t :=
  cache_type_of ((eax r / 2 ^ 5) mod 8) (eax r mod 32).
Definition leaf_linesize (r : regs) : Z := ebx r mod 2 ^ 12 + 1.
Definition leaf_partitions (r : regs) : Z := (ebx r / 2 ^ 12) mod 2 ^ 10 + 1.
Definition leaf_ways (r : regs) : Z := (ebx r / 2 ^ 22) mod 2 ^ 10 + 1.
Definition leaf_sets (r : regs) : Z := ecx r mod 2 ^ 32 + 1.
Definition leaf_sharing (r : regs) : Z := (eax r / 2 ^ 14) mod 2 ^ 12 + 1.
Definition leaf_cores (r : regs) : Z := (eax r / 2 ^ 26) mod 2 ^ 6 + 1.
Definition leaf_size (r : regs) : Z :=
  (leaf_linesize r * leaf_sets r * leaf_ways r * leaf_partitions r) mod 2 ^ 32.
(** Page colors: the bytes of one way over the page size. *)
Definition leaf_colors (r : regs) : Z :=
  ((leaf_linesize r * leaf_sets r) mod 2 ^ 32) / 4096.
Definition leaf_slot (r : regs) : option nat :=
  if bool_decide (leaf_type r = Lnone) then None else Some (ct (leaf_type r)).

Lemma leaf_slot_type r t : t <> Lnone -> leaf_slot r = Some (ct t) <-> leaf_type r = t.
Proof.
  intros Ht. unfold leaf_slot. case_bool_decide as E; [rewrite E; by split; [|intros <-]|].
  split; [|by intros ->]. by destruct (leaf_type r), t.
Qed.

Lemma wrap_mul4 w a b c d : wrap w (a * wrap w b * c * d) = wrap w (a * b * c * d).
Proof.
  replace (a * wrap w b * c * d) with (a * c * d * wrap w b) by ring.
  rewrite wrap_mul_r. f_equal. ring.
Qed.

(** The page colors of the machine after one more cache. *)
Definition max_colors (c : Z) (r : regs) : Z :=
  match leaf_slot r with Some _ => Z.max c (leaf_colors r) | None => c end.

Lemma leaf4_step_end r st : eax r mod 32 = 0 -> leaf4_step r st = None.
Proof.
  intros E. unfold leaf4_step. rewrite bitfield32_div by lia.
  change (2 ^ 0) with 1. rewrite Z.div_1_r. change (2 ^ (4 - 0 + 1)) with 32. by rewrite E.
Qed.

Lemma leaf4_step_some r st : eax r mod 32 <> 0 ->
  leaf4_step r st = Some {|
    cores_per_package := leaf_cores r;
    cache_size := assign_all leaf_slot leaf_size (cache_size st) [r];
    cache_sharing := assign_all leaf_slot leaf_sharing (cache_sharing st) [r];
    cache_partitions := assign_all leaf_slot leaf_partitions (cache_partitions st) [r];
    linesizes := assign_all leaf_slot leaf_linesize (linesizes st) [r];
    vm_cache_geometry_colors := max_colors (vm_cache_geometry_colors st) r |}.
Proof.
  intros E. unfold leaf4_step. rewrite !bitfield32_div by lia.
  change (2 ^ 0) with 1. rewrite !Z.div_1_r.
  change (4 - 0 + 1) with 5. change (7 - 5 + 1) with 3. change (25 - 14 + 1) with 12.
  change (31 - 26 + 1) with 6. change (11 - 0 + 1) with 12. change (21 - 12 + 1) with 10.
  change (31 - 22 + 1) with 10. change (31 - 0 + 1) with 32.
  change (2 ^ 5) with 32. destruct (Z.eqb_spec (eax r mod 32) 0) as [|_]; [done|].
  unfold assign_all, max_colors, leaf_slot, leaf_type. simpl foldl. change (2 ^ 3) with 8.
  change (2 ^ 5) with 32.
  destruct (bool_decide _).
  { done. }
  f_equal. f_equal.
  - f_equal. unfold leaf_size, leaf_sets. fold (wrap 32 (ecx r mod 2 ^ 32 + 1)).
    fold (leaf_linesize r) (leaf_ways r) (leaf_partitions r).
    apply wrap_mul4.
  - fold (leaf_linesize r). unfold leaf_colors, leaf_sets.
    rewrite wrap_mul_r, Z.shiftr_div_pow2 by lia. unfold wrap. change (2 ^ 12) with 4096.
    destruct (Z.ltb_spec (vm_cache_geometry_colors st)
      ((leaf_linesize r * (ecx r mod 2 ^ 32 + 1)) mod 2 ^ 32 / 4096)); lia.
Qed.

(** The answers to sub-leaves [i .. i + n - 1]. *)
Definition leaves (hw : cpu_hw) (i : Z) (n : nat) : list regs := hw_leaf4 hw <$> seqZ i (Z.of_nat n).

(** The cache state after a run over a list of answers. *)
Definition run_leaves (st : cache_state) (rs : list regs) : cache_state := {|
  cores_per_package := from_option leaf_cores (cores_per_package st) (last rs);
  cache_size := assign_all leaf_slot leaf_size (cache_size st) rs;
  cache_sharing := assign_all leaf_slot leaf_sharing (cache_sharing st) rs;
  cache_partitions := assign_all leaf_slot leaf_partitions (cache_partitions st) rs;
  linesizes := assign_all leaf_slot leaf_linesize (linesizes st) rs;
  vm_cache_geometry_colors :=
    foldl max_colors (vm_cache_geometry_colors st) rs |}.

(** Sub-leaf [n] is the first one that describes no cache. *)
Definition leaf4_ends (hw : cpu_hw) (n : nat) : Prop :=
  Z.of_nat n < 2 ^ 32 /\ eax (hw_leaf4 hw (Z.of_nat n)) mod 32 = 0 /\
  ∀ i, 0 <= i < Z.of_nat n -> eax (hw_leaf4 hw i) mod 32 <> 0.

Lemma leaf4_loop_from hw n k i fuel st :
  leaf4_ends hw n -> 0 <= i -> i + Z.of_nat k = Z.of_nat n -> (k < fuel)%nat ->
  leaf4_loop hw fuel i st = Some (run_leaves st (leaves hw i k)).
Proof.
  intros (Hn & Hend & Hne). revert k i st. induction fuel as [|fuel IH]; intros k i st Hi Hk Hf.
  { lia. }
  simpl. destruct k as [|k].
  - replace i with (Z.of_nat n) by lia. rewrite leaf4_step_end by done. by destruct st.
  - rewrite leaf4_step_some by (apply Hne; lia).
    rewrite wrap_small by (unfold in_range; lia). rewrite (IH k) by lia.
    f_equal. unfold leaves, run_leaves. simpl.
    replace (Z.of_nat (S k)) with (Z.succ (Z.of_nat k)) by lia.
    rewrite (seqZ_cons i) by lia. rewrite Z.pred_succ, fmap_cons.
    replace (i + 1) with (Z.succ i) by lia. f_equal.
    + destruct (hw_leaf4 hw <$> seqZ (Z.succ i) (Z.of_nat k)) eqn:E using rev_ind; [done|].
      rewrite app_comm_cons, !last_snoc. done.
Qed.

(** The deterministic cache loop terminates after the first
    sub-leaf that describes no cache, and what it publishes for every cache type
    is what the last sub-leaf of that type says: size (line size times sets times
    ways times partitions, in 32 bits), sharing and line size; a type no sub-leaf
    has keeps its old values, and the page colors only grow. *)
Theorem leaf4_loop_publishes hw n fuel st :
  leaf4_ends hw n -> (n < fuel)%nat ->
  length (cache_size st) = LCACHE_MAX -> length (cache_sharing st) = LCACHE_MAX ->
  length (linesizes st) = LCACHE_MAX ->
  ∃ st', leaf4_loop hw fuel 0 st = Some st' /\
    (∀ t, t <> Lnone ->
      let decider := last (filter (λ r, leaf_type r = t) (leaves hw 0 n)) in
      match decider with
      | Some r => cache_size st' !! ct t = Some (leaf_size r) /\
                  cache_sharing st' !! ct t = Some (leaf_sharing r) /\
                  linesizes st' !! ct t = Some (leaf_linesize r)
      | None => cache_size st' !! ct t = cache_size st !! ct t /\
                cache_sharing st' !! ct t = cache_sharing st !! ct t /\
                linesizes st' !! ct t = linesizes st !! ct t
      end) /\
    vm_cache_geometry_colors st <= vm_cache_geometry_colors st' /\
    ∀ r, r ∈ leaves hw 0 n -> leaf_type r <> Lnone ->
      leaf_colors r <= vm_cache_geometry_colors st'.
Proof.
  intros Hends Hfuel Hl1 Hl2 Hl3.
  exists (run_leaves st (leaves hw 0 n)). split; [by apply leaf4_loop_from with n; try lia|].
  split; [|].
  - intros t Ht. assert (ct t < LCACHE_MAX)%nat by (destruct t; simpl; lia).
    simpl. rewrite !lookup_assign_all by lia.
    rewrite (list_filter_iff (λ r, leaf_slot r = Some (ct t)) (λ r, leaf_type r = t))
      by (intros; by apply leaf_slot_type).
    by destruct (last _).
  - simpl. generalize (leaves hw 0 n), (vm_cache_geometry_colors st).
    intros rs. induction rs as [|r rs IH]; intros c; simpl.
    { split; [lia|]. by intros ? ?%elem_of_nil. }
    destruct (IH (max_colors c r)) as [H1 H2].
    assert (c <= max_colors c r) by (unfold max_colors; destruct (leaf_slot r); lia).
    split; [lia|]. intros r' [->|?]%elem_of_cons Hr'; [|auto].
    unfold max_colors in *. destruct (leaf_slot r) eqn:E; [lia|].
    unfold leaf_slot in E. by case_bool_decide.
Qed.

(** ** TLB descriptors *)

(** The [cpuid_tlb] entry a descriptor byte publishes, if it does. *)
Definition byte_tlb_slot (b : Z) : option nat :=
  d ← cpuid_leaf2_find b; match type d with TLB => tlb_slot d | _ => None end.
Definition byte_entries (b : Z) : Z := from_option entries 0 (cpuid_leaf2_find b).

Lemma tlb_steps t bs :
  cpuid_tlb (foldl tlb_step t bs) = assign_all byte_tlb_slot byte_entries (cpuid_tlb t) bs.
Proof.
  unfold assign_all. revert t. induction bs as [|b bs IH]; intros t; simpl; [done|].
  rewrite IH. f_equal. unfold tlb_step, byte_tlb_slot, byte_entries.
  destruct (cpuid_leaf2_find b) as [d|]; simpl; [|done].
  destruct (type d); try done. by destruct (tlb_slot d).
Qed.

(** Every TLB entry the loop over the descriptor bytes
    publishes is the one of the last descriptor byte for that TLB, and a TLB no
    descriptor names keeps the zero of [bzero]. *)
Theorem tlb_last_descriptor_wins bs k : (k < 8)%nat ->
  cpuid_tlb (foldl tlb_step (TlbInfo (replicate 8 0) 0) bs) !! k =
  Some (from_option byte_entries 0 (last (filter (λ b, byte_tlb_slot b = Some k) bs))).
Proof.
  intros Hk. rewrite tlb_steps, lookup_assign_all by done.
  destruct (last _); [done|]. by apply lookup_replicate_2.
Qed.

(** Every slot the table publishes to is one of the eight. *)
Lemma byte_tlb_slot_lt b k : byte_tlb_slot b = Some k -> (k < 8)%nat.
Proof.
  unfold byte_tlb_slot. destruct (cpuid_leaf2_find b) as [d|]; simpl; [|done].
  destruct (type d); try done. unfold tlb_slot.
  destruct (level d =? INST); simpl.
  - intros [= <-]. unfold tlb_index. repeat case_match; vm_compute; lia.
  - destruct (_ || _ || _); simpl; [|done]. intros [= <-].
    unfold tlb_index. repeat case_match; vm_compute; lia.
Qed.

(** ** Leaf 2 descriptors beyond [cache_info] *)

(** The bound of the leaf 2 loop lets a fifth answer through: its first two
    registers land in the package counts behind [cache_info]. *)
Example leaf2_fifth_answer_overruns :
  let answer n := Regs (if n =? 0 then 5 else n) (10 + n) (20 + n) (30 + n) in
  let hw := CpuHw (λ _, Regs 0 0 0 0) answer (λ _, Regs 0 0 0 0) (λ _, 0) [] in
  drop 16 (leaf2_words hw 2) = [4; 14; 24; 34].
Proof. reflexivity. Qed.

(** * Feature lists *)

(** The printed list: a space and a name for every feature of the word. *)
Definition features_string (map : list (Z * string)) (features : Z) : list Z :=
  concat ((λ '(_, name), 32 :: bytes_of name) <$>
          filter (λ '(mask, _), features &&& mask <> 0) map).

(** Names fit in front of a NUL: nothing is cut and every store is inside. *)
Lemma names_loop_fits map features buf_len :
  0 <= buf_len < 2 ^ 32 ->
  Forall (λ '(_, name), bytes_of name <> []) map ->
  ∀ pre rest len, 0 < len ->
  zlen (pre ++ rest) = buf_len ->
  (length (features_string map features) < length rest)%nat ->
  ∃ rest', names_loop map features buf_len len (length pre) (pre ++ rest) =
           Some (pre ++ features_string map features ++ 0 :: rest').
Proof.
  intros Hbl Hne. induction Hne as [|[mask name] map Hname Hne IH];
    intros pre rest len Hlen Hb Hfit.
  { destruct rest as [|c rest]; [simpl in Hfit; lia|]. exists rest. apply wr8_mid. }
  simpl. unfold features_string in *. rewrite filter_cons in *.
  destruct (Z.eqb_spec (features &&& mask) 0) as [E|E].
  { rewrite decide_False in * by (intros []; done). by apply IH. }
  rewrite decide_True in * by done. rewrite fmap_cons in *. simpl in *.
  rewrite length_app in Hfit.
  set (s := bytes_of name) in *. set (more := concat _) in *.
  destruct rest as [|c rest]; [simpl in Hfit; lia|]. simpl in Hfit.
  rewrite (proj2 (Z.ltb_lt 0 len)) by done. rewrite wr8_mid. simpl.
  assert (∃ mid rest2, rest = mid ++ rest2 /\ length mid = length s)
    as (mid & rest2 & -> & Hmid).
  { exists (take (length s) rest), (drop (length s) rest).
    rewrite take_drop, length_take. split; [done|lia]. }
  rewrite length_app in Hfit. rewrite length_app in Hb. simpl in Hb. rewrite length_app in Hb.
  replace (length pre + 1)%nat with (length (pre ++ [32])) by (rewrite length_app; simpl; lia).
  replace (u32 _) with (buf_len - 1 - zlen (pre ++ [32])).
  2:{ rewrite length_app; simpl length. symmetry. rewrite (wrap_small 32 (buf_len - 1));
      [apply wrap_small|]; unfold in_range; lia. }
  assert (Z.of_nat (length s) <= buf_len - 1 - zlen (pre ++ [32])) as Hle
    by (rewrite length_app; simpl length; lia).
  rewrite Z.min_l by done.
  assert (0 < length s)%nat by (destruct s; [done|simpl; lia]).
  destruct (Z.eqb_spec (zlen s) 0) as [|_]; [lia|].
  rewrite Nat2Z.id, take_ge by lia.
  replace (pre ++ 32 :: mid ++ rest2) with ((pre ++ [32]) ++ mid ++ rest2)
    by (by rewrite <- app_assoc).
  rewrite wr_bytes_mid by done. simpl.
  destruct (IH ((pre ++ [32]) ++ s) rest2 (zlen s)) as [rest' E'].
  - lia.
  - rewrite !length_app. simpl. lia.
  - lia.
  - exists rest'. rewrite (length_app (pre ++ [32])) in E'. rewrite <- !app_assoc in E'.
    rewrite <- (app_assoc pre [32]), E'. simpl. by rewrite <- app_assoc.
Qed.

(** All the names of a map with their spaces; an upper bound of every list. *)
Definition all_names (map : list (Z * string)) : list Z :=
  concat ((λ '(_, name), 32 :: bytes_of name) <$> map).

Lemma features_string_le map features :
  (length (features_string map features) <= length (all_names map))%nat.
Proof.
  unfold features_string, all_names. induction map as [|[mask name] map IH]; [done|].
  rewrite filter_cons. case_decide; rewrite ?fmap_cons; simpl; rewrite ?length_app; simpl; lia.
Qed.

Lemma features_string_Forall P map features :
  Forall P (all_names map) -> Forall P (features_string map features).
Proof.
  unfold features_string, all_names. induction map as [|[mask name] map IH]; [done|].
  rewrite fmap_cons, filter_cons. simpl. intros [? [? ?]%Forall_app]%Forall_cons.
  case_decide; [|auto]. rewrite fmap_cons. simpl. rewrite Forall_cons, Forall_app. auto.
Qed.

Lemma names_fit map features buf buf_len :
  buf_len = zlen buf -> buf_len < 2 ^ 32 ->
  Forall (λ '(_, name), bytes_of name <> []) map -> Forall (λ b, b <> 0) (all_names map) ->
  (length (all_names map) < length buf)%nat ->
  ∃ buf', names_loop map features buf_len (u32 (-1)) 0 buf = Some buf' /\
          c_string buf' = Some (features_string map features).
Proof.
  intros Hb Hlt Hne Hnz Hlen. pose proof (features_string_le map features).
  destruct (names_loop_fits map features buf_len ltac:(lia) Hne [] buf (u32 (-1)))
    as [rest' E]; [done|done|lia|].
  eexists. split; [exact E|]. apply c_string_end. by apply features_string_Forall.
Qed.

(** With the 256-byte buffer of both display routines, whatever the
    feature words are, every store is inside the buffer and the string printed is
    the list of all the features present, each preceded by a space. *)
Theorem feature_names_complete features extfeatures buf :
  length buf = 256%nat ->
  (∃ buf', cpuid_get_feature_names features buf 256 = Some buf' /\
           c_string buf' = Some (features_string feature_map features)) /\
  (∃ buf', cpuid_get_extfeature_names extfeatures buf 256 = Some buf' /\
           c_string buf' = Some (features_string extfeature_map extfeatures)).
Proof.
  intros Hb. split; apply names_fit; try (rewrite Hb; (reflexivity || (vm_compute; lia)));
    try (repeat constructor; discriminate); lia.
Qed.

Lemma feature_names_complete_witness :
  ∃ buf', cpuid_get_feature_names (CPUID_FEATURE_FPU ||| CPUID_FEATURE_SSE3)
            (replicate 256 7) 256 = Some buf' /\ c_string buf' = Some (bytes_of " FPU SSE3").
Proof.
  destruct (feature_names_complete (CPUID_FEATURE_FPU ||| CPUID_FEATURE_SSE3) 0
              (replicate 256 7) eq_refl) as [H _].
  exact H.
Defined.

(** When the names before it fill the buffer exactly, the remaining
    length of the next feature underflows and [cpuid_get_feature_names] stores
    past the end of a 5-byte buffer; [len] starts at the largest [size_t], so the
    list also opens with a space. *)
Theorem feature_names_overflow b0 b1 b2 b3 b4 :
  cpuid_get_feature_names (CPUID_FEATURE_FPU ||| CPUID_FEATURE_VME) [b0; b1; b2; b3; b4] 5
  = None.
Proof. reflexivity. Qed.

(** * Boot decisions *)

Lemma linesizes_length st rs :
  length (linesizes st) = LCACHE_MAX -> length (linesizes (run_leaves st rs)) = LCACHE_MAX.
Proof. intros. simpl. by rewrite length_assign_all. Qed.

Lemma leaf_linesize_pos r : 0 < leaf_linesize r.
Proof. unfold leaf_linesize. pose proof (Z.mod_pos_bound (ebx r) (2 ^ 12)). lia. Qed.

Lemma published_linesize st rs t :
  length (linesizes st) = LCACHE_MAX -> t <> Lnone -> (∃ r, r ∈ rs /\ leaf_type r = t) ->
  truth (default 0 (linesizes (run_leaves st rs) !! ct t)) = true.
Proof.
  intros Hl Ht (r & Hr & Hrt). simpl. assert (ct t < LCACHE_MAX)%nat by (destruct t; simpl; lia).
  rewrite lookup_assign_all by lia.
  destruct (last _) as [r'|] eqn:E.
  - simpl. apply truth_true. pose proof (leaf_linesize_pos r'). lia.
  - apply last_None in E. exfalso. apply (not_elem_of_nil r). rewrite <- E.
    apply list_elem_of_filter. split; [by apply leaf_slot_type|done].
Qed.

Lemma published_pos st rs t :
  length (linesizes st) = LCACHE_MAX -> (∀ k, default 0 (linesizes st !! k) = 0) ->
  truth (default 0 (linesizes (run_leaves st rs) !! ct t)) = true ->
  0 < default 0 (linesizes (run_leaves st rs) !! ct t).
Proof.
  intros Hl H0. simpl. assert (ct t < LCACHE_MAX)%nat by (destruct t; simpl; lia).
  rewrite lookup_assign_all by lia. destruct (last _) as [r'|]; simpl.
  - intros _. apply leaf_linesize_pos.
  - rewrite H0. intros ?%truth_true. lia.
Qed.

(** C22 (functional): [cpuid_set_info] decides between booting and the panic
    "Unsupported CPU" exactly by the whitelist: vendor GenuineIntel, family 6
    (after folding the extended family into an 8-bit field) and one of the eight
    known models.  On such a processor, when leaf 4 lists its caches with an L1
    data or L2 cache among them and the brand string is terminated, it returns,
    with a family other than unknown and a published line size. *)
Theorem cpuid_set_info_whitelist hw fuel n colors :
  hw_ok hw -> set_brand_string hw (eax (hw_cpuid hw 0x80000000)) <> None ->
  leaf4_ends hw n -> (n < fuel)%nat -> (0 < n)%nat -> 4 <= eax (hw_cpuid hw 0) ->
  (∃ r, r ∈ leaves hw 0 n /\ (leaf_type r = L1D \/ leaf_type r = L2U)) ->
  (supported hw = false /\ cpuid_set_info hw fuel colors = inl Unsupported_CPU) \/
  (supported hw = true /\ ∃ info, cpuid_set_info hw fuel colors = inr info /\
     cpuid_cpufamily info <> CPUFAMILY_UNKNOWN /\
     cpuid_cpufamily info = cpuid_set_cpufamily (generic info) /\
     0 < cache_linesize (details info)).
Proof.
  intros Hok Hbrand Hend Hfuel Hn H4 (r & Hr & Hrt).
  destruct (supported hw) eqn:Hs.
  2: { left. split; [done|]. by apply set_info_unsupported. }
  right. split; [done|].
  assert (cpuid_set_info hw fuel colors <> inl Unsupported_CPU) as Hnot.
  { rewrite set_info_unsupported, Hs by done. done. }
  revert Hnot. unfold cpuid_set_info.
  destruct (cpuid_set_generic_info hw) as [g|] eqn:Hg.
  2: { exfalso. revert Hg. unfold cpuid_set_generic_info.
       destruct (set_brand_string _ _); [|done]. cbn [mbind option_bind].
       by destruct (fold_family_model _). }
  destruct (negb _ || _) eqn:Hrej; [done|]. intros _.
  apply orb_false_iff in Hrej as [_ Hfam%Z.eqb_neq].
  assert (∃ c, cpuid_set_cache_info hw fuel g colors = inr c /\ 0 < cache_linesize c)
    as (c & -> & Hc).
  { unfold cpuid_set_cache_info. rewrite (proj2 (Z.leb_le 4 _)) by done.
    rewrite (leaf4_loop_from hw n n) by (done || lia).
    set (st := CacheState _ _ _ _ _ _). cbv zeta.
    assert ((cores_per_package (run_leaves st (leaves hw 0 n)) =? 0) = false) as ->.
    { apply Z.eqb_neq. cbn [run_leaves cores_per_package]. destruct (last (leaves hw 0 n)) as [r'|] eqn:E.
      - simpl. unfold leaf_cores. pose proof (Z.mod_pos_bound (eax r' / 2 ^ 26) (2 ^ 6)). lia.
      - apply last_None in E. rewrite E in Hr. by apply elem_of_nil in Hr. }
    set (st' := run_leaves st (leaves hw 0 n)).
    assert (∀ t, t <> Lnone -> truth (default 0 (linesizes st' !! ct t)) = true ->
                 0 < default 0 (linesizes st' !! ct t)) as Hpos.
    { intros t Ht. apply published_pos; [done|]. intros k.
      by do 5 (destruct k as [|k]; [done|]). }
    assert (truth (default 0 (linesizes st' !! ct L1D)) = true \/
            truth (default 0 (linesizes st' !! ct L2U)) = true) as Hone.
    { destruct Hrt as [Hrt|Hrt]; [left|right]; apply published_linesize; try done; by exists r. }
    pose proof (Hpos L2U ltac:(done)) as H2. pose proof (Hpos L1D ltac:(done)) as H1.
    clear Hpos. clearbody st'.
    set (x2 := default 0 (linesizes st' !! ct L2U)) in *.
    set (x1 := default 0 (linesizes st' !! ct L1D)) in *. clearbody x1 x2.
    destruct (truth x2); [eexists; split; [reflexivity|auto]|].
    destruct (truth x1); [eexists; split; [reflexivity|auto]|by destruct Hone]. }
  repeat case_match; (eexists; split; [reflexivity|done]).
Qed.

(** The processor of this kernel's name, the Atom N570 with
    signature 0x000106CA (family 6, model 28), is not in the whitelist: whatever
    else it answers, [cpuid_set_info] does not return on it. *)
Lemma atom_n570_rejected hw fuel colors :
  hw_ok hw -> eax (hw_cpuid hw 1) = 0x000106CA ->
  cpuid_set_info hw fuel colors =
    inl (if set_brand_string hw (eax (hw_cpuid hw 0x80000000)) is Some _
         then Unsupported_CPU else Brand_string_overread).
Proof.
  intros Hok E.
  destruct (set_brand_string _ _) eqn:Hb.
  - apply set_info_unsupported; [done|by rewrite Hb|].
    unfold supported. rewrite E. by rewrite andb_false_r.
  - unfold cpuid_set_info, cpuid_set_generic_info. by rewrite Hb.
Qed.

(** ** Concrete processors *)

(** A desktop processor of family 6 and the given signature, with two leaf 4
    caches, 32K L1 data and 6M L2. *)
Definition demo_hw (signature : Z) : cpu_hw := CpuHw
  (λ l, if l =? 0 then Regs 10 0x756e6547 0x6c65746e 0x49656e69
        else if l =? 1 then Regs signature 0x20800 0x8e3bd 0xbfebfbff
        else if l =? 0x80000000 then Regs 0x80000008 0 0 0
        else if l =? 0x80000002 then Regs 0x65746e49 0x29286c 0 0
        else Regs 0 0 0 0)
  (λ _, Regs 0x05b0b101 0x005657f0 0 0x2cb4304e)
  (λ i, if i =? 0 then Regs 0x4000121 0x1c0003f 0x3f 0
        else if i =? 1 then Regs 0x4004143 0x5c0003f 0xfff 0
        else Regs 0 0 0 0)
  (λ _, 0) (replicate 80 0).

Lemma demo_hw_ok signature : in_range 32 signature -> hw_ok (demo_hw signature).
Proof.
  intros Hs. constructor; intros l; simpl; repeat case_match;
    unfold regs_ok; simpl; split_and!; (done || (unfold in_range; lia)).
Qed.

Lemma demo_leaf4_ends signature : leaf4_ends (demo_hw signature) 2.
Proof.
  split; [lia|]. split; [done|]. intros i Hi. assert (i = 0 \/ i = 1) as [-> | ->] by lia; done.
Qed.

Lemma leaf4_loop_publishes_witness :
  ∃ st', leaf4_loop (demo_hw 0x10676) 3 0 (CacheState 0 (replicate 5 0) (replicate 5 0)
           (replicate 5 0) (replicate 5 0) 1) = Some st' /\
         cache_size st' !! ct L2U = Some (6 * 1024 * 1024).
Proof.
  destruct (leaf4_loop_publishes (demo_hw 0x10676) 2 3
    (CacheState 0 (replicate 5 0) (replicate 5 0) (replicate 5 0) (replicate 5 0) 1)
    (demo_leaf4_ends _) ltac:(lia) eq_refl eq_refl eq_refl) as (st' & E & H & _).
  exists st'. split; [exact E|]. exact (proj1 (H L2U ltac:(discriminate))).
Defined.

Lemma tlb_last_descriptor_wins_witness :
  cpuid_tlb (foldl tlb_step (TlbInfo (replicate 8 0) 0) [0x01; 0xb0; 0x04]) !! 0%nat = Some 128.
Proof. exact (tlb_last_descriptor_wins [0x01; 0xb0; 0x04] 0 ltac:(lia)). Defined.

Lemma cpuid_set_info_whitelist_witness :
  ∃ info, cpuid_set_info (demo_hw 0x10676) 3 1 = inr info /\ 0 < cache_linesize (details info).
Proof.
  destruct (cpuid_set_info_whitelist (demo_hw 0x10676) 3 2 1) as [[H _]|(_ & i & E & _ & _ & H)].
  - by apply demo_hw_ok.
  - by vm_compute.
  - apply demo_leaf4_ends.
  - lia.
  - lia.
  - by vm_compute.
  - exists (Regs 0x4000121 0x1c0003f 0x3f 0). split; [by left|by left].
  - discriminate H.
  - exists i. split; [exact E|exact H].
Defined.

End Cpuid.
