(* ===== verification/BootArgs.v ===== *)
(** The boot-argument parser, pexpert/gen/bootargs.c: the command line handed
    over by the boot loader is a C string (a byte list without NUL) that is
    searched for one argument, whose value is stored through a caller's pointer.

    A pointer into a string is the rest of the string; reading the NUL reads 0.
    [arg_ptr] is the caller's buffer; a store outside of it is a fault, [None]. *)

From Stdlib Require Import Ascii.
From S2P Require Import Prelude.

Module BootArgs.

(** The character under a pointer. *)
Definition cur (s : list Z) : Z := from_option id 0 (head s).

Definition ch (c : Ascii.ascii) : Z := Z.of_nat (Ascii.nat_of_ascii c).
Coercion ch : Ascii.ascii >-> Z.

(** [isargsep] (pexpert/gen/bootargs.c, 140-147). *)
Definition isargsep (c : Z) : bool := (c =? " "%char) || (c =? 0) || (c =? 9).

(** [argstrcpy], the characters it copies (pexpert/gen/bootargs.c, 149-162). *)
Fixpoint argstrcpy (from : list Z) : list Z :=
  match from with
  | [] => []
  | c :: from => if isargsep c then [] else c :: argstrcpy from
  end.

(** [argstrcpy2], the characters it copies (pexpert/gen/bootargs.c, 164-178). *)
Fixpoint argstrcpy2 (from : list Z) (maxlen : nat) : list Z :=
  match from, maxlen with
  | c :: from, S maxlen => if isargsep c then [] else c :: argstrcpy2 from maxlen
  | _, _ => []
  end.

(** What [getval] returns; the [int] is kept as the 32 bits it is stored as. *)
Inductive getval_result := NUM (val : Z) | STR.

Definition between (a c b : Z) : bool := (a <=? c) && (c <=? b).

(** [getval], the loop over the digits and a suffix with the test behind it
    (pexpert/gen/bootargs.c, 222-258). *)
Fixpoint getval_digits (s : list Z) (radix intval sign : Z) : getval_result :=
  match s with
  | [] => NUM (u32 (intval * sign))
  | c :: s =>
      let suffix sign := if isargsep (cur s) then NUM (u32 (intval * sign)) else STR in
      let digit d := if radix <=? d then STR
                     else getval_digits s radix (u32 (u32 (intval * radix) + d)) sign in
      if isargsep c then NUM (u32 (intval * sign))
      else if (radix <=? 10) && between "0"%char c ("9"%char - (10 - radix))
      then digit (c - "0"%char)
      else if (radix =? 16) && between "0"%char c "9"%char then digit (c - "0"%char)
      else if (radix =? 16) && between "a"%char c "f"%char then digit (c - ("a"%char - 10))
      else if (radix =? 16) && between "A"%char c "F"%char then digit (c - ("A"%char - 10))
      else if (c =? "k"%char) || (c =? "K"%char) then suffix (sign * 1024)
      else if (c =? "m"%char) || (c =? "M"%char) then suffix (sign * (1024 * 1024))
      else if (c =? "g"%char) || (c =? "G"%char) then suffix (sign * (1024 * 1024 * 1024))
      else STR
  end.

(** [getval], the number behind an optional sign
    (pexpert/gen/bootargs.c, 192-258).  After a NUL in place of the first digit
    the code returns before it reads on. *)
Definition getval_number (s : list Z) (sign : Z) : getval_result :=
  let intval := u32 (cur s - "0"%char) in
  let s := tail s in
  let radix := 10 in
  if intval =? 0 then
    if cur s =? "x"%char then getval_digits (tail s) 16 intval sign
    else if cur s =? "b"%char then getval_digits (tail s) 2 intval sign
    else if between "0"%char (cur s) "7"%char then
      getval_digits (tail s) 8 (u32 (cur s - "0"%char)) sign
    else if negb (isargsep (cur s)) then STR
    else getval_digits s radix intval sign
  else if radix <=? intval then STR
  else getval_digits s radix intval sign.

(** [getval] (pexpert/gen/bootargs.c, 180-262). *)
Definition getval (s : list Z) : getval_result :=
  if cur s =? "="%char then
    let s := tail s in
    if cur s =? "-"%char then getval_number (tail s) (-1) else getval_number s 1
  else NUM 1.

(** The store of an [unsigned int] at [arg_ptr]. *)
Definition store_uint (mem : list Z) (val : Z) : option (list Z) :=
  wr_bytes mem 0 [val mod 256; (val / 2 ^ 8) mod 256; (val / 2 ^ 16) mod 256; (val / 2 ^ 24) mod 256].

(** A string and its NUL at [arg_ptr]. *)
Definition store_str (mem bs : list Z) : option (list Z) := wr_bytes mem 0 (bs ++ [0]).

(** The pointer moved to the next [=] or separator. *)
Fixpoint to_eq (cp : list Z) : list Z :=
  match cp with
  | c :: cp' => if negb (isargsep c) && negb (c =? "="%char) then to_eq cp' else cp
  | [] => []
  end.

Fixpoint skip_arg (args : list Z) : list Z :=
  match args with
  | c :: args' => if isargsep c then args else skip_arg args'
  | [] => []
  end.

Fixpoint skip_seps (args : list Z) : list Z :=
  match args with
  | c :: args' => if isargsep c then skip_seps args' else args
  | [] => []
  end.

(** [PE_parse_boot_argn], the loop over the arguments
    (pexpert/gen/bootargs.c, 76-137); [None] is a fault or lack of fuel. *)
Fixpoint parse_loop (fuel : nat) (arg_string : list Z) (max_len : Z)
    (args : list Z) (arg_found : bool) (mem : list Z) : option (bool * list Z) :=
  match fuel with
  | O => None
  | S fuel =>
      match args with
      | [] => Some (arg_found, mem)
      | _ =>
          let gotit args arg_found mem :=
            parse_loop fuel arg_string max_len (skip_seps (skip_arg args)) arg_found mem in
          let arg_boolean := cur args =? "-"%char in
          let cp := to_eq args in
          if negb (cur cp =? "="%char) && negb arg_boolean then gotit args arg_found mem
          else
            let c := cur cp in
            let i := (length args - length cp)%nat in
            if negb (strncmp_eq args arg_string i) || negb (i =? length arg_string)%nat
            then gotit args arg_found mem
            else if arg_boolean then mem ← store_uint mem 1; Some (true, mem)
            else
              let cp := skip_seps cp in
              if (cur cp =? "="%char) && negb (c =? "="%char) then gotit (tail cp) arg_found mem
              else if "_"%char =? cur arg_string then
                let hacklen := Z.max 17 max_len in
                mem ← store_str mem (argstrcpy2 (tail cp) (Z.to_nat (hacklen - 1)));
                Some (true, mem)
              else
                match getval cp with
                | NUM val => mem ← store_uint mem val; gotit args true mem
                | STR =>
                    mem ← (if 0 <? max_len
                           then store_str mem (argstrcpy2 (tail cp) (Z.to_nat (max_len - 1)))
                           else if max_len =? -1 then store_str mem (argstrcpy (tail cp))
                           else Some mem);
                    gotit args true mem
                end
      end
  end.

(** [PE_parse_boot_argn] (pexpert/gen/bootargs.c, 56-138), with the string
    [PE_boot_args] returns as its first argument. *)
Definition PE_parse_boot_argn (boot_args arg_string : list Z) (max_len : Z) (mem : list Z)
    : option (bool * list Z) :=
  if cur boot_args =? 0 then Some (false, mem)
  else parse_loop (S (length boot_args)) arg_string max_len (skip_seps boot_args) false mem.

(** [PE_parse_boot_arg] (pexpert/gen/bootargs.c, 40-53). *)
Definition PE_parse_boot_arg (boot_args arg_string mem : list Z) : option (bool * list Z) :=
  PE_parse_boot_argn boot_args arg_string (-1) mem.

(** * Specification: the arguments are the words of the command line *)

(** The words between separators. *)
Fixpoint words (s : list Z) : list (list Z) :=
  match s with
  | [] => []
  | c :: s' =>
      if isargsep c then words s'
      else match s' with
           | [] => [[c]]
           | c' :: _ => if isargsep c' then [c] :: words s'
                        else match words s' with
                             | w :: ws => (c :: w) :: ws
                             | [] => [[c]]
                             end
           end
  end.

(** A word split at its first [=]. *)
Fixpoint split_eq (w : list Z) : list Z * option (list Z) :=
  match w with
  | [] => ([], None)
  | c :: w => if c =? "="%char then ([], Some w)
              else let '(n, v) := split_eq w in (c :: n, v)
  end.

(** What one word does to the search: nothing, a store after which the search
    goes on, or a store that ends it. *)
Inductive action :=
  | Skip
  | Store (f : list Z -> option (list Z))
  | Final (f : list Z -> option (list Z)).

Definition word_action (arg_string : list Z) (max_len : Z) (w : list Z) : action :=
  let '(name, value) := split_eq w in
  if cur w =? "-"%char then
    if bool_decide (name = arg_string) then Final (λ mem, store_uint mem 1) else Skip
  else
    match value with
    | None => Skip
    | Some value =>
        if negb (bool_decide (name = arg_string)) then Skip
        else if "_"%char =? cur arg_string then
          Final (λ mem, store_str mem (take (Z.to_nat (Z.max 17 max_len - 1)) value))
        else
          match getval (ch "="%char :: value) with
          | NUM v => Store (λ mem, store_uint mem v)
          | STR =>
              if 0 <? max_len
              then Store (λ mem, store_str mem (take (Z.to_nat (max_len - 1)) value))
              else if max_len =? -1 then Store (λ mem, store_str mem value)
              else Store Some
          end
    end.

Fixpoint run_words (acts : list action) (arg_found : bool) (mem : list Z)
    : option (bool * list Z) :=
  match acts with
  | [] => Some (arg_found, mem)
  | Skip :: acts => run_words acts arg_found mem
  | Store f :: acts => mem ← f mem; run_words acts true mem
  | Final f :: _ => mem ← f mem; Some (true, mem)
  end.

(** * Words and separators *)

Definition nonsep (w : list Z) : Prop := Forall (λ c, isargsep c = false) w.
(** The string ends or continues with a separator. *)
Definition sep_ahead (s : list Z) : Prop := isargsep (cur s) = true.

Lemma sep_ahead_cases s : sep_ahead s -> cur s = 32 \/ cur s = 0 \/ cur s = 9.
Proof. unfold sep_ahead, isargsep. change (ch " "%char) with 32. lia. Qed.

Lemma words_word w rest : w <> [] -> nonsep w -> sep_ahead rest ->
  words (w ++ rest) = w :: words rest.
Proof.
  intros Hne Hw Hr. induction Hw as [|c w Hc Hw IH]; [done|].
  simpl. rewrite Hc. destruct w as [|c' w].
  - simpl. destruct rest as [|c' rest]; [done|]. by rewrite Hr.
  - rewrite <- app_comm_cons in *. apply Forall_cons in Hw as Hw'. destruct Hw' as [Hc' _].
    rewrite Hc'. by rewrite IH.
Qed.

Lemma words_skip_seps s : words (skip_seps s) = words s.
Proof. induction s as [|c s IH]; simpl; [done|]. destruct (isargsep c) eqn:E; [done|]. simpl. by rewrite E. Qed.

Lemma skip_seps_length s : (length (skip_seps s) <= length s)%nat.
Proof. induction s as [|c s IH]; simpl; [done|]. destruct (isargsep c); simpl; lia. Qed.

(** A string behind its leading separators is empty or starts with a word. *)
Lemma word_ahead s : skip_seps s = s -> s <> [] ->
  ∃ w rest, s = w ++ rest /\ w <> [] /\ nonsep w /\ sep_ahead rest.
Proof.
  intros Hs Hne. assert (isargsep (cur s) = false) as Hc.
  { destruct s as [|c s]; [done|]. simpl in *. destruct (isargsep c) eqn:E; [|done].
    exfalso. pose proof (skip_seps_length s) as H. rewrite Hs in H. simpl in H. lia. }
  clear Hs. induction s as [|c s IH]; [done|]. simpl in Hc.
  destruct (isargsep (cur s)) eqn:E.
  - exists [c], s. split_and!; [done..| |done]. by constructor.
  - destruct IH as (w & rest & -> & ? & ? & ?); [by destruct s|done|].
    exists (c :: w), rest. split_and!; [done..| |done]. by constructor.
Qed.

Lemma skip_seps_idemp s : skip_seps (skip_seps s) = skip_seps s.
Proof. induction s as [|c s IH]; simpl; [done|]. destruct (isargsep c) eqn:E; [done|]. simpl. by rewrite E. Qed.

Lemma skip_arg_app w rest : nonsep w -> sep_ahead rest -> skip_arg (w ++ rest) = rest.
Proof.
  induction 1 as [|c w Hc _ IH]; intros Hr; simpl.
  - destruct rest; [done|]. simpl. by rewrite Hr.
  - rewrite Hc. auto.
Qed.

Lemma split_eq_spec w n v : split_eq w = (n, v) ->
  w = n ++ from_option (cons (ch "="%char)) [] v.
Proof.
  revert n v. induction w as [|c w IH]; intros n v; simpl.
  { by intros [= <- <-]. }
  destruct (Z.eqb_spec c "="%char) as [->|].
  - by intros [= <- <-].
  - destruct (split_eq w) as [n' v'] eqn:E. intros [= <- <-]. simpl. f_equal. by apply IH.
Qed.

Lemma to_eq_app w rest n v : nonsep w -> sep_ahead rest -> split_eq w = (n, v) ->
  to_eq (w ++ rest) = from_option (cons (ch "="%char)) [] v ++ rest.
Proof.
  intros Hw Hr. revert n v. induction Hw as [|c w Hc _ IH]; intros n v; simpl.
  { intros [= <- <-]. simpl. destruct rest as [|c rest]; [done|]. simpl. by rewrite Hr. }
  rewrite Hc. destruct (Z.eqb_spec c "="%char) as [->|]; simpl.
  - by intros [= <- <-].
  - destruct (split_eq w) as [n' v'] eqn:E. intros [= <- <-]. by apply IH with n'.
Qed.

Lemma argstrcpy_app w rest : nonsep w -> sep_ahead rest -> argstrcpy (w ++ rest) = w.
Proof.
  induction 1 as [|c w Hc _ IH]; intros Hr; simpl.
  - destruct rest; [done|]. simpl. by rewrite Hr.
  - rewrite Hc. f_equal. auto.
Qed.

Lemma argstrcpy2_app w rest n : nonsep w -> sep_ahead rest -> argstrcpy2 (w ++ rest) n = take n w.
Proof.
  intros Hw. revert n. induction Hw as [|c w Hc _ IH]; intros n Hr; simpl.
  - rewrite take_nil. destruct rest, n; simpl; try done. by rewrite Hr.
  - destruct n; simpl; [done|]. rewrite Hc. f_equal. auto.
Qed.

(** The value of a word does not depend on what follows the word. *)
Lemma getval_digits_app s rest radix : nonsep s -> sep_ahead rest -> ∀ intval sign,
  getval_digits (s ++ rest) radix intval sign = getval_digits s radix intval sign.
Proof.
  intros Hs Hr. induction Hs as [|c s Hc Hs IH]; intros intval sign; simpl.
  { destruct rest as [|c rest]; [done|]. simpl. by rewrite Hr. }
  rewrite Hc, !IH. assert (isargsep (cur (s ++ rest)) = isargsep (cur s)) as ->; [|done].
  by destruct s.
Qed.

Lemma getval_number_app s rest sign : nonsep s -> sep_ahead rest ->
  getval_number (s ++ rest) sign = getval_number s sign.
Proof.
  intros Hs Hr. pose proof (sep_ahead_cases _ Hr) as Hcur. unfold getval_number.
  destruct s as [|d s]; simpl.
  { by destruct Hcur as [-> |[-> | ->]]. }
  apply Forall_cons in Hs as [_ Hs]. rewrite (getval_digits_app s) by done.
  destruct s as [|d2 s]; simpl.
  - rewrite Hr. destruct (u32 _ =? 0); [|done]. by destruct Hcur as [-> |[-> | ->]].
  - apply Forall_cons in Hs as [_ Hs]. by rewrite !(getval_digits_app s).
Qed.

Lemma getval_app value rest : nonsep value -> sep_ahead rest ->
  getval (ch "="%char :: value ++ rest) = getval (ch "="%char :: value).
Proof.
  intros Hv Hr. unfold getval. cbn [cur head from_option id tail]. rewrite Z.eqb_refl.
  pose proof (sep_ahead_cases _ Hr) as Hcur.
  rewrite getval_number_app by done. destruct value as [|d value]; simpl.
  - by destruct Hcur as [-> |[-> | ->]].
  - change (cur (d :: value ++ rest)) with (cur (d :: value)).
    case_match; [|done]. apply Forall_cons in Hv as [_ ?].
    by rewrite getval_number_app.
Qed.

Lemma strncmp_name n r arg_string :
  negb (strncmp_eq (n ++ r) arg_string (length n)) || negb (length n =? length arg_string)%nat
  = negb (bool_decide (n = arg_string)).
Proof.
  rewrite <- negb_andb. f_equal. unfold strncmp_eq. rewrite <- app_assoc, take_app_length.
  destruct (Nat.eqb_spec (length n) (length arg_string)) as [E|E].
  - rewrite andb_true_r, E, take_app_length. done.
  - rewrite andb_false_r. symmetry. apply bool_decide_eq_false. by intros ->.
Qed.

(** * The search is a run over the words *)

Lemma cur_app w rest : w <> [] -> cur (w ++ rest) = cur w.
Proof. by destruct w. Qed.

Lemma nonsep_value w n v : nonsep w -> split_eq w = (n, Some v) -> nonsep v.
Proof.
  intros Hw E. rewrite (split_eq_spec _ _ _ E) in Hw. simpl in Hw.
  apply Forall_app in Hw as [_ Hw]. by apply Forall_cons in Hw as [_ ?].
Qed.

Lemma split_eq_no_eq w n : split_eq w = (n, None) -> n = w.
Proof. intros E. rewrite (split_eq_spec _ _ _ E). simpl. by rewrite app_nil_r. Qed.

Lemma run_words_cons a acts found mem :
  run_words (a :: acts) found mem =
  match a with
  | Skip => run_words acts found mem
  | Store f => mem ← f mem; run_words acts true mem
  | Final f => mem ← f mem; Some (true, mem)
  end.
Proof. by destruct a. Qed.

Lemma parse_loop_words arg_string max_len : ∀ fuel s found mem,
  (length s < fuel)%nat ->
  parse_loop fuel arg_string max_len (skip_seps s) found mem =
  run_words (word_action arg_string max_len <$> words s) found mem.
Proof.
  induction fuel as [|fuel IH]; intros s found mem Hf; [lia|].
  rewrite <- (words_skip_seps s). pose proof (skip_seps_length s) as Hle.
  pose proof (skip_seps_idemp s) as Hi. destruct (decide (skip_seps s = [])) as [E|E].
  { by rewrite E. }
  destruct (word_ahead _ Hi E) as (w & rest & Es & Hne & Hw & Hr).
  rewrite Es, words_word, fmap_cons, run_words_cons by done.
  assert (∀ found mem, parse_loop fuel arg_string max_len
            (skip_seps (skip_arg (w ++ rest))) found mem =
          run_words (word_action arg_string max_len <$> words rest) found mem) as Hgo.
  { intros found' mem'. rewrite skip_arg_app by done. apply IH.
    rewrite Es, length_app in Hle. destruct w; [done|simpl in Hle; lia]. }
  set (acts := word_action arg_string max_len <$> words rest) in *. clearbody acts.
  cbn [parse_loop]. destruct (w ++ rest) as [|c0 s0] eqn:Ews; [by destruct w|].
  rewrite <- Ews in Hgo |- *. rewrite Hgo, !(cur_app w) by done. unfold word_action.
  destruct (split_eq w) as [n v] eqn:Esp.
  rewrite (to_eq_app _ _ _ _ Hw Hr Esp).
  pose proof (split_eq_spec _ _ _ Esp) as Ew.
  replace (length (w ++ rest) - length (from_option (cons (ch "="%char)) [] v ++ rest))%nat
    with (length n) by (rewrite Ew at 1; rewrite !length_app; lia).
  rewrite Ew at 2. rewrite <- app_assoc, strncmp_name.
  destruct v as [v|]; simpl from_option.
  - rewrite <- app_comm_cons. change (cur (ch "="%char :: v ++ rest)) with (ch "="%char).
    rewrite (Z.eqb_refl (ch "="%char)). cbn [negb andb].
    destruct (bool_decide (n = arg_string)); simpl negb; cbv iota.
    2:{ by destruct (cur w =? _). }
    destruct (cur w =? _); [done|].
    assert (isargsep (ch "="%char) = false) as Hsep by done.
    cbn [skip_seps]. rewrite Hsep. cbn [tail].
    change (cur (ch "="%char :: v ++ rest)) with (ch "="%char).
    rewrite (Z.eqb_refl (ch "="%char)). cbn [negb andb].
    pose proof (nonsep_value _ _ _ Hw Esp) as Hv.
    rewrite getval_app by done. rewrite !argstrcpy2_app, argstrcpy_app by done.
    destruct (_ =? cur arg_string); [done|].
    destruct (getval _).
    + destruct (store_uint _ _); [apply Hgo|done].
    + destruct (0 <? max_len); [destruct (store_str _ _); [apply Hgo|done]|].
      destruct (max_len =? -1); [destruct (store_str _ _); [apply Hgo|done]|apply Hgo].
  - simpl app. destruct (sep_ahead_cases _ Hr) as [H|[H|H]]; rewrite H; simpl;
      (destruct (cur w =? _); simpl; [|done]);
      by destruct (bool_decide (n = arg_string)).
Qed.

(** C17 (equivalence): the pointer-walking search of [PE_parse_boot_argn] always
    ends, and is the run over the words of the command line in which a word that
    is not [name] or [name=value] does nothing, a numeric or string value is
    stored and the search goes on (so the last one wins), and a boolean ([-name])
    or underscore argument is stored and ends the search. *)
Theorem parse_boot_argn_words boot_args arg_string max_len mem :
  Forall (λ c, c <> 0) boot_args ->
  PE_parse_boot_argn boot_args arg_string max_len mem =
  run_words (word_action arg_string max_len <$> words boot_args) false mem.
Proof.
  intros Hz. unfold PE_parse_boot_argn. destruct (Z.eqb_spec (cur boot_args) 0) as [E|_].
  - destruct Hz as [|c s Hc _]; [done|]. by simpl in E.
  - apply parse_loop_words. lia.
Qed.

Lemma parse_boot_argn_words_witness :
  PE_parse_boot_argn (bytes_of "debug=1 -v debug=0x144") (bytes_of "debug") 4 [9; 9; 9; 9]
  = Some (true, [0x44; 1; 0; 0]).
Proof.
  refine (eq_trans (parse_boot_argn_words _ _ _ _ _) _); [|vm_compute; reflexivity].
  vm_compute. repeat constructor; discriminate.
Defined.

(** * Stores through the caller's pointer *)

Lemma store_uint_ok mem v : (4 <= length mem)%nat ->
  ∃ mem', store_uint mem v = Some mem' /\ length mem' = length mem.
Proof.
  intros H. unfold store_uint. rewrite wr_bytes_front by done. eexists. split; [done|].
  rewrite length_app, length_drop. simpl. lia.
Qed.

Lemma store_str_ok mem bs : (length bs < length mem)%nat ->
  ∃ mem', store_str mem bs = Some mem' /\ length mem' = length mem.
Proof.
  intros H. unfold store_str.
  rewrite wr_bytes_front by (rewrite length_app; simpl; lia). eexists. split; [done|].
  rewrite length_app, length_drop, length_app. simpl. lia.
Qed.

Definition action_ok (size : nat) (a : action) : Prop :=
  match a with
  | Skip => True
  | Store f | Final f => ∀ mem, length mem = size ->
      ∃ mem', f mem = Some mem' /\ length mem' = size
  end.

Lemma run_words_ok size acts : Forall (action_ok size) acts -> ∀ found mem,
  length mem = size -> ∃ found' mem',
  run_words acts found mem = Some (found', mem') /\ length mem' = size.
Proof.
  induction 1 as [|a acts Ha _ IH]; intros found mem Hm; simpl; [eauto|].
  destruct a as [|f|f]; simpl in Ha; [eauto|..];
    destruct (Ha mem Hm) as (mem' & -> & ?); simpl; eauto.
Qed.

Lemma word_action_ok arg_string max_len size w :
  4 <= max_len -> (cur arg_string = "_"%char -> 17 <= max_len) -> max_len <= Z.of_nat size ->
  action_ok size (word_action arg_string max_len w).
Proof.
  intros H4 H17 Hs. unfold word_action. destruct (split_eq w) as [n [v|]].
  - destruct (cur w =? _); [destruct (bool_decide _); [|done]; intros mem <-; apply store_uint_ok; lia|].
    destruct (negb _); [done|].
    destruct (Z.eqb_spec (ch "_"%char) (cur arg_string)) as [E|_].
    { intros mem <-. apply store_str_ok. rewrite length_take. specialize (H17 (eq_sym E)). lia. }
    destruct (getval _); [intros mem <-; apply store_uint_ok; lia|].
    rewrite (proj2 (Z.ltb_lt _ _)) by lia. intros mem <-. apply store_str_ok.
    rewrite length_take. lia.
  - destruct (cur w =? _); [|done]. destruct (bool_decide _); [|done].
    intros mem <-. apply store_uint_ok. lia.
Qed.

(** C23 (bounds): a caller that passes the size of its buffer, at least the four
    bytes of a number (17 for an argument that starts with an underscore), is
    never overrun, whatever the command line holds. *)
Theorem parse_boot_argn_in_bounds boot_args arg_string max_len mem :
  Forall (λ c, c <> 0) boot_args ->
  4 <= max_len -> (cur arg_string = "_"%char -> 17 <= max_len) -> max_len <= zlen mem ->
  ∃ found mem', PE_parse_boot_argn boot_args arg_string max_len mem = Some (found, mem') /\
                length mem' = length mem.
Proof.
  intros Hz H4 H17 Hm. unfold PE_parse_boot_argn. destruct (cur boot_args =? 0); [eauto|].
  rewrite parse_loop_words by lia. apply run_words_ok; [|done].
  apply Forall_fmap, Forall_true. intros w. by apply word_action_ok.
Qed.

Lemma parse_boot_argn_in_bounds_witness :
  ∃ found mem', PE_parse_boot_argn (bytes_of "_fpu=a_very_long_value_of_the_argument")
      (bytes_of "_fpu") 20 (replicate 20 0) = Some (found, mem').
Proof.
  destruct (parse_boot_argn_in_bounds (bytes_of "_fpu=a_very_long_value_of_the_argument")
              (bytes_of "_fpu") 20 (replicate 20 0)) as (f & m & E & _);
    [vm_compute; repeat constructor; discriminate|lia|lia|vm_compute; discriminate|].
  exists f, m. exact E.
Defined.

(** For an argument that starts with an underscore the size the caller
    passes is ignored below 17: an 8-byte buffer is overrun by a longer value. *)
Theorem underscore_argument_overruns mem : length mem = 8%nat ->
  PE_parse_boot_argn (bytes_of "_fpu=abcdefghij") (bytes_of "_fpu") 8 mem = None.
Proof. intros H. by do 9 (destruct mem as [|? mem]; try done). Qed.

Lemma underscore_argument_overruns_witness :
  PE_parse_boot_argn (bytes_of "_fpu=abcdefghij") (bytes_of "_fpu") 8 (replicate 8 0) = None.
Proof. exact (underscore_argument_overruns (replicate 8 0) eq_refl). Defined.

(** * Number literals *)
















End BootArgs.
