(* ===== verification/IpcSplay.v ===== *)
(** The splay tree of port names, osfmk/ipc/ipc_splay.c: the overflow store of
    an IPC space for names that do not fit its table.

    The tree is kept unassembled, as the source keeps it: a middle tree, the name
    of the last lookup, and a left and a right tree whose innermost child field is
    not initialised.  A tree with such a hole is modelled as the list of the nodes
    on the path to the hole, innermost first, each with its other child; the
    pointer [ist_ltreep] into the tree is then the front of the list, and a store
    through it fills the hole.  The pointer inversion of the traversal is a list of
    frames in the same way.  A failed assertion or a read of an inverted pointer is
    [None]. *)

From S2P Require Import Prelude.

Module IpcSplay.

Section splay.
(** What a tree entry carries besides its name and links: the [ipc_entry]. *)
Context {E : Type} `{EqDecision E}.

(** [ipc_tree_entry] (osfmk/ipc/ipc_entry.h, 141-147). *)
Inductive tree := ITE_NULL | Node (ite_name : Z) (ite_entry : E) (ite_lchild ite_rchild : tree).

Definition hole_l : Type := list (Z * E * tree).   (* names, entries, left children *)
Definition hole_r : Type := list (Z * E * tree).   (* names, entries, right children *)

(** [ipc_splay_tree] (osfmk/ipc/ipc_splay.h, 73-80): [ist_ltree] and [ist_rtree]
    hold the left and right trees together with the pointers into them. *)
Record splay := Splay {
  ist_name : Z; ist_root : tree; ist_ltree : hole_l; ist_rtree : hole_r }.

Definition MACH_PORT_SMALLEST : Z := 0.
Definition MACH_PORT_LARGEST : Z := 2 ^ 32 - 1.

Definition not_null (t : tree) : bool :=
  match t with ITE_NULL => false | Node _ _ _ _ => true end.

(** Store of a subtree through [ist_ltreep]: the left tree without its hole. *)
Definition fill_l (h : hole_l) (t : tree) : tree :=
  foldl (λ t '(n, e, l), Node n e l t) t h.
(** Store of a subtree through [ist_rtreep]. *)
Definition fill_r (h : hole_r) (t : tree) : tree :=
  foldl (λ t '(n, e, r), Node n e t r) t h.

(** [ipc_splay_prim_lookup] (osfmk/ipc/ipc_splay.c, 164-255): the top-down splay.
    The middle tree comes back with the filled holes of the two others; the
    rotations and links are those of the macros, in their order. *)
Fixpoint ipc_splay_prim_lookup (name : Z) (t : tree) (ltree : hole_l) (rtree : hole_r)
    : option (tree * hole_l * hole_r) :=
  match t with
  | ITE_NULL => None
  | Node n e l r =>
      if name =? n then Some (t, ltree, rtree)
      else if name <? n then
        match l with
        | ITE_NULL => Some (t, ltree, rtree)
        | Node ln le ll lr =>
            if (name <? ln) && not_null ll then
              (* rotate_right; link_right *)
              ipc_splay_prim_lookup name ll ltree ((ln, le, Node n e lr r) :: rtree)
            else if (ln <? name) && not_null lr then
              (* link_right; link_left *)
              ipc_splay_prim_lookup name lr ((ln, le, ll) :: ltree) ((n, e, r) :: rtree)
            else (* link_right *)
              ipc_splay_prim_lookup name l ltree ((n, e, r) :: rtree)
        end
      else
        match r with
        | ITE_NULL => Some (t, ltree, rtree)
        | Node rn re rl rr =>
            if (rn <? name) && not_null rr then
              (* rotate_left; link_left *)
              ipc_splay_prim_lookup name rr ((rn, re, Node n e l rl) :: ltree) rtree
            else if (name <? rn) && not_null rl then
              (* link_left; link_right *)
              ipc_splay_prim_lookup name rl ((n, e, l) :: ltree) ((rn, re, rr) :: rtree)
            else (* link_left *)
              ipc_splay_prim_lookup name r ((n, e, l) :: ltree) rtree
        end
  end.

(** [ipc_splay_prim_assemble] (osfmk/ipc/ipc_splay.c, 267-282). *)
Definition ipc_splay_prim_assemble (t : tree) (ltree : hole_l) (rtree : hole_r) : option tree :=
  match t with
  | ITE_NULL => None
  | Node n e l r => Some (Node n e (fill_l ltree l) (fill_r rtree r))
  end.

(** [ipc_splay_tree_init] (osfmk/ipc/ipc_splay.c, 290-295); the other fields are
    what the memory held. *)
Definition ipc_splay_tree_init (s : splay) : splay :=
  Splay (ist_name s) ITE_NULL (ist_ltree s) (ist_rtree s).

(** [ipc_splay_tree_pick] (osfmk/ipc/ipc_splay.c, 304-323). *)
Definition ipc_splay_tree_pick (s : splay) : option (Z * E) :=
  match ist_root s with
  | ITE_NULL => None
  | Node n e _ _ => Some (n, e)
  end.

(** The root of a tree whose left and right trees are empty, as the operations
    store it: an empty tree keeps what its other fields held. *)
Definition rooted (t : tree) (s : splay) : splay :=
  match t with
  | ITE_NULL => Splay (ist_name s) ITE_NULL (ist_ltree s) (ist_rtree s)
  | Node n _ _ _ => Splay n t [] []
  end.

(** The steps all operations share: assemble the tree and look [name] up, unless
    the last lookup was for it. *)
Definition splay_to (s : splay) (name : Z) : option (tree * hole_l * hole_r) :=
  if negb (ist_name s =? name) then
    root ← ipc_splay_prim_assemble (ist_root s) (ist_ltree s) (ist_rtree s);
    ipc_splay_prim_lookup name root [] []
  else Some (ist_root s, ist_ltree s, ist_rtree s).

(** [ipc_splay_tree_lookup] (osfmk/ipc/ipc_splay.c, 332-361). *)
Definition ipc_splay_tree_lookup (s : splay) (name : Z) : option (option E * splay) :=
  match ist_root s with
  | ITE_NULL => Some (None, s)
  | _ =>
      '(root, lt, rt) ← splay_to s name;
      let s := Splay name root lt rt in
      match root with
      | ITE_NULL => None
      | Node n e _ _ => Some (if name =? n then Some e else None, s)
      end
  end.

(** [ipc_splay_tree_insert] (osfmk/ipc/ipc_splay.c, 371-422). *)
Definition ipc_splay_tree_insert (s : splay) (name : Z) (entry : E) : option splay :=
  '(lchild, rchild) ←
    match ist_root s with
    | ITE_NULL => Some (ITE_NULL, ITE_NULL)
    | _ =>
        '(root, lt, rt) ← splay_to s name;
        match root with
        | ITE_NULL => None
        | Node n _ l r =>
            if n =? name then None
            else if name <? n then
              match l with
              | ITE_NULL => Some (fill_l lt ITE_NULL, fill_r rt root)
              | _ => None
              end
            else
              match r with
              | ITE_NULL => Some (fill_l lt root, fill_r rt ITE_NULL)
              | _ => None
              end
        end
    end;
  Some (Splay name (Node name entry lchild rchild) [] []).

(** [ipc_splay_tree_delete] (osfmk/ipc/ipc_splay.c, 435-494); the entry that is
    freed comes back with the tree. *)
Definition ipc_splay_tree_delete (s : splay) (name : Z) (entry : E) : option (E * splay) :=
  '(root, lt, rt) ← splay_to s name;
  match root with
  | ITE_NULL => None
  | Node n e l r =>
      if negb (n =? name) then None
      else if negb (bool_decide (e = entry)) then None
      else
        let root := fill_l lt l in
        let saved := fill_r rt r in
        root ←
          match root, saved with
          | ITE_NULL, _ => Some saved
          | _, ITE_NULL => Some root
          | _, _ =>
              '(root, lt, rt) ← ipc_splay_prim_lookup MACH_PORT_LARGEST root [] [];
              root ← ipc_splay_prim_assemble root lt rt;
              match root with
              | Node n e l ITE_NULL => Some (Node n e l saved)
              | _ => None
              end
          end;
        Some (e, rooted root (Splay (ist_name s) root lt rt))
  end.

(** [ipc_splay_tree_split] (osfmk/ipc/ipc_splay.c, 506-576): the tree and the
    small one. *)
Definition ipc_splay_tree_split (s : splay) (name : Z) (small : splay) : option (splay * splay) :=
  let small := ipc_splay_tree_init small in
  match ist_root s with
  | ITE_NULL => Some (s, small)
  | _ =>
      '(root, lt, rt) ← splay_to s name;
      match root with
      | ITE_NULL => None
      | Node n e l r =>
          if n <? name then
            match r with
            | ITE_NULL =>
                let small := Splay n (Node n e (fill_l lt l) r) [] [] in
                let root := fill_r rt ITE_NULL in
                Some (rooted root (Splay (ist_name s) root lt rt), small)
            | _ => None
            end
          else
            Some (Splay name (Node n e ITE_NULL r) [] rt, rooted (fill_l lt l) small)
      end
  end.

(** [ipc_splay_tree_join] (osfmk/ipc/ipc_splay.c, 586-646): the tree and the
    emptied small one. *)
Definition ipc_splay_tree_join (s small : splay) : option (splay * splay) :=
  match ist_root small with
  | ITE_NULL => Some (s, small)
  | _ =>
      sroot ← ipc_splay_prim_assemble (ist_root small) (ist_ltree small) (ist_rtree small);
      let small := ipc_splay_tree_init small in
      root ←
        match ist_root s with
        | ITE_NULL => Some sroot
        | _ =>
            '(root, lt, rt) ← splay_to s MACH_PORT_SMALLEST;
            root ← ipc_splay_prim_assemble root lt rt;
            match root, sroot with
            | Node n e ITE_NULL r, Node sn _ _ _ =>
                if sn <? n then Some (Node n e sroot r) else None
            | _, _ => None
            end
        end;
      match root with
      | ITE_NULL => None
      | Node n _ _ _ => Some (Splay n root [] [], small)
      end
  end.

(** [ipc_splay_tree_bounds] (osfmk/ipc/ipc_splay.c, 672-739): the lower and upper
    bound and the tree. *)
Definition ipc_splay_tree_bounds (s : splay) (name : Z) : option (Z * Z * splay) :=
  match ist_root s with
  | ITE_NULL => Some (MACH_PORT_LARGEST, MACH_PORT_SMALLEST, s)
  | _ =>
      '(root, lt, rt) ← splay_to s name;
      let s := Splay name root lt rt in
      match root with
      | ITE_NULL => None
      | Node rname _ _ _ =>
          let lower := if rname <=? name then rname
                       else match lt with
                            | [] => MACH_PORT_LARGEST
                            | (n, _, _) :: _ => n
                            end in
          let upper := if name <=? rname then rname
                       else match rt with
                            | [] => MACH_PORT_SMALLEST
                            | (n, _, _) :: _ => n
                            end in
          Some (lower, upper, s)
      end
  end.

(** ** The traversal *)

(** A node on the way up with the child field that holds the inverted pointer:
    the left one, next to the right child, or the right one next to the left. *)
Inductive frame :=
  | InLeft (ite_name : Z) (ite_entry : E) (ite_rchild : tree)
  | InRight (ite_name : Z) (ite_entry : E) (ite_lchild : tree).

(** Between two steps [ist_ltree] holds the current entry and [ist_rtree] its
    parent, from which the inverted pointers lead up; at the end only [ist_root]
    is left. *)
Inductive traversal :=
  | At (current : tree) (parent : list frame)
  | Done (root : tree).

Definition frame_name (f : frame) : Z :=
  match f with InLeft n _ _ | InRight n _ _ => n end.

(** [ipc_splay_traverse_next], [traverse_left] and [traverse_entry]
    (osfmk/ipc/ipc_splay.c, 883-897). *)
Fixpoint traverse_left (current : tree) (parent : list frame) : option traversal :=
  match current with
  | ITE_NULL => None
  | Node n e (Node _ _ _ _ as l) r => traverse_left l (InLeft n e r :: parent)
  | Node n e ITE_NULL r => Some (At current parent)
  end.

(** [ipc_splay_traverse_next], [traverse_back]
    (osfmk/ipc/ipc_splay.c, 910-932): the direction is read off the names. *)
Fixpoint traverse_back (current : tree) (parent : list frame) : option traversal :=
  match parent with
  | [] => Some (Done current)
  | f :: parent =>
      match current with
      | ITE_NULL => None
      | Node n _ _ _ =>
          if n <? frame_name f then
            match f with
            | InLeft pn pe pr => Some (At (Node pn pe current pr) parent)
            | InRight _ _ _ => None
            end
          else
            match f with
            | InRight pn pe pl => traverse_back (Node pn pe pl current) parent
            | InLeft _ _ _ => None
            end
      end
  end.

(** [ipc_splay_traverse_next], [traverse_right]
    (osfmk/ipc/ipc_splay.c, 899-908). *)
Definition traverse_right (current : tree) (parent : list frame) : option traversal :=
  match current with
  | ITE_NULL => None
  | Node n e l (Node _ _ _ _ as r) => traverse_left r (InRight n e l :: parent)
  | Node n e l ITE_NULL => traverse_back current parent
  end.

(** [ipc_splay_traverse_start] (osfmk/ipc/ipc_splay.c, 761-791). *)
Definition ipc_splay_traverse_start (s : splay) : option traversal :=
  match ist_root s with
  | ITE_NULL => Some (Done ITE_NULL)
  | _ =>
      current ← ipc_splay_prim_assemble (ist_root s) (ist_ltree s) (ist_rtree s);
      traverse_left current []
  end.

(** [ipc_splay_traverse_next], the deletion of the current entry
    (osfmk/ipc/ipc_splay.c, 809-872). *)
Definition traverse_delete (current : tree) (parent : list frame) : option traversal :=
  match current with
  | ITE_NULL => None
  | Node n _ ITE_NULL ITE_NULL =>
      match parent with
      | [] => Some (Done ITE_NULL)
      | f :: parent =>
          if n <? frame_name f then
            match f with
            | InLeft pn pe pr => Some (At (Node pn pe ITE_NULL pr) parent)
            | InRight _ _ _ => None
            end
          else
            match f with
            | InRight pn pe pl => traverse_back (Node pn pe pl ITE_NULL) parent
            | InLeft _ _ _ => None
            end
      end
  | Node _ _ ITE_NULL r => traverse_left r parent
  | Node _ _ l ITE_NULL => traverse_back l parent
  | Node _ _ l r =>
      '(current, lt, rt) ← ipc_splay_prim_lookup MACH_PORT_LARGEST l [] [];
      current ← ipc_splay_prim_assemble current lt rt;
      match current with
      | Node n e l ITE_NULL => traverse_right (Node n e l r) parent
      | _ => None
      end
  end.

(** [ipc_splay_traverse_next] (osfmk/ipc/ipc_splay.c, 793-933). *)
Definition ipc_splay_traverse_next (t : traversal) (delete : bool) : option traversal :=
  match t with
  | Done _ => None
  | At current parent =>
      if delete then traverse_delete current parent else traverse_right current parent
  end.

(** [ipc_splay_traverse_finish] (osfmk/ipc/ipc_splay.c, 935-949). *)
Definition ipc_splay_traverse_finish (s : splay) (root : tree) : splay := rooted root s.

(** * Contents *)

(** The entries of a tree in symmetric order. *)
Fixpoint elems (t : tree) : list (Z * E) :=
  match t with
  | ITE_NULL => []
  | Node n e l r => elems l ++ (n, e) :: elems r
  end.

Definition elems_l (h : hole_l) : list (Z * E) :=
  foldr (λ '(n, e, l) acc, acc ++ elems l ++ [(n, e)]) [] h.
Definition elems_r (h : hole_r) : list (Z * E) :=
  foldr (λ '(n, e, r) acc, (n, e) :: elems r ++ acc) [] h.

Definition contents3 (x : tree * hole_l * hole_r) : list (Z * E) :=
  let '(t, lt, rt) := x in elems_l lt ++ elems t ++ elems_r rt.

Definition contents (s : splay) : list (Z * E) :=
  match ist_root s with
  | ITE_NULL => []
  | _ => contents3 (ist_root s, ist_ltree s, ist_rtree s)
  end.

(** The map from names to entries a splay tree stands for. *)
Definition dir (s : splay) : gmap Z E := list_to_map (contents s).

Definition sorted (l : list (Z * E)) : Prop := StronglySorted Z.lt l.*1.
Definition below (name : Z) (l : list (Z * E)) : Prop := Forall (λ x, x.1 < name) l.
Definition above (name : Z) (l : list (Z * E)) : Prop := Forall (λ x, name < x.1) l.

(** The state a lookup of [name] leaves: the left tree is below it, the right
    one above, and the middle root is the name or the last node on its way. *)
Definition focused (name : Z) (x : tree * hole_l * hole_r) : Prop :=
  let '(t, lt, rt) := x in
  below name (elems_l lt) /\ above name (elems_r rt) /\
  match t with
  | ITE_NULL => False
  | Node n _ l r => n = name \/ (name < n /\ l = ITE_NULL) \/ (n < name /\ r = ITE_NULL)
  end.

Definition name_ok (name : Z) : Prop := in_range 32 name.

(** The invariant of a splay tree between operations. *)
Definition wf (s : splay) : Prop :=
  sorted (contents s) /\ Forall (λ x, name_ok x.1) (contents s) /\
  (ist_root s <> ITE_NULL -> focused (ist_name s) (ist_root s, ist_ltree s, ist_rtree s)).

Lemma elems_fill_l h t : elems (fill_l h t) = elems_l h ++ elems t.
Proof.
  revert t. induction h as [|[[n e] l] h IH]; intros t; simpl; [done|].
  change (elems (fill_l h (Node n e l t)) = (elems_l h ++ elems l ++ [(n, e)]) ++ elems t).
  rewrite IH. simpl. by rewrite <- !app_assoc.
Qed.

Lemma elems_fill_r h t : elems (fill_r h t) = elems t ++ elems_r h.
Proof.
  revert t. induction h as [|[[n e] r] h IH]; intros t; simpl; [by rewrite app_nil_r|].
  change (elems (fill_r h (Node n e t r)) = elems t ++ (n, e) :: elems r ++ elems_r h).
  rewrite IH. simpl. by rewrite <- app_assoc.
Qed.

(** ** Sorted lists of entries *)

Lemma sorted_app l1 l2 : sorted (l1 ++ l2) <->
  sorted l1 /\ sorted l2 /\ ∀ x y, x ∈ l1 -> y ∈ l2 -> x.1 < y.1.
Proof.
  unfold sorted. rewrite fmap_app. induction l1 as [|a l1 IH]; simpl.
  - split; [|tauto]. intros H. split_and!; [constructor|done|]. by intros ?? ?%elem_of_nil.
  - split.
    + intros H. inversion H as [|?? Hs Hf]; subst. apply IH in Hs as (H1 & H2 & H3).
      rewrite Forall_app in Hf. destruct Hf as [Hf1 Hf2]. split_and!; [by constructor|done|].
      intros x y [->|?]%elem_of_cons Hy; [|by apply H3].
      rewrite Forall_forall in Hf2. apply Hf2. by apply list_elem_of_fmap_2.
    + intros (H1 & H2 & H3). inversion H1 as [|?? Hs Hf]; subst. constructor.
      * apply IH. split_and!; [done..|]. intros. apply H3; [by right|done].
      * apply Forall_app. split; [done|]. apply Forall_forall.
        intros z (y & -> & Hy)%list_elem_of_fmap_1. apply H3; [by left|done].
Qed.

Lemma sorted_cons n e l : sorted ((n, e) :: l) <-> sorted l /\ above n l.
Proof.
  unfold sorted, above. simpl. split.
  - intros H. inversion H as [|?? Hs Hf]; subst. split; [done|]. by rewrite Forall_fmap in Hf.
  - intros [Hs Hf]. constructor; [done|]. by rewrite Forall_fmap.
Qed.

Lemma sorted_mid l1 n e l2 : sorted (l1 ++ (n, e) :: l2) <->
  sorted (l1 ++ l2) /\ below n l1 /\ above n l2.
Proof.
  rewrite !sorted_app, sorted_cons. unfold below, above. rewrite !Forall_forall. split.
  - intros (H1 & (H2 & H3) & H4). split_and!; [done..| | |done].
    + intros x y Hx Hy. apply H4; [done|by right].
    + intros x Hx. apply (H4 x (n, e)); [done|by left].
  - intros ((H1 & H2 & H3) & H4 & H5). split_and!; [done..|].
    intros x y Hx [->|Hy]%elem_of_cons; [by apply H4|by apply H3].
Qed.

Lemma sorted_NoDup l : sorted l -> NoDup l.*1.
Proof.
  unfold sorted. generalize (l.*1) as ns. induction 1 as [|n ns Hs IH Hf]; constructor; [|done].
  intros Hin. rewrite Forall_forall in Hf. specialize (Hf n Hin). lia.
Qed.

Lemma below_app n l1 l2 : below n (l1 ++ l2) <-> below n l1 /\ below n l2.
Proof. apply Forall_app. Qed.
Lemma above_app n l1 l2 : above n (l1 ++ l2) <-> above n l1 /\ above n l2.
Proof. apply Forall_app. Qed.

Lemma below_weaken n m l : below n l -> n <= m -> below m l.
Proof. intros H ?. eapply Forall_impl; [exact H|]. simpl. lia. Qed.
Lemma above_weaken n m l : above n l -> m <= n -> above m l.
Proof. intros H ?. eapply Forall_impl; [exact H|]. simpl. lia. Qed.

Lemma dir_lookup_mid l1 n e l2 : sorted (l1 ++ (n, e) :: l2) ->
  (list_to_map (l1 ++ (n, e) :: l2) : gmap Z E) !! n = Some e.
Proof.
  intros Hs. apply elem_of_list_to_map_1; [by apply sorted_NoDup|].
  apply elem_of_app. right. by left.
Qed.

Lemma dir_lookup_gap l1 l2 n : below n l1 -> above n l2 ->
  (list_to_map (l1 ++ l2) : gmap Z E) !! n = None.
Proof.
  unfold below, above. rewrite !Forall_forall. intros H1 H2.
  apply not_elem_of_list_to_map_1. rewrite fmap_app, elem_of_app.
  intros [(x & -> & Hx)%list_elem_of_fmap_1|(x & -> & Hx)%list_elem_of_fmap_1].
  - specialize (H1 x Hx). lia.
  - specialize (H2 x Hx). lia.
Qed.

Lemma dir_insert_mid l1 n e l2 : sorted (l1 ++ (n, e) :: l2) ->
  (list_to_map (l1 ++ (n, e) :: l2) : gmap Z E) = <[n := e]> (list_to_map (l1 ++ l2)).
Proof.
  intros Hs. change (<[n:=e]> (list_to_map (l1 ++ l2) : gmap Z E))
    with (list_to_map ((n, e) :: l1 ++ l2) : gmap Z E).
  apply list_to_map_proper; [by apply sorted_NoDup|]. symmetry. apply Permutation_middle.
Qed.

Lemma dir_delete_mid l1 n e l2 : sorted (l1 ++ (n, e) :: l2) ->
  (list_to_map (l1 ++ l2) : gmap Z E) = delete n (list_to_map (l1 ++ (n, e) :: l2)).
Proof.
  intros Hs. rewrite dir_insert_mid by done. apply sorted_mid in Hs as (_ & ? & ?).
  symmetry. rewrite delete_insert_id; [done|]. by apply dir_lookup_gap.
Qed.

(** * The top-down splay *)

Fixpoint size (t : tree) : nat :=
  match t with ITE_NULL => 0 | Node _ _ l r => S (size l + size r) end%nat.

Lemma sorted_node n e l r : sorted (elems (Node n e l r)) <->
  sorted (elems l) /\ sorted (elems r) /\ below n (elems l) /\ above n (elems r) /\
  sorted (elems l ++ elems r).
Proof. simpl. rewrite sorted_mid, sorted_app. tauto. Qed.

Lemma below_snoc n l m e : below n (l ++ [(m, e)]) <-> below n l /\ m < n.
Proof. unfold below. rewrite Forall_app, Forall_singleton. done. Qed.
Lemma below_cons n l m e : below n ((m, e) :: l) <-> m < n /\ below n l.
Proof. unfold below. by rewrite Forall_cons. Qed.
Lemma below_nil n : below n [] <-> True.
Proof. split; [done|]. constructor. Qed.
Lemma above_cons n l m e : above n ((m, e) :: l) <-> n < m /\ above n l.
Proof. unfold above. by rewrite Forall_cons. Qed.

Lemma not_null_true t : not_null t = true -> t <> ITE_NULL.
Proof. by destruct t. Qed.

(** One round of the descent: the order is kept, sorted trees stay so, and what
    goes into the left or right tree is on the right side of the name. *)
Ltac links H :=
  rewrite ?andb_true_iff, ?andb_false_iff, ?Z.ltb_lt, ?Z.ltb_ge in *;
  destruct_and?; apply H;
  [simpl in *; lia | first [done | by apply not_null_true] | simpl; rewrite <- ?app_assoc; simpl; by rewrite <- ?app_assoc |];
  intros Hs Hb Ha; rewrite !sorted_node in Hs; simpl in *; destruct_and?;
  rewrite ?below_app, ?above_app, ?above_cons, ?below_cons, ?below_nil, ?sorted_mid,
    ?sorted_node in *; simpl in *;
  rewrite ?below_app, ?above_app, ?above_cons, ?below_cons, ?below_nil, ?sorted_mid in *;
  destruct_and?; split_and!;
  first [ assumption | lia | exact I
        | match goal with H : below ?m ?l |- below _ ?l => apply (below_weaken m); [exact H|lia] end
        | match goal with H : above ?m ?l |- above _ ?l => apply (above_weaken m); [exact H|lia] end
        | idtac ].

(** The top-down splay terminates, changes the order of nothing and focuses the name. *)
Lemma prim_lookup_spec name : ∀ k t lt rt,
  (size t <= k)%nat -> t <> ITE_NULL ->
  ∃ x, ipc_splay_prim_lookup name t lt rt = Some x /\
       contents3 x = contents3 (t, lt, rt) /\
       (sorted (elems t) -> below name (elems_l lt) -> above name (elems_r rt) -> focused name x).
Proof.
  induction k as [|k IH]; intros t lt rt Hk Hne; destruct t as [|n e l r]; try done; simpl in Hk.
  { lia. }
  cbn [ipc_splay_prim_lookup].
  assert (∀ t' lt' rt', (size t' <= k)%nat -> t' <> ITE_NULL ->
    contents3 (t', lt', rt') = contents3 (Node n e l r, lt, rt) ->
    (sorted (elems (Node n e l r)) -> below name (elems_l lt) -> above name (elems_r rt) ->
     sorted (elems t') /\ below name (elems_l lt') /\ above name (elems_r rt')) ->
    ∃ x, ipc_splay_prim_lookup name t' lt' rt' = Some x /\
       contents3 x = contents3 (Node n e l r, lt, rt) /\
       (sorted (elems (Node n e l r)) -> below name (elems_l lt) -> above name (elems_r rt) ->
        focused name x)) as Hgo.
  { intros t' lt' rt' Hs Hn Hc Hf. destruct (IH t' lt' rt' Hs Hn) as (x & Hx & Hxc & Hxf).
    exists x. split_and!; [done|congruence|]. intros ???. apply Hxf; by apply Hf. }
  assert (∀ b, (n = name \/ (name < n /\ l = ITE_NULL) \/ (n < name /\ r = ITE_NULL)) = b ->
    b -> ∃ x, Some (Node n e l r, lt, rt) = Some x /\
       contents3 x = contents3 (Node n e l r, lt, rt) /\
       (sorted (elems (Node n e l r)) -> below name (elems_l lt) -> above name (elems_r rt) ->
        focused name x)) as Hstop.
  { intros b <- Hb. eexists. split_and!; [done|done|]. done. }
  destruct (Z.eqb_spec name n) as [->|Hne']; [apply (Hstop _ eq_refl); auto|].
  destruct (Z.ltb_spec name n) as [Hlt|Hlt].
  - destruct l as [|ln le ll lr]; [apply (Hstop _ eq_refl); auto|].
    repeat case_match; links Hgo.
  - destruct r as [|rn re rl rr]; [apply (Hstop _ eq_refl); auto with lia|].
    repeat case_match; links Hgo.
Qed.

(** ** Assembled and unassembled trees *)

Lemma assemble_spec n e l r lt rt : 
  ipc_splay_prim_assemble (Node n e l r) lt rt = Some (Node n e (fill_l lt l) (fill_r rt r)) /\
  elems (Node n e (fill_l lt l) (fill_r rt r)) = contents3 (Node n e l r, lt, rt).
Proof. split; [done|]. simpl. by rewrite elems_fill_l, elems_fill_r, <- !app_assoc. Qed.

Lemma contents_not_null s : ist_root s <> ITE_NULL ->
  contents s = contents3 (ist_root s, ist_ltree s, ist_rtree s).
Proof. unfold contents. by destruct (ist_root s). Qed.

Lemma contents_null s : ist_root s = ITE_NULL -> contents s = [].
Proof. unfold contents. by intros ->. Qed.

Lemma contents_node name n e l r lt rt :
  contents (Splay name (Node n e l r) lt rt) =
  elems_l lt ++ elems l ++ (n, e) :: elems r ++ elems_r rt.
Proof. unfold contents. simpl. by rewrite <- (app_assoc (elems l)). Qed.

Lemma contents_root n t : contents (Splay n t [] []) = elems t.
Proof. unfold contents. destruct t; simpl; [done|]. by rewrite app_nil_r. Qed.

(** A tree just assembled, with its root as the last name, is well formed. *)
Lemma wf_root n e l r :
  sorted (elems (Node n e l r)) -> Forall (λ x, name_ok x.1) (elems (Node n e l r)) ->
  wf (Splay n (Node n e l r) [] []).
Proof.
  intros Hs Hf. unfold wf. rewrite contents_root. split; [done|split; [done|]].
  intros _. split; [constructor|split; [constructor|by left]].
Qed.

Lemma wf_null n lt rt : wf (Splay n ITE_NULL lt rt).
Proof. split; [constructor|split; [constructor|done]]. Qed.

Lemma contents_rooted t s : contents (rooted t s) = elems t.
Proof. destruct t; [done|]. apply contents_root. Qed.

Lemma wf_rooted t s : sorted (elems t) -> Forall (λ x, name_ok x.1) (elems t) -> wf (rooted t s).
Proof. destruct t; intros; [apply wf_null|by apply wf_root]. Qed.

Lemma splay_to_spec s name : wf s -> ist_root s <> ITE_NULL ->
  ∃ n e l r lt rt, splay_to s name = Some (Node n e l r, lt, rt) /\
    contents s = elems_l lt ++ elems l ++ (n, e) :: elems r ++ elems_r rt /\
    focused name (Node n e l r, lt, rt).
Proof.
  intros (Hs & _ & Hf) Hne. unfold splay_to. specialize (Hf Hne).
  rewrite contents_not_null in Hs |- * by done.
  destruct s as [sn root lt rt]; simpl in *. destruct root as [|n e l r]; [done|].
  destruct (Z.eqb_spec sn name) as [<-|]; cbn [negb].
  - eexists _, _, _, _, _, _. split; [done|]. split; [|exact Hf].
    simpl. by rewrite <- app_assoc.
  - destruct (assemble_spec n e l r lt rt) as [_ Ha].
    destruct (prim_lookup_spec name (size (Node n e (fill_l lt l) (fill_r rt r)))
      (Node n e (fill_l lt l) (fill_r rt r)) [] []) as (x & Hx & Hc & Hfoc); [done..|].
    cbn [ipc_splay_prim_assemble mbind option_bind]. rewrite Hx.
    destruct x as [[t lt'] rt']. unfold contents3 in Hc at 2. simpl elems_l in Hc.
    simpl elems_r in Hc. rewrite app_nil_l, app_nil_r, Ha in Hc.
    specialize (Hfoc ltac:(by rewrite Ha) ltac:(constructor) ltac:(constructor)).
    destruct t as [|n' e' l' r']; [by destruct Hfoc as (_ & _ & [])|].
    eexists _, _, _, _, _, _. split; [done|]. split; [|exact Hfoc].
    unfold contents3 in Hc. rewrite <- Hc. simpl. by rewrite <- app_assoc.
Qed.

(** What a lookup finds: the entry between its neighbours, or the gap. *)
Inductive located (name : Z) (n : Z) (e : E) (l r : tree) (lt : hole_l) (rt : hole_r)
    : list (Z * E) -> Prop :=
  | Found : n = name ->
      located name n e l r lt rt ((elems_l lt ++ elems l) ++ (n, e) :: elems r ++ elems_r rt)
  | Gap_before : name < n -> l = ITE_NULL ->
      located name n e l r lt rt (elems_l lt ++ (n, e) :: elems r ++ elems_r rt)
  | Gap_after : n < name -> r = ITE_NULL ->
      located name n e l r lt rt ((elems_l lt ++ elems l ++ [(n, e)]) ++ elems_r rt).

Lemma locate name n e l r lt rt : focused name (Node n e l r, lt, rt) ->
  located name n e l r lt rt (elems_l lt ++ elems l ++ (n, e) :: elems r ++ elems_r rt).
Proof.
  intros (_ & _ & [->|[[? ->]|[? ->]]]).
  - rewrite app_assoc. by constructor.
  - by constructor.
  - replace (elems_l lt ++ elems l ++ (n, e) :: elems ITE_NULL ++ elems_r rt)
      with ((elems_l lt ++ elems l ++ [(n, e)]) ++ elems_r rt) by (by rewrite <- !app_assoc).
    by constructor.
Qed.

Lemma focused_sides name n e l r lt rt :
  sorted (elems_l lt ++ elems l ++ (n, e) :: elems r ++ elems_r rt) ->
  focused name (Node n e l r, lt, rt) ->
  below n (elems_l lt ++ elems l) /\ above n (elems r ++ elems_r rt) /\
  below name (elems_l lt) /\ above name (elems_r rt).
Proof.
  rewrite app_assoc, sorted_mid. intros (_ & ? & ?) (? & ? & _). done.
Qed.

(** * The operations *)

Lemma lookup_spec s name : wf s ->
  ∃ s', ipc_splay_tree_lookup s name = Some (dir s !! name, s') /\ wf s' /\
        contents s' = contents s.
Proof.
  intros Hwf. unfold ipc_splay_tree_lookup. destruct (ist_root s) as [|rn re rl rr] eqn:Hr.
  { exists s. unfold dir. by rewrite contents_null. }
  destruct (splay_to_spec s name Hwf) as (n & e & l & r & lt & rt & E1 & Hc & Hf); [by rewrite Hr|].
  rewrite E1. simpl. exists (Splay name (Node n e l r) lt rt).
  destruct Hwf as (Hs & Hok & _).
  assert (contents (Splay name (Node n e l r) lt rt) = contents s) as Hcs
    by (by rewrite Hc, contents_node).
  split_and!; [|unfold wf; rewrite Hcs; by split_and!|done].
  do 2 f_equal. rewrite Hc in Hs. destruct (focused_sides _ _ _ _ _ _ _ Hs Hf) as (H1 & H2 & H3 & H4).
  unfold dir. rewrite Hc. apply below_app in H1 as [H1 H1']. apply above_app in H2 as [H2 H2'].
  rewrite Hc in *. destruct (locate _ _ _ _ _ _ _ Hf) as [->|Hlt ->|Hlt ->].
  - by rewrite Z.eqb_refl, dir_lookup_mid.
  - rewrite (proj2 (Z.eqb_neq name n)) by lia. rewrite dir_lookup_gap; [done..|].
    rewrite above_cons, above_app. split_and!; [done| |done]. by apply (above_weaken n); [|lia].
  - rewrite (proj2 (Z.eqb_neq name n)) by lia. rewrite dir_lookup_gap; [done| |done].
    rewrite !below_app, below_cons, below_nil. split_and!; try done.
    by apply (below_weaken n); [|lia].
Qed.

Lemma insert_spec s name entry : wf s -> name_ok name -> dir s !! name = None ->
  ∃ s', ipc_splay_tree_insert s name entry = Some s' /\ wf s' /\
        dir s' = <[name := entry]> (dir s).
Proof.
  intros Hwf Hn Hnone. unfold ipc_splay_tree_insert.
  destruct (ist_root s) as [|rn re rl rr] eqn:Hr.
  { eexists. split_and!; [done| |].
    - apply wf_root; simpl; repeat constructor. apply Hn. apply Hn.
    - unfold dir. by rewrite (contents_null s). }
  destruct (splay_to_spec s name Hwf) as (n & e & l & r & lt & rt & E1 & Hc & Hf); [by rewrite Hr|].
  rewrite E1. simpl. destruct Hwf as (Hs & Hok & _).
  pose proof Hs as Hs'. rewrite Hc in Hs'.
  destruct (focused_sides _ _ _ _ _ _ _ Hs' Hf) as (H1 & H2 & H3 & H4).
  apply below_app in H1 as [H1 H1']. apply above_app in H2 as [H2 H2'].
  assert (∀ lo hi t1 t2, contents s = lo ++ hi -> below name lo -> above name hi ->
    elems t1 = lo -> elems t2 = hi -> ∃ s', Some (Splay name (Node name entry t1 t2) [] []) = Some s'
      /\ wf s' /\ dir s' = <[name:=entry]> (dir s)) as Hdone.
  { intros lo hi t1 t2 Hlh Hlo Hhi Et1 Et2. eexists. split; [done|].
    assert (sorted (lo ++ (name, entry) :: hi)) as Hsn.
    { apply sorted_mid. by rewrite <- Hlh. }
    split.
    - apply wf_root; simpl; rewrite Et1, Et2; [done|].
      rewrite Hlh, Forall_app in Hok. destruct Hok. by rewrite Forall_app, Forall_cons.
    - unfold dir. rewrite contents_root, Hlh. simpl. rewrite Et1, Et2. by apply dir_insert_mid. }
  unfold dir in Hnone. rewrite Hc in Hnone, Hdone.
  destruct (locate _ _ _ _ _ _ _ Hf) as [->|Hlt ->|Hlt ->].
  - by rewrite dir_lookup_mid in Hnone.
  - rewrite (proj2 (Z.eqb_neq n name)), (proj2 (Z.ltb_lt name n)) by lia. simpl.
    eapply Hdone; [done|done| | |].
    + rewrite above_cons, above_app. split_and!; [done| |done]. by apply (above_weaken n); [|lia].
    + rewrite elems_fill_l. by rewrite app_nil_r.
    + rewrite elems_fill_r. done.
  - rewrite (proj2 (Z.eqb_neq n name)), (proj2 (Z.ltb_ge name n)) by lia. simpl.
    eapply Hdone; [done| |done| |].
    + rewrite !below_app, below_cons, below_nil. split_and!; try done.
      by apply (below_weaken n); [|lia].
    + rewrite elems_fill_l. done.
    + rewrite elems_fill_r. done.
Qed.

Abbreviation names_ok l := (Forall (λ x : Z * E, name_ok x.1) l).

Lemma elems_nil t : elems t = [] -> t = ITE_NULL.
Proof. destruct t as [|n e l r]; [done|]. simpl. intros E'. by apply app_nil in E' as [_ ?]. Qed.

Lemma above_largest l : names_ok l -> above MACH_PORT_LARGEST l -> l = [].
Proof.
  destruct l as [|x l]; [done|]. intros [Hx _]%Forall_cons [Ha _]%Forall_cons.
  unfold name_ok, in_range, MACH_PORT_LARGEST in *. lia.
Qed.

Lemma below_smallest l : names_ok l -> below MACH_PORT_SMALLEST l -> l = [].
Proof.
  destruct l as [|x l]; [done|]. intros [Hx _]%Forall_cons [Ha _]%Forall_cons.
  unfold name_ok, in_range, MACH_PORT_SMALLEST in *. lia.
Qed.

(** Looking up the largest name and assembling puts the last entry at the root,
    with nothing on its right. *)
Lemma splay_largest t : sorted (elems t) -> names_ok (elems t) -> t <> ITE_NULL ->
  ∃ x n e l, ipc_splay_prim_lookup MACH_PORT_LARGEST t [] [] = Some x /\
    ipc_splay_prim_assemble x.1.1 x.1.2 x.2 = Some (Node n e l ITE_NULL) /\
    elems (Node n e l ITE_NULL) = elems t.
Proof.
  intros Hs Hok Hne.
  destruct (prim_lookup_spec MACH_PORT_LARGEST (size t) t [] []) as (x & Hx & Hc & Hf);
    [done..|].
  specialize (Hf Hs ltac:(constructor) ltac:(constructor)).
  unfold contents3 in Hc at 2. simpl in Hc. rewrite app_nil_r in Hc.
  destruct x as [[[|n e l r] lt] rt]; [by destruct Hf as (_ & _ & [])|].
  destruct (assemble_spec n e l r lt rt) as [Ha He]. rewrite Hc in He.
  assert (fill_r rt r = ITE_NULL) as Hr.
  { apply elems_nil. rewrite <- He in Hs, Hok. apply above_largest.
    - by apply Forall_app in Hok as [_ [_ Hok]%Forall_cons].
    - apply sorted_node in Hs as (_ & _ & _ & Ha' & _). rewrite elems_fill_r in Ha' |- *.
      apply above_app in Ha' as [Har _]. destruct Hf as (_ & Hrt & Hroot).
      apply above_app. split; [|done].
      destruct Hroot as [->|[[Hlt _]|[_ ->]]]; [done| |constructor].
      simpl in Hok. rewrite Forall_app, Forall_cons in Hok. destruct Hok as (_ & Hok & _).
      simpl in Hok. unfold name_ok, in_range, MACH_PORT_LARGEST in *. lia. }
  exists (Node n e l r, lt, rt), n, e, (fill_l lt l). rewrite Hr in *. done.
Qed.

Lemma delete_spec s name entry : wf s -> dir s !! name = Some entry ->
  ∃ s', ipc_splay_tree_delete s name entry = Some (entry, s') /\ wf s' /\
        dir s' = delete name (dir s).
Proof.
  intros Hwf Hsome. unfold ipc_splay_tree_delete.
  assert (ist_root s <> ITE_NULL) as Hr.
  { intros Hr. unfold dir in Hsome. by rewrite contents_null in Hsome. }
  destruct (splay_to_spec s name Hwf Hr) as (n & e & l & r & lt & rt & E1 & Hc & Hf).
  rewrite E1. cbn [mbind option_bind]. destruct Hwf as (Hs & Hok & _).
  pose proof Hs as Hs'. rewrite Hc in Hs'.
  destruct (focused_sides _ _ _ _ _ _ _ Hs' Hf) as (H1 & H2 & H3 & H4).
  unfold dir in Hsome. rewrite Hc in Hsome.
  assert (n = name) as ->.
  { apply below_app in H1 as [H1 H1']. apply above_app in H2 as [H2 H2'].
    destruct (locate _ _ _ _ _ _ _ Hf) as [->|Hlt ->|Hlt ->]; [done|exfalso..].
    - rewrite dir_lookup_gap in Hsome; [done|done|].
      rewrite above_cons, above_app. split_and!; [done| |done]. by apply (above_weaken n); [|lia].
    - rewrite dir_lookup_gap in Hsome; [done| |done].
      rewrite !below_app, below_cons, below_nil. split_and!; try done.
      by apply (below_weaken n); [|lia]. }
  rewrite app_assoc in Hsome, Hs'. rewrite dir_lookup_mid in Hsome by done.
  injection Hsome as ->. rewrite Z.eqb_refl, bool_decide_eq_true_2 by done. cbn [negb].
  assert (sorted ((elems_l lt ++ elems l) ++ elems r ++ elems_r rt)) as Hs2
    by (by apply sorted_mid in Hs' as (? & _)).
  rewrite Hc, app_assoc in Hok. apply Forall_app in Hok as [Hok1 [_ Hok2]%Forall_cons].
  assert (∀ t s0, elems t = (elems_l lt ++ elems l) ++ elems r ++ elems_r rt ->
    ∃ s', Some (entry, rooted t s0) = Some (entry, s') /\ wf s' /\ dir s' = delete name (dir s))
    as Hdone.
  { intros t s0 Et. eexists. split; [done|]. split.
    - apply wf_rooted; rewrite Et; [done|]. by apply Forall_app.
    - unfold dir. rewrite contents_rooted, Et, Hc, (app_assoc _ _ (_ :: _)).
      by apply dir_delete_mid. }
  rewrite <- elems_fill_l in Hdone, Hs2, Hok1. rewrite <- elems_fill_r in Hdone, Hs2, Hok2.
  destruct (fill_l lt l) as [|ln le ll lr] eqn:El.
  { cbn [mbind option_bind]. apply (Hdone (fill_r rt r) (Splay (ist_name s) ITE_NULL lt rt)).
    done. }
  destruct (fill_r rt r) as [|rn re rl rr] eqn:Er.
  { apply (Hdone (Node ln le ll lr) (Splay (ist_name s) (Node ln le ll lr) lt rt)). by rewrite app_nil_r. }
  assert (sorted (elems (Node ln le ll lr))) as Hsl by (by apply sorted_app in Hs2 as (? & _)).
  destruct (splay_largest _ Hsl Hok1 ltac:(done)) as ([[t lt'] rt'] & n & e & l0 & -> & Ha & He).
  cbn [mbind option_bind fst snd] in Ha |- *. rewrite Ha.
  apply (Hdone (Node n e l0 (Node rn re rl rr)) (Splay 0 ITE_NULL [] [])).
  rewrite <- He. simpl. by rewrite <- !app_assoc.
Qed.

(** * Splitting and joining *)

Lemma split_spec s name small : wf s ->
  ∃ s1 s2, ipc_splay_tree_split s name small = Some (s1, s2) /\ wf s1 /\ wf s2 /\
    contents s = contents s2 ++ contents s1 /\
    below name (contents s2) /\ Forall (λ x, name <= x.1) (contents s1).
Proof.
  intros Hwf. unfold ipc_splay_tree_split.
  destruct (ist_root s) as [|rn re rl rr] eqn:Hr.
  { eexists _, _. split; [done|]. split; [done|]. split; [apply wf_null|].
    rewrite (contents_null s) by done. split; [done|]. split; constructor. }
  destruct (splay_to_spec s name Hwf) as (n & e & l & r & lt & rt & E1 & Hc & Hf); [by rewrite Hr|].
  rewrite E1. cbn [mbind option_bind]. destruct Hwf as (Hs & Hok & _).
  pose proof Hs as Hs'. rewrite Hc in Hs'.
  destruct (focused_sides _ _ _ _ _ _ _ Hs' Hf) as (H1 & H2 & H3 & H4).
  rewrite Hc in Hok. apply below_app in H1 as [H1 H1']. apply above_app in H2 as [H2 H2'].
  destruct (Z.ltb_spec n name) as [Hlt|Hge].
  - (* the root goes into small *)
    assert (r = ITE_NULL) as -> by (destruct Hf as (_ & _ & [?|[[? _]|[_ ?]]]); [lia|lia|done]).
    assert (elems_l lt ++ elems l ++ (n, e) :: elems ITE_NULL ++ elems_r rt =
            elems (Node n e (fill_l lt l) ITE_NULL) ++ elems (fill_r rt ITE_NULL)) as Heq.
    { simpl. rewrite elems_fill_l, elems_fill_r. simpl. by rewrite <- !app_assoc. }
    rewrite Heq in Hs', Hok, Hc. apply sorted_app in Hs' as (Hs1 & Hs2 & _).
    apply Forall_app in Hok as [Hok1 Hok2].
    exists (rooted (fill_r rt ITE_NULL) (Splay (ist_name s) ITE_NULL lt rt)),
      (rooted (Node n e (fill_l lt l) ITE_NULL) s).
    split; [done|]. split; [by apply wf_rooted|]. split; [by apply wf_rooted|].
    rewrite !contents_rooted. split; [done|]. split.
    + simpl. rewrite elems_fill_l, !below_app, below_cons, below_nil. split_and!; try done.
      by apply (below_weaken n); [|lia].
    + rewrite elems_fill_r. simpl. eapply Forall_impl; [exact H4|]. simpl. lia.
  - (* the root stays *)
    assert (elems_l lt ++ elems l ++ (n, e) :: elems r ++ elems_r rt =
            elems (fill_l lt l) ++ contents (Splay name (Node n e ITE_NULL r) [] rt)) as Heq.
    { rewrite contents_node, elems_fill_l. by rewrite <- !app_assoc. }
    rewrite Heq in Hs', Hok, Hc. apply sorted_app in Hs' as (Hs1 & Hs2 & _).
    apply Forall_app in Hok as [Hok1 Hok2].
    exists (Splay name (Node n e ITE_NULL r) [] rt), (rooted (fill_l lt l) (ipc_splay_tree_init small)).
    split; [done|]. split.
    { split; [done|split; [done|]]. intros _. split; [constructor|split; [done|]].
      destruct (decide (n = name)); [by left|right; left]. simpl. split; [lia|done]. }
    split; [by apply wf_rooted|]. rewrite contents_rooted. split; [done|]. split.
    + rewrite elems_fill_l, below_app. split; [done|].
      destruct Hf as (_ & _ & [->|[[_ ->]|[? _]]]); [done|constructor|lia].
    + rewrite contents_node. simpl. constructor; [simpl; lia|]. apply Forall_app. split.
      * eapply Forall_impl; [exact H2|]. simpl. lia.
      * eapply Forall_impl; [exact H4|]. simpl. lia.
Qed.

Lemma join_spec s small : wf s -> wf small ->
  (∀ x y, x ∈ contents small -> y ∈ contents s -> x.1 < y.1) ->
  ∃ s1 s2, ipc_splay_tree_join s small = Some (s1, s2) /\ wf s1 /\ wf s2 /\
    contents s1 = contents small ++ contents s /\ contents s2 = [].
Proof.
  intros Hwf Hwf2 Hlt. unfold ipc_splay_tree_join.
  destruct (ist_root small) as [|srn sre srl srr] eqn:Hsr.
  { eexists _, _. split; [done|]. split; [done|]. split; [done|].
    by rewrite (contents_null small). }
  destruct Hwf2 as (Hs2 & Hok2 & _).
  destruct (assemble_spec srn sre srl srr (ist_ltree small) (ist_rtree small)) as [Ha He].
  rewrite Ha. cbn [mbind option_bind]. rewrite <- Hsr, <- contents_not_null in He by (by rewrite Hsr).
  set (sroot := Node srn sre (fill_l (ist_ltree small) srl) (fill_r (ist_rtree small) srr)) in *.
  rewrite <- He in Hs2, Hok2, Hlt |- *.
  assert (∃ x l, elems sroot = x ++ (srn, sre) :: l) as (sx & sl & Hsx) by (by eexists _, _).
  destruct (ist_root s) as [|rn re rl rr] eqn:Hr.
  { eexists _, _. split; [done|]. split; [by apply wf_root|]. split; [apply wf_null|].
    rewrite contents_root, (contents_null s) by done. by rewrite app_nil_r. }
  destruct (splay_to_spec s MACH_PORT_SMALLEST Hwf)
    as (n & e & l & r & lt & rt & E1 & Hc & Hf); [by rewrite Hr|].
  rewrite E1. cbn [mbind option_bind]. destruct Hwf as (Hs & Hok & _).
  pose proof Hs as Hs'. rewrite Hc in Hs', Hok.
  destruct (focused_sides _ _ _ _ _ _ _ Hs' Hf) as (H1 & H2 & H3 & H4).
  destruct (assemble_spec n e l r lt rt) as [Ha' He'].
  assert (fill_l lt l = ITE_NULL) as Hl.
  { apply elems_nil. rewrite elems_fill_l. rewrite app_assoc in Hok.
    apply Forall_app in Hok as [Hok Hok']. apply below_smallest; [done|].
    apply below_app. split; [done|]. destruct Hf as (_ & _ & [->|[[_ ->]|[Hn _]]]).
    - by apply below_app in H1 as [_ H1].
    - constructor.
    - apply Forall_cons in Hok' as [Hn' _]. simpl in Hn'.
      unfold name_ok, in_range, MACH_PORT_SMALLEST in *. lia. }
  rewrite Hl in *. rewrite Ha'. cbn [mbind option_bind]. subst sroot. cbv iota.
  set (sroot := Node srn sre (fill_l (ist_ltree small) srl) (fill_r (ist_rtree small) srr)) in *.
  assert (contents s = elems (Node n e ITE_NULL (fill_r rt r))) as Hcs
    by (rewrite He', Hc; simpl; by rewrite <- app_assoc).
  assert (srn < n) as Hsn.
  { apply (Hlt (srn, sre) (n, e)).
    - rewrite Hsx. apply elem_of_app. right. by left.
    - rewrite Hcs. by left. }
  rewrite (proj2 (Z.ltb_lt _ _) Hsn). cbn [mbind option_bind].
  eexists _, _. split; [done|].
  assert (elems (Node n e sroot (fill_r rt r)) = elems sroot ++ contents s) as Hel
    by (rewrite Hcs; done).
  split.
  { apply wf_root; rewrite Hel; [by apply sorted_app|]. apply Forall_app. split; [done|].
    by rewrite Hc. }
  split; [apply wf_null|]. by rewrite contents_root.
Qed.

(** * Bounds *)

(** The last name of a left tree is the innermost one; so for the right. *)
Lemma last_elems_l h :
  from_option fst MACH_PORT_LARGEST (last (elems_l h)) =
  match h with [] => MACH_PORT_LARGEST | (n, _, _) :: _ => n end.
Proof.
  destruct h as [|[[n e] l] h]; [done|].
  change (elems_l ((n, e, l) :: h)) with (elems_l h ++ elems l ++ [(n, e)]).
  by rewrite app_assoc, last_snoc.
Qed.

Lemma head_elems_r h :
  from_option fst MACH_PORT_SMALLEST (head (elems_r h)) =
  match h with [] => MACH_PORT_SMALLEST | (n, _, _) :: _ => n end.
Proof. by destruct h as [|[[n e] r] h]. Qed.

Lemma filter_gap name lo hi : below name lo -> above name hi ->
  filter (λ x : Z * E, x.1 <= name) (lo ++ hi) = lo /\
  filter (λ x : Z * E, name <= x.1) (lo ++ hi) = hi.
Proof.
  intros Hlo Hhi. rewrite !filter_app. split.
  - rewrite filter_all, filter_none, app_nil_r; [done|..];
      (eapply Forall_impl; [eassumption|]; simpl; lia).
  - rewrite filter_none, filter_all; [done|..];
      (eapply Forall_impl; [eassumption|]; simpl; lia).
Qed.

(** [ipc_splay_tree_bounds] returns the largest name that is at most the given one and the
    smallest that is at least it, and changes no entry. *)
Lemma bounds_run s name : wf s ->
  ∃ s', ipc_splay_tree_bounds s name =
      Some (from_option fst MACH_PORT_LARGEST (last (filter (λ x, x.1 <= name) (contents s))),
            from_option fst MACH_PORT_SMALLEST (head (filter (λ x, name <= x.1) (contents s))), s') /\
    wf s' /\ contents s' = contents s.
Proof.
  intros Hwf. unfold ipc_splay_tree_bounds. destruct (ist_root s) as [|rn re rl rr] eqn:Hr.
  { exists s. by rewrite contents_null. }
  destruct (splay_to_spec s name Hwf) as (n & e & l & r & lt & rt & E1 & Hc & Hf); [by rewrite Hr|].
  rewrite E1. cbn [mbind option_bind]. exists (Splay name (Node n e l r) lt rt).
  destruct Hwf as (Hs & Hok & _).
  assert (contents (Splay name (Node n e l r) lt rt) = contents s) as Hcs
    by (by rewrite Hc, contents_node).
  split; [|split; [|done]]; [|by split; [rewrite Hcs|split; [rewrite Hcs|]]].
  rewrite Hc in Hs. destruct (focused_sides _ _ _ _ _ _ _ Hs Hf) as (H1 & H2 & H3 & H4).
  rewrite Hc. apply below_app in H1 as [H1 H1']. apply above_app in H2 as [H2 H2'].
  rewrite <- last_elems_l, <- head_elems_r.
  match goal with |- Some (?a, ?b, _) = Some (?c, ?d, _) =>
    cut (a = c /\ b = d); [by intros [-> ->]|] end.
  destruct (locate _ _ _ _ _ _ _ Hf) as [->|Hlt ->|Hlt ->].
  - assert (below name (elems_l lt ++ elems l)) as Hlo by (by apply below_app).
    assert (above name (elems r ++ elems_r rt)) as Hhi by (by apply above_app).
    rewrite Z.leb_refl, !filter_app, !filter_cons_True by (simpl; lia). split.
    + rewrite (filter_none _ (elems r ++ _)), last_snoc; [done|].
      eapply Forall_impl; [exact Hhi|]. simpl. lia.
    + rewrite <- filter_app, filter_none; [done|].
      eapply Forall_impl; [exact Hlo|]. simpl. lia.
  - destruct (filter_gap name (elems_l lt) ((n, e) :: elems r ++ elems_r rt)) as [-> ->]; [done| |].
    { rewrite above_cons, above_app. split_and!; [done| |done]. by apply (above_weaken n); [|lia]. }
    rewrite (proj2 (Z.leb_gt n name)), (proj2 (Z.leb_le name n)) by lia. done.
  - destruct (filter_gap name (elems_l lt ++ elems l ++ [(n, e)]) (elems_r rt)) as [-> ->]; [|done|].
    { rewrite !below_app, below_cons, below_nil. split_and!; try done.
      by apply (below_weaken n); [|lia]. }
    rewrite (proj2 (Z.leb_le n name)), (proj2 (Z.leb_gt name n)) by lia.
    by rewrite app_assoc, last_snoc.
Qed.

(** * The traversal *)

(** What lies before and after the subtree below a list of frames. *)
Fixpoint before (fs : list frame) : list (Z * E) :=
  match fs with
  | [] => []
  | InLeft _ _ _ :: fs => before fs
  | InRight n e l :: fs => before fs ++ elems l ++ [(n, e)]
  end.
Fixpoint after (fs : list frame) : list (Z * E) :=
  match fs with
  | [] => []
  | InLeft n e r :: fs => (n, e) :: elems r ++ after fs
  | InRight _ _ _ :: fs => after fs
  end.

(** The entries a traversal has passed and those it has yet to return. *)
Definition visited (t : traversal) : list (Z * E) :=
  match t with
  | At (Node _ _ l _) fs => before fs ++ elems l
  | At ITE_NULL fs => before fs
  | Done root => elems root
  end.
Definition pending (t : traversal) : list (Z * E) :=
  match t with
  | At (Node n e _ r) fs => (n, e) :: elems r ++ after fs
  | _ => []
  end.

(** A traversal stands on an entry or is over. *)
Definition alive (t : traversal) : Prop :=
  match t with At ITE_NULL _ => False | _ => True end.

Definition goes_to (r : option traversal) (v p : list (Z * E)) : Prop :=
  ∃ t, r = Some t /\ visited t = v /\ pending t = p /\ alive t.

Lemma traverse_left_spec c : c <> ITE_NULL -> ∀ fs,
  goes_to (traverse_left c fs) (before fs) (elems c ++ after fs).
Proof.
  induction c as [|n e l IHl r IHr]; intros Hne fs; [done|].
  destruct l as [|ln le ll lr].
  - eexists. split; [done|]. split_and!; [simpl; by rewrite app_nil_r|done|done].
  - destruct (IHl ltac:(done) (InLeft n e r :: fs)) as (t & Ht & Hv & Hp).
    destruct Hp as [Hp Hal].
    exists t. split; [exact Ht|]. split; [done|]. split; [|done].
    rewrite Hp. simpl. by rewrite <- !app_assoc.
Qed.

(** A node of the subtree is smaller than a frame it is left of, and larger than
    one it is right of. *)
Lemma left_of_frame n l1 l2 e pn pe fs pr :
  sorted (before (InLeft pn pe pr :: fs) ++ (l1 ++ (n, e) :: l2) ++ after (InLeft pn pe pr :: fs)) ->
  n < pn.
Proof.
  simpl. rewrite app_assoc, sorted_mid. rewrite !below_app, below_cons. tauto.
Qed.

Lemma right_of_frame n l1 l2 e pn pe fs pl :
  sorted (before (InRight pn pe pl :: fs) ++ (l1 ++ (n, e) :: l2) ++ after (InRight pn pe pl :: fs)) ->
  pn < n.
Proof.
  simpl. rewrite <- !app_assoc. simpl. rewrite (app_assoc (before fs)), sorted_mid.
  rewrite !above_app, above_cons. tauto.
Qed.

Lemma traverse_back_spec fs : ∀ c, c <> ITE_NULL ->
  sorted (before fs ++ elems c ++ after fs) ->
  goes_to (traverse_back c fs) (before fs ++ elems c) (after fs).
Proof.
  induction fs as [|f fs IH]; intros c Hne Hs; [by eexists|].
  destruct c as [|n e l r]; [done|]. cbn [traverse_back].
  destruct f as [pn pe pr|pn pe pl]; cbn [frame_name].
  - rewrite (proj2 (Z.ltb_lt _ _) (left_of_frame _ _ _ _ _ _ _ _ Hs)). by eexists.
  - apply right_of_frame in Hs as Hlt. rewrite (proj2 (Z.ltb_ge _ _)) by lia.
    simpl in Hs |- *. destruct (IH (Node pn pe pl (Node n e l r))) as (t & Ht & Hv & Hp).
    + done.
    + simpl. rewrite <- ?app_assoc in *. simpl in *. by rewrite <- ?app_assoc in *.
    + exists t. split; [done|]. split; [|done]. rewrite Hv. simpl. by rewrite <- !app_assoc.
Qed.

Lemma traverse_right_spec n e l r fs :
  sorted (before fs ++ elems (Node n e l r) ++ after fs) ->
  goes_to (traverse_right (Node n e l r) fs) (before fs ++ elems l ++ [(n, e)]) (elems r ++ after fs).
Proof.
  intros Hs. unfold traverse_right. destruct r as [|rn re rl rr].
  - exact (traverse_back_spec fs (Node n e l ITE_NULL) ltac:(done) Hs).
  - apply (traverse_left_spec (Node rn re rl rr) ltac:(done) (InRight n e l :: fs)).
Qed.

Lemma traverse_delete_spec n e l r fs :
  names_ok (elems l) ->
  sorted (before fs ++ elems (Node n e l r) ++ after fs) ->
  goes_to (traverse_delete (Node n e l r) fs) (before fs ++ elems l) (elems r ++ after fs).
Proof.
  intros Hok Hs.
  assert (sorted (before fs ++ (elems l ++ elems r) ++ after fs)) as Hs'.
  { revert Hs. simpl. rewrite <- !app_assoc. rewrite (app_assoc (before fs)). simpl.
    rewrite sorted_mid. rewrite <- !app_assoc. tauto. }
  destruct l as [|ln le ll lr], r as [|rn re rl rr]; cbn [traverse_delete].
  - destruct fs as [|[pn pe pr|pn pe pl] fs]; [by eexists|..]; cbn [frame_name].
    + apply (left_of_frame n [] []) in Hs as Hlt. rewrite (proj2 (Z.ltb_lt _ _) Hlt).
      eexists. split; [done|]. done.
    + apply (right_of_frame n [] []) in Hs as Hlt. rewrite (proj2 (Z.ltb_ge _ _)) by lia.
      destruct (traverse_back_spec fs (Node pn pe pl ITE_NULL)) as (t & Ht & Hv & Hp); [done| |].
      * simpl in *. by rewrite ?app_nil_r, <- ?app_assoc in *.
      * exists t. split; [done|]. split; [|done]. rewrite Hv. simpl. by rewrite app_nil_r.
  - destruct (traverse_left_spec (Node rn re rl rr) ltac:(done) fs) as (t & Ht & Hv & Hp).
    exists t. split; [done|]. split; [|done]. by rewrite Hv, app_nil_r.
  - simpl in Hs'. rewrite app_nil_r in Hs'. by apply traverse_back_spec.
  - assert (sorted (elems (Node ln le ll lr))) as Hsl.
    { apply sorted_app in Hs' as (_ & Hs' & _). apply sorted_app in Hs' as (Hs' & _).
      by apply sorted_app in Hs' as (? & _). }
    destruct (splay_largest _ Hsl Hok ltac:(done)) as ([[t lt] rt] & n' & e' & l' & -> & Ha & He).
    cbn [mbind option_bind fst snd] in Ha |- *. rewrite Ha.
    rewrite <- He. apply traverse_right_spec.
    rewrite <- He in Hs'. change (elems (Node n' e' l' ITE_NULL)) with (elems l' ++ [(n', e')]) in Hs'.
    rewrite <- (app_assoc (elems l')) in Hs'. exact Hs'.
Qed.

(** The loop of a client over the traversal: [del] decides which entries go. *)
Fixpoint traverse_loop (del : Z * E -> bool) (fuel : nat) (t : traversal)
    : option (list (Z * E) * tree) :=
  match fuel, t with
  | O, _ => None
  | _, Done root => Some ([], root)
  | S fuel, At (Node n e _ _) _ =>
      t ← ipc_splay_traverse_next t (del (n, e));
      '(seen, root) ← traverse_loop del fuel t;
      Some ((n, e) :: seen, root)
  | _, At ITE_NULL _ => None
  end.

Lemma traverse_next_goes n e l r fs delete :
  sorted (visited (At (Node n e l r) fs) ++ pending (At (Node n e l r) fs)) ->
  names_ok (visited (At (Node n e l r) fs)) ->
  goes_to (ipc_splay_traverse_next (At (Node n e l r) fs) delete)
    (before fs ++ elems l ++ (if delete then [] else [(n, e)])) (elems r ++ after fs).
Proof.
  cbn [visited pending]. intros Hs Hok.
  assert (sorted (before fs ++ elems (Node n e l r) ++ after fs)) as Hs'
    by (simpl; by rewrite <- ?app_assoc in *).
  destruct delete; cbn [ipc_splay_traverse_next].
  - rewrite app_nil_r. apply traverse_delete_spec; [by apply Forall_app in Hok as [_ ?]|done].
  - by apply traverse_right_spec.
Qed.

Lemma traverse_start_goes s : goes_to (ipc_splay_traverse_start s) [] (contents s).
Proof.
  unfold ipc_splay_traverse_start. destruct (ist_root s) as [|n e l r] eqn:Hr.
  - eexists. split; [done|]. by rewrite contents_null.
  - destruct (assemble_spec n e l r (ist_ltree s) (ist_rtree s)) as [-> He].
    cbn [mbind option_bind]. rewrite <- Hr, <- contents_not_null in He by (by rewrite Hr).
    rewrite <- He. destruct (traverse_left_spec (Node n e (fill_l (ist_ltree s) l)
      (fill_r (ist_rtree s) r)) ltac:(done) []) as (t & ? & ? & Hp & ?).
    exists t. split; [done|]. split; [done|]. by rewrite Hp, app_nil_r.
Qed.

(** ** What a client's loop knows of its traversal *)

(** The traversal has kept the entries [v] and will return the entries [p]. *)
Definition stands (t : traversal) (v p : list (Z * E)) : Prop :=
  visited t = v /\ pending t = p /\ alive t /\ sorted (v ++ p) /\ names_ok (v ++ p).

Lemma stands_start s : wf s -> ∃ t, ipc_splay_traverse_start s = Some t /\ stands t [] (contents s).
Proof.
  intros (Hs & Hok & _). destruct (traverse_start_goes s) as (t & Ht & Hv & Hp & Hal).
  exists t. split; [done|]. by repeat split.
Qed.

Lemma stands_done t v : stands t v [] -> ∃ root, t = Done root /\ elems root = v.
Proof. intros (Hv & Hp & Hal & _). destruct t as [[|n e l r] fs|root]; [done..|]. by exists root. Qed.

Lemma stands_at t v n e p : stands t v ((n, e) :: p) ->
  ∃ l r fs, t = At (Node n e l r) fs /\
    ∀ b : bool, ∃ t', ipc_splay_traverse_next t b = Some t' /\
      stands t' (v ++ if b then [] else [(n, e)]) p.
Proof.
  intros (Hv & Hp & Hal & Hs & Hok). destruct t as [[|n' e' l r] fs|root]; [done| |done].
  injection Hp as -> -> Hp. exists l, r, fs. split; [done|]. intros b.
  pose proof Hok as [Hok1 _]%Forall_app.
  destruct (traverse_next_goes n e l r fs b) as (t' & Ht & Hv' & Hp' & Hal'); [|by rewrite Hv|].
  { rewrite Hv. cbn [pending]. by rewrite Hp. }
  exists t'. split; [done|]. rewrite <- Hv, <- Hp in *. cbn [visited] in *.
  assert (∀ P : list (Z * E) -> Prop, (∀ l1 x l2, P (l1 ++ x :: l2) -> P (l1 ++ l2)) ->
    P ((before fs ++ elems l) ++ (n, e) :: elems r ++ after fs) ->
    P (((before fs ++ elems l) ++ if b then [] else [(n, e)]) ++ elems r ++ after fs)) as Hkeep.
  { intros P Hdrop HP. destruct b.
    - rewrite app_nil_r. by apply Hdrop in HP.
    - by rewrite <- (app_assoc _ [(n, e)]). }
  split; [by rewrite Hv', app_assoc|]. split; [done|]. split; [done|]. split.
  - apply Hkeep; [|done]. intros l1 [k x] l2. by intros (? & _)%sorted_mid.
  - apply Hkeep; [|done]. intros l1 x l2. rewrite !Forall_app, Forall_cons. tauto.
Qed.

Lemma finish_spec s root : sorted (elems root) -> names_ok (elems root) ->
  wf (ipc_splay_traverse_finish s root) /\ contents (ipc_splay_traverse_finish s root) = elems root.
Proof. intros. unfold ipc_splay_traverse_finish. rewrite contents_rooted. split; [by apply wf_rooted|done]. Qed.

(** A client's loop returns every entry, in order, whatever it deletes on the
    way, and leaves the entries it kept. *)
Lemma traverse_loop_spec del : ∀ p fuel t v, stands t v p -> (length p < fuel)%nat ->
  ∃ root, traverse_loop del fuel t = Some (p, root) /\
    elems root = v ++ filter (λ x, del x = false) p.
Proof.
  induction p as [|[n e] p IH]; intros fuel t v Ht Hf; (destruct fuel as [|fuel]; [simpl in Hf; lia|]).
  - destruct (stands_done t v Ht) as (root & -> & He). exists root. split; [done|]. by rewrite app_nil_r.
  - destruct (stands_at t v n e p Ht) as (l & r & fs & -> & Hnext).
    destruct (Hnext (del (n, e))) as (t' & Et & Ht'). cbn [traverse_loop]. rewrite Et. cbn [mbind option_bind].
    destruct (IH fuel t' _ Ht') as (root & -> & He); [simpl in Hf; lia|]. cbn [mbind option_bind].
    exists root. split; [done|]. rewrite He, filter_cons. destruct (del (n, e)) eqn:Ed.
    + rewrite decide_False by done. by rewrite app_nil_r.
    + rewrite decide_True by done. by rewrite <- app_assoc.
Qed.

(** * Claims *)

(** The operations a client performs, with the entries it supplies. *)
Inductive splay_op := Lookup (name : Z) | Insert (name : Z) (entry : E) | Delete (name : Z).

(** One operation on the tree, with the entry it returns. *)
Definition run_op (op : splay_op) (d : gmap Z E) (s : splay) : option (option E * splay) :=
  match op with
  | Lookup name => ipc_splay_tree_lookup s name
  | Insert name entry => s ← ipc_splay_tree_insert s name entry; Some (None, s)
  | Delete name =>
      entry ← d !! name;
      '(e, s) ← ipc_splay_tree_delete s name entry; Some (Some e, s)
  end.

(** The same operation on a finite map; [None] where the code's contract forbids
    it (an insertion of a present name, a deletion of an absent one). *)
Definition map_op (op : splay_op) (d : gmap Z E) : option (option E * gmap Z E) :=
  match op with
  | Lookup name => Some (d !! name, d)
  | Insert name entry =>
      if decide (name_ok name) then
        match d !! name with None => Some (None, <[name := entry]> d) | Some _ => None end
      else None
  | Delete name => entry ← d !! name; Some (Some entry, delete name d)
  end.

Fixpoint run_ops (ops : list splay_op) (d : gmap Z E) (s : splay)
    : option (list (option E) * splay) :=
  match ops with
  | [] => Some ([], s)
  | op :: ops =>
      '(r, s) ← run_op op d s;
      '(_, d) ← map_op op d;
      '(rs, s) ← run_ops ops d s;
      Some (r :: rs, s)
  end.

Fixpoint map_ops (ops : list splay_op) (d : gmap Z E) : option (list (option E) * gmap Z E) :=
  match ops with
  | [] => Some ([], d)
  | op :: ops =>
      '(r, d) ← map_op op d;
      '(rs, d) ← map_ops ops d;
      Some (r :: rs, d)
  end.

Lemma run_op_refines op s r d' : wf s -> map_op op (dir s) = Some (r, d') ->
  ∃ s', run_op op (dir s) s = Some (r, s') /\ wf s' /\ dir s' = d'.
Proof.
  intros Hwf. destruct op as [name|name entry|name]; simpl.
  - intros [= <- <-]. destruct (lookup_spec s name Hwf) as (s' & -> & ? & Hc).
    exists s'. split; [done|]. split; [done|]. unfold dir. by rewrite Hc.
  - case_decide; [|done]. destruct (dir s !! name) eqn:E'; [done|]. intros [= <- <-].
    destruct (insert_spec s name entry Hwf) as (s' & -> & ? & ?); [done..|].
    simpl. by exists s'.
  - destruct (dir s !! name) as [entry|] eqn:E'; [|done]. simpl. intros [= <- <-].
    destruct (delete_spec s name entry Hwf E') as (s' & -> & ? & ?). simpl. by exists s'.
Qed.

Lemma run_ops_refines ops : ∀ s rs d', wf s -> map_ops ops (dir s) = Some (rs, d') ->
  ∃ s', run_ops ops (dir s) s = Some (rs, s') /\ wf s' /\ dir s' = d'.
Proof.
  induction ops as [|op ops IH]; intros s rs d' Hwf; simpl.
  { intros [= <- <-]. by exists s. }
  destruct (map_op op (dir s)) as [[r d1]|] eqn:Eop; [|done].
  destruct (run_op_refines _ _ _ _ Hwf Eop) as (s1 & -> & Hwf1 & <-). simpl.
  destruct (map_ops ops (dir s1)) as [[rs1 d2]|] eqn:Eops; [|done]. simpl. intros [= <- <-].
  destruct (IH s1 rs1 d2 Hwf1 Eops) as (s2 & -> & ? & ?). simpl. by exists s2.
Qed.

(** C3 (refinement): from an initialised tree, any sequence of lookups,
    insertions of absent names and deletions of present ones runs without a
    failed assertion, returns what a finite map from names to entries returns,
    and ends in a well-formed tree that stands for the map's final value. *)
Theorem splay_implements_map ops s rs d :
  map_ops ops ∅ = Some (rs, d) ->
  ∃ s', run_ops ops ∅ (ipc_splay_tree_init s) = Some (rs, s') /\ wf s' /\ dir s' = d.
Proof. apply (run_ops_refines ops (ipc_splay_tree_init s)). apply wf_null. Qed.

(** Splitting a tree at a name leaves the entries from the name
    on, in their order, and moves the smaller ones to the new tree; joining the
    two gives the original contents back, and empties the small tree. *)
Theorem splay_split_join s name small : wf s ->
  ∃ big small1, ipc_splay_tree_split s name small = Some (big, small1) /\
    contents small1 = filter (λ x, x.1 < name) (contents s) /\
    contents big = filter (λ x, name <= x.1) (contents s) /\
    ∃ s' small2, ipc_splay_tree_join big small1 = Some (s', small2) /\
      wf s' /\ contents s' = contents s /\ contents small2 = [].
Proof.
  intros Hwf. destruct (split_spec s name small Hwf) as (s1 & s2 & E1 & H1 & H2 & Hc & Hb & Ha).
  exists s1, s2. split; [done|]. rewrite Hc, !filter_app.
  rewrite (filter_all _ (contents s2)) by done.
  rewrite (filter_none _ (contents s1)) by (eapply Forall_impl; [exact Ha|]; simpl; lia).
  rewrite (filter_none _ (contents s2)) by (eapply Forall_impl; [exact Hb|]; simpl; lia).
  rewrite (filter_all _ (contents s1)) by done.
  split; [by rewrite app_nil_r|]. split; [done|].
  destruct (join_spec s1 s2 H1 H2) as (s' & small2 & E2 & ? & _ & ? & ?).
  - intros x y Hx Hy. unfold below in Hb. rewrite Forall_forall in Hb, Ha.
    specialize (Hb x Hx). specialize (Ha y Hy). simpl in *. lia.
  - by exists s', small2.
Qed.

(** C25 (functional): a traversal that deletes entries on its way, by any rule,
    ends, returns every entry exactly once in the order of the names, never
    follows an inverted pointer in the wrong direction, and leaves a well-formed
    tree of exactly the entries it did not delete. *)
Theorem splay_traverse_all s del fuel : wf s -> (length (contents s) < fuel)%nat ->
  ∃ t root, ipc_splay_traverse_start s = Some t /\
    traverse_loop del fuel t = Some (contents s, root) /\
    let s' := ipc_splay_traverse_finish s root in
    wf s' /\ contents s' = filter (λ x, del x = false) (contents s).
Proof.
  intros Hwf Hf.
  destruct (stands_start s Hwf) as (t & Ht & Hst).
  destruct (traverse_loop_spec del _ fuel t [] Hst Hf) as (root & Hl & He).
  exists t, root. split; [done|]. split; [done|]. simpl. destruct Hwf as (Hs & Hok & _).
  unfold ipc_splay_traverse_finish. rewrite contents_rooted, He. split; [|done].
  assert (∀ l, sorted l -> sorted (filter (λ x, del x = false) l)) as Hsf.
    { intros l0. unfold sorted. induction l0 as [|x l0 IH]; [done|].
      intros Hx. inversion Hx as [|?? Hsl Hfl]; subst. rewrite filter_cons.
      case_decide; [|auto]. constructor; [auto|]. rewrite Forall_fmap in Hfl. apply Forall_fmap.
      apply Forall_forall. intros y [_ Hy]%list_elem_of_filter.
      rewrite Forall_forall in Hfl. by apply Hfl. }
  apply wf_rooted; rewrite He; simpl; [by apply Hsf|].
  apply Forall_forall. intros y [_ Hy]%list_elem_of_filter.
  rewrite Forall_forall in Hok. by apply Hok.
Qed.

End splay.

(** * Concrete trees *)

(** Three names inserted, and the tree they leave. *)
Definition demo : option (splay (E := Z)) :=
  s ← ipc_splay_tree_insert (Splay 0 ITE_NULL [] []) 20 2;
  s ← ipc_splay_tree_insert s 10 1;
  ipc_splay_tree_insert s 30 3.
Definition demo_tree : splay := default (Splay 0 ITE_NULL [] []) demo.

Lemma demo_tree_wf : wf demo_tree.
Proof.
  split; [|split].
  - repeat constructor; reflexivity.
  - repeat constructor; discriminate.
  - intros _. split; [constructor|split; [constructor|by left]].
Qed.

Lemma splay_implements_map_witness :
  ∃ s', run_ops [Insert 20 2; Insert 10 1; Lookup 20; Delete 20; Lookup 20; Lookup 10] ∅
          (ipc_splay_tree_init (Splay (E := Z) 7 ITE_NULL [] []))
        = Some ([None; None; Some 2; Some 2; None; Some 1], s') /\ wf s'.
Proof.
  destruct (splay_implements_map [Insert 20 2; Insert 10 1; Lookup 20; Delete 20; Lookup 20; Lookup 10]
    (Splay (E := Z) 7 ITE_NULL [] []) [None; None; Some 2; Some 2; None; Some 1]
    {[ 10 := 1 ]}) as (s' & H & Hwf & _).
  - vm_compute. reflexivity.
  - exists s'. split; [exact H|exact Hwf].
Defined.

Lemma splay_split_join_witness :
  ∃ big small1, ipc_splay_tree_split demo_tree 15 (Splay 0 ITE_NULL [] []) = Some (big, small1) /\
    contents small1 = [(10, 1)] /\ contents big = [(20, 2); (30, 3)].
Proof.
  destruct (splay_split_join demo_tree 15 (Splay 0 ITE_NULL [] []) demo_tree_wf)
    as (big & small1 & E1 & H1 & H2 & _).
  exists big, small1. split; [exact E1|]. split; [exact H1|exact H2].
Defined.

Lemma splay_traverse_all_witness :
  ∃ t root, ipc_splay_traverse_start demo_tree = Some t /\
    traverse_loop (λ x, x.1 =? 20) 4 t = Some ([(10, 1); (20, 2); (30, 3)], root) /\
    contents (ipc_splay_traverse_finish demo_tree root) = [(10, 1); (30, 3)].
Proof.
  destruct (splay_traverse_all demo_tree (λ x, x.1 =? 20) 4 demo_tree_wf ltac:(vm_compute; lia))
    as (t & root & H1 & H2 & _ & H3).
  exists t, root. split; [exact H1|]. split; [exact H2|exact H3].
Defined.

End IpcSplay.
