(* ===== verification/IpcHash.v ===== *)
(** The reverse hash tables of the IPC system, osfmk/ipc/ipc_hash.c: from an
    object to the name a space has for it.  The local table is an open-addressing
    hash table whose slots are a field of the space's entry table; the global one
    holds the entries of splay trees in buckets that move what they find to the
    front.

    Kernel objects and spaces are their 32-bit addresses, 0 the null one; a failed
    assertion or an access outside of a table is [None].  The bucket locks are left
    out: every routine runs with the space locked, and holds one bucket lock. *)

From S2P Require Import Prelude.

Module IpcHash.

(** * Entries *)

(** [ipc_entry] (osfmk/ipc/ipc_entry.h, 100-111). *)
Record ipc_entry := Entry {
  ie_object : Z;
  ie_bits : Z;
  ie_request : Z;    (* index.request, or index.next on the free list *)
  ie_index : Z }.    (* hash.table *)

Definition IO_NULL : Z := 0.
Definition IE_BITS_GEN_MASK : Z := 0xff000000.

(** [IE_BITS_GEN] (osfmk/ipc/ipc_entry.h, 128-128). *)
Definition IE_BITS_GEN (bits : Z) : Z := bits &&& IE_BITS_GEN_MASK.

(** [MACH_PORT_INDEX] (osfmk/mach/port.h, 217-217). *)
Definition MACH_PORT_INDEX (name : Z) : Z := Z.shiftr name 8.
(** [MACH_PORT_GEN] (osfmk/mach/port.h, 218-218). *)
Definition MACH_PORT_GEN (name : Z) : Z := u32 (Z.shiftl (name &&& 0xff) 24).
(** [MACH_PORT_MAKE] (osfmk/mach/port.h, 219-220). *)
Definition MACH_PORT_MAKE (index gen : Z) : Z := u32 (Z.shiftl index 8) ||| Z.shiftr gen 24.

Abbreviation table := (list ipc_entry).

Definition entry_at (t : table) (i : Z) : option ipc_entry := t !! Z.to_nat i.

(** [table[h].ie_index = v]. *)
Definition set_ie_index (t : table) (h v : Z) : table :=
  alter (λ e, Entry (ie_object e) (ie_bits e) (ie_request e) v) (Z.to_nat h) t.

(** * The local table *)

(** [IH_LOCAL_HASH] (osfmk/ipc/ipc_hash.c, 396-397). *)
Definition IH_LOCAL_HASH (obj size : Z) : Z := Z.shiftr obj 6 mod size.

(** [if (++hindex == size) hindex = 0;]. *)
Definition next_slot (size hindex : Z) : Z :=
  let hindex := u32 (hindex + 1) in
  if hindex =? size then 0 else hindex.

(** The loop of all three routines: advance until a slot passes the test. *)
Fixpoint probe (test : Z -> option bool) (size : Z) (fuel : nat) (hindex : Z) : option Z :=
  match fuel with
  | O => None
  | S fuel =>
      match test hindex with
      | None => None
      | Some true => Some hindex
      | Some false => probe test size fuel (next_slot size hindex)
      end
  end.

(** [ipc_hash_local_lookup] (osfmk/ipc/ipc_hash.c, 409-449): the name and the
    index of the entry.  A table has [size] slots to probe. *)
Definition ipc_hash_local_lookup (t : table) (size obj : Z) : option (option (Z * Z)) :=
  if obj =? IO_NULL then None
  else
    hindex ← probe (λ h,
        e ← entry_at t h;
        if ie_index e =? 0 then Some true
        else e' ← entry_at t (ie_index e); Some (ie_object e' =? obj))
      size (Z.to_nat size) (IH_LOCAL_HASH obj size);
    e ← entry_at t hindex;
    let index := ie_index e in
    if index =? 0 then Some None
    else
      e' ← entry_at t index;
      Some (Some (MACH_PORT_MAKE index (IE_BITS_GEN (ie_bits e')), index)).

(** [ipc_hash_local_insert] (osfmk/ipc/ipc_hash.c, 459-493). *)
Definition ipc_hash_local_insert (t : table) (size obj index : Z) : option table :=
  if (index =? 0) || (obj =? IO_NULL) then None
  else
    e ← entry_at t index;
    if negb (ie_object e =? obj) then None
    else
      hindex ← probe (λ h, e ← entry_at t h; Some (ie_index e =? 0))
                 size (Z.to_nat size) (IH_LOCAL_HASH obj size);
      Some (set_ie_index t hindex index).

(** [ipc_hash_local_delete], the search for the end of the clump or for a
    displaced object (osfmk/ipc/ipc_hash.c, 556-580). *)
Fixpoint next_displaced (fuel : nat) (t : table) (size hindex dindex : Z) : option (Z * Z) :=
  match fuel with
  | O => None
  | S fuel =>
      let dindex := next_slot size dindex in
      if dindex =? hindex then None
      else
        e ← entry_at t dindex;
        let index := ie_index e in
        if index =? 0 then Some (dindex, index)
        else
          e' ← entry_at t index;
          let tobj := ie_object e' in
          if tobj =? IO_NULL then None
          else
            let tindex := IH_LOCAL_HASH tobj size in
            if (if dindex <? hindex then (dindex <? tindex) && (tindex <=? hindex)
                else (dindex <? tindex) || (tindex <=? hindex))
            then Some (dindex, index)
            else next_displaced fuel t size hindex dindex
  end.

(** [ipc_hash_local_delete], the loop that moves displaced objects up
    (osfmk/ipc/ipc_hash.c, 555-583). *)
Fixpoint fill_hole (fuel : nat) (t : table) (size hindex dindex index : Z) : option table :=
  if index =? 0 then Some t
  else
    match fuel with
    | O => None
    | S fuel =>
        '(dindex, index) ← next_displaced (Z.to_nat size) t size hindex dindex;
        fill_hole fuel (set_ie_index t hindex index) size dindex dindex index
    end.

(** [ipc_hash_local_delete] (osfmk/ipc/ipc_hash.c, 503-584). *)
Definition ipc_hash_local_delete (t : table) (size obj index : Z) : option table :=
  if (index =? 0) || (obj =? IO_NULL) then None
  else
    e ← entry_at t index;
    if negb (ie_object e =? obj) then None
    else
      hindex ← probe (λ h, e ← entry_at t h; Some (ie_index e =? index))
                 size (Z.to_nat size) (IH_LOCAL_HASH obj size);
      fill_hole (Z.to_nat size) t size hindex hindex index.

(** * The global table *)

(** A splay-tree entry, as the buckets see it. *)
Record tree_entry := TreeEntry {
  ite_id : Z; ite_name : Z; ite_space : Z; ite_object : Z }.

#[global] Instance tree_entry_eq_dec : EqDecision tree_entry.
Proof. solve_decision. Defined.

(** The buckets, each the list that starts at [ihgb_head]. *)
Abbreviation buckets := (list (list tree_entry)).

(** [IH_GLOBAL_HASH] (osfmk/ipc/ipc_hash.c, 208-211). *)
Definition IH_GLOBAL_HASH (mask space obj : Z) : Z :=
  u32 (Z.shiftr space 4 + Z.shiftr obj 6) &&& mask.

Definition is_for (space obj : Z) (e : tree_entry) : bool :=
  (ite_object e =? obj) && (ite_space e =? space).

(** The entry of a list that matches, with the list without it. *)
Fixpoint unlink (p : tree_entry -> bool) (l : list tree_entry) : option (tree_entry * list tree_entry) :=
  match l with
  | [] => None
  | e :: l => if p e then Some (e, l) else '(x, l) ← unlink p l; Some (x, e :: l)
  end.

Definition bucket_of (g : buckets) (space obj : Z) : nat :=
  Z.to_nat (IH_GLOBAL_HASH (Z.of_nat (length g) - 1) space obj).

(** [ipc_hash_global_lookup] (osfmk/ipc/ipc_hash.c, 236-280): the entry, moved to
    the front of its bucket. *)
Definition ipc_hash_global_lookup (g : buckets) (space obj : Z)
    : option (option tree_entry * buckets) :=
  if (space =? 0) || (obj =? IO_NULL) then None
  else
    let b := bucket_of g space obj in
    bucket ← g !! b;
    match bucket with
    | [] => Some (None, g)
    | this :: rest =>
        if is_for space obj this then Some (Some this, g)
        else
          match unlink (is_for space obj) rest with
          | Some (found, rest) => Some (Some found, <[b := found :: this :: rest]> g)
          | None => Some (None, g)
          end
    end.

(** * Spaces and the dispatch between the tables *)

(** The fields of [ipc_space] the hash tables use. *)
Record space := Space {
  is_addr : Z; is_table : table; is_table_size : Z;
  is_tree_total : Z; is_tree_hash : Z; is_fast : bool }.

Definition set_is_table (s : space) (t : table) : space :=
  Space (is_addr s) t (is_table_size s) (is_tree_total s) (is_tree_hash s) (is_fast s).
Definition set_is_tree_hash (s : space) (z : Z) : space :=
  Space (is_addr s) (is_table s) (is_table_size s) (is_tree_total s) z (is_fast s).

(** [ipc_hash_global_insert] (osfmk/ipc/ipc_hash.c, 290-318). *)
Definition ipc_hash_global_insert (s : space) (g : buckets) (obj name : Z) (entry : tree_entry)
    : option (space * buckets) :=
  if is_fast s || negb (ite_name entry =? name) || (is_addr s =? 0)
     || negb (ite_space entry =? is_addr s) || (obj =? IO_NULL) || negb (ite_object entry =? obj)
  then None
  else
    let s := set_is_tree_hash s (u32 (is_tree_hash s + 1)) in
    if is_tree_total s <? is_tree_hash s then None
    else
      let b := bucket_of g (is_addr s) obj in
      bucket ← g !! b;
      Some (s, <[b := entry :: bucket]> g).

(** [ipc_hash_global_delete] (osfmk/ipc/ipc_hash.c, 328-364). *)
Definition ipc_hash_global_delete (s : space) (g : buckets) (obj name : Z) (entry : tree_entry)
    : option (space * buckets) :=
  if is_fast s || negb (ite_name entry =? name) || (is_addr s =? 0)
     || negb (ite_space entry =? is_addr s) || (obj =? IO_NULL) || negb (ite_object entry =? obj)
     || negb (0 <? is_tree_hash s)
  then None
  else
    let s := set_is_tree_hash s (u32 (is_tree_hash s - 1)) in
    let b := bucket_of g (is_addr s) obj in
    bucket ← g !! b;
    '(_, bucket) ← unlink (λ e, bool_decide (e = entry)) bucket;
    Some (s, <[b := bucket]> g).

(** An [ipc_entry_t]: a slot of the table or a node of the tree. *)
Inductive entry_ptr := InTable (index : Z) | InTree (entry : tree_entry).

(** The test of [ipc_hash_insert] and [ipc_hash_delete] for a table entry. *)
Definition is_local (s : space) (name : Z) (entry : entry_ptr) : bool :=
  match entry with
  | InTable i => (MACH_PORT_INDEX name <? is_table_size s) && (i =? MACH_PORT_INDEX name)
  | InTree _ => false
  end.

(** [ipc_hash_lookup] (osfmk/ipc/ipc_hash.c, 120-137). *)
Definition ipc_hash_lookup (s : space) (g : buckets) (obj : Z)
    : option (option (Z * entry_ptr) * buckets) :=
  rv ← ipc_hash_local_lookup (is_table s) (is_table_size s) obj;
  match rv with
  | Some (name, index) => Some (Some (name, InTable index), g)
  | None =>
      if is_fast s && negb (is_tree_hash s =? 0) then None
      else if 0 <? is_tree_hash s then
        '(found, g) ← ipc_hash_global_lookup g (is_addr s) obj;
        Some (match found with Some e => Some (ite_name e, InTree e) | None => None end, g)
      else Some (None, g)
  end.

(** [ipc_hash_insert] (osfmk/ipc/ipc_hash.c, 148-166). *)
Definition ipc_hash_insert (s : space) (g : buckets) (obj name : Z) (entry : entry_ptr)
    : option (space * buckets) :=
  if is_local s name entry then
    t ← ipc_hash_local_insert (is_table s) (is_table_size s) obj (MACH_PORT_INDEX name);
    Some (set_is_table s t, g)
  else
    match entry with
    | InTree e => if is_fast s then None else ipc_hash_global_insert s g obj name e
    | InTable _ => None
    end.

(** [ipc_hash_delete] (osfmk/ipc/ipc_hash.c, 176-194). *)
Definition ipc_hash_delete (s : space) (g : buckets) (obj name : Z) (entry : entry_ptr)
    : option (space * buckets) :=
  if is_local s name entry then
    t ← ipc_hash_local_delete (is_table s) (is_table_size s) obj (MACH_PORT_INDEX name);
    Some (set_is_table s t, g)
  else
    match entry with
    | InTree e => if is_fast s then None else ipc_hash_global_delete s g obj name e
    | InTable _ => None
    end.

(** [ipc_hash_init], the loop that rounds up to a power of two
    (osfmk/ipc/ipc_hash.c, 613-619): the size and the mask. *)
Fixpoint round_up (fuel : nat) (bit mask : Z) : option (Z * Z) :=
  match fuel with
  | O => None
  | S fuel =>
      let mask := mask ||| bit in
      let size := u32 (mask + 1) in
      if (size &&& mask) =? 0 then Some (size, mask)
      else round_up fuel (u32 (Z.shiftl bit 1)) mask
  end.

(** [ipc_hash_init] (osfmk/ipc/ipc_hash.c, 592-638): the size, the mask and the
    empty buckets. *)
Definition ipc_hash_init (ipc_hash_global_size ipc_tree_entry_max : Z)
    : option (Z * Z * buckets) :=
  let size :=
    if ipc_hash_global_size =? 0 then
      let size := Z.shiftr ipc_tree_entry_max 8 in
      if size <? 32 then 32 else size
    else ipc_hash_global_size in
  let mask := u32 (size - 1) in
  '(size, mask) ← (if negb ((size &&& mask) =? 0) then round_up 32 1 mask
                   else Some (size, mask));
  Some (size, mask, replicate (Z.to_nat size) []).

(** * Linear probing *)

(** [on_path a h k]: slot [k] lies on the way from [a] up to, not including, [h],
    wrapping around at the end of the table. *)
Definition on_path (a h k : Z) : Prop := (a <= h /\ a <= k < h) \/ (h < a /\ (a <= k \/ k < h)).

(** Steps from [p] to [q]. *)
Definition dist (n p q : Z) : Z := if p <=? q then q - p else q - p + n.

Section probing.
Context (n : Z) (n_ok : 0 < n < 2 ^ 32).

Definition slot (h : Z) : Prop := 0 <= h < n.

Lemma next_slot_eq h : slot h -> next_slot n h = if h + 1 =? n then 0 else h + 1.
Proof.
  unfold slot. intros. unfold next_slot. rewrite wrap_small by (unfold in_range; lia). done.
Qed.

Lemma next_slot_slot h : slot h -> slot (next_slot n h).
Proof. intros H. rewrite next_slot_eq by done. unfold slot in *. destruct (Z.eqb_spec (h + 1) n); lia. Qed.

(** A probe reaches the first slot that passes the test, when there is one. *)
Lemma probe_spec test tb q :
  (∀ h, slot h -> test h = Some (tb h)) -> slot q -> tb q = true ->
  ∀ fuel p, slot p -> dist n p q < Z.of_nat fuel ->
  ∃ r, probe test n fuel p = Some r /\ slot r /\ tb r = true /\
       ∀ k, slot k -> on_path p r k -> tb k = false.
Proof.
  intros Htest Hq Hqt. induction fuel as [|fuel IH]; intros p Hp Hd.
  { unfold dist, slot in *. destruct (Z.leb_spec p q); lia. }
  simpl. rewrite Htest by done. destruct (tb p) eqn:Ep.
  { exists p. split_and!; try done; unfold slot in *; try lia.
    intros k _ Hk. unfold on_path in Hk. lia. }
  assert (p <> q) by congruence.
  destruct (IH (next_slot n p)) as (r & Hr & Hrs & Hrt & Hpath); [by apply next_slot_slot| |].
  { rewrite next_slot_eq by done. unfold dist, slot in *.
    destruct (Z.eqb_spec (p + 1) n); destruct (Z.leb_spec p q); 
      repeat case_match; lia. }
  exists r. split_and!; [done|unfold slot in *; lia..|done|].
  intros k Hk Hpk. destruct (decide (k = p)) as [->|]; [done|]. apply Hpath; [done|].
  rewrite next_slot_eq by done. unfold on_path, slot in *.
  destruct (Z.eqb_spec (p + 1) n); destruct (decide (p = r)); subst; try congruence; lia.
Qed.

Lemma probe_full test tb q p :
  (∀ h, slot h -> test h = Some (tb h)) -> slot q -> tb q = true -> slot p ->
  ∃ r, probe test n (Z.to_nat n) p = Some r /\ slot r /\ tb r = true /\
       ∀ k, slot k -> on_path p r k -> tb k = false.
Proof.
  intros. apply (probe_spec test tb q); try done.
  unfold dist, slot in *. destruct (Z.leb_spec p q); lia.
Qed.

(** ** The invariant, on the slots [f] and the home slots [hm] of the entries *)

Context (hm : Z -> Z) (hm_ok : ∀ i, slot (hm i)).

(** The probe from an entry's home reaches its slot, every entry has one slot,
    and slots hold indices of the table other than 0. *)
Record probed (f : Z -> Z) : Prop := {
  probed_index h : slot h -> f h <> 0 -> 0 < f h < n;
  probed_path h k : slot h -> f h <> 0 -> slot k -> on_path (hm (f h)) h k -> f k <> 0;
  probed_inj h h' : slot h -> slot h' -> f h <> 0 -> f h = f h' -> h = h' }.

(** At least one slot is free: the [n] slots hold different indices below [n]
    other than 0. *)
Lemma free_slot f : probed f -> ∃ e, slot e /\ f e = 0.
Proof.
  intros [Hi _ Hinj].
  destruct (decide (Exists (λ h, f h = 0) (seqZ 0 n))) as [He|He].
  { apply Exists_exists in He as (e & He%elem_of_seqZ & ?). exists e. unfold slot. split; [lia|done]. }
  exfalso. assert (∀ h, slot h -> f h <> 0) as Hne.
  { intros h Hh E. apply He, Exists_exists. exists h. split; [apply elem_of_seqZ; unfold slot in *; lia|done]. }
  assert (NoDup (f <$> seqZ 0 n)) as Hnd.
  { apply NoDup_fmap_2_strong; [|apply NoDup_seqZ].
    intros x y Hx%elem_of_seqZ Hy%elem_of_seqZ E. apply Hinj; unfold slot; try lia.
    apply Hne. unfold slot. lia. }
  assert ((f <$> seqZ 0 n) ⊆ seqZ 1 (n - 1)) as Hsub.
  { intros z (x & -> & Hx%elem_of_seqZ)%list_elem_of_fmap_1. apply elem_of_seqZ.
    specialize (Hi x ltac:(unfold slot; lia) ltac:(apply Hne; unfold slot; lia)). lia. }
  pose proof (submseteq_length _ _ (NoDup_submseteq _ _ Hnd Hsub)) as Hlen.
  rewrite length_fmap, !length_seqZ in Hlen. lia.
Qed.

Definition upd (f : Z -> Z) (h v : Z) : Z -> Z := λ k, if k =? h then v else f k.

Lemma upd_same f h v : upd f h v h = v.
Proof. unfold upd. by rewrite Z.eqb_refl. Qed.
Lemma upd_other f h v k : k <> h -> upd f h v k = f k.
Proof. unfold upd. intros ?. by rewrite (proj2 (Z.eqb_neq k h)). Qed.

(** Insertion at the end of the clump. *)
Lemma probed_insert f h i : probed f -> slot h -> f h = 0 -> 0 < i < n ->
  (∀ k, slot k -> f k <> i) -> (∀ k, slot k -> on_path (hm i) h k -> f k <> 0) ->
  probed (upd f h i).
Proof.
  intros [Hi Hp Hinj] Hh Hfh Hr Hnew Hpath. constructor.
  - intros k Hk. destruct (decide (k = h)) as [->|]; [rewrite upd_same|rewrite upd_other by done; auto]. lia.
  - intros k j Hk. destruct (decide (j = h)) as [->|].
    { intros _ _ _. rewrite upd_same. lia. }
    rewrite (upd_other _ _ _ j) by done. destruct (decide (k = h)) as [->|].
    + rewrite upd_same. auto.
    + rewrite upd_other by done. eauto.
  - intros k j Hk Hj. destruct (decide (k = h)) as [->|], (decide (j = h)) as [->|];
      rewrite ?upd_same, ?upd_other by done; try done.
    + intros _ E. by destruct (Hnew j Hj).
    + intros _ E. by destruct (Hnew k Hk).
    + auto.
Qed.

(** ** Deletion: a hole moves to the end of the clump *)

(** Slot [g] is a hole whatever it still holds, and the slots behind it up to
    [d] hold entries whose probe does not pass the hole. *)
Record hole (g d : Z) (f : Z -> Z) : Prop := {
  hole_index h : slot h -> h <> g -> f h <> 0 -> 0 < f h < n;
  hole_path h k : slot h -> h <> g -> f h <> 0 -> slot k -> k <> g ->
    on_path (hm (f h)) h k -> f k <> 0;
  hole_inj h h' : slot h -> slot h' -> h <> g -> h' <> g -> f h <> 0 -> f h = f h' -> h = h';
  hole_checked h : slot h -> on_path g d h \/ h = d -> h <> g ->
    f h <> 0 /\ ~ on_path (hm (f h)) h g }.

Lemma hole_start f g : probed f -> slot g -> hole g g f.
Proof.
  intros [Hi Hp Hinj] Hg. constructor; eauto.
  intros h _ [H| ->] ?; [unfold on_path in H; lia|done].
Qed.

(** The end of the clump: the hole can be emptied. *)
Lemma hole_end f g d : hole g d f -> slot g -> slot d -> next_slot n d <> g ->
  f (next_slot n d) = 0 -> probed (upd f g 0).
Proof.
  intros [Hi Hp Hinj Hc] Hg Hd Hne H0.
  pose proof (next_slot_slot d Hd) as Hd'.
  rewrite next_slot_eq in * by done. set (d' := if d + 1 =? n then 0 else d + 1) in *.
  constructor.
  - intros h Hh. destruct (decide (h = g)) as [->|]; [by rewrite upd_same|].
    rewrite upd_other by done. auto.
  - intros h k Hh. destruct (decide (h = g)) as [->|]; [by rewrite upd_same|].
    rewrite upd_other by done. intros Hfh Hk Hpath.
    destruct (decide (k = g)) as [->|]; [|rewrite upd_other by done; eauto].
    exfalso. destruct (decide (on_path g d h \/ h = d)) as [Hin|Hout].
    { unfold on_path in Hin. by destruct (Hc h Hh Hin n0). }
    destruct (decide (h = d')) as [->|]; [done|].
    apply (Hp h d'); try done.
    pose proof (hm_ok (f h)) as Hhm. unfold on_path, slot in *. subst d'.
    destruct (Z.eqb_spec (d + 1) n); lia.
  - intros h h' Hh Hh'. destruct (decide (h = g)) as [->|]; [by rewrite upd_same|].
    rewrite (upd_other _ _ _ h) by done. intros Hfh.
    destruct (decide (h' = g)) as [->|]; [by rewrite upd_same|].
    rewrite upd_other by done. eauto.
Qed.

(** An entry the hole does not displace extends the checked slots. *)
Lemma hole_extend f g d : hole g d f -> slot g -> slot d ->
  f (next_slot n d) <> 0 -> ~ on_path (hm (f (next_slot n d))) (next_slot n d) g ->
  hole g (next_slot n d) f.
Proof.
  intros [Hi Hp Hinj Hc] Hg Hd Hf Hnp. constructor; try done.
  intros h Hh Hin Hne. destruct (decide (h = next_slot n d)) as [->|]; [done|].
  apply Hc; [done| |done].
  destruct Hin as [Hin|]; [|done]. rewrite next_slot_eq in * by done.
  unfold on_path, slot in *. destruct (Z.eqb_spec (d + 1) n); lia.
Qed.

(** A displaced entry fills the hole and leaves one behind. *)
Lemma hole_move f g x d : hole g x f -> slot g -> slot d -> d <> g ->
  f d <> 0 -> on_path (hm (f d)) d g -> hole d d (upd f g (f d)).
Proof.
  intros [Hi Hp Hinj Hc] Hg Hd Hne Hf Hpath.
  constructor.
  - intros h Hh Hhd. destruct (decide (h = g)) as [->|]; [rewrite upd_same; auto|].
    rewrite upd_other by done. auto.
  - intros h k Hh Hhd. destruct (decide (h = g)) as [->|].
    + rewrite upd_same. intros _ Hk Hkd Hpk. destruct (decide (k = g)) as [->|]; [by rewrite upd_same|].
      rewrite upd_other by done. apply (Hp d k); try done.
      pose proof (hm_ok (f d)). unfold on_path, slot in *. lia.
    + rewrite upd_other by done. intros Hfh Hk Hkd Hpk.
      destruct (decide (k = g)) as [->|]; [by rewrite upd_same|].
      rewrite upd_other by done. eauto.
  - intros h h' Hh Hh' Hhd Hhd'.
    destruct (decide (h = g)) as [->|], (decide (h' = g)) as [->|];
      rewrite ?upd_same, ?upd_other by done; try done.
    + intros _ E. destruct Hhd'. symmetry. apply Hinj; done.
    + intros ? E. destruct Hhd. apply Hinj; done.
    + eauto.
  - intros h _ [H| ->] ?; [unfold on_path in H; lia|done].
Qed.

End probing.

(** * Tables *)

(** The index field of a slot, and the object of an entry. *)
Definition ixf (t : table) (h : Z) : Z := from_option ie_index 0 (entry_at t h).
Definition obj_of (t : table) (i : Z) : Z := from_option ie_object 0 (entry_at t i).
Definition home (t : table) (i : Z) : Z := IH_LOCAL_HASH (obj_of t i) (zlen t).

(** The invariant of the local hash table of a space. *)
Record table_ok (t : table) : Prop := {
  table_size : 0 < zlen t < 2 ^ 32;
  table_probed : probed (zlen t) (home t) (ixf t);
  table_objects h : slot (zlen t) h -> ixf t h <> 0 -> obj_of t (ixf t h) <> IO_NULL }.

(** Entry [i] is in the hash table. *)
Definition hashed (t : table) (i : Z) : Prop :=
  i <> 0 /\ ∃ h, slot (zlen t) h /\ ixf t h = i.

(** Tables that differ in their hash slots only. *)
Definition strip (e : ipc_entry) : ipc_entry :=
  Entry (ie_object e) (ie_bits e) (ie_request e) 0.
Definition same_entries (t t' : table) : Prop := strip <$> t = strip <$> t'.

Lemma same_entries_refl t : same_entries t t.
Proof. done. Qed.
Lemma same_entries_trans t1 t2 t3 : same_entries t1 t2 -> same_entries t2 t3 -> same_entries t1 t3.
Proof. unfold same_entries. by intros -> ->. Qed.

Lemma same_entries_length t t' : same_entries t t' -> length t = length t'.
Proof. intros H%(f_equal length). by rewrite !length_fmap in H. Qed.

Lemma same_entries_obj t t' i : same_entries t t' -> obj_of t i = obj_of t' i.
Proof.
  intros H. apply (f_equal (.!! Z.to_nat i)) in H. rewrite !list_lookup_fmap in H.
  unfold obj_of, entry_at. destruct (t !! _), (t' !! _); try done. by injection H.
Qed.

Lemma same_entries_home t t' i : same_entries t t' -> home t i = home t' i.
Proof.
  intros H. unfold home. by rewrite (same_entries_obj _ _ _ H), (same_entries_length _ _ H).
Qed.

Lemma set_ie_index_same t h v : same_entries t (set_ie_index t h v).
Proof.
  unfold same_entries, set_ie_index. apply list_eq. intros k.
  rewrite !list_lookup_fmap. destruct (decide (k = Z.to_nat h)) as [->|].
  - rewrite list_lookup_alter_eq. by destruct (t !! _).
  - by rewrite list_lookup_alter_ne.
Qed.

Lemma ixf_set t h v k : slot (zlen t) h -> slot (zlen t) k ->
  ixf (set_ie_index t h v) k = upd (ixf t) h v k.
Proof.
  unfold slot. intros Hh Hk. unfold ixf, entry_at, set_ie_index, upd.
  destruct (Z.eqb_spec k h) as [->|].
  - rewrite list_lookup_alter_eq. destruct (lookup_lt_is_Some_2 t (Z.to_nat h)) as [e ->]; [lia|done].
  - rewrite list_lookup_alter_ne by lia. done.
Qed.

Lemma entry_at_slot t h : slot (zlen t) h -> ∃ e, entry_at t h = Some e.
Proof. unfold slot, entry_at. intros. apply lookup_lt_is_Some_2. lia. Qed.

Lemma entry_at_ixf t h : slot (zlen t) h -> ∃ e, entry_at t h = Some e /\ ie_index e = ixf t h.
Proof. intros [e He]%entry_at_slot. exists e. split; [done|]. unfold ixf. by rewrite He. Qed.

Lemma entry_at_obj t h : slot (zlen t) h -> ∃ e, entry_at t h = Some e /\ ie_object e = obj_of t h.
Proof. intros [e He]%entry_at_slot. exists e. split; [done|]. unfold obj_of. by rewrite He. Qed.

Lemma home_slot t i : 0 < zlen t -> slot (zlen t) (home t i).
Proof. intros. unfold home, IH_LOCAL_HASH, slot. apply Z.mod_pos_bound. lia. Qed.

Lemma probed_ext n hm hm' f f' :
  (∀ h, slot n h -> f h = f' h) -> (∀ i, hm i = hm' i) -> probed n hm f -> probed n hm' f'.
Proof.
  intros Hf Hhm [Hi Hp Hinj]. constructor.
  - intros h Hh. rewrite <- Hf by done. auto.
  - intros h k Hh. rewrite <- Hf by done. intros ? Hk. rewrite <- Hf, <- Hhm by done. eauto.
  - intros h h' Hh Hh'. rewrite <- !Hf by done. auto.
Qed.

(** A table with other hash slots and the same entries. *)
Lemma table_ok_slots t t' f : table_ok t -> same_entries t t' ->
  (∀ h, slot (zlen t) h -> ixf t' h = f h) -> probed (zlen t) (home t) f ->
  (∀ h, slot (zlen t) h -> f h <> 0 -> obj_of t (f h) <> IO_NULL) -> table_ok t'.
Proof.
  intros [Hs _ _] Hsame Hf Hp Ho. pose proof (same_entries_length _ _ Hsame) as Hlen.
  constructor; rewrite <- ?Hlen; [done| |].
  - eapply probed_ext; [| |exact Hp]; [by intros h Hh; rewrite Hf|].
    intros i. by apply same_entries_home.
  - intros h Hh. rewrite Hf by done. rewrite <- (same_entries_obj t t') by done. auto.
Qed.

(** ** Lookup *)

(** A local lookup finds a hashed entry for the object exactly when there is one. *)
Lemma local_lookup_spec t obj : table_ok t -> obj <> IO_NULL ->
  ∃ r, ipc_hash_local_lookup t (zlen t) obj = Some r /\
    match r with
    | Some (name, i) => hashed t i /\ obj_of t i = obj /\
        name = MACH_PORT_MAKE i (IE_BITS_GEN (from_option ie_bits 0 (entry_at t i)))
    | None => ∀ i, hashed t i -> obj_of t i <> obj
    end.
Proof.
  intros [Hn Hp Hobj] Hne. unfold ipc_hash_local_lookup. rewrite (proj2 (Z.eqb_neq obj IO_NULL)) by done.
  pose proof Hp as [Hi Hpath Hinj].
  set (tb h := (ixf t h =? 0) || (obj_of t (ixf t h) =? obj)).
  destruct (free_slot _ Hn _ _ Hp) as (q & Hq & Hq0).
  destruct (probe_full (zlen t) Hn (λ h, e ← entry_at t h;
      if ie_index e =? 0 then Some true
      else e' ← entry_at t (ie_index e); Some (ie_object e' =? obj)) tb q (IH_LOCAL_HASH obj (zlen t)))
    as (r & Hr & Hrs & Hrt & Hbefore).
  - intros h Hh. destruct (entry_at_ixf t h Hh) as (e & -> & E). cbn [mbind option_bind].
    rewrite E. unfold tb. destruct (Z.eqb_spec (ixf t h) 0); [done|]. simpl.
    destruct (entry_at_obj t (ixf t h)) as (e' & -> & E'); [specialize (Hi h Hh); unfold slot in *; lia|].
    simpl. by rewrite E'.
  - done.
  - unfold tb. by rewrite Hq0.
  - unfold IH_LOCAL_HASH, slot. apply Z.mod_pos_bound. lia.
  - rewrite Hr. cbn [mbind option_bind]. destruct (entry_at_ixf t r Hrs) as (e & -> & E).
    cbn [mbind option_bind]. rewrite E. unfold tb in Hrt.
    destruct (Z.eqb_spec (ixf t r) 0) as [Hz|Hz]; simpl in Hrt.
    + exists None. split; [done|]. intros i (Hi0 & h & Hh & Hhi) Ho. subst i.
      specialize (Hbefore h Hh). unfold tb in Hbefore.
      assert (~ on_path (IH_LOCAL_HASH obj (zlen t)) r h) as Hnp.
      { intros Hon. specialize (Hbefore Hon). rewrite Ho, Z.eqb_refl, orb_true_r in Hbefore. done. }
      assert (home t (ixf t h) = IH_LOCAL_HASH obj (zlen t)) as Hhome by (unfold home; by rewrite Ho).
      apply (Hpath h r Hh Hi0 Hrs); [|done]. rewrite Hhome.
      assert (h <> r) by (intros ->; done).
      assert (slot (zlen t) (IH_LOCAL_HASH obj (zlen t)))
        by (unfold IH_LOCAL_HASH, slot; apply Z.mod_pos_bound; lia).
      unfold on_path, slot in *. lia.
    + apply Z.eqb_eq in Hrt.
      destruct (entry_at_obj t (ixf t r)) as (e' & He' & E').
      { specialize (Hi r Hrs Hz). unfold slot. lia. }
      rewrite He'. cbn [mbind option_bind]. eexists. split; [done|]. split_and!; [split; [done|by exists r]|done|by rewrite He'].
Qed.

(** ** Insertion *)

Lemma local_insert_spec t obj i : table_ok t -> obj <> IO_NULL -> 0 < i < zlen t ->
  obj_of t i = obj -> ~ hashed t i ->
  ∃ t', ipc_hash_local_insert t (zlen t) obj i = Some t' /\ table_ok t' /\ same_entries t t' /\
    ∀ j, hashed t' j <-> hashed t j \/ j = i.
Proof.
  intros Hok Hne Hi Ho Hnew. pose proof Hok as [Hn Hp Hobj].
  unfold ipc_hash_local_insert.
  rewrite (proj2 (Z.eqb_neq i 0)), (proj2 (Z.eqb_neq obj IO_NULL)) by (done || lia). cbn [orb].
  destruct (entry_at_obj t i) as (e & -> & E); [unfold slot; lia|]. cbn [mbind option_bind].
  rewrite E, Ho, Z.eqb_refl. cbn [negb].
  destruct (free_slot _ Hn _ _ Hp) as (q & Hq & Hq0).
  destruct (probe_full (zlen t) Hn (λ h, e ← entry_at t h; Some (ie_index e =? 0))
      (λ h, ixf t h =? 0) q (IH_LOCAL_HASH obj (zlen t))) as (r & Hr & Hrs & Hrt & Hbefore).
  - intros h Hh. destruct (entry_at_ixf t h Hh) as (e' & -> & E'). simpl. by rewrite E'.
  - done.
  - by apply Z.eqb_eq.
  - unfold IH_LOCAL_HASH, slot. apply Z.mod_pos_bound. lia.
  - rewrite Hr. cbn [mbind option_bind]. eexists. split; [done|].
    apply Z.eqb_eq in Hrt. pose proof (set_ie_index_same t r i) as Hsame.
    assert (∀ h, slot (zlen t) h -> ixf (set_ie_index t r i) h = upd (ixf t) r i h) as Hix
      by (intros; by apply ixf_set).
    split; [|split; [done|]].
    + eapply table_ok_slots; [done|done|exact Hix| |].
      * apply probed_insert; try done.
        -- intros k Hk E'. apply Hnew. split; [lia|]. by exists k.
        -- intros k Hk Hon. unfold home in Hon. rewrite Ho in Hon.
           by apply Z.eqb_neq, Hbefore.
      * intros h Hh. destruct (decide (h = r)) as [->|]; [rewrite upd_same; by rewrite Ho|].
        rewrite upd_other by done. auto.
    + intros j. unfold hashed. rewrite <- (same_entries_length _ _ Hsame). split.
      * intros (Hj & h & Hh & Hhj). rewrite Hix in Hhj by done.
        destruct (decide (h = r)) as [->|]; [rewrite upd_same in Hhj; by right|].
        rewrite upd_other in Hhj by done. left. split; [done|by exists h].
      * intros [(Hj & h & Hh & Hhj)| ->].
        -- split; [done|]. exists h. split; [done|]. rewrite Hix, upd_other; [done| |done].
           intros ->. congruence.
        -- split; [lia|]. exists r. split; [done|]. by rewrite Hix, upd_same.
Qed.

(** ** Deletion *)

Lemma displaced_test n g d tindex : slot n g -> slot n d -> slot n tindex -> d <> g ->
  (if d <? g then (d <? tindex) && (tindex <=? g) else (d <? tindex) || (tindex <=? g)) = true
  <-> on_path tindex d g.
Proof.
  unfold slot, on_path. intros. destruct (Z.ltb_spec d g);
    rewrite ?andb_true_iff, ?orb_true_iff, ?Z.ltb_lt, ?Z.leb_le; lia.
Qed.

Section delete.
Context (t : table) (n : Z) (n_eq : n = zlen t) (n_ok : 0 < n < 2 ^ 32).
Context (objects_ok : ∀ h, slot n h -> ixf t h <> 0 -> 0 < ixf t h < n -> obj_of t (ixf t h) <> IO_NULL).

Lemma next_displaced_spec g e : hole n (home t) g g (ixf t) ->
  (∀ h, slot n h -> h <> g -> ixf t h <> 0 -> obj_of t (ixf t h) <> IO_NULL) ->
  slot n g -> slot n e -> e <> g -> ixf t e = 0 ->
  ∀ fuel d, slot n d -> hole n (home t) g d (ixf t) -> d <> e ->
    dist n d e <= Z.of_nat fuel -> dist n d e <= dist n g e ->
  ∃ d' i, next_displaced fuel t n g d = Some (d', i) /\ slot n d' /\ d' <> g /\ i = ixf t d' /\
    ((i = 0 /\ probed n (home t) (upd (ixf t) g 0)) \/
     (i <> 0 /\ d' <> e /\ on_path (home t i) d' g /\ dist n d' e < dist n g e)).
Proof.
  intros _ Hobj Hg He Heg He0. induction fuel as [|fuel IH]; intros d Hd Hhole Hde Hfuel Hdist.
  { unfold dist, slot in *. destruct (Z.leb_spec d e); lia. }
  cbn [next_displaced]. pose proof (next_slot_slot n n_ok d Hd) as Hd'.
  assert (dist n (next_slot n d) e < dist n d e) as Hstep.
  { rewrite next_slot_eq by done. unfold dist, slot in *.
    destruct (Z.eqb_spec (d + 1) n); repeat case_match; lia. }
  assert (next_slot n d <> g) as Hng.
  { intros E. unfold dist, slot in *. repeat case_match; lia. }
  rewrite (proj2 (Z.eqb_neq _ g)) by done.
  destruct (entry_at_ixf t (next_slot n d)) as (en & Hen & Ei); [by rewrite <- n_eq|].
  rewrite Hen. cbn [mbind option_bind]. rewrite Ei.
  destruct (Z.eqb_spec (ixf t (next_slot n d)) 0) as [E0|E0].
  { exists (next_slot n d), (ixf t (next_slot n d)). split_and!; try done.
    left. split; [done|]. eapply hole_end; [done|..]; try done.
    intros i. rewrite n_eq. apply home_slot. lia. }
  assert (0 < ixf t (next_slot n d) < n) as Hr by (by apply (hole_index _ _ _ _ _ Hhole)).
  destruct (entry_at_obj t (ixf t (next_slot n d))) as (eo & Heo & Eo); [unfold slot; lia|].
  rewrite Heo. cbn [mbind option_bind]. rewrite Eo.
  rewrite (proj2 (Z.eqb_neq _ IO_NULL)) by (by apply Hobj).
  assert (IH_LOCAL_HASH (obj_of t (ixf t (next_slot n d))) n = home t (ixf t (next_slot n d)))
    as Hhome by (unfold home; by rewrite n_eq).
  rewrite Hhome.
  assert (slot n (home t (ixf t (next_slot n d)))) as Hhs by (rewrite n_eq; apply home_slot; lia).
  pose proof (displaced_test n g (next_slot n d) _ Hg Hd' Hhs Hng) as Htest.
  destruct (if next_slot n d <? g then _ else _).
  - exists (next_slot n d), (ixf t (next_slot n d)). split_and!; try done.
    right. split_and!; [done| |by apply Htest|lia]. intros E. congruence.
  - apply IH; [done| | |lia|lia].
    + apply hole_extend; [done..|]. intros Hon. by apply Htest in Hon.
    + intros E. congruence.
Qed.
End delete.

Lemma fill_hole_spec t0 e : ∀ fuel t g i,
  0 < zlen t0 < 2 ^ 32 -> same_entries t0 t -> i <> 0 ->
  hole (zlen t0) (home t0) g g (ixf t) ->
  (∀ h, slot (zlen t0) h -> h <> g -> ixf t h <> 0 -> obj_of t0 (ixf t h) <> IO_NULL) ->
  slot (zlen t0) g -> slot (zlen t0) e -> e <> g -> ixf t e = 0 ->
  dist (zlen t0) g e < Z.of_nat fuel ->
  ∃ t', fill_hole fuel t (zlen t0) g g i = Some t' /\ same_entries t0 t' /\
    probed (zlen t0) (home t0) (ixf t') /\
    ∀ j, j <> 0 -> (∃ h, slot (zlen t0) h /\ ixf t' h = j) <->
                   (∃ h, slot (zlen t0) h /\ h <> g /\ ixf t h = j).
Proof.
  induction fuel as [|fuel IH]; intros t g i Hn Hsame Hi Hhole Hobj Hg He Heg He0 Hd.
  { unfold dist, slot in *. destruct (Z.leb_spec g e); lia. }
  pose proof (same_entries_length _ _ Hsame) as Hlen.
  assert (zlen t0 = zlen t) as Hz by lia.
  assert (∀ i, home t0 i = home t i) as Hhome by (intros; by apply same_entries_home).
  assert (hole (zlen t0) (home t) g g (ixf t)) as Hhole'.
  { destruct Hhole as [H1 H2 H3 H4]. constructor; try done.
    - intros h k ?????. rewrite <- Hhome. by apply H2.
    - intros h ? Hh ?. rewrite <- Hhome. by apply H4. }
  cbn [fill_hole]. rewrite (proj2 (Z.eqb_neq i 0)) by done.
  destruct (next_displaced_spec t (zlen t0) Hz Hn g e Hhole') with (fuel := Z.to_nat (zlen t0)) (d := g)
    as (d' & i' & Hnd & Hd' & Hdg & Hi' & Hcase); try done.
  { intros h Hh Hhg Hne. rewrite <- (same_entries_obj t0 t) by done. by apply Hobj. }
  { unfold dist, slot in *. destruct (Z.leb_spec g e); lia. }
  rewrite Hnd. cbn [mbind option_bind].
  pose proof (same_entries_trans _ _ _ Hsame (set_ie_index_same t g i')) as Hsame'.
  assert (∀ h, slot (zlen t0) h -> ixf (set_ie_index t g i') h = upd (ixf t) g i' h) as Hix.
  { intros h Hh. apply ixf_set; by rewrite <- Hz. }
  destruct Hcase as [[-> Hp]|(Hne & Hd'e & Hon & Hdec)].
  - exists (set_ie_index t g 0). split; [by destruct fuel|]. split; [done|]. split.
    + refine (probed_ext _ _ _ _ _ _ _ Hp); [intros h Hh; by rewrite Hix|intros; by rewrite Hhome].
    + intros j Hj. split.
      * intros (h & Hh & E). rewrite Hix in E by done. exists h.
        destruct (decide (h = g)) as [->|]; [rewrite upd_same in E; done|].
        by rewrite upd_other in E.
      * intros (h & Hh & Hhg & E). exists h. split; [done|]. by rewrite Hix, upd_other.
  - subst i'.
    assert (hole (zlen t0) (home t0) d' d' (upd (ixf t) g (ixf t d'))) as Hhole2.
    { apply (hole_move (zlen t0) (home t0)) with (x := g); try done; [intros i1; apply home_slot; lia|by rewrite Hhome]. }
    destruct (IH (set_ie_index t g (ixf t d')) d' (ixf t d')) as (t' & Hf & Hs' & Hp' & Hset); try done.
    + destruct Hhole2 as [H1 H2 H3 H4]. constructor.
      * intros h Hh. rewrite Hix by done. auto.
      * intros h k Hh ?. rewrite Hix by done. intros ? Hk ??. rewrite Hix by done. eauto.
      * intros h h' Hh Hh' ??. rewrite !Hix by done. auto.
      * intros h Hh Hc Hc'. rewrite Hix by done. auto.
    + intros h Hh Hhd. rewrite Hix by done. destruct (decide (h = g)) as [->|].
      * rewrite upd_same. intros _. apply Hobj; done.
      * rewrite upd_other by done. auto.
    + rewrite Hix, upd_other; done.
    + lia.
    + exists t'. split; [done|]. split; [done|]. split; [done|].
      intros j Hj. rewrite Hset by done. split.
      * intros (h & Hh & Hhd & E). rewrite Hix in E by done.
        destruct (decide (h = g)) as [->|]; [rewrite upd_same in E; by exists d'|].
        rewrite upd_other in E by done. by exists h.
      * intros (h & Hh & Hhg & E). destruct (decide (h = d')) as [->|].
        -- exists g. split; [done|]. split; [done|]. by rewrite Hix, upd_same.
        -- exists h. split; [done|]. split; [done|]. by rewrite Hix, upd_other.
Qed.

Lemma local_delete_spec t obj i : table_ok t -> obj <> IO_NULL -> hashed t i -> obj_of t i = obj ->
  ∃ t', ipc_hash_local_delete t (zlen t) obj i = Some t' /\ table_ok t' /\ same_entries t t' /\
    ∀ j, hashed t' j <-> hashed t j /\ j <> i.
Proof.
  intros Hok Hne (Hi0 & g & Hg & Hgi) Ho. pose proof Hok as [Hn Hp Hobj].
  pose proof Hp as [Hi Hpath Hinj].
  unfold ipc_hash_local_delete.
  rewrite (proj2 (Z.eqb_neq i 0)), (proj2 (Z.eqb_neq obj IO_NULL)) by done. cbn [orb].
  assert (0 < i < zlen t) as Hir by (subst i; by apply Hi).
  destruct (entry_at_obj t i) as (en & -> & E); [unfold slot; lia|]. cbn [mbind option_bind].
  rewrite E, Ho, Z.eqb_refl. cbn [negb].
  destruct (probe_full (zlen t) Hn (λ h, e ← entry_at t h; Some (ie_index e =? i))
      (λ h, ixf t h =? i) g (IH_LOCAL_HASH obj (zlen t))) as (r & Hr & Hrs & Hrt & _).
  - intros h Hh. destruct (entry_at_ixf t h Hh) as (e' & -> & E'). simpl. by rewrite E'.
  - done.
  - by apply Z.eqb_eq.
  - unfold IH_LOCAL_HASH, slot. apply Z.mod_pos_bound. lia.
  - rewrite Hr. cbn [mbind option_bind]. apply Z.eqb_eq in Hrt.
    assert (r = g) as -> by (apply Hinj; try done; congruence).
    destruct (free_slot _ Hn _ _ Hp) as (e & He & He0).
    assert (e <> g) as Heg by congruence.
    destruct (fill_hole_spec t e (Z.to_nat (zlen t)) t g i) as (t' & Hf & Hs & Hp' & Hset); try done.
    + by apply hole_start.
    + auto.
    + unfold dist, slot in *. destruct (Z.leb_spec g e); lia.
    + exists t'. split; [done|]. split; [|split; [done|]].
      * eapply table_ok_slots; [done|done|done|done|].
        intros h Hh Hnz. destruct (proj1 (Hset _ Hnz) (ex_intro _ h (conj Hh eq_refl)))
          as (h' & Hh' & _ & E'). rewrite <- E'. apply Hobj; [done|congruence].
      * intros j. unfold hashed. rewrite <- (same_entries_length _ _ Hs). split.
        -- intros (Hj & Hex). apply Hset in Hex as (h & Hh & Hhg & Hhj); [|done].
           split; [split; [done|by exists h]|]. intros ->. apply Hhg, Hinj; congruence.
        -- intros ((Hj & h & Hh & Hhj) & Hji). split; [done|]. apply Hset; [done|].
           exists h. split; [done|]. split; [|done]. intros ->. congruence.
Qed.

(** ** Claims on the local table *)

(** [ipc_hash_local_insert] always finds a free slot, since the
    entry with index 0 is never hashed; it keeps the table well formed, changes
    nothing but a hash slot and adds exactly the given entry. *)
Theorem local_hash_insert_adds t obj i : table_ok t -> obj <> IO_NULL -> 0 < i < zlen t ->
  obj_of t i = obj -> ~ hashed t i ->
  ∃ t', ipc_hash_local_insert t (zlen t) obj i = Some t' /\ table_ok t' /\ same_entries t t' /\
    ∀ j, hashed t' j <-> hashed t j \/ j = i.
Proof. apply local_insert_spec. Qed.

(** C14 (invariant): [ipc_hash_local_delete] terminates without a failed assertion,
    and after it has moved displaced entries into the holes the table is well
    formed, so that every other entry is still found, has changed in its hash
    slots only, and holds exactly the other entries. *)
Theorem local_hash_delete_removes t obj i :
  table_ok t -> obj <> IO_NULL -> hashed t i -> obj_of t i = obj ->
  ∃ t', ipc_hash_local_delete t (zlen t) obj i = Some t' /\ table_ok t' /\ same_entries t t' /\
    ∀ j, hashed t' j <-> hashed t j /\ j <> i.
Proof. apply local_delete_spec. Qed.

(** ** A table with collisions *)

(** Entries 1, 2 and 3 have home slots 0, 0 and 1. *)
Definition demo_objects (slots : list Z) : table :=
  zip_with (λ o i, Entry o 0x10001 0 i) [0; 0x100; 0x200; 0x240] slots.

Lemma empty_table_ok t : 0 < zlen t < 2 ^ 32 -> (∀ h, slot (zlen t) h -> ixf t h = 0) -> table_ok t.
Proof.
  intros Hn H0. constructor; [done|constructor|]; intros h; intros; exfalso;
    pose proof (H0 h ltac:(assumption)); contradiction.
Qed.

Lemma slot4 h : slot 4 h -> h = 0 \/ h = 1 \/ h = 2 \/ h = 3.
Proof. unfold slot. lia. Qed.

Lemma demo_table_ok : table_ok (demo_objects [1; 2; 3; 0]).
Proof.
  assert (table_ok (demo_objects [0; 0; 0; 0])) as H0.
  { apply empty_table_ok; [by vm_compute|]. intros h Hh%slot4. by destruct_or? Hh; subst. }
  assert (∀ t o i t', table_ok t -> o <> IO_NULL -> 0 < i < zlen t -> obj_of t i = o ->
    (∀ h, slot (zlen t) h -> ixf t h <> i) -> ipc_hash_local_insert t (zlen t) o i = Some t' ->
    table_ok t') as Hstep.
  { intros t o i t' Ht Ho Hi Hoi Hnew E.
    destruct (local_insert_spec t o i) as (t'' & E'' & ? & _); try done.
    - intros (_ & h & Hh & Hhi). by apply (Hnew h).
    - congruence. }
  assert (table_ok (demo_objects [1; 0; 0; 0])) as H1.
  { apply (Hstep (demo_objects [0; 0; 0; 0]) 0x100 1); try done.
    intros h Hh%slot4. by destruct_or? Hh; subst. }
  assert (table_ok (demo_objects [1; 2; 0; 0])) as H2.
  { apply (Hstep (demo_objects [1; 0; 0; 0]) 0x200 2); try done.
    intros h Hh%slot4. by destruct_or? Hh; subst. }
  apply (Hstep (demo_objects [1; 2; 0; 0]) 0x240 3); try done.
  intros h Hh%slot4. by destruct_or? Hh; subst.
Qed.

Lemma local_hash_insert_adds_witness :
  ∃ t', ipc_hash_local_insert (demo_objects [0; 0; 0; 0]) 4 0x200 2 = Some t' /\ table_ok t'.
Proof.
  destruct (local_hash_insert_adds (demo_objects [0; 0; 0; 0]) 0x200 2) as (t' & E & H & _).
  - apply empty_table_ok; [by vm_compute|]. intros h Hh%slot4. by destruct_or? Hh; subst.
  - done.
  - done.
  - done.
  - intros (_ & h & Hh%slot4 & E). by destruct_or? Hh; subst.
  - exists t'. split; [exact E|exact H].
Defined.

Lemma local_hash_delete_removes_witness :
  ∃ t', ipc_hash_local_delete (demo_objects [1; 2; 3; 0]) 4 0x100 1 = Some t' /\
        table_ok t' /\ ixf t' 0 = 2.
Proof.
  destruct (local_hash_delete_removes (demo_objects [1; 2; 3; 0]) 0x100 1 demo_table_ok)
    as (t' & E & H & _).
  - done.
  - split; [done|]. by exists 0.
  - done.
  - exists t'. split; [exact E|]. split; [exact H|].
    assert (Some t' = Some (demo_objects [2; 3; 0; 0])) as [= ->]; [|reflexivity].
    rewrite <- E. reflexivity.
Defined.

(** * Names *)

(** A name is its index and the low byte of the generation. *)
Lemma MACH_PORT_INDEX_MAKE index gen : in_range 24 index -> in_range 32 gen ->
  MACH_PORT_INDEX (MACH_PORT_MAKE index gen) = index.
Proof.
  unfold in_range. intros Hi Hg. unfold MACH_PORT_INDEX, MACH_PORT_MAKE.
  rewrite Z.shiftr_lor, Z.shiftr_shiftr by lia.
  rewrite wrap_small by (unfold in_range; rewrite Z.shiftl_mul_pow2; lia).
  rewrite Z.shiftr_shiftl_l by lia. change (8 - 8) with 0. rewrite Z.shiftl_0_r.
  rewrite (Z.shiftr_div_pow2 gen) by lia. change (24 + 8) with 32.
  rewrite Z.div_small by lia. apply Z.lor_0_r.
Qed.

(** * The global table *)

(** ** Its size *)

Lemma land_succ_pow2 m : 0 <= m -> (m + 1) &&& m = 0 -> ∃ k, 0 <= k /\ m + 1 = 2 ^ k.
Proof.
  intros Hm E. pose proof (Z.log2_spec (m + 1) ltac:(lia)) as [Hlo Hhi].
  set (k := Z.log2 (m + 1)) in *. assert (0 <= k) by apply Z.log2_nonneg.
  exists k. split; [done|]. destruct (decide (m + 1 = 2 ^ k)) as [|Hne]; [done|exfalso].
  assert (Z.log2 m = k) as Hk by (apply Z.log2_unique; lia).
  assert (Z.testbit ((m + 1) &&& m) k = true) as Hbit.
  { rewrite Z.land_spec. apply andb_true_iff. split.
    - apply Z.bit_log2. lia.
    - rewrite <- Hk. apply Z.bit_log2. pose proof (Z.pow_pos_nonneg 2 k). lia. }
  by rewrite E, Z.bits_0 in Hbit.
Qed.

Lemma lor_lt_pow2 a b n : 0 <= a < 2 ^ n -> 0 <= b < 2 ^ n -> 0 <= a ||| b < 2 ^ n.
Proof.
  intros Ha Hb. assert (0 <= n) by (destruct (Z.neg_nonneg_cases n); [rewrite Z.pow_neg_r in Ha; lia|done]).
  split; [apply Z.lor_nonneg; lia|].
  destruct (decide (a ||| b = 0)) as [->|]; [lia|].
  apply Z.log2_lt_pow2; [assert (0 <= a ||| b) by (apply Z.lor_nonneg; lia); lia|].
  rewrite Z.log2_lor by lia.
  destruct (decide (a = 0)) as [->|], (decide (b = 0)) as [->|]; simpl;
    rewrite ?Z.max_l, ?Z.max_r by apply Z.log2_nonneg; try done.
  - apply Z.log2_lt_pow2; lia.
  - apply Z.log2_lt_pow2; lia.
  - apply Z.max_lub_lt; apply Z.log2_lt_pow2; lia.
Qed.

Lemma le_lor a b : 0 <= a -> 0 <= b -> a <= a ||| b.
Proof.
  intros Ha Hb. pose proof (Z.add_lor_land a b). assert (a &&& b <= b); [|lia].
  pose proof (Z.add_lor_land (a &&& b) (Z.ldiff b a)) as E.
  assert ((a &&& b) &&& Z.ldiff b a = 0) as E0.
  { apply Z.bits_inj'. intros i _. rewrite !Z.land_spec, Z.ldiff_spec, Z.bits_0.
    by destruct (Z.testbit a i), (Z.testbit b i). }
  assert ((a &&& b) ||| Z.ldiff b a = b) as E1.
  { apply Z.bits_inj'. intros i _. rewrite !Z.lor_spec, !Z.land_spec, Z.ldiff_spec.
    by destruct (Z.testbit a i), (Z.testbit b i). }
  assert (0 <= Z.ldiff b a) by (apply Z.ldiff_nonneg; by left). lia.
Qed.

Lemma ones_below m j : 0 <= m < 2 ^ j -> 0 <= j -> (∀ i, 0 <= i < j -> Z.testbit m i = true) ->
  m = 2 ^ j - 1.
Proof.
  intros Hm Hj Hb. replace (2 ^ j - 1) with (Z.ones j) by (rewrite Z.ones_equiv; lia).
  apply Z.bits_inj'. intros i Hi. destruct (Z.ltb_spec i j).
  - rewrite Hb, Z.ones_spec_low by lia. done.
  - rewrite Z.ones_spec_high by lia. destruct (decide (m = 0)) as [->|]; [apply Z.bits_0|].
    apply Z.bits_above_log2; [lia|].
    assert (Z.log2 m < j) by (apply Z.log2_lt_pow2; lia). lia.
Qed.

(** Rounding up ends before the mask outgrows 31 bits. *)
Lemma round_up_spec : ∀ fuel j m, (31 <= Z.of_nat fuel + j) -> 0 <= j <= 30 ->
  0 <= m < 2 ^ 31 -> (∀ i, 0 <= i < j -> Z.testbit m i = true) ->
  ∃ k, 0 <= k <= 31 /\ round_up fuel (2 ^ j) m = Some (2 ^ k, 2 ^ k - 1) /\ m < 2 ^ k.
Proof.
  induction fuel as [|fuel IH]; intros j m Hf Hj Hm Hb; [lia|].
  assert (0 <= 2 ^ j < 2 ^ 31) as Hp by (split; [lia|apply Z.pow_lt_mono_r; lia]).
  pose proof (lor_lt_pow2 m (2 ^ j) 31 Hm Hp) as Hm'.
  pose proof (le_lor m (2 ^ j) ltac:(lia) ltac:(lia)) as Hle.
  assert (∀ i, 0 <= i < j + 1 -> Z.testbit (m ||| 2 ^ j) i = true) as Hb'.
  { intros i Hi. rewrite Z.lor_spec. destruct (decide (i = j)) as [->|].
    - rewrite Z.pow2_bits_true by lia. apply orb_true_r.
    - rewrite Hb by lia. done. }
  cbn [round_up]. set (m' := m ||| 2 ^ j) in *.
  rewrite (wrap_small 32 (m' + 1)) by (unfold in_range; lia).
  destruct (Z.eqb_spec ((m' + 1) &&& m') 0) as [E|E].
  - destruct (land_succ_pow2 m' ltac:(lia) E) as (k & Hk & Hk').
    exists k. split; [|split; [|lia]].
    + split; [done|]. apply (Z.pow_le_mono_r_iff 2); lia.
    + rewrite Hk'. do 2 f_equal. lia.
  - destruct (decide (j = 30)) as [->|].
    { exfalso. apply E. rewrite (ones_below m' 31) by (done || lia). reflexivity. }
    rewrite Z.shiftl_mul_pow2, wrap_small by (try unfold in_range; lia).
    replace (2 ^ j * 2 ^ 1) with (2 ^ (j + 1)) by (rewrite Z.pow_add_r; lia).
    destruct (IH (j + 1) m') as (k & ? & ? & ?); try done; try lia.
    exists k. split; [done|]. split; [done|lia].
Qed.

(** The number of buckets asked for. *)
Definition requested (ipc_hash_global_size ipc_tree_entry_max : Z) : Z :=
  if ipc_hash_global_size =? 0 then Z.max 32 (Z.shiftr ipc_tree_entry_max 8)
  else ipc_hash_global_size.

Lemma hash_init_spec gs mx : 0 < requested gs mx <= 2 ^ 31 ->
  ∃ k, 0 <= k <= 31 /\
    ipc_hash_init gs mx = Some (2 ^ k, 2 ^ k - 1, replicate (Z.to_nat (2 ^ k)) []) /\
    requested gs mx <= 2 ^ k.
Proof.
  intros Hr. unfold ipc_hash_init. cbv zeta.
  assert ((if gs =? 0 then if Z.shiftr mx 8 <? 32 then 32 else Z.shiftr mx 8 else gs)
    = requested gs mx) as ->.
  { unfold requested. destruct (gs =? 0); [|done].
    destruct (Z.ltb_spec (Z.shiftr mx 8) 32); lia. }
  set (s := requested gs mx) in *.
  rewrite (wrap_small 32 (s - 1)) by (unfold in_range; lia).
  destruct (Z.eqb_spec (s &&& (s - 1)) 0) as [E|E]; cbn [negb].
  - destruct (land_succ_pow2 (s - 1)) as (k & Hk & Hk'); [lia|by rewrite Z.sub_add|].
    rewrite Z.sub_add in Hk'. exists k. rewrite <- Hk'. split; [|by split; [|lia]].
    split; [done|]. apply (Z.pow_le_mono_r_iff 2); lia.
  - destruct (round_up_spec 32 0 (s - 1)) as (k & Hk & Hrk & Hlt); try lia.
    exists k. change (2 ^ 0) with 1 in Hrk. rewrite Hrk. cbn [mbind option_bind].
    split; [done|]. split; [done|lia].
Qed.

(** ** Its buckets *)

(** Buckets hold entries that hash to them; their number is a power of two. *)
Record buckets_ok (g : buckets) : Prop := {
  buckets_pow2 : ∃ k, 0 <= k <= 31 /\ zlen g = 2 ^ k;
  buckets_home b l e : g !! b = Some l -> e ∈ l -> bucket_of g (ite_space e) (ite_object e) = b }.

Lemma bucket_of_lt g space obj : buckets_ok g -> (bucket_of g space obj < length g)%nat.
Proof.
  intros [(k & Hk & Hlen) _]. unfold bucket_of, IH_GLOBAL_HASH. rewrite Hlen.
  replace (2 ^ k - 1) with (Z.ones k) by (rewrite Z.ones_equiv; lia).
  rewrite Z.land_ones by lia. pose proof (Z.mod_pos_bound (u32 (Z.shiftr space 4 + Z.shiftr obj 6)) (2 ^ k)).
  pose proof (Z.pow_pos_nonneg 2 k). lia.
Qed.

Lemma unlink_spec p l : match unlink p l with
  | Some (e, l') => p e = true /\ l ≡ₚ e :: l' /\ e ∈ l
  | None => ∀ e, e ∈ l -> p e = false
  end.
Proof.
  induction l as [|e l IH]; simpl; [by intros ? ?%elem_of_nil|].
  destruct (p e) eqn:E.
  - split; [done|]. split; [done|by left].
  - destruct (unlink p l) as [[x l']|]; simpl.
    + destruct IH as (? & Hp & ?). split; [done|]. split; [|by right].
      rewrite Hp. apply Permutation_swap.
    + intros e' [->|?]%elem_of_cons; auto.
Qed.

(** The entries of all buckets. *)
Definition all_entries (g : buckets) : list tree_entry := mjoin g.

Lemma entries_bucket g b l : g !! b = Some l ->
  all_entries g ≡ₚ l ++ all_entries (take b g ++ drop (S b) g).
Proof.
  intros H. unfold all_entries. rewrite <- (take_drop_middle g b l H) at 1.
  rewrite !join_app. simpl. by rewrite !app_assoc, (Permutation_app_comm l).
Qed.

Lemma entries_insert g b l l' : g !! b = Some l ->
  all_entries (<[b := l']> g) ≡ₚ l' ++ all_entries (take b g ++ drop (S b) g).
Proof.
  intros H. assert (b < length g)%nat by (by eapply lookup_lt_Some).
  rewrite (entries_bucket (<[b := l']> g) b l') by (by apply list_lookup_insert_eq).
  by rewrite take_insert_ge, drop_insert_lt by lia.
Qed.

Lemma elem_of_entries g e : e ∈ all_entries g <-> ∃ b l, g !! b = Some l /\ e ∈ l.
Proof.
  unfold all_entries. rewrite list_elem_of_join. split.
  - intros (l & He & [b Hb]%list_elem_of_lookup_1). by exists b, l.
  - intros (b & l & Hb & He). exists l. split; [done|]. by eapply list_elem_of_lookup_2.
Qed.

Lemma bucket_of_insert g b l space obj : bucket_of (<[b := l]> g) space obj = bucket_of g space obj.
Proof. unfold bucket_of. by rewrite length_insert. Qed.

Lemma buckets_ok_insert g b l : buckets_ok g ->
  (∀ e, e ∈ l -> bucket_of g (ite_space e) (ite_object e) = b) -> buckets_ok (<[b := l]> g).
Proof.
  intros [Hp Hh] Hl. constructor; [by rewrite length_insert|].
  intros b' l' e Hb' He. rewrite bucket_of_insert.
  apply list_lookup_insert_Some in Hb' as [(<- & <- & _)|(_ & Hb')]; [auto|eauto].
Qed.

(** Entries for [space] and [obj] can only be in their bucket. *)
Lemma for_in_bucket g space obj e : buckets_ok g -> e ∈ all_entries g -> is_for space obj e = true ->
  ∃ l, g !! bucket_of g space obj = Some l /\ e ∈ l.
Proof.
  intros [_ Hh] (b & l & Hb & He)%elem_of_entries Hf.
  unfold is_for in Hf. apply andb_true_iff in Hf as [<-%Z.eqb_eq <-%Z.eqb_eq].
  exists l. by rewrite (Hh b l e Hb He).
Qed.

Lemma global_lookup_spec g space obj : buckets_ok g -> space <> 0 -> obj <> IO_NULL ->
  ∃ r g', ipc_hash_global_lookup g space obj = Some (r, g') /\ buckets_ok g' /\
    all_entries g' ≡ₚ all_entries g /\
    match r with
    | Some e => e ∈ all_entries g /\ is_for space obj e = true
    | None => ∀ e, e ∈ all_entries g -> is_for space obj e = false
    end.
Proof.
  intros Hok Hs Ho. unfold ipc_hash_global_lookup.
  rewrite (proj2 (Z.eqb_neq space 0)), (proj2 (Z.eqb_neq obj IO_NULL)) by done. cbn [orb].
  destruct (lookup_lt_is_Some_2 g (bucket_of g space obj)) as [l Hl]; [by apply bucket_of_lt|].
  rewrite Hl. cbn [mbind option_bind].
  assert (∀ e, e ∈ l -> e ∈ all_entries g) as Hin by (intros; apply elem_of_entries; eauto).
  assert ((∀ e, e ∈ l -> is_for space obj e = false) ->
          ∀ e, e ∈ all_entries g -> is_for space obj e = false) as Hnone.
  { intros Hno e He. destruct (is_for space obj e) eqn:E; [|done].
    destruct (for_in_bucket g space obj e Hok He E) as (l' & Hl' & He').
    rewrite Hl in Hl'. injection Hl' as <-. rewrite <- E. by apply Hno. }
  destruct l as [|this rest].
  { exists None, g. split; [done|]. split; [done|]. split; [done|]. apply Hnone.
    by intros ? ?%elem_of_nil. }
  destruct (is_for space obj this) eqn:Ht.
  { exists (Some this), g. split; [done|]. split; [done|]. split; [done|]. split; [|done].
    apply Hin. by left. }
  pose proof (unlink_spec (is_for space obj) rest) as Hu.
  destruct (unlink (is_for space obj) rest) as [[found rest']|].
  - destruct Hu as (Hf & Hp & He).
    exists (Some found), (<[bucket_of g space obj := found :: this :: rest']> g).
    assert (found :: this :: rest' ≡ₚ this :: rest) as Hperm
      by (rewrite Hp; apply Permutation_swap).
    split; [done|]. split; [|split; [|split; [apply Hin; by right|done]]].
    + apply buckets_ok_insert; [done|]. intros e. rewrite Hperm. intros Hel.
      by apply (buckets_home g Hok _ _ _ Hl).
    + rewrite (entries_insert _ _ _ _ Hl), Hperm. symmetry. by apply entries_bucket.
  - exists None, g. split; [done|]. split; [done|]. split; [done|]. apply Hnone.
    intros e [->|?]%elem_of_cons; auto.
Qed.

Lemma global_insert_spec s g obj name e : buckets_ok g ->
  is_fast s = false -> ite_name e = name -> is_addr s <> 0 -> ite_space e = is_addr s ->
  obj <> IO_NULL -> ite_object e = obj -> 0 <= is_tree_hash s < is_tree_total s ->
  is_tree_total s < 2 ^ 32 ->
  ∃ g', ipc_hash_global_insert s g obj name e =
          Some (set_is_tree_hash s (is_tree_hash s + 1), g') /\
    buckets_ok g' /\ all_entries g' ≡ₚ e :: all_entries g.
Proof.
  intros Hok Hf Hn Ha Hsp Ho Hobj Hh Ht. unfold ipc_hash_global_insert.
  rewrite Hf, Hn, Hsp, Hobj, !Z.eqb_refl, (proj2 (Z.eqb_neq _ 0)), (proj2 (Z.eqb_neq obj IO_NULL)) by done.
  cbn [orb negb]. rewrite wrap_small by (unfold in_range; lia).
  cbn [set_is_tree_hash is_tree_total is_tree_hash is_addr].
  destruct (Z.ltb_spec (is_tree_total s) (is_tree_hash s + 1)); [lia|].
  destruct (lookup_lt_is_Some_2 g (bucket_of g (is_addr s) obj)) as [l Hl]; [by apply bucket_of_lt|].
  rewrite Hl. cbn [mbind option_bind]. eexists. split; [done|]. split.
  - apply buckets_ok_insert; [done|]. intros e' [->|He']%elem_of_cons; [by rewrite Hsp, Hobj|].
    by apply (buckets_home g Hok _ _ _ Hl).
  - rewrite (entries_insert _ _ _ _ Hl). simpl. f_equiv. symmetry. by apply entries_bucket.
Qed.

Lemma global_delete_spec s g obj name e : buckets_ok g ->
  is_fast s = false -> ite_name e = name -> is_addr s <> 0 -> ite_space e = is_addr s ->
  obj <> IO_NULL -> ite_object e = obj -> 0 < is_tree_hash s < 2 ^ 32 -> e ∈ all_entries g ->
  ∃ g', ipc_hash_global_delete s g obj name e =
          Some (set_is_tree_hash s (is_tree_hash s - 1), g') /\
    buckets_ok g' /\ e :: all_entries g' ≡ₚ all_entries g.
Proof.
  intros Hok Hf Hn Ha Hsp Ho Hobj Hh He. unfold ipc_hash_global_delete.
  rewrite Hf, Hn, Hsp, Hobj, !Z.eqb_refl, (proj2 (Z.eqb_neq _ 0)), (proj2 (Z.eqb_neq obj IO_NULL)) by done.
  rewrite (proj2 (Z.ltb_lt 0 _)) by lia.
  cbn [orb negb]. rewrite wrap_small by (unfold in_range; lia).
  cbn [set_is_tree_hash is_addr].
  destruct (for_in_bucket g (is_addr s) obj e Hok He) as (l & Hl & Hel).
  { unfold is_for. by rewrite Hsp, Hobj, !Z.eqb_refl. }
  rewrite Hl. cbn [mbind option_bind].
  pose proof (unlink_spec (λ x, bool_decide (x = e)) l) as Hu.
  destruct (unlink _ l) as [[x l']|].
  - destruct Hu as (->%bool_decide_eq_true & Hp & _). cbn [mbind option_bind].
    eexists. split; [done|]. split.
    + apply buckets_ok_insert; [done|]. intros e' He'. apply (buckets_home g Hok _ _ _ Hl).
      rewrite Hp. by right.
    + rewrite (entries_insert _ _ _ _ Hl), (entries_bucket _ _ _ Hl), Hp. done.
  - specialize (Hu e Hel). by apply bool_decide_eq_false in Hu.
Qed.

(** * The reverse map of a space *)

Definition tree_entries (s : space) (g : buckets) : list tree_entry :=
  filter (λ e, ite_space e = is_addr s) (all_entries g).

(** A space and the global table agree. *)
Record space_ok (s : space) (g : buckets) : Prop := {
  space_table : table_ok (is_table s);
  space_size : is_table_size s = zlen (is_table s);
  space_buckets : buckets_ok g;
  space_addr : is_addr s <> 0;
  space_count : is_tree_hash s = zlen (tree_entries s g);
  space_total : is_tree_hash s <= is_tree_total s < 2 ^ 32;
  space_fast : is_fast s = true -> is_tree_hash s = 0 }.

(** The space's reverse hash tables hold [entry] under [name] for [obj]. *)
Definition maps_to (s : space) (g : buckets) (obj name : Z) (entry : entry_ptr) : Prop :=
  match entry with
  | InTable i => hashed (is_table s) i /\ obj_of (is_table s) i = obj /\
      name = MACH_PORT_MAKE i (IE_BITS_GEN (from_option ie_bits 0 (entry_at (is_table s) i)))
  | InTree e => e ∈ all_entries g /\ is_for (is_addr s) obj e = true /\ name = ite_name e
  end.

Lemma tree_entries_perm s g g' : all_entries g' ≡ₚ all_entries g ->
  zlen (tree_entries s g') = zlen (tree_entries s g).
Proof. intros H. unfold tree_entries. by rewrite H. Qed.

Lemma is_for_space space obj e : is_for space obj e = true -> ite_space e = space /\ ite_object e = obj.
Proof. unfold is_for. rewrite andb_true_iff, !Z.eqb_eq. tauto. Qed.

(** [ipc_hash_lookup] fails no assertion, finds an entry of the
    space for the object, with its name, exactly when the local table or the
    global one holds one, and only reorders a bucket. *)
Theorem hash_lookup_exact s g obj : space_ok s g -> obj <> IO_NULL ->
  ∃ r g', ipc_hash_lookup s g obj = Some (r, g') /\ space_ok s g' /\
    all_entries g' ≡ₚ all_entries g /\
    match r with
    | Some (name, entry) => maps_to s g obj name entry
    | None => ∀ name entry, ~ maps_to s g obj name entry
    end.
Proof.
  intros [Ht Hsz Hb Ha Hc Htot Hfast] Ho. unfold ipc_hash_lookup. rewrite Hsz.
  destruct (local_lookup_spec _ obj Ht Ho) as (r & -> & Hr). cbn [mbind option_bind].
  destruct r as [[name i]|].
  { exists (Some (name, InTable i)), g. split; [done|]. split; [by constructor|]. done. }
  assert ((∀ e, e ∈ all_entries g -> is_for (is_addr s) obj e = false) ->
          ∀ name entry, ~ maps_to s g obj name entry) as Hnone.
  { intros Hno name [i|e]; [by intros (? & ? & _); eapply Hr|]. intros (He & Hf & _).
    by rewrite Hno in Hf. }
  destruct (is_fast s && negb (is_tree_hash s =? 0)) eqn:Ef.
  { apply andb_true_iff in Ef as [Ef E0]. rewrite Hfast in E0 by done. done. }
  destruct (Z.ltb_spec 0 (is_tree_hash s)) as [Hpos|Hz].
  - destruct (global_lookup_spec g (is_addr s) obj Hb Ha Ho) as (r & g' & -> & Hb' & Hp & Hr').
    cbn [mbind option_bind]. eexists _, g'. split; [done|].
    split; [constructor; try done; rewrite Hc; symmetry; by apply tree_entries_perm|].
    split; [done|]. destruct r as [e|]; [|by apply Hnone]. destruct Hr'. done.
  - exists None, g. split; [done|]. split; [by constructor|]. split; [done|]. apply Hnone.
    intros e He. destruct (is_for (is_addr s) obj e) eqn:Hf; [|done]. exfalso.
    apply is_for_space in Hf as [Hf _].
    assert (e ∈ tree_entries s g) as Hin by (by apply list_elem_of_filter).
    destruct (tree_entries s g); [by apply elem_of_nil in Hin|]. simpl in Hc. lia.
Qed.

(** [ipc_hash_insert] and [ipc_hash_delete] pick the table by the
    entry's place, fail no assertion, keep the space's tables consistent, and add
    or remove that entry only: here an insertion of a fresh tree entry into a slow
    space and its deletion. *)
Theorem hash_insert_delete_tree s g obj e : space_ok s g -> obj <> IO_NULL ->
  is_fast s = false -> is_tree_hash s < is_tree_total s ->
  ite_space e = is_addr s -> ite_object e = obj ->
  ∃ s1 g1, ipc_hash_insert s g obj (ite_name e) (InTree e) = Some (s1, g1) /\ space_ok s1 g1 /\
    (∀ o n x, maps_to s1 g1 o n x <-> maps_to s g o n x \/ (o = obj /\ n = ite_name e /\ x = InTree e)) /\
    ∃ s2 g2, ipc_hash_delete s1 g1 obj (ite_name e) (InTree e) = Some (s2, g2) /\ space_ok s2 g2 /\
      s2 = s /\ all_entries g2 ≡ₚ all_entries g.
Proof.
  intros [Ht Hsz Hb Ha Hc Htot Hfast] Ho Hf Hlt Hsp Hobj.
  destruct (global_insert_spec s g obj (ite_name e) e) as (g1 & E1 & Hb1 & Hp1); try done; [lia..|].
  exists (set_is_tree_hash s (is_tree_hash s + 1)), g1.
  split; [by unfold ipc_hash_insert; cbn [is_local]; rewrite Hf|].
  assert (zlen (tree_entries s g1) = is_tree_hash s + 1) as Hc1.
  { unfold tree_entries. rewrite Hp1, filter_cons_True by done.
    rewrite Hc, length_cons. unfold tree_entries. lia. }
  split; [constructor; try done; simpl; [lia|by rewrite Hf]|]. split.
  - intros o n [i|x]; simpl.
    + split; [by left|]. intros [?|(_ & _ & [=])]. done.
    + rewrite Hp1, elem_of_cons. split.
      * intros ([->|?] & Hfor & ->); [|by left]. right.
        apply is_for_space in Hfor as [_ <-]. by rewrite Hobj.
      * intros [(? & ? & ?)|(-> & -> & [= ->])]; [split; [by right|done]|].
        split; [by left|]. split; [|done].
        unfold is_for. by rewrite Hsp, Hobj, !Z.eqb_refl.
  - destruct (global_delete_spec (set_is_tree_hash s (is_tree_hash s + 1)) g1 obj (ite_name e) e)
      as (g2 & E2 & Hb2 & Hp2); try done; [simpl; lia|rewrite Hp1; by left|].
    exists s, g2. split; [|split; [|split; [done|]]].
    + unfold ipc_hash_delete. cbn [is_local]. cbn [set_is_tree_hash is_fast]. rewrite Hf, E2.
      cbn [is_tree_hash set_is_tree_hash is_addr is_table is_table_size is_tree_total is_fast].
      rewrite Z.add_simpl_r. by destruct s.
    + constructor; try done. rewrite Hc. symmetry. apply tree_entries_perm.
      apply (Permutation_cons_inv (a := e)). by rewrite Hp2, Hp1.
    + apply (Permutation_cons_inv (a := e)). by rewrite Hp2, Hp1.
Qed.

(** For every configuration up to 2^31 buckets [ipc_hash_init] ends
    with a power of two at least as large as asked for, the matching mask, and
    consistent empty buckets. *)
Theorem hash_init_ok gs mx : 0 < requested gs mx <= 2 ^ 31 ->
  ∃ k g, 0 <= k <= 31 /\ ipc_hash_init gs mx = Some (2 ^ k, 2 ^ k - 1, g) /\
    requested gs mx <= 2 ^ k /\ zlen g = 2 ^ k /\ buckets_ok g /\ all_entries g = [].
Proof.
  intros H. destruct (hash_init_spec gs mx H) as (k & Hk & E & Hle).
  exists k, (replicate (Z.to_nat (2 ^ k)) []). pose proof (Z.pow_pos_nonneg 2 k).
  assert (zlen (replicate (Z.to_nat (2 ^ k)) ([] : list tree_entry)) = 2 ^ k) as Hlen
    by (rewrite length_replicate; lia).
  split; [done|]. split; [done|]. split; [done|]. split; [done|]. split.
  - constructor; [by exists k|]. intros b l e [-> _]%lookup_replicate_1 ?%elem_of_nil. done.
  - unfold all_entries. apply join_nil. by apply Forall_replicate.
Qed.

Lemma hash_init_ok_witness : ∃ k g, ipc_hash_init 0 100000 = Some (2 ^ k, 2 ^ k - 1, g).
Proof.
  destruct (hash_init_ok 0 100000 ltac:(vm_compute; split; [done|discriminate]))
    as (k & g & _ & E & _).
  exists k, g. exact E.
Defined.

Definition demo_space : space := Space 0x8000 (demo_objects [1; 2; 3; 0]) 4 5 1 false.
Definition demo_entry : tree_entry := TreeEntry 1 0x90001 0x8000 0x340.
Definition demo_buckets : buckets := [[]; [demo_entry]; []; []].

Lemma demo_buckets_ok : buckets_ok demo_buckets.
Proof.
  constructor; [exists 2; done|]. intros b l e Hb He.
  do 4 (destruct b as [|b]; [injection Hb as <-;
    first [by apply elem_of_nil in He | apply list_elem_of_singleton in He as ->; reflexivity]|]).
  done.
Qed.

Lemma demo_space_ok : space_ok demo_space demo_buckets.
Proof.
  constructor; try done; [apply demo_table_ok|apply demo_buckets_ok].
Qed.

Lemma hash_lookup_exact_witness :
  ∃ r g', ipc_hash_lookup demo_space demo_buckets 0x340 = Some (r, g') /\
    r = Some (0x90001, InTree demo_entry).
Proof.
  destruct (hash_lookup_exact demo_space demo_buckets 0x340 demo_space_ok ltac:(done))
    as (r & g' & E & _).
  exists r, g'. split; [exact E|]. vm_compute in E. by injection E.
Defined.

Lemma hash_insert_delete_tree_witness :
  let e := TreeEntry 2 0x90005 0x8000 0x440 in
  ∃ s1 g1, ipc_hash_insert demo_space demo_buckets 0x440 0x90005 (InTree e) = Some (s1, g1) /\
    maps_to s1 g1 0x440 0x90005 (InTree e).
Proof.
  intros e. destruct (hash_insert_delete_tree demo_space demo_buckets 0x440 e demo_space_ok)
    as (s1 & g1 & E & _ & H & _); try done.
  exists s1, g1. split; [exact E|]. apply H. by right.
Defined.

End IpcHash.
