(* ===== verification/IpcTable.v ===== *)
(** The sizes of the tables of IPC capabilities, osfmk/ipc/ipc_table.c: the arrays
    [ipc_table_entries] and [ipc_table_dnrequests] that entry tables and tables of
    dead-name requests grow along, and the properties the header file promises of
    them, as the interface [RequestSizes] its clients rely on.

    [vm_size_t] has [w] bits, 32 or 64; the allocation routines of the file only
    call the kernel allocators and are left out. *)

From stdpp Require Import sorting.
From S2P Require Import Prelude.

Module IpcTable.

Definition PAGE_SIZE : Z := 4096.

(** The loop over the powers of two below the page size, in [ipc_table_fill]
    (osfmk/ipc/ipc_table.c, 98-105).  [its] is the array filled so far. *)
Fixpoint fill_powers (fuel : nat) (w num minsize elemsize : Z) (its : list Z) (size : Z)
    : option (list Z * Z) :=
  match fuel with
  | O => None
  | S fuel =>
      if (zlen its <? num) && (size <? PAGE_SIZE) then
        let its := if minsize <=? size then its ++ [u32 (size / elemsize)] else its in
        fill_powers fuel w num minsize elemsize its (wrap w (Z.shiftl size 1))
      else Some (its, size)
  end.

(** One period of at most fifteen equal increments, in [ipc_table_fill]
    (osfmk/ipc/ipc_table.c, 112-119). *)
Fixpoint fill_period (periods : nat) (w num minsize elemsize incrsize : Z)
    (its : list Z) (size : Z) : list Z * Z :=
  match periods with
  | O => (its, size)
  | S periods =>
      if zlen its <? num then
        let its := if minsize <=? size then its ++ [u32 (size / elemsize)] else its in
        fill_period periods w num minsize elemsize incrsize its (wrap w (size + incrsize))
      else (its, size)
  end.

(** The loop over increments of a page, then two pages, and so on, in
    [ipc_table_fill] (osfmk/ipc/ipc_table.c, 109-122). *)
Fixpoint fill_pages (fuel : nat) (w num minsize elemsize incrsize : Z)
    (its : list Z) (size : Z) : option (list Z) :=
  if zlen its <? num then
    match fuel with
    | O => None
    | S fuel =>
        let '(its, size) := fill_period 15 w num minsize elemsize incrsize its size in
        let incrsize := if incrsize <? Z.shiftl PAGE_SIZE 3 then wrap w (Z.shiftl incrsize 1)
                        else incrsize in
        fill_pages fuel w num minsize elemsize incrsize its size
    end
  else Some its.

(** [ipc_table_fill] (osfmk/ipc/ipc_table.c, 85-123). *)
Definition ipc_table_fill (w num min elemsize : Z) : option (list Z) :=
  let minsize := wrap w (min * elemsize) in
  '(its, size) ← fill_powers 13 w num minsize elemsize [] 1;
  fill_pages (Z.to_nat (num + minsize)) w num minsize elemsize PAGE_SIZE its size.

Definition ipc_table_entries_size : Z := 512.
Definition ipc_table_dnrequests_size : Z := 64.

(** [ipc_table_init] (osfmk/ipc/ipc_table.c, 125-156): both arrays, for the sizes of
    [struct ipc_entry] and [struct ipc_port_request]. *)
Definition ipc_table_init (w entry_size request_size : Z) : option (list Z * list Z) :=
  entries ← ipc_table_fill w (ipc_table_entries_size - 1) 16 entry_size;
  last_size ← last entries;
  dnrequests ← ipc_table_fill w (ipc_table_dnrequests_size - 1) 2 request_size;
  Some (entries ++ [last_size], dnrequests ++ [0]).

(** What a table of dead-name requests relies on: sizes of at least two elements,
    strictly increasing, then a zero. *)
Class RequestSizes (its : list Z) := {
  rs_sizes : list Z;
  rs_last : its = rs_sizes ++ [0];
  rs_first : Forall (λ z, 2 <= z) rs_sizes;
  rs_incr : StronglySorted Z.lt rs_sizes }.

(** Neighbours of a strictly increasing list. *)
Lemma sorted_next (l : list Z) k a b : StronglySorted Z.lt l -> l !! k = Some a -> l !! S k = Some b -> a < b.
Proof.
  intros Hs Ha Hb. rewrite <- (take_drop (S k) l) in Hs.
  apply (StronglySorted_app_1_elem_of _ _ _ a b Hs).
  - apply list_elem_of_lookup. exists k. by rewrite lookup_take_lt by lia.
  - apply list_elem_of_lookup. exists 0%nat. by rewrite lookup_drop, Nat.add_0_r.
Qed.

(** What the entry table of a space relies on: sizes within the indices of names that never
    decrease, with a size after every one that is larger than the one before it. *)
Class EntrySizes (its : list Z) := {
  es_range k a : its !! k = Some a -> 0 < a < 2 ^ 24;
  es_le k a b : its !! k = Some a -> its !! S k = Some b -> a <= b;
  es_more k a b : its !! k = Some a -> its !! S k = Some b -> a < b -> is_Some (its !! S (S k)) }.

Lemma entry_sizes es e : StronglySorted Z.lt es -> last es = Some e ->
  Forall (λ z, 0 < z < 2 ^ 24) es -> EntrySizes (es ++ [e]).
Proof.
  intros Hs He Hf. pose proof He as [es' ->]%last_Some.
  assert (Hlen : length ((es' ++ [e]) ++ [e]) = S (S (length es'))) by (rewrite !length_app; simpl; lia).
  assert (Hlast : ((es' ++ [e]) ++ [e]) !! S (length es') = Some e)
    by (rewrite lookup_app_r by (rewrite length_app; simpl; lia);
        rewrite length_app; simpl; by rewrite Nat.add_1_r, Nat.sub_diag).
  assert (Hprev : ((es' ++ [e]) ++ [e]) !! length es' = Some e)
    by (rewrite <- app_assoc, lookup_app_r, Nat.sub_diag by lia; done).
  split.
  - assert (Hf2 : Forall (λ z, 0 < z < 2 ^ 24) ((es' ++ [e]) ++ [e]))
      by (apply Forall_app; split; [done|]; by apply Forall_app in Hf as [_ Hf]).
    intros k a Ha. exact (Forall_lookup_1 _ _ k a Hf2 Ha).
  - intros k a b Ha Hb. destruct (decide (k = length es')) as [->|Hk].
    + rewrite Hprev in Ha. rewrite Hlast in Hb. injection Ha as <-. injection Hb as <-. done.
    + assert (Hk2 : (S k < length (es' ++ [e]))%nat).
      { apply lookup_lt_Some in Hb. rewrite Hlen in Hb. rewrite length_app. simpl. lia. }
      rewrite lookup_app_l in Ha, Hb by lia. apply Z.lt_le_incl.
      by apply (sorted_next (es' ++ [e]) k).
  - intros k a b Ha Hb Hlt. apply lookup_lt_is_Some_2. rewrite Hlen.
    pose proof (lookup_lt_Some _ _ _ Hb) as Hk. rewrite Hlen in Hk.
    destruct (decide (k = length es')) as [->|]; [|lia].
    rewrite Hprev in Ha. rewrite Hlast in Hb. injection Ha as <-. injection Hb as <-. lia.
Qed.

Section fill.
Context (w num minsize elemsize : Z).
Context (Hw : 32 <= w) (Hnum : 0 <= num <= 2 ^ 9) (Helem : 1 <= elemsize <= PAGE_SIZE)
        (Hmin : elemsize <= minsize <= 2 ^ 24).

(** The sizes written so far, each the quotient of a size at least [elemsize]
    below the next one. *)
Definition filled (its : list Z) (size : Z) : Prop :=
  StronglySorted Z.lt its /\
  Forall (λ z, minsize / elemsize <= z /\ z < size / elemsize) its.

Lemma pow_w z : 0 <= z < 2 ^ 32 -> wrap w z = z.
Proof.
  intros. apply wrap_small. unfold in_range. pose proof (Z.pow_le_mono_r 2 32 w). lia.
Qed.

Lemma filled_step its size size' :
  filled its size -> 0 <= size < 2 ^ 32 -> (minsize <= size -> size + elemsize <= size') ->
  size <= size' ->
  filled (if minsize <=? size then its ++ [u32 (size / elemsize)] else its) size'.
Proof.
  intros [Hs Hf] Hsize Hnext Hle.
  assert (Hq : size / elemsize <= size' / elemsize) by (apply Z.div_le_mono; lia).
  destruct (Z.leb_spec minsize size).
  - assert (size / elemsize < size' / elemsize).
    { assert (Hd : (size + 1 * elemsize) / elemsize <= size' / elemsize)
        by (apply Z.div_le_mono; lia).
      rewrite Z.div_add in Hd by lia. lia. }
    assert (minsize / elemsize <= size / elemsize) by (apply Z.div_le_mono; lia).
    rewrite wrap_small; last first.
    { unfold in_range. split; [apply Z.div_pos; lia|].
      apply Z.le_lt_trans with size; [apply Z.div_le_upper_bound; nia|lia]. }
    split.
    + apply StronglySorted_app_2; [|done|repeat constructor].
      intros x y Hx%(proj1 (Forall_forall _ _) Hf) ->%list_elem_of_singleton. lia.
    + apply Forall_app. split; [|repeat constructor; lia].
      eapply Forall_impl; [exact Hf|]. cbn beta. lia.
  - split; [done|]. eapply Forall_impl; [exact Hf|]. cbn beta. lia.
Qed.

(** The invariant of all the loops: nothing wraps around. *)
Definition fill_inv (its : list Z) (size : Z) : Prop :=
  filled its size /\ zlen its <= num /\
  1 <= size <= minsize + PAGE_SIZE + 8 * PAGE_SIZE * (1 + zlen its).

Lemma zlen_snoc (l : list Z) x : zlen (l ++ [x]) = zlen l + 1.
Proof. rewrite length_app. simpl. lia. Qed.

(** What is left to do: sizes to write, bytes to skip. *)
Definition fill_left (its : list Z) (size : Z) : Z := num - zlen its + Z.max 0 (minsize - size).

Lemma fill_inv_step its size incr :
  fill_inv its size -> zlen its < num -> incr <= 8 * PAGE_SIZE -> 1 <= incr ->
  (minsize <= size -> elemsize <= incr) ->
  let its' := if minsize <=? size then its ++ [u32 (size / elemsize)] else its in
  fill_inv its' (size + incr) /\ wrap w (size + incr) = size + incr /\
  fill_left its' (size + incr) < fill_left its size.
Proof.
  intros (Hf & Hl & Hs) Hlt Hi H1 He its'. unfold PAGE_SIZE in Helem, Hs, Hi.
  assert (Hlen : zlen its' = zlen its + if minsize <=? size then 1 else 0).
  { unfold its'. destruct (minsize <=? size); [apply zlen_snoc|lia]. }
  assert (Hf' : filled its' (size + incr)) by (apply filled_step; [done|lia|lia|lia]).
  clearbody its'. unfold fill_left.
  split; [split; [done|]|split; [apply pow_w; lia|]];
    destruct (Z.leb_spec minsize size); unfold PAGE_SIZE; lia.
Qed.

Lemma fill_powers_spec fuel k its :
  fill_inv its (2 ^ k) -> 0 <= k <= 12 -> 12 - k < Z.of_nat fuel ->
  ∃ its' size', fill_powers fuel w num minsize elemsize its (2 ^ k) = Some (its', size') /\
    fill_inv its' size'.
Proof.
  revert k its. induction fuel as [|fuel IH]; intros k its Hinv Hk Hfuel; [lia|].
  cbn [fill_powers]. destruct (Z.ltb_spec (zlen its) num); [|by eauto].
  destruct (Z.ltb_spec (2 ^ k) PAGE_SIZE) as [Hp|]; [|by eauto]. cbn [andb].
  assert (k < 12).
  { destruct (decide (k < 12)); [done|]. replace k with 12 in Hp by lia. unfold PAGE_SIZE in Hp. lia. }
  assert (E : Z.shiftl (2 ^ k) 1 = 2 ^ k + 2 ^ k) by (rewrite Z.shiftl_mul_pow2 by lia; lia).
  destruct (fill_inv_step its (2 ^ k) (2 ^ k)) as (Hi & Hw' & _); [done|done|unfold PAGE_SIZE in *; lia|..].
  { apply (Z.pow_le_mono_r 2 0); lia. }
  { lia. }
  rewrite E, Hw'. replace (2 ^ k + 2 ^ k) with (2 ^ (k + 1)) in * by (rewrite Z.pow_add_r; lia).
  apply IH; [done|lia|lia].
Qed.

Lemma fill_period_spec periods incr : elemsize <= incr <= 8 * PAGE_SIZE -> ∀ its size,
  fill_inv its size ->
  ∃ its' size', fill_period periods w num minsize elemsize incr its size = (its', size') /\
    fill_inv its' size' /\ fill_left its' size' <= fill_left its size /\
    (periods <> O -> zlen its < num -> fill_left its' size' < fill_left its size).
Proof.
  intros Hincr. induction periods as [|periods IH]; intros its size Hinv; simpl.
  { exists its, size. split; [done|]. split; [done|]. split; [lia|done]. }
  destruct (Z.ltb_spec (zlen its) num); last first.
  { exists its, size. split; [done|]. split; [done|]. split; [done|]. intros _ ?. lia. }
  destruct (fill_inv_step its size incr) as (Hi & Hw' & Hd); [done|done|lia|lia|lia|].
  rewrite Hw'. destruct (IH _ _ Hi) as (its' & size' & E & Hi' & Hd' & _).
  exists its', size'. split; [done|]. split; [done|]. lia.
Qed.

Lemma fill_pages_spec fuel : ∀ j its size,
  0 <= j <= 3 -> fill_inv its size ->
  fill_left its size <= Z.of_nat fuel ->
  ∃ its' size', fill_pages fuel w num minsize elemsize (PAGE_SIZE * 2 ^ j) its size = Some its' /\
    fill_inv its' size' /\ zlen its' = num.
Proof.
  induction fuel as [|fuel IH]; intros j its size Hj Hinv Hfuel; cbn [fill_pages].
  - destruct (Z.ltb_spec (zlen its) num); [unfold fill_left in Hfuel; lia|].
    exists its, size. split; [done|]. split; [done|]. destruct Hinv as (_ & ? & _). lia.
  - destruct (Z.ltb_spec (zlen its) num); last first.
    { exists its, size. split; [done|]. split; [done|]. destruct Hinv as (_ & ? & _). lia. }
    assert (Hincr : PAGE_SIZE <= PAGE_SIZE * 2 ^ j <= 8 * PAGE_SIZE).
    { pose proof (Z.pow_le_mono_r 2 j 3). pose proof (Z.pow_le_mono_r 2 0 j).
      unfold PAGE_SIZE. lia. }
    destruct (fill_period_spec 15 (PAGE_SIZE * 2 ^ j)) with (its := its) (size := size)
      as (its1 & size1 & -> & Hi1 & _ & Hd); [lia|done|].
    unfold PAGE_SIZE in *. change (Z.shiftl 4096 3) with (4096 * 2 ^ 3).
    destruct (Z.ltb_spec (4096 * 2 ^ j) (4096 * 2 ^ 3)) as [Hlt|].
    + assert (j < 3) by (apply (Z.pow_lt_mono_r_iff 2); lia).
      rewrite Z.shiftl_mul_pow2, pow_w by lia.
      replace (4096 * 2 ^ j * 2 ^ 1) with (4096 * 2 ^ (j + 1)) by (rewrite Z.pow_add_r; lia).
      apply (IH _ its1 size1); [lia|done|lia].
    + apply (IH _ its1 size1); [lia|done|lia].
Qed.
End fill.

Lemma ipc_table_fill_spec w num min elemsize :
  32 <= w -> 0 <= num <= 2 ^ 9 -> 1 <= elemsize <= PAGE_SIZE -> 1 <= min -> min * elemsize <= 2 ^ 24 ->
  ∃ its, ipc_table_fill w num min elemsize = Some its /\ zlen its = num /\
    StronglySorted Z.lt its /\
    Forall (λ z, min <= z /\ z * elemsize <= 2 ^ 24 + PAGE_SIZE * 4105) its.
Proof.
  intros Hw Hnum He Hm Hmin. unfold ipc_table_fill.
  rewrite (pow_w w Hw (min * elemsize)) by lia.
  assert (Hminsize : elemsize <= min * elemsize <= 2 ^ 24) by nia.
  destruct (fill_powers_spec w num (min * elemsize) elemsize Hw Hnum He Hminsize 13 0 [])
    as (its & size & E & Hinv); [|lia|lia|].
  { split; [repeat constructor|]. unfold PAGE_SIZE. simpl. lia. }
  change (2 ^ 0) with 1 in E. rewrite E. cbn [mbind option_bind].
  destruct (fill_pages_spec w num (min * elemsize) elemsize Hw Hnum He Hminsize
              (Z.to_nat (num + min * elemsize)) 0 its size)
    as (its' & size' & E' & Hinv' & Hl); [lia|done| |].
  { destruct Hinv as (_ & ? & ?). unfold fill_left. lia. }
  change (PAGE_SIZE * 2 ^ 0) with PAGE_SIZE in E'.
  exists its'. destruct Hinv' as ((Hs & Hf) & _ & Hsz). rewrite E'. split; [done|].
  split; [done|]. split; [done|]. eapply Forall_impl; [exact Hf|]. cbn beta.
  rewrite Z.div_mul by lia. intros z [? Hz]. split; [done|].
  assert (z * elemsize <= size').
  { pose proof (Z.mul_div_le size' elemsize). nia. }
  unfold PAGE_SIZE in *. lia.
Qed.

(** [ipc_table_init] establishes what osfmk/ipc/ipc_table.h promises
    of both arrays: they are filled (the loops end and nothing wraps around), the entry
    sizes start at 16 elements, increase strictly, end with two equal elements and stay
    below [MACH_PORT_INDEX(MACH_PORT_DEAD)], and the request sizes start at 2, increase
    strictly and end with a zero. *)
Theorem table_sizes_ok w entry_size request_size :
  32 <= w -> 4 <= entry_size <= PAGE_SIZE -> 1 <= request_size <= PAGE_SIZE ->
  ∃ es e ds, ipc_table_init w entry_size request_size = Some (es ++ [e], ds ++ [0]) /\
    zlen (es ++ [e]) = ipc_table_entries_size /\ zlen (ds ++ [0]) = ipc_table_dnrequests_size /\
    StronglySorted Z.lt es /\ last es = Some e /\
    Forall (λ z, 16 <= z <= Z.shiftr (2 ^ 32 - 1) 8) es /\
    StronglySorted Z.lt ds /\ Forall (λ z, 2 <= z) ds.
Proof.
  unfold PAGE_SIZE. intros Hw He Hr. unfold ipc_table_init.
  destruct (ipc_table_fill_spec w (ipc_table_entries_size - 1) 16 entry_size)
    as (es & -> & Hl & Hs & Hf); try (unfold ipc_table_entries_size, PAGE_SIZE; lia).
  destruct (ipc_table_fill_spec w (ipc_table_dnrequests_size - 1) 2 request_size)
    as (ds & -> & Hl2 & Hs2 & Hf2); try (unfold ipc_table_dnrequests_size, PAGE_SIZE; lia).
  cbn [mbind option_bind]. destruct (last es) as [e|] eqn:E; last first.
  { apply last_None in E. subst es. done. }
  exists es, e, ds. rewrite !zlen_snoc, Hl, Hl2. cbn [mbind option_bind].
  repeat (split; [done|]). split; [|split; [done|]].
  - eapply Forall_impl; [exact Hf|]. cbn beta. intros z [? Hz]. split; [done|].
    change (Z.shiftr (2 ^ 32 - 1) 8) with (2 ^ 24 - 1). unfold PAGE_SIZE in Hz. nia.
  - eapply Forall_impl; [exact Hf2|]. cbn beta. lia.
Qed.

Lemma table_sizes_ok_witness :
  ∃ es e ds, ipc_table_init 32 16 8 = Some (es ++ [e], ds ++ [0]) /\
    zlen (es ++ [e]) = ipc_table_entries_size /\ zlen (ds ++ [0]) = ipc_table_dnrequests_size /\
    StronglySorted Z.lt es /\ last es = Some e /\
    Forall (λ z, 16 <= z <= Z.shiftr (2 ^ 32 - 1) 8) es /\
    StronglySorted Z.lt ds /\ Forall (λ z, 2 <= z) ds.
Proof. apply (table_sizes_ok 32 16 8); unfold PAGE_SIZE; lia. Defined.

(** The request sizes of a 32-bit kernel: [struct ipc_port_request] has 8 bytes. *)
Definition i386_dnrequests : list Z := default [] (snd <$> ipc_table_init 32 16 8).

#[export] Instance i386_request_sizes : RequestSizes i386_dnrequests.
Proof.
  refine {| rs_sizes := take 63 i386_dnrequests |}; [by vm_compute|..];
    apply (bool_decide_eq_true_1 _); by vm_compute.
Defined.

(** The entry sizes of a 32-bit kernel: [struct ipc_entry] has 16 bytes. *)
Definition i386_entries : list Z := default [] (fst <$> ipc_table_init 32 16 8).

#[export] Instance i386_entry_sizes : EntrySizes i386_entries.
Proof.
  assert (E : i386_entries = take 511 i386_entries ++ [default 0 (last i386_entries)]) by (by vm_compute).
  rewrite E. apply entry_sizes; apply (bool_decide_eq_true_1 _); by vm_compute.
Qed.

End IpcTable.
