(* ===== verification/IpcPort.v ===== *)
(** Ports, osfmk/ipc/ipc_port.c: reference counts, the counts of rights, the table of
    dead-name requests and its free list, the requests for notifications, the chains of
    ports in transit, and the destruction of a port.

    Ports, port sets, spaces and message buffers are their 32-bit addresses, 0 the null
    one.  The state holds the allocated objects; a use of a freed object, a failed
    assertion and an access outside of a table are [None] ([panic]).  Calls to code that
    is not modelled (message queues, wait queues, kernel objects, and the notification
    routines the interface generator makes) are recorded in order in a trace.  The locks
    are left out: a routine runs between its lock and unlock calls. *)

From stdpp Require Import sorting.
From S2P Require Import Prelude.
From S2P Require Import IpcTable.
Import IpcTable.IpcTable.

Module IpcPort.

(** * Data *)

Definition IP_NULL : Z := 0.
Definition IP_DEAD : Z := 2 ^ 32 - 1.
Definition IP_VALID (p : Z) : bool := negb (p =? IP_NULL) && negb (p =? IP_DEAD).
Definition MACH_PORT_NULL : Z := 0.

Definition IO_BITS_ACTIVE : Z := 0x80000000.
Definition IP_BIT_PREALLOC : Z := 0x00008000.
Definition IO_MAX_REFERENCES : Z := 0x7fffffff.

Definition KERN_SUCCESS : Z := 0.
Definition KERN_NO_SPACE : Z := 3.
Definition KERN_RESOURCE_SHORTAGE : Z := 6.

(** [ipc_port_request] (osfmk/ipc/ipc_port.h, 219-234): the [notify] word holds the
    send-once right of a request or the index of the next free slot, the [name] word the
    name of a request or, in slot 0, the place of the table's size in
    [ipc_table_dnrequests]. *)
Record ipc_port_request := Ipr { ipr_notify : Z; ipr_word : Z }.

Abbreviation ipr_next := ipr_notify.
Abbreviation ipr_soright := ipr_notify.
Abbreviation ipr_name := ipr_word.
Abbreviation ipr_size := ipr_word.

(** [ipc_port] (osfmk/ipc/ipc_port.h, 113-140).  [ip_data] is the union of the receiver,
    the destination and the timestamp; a table of requests belongs to one port and is
    kept with its address. *)
Record ipc_port := Port {
  io_bits : Z;
  io_references : Z;
  ip_data : Z;
  ip_receiver_name : Z;
  imq_seqno : Z;
  ip_mscount : Z;
  ip_srights : Z;
  ip_sorights : Z;
  ip_nsrequest : Z;
  ip_pdrequest : Z;
  ip_dnrequests : option (Z * list ipc_port_request);
  ip_pset_count : Z;
  ip_premsg : Z }.

Abbreviation ip_receiver := ip_data.
Abbreviation ip_destination := ip_data.
Abbreviation ip_timestamp := ip_data.

Definition set_io_bits v (P : ipc_port) :=
  Port v (io_references P) (ip_data P) (ip_receiver_name P) (imq_seqno P) (ip_mscount P)
    (ip_srights P) (ip_sorights P) (ip_nsrequest P) (ip_pdrequest P) (ip_dnrequests P)
    (ip_pset_count P) (ip_premsg P).
Definition set_io_references v (P : ipc_port) :=
  Port (io_bits P) v (ip_data P) (ip_receiver_name P) (imq_seqno P) (ip_mscount P)
    (ip_srights P) (ip_sorights P) (ip_nsrequest P) (ip_pdrequest P) (ip_dnrequests P)
    (ip_pset_count P) (ip_premsg P).
Definition set_ip_data v (P : ipc_port) :=
  Port (io_bits P) (io_references P) v (ip_receiver_name P) (imq_seqno P) (ip_mscount P)
    (ip_srights P) (ip_sorights P) (ip_nsrequest P) (ip_pdrequest P) (ip_dnrequests P)
    (ip_pset_count P) (ip_premsg P).
Definition set_ip_receiver_name v (P : ipc_port) :=
  Port (io_bits P) (io_references P) (ip_data P) v (imq_seqno P) (ip_mscount P)
    (ip_srights P) (ip_sorights P) (ip_nsrequest P) (ip_pdrequest P) (ip_dnrequests P)
    (ip_pset_count P) (ip_premsg P).
Definition set_imq_seqno v (P : ipc_port) :=
  Port (io_bits P) (io_references P) (ip_data P) (ip_receiver_name P) v (ip_mscount P)
    (ip_srights P) (ip_sorights P) (ip_nsrequest P) (ip_pdrequest P) (ip_dnrequests P)
    (ip_pset_count P) (ip_premsg P).
Definition set_ip_mscount v (P : ipc_port) :=
  Port (io_bits P) (io_references P) (ip_data P) (ip_receiver_name P) (imq_seqno P) v
    (ip_srights P) (ip_sorights P) (ip_nsrequest P) (ip_pdrequest P) (ip_dnrequests P)
    (ip_pset_count P) (ip_premsg P).
Definition set_ip_srights v (P : ipc_port) :=
  Port (io_bits P) (io_references P) (ip_data P) (ip_receiver_name P) (imq_seqno P)
    (ip_mscount P) v (ip_sorights P) (ip_nsrequest P) (ip_pdrequest P) (ip_dnrequests P)
    (ip_pset_count P) (ip_premsg P).
Definition set_ip_sorights v (P : ipc_port) :=
  Port (io_bits P) (io_references P) (ip_data P) (ip_receiver_name P) (imq_seqno P)
    (ip_mscount P) (ip_srights P) v (ip_nsrequest P) (ip_pdrequest P) (ip_dnrequests P)
    (ip_pset_count P) (ip_premsg P).
Definition set_ip_nsrequest v (P : ipc_port) :=
  Port (io_bits P) (io_references P) (ip_data P) (ip_receiver_name P) (imq_seqno P)
    (ip_mscount P) (ip_srights P) (ip_sorights P) v (ip_pdrequest P) (ip_dnrequests P)
    (ip_pset_count P) (ip_premsg P).
Definition set_ip_pdrequest v (P : ipc_port) :=
  Port (io_bits P) (io_references P) (ip_data P) (ip_receiver_name P) (imq_seqno P)
    (ip_mscount P) (ip_srights P) (ip_sorights P) (ip_nsrequest P) v (ip_dnrequests P)
    (ip_pset_count P) (ip_premsg P).
Definition set_ip_dnrequests v (P : ipc_port) :=
  Port (io_bits P) (io_references P) (ip_data P) (ip_receiver_name P) (imq_seqno P)
    (ip_mscount P) (ip_srights P) (ip_sorights P) (ip_nsrequest P) (ip_pdrequest P) v
    (ip_pset_count P) (ip_premsg P).
Definition set_ip_pset_count v (P : ipc_port) :=
  Port (io_bits P) (io_references P) (ip_data P) (ip_receiver_name P) (imq_seqno P)
    (ip_mscount P) (ip_srights P) (ip_sorights P) (ip_nsrequest P) (ip_pdrequest P)
    (ip_dnrequests P) v (ip_premsg P).
Definition set_ip_premsg v (P : ipc_port) :=
  Port (io_bits P) (io_references P) (ip_data P) (ip_receiver_name P) (imq_seqno P)
    (ip_mscount P) (ip_srights P) (ip_sorights P) (ip_nsrequest P) (ip_pdrequest P)
    (ip_dnrequests P) (ip_pset_count P) v.

(** [io_active] (osfmk/ipc/ipc_object.h, 139-139). *)
Definition ip_active (P : ipc_port) : bool := truth (io_bits P &&& IO_BITS_ACTIVE).

(** [ipc_pset] (osfmk/ipc/ipc_pset.h, 79-86). *)
Record ipc_pset := Pset { ips_bits : Z; ips_references : Z; ips_local_name : Z }.

Definition ips_active (S : ipc_pset) : bool := truth (ips_bits S &&& IO_BITS_ACTIVE).

(** Calls to code that is not modelled. *)
Inductive call :=
  | mach_notify_port_deleted (port name : Z)
  | mach_notify_port_destroyed (port right : Z)
  | mach_notify_no_senders (port mscount : Z)
  | mach_notify_send_once (port : Z)
  | mach_notify_dead_name (port name : Z)
  | ipc_mqueue_init (object : Z) (is_set : bool)
  | ipc_mqueue_changed (object : Z)
  | ipc_mqueue_remove_from_all (port : Z)
  | ipc_mqueue_remove_all (pset : Z)
  | ipc_mqueue_destroy (port : Z)
  | ipc_kmsg_free (kmsg : Z)
  | ipc_kobject_destroy (port : Z).

(** The allocated ports and port sets, the preallocated messages in use, the clock of
    port deaths and the calls made so far. *)
Record kstate := KState {
  ks_ports : gmap Z ipc_port;
  ks_psets : gmap Z ipc_pset;
  ks_inuse : gset Z;
  ipc_port_timestamp_data : Z;
  ks_trace : list call }.

Definition set_ks_ports v s :=
  KState v (ks_psets s) (ks_inuse s) (ipc_port_timestamp_data s) (ks_trace s).
Definition set_ks_psets v s :=
  KState (ks_ports s) v (ks_inuse s) (ipc_port_timestamp_data s) (ks_trace s).
Definition set_timestamp_data v s :=
  KState (ks_ports s) (ks_psets s) (ks_inuse s) v (ks_trace s).
Definition set_ks_trace v s :=
  KState (ks_ports s) (ks_psets s) (ks_inuse s) (ipc_port_timestamp_data s) v.

Abbreviation K := (kern kstate).

Definition port_get (p : Z) : K ipc_port := deref (λ s, ks_ports s !! p).
Definition port_put (p : Z) (P : ipc_port) : K unit :=
  modify (λ s, set_ks_ports (<[p := P]> (ks_ports s)) s).
(** [port->field = ...] *)
Definition port_set (p : Z) (f : ipc_port -> ipc_port) : K unit :=
  P ← port_get p; port_put p (f P).
Definition pset_get (p : Z) : K ipc_pset := deref (λ s, ks_psets s !! p).
Definition pset_put (p : Z) (S : ipc_pset) : K unit :=
  modify (λ s, set_ks_psets (<[p := S]> (ks_psets s)) s).
Definition call_ (c : call) : K unit := modify (λ s, set_ks_trace (ks_trace s ++ [c]) s).

(** * References *)

(** [io_reference] (osfmk/ipc/ipc_object.h, 201-205). *)
Definition ip_reference (p : Z) : K unit :=
  P ← port_get p;
  assert_ (io_references P <? IO_MAX_REFERENCES);;
  port_put p (set_io_references (io_references P + 1) P).

(** [io_release] (osfmk/ipc/ipc_object.h, 207-212). *)
Definition ip_release (p : Z) : K unit :=
  P ← port_get p;
  assert_ ((0 <? io_references P) && (io_references P <=? IO_MAX_REFERENCES));;
  port_put p (set_io_references (io_references P - 1) P).

(** [io_check_unlock] (osfmk/ipc/ipc_object.h, 180-187): frees an object without
    references. *)
Definition ip_check_unlock (p : Z) : K unit :=
  P ← port_get p;
  if io_references P =? 0 then modify (λ s, set_ks_ports (delete p (ks_ports s)) s)
  else mret tt.

(** [ipc_object_reference] (osfmk/ipc/ipc_object.c, 106-114). *)
Definition ipc_port_reference (p : Z) : K unit :=
  P ← port_get p;
  assert_ (0 <? io_references P);;
  ip_reference p.

(** [ipc_object_release] (osfmk/ipc/ipc_object.c, 122-130). *)
Definition ipc_port_release (p : Z) : K unit :=
  P ← port_get p;
  assert_ (0 <? io_references P);;
  ip_release p;;
  ip_check_unlock p.

(** [ipc_port_timestamp] (osfmk/ipc/ipc_port.c, 129-139). *)
Definition ipc_port_timestamp : K Z :=
  t ← gets ipc_port_timestamp_data;
  modify (set_timestamp_data (u32 (t + 1)));;
  mret t.

(** * Notifications *)

(** [ipc_notify_port_deleted] (osfmk/ipc/ipc_notify.c, 82-89). *)
Definition ipc_notify_port_deleted (port name : Z) : K unit :=
  call_ (mach_notify_port_deleted port name).
(** [ipc_notify_port_destroyed] (osfmk/ipc/ipc_notify.c, 103-110). *)
Definition ipc_notify_port_destroyed (port right : Z) : K unit :=
  call_ (mach_notify_port_destroyed port right).
(** [ipc_notify_no_senders] (osfmk/ipc/ipc_notify.c, 121-128). *)
Definition ipc_notify_no_senders (port mscount : Z) : K unit :=
  call_ (mach_notify_no_senders port mscount).
(** [ipc_notify_send_once] (osfmk/ipc/ipc_notify.c, 139-145). *)
Definition ipc_notify_send_once (port : Z) : K unit := call_ (mach_notify_send_once port).
(** [ipc_notify_dead_name] (osfmk/ipc/ipc_notify.c, 156-163). *)
Definition ipc_notify_dead_name (port name : Z) : K unit :=
  call_ (mach_notify_dead_name port name).

(** * Dead-name requests *)

Definition opt {S A} (o : option A) : kern S A := λ s, match o with Some a => Some (a, s) | None => None end.

Abbreviation rtable := (list ipc_port_request).

Definition slot_get (t : rtable) (i : Z) : option ipc_port_request :=
  if decide (0 <= i) then t !! Z.to_nat i else None.
Definition slot_put (t : rtable) (i : Z) (r : ipc_port_request) : option rtable :=
  if decide (0 <= i < zlen t) then Some (<[Z.to_nat i := r]> t) else None.

(** The table of a port whose [ip_dnrequests] is not null. *)
Definition table_get (p : Z) : K (Z * rtable) :=
  P ← port_get p; opt (ip_dnrequests P).

(** [ipc_port_dnrequest] (osfmk/ipc/ipc_port.c, 154-185). *)
Definition ipc_port_dnrequest (port name soright : Z) : K (Z * Z) :=
  P ← port_get port;
  assert_ (ip_active P);;
  assert_ (negb (name =? MACH_PORT_NULL));;
  assert_ (negb (soright =? IP_NULL));;
  match ip_dnrequests P with
  | None => mret (KERN_NO_SPACE, 0)
  | Some (addr, table) =>
      head ← opt (slot_get table 0);
      let index := ipr_next head in
      if index =? 0 then mret (KERN_NO_SPACE, 0)
      else
        ipr ← opt (slot_get table index);
        assert_ (ipr_name ipr =? MACH_PORT_NULL);;
        table ← opt (slot_put table 0 (Ipr (ipr_next ipr) (ipr_size head)));
        table ← opt (slot_put table index (Ipr soright name));
        port_put port (set_ip_dnrequests (Some (addr, table)) P);;
        mret (KERN_SUCCESS, index)
  end.

(** [ipc_port_dncancel] (osfmk/ipc/ipc_port.c, 313-340). *)
Definition ipc_port_dncancel (port name index : Z) : K Z :=
  P ← port_get port;
  assert_ (ip_active P);;
  assert_ (negb (name =? MACH_PORT_NULL));;
  assert_ (negb (index =? 0));;
  '(addr, table) ← table_get port;
  ipr ← opt (slot_get table index);
  let dnrequest := ipr_soright ipr in
  assert_ (ipr_name ipr =? name);;
  head ← opt (slot_get table 0);
  table ← opt (slot_put table index (Ipr (ipr_next head) MACH_PORT_NULL));
  table ← opt (slot_put table 0 (Ipr index (ipr_size head)));
  port_put port (set_ip_dnrequests (Some (addr, table)) P);;
  mret dnrequest.

(** [ipc_port_dnrename] (osfmk/ipc/ipc_port.h, 319-332). *)
Definition ipc_port_dnrename (port index oname nname : Z) : K unit :=
  P ← port_get port;
  assert_ (ip_active P);;
  '(addr, table) ← table_get port;
  ipr ← opt (slot_get table index);
  assert_ (ipr_name ipr =? oname);;
  table ← opt (slot_put table index (Ipr (ipr_soright ipr) nname));
  port_put port (set_ip_dnrequests (Some (addr, table)) P).

Section dngrow.
Context (ipc_table_dnrequests : list Z).

Definition its_size (its : Z) : K Z :=
  opt (if decide (0 <= its) then ipc_table_dnrequests !! Z.to_nat its else None).

Definition ITS_SIZE_NONE : Z := 2 ^ 32 - 1.

(** [ipc_port_dngrow], the search for a size that reaches the target
    (osfmk/ipc/ipc_port.c, 225-227). *)
Fixpoint find_size (fuel : nat) (its target_size : Z) : K Z :=
  match fuel with
  | O => panic
  | S fuel =>
      size ← its_size its;
      if truth size && (size <? target_size) then find_size fuel (its + 1) target_size
      else mret its
  end.

(** [ipc_port_dngrow], up to the allocation (osfmk/ipc/ipc_port.c, 203-235): a return
    code, or the size to allocate and the address of the old table. *)
Definition dngrow_begin (port target_size : Z) : K (Z + Z * Z) :=
  P ← port_get port;
  assert_ (ip_active P);;
  let otable := ip_dnrequests P in
  its ← match otable with
        | None => mret 0
        | Some (_, ot) => head ← opt (slot_get ot 0); mret (ipr_size head + 1)
        end;
  choice ←
    (if negb (target_size =? ITS_SIZE_NONE) then
      enough ← match otable with
               | None => mret false
               | Some (_, ot) =>
                   head ← opt (slot_get ot 0);
                   osize ← its_size (ipr_size head);
                   mret (target_size <=? osize)
               end;
      if (enough : bool) then mret (inl KERN_SUCCESS)
      else
        its ← find_size (length ipc_table_dnrequests) its target_size;
        size ← its_size its;
        if size =? 0 then mret (inl KERN_NO_SPACE) else mret (inr its)
    else mret (inr its));
  match choice with
  | inl kr => mret (inl kr)
  | inr its =>
      ip_reference port;;
      mret (inr (its, match otable with Some (addr, _) => addr | None => 0 end))
  end.

(** [ipc_port_dngrow], the new elements put on the free list
    (osfmk/ipc/ipc_port.c, 281-287). *)
Fixpoint add_free (n : nat) (ntable : rtable) (i free : Z) : option (rtable * Z) :=
  match n with
  | O => Some (ntable, free)
  | S n => ntable ← slot_put ntable i (Ipr free MACH_PORT_NULL); add_free n ntable (i + 1) i
  end.

(** [ipc_port_dngrow], the new table (osfmk/ipc/ipc_port.c, 256-290).  [ntable] is the
    allocated block, with whatever it holds. *)
Definition grown_table (otable : option (Z * rtable)) (its nsize : Z) (ntable : rtable)
    : K rtable :=
  '(osize, free, ntable) ←
    match otable with
    | Some (_, ot) =>
        head ← opt (slot_get ot 0);
        osize ← its_size (ipr_size head);
        let n := Z.to_nat (osize - 1) in
        mret (osize, ipr_next head, take 1 ntable ++ take n (drop 1 ot) ++ drop (S n) ntable)
    | None => mret (1, 0, ntable)
    end;
  assert_ (osize <? nsize);;
  '(ntable, free) ← opt (add_free (Z.to_nat (nsize - osize)) ntable osize free);
  opt (slot_put ntable 0 (Ipr free its)).

(** [ipc_port_dngrow], from the allocation on (osfmk/ipc/ipc_port.c, 237-303).  [block]
    is what the allocator returns: a null pointer or an address and its contents;
    [others] is what other threads do meanwhile, with the port unlocked. *)
Definition dngrow_finish (block : option (Z * rtable)) (others : K unit)
    (port its oaddr : Z) : K Z :=
  nsize ← its_size its;
  others;;
  match (if nsize =? 0 then None else block) with
  | None => ipc_port_release port;; mret KERN_RESOURCE_SHORTAGE
  | Some (addr, ntable) =>
      ip_release port;;
      P ← port_get port;
      let otable := ip_dnrequests P in
      let same := (match otable with Some (a, _) => a | None => 0 end) =? oaddr in
      fresh ← match otable with
              | Some (_, ot) => head ← opt (slot_get ot 0); mret (ipr_size head + 1 =? its)
              | None => mret true
              end;
      if ip_active P && same && fresh then
        ntable ← grown_table otable its nsize ntable;
        port_put port (set_ip_dnrequests (Some (addr, ntable)) P);;
        mret KERN_SUCCESS
      else ip_check_unlock port;; mret KERN_SUCCESS
  end.

(** [ipc_port_dngrow] (osfmk/ipc/ipc_port.c, 203-303). *)
Definition ipc_port_dngrow (block : option (Z * rtable)) (others : K unit)
    (port target_size : Z) : K Z :=
  choice ← dngrow_begin port target_size;
  match choice with
  | inl kr => mret kr
  | inr (its, oaddr) => dngrow_finish block others port its oaddr
  end.
End dngrow.

(** * Requests for notifications and the life of a port *)

(** [ipc_port_pdrequest] (osfmk/ipc/ipc_port.c, 354-369): the previous request. *)
Definition ipc_port_pdrequest (port notify : Z) : K Z :=
  P ← port_get port;
  assert_ (ip_active P);;
  let previous := ip_pdrequest P in
  port_put port (set_ip_pdrequest notify P);;
  mret previous.

(** [ipc_port_nsrequest] (osfmk/ipc/ipc_port.c, 383-409): the previous request. *)
Definition ipc_port_nsrequest (port sync notify : Z) : K Z :=
  P ← port_get port;
  assert_ (ip_active P);;
  let previous := ip_nsrequest P in
  let mscount := ip_mscount P in
  (if (ip_srights P =? 0) && (sync <=? mscount) && negb (notify =? IP_NULL) then
     port_put port (set_ip_nsrequest IP_NULL P);;
     ipc_notify_no_senders notify mscount
   else port_put port (set_ip_nsrequest notify P));;
  mret previous.

(** [ipc_pset_remove_from_all] (osfmk/ipc/ipc_pset.c, 245-260). *)
Definition ipc_pset_remove_from_all (port : Z) : K unit :=
  P ← port_get port;
  assert_ (ip_active P);;
  if ip_pset_count P =? 0 then mret tt
  else
    call_ (ipc_mqueue_remove_from_all port);;
    port_set port (set_ip_pset_count 0).

(** [ipc_pset_destroy] (osfmk/ipc/ipc_pset.c, 273-300). *)
Definition ipc_pset_destroy (pset : Z) : K unit :=
  S ← pset_get pset;
  assert_ (ips_active S);;
  pset_put pset (Pset (Z.ldiff (ips_bits S) IO_BITS_ACTIVE) (ips_references S) (ips_local_name S));;
  call_ (ipc_mqueue_remove_all pset);;
  call_ (ipc_mqueue_changed pset);;
  S ← pset_get pset;
  assert_ ((0 <? ips_references S) && (ips_references S <=? IO_MAX_REFERENCES));;
  pset_put pset (Pset (ips_bits S) (ips_references S - 1) (ips_local_name S));;
  if ips_references S - 1 =? 0 then modify (λ s, set_ks_psets (delete pset (ks_psets s)) s)
  else mret tt.

(** [ipc_port_clear_receiver] (osfmk/ipc/ipc_port.c, 420-447). *)
Definition ipc_port_clear_receiver (port : Z) : K unit :=
  P ← port_get port;
  assert_ (ip_active P);;
  (if negb (ip_pset_count P =? 0) then
     ipc_pset_remove_from_all port;;
     P ← port_get port;
     assert_ (ip_pset_count P =? 0)
   else mret tt);;
  call_ (ipc_mqueue_changed port);;
  P ← port_get port;
  assert_ (ip_active P);;
  port_put port (set_imq_seqno 0 (set_ip_mscount 0 P)).

(** [ipc_port_init] (osfmk/ipc/ipc_port.c, 456-484). *)
Definition ipc_port_init (port space name : Z) : K unit :=
  P ← port_get port;
  port_put port
    (Port (io_bits P) (io_references P) space name (imq_seqno P) 0 0 0 IP_NULL IP_NULL None 0 0);;
  call_ (ipc_mqueue_init port false).

(** [ipc_port_dnnotify] (osfmk/ipc/ipc_port.c, 586-610): the loop from slot [index]. *)
Fixpoint dnnotify_from (n : nat) (dnrequests : rtable) (index : Z) : K unit :=
  match n with
  | O => mret tt
  | S n =>
      ipr ← opt (slot_get dnrequests index);
      let name := ipr_name ipr in
      (if name =? MACH_PORT_NULL then mret tt
       else
         let soright := ipr_soright ipr in
         assert_ (negb (soright =? IP_NULL));;
         ipc_notify_dead_name soright name);;
      dnnotify_from n dnrequests (index + 1)
  end.

(** [ipc_port_dnnotify] (osfmk/ipc/ipc_port.c, 586-610).  The table has as many slots as
    its size says. *)
Definition ipc_port_dnnotify (dnrequests : rtable) : K unit :=
  dnnotify_from (length dnrequests - 1) dnrequests 1.

(** [ipc_port_destroy] (osfmk/ipc/ipc_port.c, 625-699). *)
Definition ipc_port_destroy (port : Z) : K unit :=
  P ← port_get port;
  assert_ (ip_active P);;
  assert_ (ip_pset_count P =? 0);;
  assert_ (ip_mscount P =? 0);;
  let pdrequest := ip_pdrequest P in
  if negb (pdrequest =? IP_NULL) then
    port_put port (set_ip_data IP_NULL (set_ip_receiver_name MACH_PORT_NULL
      (set_ip_pdrequest IP_NULL P)));;
    ipc_notify_port_destroyed pdrequest port
  else
    timestamp ← ipc_port_timestamp;
    let dnrequests := ip_dnrequests P in
    port_put port (set_ip_dnrequests None (set_ip_data timestamp
      (set_io_bits (Z.ldiff (io_bits P) IO_BITS_ACTIVE) P)));;
    (if truth (io_bits P &&& IP_BIT_PREALLOC) then
       let kmsg := ip_premsg P in
       assert_ (negb (kmsg =? 0));;
       port_set port (λ P, set_ip_premsg 0 (set_io_bits (Z.ldiff (io_bits P) IP_BIT_PREALLOC) P));;
       inuse ← gets (λ s : kstate, bool_decide (kmsg ∈ ks_inuse s));
       if (inuse : bool) then mret tt else call_ (ipc_kmsg_free kmsg)
     else mret tt);;
    P ← port_get port;
    let nsrequest := ip_nsrequest P in
    (if negb (nsrequest =? IP_NULL) then ipc_notify_send_once nsrequest else mret tt);;
    call_ (ipc_mqueue_destroy port);;
    match dnrequests with
    | Some (_, t) => ipc_port_dnnotify t
    | None => mret tt
    end;;
    call_ (ipc_kobject_destroy port);;
    ipc_port_release port.

(** * Circularity *)

(** The test for a port that is not in transit (osfmk/ipc/ipc_port.c, 759-761). *)
Definition not_in_transit (P : ipc_port) : bool :=
  negb (ip_active P) || negb (ip_receiver_name P =? MACH_PORT_NULL)
  || (ip_destination P =? IP_NULL).

(** [ipc_port_check_circularity], the search for the end of the chain
    (osfmk/ipc/ipc_port.c, 756-765). *)
Fixpoint chain_end (fuel : nat) (base : Z) : K Z :=
  match fuel with
  | O => panic
  | S fuel =>
      B ← port_get base;
      if not_in_transit B then mret base else chain_end fuel (ip_destination B)
  end.

(** [ipc_port_check_circularity], the chain unlocked from [dest], with its checks
    (osfmk/ipc/ipc_port.c, 780-791). *)
Fixpoint unlock_circle (fuel : nat) (dest : Z) : K unit :=
  match fuel with
  | O => panic
  | S fuel =>
      if dest =? IP_NULL then mret tt
      else
        D ← port_get dest;
        assert_ (ip_active D);;
        assert_ (ip_receiver_name D =? MACH_PORT_NULL);;
        unlock_circle fuel (ip_destination D)
  end.

(** [ipc_port_check_circularity], the chain unlocked from [port] to [base]
    (osfmk/ipc/ipc_port.c, 818-830). *)
Fixpoint unlock_chain (fuel : nat) (port base : Z) : K unit :=
  match fuel with
  | O => panic
  | S fuel =>
      if port =? base then mret tt
      else
        P ← port_get port;
        assert_ (ip_active P);;
        assert_ (ip_receiver_name P =? MACH_PORT_NULL);;
        assert_ (negb (ip_destination P =? IP_NULL));;
        unlock_chain fuel (ip_destination P) base
  end.

(** [ipc_port_check_circularity] (osfmk/ipc/ipc_port.c, 717-840).  [try] tells whether
    [ip_lock_try] gets the lock of [dest]; the loops follow chains of at most as many
    ports as there are. *)
Definition ipc_port_check_circularity (try : bool) (port dest : Z) : K bool :=
  assert_ (negb (port =? IP_NULL));;
  assert_ (negb (dest =? IP_NULL));;
  if port =? dest then mret true
  else
    fuel ← gets (λ s, S (S (size (ks_ports s))));
    D ← port_get dest;
    base ← (if try && not_in_transit D then mret (Some dest)
            else
              base ← chain_end fuel dest;
              if port =? base then mret None else mret (Some base));
    match base with
    | None =>
        P ← port_get port;
        assert_ (ip_active P);;
        assert_ (ip_receiver_name P =? MACH_PORT_NULL);;
        assert_ (ip_destination P =? IP_NULL);;
        unlock_circle fuel dest;;
        mret true
    | Some base =>
        P ← port_get port;
        assert_ (ip_active P);;
        assert_ (ip_receiver_name P =? MACH_PORT_NULL);;
        assert_ (ip_destination P =? IP_NULL);;
        ip_reference dest;;
        port_set port (set_ip_data dest);;
        unlock_chain fuel port base;;
        B ← port_get base;
        assert_ (not_in_transit B);;
        mret false
    end.

(** * Naked rights *)

(** [ipc_port_make_send_locked] (osfmk/ipc/ipc_port.c, 893-903). *)
Definition ipc_port_make_send_locked (port : Z) : K Z :=
  P ← port_get port;
  assert_ (ip_active P);;
  port_put port (set_ip_srights (u32 (ip_srights P + 1)) (set_ip_mscount (u32 (ip_mscount P + 1)) P));;
  ip_reference port;;
  mret port.

(** [ipc_port_make_send] (osfmk/ipc/ipc_port.c, 911-929). *)
Definition ipc_port_make_send (port : Z) : K Z :=
  if negb (IP_VALID port) then mret port
  else
    P ← port_get port;
    if ip_active P then
      port_put port (set_ip_srights (u32 (ip_srights P + 1))
        (set_ip_mscount (u32 (ip_mscount P + 1)) P));;
      ip_reference port;;
      mret port
    else mret IP_DEAD.

(** [ipc_port_copy_send] (osfmk/ipc/ipc_port.c, 943-964). *)
Definition ipc_port_copy_send (port : Z) : K Z :=
  if negb (IP_VALID port) then mret port
  else
    P ← port_get port;
    if ip_active P then
      assert_ (0 <? ip_srights P);;
      ip_reference port;;
      port_set port (λ P, set_ip_srights (u32 (ip_srights P + 1)) P);;
      mret port
    else mret IP_DEAD.

(** [ipc_port_release_send] (osfmk/ipc/ipc_port.c, 1010-1038). *)
Definition ipc_port_release_send (port : Z) : K unit :=
  assert_ (IP_VALID port);;
  ip_release port;;
  P ← port_get port;
  if negb (ip_active P) then ip_check_unlock port
  else
    assert_ (0 <? ip_srights P);;
    let srights := u32 (ip_srights P - 1) in
    port_put port (set_ip_srights srights P);;
    if (srights =? 0) && negb (ip_nsrequest P =? IP_NULL) then
      port_set port (set_ip_nsrequest IP_NULL);;
      ipc_notify_no_senders (ip_nsrequest P) (ip_mscount P)
    else mret tt.

(** [ipc_port_make_sonce] (osfmk/ipc/ipc_port.c, 1048-1061). *)
Definition ipc_port_make_sonce (port : Z) : K Z :=
  assert_ (IP_VALID port);;
  P ← port_get port;
  assert_ (ip_active P);;
  port_put port (set_ip_sorights (u32 (ip_sorights P + 1)) P);;
  ip_reference port;;
  mret port.

(** [ipc_port_release_sonce] (osfmk/ipc/ipc_port.c, 1077-1097). *)
Definition ipc_port_release_sonce (port : Z) : K unit :=
  assert_ (IP_VALID port);;
  P ← port_get port;
  assert_ (0 <? ip_sorights P);;
  port_put port (set_ip_sorights (u32 (ip_sorights P - 1)) P);;
  ip_release port;;
  P ← port_get port;
  if negb (ip_active P) then ip_check_unlock port else mret tt.

(** [ipc_port_release_receive] (osfmk/ipc/ipc_port.c, 1108-1125). *)
Definition ipc_port_release_receive (port : Z) : K unit :=
  assert_ (IP_VALID port);;
  P ← port_get port;
  assert_ (ip_active P);;
  assert_ (ip_receiver_name P =? MACH_PORT_NULL);;
  let dest := ip_destination P in
  ipc_port_destroy port;;
  if negb (dest =? IP_NULL) then ipc_port_release dest else mret tt.

(** [ipc_port_alloc_special] (osfmk/ipc/ipc_port.c, 1137-1167), with the zone
    allocator's answer. *)
Definition ipc_port_alloc_special (io_alloc space : Z) : K Z :=
  let port := io_alloc in
  if port =? IP_NULL then mret IP_NULL
  else
    port_put port (Port IO_BITS_ACTIVE 1 0 0 0 0 0 0 0 0 None 0 0);;
    ipc_port_init port space 1;;
    mret port.

(** [ipc_port_dealloc_special] (osfmk/ipc/ipc_port.c, 1178-1201). *)
Definition ipc_port_dealloc_special (port space : Z) : K unit :=
  P ← port_get port;
  assert_ (ip_active P);;
  assert_ (ip_receiver P =? space);;
  port_put port (set_imq_seqno 0 (set_ip_mscount 0 (set_ip_data 0
    (set_ip_receiver_name MACH_PORT_NULL P))));;
  ipc_port_destroy port.

(** * Running the kernel code *)

Lemma runs_port_get p P (Q : ipc_port -> kstate -> Prop) s :
  ks_ports s !! p = Some P -> Q P s -> runs (port_get p) Q s.
Proof. apply (runs_deref (λ s, ks_ports s !! p)). Qed.

Lemma runs_opt {S A} (o : option A) a (Q : A -> S -> Prop) s :
  o = Some a -> Q a s -> runs (opt o) Q s.
Proof. by intros ->. Qed.

Ltac kcbn := cbn [ks_ports ks_psets ks_inuse ipc_port_timestamp_data ks_trace
  set_ks_ports set_ks_psets set_timestamp_data set_ks_trace
  io_bits io_references ip_data ip_receiver_name imq_seqno ip_mscount ip_srights ip_sorights
  ip_nsrequest ip_pdrequest ip_dnrequests ip_pset_count ip_premsg
  set_io_bits set_io_references set_ip_data set_ip_receiver_name set_imq_seqno set_ip_mscount
  set_ip_srights set_ip_sorights set_ip_nsrequest set_ip_pdrequest set_ip_dnrequests
  set_ip_pset_count set_ip_premsg ipr_notify ipr_word].

Ltac klookup := kcbn; rewrite ?lookup_insert_eq; first [eassumption | reflexivity].
Ltac kbool := kcbn; first
  [ reflexivity | assumption
  | match goal with H : ?b = false |- negb ?b = true => by rewrite H end
  | apply Z.eqb_eq; lia | apply Z.ltb_lt; lia | apply Z.leb_le; lia
  | apply negb_true_iff, Z.eqb_neq; (assumption || lia)
  | apply andb_true_intro; split; (apply Z.ltb_lt || apply Z.leb_le); lia ].

(** One step of a routine: lookups by the hypotheses, assertions by arithmetic. *)
Ltac kstep :=
  lazymatch goal with
  | |- runs (mret _) _ _ => apply runs_ret
  | |- runs (mbind _ _) _ _ => apply runs_bind
  | |- runs (gets _) _ _ => apply runs_gets
  | |- runs (modify _) _ _ => apply runs_modify
  | |- runs (port_get _) _ _ => eapply runs_port_get; [klookup|]
  | |- runs (port_put _ _) _ _ => apply runs_modify
  | |- runs (port_set _ _) _ _ => unfold port_set
  | |- runs (call_ _) _ _ => apply runs_modify
  | |- runs (opt (Some _)) _ _ => apply runs_ret
  | |- runs (assert_ _) _ _ => apply runs_assert; [kbool|]
  end; kcbn; cbv beta; rewrite ?insert_insert_eq.
Ltac krun := repeat kstep.

(** * The table of requests as a finite map *)

(** The free list from index [i]. *)
Fixpoint free_chain (t : rtable) (i : Z) (fl : list Z) : Prop :=
  match fl with
  | [] => i = 0
  | j :: fl => i = j /\ 0 < j < zlen t /\
               ∃ next, t !! Z.to_nat j = Some (Ipr next MACH_PORT_NULL) /\ free_chain t next fl
  end.

(** A well-formed table: slot 0 heads the list [fl] of the slots without a name, and a
    slot with a name has a send-once right. *)
Record rtable_ok (t : rtable) (fl : list Z) : Prop := {
  rt_head : ∃ h, t !! 0%nat = Some h /\ free_chain t (ipr_next h) fl;
  rt_nodup : NoDup fl;
  rt_free : ∀ i r, 0 < i -> t !! Z.to_nat i = Some r -> ipr_name r = MACH_PORT_NULL -> i ∈ fl;
  rt_used : ∀ i r, 0 < i -> t !! Z.to_nat i = Some r -> ipr_name r <> MACH_PORT_NULL ->
              ipr_soright r <> IP_NULL }.

(** The request in slot [i]: its name and its send-once right. *)
Definition request_at (t : rtable) (i : Z) : option (Z * Z) :=
  if decide (0 < i) then
    r ← t !! Z.to_nat i;
    if ipr_name r =? MACH_PORT_NULL then None else Some (ipr_name r, ipr_soright r)
  else None.

Lemma free_chain_frame t t' i fl :
  (length t <= length t')%nat -> (∀ j, j ∈ fl -> t' !! Z.to_nat j = t !! Z.to_nat j) ->
  free_chain t i fl -> free_chain t' i fl.
Proof.
  intros Hl. revert i. induction fl as [|j fl IH]; intros i Hf; [done|].
  intros (-> & Hlt & next & E & H). split; [done|]. split; [lia|]. exists next.
  split; [rewrite Hf; [done|apply elem_of_cons; by left]|].
  apply IH; [|done]. intros k Hk. apply Hf, elem_of_cons. by right.
Qed.

Lemma free_chain_name t i fl j : free_chain t i fl -> j ∈ fl ->
  0 < j < zlen t /\ ∃ next, t !! Z.to_nat j = Some (Ipr next MACH_PORT_NULL).
Proof.
  revert i. induction fl as [|k fl IH]; intros i; [set_solver|].
  intros (-> & Hk & next & E & H) [->|Hj]%elem_of_cons; [eauto|]. by apply (IH next).
Qed.

Lemma slot_get_lookup t i r : 0 <= i -> t !! Z.to_nat i = Some r -> slot_get t i = Some r.
Proof. intros. unfold slot_get. by rewrite decide_True. Qed.

Lemma slot_put_Some t i r : 0 <= i < zlen t -> slot_put t i r = Some (<[Z.to_nat i := r]> t).
Proof. intros. unfold slot_put. by rewrite decide_True. Qed.

Lemma zlen_insert {A} (t : list A) i x : zlen (<[i := x]> t) = zlen t.
Proof. by rewrite length_insert. Qed.

Lemma request_at_insert t i j r : 0 < i < zlen t ->
  request_at (<[Z.to_nat i := r]> t) j =
    if decide (j = i) then
      if ipr_name r =? MACH_PORT_NULL then None else Some (ipr_name r, ipr_soright r)
    else request_at t j.
Proof.
  intros Hi. unfold request_at. destruct (decide (j = i)) as [->|Hne].
  - rewrite decide_True by lia. by rewrite lookup_insert_Z_eq by lia.
  - destruct (decide (0 < j)); [|done]. by rewrite lookup_insert_Z_ne by lia.
Qed.

Lemma request_at_insert_0 t j r : request_at (<[0%nat := r]> t) j = request_at t j.
Proof.
  unfold request_at. destruct (decide (0 < j)); [|done].
  by rewrite list_lookup_insert_ne by lia.
Qed.

(** Slot [i] leaves the free list. *)
Lemma rtable_take t i fl h next name soright :
  rtable_ok t (i :: fl) -> t !! 0%nat = Some h -> t !! Z.to_nat i = Some (Ipr next MACH_PORT_NULL) ->
  name <> MACH_PORT_NULL -> soright <> IP_NULL ->
  rtable_ok (<[Z.to_nat i := Ipr soright name]> (<[0%nat := Ipr next (ipr_size h)]> t)) fl.
Proof.
  intros [(h' & Eh & Hhi & Hi & next' & E & Hc) Hnd Hf Hu] Eh' E' Hname Hso.
  rewrite Eh in Eh'. injection Eh' as ->. rewrite E in E'. injection E' as ->. apply NoDup_cons in Hnd as [Hni Hnd].
  assert (Hl : length (<[Z.to_nat i := Ipr soright name]> (<[0%nat := Ipr next (ipr_size h)]> t))
               = length t) by by rewrite !length_insert.
  assert (H0 : (0 < length t)%nat) by (apply lookup_lt_Some in Eh; done).
  split; [|done|..].
  - exists (Ipr next (ipr_size h)). rewrite list_lookup_insert_ne, list_lookup_insert_eq by lia.
    split; [done|]. apply (free_chain_frame t); [lia| |done].
    intros j Hj. destruct (free_chain_name _ _ _ _ Hc Hj) as [? _].
    rewrite lookup_insert_Z_ne; [|lia|lia|by intros ->]. by rewrite list_lookup_insert_ne by lia.
  - intros j r Hj. destruct (decide (j = i)) as [->|].
    + rewrite list_lookup_insert_eq by (rewrite length_insert; lia). by intros [= <-].
    + rewrite lookup_insert_Z_ne, list_lookup_insert_ne by lia. intros Er Hr.
      by destruct (proj1 (elem_of_cons _ _ _) (Hf j r Hj Er Hr)).
  - intros j r Hj. destruct (decide (j = i)) as [->|].
    + rewrite list_lookup_insert_eq by (rewrite length_insert; lia). by intros [= <-].
    + rewrite lookup_insert_Z_ne, list_lookup_insert_ne by lia. by apply Hu.
Qed.

(** Slot [i] returns to the free list. *)
Lemma rtable_give t i fl h :
  rtable_ok t fl -> t !! 0%nat = Some h -> is_Some (request_at t i) ->
  rtable_ok (<[0%nat := Ipr i (ipr_size h)]> (<[Z.to_nat i := Ipr (ipr_next h) MACH_PORT_NULL]> t))
    (i :: fl).
Proof.
  intros [(h' & Eh & Hc) Hnd Hf Hu] Eh' [[n so] Hr].
  rewrite Eh in Eh'. injection Eh' as ->.
  unfold request_at in Hr. destruct (decide (0 < i)) as [Hi|]; [|done].
  destruct (t !! Z.to_nat i) as [r|] eqn:Er; [|done]. cbn [mbind option_bind] in Hr.
  destruct (Z.eqb_spec (ipr_name r) MACH_PORT_NULL) as [|Hn]; [done|].
  assert (Hil : 0 < i < zlen t) by (apply lookup_lt_Some in Er; lia).
  assert (Hni : i ∉ fl).
  { intros Hin. destruct (free_chain_name _ _ _ _ Hc Hin) as (_ & next & E). simplify_eq. }
  split; [|by apply NoDup_cons|..].
  - exists (Ipr i (ipr_size h)). rewrite list_lookup_insert_eq by (rewrite length_insert; lia).
    split; [done|]. cbn. rewrite !length_insert. split; [done|]. split; [lia|].
    exists (ipr_next h). rewrite list_lookup_insert_ne, list_lookup_insert_eq by lia.
    split; [done|]. apply (free_chain_frame t); [by rewrite !length_insert| |done].
    intros j Hj. destruct (free_chain_name _ _ _ _ Hc Hj) as [? _].
    rewrite list_lookup_insert_ne by lia. by rewrite lookup_insert_Z_ne; [|lia|lia|intros ->].
  - intros j r' Hj. rewrite list_lookup_insert_ne by lia.
    destruct (decide (j = i)) as [->|]; [intros; apply elem_of_cons; by left|].
    rewrite lookup_insert_Z_ne by lia. intros. apply elem_of_cons. right. by apply (Hf j r').
  - intros j r' Hj. rewrite list_lookup_insert_ne by lia. destruct (decide (j = i)) as [->|].
    + rewrite lookup_insert_Z_eq by lia. by intros [= <-].
    + rewrite lookup_insert_Z_ne by lia. by apply Hu.
Qed.

(** What holds of a port's table: well-formed, with the number of slots its size says. *)
Definition table_ok (sizes : list Z) (t : rtable) (fl : list Z) : Prop :=
  rtable_ok t fl /\ ∃ h, t !! 0%nat = Some h /\ 0 <= ipr_size h /\
    sizes !! Z.to_nat (ipr_size h) = Some (zlen t).

Lemma table_ok_size sizes t fl h : table_ok sizes t fl -> t !! 0%nat = Some h ->
  0 <= ipr_size h /\ sizes !! Z.to_nat (ipr_size h) = Some (zlen t).
Proof. intros (_ & h' & E & ?) E'. rewrite E in E'. by injection E' as ->. Qed.

(** The table after a request took slot [i] off the head of the free list. *)
Definition slot_taken (i name soright : Z) (t : rtable) : rtable :=
  match t !! 0%nat, t !! Z.to_nat i with
  | Some h, Some r => <[Z.to_nat i := Ipr soright name]> (<[0%nat := Ipr (ipr_next r) (ipr_size h)]> t)
  | _, _ => t
  end.

(** The table after the request in slot [i] was cancelled: the slot heads the free list. *)
Definition slot_freed (i : Z) (t : rtable) : rtable :=
  match t !! 0%nat with
  | Some h => <[0%nat := Ipr i (ipr_size h)]> (<[Z.to_nat i := Ipr (ipr_next h) MACH_PORT_NULL]> t)
  | None => t
  end.

(** The effect of [ipc_port_dnrequest] on a table with free list [fl]. *)
Lemma dnrequest_runs sizes port name soright P a t fl s (Q : Z * Z -> kstate -> Prop) :
  ks_ports s !! port = Some P -> ip_active P = true -> ip_dnrequests P = Some (a, t) ->
  table_ok sizes t fl -> name <> MACH_PORT_NULL -> soright <> IP_NULL ->
  match fl with
  | [] => Q (KERN_NO_SPACE, 0) s
  | i :: fl' => let t' := slot_taken i name soright t in
      table_ok sizes t' fl' -> request_at t i = None -> 0 < i ->
      (∀ j, request_at t' j = if decide (j = i) then Some (name, soright) else request_at t j) ->
      Q (KERN_SUCCESS, i)
        (set_ks_ports (<[port := set_ip_dnrequests (Some (a, t')) P]> (ks_ports s)) s)
  end ->
  runs (ipc_port_dnrequest port name soright) Q s.
Proof.
  intros EP Hact Et Hok Hname Hso HQ. unfold ipc_port_dnrequest. krun. rewrite Et.
  pose proof Hok as [Hr (h & Eh & Hsz)]. destruct (rt_head _ _ Hr) as (h' & Eh' & Hc).
  rewrite Eh in Eh'. injection Eh' as <-. rewrite (slot_get_lookup _ 0 _ (Z.le_refl 0) Eh). krun.
  destruct fl as [|i fl]; cbn [free_chain] in Hc.
  { rewrite Hc. simpl. by krun. }
  destruct Hc as (Hi & Hlt & next & Ei & Hc). rewrite Hi.
  destruct (Z.eqb_spec i 0); [lia|]. rewrite (slot_get_lookup _ i _ ltac:(lia) Ei). krun.
  rewrite slot_put_Some by lia. krun.
  rewrite slot_put_Some by (rewrite length_insert; lia). krun.
  unfold slot_taken in HQ. rewrite Eh, Ei in HQ. cbv zeta in HQ. apply HQ.
  - split; [by eapply rtable_take|]. exists (Ipr next (ipr_size h)).
    rewrite list_lookup_insert_ne, list_lookup_insert_eq by lia. by rewrite !length_insert.
  - unfold request_at. rewrite decide_True, Ei by lia. done.
  - lia.
  - intros j. rewrite request_at_insert by (rewrite length_insert; lia). cbn.
    destruct (decide (j = i)); [by rewrite (proj2 (Z.eqb_neq _ _) Hname)|].
    apply request_at_insert_0.
Qed.

(** Cancelling the request puts every slot of the table back. *)
Lemma slot_freed_taken sizes i fl name soright t : table_ok sizes t (i :: fl) ->
  slot_freed i (slot_taken i name soright t) = t.
Proof.
  intros [[(h & Eh & Hi & Hlt & next & Ei & _) _ _ _] _]. unfold slot_freed, slot_taken. rewrite Eh, Ei.
  assert (H0 : Z.to_nat i <> 0%nat) by lia.
  rewrite list_lookup_insert_ne, list_lookup_insert_eq by lia. cbn [ipr_notify ipr_word].
  rewrite list_insert_insert_eq.
  apply list_eq. intros j. destruct (decide (j = 0%nat)) as [->|Hj0].
  - rewrite list_lookup_insert_eq by (rewrite !length_insert; lia).
    rewrite Eh. destruct h as [hn hs]. cbn in *. by rewrite Hi.
  - rewrite list_lookup_insert_ne by done. destruct (decide (j = Z.to_nat i)) as [->|Hji].
    + rewrite list_lookup_insert_eq by (rewrite length_insert; lia). by rewrite Ei.
    + by rewrite !list_lookup_insert_ne by done.
Qed.

Lemma dncancel_runs sizes port name index soright P a t fl s (Q : Z -> kstate -> Prop) :
  ks_ports s !! port = Some P -> ip_active P = true -> ip_dnrequests P = Some (a, t) ->
  table_ok sizes t fl -> request_at t index = Some (name, soright) ->
  (table_ok sizes (slot_freed index t) (index :: fl) ->
     (∀ j, request_at (slot_freed index t) j = if decide (j = index) then None else request_at t j) ->
     Q soright (set_ks_ports (<[port := set_ip_dnrequests (Some (a, slot_freed index t)) P]> (ks_ports s)) s)) ->
  runs (ipc_port_dncancel port name index) Q s.
Proof.
  intros EP Hact Et Hok Er HQ. unfold ipc_port_dncancel, table_get.
  pose proof Er as Er'. unfold request_at in Er'.
  destruct (decide (0 < index)) as [Hi|]; [|done].
  destruct (t !! Z.to_nat index) as [r|] eqn:Ei; [|done]. cbn [mbind option_bind] in Er'.
  destruct (Z.eqb_spec (ipr_name r) MACH_PORT_NULL) as [|Hn]; [done|]. injection Er' as <- <-.
  assert (Hil : 0 < index < zlen t) by (apply lookup_lt_Some in Ei; lia).
  pose proof Hok as [Hr (h & Eh & Hsz)]. unfold slot_freed in HQ. rewrite Eh in HQ.
  krun. rewrite Et. krun. rewrite (slot_get_lookup _ index _ ltac:(lia) Ei). krun.
  rewrite (slot_get_lookup _ 0 _ (Z.le_refl 0) Eh). krun.
  rewrite slot_put_Some by lia. krun.
  rewrite slot_put_Some by (rewrite length_insert; lia). krun.
  apply HQ.
  - split; [by eapply rtable_give|]. exists (Ipr index (ipr_size h)).
    rewrite list_lookup_insert_eq by (rewrite length_insert; lia). by rewrite !length_insert.
  - intros j. rewrite request_at_insert_0, request_at_insert by lia. done.
Qed.

Lemma free_chain_next t i fl : free_chain t i fl -> fl = [] /\ i = 0 \/ ∃ fl', fl = i :: fl' /\ 0 < i.
Proof. destruct fl as [|j fl]; [by left|]. intros (-> & ? & _). right. eauto with lia. Qed.

(** The loop that puts the new slots on the free list. *)
Lemma add_free_spec n : ∀ t i free fl, 0 < i -> i + Z.of_nat n = zlen t ->
  free_chain t free fl -> Forall (λ j, j < i) fl -> NoDup fl ->
  ∃ t' free' fl', add_free n t i free = Some (t', free') /\ length t' = length t /\
    free_chain t' free' (fl' ++ fl) /\ NoDup (fl' ++ fl) /\
    (∀ j, 0 <= j < i -> t' !! Z.to_nat j = t !! Z.to_nat j) /\
    (∀ j, i <= j < zlen t -> j ∈ fl' /\ ∃ next, t' !! Z.to_nat j = Some (Ipr next MACH_PORT_NULL)).
Proof.
  induction n as [|n IH]; intros t i free fl Hi Hn Hc Hlt Hnd; cbn [add_free].
  { exists t, free, []. repeat (split; [done|]). intros j Hj. lia. }
  rewrite slot_put_Some by lia. cbn [mbind option_bind].
  destruct (IH (<[Z.to_nat i := Ipr free MACH_PORT_NULL]> t) (i + 1) i (i :: fl))
    as (t' & free' & fl' & E & Hl & Hc' & Hnd' & Hold & Hnew).
  - lia.
  - rewrite length_insert. lia.
  - cbn [free_chain]. rewrite length_insert. split; [done|]. split; [lia|]. exists free.
    rewrite lookup_insert_Z_eq by lia. split; [done|].
    apply (free_chain_frame t); [by rewrite length_insert| |done].
    intros j Hj. pose proof (proj1 (Forall_forall _ _) Hlt j Hj) as Hji. cbn beta in Hji.
    destruct (free_chain_name _ _ _ _ Hc Hj) as [? _]. by rewrite lookup_insert_Z_ne by lia.
  - constructor; [lia|]. eapply Forall_impl; [exact Hlt|]. cbn beta. lia.
  - apply NoDup_cons. split; [|done]. intros Hin.
    pose proof (proj1 (Forall_forall _ _) Hlt i Hin). cbn beta in *. lia.
  - exists t', free', (fl' ++ [i]). rewrite <- !app_assoc. rewrite length_insert in Hl, Hnew.
    repeat (split; [done|]). split.
    + intros j Hj. rewrite Hold, lookup_insert_Z_ne by lia. done.
    + intros j Hj. destruct (decide (j = i)) as [->|].
      * split; [apply elem_of_app; right; by apply list_elem_of_singleton|].
        exists free. rewrite Hold, lookup_insert_Z_eq by lia. done.
      * destruct (Hnew j) as [Hin Hex]; [lia|]. split; [|done]. apply elem_of_app. by left.
Qed.

(** The copy of the old table in the new block. *)
Lemma copied_lookup (nt ot : rtable) (osize j : Z) :
  0 < osize <= zlen ot -> zlen ot <= zlen nt -> 0 < j < osize ->
  (take 1 nt ++ take (Z.to_nat (osize - 1)) (drop 1 ot) ++ drop (S (Z.to_nat (osize - 1))) nt)
    !! Z.to_nat j = ot !! Z.to_nat j.
Proof.
  intros Ho Hn Hj. rewrite lookup_app_r by (rewrite length_take; lia).
  rewrite length_take, (Nat.min_l 1 (length nt)) by lia.
  rewrite lookup_app_l by (rewrite length_take, length_drop; lia).
  rewrite lookup_take_lt by lia. rewrite lookup_drop. f_equal. lia.
Qed.

Lemma length_copied (nt ot : rtable) (osize : Z) :
  0 < osize <= zlen ot -> zlen ot <= zlen nt ->
  length (take 1 nt ++ take (Z.to_nat (osize - 1)) (drop 1 ot)
          ++ drop (S (Z.to_nat (osize - 1))) nt) = length nt.
Proof. intros. rewrite !length_app, !length_take, !length_drop. lia. Qed.

(** The requests of a port. *)
Definition requests (dn : option (Z * rtable)) (j : Z) : option (Z * Z) :=
  match dn with Some (_, t) => request_at t j | None => None end.

Section growing.
Context (sizes : list Z) `{!RequestSizes sizes}.

(** The next size is larger, or is the zero at the end. *)
Lemma sizes_next k a b : sizes !! k = Some a -> sizes !! S k = Some b -> b <> 0 -> 2 <= a < b.
Proof.
  intros Ha Hb Hne. rewrite rs_last in Ha, Hb.
  destruct (decide (S k < length rs_sizes)%nat) as [Hk|Hk].
  - rewrite lookup_app_l in Ha, Hb by lia.
    pose proof (Forall_lookup_1 _ _ _ _ rs_first Ha) as H2. cbn beta in H2. split; [done|].
    by apply (sorted_next rs_sizes k), Hb; [apply rs_incr|].
  - rewrite lookup_app_r in Hb by lia. destruct (S k - length rs_sizes)%nat as [|m] eqn:E; simpl in Hb.
    + by injection Hb as <-.
    + by rewrite lookup_nil in Hb.
Qed.

Lemma sizes_pos k a : sizes !! k = Some a -> a <> 0 -> 2 <= a.
Proof.
  intros Ha Hne. rewrite rs_last in Ha. apply lookup_app_Some in Ha as [Ha|[_ Ha]].
  - exact (Forall_lookup_1 _ _ _ _ rs_first Ha).
  - apply list_elem_of_lookup_2, list_elem_of_singleton in Ha. done.
Qed.

(** The slots below [osize] of a new table hold what the old table held. *)
Record based (otable : option (Z * rtable)) (osize free : Z) (t : rtable) (fl : list Z) : Prop := {
  ba_chain : free_chain t free fl;
  ba_nodup : NoDup fl;
  ba_below : Forall (λ j, j < osize) fl;
  ba_same j : 0 < j < osize -> request_at t j = requests otable j;
  ba_free j r : 0 < j < osize -> t !! Z.to_nat j = Some r -> ipr_name r = MACH_PORT_NULL -> j ∈ fl;
  ba_used j r : 0 < j < osize -> t !! Z.to_nat j = Some r -> ipr_name r <> MACH_PORT_NULL -> ipr_soright r <> IP_NULL;
  ba_above j : osize <= j -> requests otable j = None }.

(** The table a port has before it grows. *)
Definition old_table (its : Z) (otable : option (Z * rtable)) : Prop :=
  match otable with
  | None => True
  | Some (_, ot) => (∃ fl, table_ok sizes ot fl) /\ ∀ h, ot !! 0%nat = Some h -> its = ipr_size h + 1
  end.

Lemma copy_based a ot h fl ntable : table_ok sizes ot fl -> ot !! 0%nat = Some h -> zlen ot < zlen ntable ->
  let t := take 1 ntable ++ take (Z.to_nat (zlen ot - 1)) (drop 1 ot) ++ drop (S (Z.to_nat (zlen ot - 1))) ntable in
  length t = length ntable /\ based (Some (a, ot)) (zlen ot) (ipr_next h) t fl.
Proof.
  intros [Hr (h0 & Eh0 & Hh & Es)] Eh Hlt t. destruct (rt_head _ _ Hr) as (h' & Eh' & Hc).
  rewrite Eh in Eh', Eh0. injection Eh' as <-. injection Eh0 as <-.
  assert (Hpos : 0 < zlen ot) by (apply lookup_lt_Some in Eh; lia).
  assert (Hlk : ∀ j, 0 < j < zlen ot -> t !! Z.to_nat j = ot !! Z.to_nat j)
    by (intros j Hj; apply copied_lookup; lia).
  split; [apply length_copied; lia|]. split.
  - apply (free_chain_frame ot); [unfold t; rewrite length_copied; lia| |done].
    intros j Hj. destruct (free_chain_name _ _ _ _ Hc Hj) as [? _]. apply Hlk. lia.
  - apply Hr.
  - apply Forall_forall. intros j Hj. by destruct (free_chain_name _ _ _ _ Hc Hj) as [[_ ?] _].
  - intros j Hj. unfold requests, request_at. by rewrite !decide_True, Hlk by lia.
  - intros j r Hj. rewrite Hlk by lia. apply (rt_free _ _ Hr). lia.
  - intros j r Hj. rewrite Hlk by lia. apply (rt_used _ _ Hr). lia.
  - intros j Hj. unfold requests, request_at. destruct (decide (0 < j)); [|done].
    by rewrite lookup_ge_None_2 by lia.
Qed.

Lemma based_runs {R : Type} otable its nsize ntable s (k : Z * Z * rtable -> kern kstate R) (Q : R -> kstate -> Prop) :
  0 <= its -> sizes !! Z.to_nat its = Some nsize -> nsize <> 0 -> zlen ntable = nsize -> old_table its otable ->
  (∀ osize free t fl, 0 < osize < nsize -> length t = length ntable -> based otable osize free t fl ->
     runs (k (osize, free, t)) Q s) ->
  runs (r ← match otable with
            | Some (_, ot) =>
                head ← opt (slot_get ot 0);
                osize ← its_size sizes (ipr_size head);
                let n := Z.to_nat (osize - 1) in
                mret (osize, ipr_next head, take 1 ntable ++ take n (drop 1 ot) ++ drop (S n) ntable)
            | None => mret (1, 0, ntable)
            end; k r) Q s.
Proof.
  intros Hits Hsz Hnz Hlen Ho HQ. apply runs_bind. destruct otable as [[a ot]|].
  - destruct Ho as [[fl Hok] Hnext]. pose proof Hok as [_ (h & Eh & Hh & Es)]. specialize (Hnext h Eh). subst its.
    rewrite Z2Nat.inj_add, Nat.add_1_r in Hsz by lia. pose proof (sizes_next _ _ _ Es Hsz Hnz) as Hlt.
    rewrite (slot_get_lookup _ 0 _ (Z.le_refl 0) Eh). krun. unfold its_size. rewrite decide_True, Es by done. krun.
    destruct (copy_based a ot h fl ntable Hok Eh) as [Hl Hb]; [lia|]. by apply (HQ _ _ _ fl); [lia|..].
  - krun. pose proof (sizes_pos _ _ Hsz Hnz). apply (HQ 1 0 ntable []); [lia|done|].
    split; try done; [apply NoDup_nil_2|intros; lia..].
Qed.

(** The new slots are on the free list, and the head is in place. *)
Lemma based_filled otable its nsize osize free t0 fl : 0 <= its -> sizes !! Z.to_nat its = Some nsize ->
  0 < osize < nsize -> zlen t0 = nsize -> based otable osize free t0 fl ->
  ∃ nt free' fl', add_free (Z.to_nat (nsize - osize)) t0 osize free = Some (nt, free') /\ zlen nt = nsize /\
    table_ok sizes (<[0%nat := Ipr free' its]> nt) fl' /\ fl' <> [] /\
    ∀ j, request_at (<[0%nat := Ipr free' its]> nt) j = requests otable j.
Proof.
  intros Hits Hsz Hos Hl0 [Hc Hnd Hlt Hreq Hfree Hused Hout].
  destruct (add_free_spec (Z.to_nat (nsize - osize)) t0 osize free fl)
    as (nt & free' & fl' & E & Hl & Hc' & Hnd' & Hold & Hnew); [lia|lia|done|done|done|].
  exists nt, free', (fl' ++ fl). split; [done|]. split; [lia|].
  assert (Hlk : ∀ j, 0 < j -> <[0%nat := Ipr free' its]> nt !! Z.to_nat j = nt !! Z.to_nat j).
  { intros j Hj. apply list_lookup_insert_ne. lia. }
  assert (Hh : <[0%nat := Ipr free' its]> nt !! 0%nat = Some (Ipr free' its)) by (apply list_lookup_insert_eq; lia).
  split; [|split].
  - split; [split; [|done|..]|].
    + exists (Ipr free' its). split; [done|].
      apply (free_chain_frame nt); [by rewrite length_insert| |done].
      intros j Hj. destruct (free_chain_name _ _ _ _ Hc' Hj) as [[? _] _]. by apply Hlk.
    + intros j r Hj. rewrite Hlk by done. intros Er Hn. apply elem_of_app.
      destruct (decide (j < osize)); [right; apply (Hfree j r); [lia| |done]; by rewrite <- Hold by lia|].
      left. apply lookup_lt_Some in Er. apply Hnew. lia.
    + intros j r Hj. rewrite Hlk by done. intros Er Hn.
      destruct (decide (j < osize)); [apply (Hused j r); [lia| |done]; by rewrite <- Hold by lia|].
      pose proof Er as Er'%lookup_lt_Some. destruct (Hnew j) as [_ [nx Ej]]; [lia|].
      rewrite Er in Ej. injection Ej as ->. done.
    + exists (Ipr free' its). rewrite length_insert. do 2 (split; [done|]). cbn [ipr_word]. rewrite Hsz. f_equal. lia.
  - intros Hnil. apply app_nil in Hnil as [-> _]. destruct (Hnew osize) as [Hin _]; [lia|].
    by apply not_elem_of_nil in Hin.
  - intros j. rewrite request_at_insert_0. destruct (decide (0 < j < osize)) as [Hj|Hj].
    + rewrite <- Hreq by done. unfold request_at. by rewrite Hold by lia.
    + destruct (decide (0 < j)); last first.
      { unfold requests, request_at. destruct otable as [[? ?]|]; by rewrite ?decide_False. }
      rewrite Hout by lia. unfold request_at. rewrite decide_True by done.
      destruct (decide (j < zlen t0)); [|by rewrite lookup_ge_None_2 by lia].
      destruct (Hnew j) as [_ [nx ->]]; [lia|]. done.
Qed.

(** What a grown table is, for a block with the next size. *)
Lemma grown_table_runs otable its nsize ntable s (Q : rtable -> kstate -> Prop) :
  0 <= its -> sizes !! Z.to_nat its = Some nsize -> nsize <> 0 -> zlen ntable = nsize -> old_table its otable ->
  (∀ nt fl, table_ok sizes nt fl -> fl <> [] -> (∀ j, request_at nt j = requests otable j) -> Q nt s) ->
  runs (grown_table sizes otable its nsize ntable) Q s.
Proof.
  intros Hits Hsz Hnz Hlen Ho HQ. unfold grown_table. apply (based_runs otable its nsize); [done..|].
  intros osize free t fl Hos Hl Hb. krun.
  destruct (based_filled otable its nsize osize free t fl) as (nt & free' & fl' & E & Hlnt & Hok & Hne & Hreq);
    [done|done|done|lia|done|].
  rewrite E. krun. rewrite slot_put_Some by lia. krun. by apply (HQ _ fl').
Qed.
End growing.

(** What the routines keep true of a port by itself. *)
Record port_ok (sizes : list Z) (P : ipc_port) : Prop := {
  po_refs : 0 < io_references P < IO_MAX_REFERENCES;
  po_table : match ip_dnrequests P with
             | Some (a, t) => a <> 0 /\ ∃ fl, table_ok sizes t fl
             | None => True
             end }.

Lemma port_put_same s p P : ks_ports s !! p = Some P ->
  set_ks_ports (<[p := P]> (ks_ports s)) s = s.
Proof. intros H. destruct s. unfold set_ks_ports. simpl in *. by rewrite insert_id. Qed.

Lemma set_references_id P : set_io_references (io_references P) P = P.
Proof. by destruct P. Qed.

Lemma set_references_back P :
  set_io_references (io_references P + 1 - 1) (set_io_references (io_references P + 1) P) = P.
Proof. rewrite Z.add_simpl_r. by destruct P. Qed.

Lemma kstate_eta s : KState (ks_ports s) (ks_psets s) (ks_inuse s) (ipc_port_timestamp_data s)
  (ks_trace s) = s.
Proof. by destruct s. Qed.

Section dngrow_spec.
Context (sizes : list Z) `{!RequestSizes sizes}.

(** The place of the size the table of [P] grows to. *)
Definition next_its (P : ipc_port) : Z :=
  match ip_dnrequests P with
  | None => 0
  | Some (_, t) => match t !! 0%nat with Some h => ipr_size h + 1 | None => 0 end
  end.

Definition table_addr (P : ipc_port) : Z :=
  match ip_dnrequests P with Some (a, _) => a | None => 0 end.

Lemma next_its_nonneg P : port_ok sizes P -> 0 <= next_its P.
Proof.
  unfold next_its. intros [_ H]. destruct (ip_dnrequests P) as [[a t]|]; [|done].
  destruct H as (_ & fl & _ & h & -> & ? & _). lia.
Qed.

Lemma dngrow_begin_runs port P s (Q : Z + Z * Z -> kstate -> Prop) :
  ks_ports s !! port = Some P -> ip_active P = true -> port_ok sizes P ->
  Q (inr (next_its P, table_addr P))
    (set_ks_ports (<[port := set_io_references (io_references P + 1) P]> (ks_ports s)) s) ->
  runs (dngrow_begin sizes port ITS_SIZE_NONE) Q s.
Proof.
  intros EP Hact [Hrefs Ht] HQ. unfold dngrow_begin, next_its, table_addr in *.
  destruct (ip_dnrequests P) as [[a t]|] eqn:Et.
  - destruct Ht as (_ & fl & _ & h & Eh & _). rewrite Eh in HQ.
    krun. rewrite Et. krun. rewrite (slot_get_lookup _ 0 _ (Z.le_refl 0) Eh). krun.
    change (negb (ITS_SIZE_NONE =? ITS_SIZE_NONE)) with false. cbn iota. krun.
    unfold ip_reference. krun. exact HQ.
  - krun. rewrite Et. krun.
    change (negb (ITS_SIZE_NONE =? ITS_SIZE_NONE)) with false. cbn iota. krun.
    unfold ip_reference. krun. exact HQ.
Qed.

Lemma ip_release_runs port P s (Q : unit -> kstate -> Prop) :
  ks_ports s !! port = Some P -> 0 < io_references P <= IO_MAX_REFERENCES ->
  Q tt (set_ks_ports (<[port := set_io_references (io_references P - 1) P]> (ks_ports s)) s) ->
  runs (ip_release port) Q s.
Proof. intros EP Hr HQ. unfold ip_release. krun. exact HQ. Qed.

Lemma ip_check_unlock_runs port P s (Q : unit -> kstate -> Prop) :
  ks_ports s !! port = Some P ->
  (io_references P <> 0 -> Q tt s) ->
  (io_references P = 0 -> Q tt (set_ks_ports (delete port (ks_ports s)) s)) ->
  runs (ip_check_unlock port) Q s.
Proof.
  intros EP H1 H0. unfold ip_check_unlock. krun.
  destruct (Z.eqb_spec (io_references P) 0); krun; auto.
Qed.

Lemma ipc_port_release_runs port P s (Q : unit -> kstate -> Prop) :
  ks_ports s !! port = Some P -> 0 < io_references P <= IO_MAX_REFERENCES ->
  (io_references P <> 1 ->
     Q tt (set_ks_ports (<[port := set_io_references (io_references P - 1) P]> (ks_ports s)) s)) ->
  (io_references P = 1 -> Q tt (set_ks_ports (delete port (ks_ports s)) s)) ->
  runs (ipc_port_release port) Q s.
Proof.
  intros EP Hr H1 H0. unfold ipc_port_release. krun. eapply ip_release_runs; [done..|].
  eapply ip_check_unlock_runs; [klookup|..]; kcbn; intros.
  - apply H1. lia.
  - rewrite delete_insert_eq. apply H0. lia.
Qed.

(** What is left of a port whose last step gave up one reference. *)
Definition released (port : Z) (P : ipc_port) (s : kstate) : Prop :=
  if io_references P =? 1 then ks_ports s !! port = None
  else ∃ P', ks_ports s !! port = Some P' /\ io_references P' = io_references P - 1 /\
       ip_active P' = ip_active P /\ port_ok sizes P' /\
       ∀ j, requests (ip_dnrequests P') j = requests (ip_dnrequests P) j.

Lemma released_put port P s :
  port_ok sizes P -> io_references P <> 1 ->
  released port P (set_ks_ports (<[port := set_io_references (io_references P - 1) P]>
    (ks_ports s)) s).
Proof.
  intros [Hr Ht] Hne. unfold released. destruct (Z.eqb_spec (io_references P) 1); [done|].
  exists (set_io_references (io_references P - 1) P). kcbn. rewrite lookup_insert_eq.
  repeat (split; [done|]). split; [|done]. split; kcbn; [lia|done].
Qed.

Lemma released_delete port P s :
  io_references P = 1 -> released port P (set_ks_ports (delete port (ks_ports s)) s).
Proof.
  intros E. unfold released. rewrite E, Z.eqb_refl. kcbn. apply lookup_delete_eq.
Qed.
End dngrow_spec.

Section dngrow_theorems.
Context (sizes : list Z) `{!RequestSizes sizes}.

Lemma dngrow_finish_runs block others port its oaddr s (Q : Z -> kstate -> Prop) nsize :
  0 <= its -> sizes !! Z.to_nat its = Some nsize ->
  match block with Some (a, nt) => a <> 0 /\ zlen nt = nsize | None => True end ->
  runs others (λ _ s2, ∃ P2,
    ks_ports s2 !! port = Some P2 /\ port_ok sizes P2 /\
    (ip_active P2 = true -> io_references P2 <> 1) /\
    (ip_dnrequests P2 = None -> oaddr = 0 -> its = 0) /\
    ∀ kr s3, (kr = KERN_SUCCESS \/ kr = KERN_RESOURCE_SHORTAGE) ->
      released sizes port P2 s3 ->
      (kr = KERN_RESOURCE_SHORTAGE -> nsize = 0 \/ block = None) ->
      (kr = KERN_SUCCESS -> ip_active P2 = true -> table_addr P2 = oaddr -> next_its P2 = its ->
        ∃ P3 a t i fl, ks_ports s3 !! port = Some P3 /\ ip_dnrequests P3 = Some (a, t) /\
          table_ok sizes t (i :: fl)) ->
      Q kr s3) s ->
  runs (dngrow_finish sizes block others port its oaddr) Q s.
Proof.
  intros Hits Hsz Hb Ho. unfold dngrow_finish. krun. unfold its_size.
  rewrite decide_True, Hsz by done. krun.
  eapply runs_weaken; [exact Ho|]. clear Ho. intros _ s2 (P2 & EP & Hok & Hact & Hnone & HQ).
  pose proof Hok as [Hr Ht].
  assert (Hshort : (nsize = 0 \/ block = None) ->
    runs (ipc_port_release port;; mret KERN_RESOURCE_SHORTAGE) Q s2).
  { intros Hcase. krun. eapply ipc_port_release_runs; [done|lia|..]; intros; krun; apply HQ;
      try (by right); try (intros; done); try (by apply released_put); by apply released_delete. }
  destruct (Z.eqb_spec nsize 0) as [|Hnz]; [apply Hshort; by left|].
  destruct block as [[addr nt]|]; [|apply Hshort; by right]. clear Hshort.
  destruct Hb as [Haddr Hlen]. krun. eapply ip_release_runs; [done|lia|]. krun.
  assert (Hrel : io_references P2 <> 1 ∨ ip_active P2 = false).
  { destruct (ip_active P2) eqn:Ea; [left; by apply Hact|by right]. }
  set (s3 := set_ks_ports _ s2). set (P3 := set_io_references _ P2).
  assert (E3 : ks_ports s3 !! port = Some P3) by apply lookup_insert_eq.
  assert (Hfresh : ∀ Q' : bool -> kstate -> Prop,
    (∀ b, (table_addr P2 =? oaddr) && b = (table_addr P2 =? oaddr) && (next_its P2 =? its) ->
       Q' b s3) ->
    runs (match ip_dnrequests P2 with
          | Some (_, ot) => head ← opt (slot_get ot 0); mret (ipr_size head + 1 =? its)
          | None => mret true end) Q' s3).
  { unfold next_its, table_addr. destruct (ip_dnrequests P2) as [[a t]|] eqn:Et.
    - destruct Ht as (_ & fl & _ & h & Eh & _). rewrite Eh. intros Q' HQ'.
      rewrite (slot_get_lookup _ 0 _ (Z.le_refl 0) Eh). krun. by apply HQ'.
    - intros Q' HQ'. krun. apply HQ'. destruct (Z.eqb_spec 0 oaddr) as [<-|]; [|done].
      by rewrite (Hnone eq_refl eq_refl). }
  change (ip_dnrequests P3) with (ip_dnrequests P2).
  change (ip_active P3) with (ip_active P2).
  apply Hfresh. clear Hfresh. intros b Eb.
  change (match ip_dnrequests P2 with Some (a, _) => a | None => 0 end) with (table_addr P2).
  rewrite <- andb_assoc, Eb, andb_assoc. clear b Eb.
  destruct (ip_active P2 && (table_addr P2 =? oaddr) && (next_its P2 =? its)) eqn:Etest.
  - apply andb_prop in Etest as [[Ea Eaddr]%andb_prop Enext].
    apply Z.eqb_eq in Eaddr, Enext. krun.
    apply grown_table_runs; [done|done|done|done|done|..].
    + destruct (ip_dnrequests P2) as [[a t]|] eqn:Et; [|done].
      destruct Ht as (_ & fl & Hok'). split; [by exists fl|].
      intros h Eh. rewrite <- Enext. unfold next_its. by rewrite Et, Eh.
    + intros nt' fl Hnt Hfl Hreq. krun.
      apply HQ; [by left| |done|].
      * unfold released. destruct (Z.eqb_spec (io_references P2) 1); [by destruct (Hact Ea)|].
        exists (set_ip_dnrequests (Some (addr, nt')) P3). kcbn. rewrite lookup_insert_eq.
        repeat (split; [done|]). split; [|done].
        split; kcbn; [unfold P3; kcbn; lia|]. split; [done|]. by exists fl.
      * intros _ _ _ _. destruct fl as [|i fl]; [done|].
        exists (set_ip_dnrequests (Some (addr, nt')) P3), addr, nt', i, fl.
        kcbn. by rewrite lookup_insert_eq.
  - krun. eapply ip_check_unlock_runs; [exact E3|..]; intros Hz; krun; apply HQ; try (by left);
      try (intros; done); try (intros _ Ea Eaddr Enext; by rewrite Ea, Eaddr, Enext, !Z.eqb_refl in Etest).
    + apply released_put; [done|]. unfold P3 in Hz. cbn in Hz. lia.
    + unfold s3. unfold P3 in Hz. cbn in Hz. kcbn. rewrite delete_insert_eq.
      apply (released_delete sizes port P2 s2). lia.
Qed.
Lemma sizes_succ k a : sizes !! k = Some a -> a <> 0 -> is_Some (sizes !! S k).
Proof.
  intros Ha Hne. apply lookup_lt_is_Some_2.
  pose proof (f_equal length rs_last) as Hl. rewrite length_app in Hl. cbn in Hl.
  rewrite rs_last in Ha. apply lookup_app_Some in Ha as [Ha%lookup_lt_Some|[Hk Ha]]; [lia|].
  apply list_elem_of_lookup_2, list_elem_of_singleton in Ha. done.
Qed.

Lemma next_its_size P : port_ok sizes P -> is_Some (sizes !! Z.to_nat (next_its P)).
Proof.
  intros [_ Ht]. unfold next_its. destruct (ip_dnrequests P) as [[a t]|].
  - destruct Ht as (_ & fl & _ & h & Eh & Hh & Es). rewrite Eh.
    rewrite Z2Nat.inj_add, Nat.add_1_r by lia. apply (sizes_succ _ _ Es).
    apply lookup_lt_Some in Eh. lia.
  - apply lookup_lt_is_Some_2. rewrite rs_last, length_app. cbn. lia.
Qed.

(** C26 (refinement): on a live port whose table has a free slot, a dead-name request takes the
    first slot of the free list, which held no request, and leaves the others free; it changes
    no other request and nothing else of the port.  Cancelling it returns the send-once right
    and gives back the state from before the request, the free list included. *)
Theorem dnrequest_cancel port name soright P a t i fl s :
  ks_ports s !! port = Some P -> ip_active P = true -> ip_dnrequests P = Some (a, t) ->
  table_ok sizes t (i :: fl) -> name <> MACH_PORT_NULL -> soright <> IP_NULL ->
  runs (ipc_port_dnrequest port name soright) (λ '(kr, index) s1,
    kr = KERN_SUCCESS /\ index = i /\ request_at t index = None /\
    (∃ t1, s1 = set_ks_ports (<[port := set_ip_dnrequests (Some (a, t1)) P]> (ks_ports s)) s /\
       table_ok sizes t1 fl /\
       ∀ j, request_at t1 j = if decide (j = index) then Some (name, soright) else request_at t j) /\
    runs (ipc_port_dncancel port name index) (λ right s2, right = soright /\ s2 = s) s1) s.
Proof.
  intros EP Ha Et Hok Hn Hs. eapply (dnrequest_runs sizes); [done..|].
  cbv zeta. intros Hok1 Hnone Hi Hreq.
  split; [done|]. split; [done|]. split; [done|]. split; [eauto|].
  eapply (dncancel_runs sizes); [klookup|done|klookup|done|..].
  { rewrite Hreq, decide_True by done. done. }
  intros _ _. split; [done|]. rewrite (slot_freed_taken _ _ _ _ _ _ Hok). kcbn.
  rewrite insert_insert_eq.
  rewrite insert_id; [by destruct s|]. rewrite EP. f_equal. destruct P. cbn in Et. by subst.
Qed.

(** C27 (liveness): Growing a table, whatever other threads do to the port while the new
    table is allocated, gives up the reference taken for the wait and loses no request;
    when it succeeds and nobody else grew the table, the next dead-name request finds a
    free slot, so the loop in [ipc_right_dnrequest] ends. *)
Theorem dngrow_makes_room block others port P s :
  ks_ports s !! port = Some P -> ip_active P = true -> port_ok sizes P ->
  (∀ n, sizes !! Z.to_nat (next_its P) = Some n ->
     match block with Some (a, nt) => a <> 0 /\ zlen nt = n | None => True end) ->
  let s1 := set_ks_ports (<[port := set_io_references (io_references P + 1) P]> (ks_ports s)) s in
  runs others (λ _ s2, ∃ P2, ks_ports s2 !! port = Some P2 /\ port_ok sizes P2 /\
    (ip_active P2 = true -> io_references P2 <> 1)) s1 ->
  runs (ipc_port_dngrow sizes block others port ITS_SIZE_NONE) (λ kr s3,
    (kr = KERN_SUCCESS \/ kr = KERN_RESOURCE_SHORTAGE) /\
    ∃ s2 P2, others s1 = Some (tt, s2) /\ ks_ports s2 !! port = Some P2 /\
      released sizes port P2 s3 /\
      (kr = KERN_SUCCESS -> ip_active P2 = true -> table_addr P2 = table_addr P ->
       next_its P2 = next_its P -> ∀ name soright, name <> MACH_PORT_NULL -> soright <> IP_NULL ->
       runs (ipc_port_dnrequest port name soright) (λ '(kr, _) _, kr = KERN_SUCCESS) s3)) s.
Proof.
  intros EP Ha Hok Hb s1 Ho. unfold ipc_port_dngrow. apply runs_bind.
  eapply dngrow_begin_runs; [done..|]. cbv beta iota.
  destruct (next_its_size P Hok) as [n Hn]. fold s1.
  apply runs_result in Ho as ([] & s2 & Eo & P2 & EP2 & Hok2 & Hact2).
  eapply (dngrow_finish_runs _ _ _ _ _ _ _ n); [by apply (next_its_nonneg sizes)|done|by apply Hb|].
  apply runs_result. exists tt, s2. split; [done|]. exists P2.
  split; [done|]. split; [done|]. split; [done|]. split.
  { unfold table_addr, next_its. destruct Hok as [_ Ht].
    destruct (ip_dnrequests P) as [[a t]|]; [|done]. by destruct Ht. }
  intros kr s3 Hkr Hrel _ Hroom. split; [done|]. exists s2, P2. repeat (split; [done|]).
  intros -> Ha2 Eaddr Enext name soright Hname Hso.
  destruct (Hroom eq_refl Ha2 Eaddr Enext) as (P3 & a & t & i & fl & EP3 & Et3 & Hok3).
  eapply (dnrequest_runs sizes _ _ _ P3); [done| |done..|done].
  unfold released in Hrel. destruct (io_references P2 =? 1).
  { by rewrite EP3 in Hrel. }
  destruct Hrel as (P' & EP' & _ & Hact & _). rewrite EP3 in EP'. injection EP' as ->.
  by rewrite Hact.
Qed.
Lemma sizes_zero k : sizes !! k = Some 0 -> S k = length sizes.
Proof.
  intros Hk. rewrite rs_last, length_app. cbn.
  rewrite rs_last in Hk. apply lookup_app_Some in Hk as [Hk|[Hk E]].
  - pose proof (Forall_lookup_1 _ _ _ _ rs_first Hk). cbn in *. lia.
  - apply lookup_lt_Some in E. cbn in E. lia.
Qed.

Lemma find_size_runs target s (Q : Z -> kstate -> Prop) fuel : ∀ its,
  0 <= its < zlen sizes -> zlen sizes - its <= Z.of_nat fuel ->
  (∀ its', its <= its' ->
     (∃ n, sizes !! Z.to_nat its' = Some n /\ (n = 0 \/ target <= n)) ->
     (∀ j, its <= j < its' -> ∃ n, sizes !! Z.to_nat j = Some n /\ n <> 0 /\ n < target) ->
     Q its' s) ->
  runs (find_size sizes fuel its target) Q s.
Proof.
  induction fuel as [|fuel IH]; intros its Hits Hfuel HQ; [lia|]. cbn [find_size].
  destruct (lookup_lt_is_Some_2 sizes (Z.to_nat its)) as [n Hn]; [lia|].
  krun. unfold its_size. rewrite decide_True, Hn by lia. krun.
  destruct (truth n && (n <? target)) eqn:Et.
  - apply andb_prop in Et as [Hnz%truth_true Hlt%Z.ltb_lt].
    destruct (sizes_succ _ _ Hn Hnz) as [n' Hn'%lookup_lt_Some].
    apply IH; [lia|lia|]. intros its' Hle Hex Hall. apply HQ; [lia|done|].
    intros j Hj. destruct (decide (j = its)) as [->|]; [eauto|]. apply Hall. lia.
  - krun. apply HQ; [lia| |intros; lia]. exists n. split; [done|].
    apply andb_false_iff in Et as [Hz%truth_false|Hge%Z.ltb_ge]; auto.
Qed.

(** When a port has a table of requests and the requested number of slots is
    beyond the next larger size, [ipc_port_dngrow] finds a size that is large enough,
    allocates it, throws it away and returns [KERN_SUCCESS] with the table as it was: the
    check that nobody else grew the table compares with the next size only. *)
Theorem dngrow_target_ignored port P a t fl h n1 k n target addr nt s :
  ks_ports s !! port = Some P -> ip_active P = true -> ip_dnrequests P = Some (a, t) ->
  0 < io_references P < IO_MAX_REFERENCES -> table_ok sizes t fl -> t !! 0%nat = Some h ->
  sizes !! Z.to_nat (ipr_size h + 1) = Some n1 -> 0 < n1 < target ->
  ipr_size h < Z.of_nat k -> sizes !! k = Some n -> target <= n -> target <> ITS_SIZE_NONE ->
  runs (ipc_port_dngrow sizes (Some (addr, nt)) (mret tt) port target) (λ kr s',
    kr = KERN_SUCCESS /\ s' = s /\ zlen t < target) s.
Proof.
  intros EP Ha Et Hrefs Hok Eh Hn1 Ht1 Hik Hk Htn HNone.
  destruct (table_ok_size _ _ _ _ Hok Eh) as [Hh Hsz].
  rewrite Z2Nat.inj_add, Nat.add_1_r in Hn1 by lia.
  pose proof (sizes_next _ _ _ _ Hsz Hn1) as Hlt.
  pose proof (slot_get_lookup _ 0 _ (Z.le_refl 0) Eh) as Eg.
  unfold ipc_port_dngrow, dngrow_begin. krun. rewrite Et. krun. rewrite Eg. krun.
  rewrite (proj2 (Z.eqb_neq _ _) HNone). cbn [negb]. krun.
  unfold its_size at 1. rewrite decide_True, Hsz by done. krun.
  destruct (Z.leb_spec target (zlen t)); [lia|]. krun.
  pose proof (lookup_lt_Some _ _ _ Hn1) as Hl1.
  apply find_size_runs; [lia|lia|]. intros its' Hits (n' & Hn' & Hcase) Hall. krun.
  unfold its_size. rewrite decide_True, Hn' by lia. krun.
  assert (Hnz : n' <> 0).
  { intros ->. pose proof (lookup_lt_Some _ _ _ Hk) as Hkl. pose proof (sizes_zero _ Hn').
    destruct (decide (Z.of_nat k < its')).
    - destruct (Hall (Z.of_nat k)) as (m & Em & _ & ?); [lia|].
      rewrite Nat2Z.id, Hk in Em. injection Em as ->. lia.
    - assert (k = Z.to_nat its') as -> by lia.
      rewrite Hk in Hn'. injection Hn' as ->. lia. }
  rewrite (proj2 (Z.eqb_neq _ _) Hnz). krun. unfold ip_reference. krun.
  unfold dngrow_finish. krun. unfold its_size. rewrite decide_True, Hn' by lia. krun.
  rewrite (proj2 (Z.eqb_neq _ _) Hnz). krun. unfold ip_release. krun.
  rewrite Et. krun. rewrite Eg. krun.
  destruct (Z.eqb_spec (ipr_size h + 1) its') as [Heq|].
  { subst its'. rewrite Z2Nat.inj_add, Nat.add_1_r in Hn' by lia. rewrite Hn1 in Hn'.
    injection Hn' as ->. lia. }
  rewrite andb_false_r. krun.
  eapply ip_check_unlock_runs; [klookup|..]; kcbn; intros Hz; [|lia]. krun.
  split; [done|]. split; [|lia].
  etransitivity; [|exact (port_put_same s port P EP)]. unfold set_ks_ports. do 2 f_equal.
  apply set_references_back.
Qed.

End dngrow_theorems.

(** * Chains of ports in transit *)

(** Port [x] is in transit to [y]. *)
Definition link (m : gmap Z ipc_port) (x y : Z) : Prop :=
  ∃ X, m !! x = Some X /\ not_in_transit X = false /\ ip_destination X = y.

(** The destinations are ports, and no port is on its way to itself. *)
Definition chains_ok (m : gmap Z ipc_port) : Prop :=
  (∀ x y, link m x y -> is_Some (m !! y)) /\ ∀ x, ~ tc (link m) x x.

Lemma not_in_transit_false P : not_in_transit P = false <->
  ip_active P = true /\ ip_receiver_name P = MACH_PORT_NULL /\ ip_destination P <> IP_NULL.
Proof.
  unfold not_in_transit. rewrite !orb_false_iff, !negb_false_iff, Z.eqb_eq, Z.eqb_neq. tauto.
Qed.

Lemma link_det m x y z : link m x y -> link m x z -> y = z.
Proof. intros (X & E & _ & <-) (X' & E' & _ & <-). by rewrite E in E'; injection E' as ->. Qed.

Lemma link_end m x X y : m !! x = Some X -> not_in_transit X = true -> ~ link m x y.
Proof. intros E H (X' & E' & H' & _). rewrite E in E'. injection E' as ->. congruence. Qed.

(** A port where the chain ends is reached from each port of the chain. *)
Lemma rtc_link_split m x e f : rtc (link m) x e -> (∀ y, ~ link m e y) ->
  rtc (link m) x f -> (∀ y, ~ link m f y) -> e = f.
Proof.
  induction 1 as [x|x y e Hxy _ IH]; intros He Hf Hend.
  - inversion Hf as [|? y]; [done|]. exfalso. by apply (He y).
  - inversion Hf as [|? y' ? Hxy' Hf']; subst; [by destruct (Hend y)|].
    rewrite <- (link_det _ _ _ _ Hxy Hxy') in Hf'. by apply IH.
Qed.

Section chains.
Context (m : gmap Z ipc_port) (m_ok : chains_ok m).

(** The ports met so far, all upstream of [x], are distinct: a walk is no longer than
    there are ports. *)
Definition met (X : gset Z) (x : Z) : Prop := X ⊆ dom m /\ ∀ y, y ∈ X -> tc (link m) y x.

Lemma met_next X x y : met X x -> is_Some (m !! x) -> link m x y ->
  met ({[x]} ∪ X) y /\ size ({[x]} ∪ X) = S (size X).
Proof.
  intros [HX Hup] Hx Hxy. split; [split|].
  - apply union_subseteq. split; [|done]. apply singleton_subseteq_l. by apply elem_of_dom.
  - intros z [->%elem_of_singleton|Hz]%elem_of_union; [by apply tc_once|].
    eapply tc_r; [by apply Hup|done].
  - rewrite size_union, size_singleton; [done|]. apply disjoint_singleton_l. intros Hin.
    by apply (proj2 m_ok x), Hup.
Qed.

Lemma met_size X x : met X x -> is_Some (m !! x) -> (size X < size m)%nat.
Proof.
  intros [HX Hup] Hx. rewrite <- size_dom. apply subset_size. split; [done|].
  intros H. apply elem_of_dom in Hx. by apply (proj2 m_ok x), Hup, H.
Qed.

Lemma met_empty x : met ∅ x.
Proof. split; [apply empty_subseteq|]. by intros y ?%not_elem_of_empty. Qed.

Lemma chain_end_runs fuel : ∀ base X s (Q : Z -> kstate -> Prop),
  ks_ports s = m -> met X base -> is_Some (m !! base) -> (size m <= fuel + size X)%nat ->
  (∀ e E, rtc (link m) base e -> m !! e = Some E -> not_in_transit E = true -> Q e s) ->
  runs (chain_end fuel base) Q s.
Proof.
  induction fuel as [|fuel IH]; intros base X s Q Es HX Hb Hfuel HQ.
  { pose proof (met_size _ _ HX Hb). simpl in Hfuel. lia. }
  cbn [chain_end]. destruct Hb as [B EB]. apply runs_bind.
  eapply runs_port_get; [by rewrite Es|].
  destruct (not_in_transit B) eqn:Ht; [krun; by apply (HQ base B)|].
  assert (Hl : link m base (ip_destination B)) by (by exists B).
  destruct (met_next X base _ HX (ex_intro _ B EB) Hl) as [HX' Hsz].
  eapply (IH _ _ _ _ Es HX'); [by apply (proj1 m_ok base)|lia|].
  intros e E Hr HE Hend. apply (HQ e E); [|done|done]. by eapply rtc_l.
Qed.

Lemma unlock_circle_runs port P fuel : ∀ dest X s (Q : unit -> kstate -> Prop),
  ks_ports s = m -> met X dest -> rtc (link m) dest port -> dest <> IP_NULL ->
  m !! port = Some P -> ip_active P = true -> ip_receiver_name P = MACH_PORT_NULL ->
  ip_destination P = IP_NULL -> (S (size m) <= fuel + size X)%nat ->
  Q tt s -> runs (unlock_circle fuel dest) Q s.
Proof.
  induction fuel as [|fuel IH]; intros dest X s Q Es HX Hr Hne EP Ha Hn Hd Hfuel HQ.
  { assert (is_Some (m !! dest)) as Hsome.
    { inversion Hr as [|? ? ? (D & ED & _)]; subst; eauto. }
    pose proof (met_size _ _ HX Hsome). simpl in Hfuel. lia. }
  cbn [unlock_circle]. rewrite (proj2 (Z.eqb_neq _ _) Hne). apply runs_bind.
  inversion Hr as [|? y ? Hl Hr']; subst.
  - eapply runs_port_get; [by rewrite Es|]. rewrite Hd. krun. destruct fuel as [|fuel]; [|by krun].
    pose proof (met_size _ _ HX (ex_intro _ P EP)). simpl in Hfuel. lia.
  - pose proof Hl as (D & ED & HD & Ey). eapply runs_port_get; [by rewrite Es|].
    apply not_in_transit_false in HD as (HaD & HnD & HdD). krun. rewrite Ey.
    destruct (met_next X dest _ HX (ex_intro _ D ED) Hl) as [HX' Hsz].
    eapply IH; [done|exact HX'|done|congruence|done..|lia|done].
Qed.

Lemma unlock_chain_runs base B fuel : ∀ port X s (Q : unit -> kstate -> Prop),
  ks_ports s = m -> met X port -> rtc (link m) port base -> m !! base = Some B ->
  (S (size m) <= fuel + size X)%nat -> Q tt s -> runs (unlock_chain fuel port base) Q s.
Proof.
  induction fuel as [|fuel IH]; intros port X s Q Es HX Hr EB Hfuel HQ.
  { assert (is_Some (m !! port)) as Hsome.
    { inversion Hr as [|? ? ? (D & ED & _)]; subst; eauto. }
    pose proof (met_size _ _ HX Hsome). simpl in Hfuel. lia. }
  cbn [unlock_chain]. destruct (Z.eqb_spec port base) as [|Hne]; [by krun|].
  inversion Hr as [|? y ? Hl Hr']; subst; [done|]. pose proof Hl as (D & ED & HD & Ey).
  apply runs_bind. eapply runs_port_get; [by rewrite Es|].
  apply not_in_transit_false in HD as (HaD & HnD & HdD). krun. rewrite Ey.
  destruct (met_next X port _ HX (ex_intro _ D ED) Hl) as [HX' Hsz].
  eapply IH; [done|exact HX'|done|done|lia|done].
Qed.

(** A new link from a port in limbo makes no circle when the port is not downstream. *)
Lemma chains_ok_link port P dest m' :
  m !! port = Some P -> not_in_transit P = true -> is_Some (m !! dest) ->
  ~ rtc (link m) dest port ->
  (∀ x y, link m' x y <-> (x = port /\ y = dest) \/ (x <> port /\ link m x y)) ->
  (∀ x, is_Some (m !! x) -> is_Some (m' !! x)) ->
  chains_ok m' /\ (∀ e, rtc (link m) dest e -> rtc (link m') dest e).
Proof.
  intros EP HP Hdest Hno Hlink Hdom.
  assert (Hback : ∀ y, rtc (link m') dest y -> rtc (link m) dest y).
  { apply rtc_ind_r; [done|]. intros y z _ Hyz IH.
    apply Hlink in Hyz as [[-> _]|[_ Hyz]]; [done|]. by eapply rtc_r. }
  assert (Hsplit : ∀ x y, tc (link m') x y ->
    tc (link m) x y \/ (rtc (link m') x port /\ rtc (link m') dest y)).
  { intros x y H. induction H as [x y Hxy|x y z Hxy H IH].
    - apply Hlink in Hxy as [[-> ->]|[_ Hxy]]; [by right|left; by apply tc_once].
    - pose proof Hxy as Hxy'. apply Hlink in Hxy' as [[-> ->]|[_ Hxy']].
      + right. split; [done|]. by apply tc_rtc.
      + destruct IH as [IH|[IH1 IH2]]; [left; by eapply tc_l|].
        right. split; [by eapply rtc_l|done]. }
  split; [split|].
  - intros x y [[_ ->]|[_ Hxy]]%Hlink; apply Hdom; [done|]. by apply (proj1 m_ok x).
  - intros x Hx. destruct (Hsplit x x Hx) as [H|[H1 H2]]; [by apply (proj2 m_ok x)|].
    apply Hno, Hback. by trans x.
  - apply rtc_ind_r; [done|]. intros y z Hdy Hyz IH.
    eapply rtc_r; [done|]. apply Hlink. right. split; [|done]. by intros ->.
Qed.
End chains.

Section circularity.
Context (port dest : Z) (P D : ipc_port) (s : kstate).
Context (Hok : chains_ok (ks_ports s)).
Context (EP : ks_ports s !! port = Some P) (Hact : ip_active P = true)
        (Hname : ip_receiver_name P = MACH_PORT_NULL) (Hdst : ip_destination P = IP_NULL).
Context (ED : ks_ports s !! dest = Some D) (Hport0 : port <> IP_NULL) (Hdest0 : dest <> IP_NULL).
Context (Hrefs : io_references D < IO_MAX_REFERENCES).

(** The ports once [port] is on its way to [dest]. *)
Definition sent : gmap Z ipc_port :=
  <[port := set_ip_data dest P]> (<[dest := set_io_references (io_references D + 1) D]> (ks_ports s)).

Lemma limbo_end : not_in_transit P = true.
Proof. unfold not_in_transit. by rewrite Hact, Hname, Hdst. Qed.

Lemma sent_link x y : port <> dest ->
  link sent x y <-> (x = port /\ y = dest) \/ (x <> port /\ link (ks_ports s) x y).
Proof.
  intros Hne. unfold link, sent. destruct (decide (x = port)) as [->|Hx].
  - rewrite lookup_insert_eq. split.
    + intros (X & [= <-] & _ & <-). by left.
    + intros [[_ ->]|[? _]]; [|done]. eexists. split; [done|]. split; [|done].
      apply not_in_transit_false. done.
  - rewrite lookup_insert_ne by done. destruct (decide (x = dest)) as [->|Hxd].
    + rewrite lookup_insert_eq, ED. split.
      * intros (X & [= <-] & Ht & <-). right. split; [done|]. by exists D.
      * intros [[-> _]|(_ & X & [= <-] & Ht & <-)]; [done|]. eexists. split; [done|]. done.
    + rewrite lookup_insert_ne by done. split; [by right|]. by intros [[-> _]|[_ ?]].
Qed.

(** The common end: the chain from [dest] to [base] does not meet [port]. *)
Lemma not_circular_runs base B (Q : bool -> kstate -> Prop) :
  port <> dest -> ~ rtc (link (ks_ports s)) dest port -> rtc (link (ks_ports s)) dest base ->
  ks_ports s !! base = Some B -> not_in_transit B = true ->
  (chains_ok sent -> link sent port dest -> Q false (set_ks_ports sent s)) ->
  runs (ip_reference dest) (λ _, runs (port_set port (set_ip_data dest);;
        unlock_chain (S (S (size (ks_ports s)))) port base;;
        B ← port_get base; assert_ (not_in_transit B);; mret false) Q) s.
Proof.
  intros Hne Hno Hbase EB HB HQ.
  assert (Hpb : port <> base) by (intros ->; done).
  destruct (chains_ok_link _ Hok port P dest sent) as [Hok' Hrtc];
    [done|exact limbo_end|eauto|done|intros; by apply sent_link|..].
  { intros x Hx. unfold sent. destruct (decide (x = port)) as [->|]; [by rewrite lookup_insert_eq|].
    rewrite lookup_insert_ne by done. destruct (decide (x = dest)) as [->|];
      [by rewrite lookup_insert_eq|by rewrite lookup_insert_ne]. }
  assert (HB' : ∃ B', sent !! base = Some B' /\ not_in_transit B' = true).
  { unfold sent. rewrite lookup_insert_ne by done. destruct (decide (base = dest)) as [->|Hbd].
    - rewrite lookup_insert_eq. rewrite ED in EB. injection EB as ->. eauto.
    - rewrite lookup_insert_ne by done. eauto. }
  destruct HB' as (B' & EB' & HB').
  assert (Hsz : size sent = size (ks_ports s)).
  { unfold sent. rewrite !map_size_insert_Some; [done|eauto|rewrite lookup_insert_ne by done; eauto]. }
  unfold ip_reference. krun.
  eapply runs_port_get; [kcbn; by rewrite lookup_insert_ne|]. krun.
  eapply (unlock_chain_runs sent Hok' base B');
    [kcbn; reflexivity|apply met_empty| |done|rewrite size_empty; lia|].
  { eapply rtc_l; [by apply sent_link; [|left]|]. by apply Hrtc. }
  krun.
  apply HQ; [done|]. apply sent_link; [done|by left].
Qed.

(** C28 (invariant): [ipc_port_check_circularity] answers TRUE exactly when the chain of
    destinations from [dest] ends at [port], and then changes nothing; otherwise it puts
    [port] in transit to [dest] with a reference, and still no port is on its way to
    itself.  Its loops end and none of its assertions fails. *)
Theorem check_circularity_correct try :
  runs (ipc_port_check_circularity try port dest) (λ circular s',
    if circular : bool then rtc (link (ks_ports s)) dest port /\ s' = s
    else ~ rtc (link (ks_ports s)) dest port /\ chains_ok (ks_ports s') /\
         link (ks_ports s') port dest /\ s' = set_ks_ports sent s) s.
Proof.
  unfold ipc_port_check_circularity. krun.
  destruct (Z.eqb_spec port dest) as [->|Hne]; [by krun|]. krun.
  pose proof (λ y, link_end _ _ _ y EP limbo_end) as Hend.
  destruct (try && not_in_transit D) eqn:Etry.
  - apply andb_prop in Etry as [_ HD].
    assert (Hno : ~ rtc (link (ks_ports s)) dest port).
    { intros Hr. inversion Hr as [|? y ? Hl]; subst; [done|]. by apply (link_end _ _ _ y ED HD). }
    krun. by apply (not_circular_runs dest D).
  - krun. eapply (chain_end_runs _ Hok); [done|apply met_empty|eauto|rewrite size_empty; lia|].
    intros base B Hb EB HB. krun. destruct (Z.eqb_spec port base) as [<-|Hpb].
    + rewrite EP in EB. injection EB as <-. krun.
      eapply (unlock_circle_runs _ Hok port P);
        [done|apply met_empty|done..|rewrite size_empty; lia|]. by krun.
    + krun. assert (Hno : ~ rtc (link (ks_ports s)) dest port).
      { intros Hr. apply Hpb. apply (rtc_link_split _ _ _ _ Hr Hend Hb).
        intros y. by apply (link_end _ _ _ y EB). }
      by apply (not_circular_runs base B).
Qed.
End circularity.

(** * The death of a port *)

(** A port after its death at time [ts], with the references it had. *)
Definition dead_port (ts : Z) (P : ipc_port) : ipc_port :=
  let P' := set_ip_dnrequests None (set_ip_data ts
              (set_io_bits (Z.ldiff (io_bits P) IO_BITS_ACTIVE) P)) in
  if truth (io_bits P &&& IP_BIT_PREALLOC) then
    set_ip_premsg 0 (set_io_bits (Z.ldiff (io_bits P') IP_BIT_PREALLOC) P')
  else P'.

(** One dead-name notification for each request, in the order of the slots. *)
Definition dead_name_calls (t : rtable) : list call :=
  omap (λ r, if ipr_name r =? MACH_PORT_NULL then None
             else Some (mach_notify_dead_name (ipr_soright r) (ipr_name r))) (drop 1 t).

(** The calls [ipc_port_destroy] makes for a port without a backup. *)
Definition death_calls (inuse : gset Z) (port : Z) (P : ipc_port) : list call :=
  (if truth (io_bits P &&& IP_BIT_PREALLOC) && bool_decide (ip_premsg P ∉ inuse)
   then [ipc_kmsg_free (ip_premsg P)] else [])
  ++ (if ip_nsrequest P =? IP_NULL then [] else [mach_notify_send_once (ip_nsrequest P)])
  ++ [ipc_mqueue_destroy port]
  ++ match ip_dnrequests P with Some (_, t) => dead_name_calls t | None => [] end
  ++ [ipc_kobject_destroy port].

(** The ports when the last step of a routine gives up a reference of [port]. *)
Definition drop_ref (port : Z) (P : ipc_port) (m : gmap Z ipc_port) : gmap Z ipc_port :=
  if io_references P =? 1 then delete port m
  else <[port := set_io_references (io_references P - 1) P]> m.

Lemma ip_active_ldiff b : truth (Z.ldiff b IO_BITS_ACTIVE &&& IO_BITS_ACTIVE) = false.
Proof.
  apply truth_false. apply Z.bits_inj'. intros i Hi.
  rewrite Z.land_spec, Z.ldiff_spec, Z.bits_0. by destruct (Z.testbit b i), (Z.testbit _ i).
Qed.

Lemma dead_port_fields ts P :
  io_references (dead_port ts P) = io_references P /\ ip_active (dead_port ts P) = false /\
  ip_dnrequests (dead_port ts P) = None /\ ip_nsrequest (dead_port ts P) = ip_nsrequest P.
Proof.
  unfold dead_port, ip_active. destruct (truth (io_bits P &&& IP_BIT_PREALLOC)); kcbn;
    repeat split; try apply ip_active_ldiff.
  apply truth_false. apply Z.bits_inj'. intros i Hi.
  rewrite Z.land_spec, !Z.ldiff_spec, Z.bits_0.
  by destruct (Z.testbit (io_bits P) i), (Z.testbit IO_BITS_ACTIVE i), (Z.testbit _ i).
Qed.

Lemma call_runs c s (Q : unit -> kstate -> Prop) :
  Q tt (set_ks_trace (ks_trace s ++ [c]) s) -> runs (call_ c) Q s.
Proof. done. Qed.

Lemma dnnotify_from_runs t : ∀ n i s (Q : unit -> kstate -> Prop),
  0 < i -> length t = (Z.to_nat i + n)%nat ->
  (∀ j r, 0 < j -> t !! Z.to_nat j = Some r -> ipr_name r <> MACH_PORT_NULL ->
     ipr_soright r <> IP_NULL) ->
  Q tt (set_ks_trace (ks_trace s ++ omap (λ r, if ipr_name r =? MACH_PORT_NULL then None
    else Some (mach_notify_dead_name (ipr_soright r) (ipr_name r))) (drop (Z.to_nat i) t)) s) ->
  runs (dnnotify_from n t i) Q s.
Proof.
  induction n as [|n IH]; intros i s Q Hi Hn Hu HQ; cbn [dnnotify_from].
  { krun. rewrite drop_ge in HQ by lia. cbn in HQ. rewrite app_nil_r in HQ.
    by destruct s. }
  destruct (lookup_lt_is_Some_2 t (Z.to_nat i)) as [r Er]; [lia|].
  rewrite (drop_S _ _ _ Er) in HQ. rewrite (slot_get_lookup _ i _ ltac:(lia) Er). krun.
  cbn [omap list_omap] in HQ.
  replace (S (Z.to_nat i)) with (Z.to_nat (i + 1)) in HQ by lia.
  destruct (Z.eqb_spec (ipr_name r) MACH_PORT_NULL) as [|Hname].
  - krun. by apply IH; [lia|lia|..].
  - specialize (Hu i r Hi Er Hname) as Hso. krun. unfold ipc_notify_dead_name. krun.
    apply IH; [lia|lia|done|]. kcbn. rewrite <- app_assoc. exact HQ.
Qed.

Lemma dnnotify_runs t fl s (Q : unit -> kstate -> Prop) : rtable_ok t fl ->
  Q tt (set_ks_trace (ks_trace s ++ dead_name_calls t) s) -> runs (ipc_port_dnnotify t) Q s.
Proof.
  intros Hok HQ. unfold ipc_port_dnnotify. apply dnnotify_from_runs; [lia| | |exact HQ].
  - destruct (rt_head _ _ Hok) as (h & Eh%lookup_lt_Some & _). lia.
  - intros j r Hj. apply (rt_used _ _ Hok). lia.
Qed.

Lemma release_runs port P s (Q : unit -> kstate -> Prop) :
  ks_ports s !! port = Some P -> 0 < io_references P <= IO_MAX_REFERENCES ->
  Q tt (set_ks_ports (drop_ref port P (ks_ports s)) s) -> runs (ipc_port_release port) Q s.
Proof.
  intros EP Hr HQ. unfold drop_ref in HQ.
  eapply ipc_port_release_runs; [done..|intros H|intros H].
  - by rewrite (proj2 (Z.eqb_neq _ _) H) in HQ.
  - by rewrite (proj2 (Z.eqb_eq _ _) H) in HQ.
Qed.

Lemma drop_ref_insert port P X m : drop_ref port P (<[port := X]> m) = drop_ref port P m.
Proof.
  unfold drop_ref. destruct (_ =? 1); [apply delete_insert_eq|apply insert_insert_eq].
Qed.

(** The three optional steps of [ipc_port_destroy]. *)
Lemma prealloc_runs port P X s (Q : unit -> kstate -> Prop) :
  ks_ports s !! port = Some X -> (truth (io_bits P &&& IP_BIT_PREALLOC) = true -> ip_premsg P <> 0) ->
  Q tt (set_ks_trace (ks_trace s ++
      if truth (io_bits P &&& IP_BIT_PREALLOC) && bool_decide (ip_premsg P ∉ ks_inuse s)
      then [ipc_kmsg_free (ip_premsg P)] else [])
    (set_ks_ports (<[port := if truth (io_bits P &&& IP_BIT_PREALLOC) then
        set_ip_premsg 0 (set_io_bits (Z.ldiff (io_bits X) IP_BIT_PREALLOC) X) else X]>
      (ks_ports s)) s)) ->
  runs (if truth (io_bits P &&& IP_BIT_PREALLOC) then
     let kmsg := ip_premsg P in
     assert_ (negb (kmsg =? 0));;
     port_set port (λ P, set_ip_premsg 0 (set_io_bits (Z.ldiff (io_bits P) IP_BIT_PREALLOC) P));;
     inuse ← gets (λ s : kstate, bool_decide (kmsg ∈ ks_inuse s));
     if (inuse : bool) then mret tt else call_ (ipc_kmsg_free kmsg)
   else mret tt) Q s.
Proof.
  intros EX Hpre HQ. destruct (truth (io_bits P &&& IP_BIT_PREALLOC)); cbn [andb] in HQ.
  - specialize (Hpre eq_refl). cbv zeta. krun. rewrite bool_decide_not in HQ.
    destruct (bool_decide (ip_premsg P ∈ ks_inuse s)); cbn [negb] in HQ; krun; [|exact HQ].
    by rewrite app_nil_r in HQ.
  - krun. rewrite app_nil_r, insert_id in HQ by done. by destruct s.
Qed.

Lemma if_call_runs (b : bool) c s (Q : unit -> kstate -> Prop) :
  Q tt (set_ks_trace (ks_trace s ++ if b then [c] else []) s) ->
  runs (if b then call_ c else mret tt) Q s.
Proof. destruct b; intros HQ; krun; [done|]. rewrite app_nil_r in HQ. by destruct s. Qed.

Lemma dnnotify_opt_runs sizes P s (Q : unit -> kstate -> Prop) : port_ok sizes P ->
  Q tt (set_ks_trace (ks_trace s ++
    match ip_dnrequests P with Some (_, t) => dead_name_calls t | None => [] end) s) ->
  runs (match ip_dnrequests P with Some (_, t) => ipc_port_dnnotify t | None => mret tt end) Q s.
Proof.
  intros [_ Ht] HQ. destruct (ip_dnrequests P) as [[a t]|].
  - destruct Ht as (_ & fl & Hok & _). by eapply dnnotify_runs.
  - krun. rewrite app_nil_r in HQ. by destruct s.
Qed.

Section destroy.
Context (sizes : list Z) (port : Z) (P : ipc_port) (s : kstate).
Context (EP : ks_ports s !! port = Some P) (Hact : ip_active P = true)
        (Hps : ip_pset_count P = 0) (Hms : ip_mscount P = 0).

Lemma destroy_backup_runs (Q : unit -> kstate -> Prop) :
  ip_pdrequest P <> IP_NULL ->
  Q tt (set_ks_trace (ks_trace s ++ [mach_notify_port_destroyed (ip_pdrequest P) port])
    (set_ks_ports (<[port := set_ip_data IP_NULL (set_ip_receiver_name MACH_PORT_NULL
       (set_ip_pdrequest IP_NULL P))]> (ks_ports s)) s)) ->
  runs (ipc_port_destroy port) Q s.
Proof.
  intros Hpd HQ. unfold ipc_port_destroy. krun.
  rewrite (proj2 (Z.eqb_neq _ _) Hpd). cbn [negb]. krun.
  unfold ipc_notify_port_destroyed. krun. exact HQ.
Qed.

Lemma destroy_dead_runs (Q : unit -> kstate -> Prop) :
  ip_pdrequest P = IP_NULL -> port_ok sizes P ->
  (truth (io_bits P &&& IP_BIT_PREALLOC) = true -> ip_premsg P <> 0) ->
  Q tt (KState (drop_ref port (dead_port (ipc_port_timestamp_data s) P) (ks_ports s))
    (ks_psets s) (ks_inuse s) (u32 (ipc_port_timestamp_data s + 1))
    (ks_trace s ++ death_calls (ks_inuse s) port P)) ->
  runs (ipc_port_destroy port) Q s.
Proof.
  intros Hpd Hok Hpre HQ. pose proof (po_refs _ _ Hok). unfold ipc_port_destroy. krun.
  rewrite Hpd. cbn [negb Z.eqb]. change (IP_NULL =? IP_NULL) with true. cbn [negb].
  unfold ipc_port_timestamp. krun.
  eapply prealloc_runs; [klookup|exact Hpre|]. kcbn. rewrite insert_insert_eq. krun.
  match goal with |- context [ip_nsrequest (if ?b then ?x else ?y)] =>
    replace (ip_nsrequest (if b then x else y)) with (ip_nsrequest P) by (by destruct b) end.
  unfold ipc_notify_send_once. apply if_call_runs. krun.
  eapply dnnotify_opt_runs; [exact Hok|]. krun.
  eapply release_runs; [klookup|destruct (truth _); kcbn; lia|]. kcbn. rewrite drop_ref_insert.
  unfold death_calls, dead_port in HQ. rewrite <- !app_assoc.
  destruct (ip_nsrequest P =? IP_NULL); exact HQ.
Qed.
End destroy.

(** A port prepared for its destruction or transmission. *)
Definition cleared (P : ipc_port) : ipc_port :=
  set_imq_seqno 0 (set_ip_mscount 0 (set_ip_pset_count 0 P)).

Definition clear_calls (port : Z) (P : ipc_port) : list call :=
  (if ip_pset_count P =? 0 then [] else [ipc_mqueue_remove_from_all port])
  ++ [ipc_mqueue_changed port].

Lemma clear_receiver_runs port P s (Q : unit -> kstate -> Prop) :
  ks_ports s !! port = Some P -> ip_active P = true ->
  Q tt (set_ks_trace (ks_trace s ++ clear_calls port P)
    (set_ks_ports (<[port := cleared P]> (ks_ports s)) s)) ->
  runs (ipc_port_clear_receiver port) Q s.
Proof.
  intros EP Ha HQ. unfold ipc_port_clear_receiver, clear_calls, cleared in *. krun.
  destruct (Z.eqb_spec (ip_pset_count P) 0) as [E|E]; cbn [negb].
  - krun. replace (set_ip_pset_count 0 P) with P in HQ by (rewrite <- E; by destruct P).
    exact HQ.
  - unfold ipc_pset_remove_from_all. krun. rewrite (proj2 (Z.eqb_neq _ _) E). krun.
    rewrite <- app_assoc. exact HQ.
Qed.

(** When the receive right of a port goes away
    ([ipc_port_clear_receiver], then [ipc_port_destroy]), a port with a backup survives in
    limbo and is handed to the backup in a port-destroyed notification, with its request
    for it withdrawn; any other port is dead at the time of the clock, gives up the
    caller's reference, and sends, in this order, the send-once notification of its
    no-senders request and one dead-name notification for each request of its table. *)
Theorem receive_right_destroyed sizes port P s :
  ks_ports s !! port = Some P -> ip_active P = true -> port_ok sizes P ->
  (truth (io_bits P &&& IP_BIT_PREALLOC) = true -> ip_premsg P <> 0) ->
  runs (ipc_port_clear_receiver port;; ipc_port_destroy port) (λ _ s',
    if ip_pdrequest P =? IP_NULL then
      ks_ports s' = drop_ref port (dead_port (ipc_port_timestamp_data s) (cleared P)) (ks_ports s) /\
      ks_trace s' = ks_trace s ++ clear_calls port P
        ++ (if truth (io_bits P &&& IP_BIT_PREALLOC) && bool_decide (ip_premsg P ∉ ks_inuse s)
            then [ipc_kmsg_free (ip_premsg P)] else [])
        ++ (if ip_nsrequest P =? IP_NULL then [] else [mach_notify_send_once (ip_nsrequest P)])
        ++ [ipc_mqueue_destroy port]
        ++ match ip_dnrequests P with
           | Some (_, t) =>
               omap (λ r, if ipr_name r =? MACH_PORT_NULL then None
                          else Some (mach_notify_dead_name (ipr_soright r) (ipr_name r))) (drop 1 t)
           | None => []
           end
        ++ [ipc_kobject_destroy port] /\
      ipc_port_timestamp_data s' = u32 (ipc_port_timestamp_data s + 1)
    else
      ks_ports s' !! port = Some (set_ip_data IP_NULL (set_ip_receiver_name MACH_PORT_NULL
        (set_ip_pdrequest IP_NULL (cleared P)))) /\
      ks_trace s' = ks_trace s ++ clear_calls port P
        ++ [mach_notify_port_destroyed (ip_pdrequest P) port]) s.
Proof.
  intros EP Ha Hok Hpre. krun. eapply clear_receiver_runs; [done..|].
  assert (Hok' : port_ok sizes (cleared P)) by (by destruct Hok).
  destruct (Z.eqb_spec (ip_pdrequest P) IP_NULL) as [E|E].
  - eapply (destroy_dead_runs sizes _ (cleared P)); [klookup|done..|].
    kcbn. split; [|split; [|done]].
    + unfold drop_ref. destruct (_ =? 1); [apply delete_insert_eq|apply insert_insert_eq].
    + rewrite <- !app_assoc. done.
  - eapply (destroy_backup_runs _ (cleared P)); [klookup|done..|]. kcbn.
    rewrite lookup_insert_eq. split; [done|]. by rewrite <- app_assoc.
Qed.

(** * Naked rights as an abstract machine *)

(** What clients of a live port see: the send and send-once rights in existence, how
    often a send right was made, and who waits for the last one to go. *)
Record naked := Naked { nk_sends : Z; nk_sonces : Z; nk_made : Z; nk_watcher : Z }.

Inductive naked_op := MakeSend | CopySend | ReleaseSend | MakeSonce | ReleaseSonce
                    | WatchSenders (sync notify : Z).

(** The machine: a step is not possible when the caller cannot hold the right it uses. *)
Definition naked_step (op : naked_op) (n : naked) : option (naked * list call) :=
  let 'Naked s o m w := n in
  match op with
  | MakeSend => Some (Naked (s + 1) o (u32 (m + 1)) w, [])
  | CopySend => if 0 <? s then Some (Naked (s + 1) o m w, []) else None
  | ReleaseSend =>
      if 0 <? s then
        if (s =? 1) && negb (w =? IP_NULL)
        then Some (Naked 0 o m IP_NULL, [mach_notify_no_senders w m])
        else Some (Naked (s - 1) o m w, [])
      else None
  | MakeSonce => Some (Naked s (o + 1) m w, [])
  | ReleaseSonce => if 0 <? o then Some (Naked s (o - 1) m w, []) else None
  | WatchSenders sync notify =>
      if (s =? 0) && (sync <=? m) && negb (notify =? IP_NULL)
      then Some (Naked s o m IP_NULL, [mach_notify_no_senders notify m])
      else Some (Naked s o m notify, [])
  end.

Fixpoint naked_steps (ops : list naked_op) (n : naked) : option (naked * list call) :=
  match ops with
  | [] => Some (n, [])
  | op :: ops => '(n, cs) ← naked_step op n; '(n, cs') ← naked_steps ops n; Some (n, cs ++ cs')
  end.

(** The code the steps stand for. *)
Definition run_naked (port : Z) (op : naked_op) : K unit :=
  match op with
  | MakeSend => ipc_port_make_send port;; mret tt
  | CopySend => ipc_port_copy_send port;; mret tt
  | ReleaseSend => ipc_port_release_send port
  | MakeSonce => ipc_port_make_sonce port;; mret tt
  | ReleaseSonce => ipc_port_release_sonce port
  | WatchSenders sync notify => ipc_port_nsrequest port sync notify;; mret tt
  end.

Fixpoint run_nakeds (port : Z) (ops : list naked_op) : K unit :=
  match ops with
  | [] => mret tt
  | op :: ops => run_naked port op;; run_nakeds port ops
  end.

(** A port in the state [n]; [k] references are not those of naked rights. *)
Definition naked_port (port k : Z) (n : naked) (s : kstate) : Prop :=
  ∃ P, ks_ports s !! port = Some P /\ ip_active P = true /\
    ip_srights P = nk_sends n /\ ip_sorights P = nk_sonces n /\ ip_mscount P = nk_made n /\
    ip_nsrequest P = nk_watcher n /\ io_references P = k + nk_sends n + nk_sonces n /\
    0 <= nk_sends n /\ 0 <= nk_sonces n.

Ltac naked_done Ha Hu := split; [|kcbn; by rewrite ?app_nil_r];
  eexists; kcbn; rewrite ?insert_insert_eq, lookup_insert_eq; split; [reflexivity|]; kcbn;
  cbn [nk_sends nk_sonces nk_made nk_watcher];
  repeat match goal with
  | |- context [u32 (ip_srights ?P + ?k)] => rewrite (Hu (ip_srights P + k)) by lia
  | |- context [u32 (ip_sorights ?P + ?k)] => rewrite (Hu (ip_sorights P + k)) by lia
  | |- context [u32 (ip_sorights ?P - ?k)] => rewrite (Hu (ip_sorights P - k)) by lia
  end; split; [exact Ha|]; repeat split; (reflexivity || lia).

Lemma run_naked_step port k op n n' cs s :
  IP_VALID port = true -> 1 <= k -> naked_port port k n s -> naked_step op n = Some (n', cs) ->
  k + nk_sends n + nk_sonces n < IO_MAX_REFERENCES ->
  runs (run_naked port op) (λ _ s', naked_port port k n' s' /\ ks_trace s' = ks_trace s ++ cs) s.
Proof.
  intros Hv Hk (P & EP & Ha & Hs & Ho & Hm & Hw & Hr & Hs0 & Ho0) Hstep Hmax.
  assert (HM : IO_MAX_REFERENCES = 2 ^ 31 - 1) by done. destruct n as [ns no nm nw].
  cbn [nk_sends nk_sonces nk_made nk_watcher] in *. subst ns no nm nw.
  assert (Hu : ∀ z, 0 <= z < 2 ^ 32 -> u32 z = z) by (intros; by apply wrap_small).
  destruct op as [| | | | |sync notify]; cbn [run_naked naked_step] in *.
  - injection Hstep as <- <-. unfold ipc_port_make_send, ip_reference. rewrite Hv. cbn [negb]. krun.
    rewrite Ha. krun. naked_done Ha Hu.
  - destruct (Z.ltb_spec 0 (ip_srights P)); [|done]. injection Hstep as <- <-.
    unfold ipc_port_copy_send, ip_reference. rewrite Hv. cbn [negb]. krun. rewrite Ha. krun.
    naked_done Ha Hu.
  - destruct (Z.ltb_spec 0 (ip_srights P)); [|done].
    unfold ipc_port_release_send, ip_release. krun.
    change (ip_active (set_io_references (io_references P - 1) P)) with (ip_active P).
    rewrite Ha. cbn [negb]. krun. rewrite Hu by lia.
    replace (ip_srights P - 1 =? 0) with (ip_srights P =? 1) by (apply eq_true_iff_eq; lia).
    destruct ((ip_srights P =? 1) && negb (ip_nsrequest P =? IP_NULL)) eqn:Elast.
    + injection Hstep as <- <-. apply andb_prop in Elast as [E1%Z.eqb_eq _].
      unfold ipc_notify_no_senders. krun. naked_done Ha Hu.
    + injection Hstep as <- <-. krun. naked_done Ha Hu.
  - injection Hstep as <- <-. unfold ipc_port_make_sonce, ip_reference. krun. naked_done Ha Hu.
  - destruct (Z.ltb_spec 0 (ip_sorights P)); [|done]. injection Hstep as <- <-.
    unfold ipc_port_release_sonce, ip_release. krun.
    match goal with |- context [ip_active ?X] => change (ip_active X) with (ip_active P) end.
    rewrite Ha. cbn [negb]. krun. naked_done Ha Hu.
  - unfold ipc_port_nsrequest. krun.
    destruct ((ip_srights P =? 0) && (sync <=? ip_mscount P) && negb (notify =? IP_NULL)).
    + injection Hstep as <- <-. unfold ipc_notify_no_senders. krun. naked_done Ha Hu.
    + injection Hstep as <- <-. krun. naked_done Ha Hu.
Qed.

Lemma naked_step_bound op n n' cs : naked_step op n = Some (n', cs) ->
  nk_sends n' + nk_sonces n' <= nk_sends n + nk_sonces n + 1.
Proof.
  destruct n as [s o m w]. destruct op; cbn; repeat case_match; intros; simplify_eq; cbn; lia.
Qed.

(** C7 (refinement): The routines on naked rights implement the abstract machine
    [naked_step]: from a live port they run any sequence of steps the machine allows
    without a failed assertion, keep the counts of rights, of references and of made send
    rights the machine keeps, and send exactly its no-senders notifications, one when the
    last send right goes or a watcher arrives late. *)
Theorem naked_rights_refine port k ops n n' cs s :
  IP_VALID port = true -> 1 <= k -> naked_port port k n s ->
  naked_steps ops n = Some (n', cs) ->
  k + nk_sends n + nk_sonces n + zlen ops < IO_MAX_REFERENCES ->
  runs (run_nakeds port ops) (λ _ s', naked_port port k n' s' /\ ks_trace s' = ks_trace s ++ cs) s.
Proof.
  intros Hv Hk. revert n cs s. induction ops as [|op ops IH]; intros n cs s Hn Hsteps Hmax.
  { injection Hsteps as <- <-. cbn [run_nakeds]. krun. by rewrite app_nil_r. }
  cbn [naked_steps] in Hsteps. destruct (naked_step op n) as [[n1 cs1]|] eqn:E1; [|done].
  cbn [mbind option_bind] in Hsteps. destruct (naked_steps ops n1) as [[n2 cs2]|] eqn:E2; [|done].
  injection Hsteps as <- <-. cbn [run_nakeds]. apply runs_bind.
  cbn [length] in Hmax. pose proof (naked_step_bound _ _ _ _ E1).
  eapply runs_weaken; [eapply run_naked_step; [done..|lia]|].
  intros _ s1 [Hn1 Et1]. eapply runs_weaken; [eapply IH; [done..|lia]|].
  intros _ s2 [Hn2 Et2]. split; [done|]. by rewrite Et2, Et1, app_assoc.
Qed.

(** * Concrete ports *)

(** A live port at address 4096 with one receive right in the space at address 256, [r]
    references, [n] send rights and the table [dn]. *)
Definition sample_port (r n : Z) (dn : option (Z * rtable)) : ipc_port :=
  Port IO_BITS_ACTIVE r 256 0x103 0 n n 0 IP_NULL IP_NULL dn 0 0.

Definition sample_state (P : ipc_port) : kstate := KState {[4096 := P]} ∅ ∅ 7 [].

(** Tables with two slots: one of them free, or one in use. *)
Definition free_table : rtable := [Ipr 1 0; Ipr 0 0].
Definition used_table : rtable := [Ipr 0 0; Ipr 8192 0x203].

Ltac small_table i H := destruct (Z.to_nat i) as [|[|]] eqn:?; simpl in H; [lia| |by rewrite ?lookup_nil in H].

Lemma free_table_ok : table_ok i386_dnrequests free_table [1].
Proof.
  split; [split|].
  - exists (Ipr 1 0). split; [done|]. cbn. split; [done|]. split; [lia|]. by exists 0.
  - apply NoDup_singleton.
  - intros i r Hi H Hn. small_table i H. apply list_elem_of_singleton. lia.
  - intros i r Hi H Hn. small_table i H. by injection H as <-.
  - exists (Ipr 1 0). split; [done|]. split; [cbn; lia|]. by vm_compute.
Qed.

Lemma used_table_ok : table_ok i386_dnrequests used_table [].
Proof.
  split; [split|].
  - by exists (Ipr 0 0).
  - apply NoDup_nil_2.
  - intros i r Hi H Hn. small_table i H. by injection H as <-.
  - intros i r Hi H Hn. small_table i H. by injection H as <-.
  - exists (Ipr 0 0). split; [done|]. split; [cbn; lia|]. by vm_compute.
Qed.

Lemma dnrequest_cancel_witness :
  let P := sample_port 1 0 (Some (512, free_table)) in
  runs (ipc_port_dnrequest 4096 0x203 8192) (λ '(kr, index) s1,
    kr = KERN_SUCCESS /\ index = 1 /\ request_at free_table index = None /\
    (∃ t1, s1 = set_ks_ports (<[4096 := set_ip_dnrequests (Some (512, t1)) P]> (ks_ports (sample_state P))) (sample_state P) /\
       table_ok i386_dnrequests t1 [] /\
       ∀ j, request_at t1 j = if decide (j = index) then Some (0x203, 8192) else request_at free_table j) /\
    runs (ipc_port_dncancel 4096 0x203 index) (λ right s2, right = 8192 /\ s2 = sample_state P) s1)
    (sample_state P).
Proof.
  apply (dnrequest_cancel i386_dnrequests 4096 0x203 8192
           (sample_port 1 0 (Some (512, free_table))) 512 free_table 1 []);
    try reflexivity; try discriminate. exact free_table_ok.
Defined.

Lemma dngrow_makes_room_witness :
  let P := sample_port 1 0 (Some (512, used_table)) in
  let s := sample_state P in
  let s1 := set_ks_ports (<[4096 := set_io_references (io_references P + 1) P]> (ks_ports s)) s in
  runs (ipc_port_dngrow i386_dnrequests (Some (1024, replicate 4 (Ipr 9 9))) (mret tt) 4096
      ITS_SIZE_NONE) (λ kr s3,
    (kr = KERN_SUCCESS \/ kr = KERN_RESOURCE_SHORTAGE) /\
    ∃ s2 P2, (mret tt : K unit) s1 = Some (tt, s2) /\ ks_ports s2 !! 4096 = Some P2 /\
      released i386_dnrequests 4096 P2 s3 /\
      (kr = KERN_SUCCESS -> ip_active P2 = true -> table_addr P2 = table_addr P ->
       next_its P2 = next_its P -> ∀ name soright, name <> MACH_PORT_NULL -> soright <> IP_NULL ->
       runs (ipc_port_dnrequest 4096 name soright) (λ '(kr, _) _, kr = KERN_SUCCESS) s3)) s.
Proof.
  intros P s s1.
  assert (Hok : ∀ r, 0 < r < 9 -> port_ok i386_dnrequests (set_io_references r P)).
  { intros r Hr. split; [change IO_MAX_REFERENCES with 2147483647; cbn; lia|].
    split; [discriminate|]. exists []. exact used_table_ok. }
  apply (dngrow_makes_room i386_dnrequests (Some (1024, replicate 4 (Ipr 9 9))) (mret tt) 4096 P s).
  - apply lookup_insert_eq.
  - reflexivity.
  - apply (Hok 1). lia.
  - intros n Hn. split; [discriminate|]. vm_compute in Hn. by injection Hn as <-.
  - exists (set_io_references 2 P). split; [apply lookup_insert_eq|]. split; [apply Hok; lia|].
    discriminate.
Defined.

Lemma dngrow_target_ignored_witness :
  runs (ipc_port_dngrow i386_dnrequests (Some (1024, replicate 8 (Ipr 9 9))) (mret tt) 4096 8)
    (λ kr s', kr = KERN_SUCCESS /\ s' = sample_state (sample_port 1 0 (Some (512, used_table))) /\
       zlen used_table < 8) (sample_state (sample_port 1 0 (Some (512, used_table)))).
Proof.
  apply (dngrow_target_ignored i386_dnrequests 4096 (sample_port 1 0 (Some (512, used_table)))
           512 used_table [] (Ipr 0 0) 4 2 8 8); try reflexivity; try discriminate.
  - split; reflexivity.
  - exact used_table_ok.
  - split; reflexivity.
Defined.

(** Port 4096 in limbo, port 5000 in transit to port 6000, which is in a space. *)
Definition transit_state : kstate :=
  KState (<[4096 := Port IO_BITS_ACTIVE 1 0 0 0 0 0 0 0 0 None 0 0]>
         (<[5000 := Port IO_BITS_ACTIVE 1 6000 0 0 0 0 0 0 0 None 0 0]>
          {[6000 := Port IO_BITS_ACTIVE 2 256 0x103 0 0 0 0 0 0 None 0 0]})) ∅ ∅ 0 [].

Lemma transit_links x y : link (ks_ports transit_state) x y -> x = 5000 /\ y = 6000.
Proof.
  intros (X & E & Ht & <-). unfold transit_state in E. cbn [ks_ports] in E.
  apply lookup_insert_Some in E as [[<- <-]|[_ E]]; [done|].
  apply lookup_insert_Some in E as [[<- <-]|[_ E]]; [done|].
  apply lookup_singleton_Some in E as [<- <-]. done.
Qed.

Lemma transit_ok : chains_ok (ks_ports transit_state).
Proof.
  split.
  - intros x y [-> ->]%transit_links. by eexists.
  - assert (H : ∀ x y, tc (link (ks_ports transit_state)) x y -> x = 5000 /\ y = 6000).
    { induction 1 as [x y Hl|x y z Hl _ [-> ->]]; [by apply transit_links|].
      apply transit_links in Hl as [_ ?]. done. }
    intros x [-> ?]%H. done.
Qed.

Lemma check_circularity_correct_witness :
  runs (ipc_port_check_circularity true 4096 5000) (λ circular s',
    if circular : bool then rtc (link (ks_ports transit_state)) 5000 4096 /\ s' = transit_state
    else ~ rtc (link (ks_ports transit_state)) 5000 4096 /\ chains_ok (ks_ports s') /\
         link (ks_ports s') 4096 5000 /\
         s' = set_ks_ports (sent 4096 5000 (Port IO_BITS_ACTIVE 1 0 0 0 0 0 0 0 0 None 0 0)
                (Port IO_BITS_ACTIVE 1 6000 0 0 0 0 0 0 0 None 0 0) transit_state) transit_state)
    transit_state.
Proof.
  apply check_circularity_correct; try reflexivity; try discriminate. exact transit_ok.
Defined.

Lemma receive_right_destroyed_witness :
  let P := sample_port 1 0 (Some (512, used_table)) in
  runs (ipc_port_clear_receiver 4096;; ipc_port_destroy 4096) (λ _ s',
    if ip_pdrequest P =? IP_NULL then
      ks_ports s' = drop_ref 4096 (dead_port 7 (cleared P)) {[4096 := P]} /\
      ks_trace s' = [] ++ clear_calls 4096 P
        ++ (if truth (io_bits P &&& IP_BIT_PREALLOC) && bool_decide (ip_premsg P ∉ (∅ : gset Z))
            then [ipc_kmsg_free (ip_premsg P)] else [])
        ++ (if ip_nsrequest P =? IP_NULL then [] else [mach_notify_send_once (ip_nsrequest P)])
        ++ [ipc_mqueue_destroy 4096]
        ++ match ip_dnrequests P with
           | Some (_, t) =>
               omap (λ r, if ipr_name r =? MACH_PORT_NULL then None
                          else Some (mach_notify_dead_name (ipr_soright r) (ipr_name r))) (drop 1 t)
           | None => []
           end
        ++ [ipc_kobject_destroy 4096] /\
      ipc_port_timestamp_data s' = u32 (7 + 1)
    else
      ks_ports s' !! 4096 = Some (set_ip_data IP_NULL (set_ip_receiver_name MACH_PORT_NULL
        (set_ip_pdrequest IP_NULL (cleared P)))) /\
      ks_trace s' = [] ++ clear_calls 4096 P
        ++ [mach_notify_port_destroyed (ip_pdrequest P) 4096]) (sample_state P).
Proof.
  intros P. apply (receive_right_destroyed i386_dnrequests 4096 P (sample_state P)).
  - reflexivity.
  - reflexivity.
  - split; [split; reflexivity|]. split; [discriminate|]. exists []. exact used_table_ok.
  - discriminate.
Defined.

(** Two send rights are made, one is copied and all are released: the watcher hears of it. *)
Lemma naked_rights_refine_witness :
  runs (run_nakeds 4096 [MakeSend; WatchSenders 5 8192; CopySend; ReleaseSend; ReleaseSend])
    (λ _ s', naked_port 4096 1 (Naked 0 0 1 0) s' /\
       ks_trace s' = [] ++ [mach_notify_no_senders 8192 1])
    (sample_state (sample_port 1 0 None)).
Proof.
  apply (naked_rights_refine 4096 1 _ (Naked 0 0 0 0)).
  - reflexivity.
  - lia.
  - exists (sample_port 1 0 None). repeat split; try reflexivity; discriminate.
  - reflexivity.
  - reflexivity.
Defined.

End IpcPort.
