(* ===== verification/IpcStore.v ===== *)
(** What the routines on rights (IpcRight) use of a space: its entries, reached through
    pointers and found by name (osfmk/ipc/ipc_entry.c), and the reverse hash table from an
    object to the name of its send right (osfmk/ipc/ipc_hash.c).  The interface
    [EntryStore] lists the operations with their laws; the clients are proved against it.
    [spec_store] is the specification itself as a store, finite maps whose operations
    check what the laws assume; the witnesses run on it.

    An entry stays where it is while the space is locked, so the pointer to an entry is
    the name it was found under. *)

From S2P Require Import Prelude.

Module IpcStore.

(** * Entries *)

(** [ipc_entry] (osfmk/ipc/ipc_entry.h, 100-111), without the hash field, which belongs to
    the store. *)
Record entry := Entry { ie_object : Z; ie_bits : Z; ie_request : Z }.

Definition set_ie_object v e := Entry v (ie_bits e) (ie_request e).
Definition set_ie_bits v e := Entry (ie_object e) v (ie_request e).
Definition set_ie_request v e := Entry (ie_object e) (ie_bits e) v.

Definition IO_NULL : Z := 0.
Definition IE_BITS_UREFS_MASK : Z := 0x0000ffff.
Definition IE_BITS_TYPE_MASK : Z := 0x001f0000.
Definition IE_BITS_RIGHT_MASK : Z := 0x007fffff.

(** [IE_BITS_UREFS] (osfmk/ipc/ipc_entry.h, 117-118). *)
Definition IE_BITS_UREFS (bits : Z) : Z := bits &&& IE_BITS_UREFS_MASK.
(** [IE_BITS_TYPE] (osfmk/ipc/ipc_entry.h, 120-121). *)
Definition IE_BITS_TYPE (bits : Z) : Z := bits &&& IE_BITS_TYPE_MASK.

Definition MACH_PORT_TYPE_NONE : Z := 0.
Definition MACH_PORT_TYPE_SEND : Z := Z.shiftl 1 16.
Definition MACH_PORT_TYPE_RECEIVE : Z := Z.shiftl 1 17.
Definition MACH_PORT_TYPE_SEND_ONCE : Z := Z.shiftl 1 18.
Definition MACH_PORT_TYPE_PORT_SET : Z := Z.shiftl 1 19.
Definition MACH_PORT_TYPE_DEAD_NAME : Z := Z.shiftl 1 20.
Definition MACH_PORT_TYPE_SEND_RECEIVE : Z := MACH_PORT_TYPE_SEND ||| MACH_PORT_TYPE_RECEIVE.
Definition MACH_PORT_TYPE_SEND_RIGHTS : Z := MACH_PORT_TYPE_SEND ||| MACH_PORT_TYPE_SEND_ONCE.
Definition MACH_PORT_TYPE_PORT_RIGHTS : Z := MACH_PORT_TYPE_SEND_RIGHTS ||| MACH_PORT_TYPE_RECEIVE.
Definition MACH_PORT_TYPE_PORT_OR_DEAD : Z :=
  MACH_PORT_TYPE_PORT_RIGHTS ||| MACH_PORT_TYPE_DEAD_NAME.
Definition MACH_PORT_TYPE_DNREQUEST : Z := 0x80000000.

(** What is not of the right in the bits of an entry: the generation and the collision
    mark. *)
Definition ie_upper (e : entry) : Z := Z.shiftr (ie_bits e) 23.

(** * The interface *)

Class EntryStore (St : Type) := {
  entry_read : Z -> kern St entry;
  entry_write : Z -> entry -> kern St unit;
  ipc_entry_lookup : Z -> kern St bool;
  ipc_entry_dealloc : Z -> kern St unit;
  ipc_hash_lookup : Z -> kern St (option Z);
  ipc_hash_insert : Z -> Z -> kern St unit;
  ipc_hash_delete : Z -> Z -> kern St unit;

  es_ok : St -> Prop;
  es_entries : St -> gmap Z entry;
  es_hash : St -> gmap Z Z;

  es_hash_object s p n : es_ok s -> es_hash s !! p = Some n ->
    ∃ e, es_entries s !! n = Some e /\ ie_object e = p;

  entry_read_law s n e (Q : entry -> St -> Prop) :
    es_ok s -> es_entries s !! n = Some e -> Q e s -> runs (entry_read n) Q s;
  (** A store keeps the upper bits, and the object while the hash table knows it. *)
  entry_write_law s n e0 e (Q : unit -> St -> Prop) :
    es_ok s -> es_entries s !! n = Some e0 -> ie_upper e = ie_upper e0 ->
    (∀ p, es_hash s !! p = Some n -> ie_object e = p) ->
    (∀ s', es_ok s' -> es_entries s' = <[n := e]> (es_entries s) -> es_hash s' = es_hash s ->
       Q tt s') ->
    runs (entry_write n e) Q s;
  ipc_entry_lookup_law s n (Q : bool -> St -> Prop) :
    es_ok s ->
    (∀ b s', es_ok s' -> es_entries s' = es_entries s -> es_hash s' = es_hash s ->
       b = match es_entries s !! n with
           | Some e => truth (IE_BITS_TYPE (ie_bits e)) | None => false end ->
       Q b s') ->
    runs (ipc_entry_lookup n) Q s;
  ipc_entry_dealloc_law s n e (Q : unit -> St -> Prop) :
    es_ok s -> es_entries s !! n = Some e -> ie_object e = IO_NULL -> ie_request e = 0 ->
    (∀ p, es_hash s !! p <> Some n) ->
    (∀ s', es_ok s' -> es_entries s' = delete n (es_entries s) -> es_hash s' = es_hash s ->
       Q tt s') ->
    runs (ipc_entry_dealloc n) Q s;
  ipc_hash_lookup_law s p (Q : option Z -> St -> Prop) :
    es_ok s -> p <> IO_NULL ->
    (∀ s', es_ok s' -> es_entries s' = es_entries s -> es_hash s' = es_hash s ->
       Q (es_hash s !! p) s') ->
    runs (ipc_hash_lookup p) Q s;
  ipc_hash_insert_law s p n e (Q : unit -> St -> Prop) :
    es_ok s -> p <> IO_NULL -> es_entries s !! n = Some e -> ie_object e = p ->
    es_hash s !! p = None ->
    (∀ s', es_ok s' -> es_entries s' = es_entries s -> es_hash s' = <[p := n]> (es_hash s) ->
       Q tt s') ->
    runs (ipc_hash_insert p n) Q s;
  ipc_hash_delete_law s p n (Q : unit -> St -> Prop) :
    es_ok s -> es_hash s !! p = Some n ->
    (∀ s', es_ok s' -> es_entries s' = es_entries s -> es_hash s' = delete p (es_hash s) ->
       Q tt s') ->
    runs (ipc_hash_delete p n) Q s }.

(** * The specification as a store *)

Record spec_store := SpecStore { ss_entries : gmap Z entry; ss_hash : gmap Z Z }.

Definition ss_ok (s : spec_store) : Prop :=
  ∀ p n, ss_hash s !! p = Some n -> ∃ e, ss_entries s !! n = Some e /\ ie_object e = p.

Definition ss_read (n : Z) : kern spec_store entry := deref (λ s, ss_entries s !! n).
Definition ss_write (n : Z) (e : entry) : kern spec_store unit :=
  _ ← ss_read n; modify (λ s, SpecStore (<[n := e]> (ss_entries s)) (ss_hash s)).
Definition ss_lookup (n : Z) : kern spec_store bool :=
  gets (λ s, match ss_entries s !! n with
             | Some e => truth (IE_BITS_TYPE (ie_bits e)) | None => false end).
Definition ss_dealloc (n : Z) : kern spec_store unit :=
  e ← ss_read n;
  assert_ (ie_object e =? IO_NULL);;
  assert_ (ie_request e =? 0);;
  modify (λ s, SpecStore (delete n (ss_entries s)) (ss_hash s)).
Definition ss_hash_lookup (p : Z) : kern spec_store (option Z) := gets (λ s, ss_hash s !! p).
Definition ss_hash_insert (p n : Z) : kern spec_store unit :=
  e ← ss_read n;
  assert_ (ie_object e =? p);;
  modify (λ s, SpecStore (ss_entries s) (<[p := n]> (ss_hash s))).
Definition ss_hash_delete (p n : Z) : kern spec_store unit :=
  m ← deref (λ s, ss_hash s !! p);
  assert_ (m =? n);;
  modify (λ s, SpecStore (ss_entries s) (delete p (ss_hash s))).

#[export] Instance spec_entry_store : EntryStore spec_store.
Proof.
  refine {| entry_read := ss_read; entry_write := ss_write; ipc_entry_lookup := ss_lookup;
            ipc_entry_dealloc := ss_dealloc; ipc_hash_lookup := ss_hash_lookup;
            ipc_hash_insert := ss_hash_insert; ipc_hash_delete := ss_hash_delete;
            es_ok := ss_ok; es_entries := ss_entries; es_hash := ss_hash |}.
  - intros s p n H. apply H.
  - intros s n e Q _ E HQ. by apply (runs_deref (λ s, ss_entries s !! n) e).
  - intros s n e0 e Q Hok E _ Hh HQ. apply runs_bind.
    apply (runs_deref (λ s, ss_entries s !! n) e0); [done|]. apply runs_modify.
    apply HQ; [|done..]. intros p m Hm. cbn in *.
    destruct (decide (m = n)) as [->|]; [exists e; rewrite lookup_insert_eq; auto|].
    rewrite lookup_insert_ne by done. by apply Hok.
  - intros s n Q Hok HQ. by apply runs_gets, HQ.
  - intros s n e Q Hok E Eo Er Hh HQ. apply runs_bind.
    apply (runs_deref (λ s, ss_entries s !! n) e); [done|].
    apply runs_bind, runs_assert; [by apply Z.eqb_eq|].
    apply runs_bind, runs_assert; [by apply Z.eqb_eq|]. apply runs_modify.
    apply HQ; [|done..]. intros p m Hm. cbn in *.
    destruct (decide (m = n)) as [->|]; [by destruct (Hh p)|].
    rewrite lookup_delete_ne by done. by apply Hok.
  - intros s p Q Hok _ HQ. by apply runs_gets, HQ.
  - intros s p n e Q Hok _ E Eo _ HQ. apply runs_bind.
    apply (runs_deref (λ s, ss_entries s !! n) e); [done|].
    apply runs_bind, runs_assert; [by apply Z.eqb_eq|]. apply runs_modify.
    apply HQ; [|done..]. intros p' m Hm. cbn in *.
    apply lookup_insert_Some in Hm as [[<- <-]|[_ Hm]]; [eauto|by apply Hok].
  - intros s p n Q Hok E HQ. apply runs_bind.
    apply (runs_deref (λ s, ss_hash s !! p) n); [done|].
    apply runs_bind, runs_assert; [by apply Z.eqb_eq|]. apply runs_modify.
    apply HQ; [|done..]. intros p' m Hm. cbn in *. apply lookup_delete_Some in Hm as [_ Hm].
    by apply Hok.
Defined.

End IpcStore.
