(* ===== verification/IpcRight.v ===== *)
(** Rights, osfmk/ipc/ipc_right.c: the operations on one name of a space.  A name denotes a
    send right with user references, a receive right, both, a send-once right, a port set,
    or a dead name; the operations keep the counts of rights in the ports, the reverse hash
    table, the requests for dead-name notifications and the user-reference counts in step.

    The state joins the ports (IpcPort), a store of entries with its hash table (any
    instance of [EntryStore]) and the liveness of the space.  As the entry does not move
    while the space is locked, the pointer to it is its name.  [CONFIG_MACF_MACH] is not
    configured, so the label checks are left out, and so are the locks. *)

From S2P Require Import Prelude.
From S2P Require Import IpcTable.
From S2P Require Import IpcPort.
From S2P Require Import IpcStore.
Import IpcTable.IpcTable IpcPort.IpcPort IpcStore.IpcStore.

Module IpcRight.

Definition KERN_INVALID_ARGUMENT : Z := 4.
Definition KERN_INVALID_NAME : Z := 15.
Definition KERN_INVALID_TASK : Z := 16.
Definition KERN_INVALID_RIGHT : Z := 17.
Definition KERN_INVALID_VALUE : Z := 18.
Definition KERN_UREFS_OVERFLOW : Z := 19.

Definition MACH_PORT_RIGHT_SEND : Z := 0.
Definition MACH_PORT_RIGHT_RECEIVE : Z := 1.
Definition MACH_PORT_RIGHT_SEND_ONCE : Z := 2.
Definition MACH_PORT_RIGHT_PORT_SET : Z := 3.
Definition MACH_PORT_RIGHT_DEAD_NAME : Z := 4.
Definition MACH_PORT_RIGHT_NUMBER : Z := 6.

Definition MACH_MSG_TYPE_MOVE_RECEIVE : Z := 16.
Definition MACH_MSG_TYPE_MOVE_SEND : Z := 17.
Definition MACH_MSG_TYPE_MOVE_SEND_ONCE : Z := 18.
Definition MACH_MSG_TYPE_COPY_SEND : Z := 19.
Definition MACH_MSG_TYPE_MAKE_SEND : Z := 20.
Definition MACH_MSG_TYPE_MAKE_SEND_ONCE : Z := 21.
Abbreviation MACH_MSG_TYPE_PORT_RECEIVE := MACH_MSG_TYPE_MOVE_RECEIVE.
Abbreviation MACH_MSG_TYPE_PORT_SEND := MACH_MSG_TYPE_MOVE_SEND.
Abbreviation MACH_MSG_TYPE_PORT_SEND_ONCE := MACH_MSG_TYPE_MOVE_SEND_ONCE.

Abbreviation IO_DEAD := IP_DEAD.

Definition MACH_PORT_UREFS_MAX : Z := 2 ^ 16 - 1.

(** [MACH_PORT_UREFS_OVERFLOW] (osfmk/ipc/port.h, 81-84): [urefs] is an unsigned and
    [delta] a signed 32-bit integer. *)
Definition MACH_PORT_UREFS_OVERFLOW (urefs delta : Z) : bool :=
  (0 <? delta) && ((u32 (urefs + delta) <=? urefs) || (MACH_PORT_UREFS_MAX <? u32 (urefs + delta))).

(** [MACH_PORT_UREFS_UNDERFLOW] (osfmk/ipc/port.h, 86-87). *)
Definition MACH_PORT_UREFS_UNDERFLOW (urefs delta : Z) : bool :=
  (delta <? 0) && (urefs <? u32 (- delta)).

(** The test [bits & mask]. *)
Definition has (bits mask : Z) : bool := truth (bits &&& mask).

(** The state: the ports and port sets, the entries of the space, [is_active]. *)
Record rstate (St : Type) := RState { rs_k : kstate; rs_s : St; rs_active : bool }.
Arguments RState {St} _ _ _.
Arguments rs_k {St} _.
Arguments rs_s {St} _.
Arguments rs_active {St} _.

Section rights.
Context {St : Type} `{!EntryStore St}.
(** The address of the space. *)
Context (space : Z).

Abbreviation R := (kern (rstate St)).

Definition onK {A} (m : K A) : R A := λ s,
  match m (rs_k s) with Some (a, k) => Some (a, RState k (rs_s s) (rs_active s)) | None => None end.
Definition onS {A} (m : kern St A) : R A := λ s,
  match m (rs_s s) with Some (a, t) => Some (a, RState (rs_k s) t (rs_active s)) | None => None end.

Definition get_entry (name : Z) : R entry := onS (entry_read name).
Definition put_entry (name : Z) (e : entry) : R unit := onS (entry_write name e).
(** [entry->field = ...] *)
Definition set_entry (name : Z) (f : entry -> entry) : R unit :=
  e ← get_entry name; put_entry name (f e).
Definition get_port (p : Z) : R ipc_port := onK (port_get p).
Definition set_port (p : Z) (f : ipc_port -> ipc_port) : R unit := onK (port_set p f).

(** * Lookups *)

(** [ipc_right_lookup_write] (osfmk/ipc/ipc_right.c, 103-127): the code and, on success,
    the entry. *)
Definition ipc_right_lookup_write (name : Z) : R Z :=
  active ← gets rs_active;
  if negb active then mret KERN_INVALID_TASK
  else
    found ← onS (ipc_entry_lookup name);
    if negb found then mret KERN_INVALID_NAME else mret KERN_SUCCESS.

(** [ipc_right_lookup_two_write] (osfmk/ipc/ipc_right.c, 142-173). *)
Definition ipc_right_lookup_two_write (name1 name2 : Z) : R Z :=
  active ← gets rs_active;
  if negb active then mret KERN_INVALID_TASK
  else
    found1 ← onS (ipc_entry_lookup name1);
    if negb found1 then mret KERN_INVALID_NAME
    else
      found2 ← onS (ipc_entry_lookup name2);
      if negb found2 then mret KERN_INVALID_NAME else mret KERN_SUCCESS.

(** [ipc_right_reverse] (osfmk/ipc/ipc_right.c, 187-237): the name, when there is one. *)
Definition ipc_right_reverse (port : Z) : R (option Z) :=
  active ← gets rs_active;
  assert_ active;;
  P ← get_port port;
  if negb (ip_active P) then mret None
  else if ip_receiver P =? space then
    let name := ip_receiver_name P in
    assert_ (negb (name =? MACH_PORT_NULL));;
    found ← onS (ipc_entry_lookup name);
    assert_ found;;
    e ← get_entry name;
    assert_ (has (ie_bits e) MACH_PORT_TYPE_RECEIVE);;
    assert_ (port =? ie_object e);;
    mret (Some name)
  else
    found ← onS (ipc_hash_lookup port);
    match found with
    | Some name =>
        e ← get_entry name;
        assert_ (IE_BITS_TYPE (ie_bits e) =? MACH_PORT_TYPE_SEND);;
        assert_ (port =? ie_object e);;
        mret (Some name)
    | None => mret None
    end.

(** * Requests for dead-name notifications *)

(** [ipc_right_dncancel] (osfmk/ipc/ipc_right.c, 397-413). *)
Definition ipc_right_dncancel (port name : Z) : R Z :=
  P ← get_port port;
  assert_ (ip_active P);;
  e ← get_entry name;
  assert_ (port =? ie_object e);;
  dnrequest ← onK (ipc_port_dncancel port name (ie_request e));
  put_entry name (set_ie_request 0 e);;
  mret dnrequest.

(** [ipc_right_dncancel_macro] (osfmk/ipc/ipc_right.h, 113-115). *)
Definition ipc_right_dncancel_macro (port name : Z) : R Z :=
  e ← get_entry name;
  if ie_request e =? 0 then mret IP_NULL else ipc_right_dncancel port name.

(** [ipc_right_inuse] (osfmk/ipc/ipc_right.c, 425-436). *)
Definition ipc_right_inuse (name : Z) : R bool :=
  e ← get_entry name;
  mret (negb (IE_BITS_TYPE (ie_bits e) =? MACH_PORT_TYPE_NONE)).

(** [ipc_right_check] (osfmk/ipc/ipc_right.c, 450-514). *)
Definition ipc_right_check (port name : Z) : R bool :=
  active ← gets rs_active;
  assert_ active;;
  e ← get_entry name;
  assert_ (port =? ie_object e);;
  P ← get_port port;
  if ip_active P then mret false
  else
    let bits := ie_bits e in
    assert_ (negb (has bits MACH_PORT_TYPE_RECEIVE));;
    assert_ (0 <? IE_BITS_UREFS bits);;
    (if has bits MACH_PORT_TYPE_SEND then assert_ (IE_BITS_TYPE bits =? MACH_PORT_TYPE_SEND)
     else
       assert_ (IE_BITS_TYPE bits =? MACH_PORT_TYPE_SEND_ONCE);;
       assert_ (IE_BITS_UREFS bits =? 1));;
    onK (ipc_port_release port);;
    (if has bits MACH_PORT_TYPE_SEND && negb (has bits MACH_PORT_TYPE_RECEIVE)
     then onS (ipc_hash_delete port name) else mret tt);;
    let bits := Z.ldiff bits IE_BITS_TYPE_MASK ||| MACH_PORT_TYPE_DEAD_NAME in
    bits ← (if negb (ie_request e =? 0) then
              assert_ (IE_BITS_UREFS bits <? MACH_PORT_UREFS_MAX);;
              set_entry name (set_ie_request 0);;
              mret (bits + 1)
            else mret bits);
    set_entry name (set_ie_bits bits);;
    set_entry name (set_ie_object IO_NULL);;
    mret true.

(** One turn of the loop of [ipc_right_dnrequest] that has to grow the table: what the
    allocator returns, what other threads do to the ports while the port is unlocked, and
    what they do before the space is locked again. *)
Abbreviation growth := (option (Z * rtable) * K unit * R unit)%type.

(** [ipc_right_dnrequest] (osfmk/ipc/ipc_right.c, 267-385): the code and the previous
    send-once right.  The loop turns once more for each growth of the table. *)
Fixpoint ipc_right_dnrequest (sizes : list Z) (growths : list growth)
    (name : Z) (immediate : bool) (notify : Z) : R (Z * Z) :=
  kr ← ipc_right_lookup_write name;
  if negb (kr =? KERN_SUCCESS) then mret (kr, IP_NULL)
  else
    e ← get_entry name;
    let dead_name (bits : Z) : R (Z * Z) :=
      if has bits MACH_PORT_TYPE_DEAD_NAME && immediate && negb (notify =? IP_NULL) then
        let urefs := IE_BITS_UREFS bits in
        assert_ (IE_BITS_TYPE bits =? MACH_PORT_TYPE_DEAD_NAME);;
        assert_ (0 <? urefs);;
        if MACH_PORT_UREFS_OVERFLOW urefs 1 then mret (KERN_UREFS_OVERFLOW, IP_NULL)
        else
          set_entry name (λ e, set_ie_bits (ie_bits e + 1) e);;
          onK (ipc_notify_dead_name notify name);;
          mret (KERN_SUCCESS, IP_NULL)
      else if has bits MACH_PORT_TYPE_PORT_OR_DEAD then mret (KERN_INVALID_ARGUMENT, IP_NULL)
      else mret (KERN_INVALID_RIGHT, IP_NULL) in
    let bits := ie_bits e in
    if has bits MACH_PORT_TYPE_PORT_RIGHTS then
      let port := ie_object e in
      assert_ (negb (port =? IP_NULL));;
      died ← ipc_right_check port name;
      if negb died then
        if notify =? IP_NULL then
          previous ← ipc_right_dncancel_macro port name;
          mret (KERN_SUCCESS, previous)
        else
          previous ← ipc_right_dncancel_macro port name;
          '(kr, request) ← onK (ipc_port_dnrequest port name notify);
          if negb (kr =? KERN_SUCCESS) then
            assert_ (previous =? IP_NULL);;
            match growths with
            | [] => panic
            | (block, others, later) :: growths =>
                kr ← onK (ipc_port_dngrow sizes block others port ITS_SIZE_NONE);
                if negb (kr =? KERN_SUCCESS) then mret (kr, IP_NULL)
                else
                  later;;
                  ipc_right_dnrequest sizes growths name immediate notify
            end
          else
            assert_ (negb (request =? 0));;
            set_entry name (set_ie_request request);;
            mret (KERN_SUCCESS, previous)
      else
        e ← get_entry name;
        let bits := ie_bits e in
        assert_ (has bits MACH_PORT_TYPE_DEAD_NAME);;
        dead_name bits
    else dead_name bits.

(** * Giving up rights *)

(** The repeated step [--port->ip_srights], with the no-senders request of the last send
    right, and [mscount]. *)
Definition drop_sright (port : Z) : R (Z * Z) :=
  P ← get_port port;
  let srights := u32 (ip_srights P - 1) in
  set_port port (set_ip_srights srights);;
  if srights =? 0 then
    let nsrequest := ip_nsrequest P in
    if negb (nsrequest =? IP_NULL) then
      set_port port (set_ip_nsrequest IP_NULL);;
      mret (nsrequest, ip_mscount P)
    else mret (IP_NULL, 0)
  else mret (IP_NULL, 0).

(** The notifications that end the routines. *)
Definition notify_no_senders (nsrequest mscount : Z) : R unit :=
  if negb (nsrequest =? IP_NULL) then onK (ipc_notify_no_senders nsrequest mscount) else mret tt.
Definition notify_port_deleted (dnrequest name : Z) : R unit :=
  if negb (dnrequest =? IP_NULL) then onK (ipc_notify_port_deleted dnrequest name) else mret tt.

(** [ipc_right_clean] (osfmk/ipc/ipc_right.c, 526-630). *)
Definition ipc_right_clean (name : Z) : R unit :=
  e ← get_entry name;
  let bits := ie_bits e in
  let type := IE_BITS_TYPE bits in
  active ← gets rs_active;
  assert_ (negb active);;
  if type =? MACH_PORT_TYPE_DEAD_NAME then
    assert_ (ie_request e =? 0);;
    assert_ (ie_object e =? IO_NULL)
  else if type =? MACH_PORT_TYPE_PORT_SET then
    let pset := ie_object e in
    assert_ (ie_request e =? 0);;
    assert_ (negb (pset =? 0));;
    S ← onK (pset_get pset);
    assert_ (ips_active S);;
    onK (ipc_pset_destroy pset)
  else if (type =? MACH_PORT_TYPE_SEND) || (type =? MACH_PORT_TYPE_RECEIVE)
          || (type =? MACH_PORT_TYPE_SEND_RECEIVE) || (type =? MACH_PORT_TYPE_SEND_ONCE) then
    let port := ie_object e in
    assert_ (negb (port =? IP_NULL));;
    P ← get_port port;
    if negb (ip_active P) then
      onK (ip_release port);;
      onK (ip_check_unlock port)
    else
      dnrequest ← ipc_right_dncancel_macro port name;
      '(nsrequest, mscount) ←
        (if has type MACH_PORT_TYPE_SEND then
           P ← get_port port;
           assert_ (0 <? ip_srights P);;
           drop_sright port
         else mret (IP_NULL, 0));
      (if has type MACH_PORT_TYPE_RECEIVE then
         P ← get_port port;
         assert_ (ip_receiver_name P =? name);;
         assert_ (ip_receiver P =? space);;
         onK (ipc_port_clear_receiver port);;
         onK (ipc_port_destroy port)
       else if has type MACH_PORT_TYPE_SEND_ONCE then
         P ← get_port port;
         assert_ (0 <? ip_sorights P);;
         onK (ipc_notify_send_once port)
       else
         P ← get_port port;
         assert_ (negb (ip_receiver P =? space));;
         onK (ip_release port));;
      notify_no_senders nsrequest mscount;;
      notify_port_deleted dnrequest name
  else panic.

(** [ipc_right_destroy] (osfmk/ipc/ipc_right.c, 643-758). *)
Definition ipc_right_destroy (name : Z) : R Z :=
  e ← get_entry name;
  let bits := ie_bits e in
  set_entry name (λ e, set_ie_bits (Z.ldiff (ie_bits e) IE_BITS_TYPE_MASK) e);;
  let type := IE_BITS_TYPE bits in
  active ← gets rs_active;
  assert_ active;;
  if type =? MACH_PORT_TYPE_DEAD_NAME then
    assert_ (ie_request e =? 0);;
    assert_ (ie_object e =? IO_NULL);;
    onS (ipc_entry_dealloc name);;
    mret KERN_SUCCESS
  else if type =? MACH_PORT_TYPE_PORT_SET then
    let pset := ie_object e in
    assert_ (ie_request e =? 0);;
    assert_ (negb (pset =? 0));;
    set_entry name (set_ie_object IO_NULL);;
    onS (ipc_entry_dealloc name);;
    S ← onK (pset_get pset);
    assert_ (ips_active S);;
    onK (ipc_pset_destroy pset);;
    mret KERN_SUCCESS
  else if (type =? MACH_PORT_TYPE_SEND) || (type =? MACH_PORT_TYPE_RECEIVE)
          || (type =? MACH_PORT_TYPE_SEND_RECEIVE) || (type =? MACH_PORT_TYPE_SEND_ONCE) then
    let port := ie_object e in
    assert_ (negb (port =? IP_NULL));;
    (if type =? MACH_PORT_TYPE_SEND then onS (ipc_hash_delete port name) else mret tt);;
    P ← get_port port;
    if negb (ip_active P) then
      assert_ (negb (has type MACH_PORT_TYPE_RECEIVE));;
      onK (ip_release port);;
      onK (ip_check_unlock port);;
      set_entry name (set_ie_request 0);;
      set_entry name (set_ie_object IO_NULL);;
      onS (ipc_entry_dealloc name);;
      mret KERN_SUCCESS
    else
      dnrequest ← ipc_right_dncancel_macro port name;
      set_entry name (set_ie_object IO_NULL);;
      onS (ipc_entry_dealloc name);;
      '(nsrequest, mscount) ←
        (if has type MACH_PORT_TYPE_SEND then
           P ← get_port port;
           assert_ (0 <? ip_srights P);;
           drop_sright port
         else mret (IP_NULL, 0));
      (if has type MACH_PORT_TYPE_RECEIVE then
         P ← get_port port;
         assert_ (ip_active P);;
         assert_ (ip_receiver P =? space);;
         onK (ipc_port_clear_receiver port);;
         onK (ipc_port_destroy port)
       else if has type MACH_PORT_TYPE_SEND_ONCE then
         P ← get_port port;
         assert_ (0 <? ip_sorights P);;
         onK (ipc_notify_send_once port)
       else
         P ← get_port port;
         assert_ (negb (ip_receiver P =? space));;
         onK (ip_release port));;
      notify_no_senders nsrequest mscount;;
      notify_port_deleted dnrequest name;;
      mret KERN_SUCCESS
  else panic.

(** [ipc_right_dealloc], a dead name or a right found dead
    (osfmk/ipc/ipc_right.c, 791-806). *)
Definition dealloc_dead_name (name bits : Z) : R Z :=
  e ← get_entry name;
  assert_ (0 <? IE_BITS_UREFS bits);;
  assert_ (ie_request e =? 0);;
  assert_ (ie_object e =? IO_NULL);;
  (if IE_BITS_UREFS bits =? 1 then onS (ipc_entry_dealloc name)
   else set_entry name (set_ie_bits (bits - 1)));;
  mret KERN_SUCCESS.

(** [ipc_right_dealloc], the end of a send-once right; [ipc_right_delta] ends one the same
    way (osfmk/ipc/ipc_right.c, 823-839). *)
Definition end_send_once (port name : Z) : R Z :=
  dnrequest ← ipc_right_dncancel_macro port name;
  set_entry name (set_ie_object IO_NULL);;
  onS (ipc_entry_dealloc name);;
  onK (ipc_notify_send_once port);;
  notify_port_deleted dnrequest name;;
  mret KERN_SUCCESS.

(** [ipc_right_dealloc] (osfmk/ipc/ipc_right.c, 774-939). *)
Definition ipc_right_dealloc (name : Z) : R Z :=
  e ← get_entry name;
  let bits := ie_bits e in
  let type := IE_BITS_TYPE bits in
  active ← gets rs_active;
  assert_ active;;
  if type =? MACH_PORT_TYPE_DEAD_NAME then dealloc_dead_name name bits
  else if type =? MACH_PORT_TYPE_SEND_ONCE then
    assert_ (IE_BITS_UREFS bits =? 1);;
    let port := ie_object e in
    assert_ (negb (port =? IP_NULL));;
    died ← ipc_right_check port name;
    if (died : bool) then
      e ← get_entry name;
      assert_ (IE_BITS_TYPE (ie_bits e) =? MACH_PORT_TYPE_DEAD_NAME);;
      dealloc_dead_name name (ie_bits e)
    else
      P ← get_port port;
      assert_ (0 <? ip_sorights P);;
      end_send_once port name
  else if type =? MACH_PORT_TYPE_SEND then
    assert_ (0 <? IE_BITS_UREFS bits);;
    let port := ie_object e in
    assert_ (negb (port =? IP_NULL));;
    died ← ipc_right_check port name;
    if (died : bool) then
      e ← get_entry name;
      assert_ (IE_BITS_TYPE (ie_bits e) =? MACH_PORT_TYPE_DEAD_NAME);;
      dealloc_dead_name name (ie_bits e)
    else
      P ← get_port port;
      assert_ (0 <? ip_srights P);;
      '(nsrequest, mscount, dnrequest) ←
        (if IE_BITS_UREFS bits =? 1 then
           '(nsrequest, mscount) ← drop_sright port;
           dnrequest ← ipc_right_dncancel_macro port name;
           onS (ipc_hash_delete port name);;
           onK (ip_release port);;
           set_entry name (set_ie_object IO_NULL);;
           onS (ipc_entry_dealloc name);;
           mret (nsrequest, mscount, dnrequest)
         else
           set_entry name (set_ie_bits (bits - 1));;
           mret (IP_NULL, 0, IP_NULL));
      notify_no_senders nsrequest mscount;;
      notify_port_deleted dnrequest name;;
      mret KERN_SUCCESS
  else if type =? MACH_PORT_TYPE_SEND_RECEIVE then
    assert_ (0 <? IE_BITS_UREFS bits);;
    let port := ie_object e in
    assert_ (negb (port =? IP_NULL));;
    P ← get_port port;
    assert_ (ip_active P);;
    assert_ (ip_receiver_name P =? name);;
    assert_ (ip_receiver P =? space);;
    assert_ (0 <? ip_srights P);;
    '(nsrequest, mscount) ←
      (if IE_BITS_UREFS bits =? 1 then
         r ← drop_sright port;
         set_entry name (set_ie_bits
           (Z.ldiff bits (IE_BITS_UREFS_MASK ||| MACH_PORT_TYPE_SEND)));;
         mret r
       else
         set_entry name (set_ie_bits (bits - 1));;
         mret (IP_NULL, 0));
    notify_no_senders nsrequest mscount;;
    mret KERN_SUCCESS
  else mret KERN_INVALID_RIGHT.

(** [ipc_right_delta], a port set (osfmk/ipc/ipc_right.c, 983-1014). *)
Definition delta_port_set (name delta : Z) : R Z :=
  e ← get_entry name;
  let bits := ie_bits e in
  if negb (has bits MACH_PORT_TYPE_PORT_SET) then mret KERN_INVALID_RIGHT
  else
    assert_ (IE_BITS_TYPE bits =? MACH_PORT_TYPE_PORT_SET);;
    assert_ (IE_BITS_UREFS bits =? 0);;
    assert_ (ie_request e =? 0);;
    if delta =? 0 then mret KERN_SUCCESS
    else if negb (delta =? -1) then mret KERN_INVALID_VALUE
    else
      let pset := ie_object e in
      assert_ (negb (pset =? 0));;
      set_entry name (set_ie_object IO_NULL);;
      onS (ipc_entry_dealloc name);;
      S ← onK (pset_get pset);
      assert_ (ips_active S);;
      onK (ipc_pset_destroy pset);;
      mret KERN_SUCCESS.

(** [ipc_right_delta], a receive right (osfmk/ipc/ipc_right.c, 1016-1082). *)
Definition delta_receive (name delta : Z) : R Z :=
  e ← get_entry name;
  let bits := ie_bits e in
  if negb (has bits MACH_PORT_TYPE_RECEIVE) then mret KERN_INVALID_RIGHT
  else if delta =? 0 then mret KERN_SUCCESS
  else if negb (delta =? -1) then mret KERN_INVALID_VALUE
  else
    let port := ie_object e in
    assert_ (negb (port =? IP_NULL));;
    P ← get_port port;
    assert_ (ip_active P);;
    assert_ (ip_receiver_name P =? name);;
    assert_ (ip_receiver P =? space);;
    dnrequest ←
      (if has bits MACH_PORT_TYPE_SEND then
         assert_ (IE_BITS_TYPE bits =? MACH_PORT_TYPE_SEND_RECEIVE);;
         assert_ (0 <? IE_BITS_UREFS bits);;
         assert_ (IE_BITS_UREFS bits <? MACH_PORT_UREFS_MAX);;
         assert_ (0 <? ip_srights P);;
         let bits := Z.ldiff bits IE_BITS_TYPE_MASK ||| MACH_PORT_TYPE_DEAD_NAME in
         bits ← (if negb (ie_request e =? 0) then
                   set_entry name (set_ie_request 0);;
                   mret (bits + 1)
                 else mret bits);
         set_entry name (set_ie_bits bits);;
         set_entry name (set_ie_object IO_NULL);;
         mret IP_NULL
       else
         assert_ (IE_BITS_TYPE bits =? MACH_PORT_TYPE_RECEIVE);;
         assert_ (IE_BITS_UREFS bits =? 0);;
         dnrequest ← ipc_right_dncancel_macro port name;
         set_entry name (set_ie_object IO_NULL);;
         onS (ipc_entry_dealloc name);;
         mret dnrequest);
    onK (ipc_port_clear_receiver port);;
    onK (ipc_port_destroy port);;
    notify_port_deleted dnrequest name;;
    mret KERN_SUCCESS.

(** [ipc_right_delta], a send-once right (osfmk/ipc/ipc_right.c, 1084-1127). *)
Definition delta_send_once (name delta : Z) : R Z :=
  e ← get_entry name;
  let bits := ie_bits e in
  if negb (has bits MACH_PORT_TYPE_SEND_ONCE) then mret KERN_INVALID_RIGHT
  else
    assert_ (IE_BITS_TYPE bits =? MACH_PORT_TYPE_SEND_ONCE);;
    assert_ (IE_BITS_UREFS bits =? 1);;
    let port := ie_object e in
    assert_ (negb (port =? IP_NULL));;
    died ← ipc_right_check port name;
    if (died : bool) then
      e ← get_entry name;
      assert_ (negb (has (ie_bits e) MACH_PORT_TYPE_SEND_ONCE));;
      mret KERN_INVALID_RIGHT
    else
      P ← get_port port;
      assert_ (0 <? ip_sorights P);;
      if (0 <? delta) || (delta <? -1) then mret KERN_INVALID_VALUE
      else if delta =? 0 then mret KERN_SUCCESS
      else end_send_once port name.

(** [ipc_right_delta], a dead name (osfmk/ipc/ipc_right.c, 1129-1167). *)
Definition delta_dead_name (name delta : Z) : R Z :=
  e ← get_entry name;
  let bits := ie_bits e in
  go ← (if has bits MACH_PORT_TYPE_SEND_RIGHTS then
          let port := ie_object e in
          assert_ (negb (port =? IP_NULL));;
          ipc_right_check port name
        else mret (has bits MACH_PORT_TYPE_DEAD_NAME));
  if negb go then mret KERN_INVALID_RIGHT
  else
    e ← get_entry name;
    let bits := ie_bits e in
    assert_ (IE_BITS_TYPE bits =? MACH_PORT_TYPE_DEAD_NAME);;
    assert_ (0 <? IE_BITS_UREFS bits);;
    assert_ (ie_object e =? IO_NULL);;
    assert_ (ie_request e =? 0);;
    let urefs := IE_BITS_UREFS bits in
    if MACH_PORT_UREFS_UNDERFLOW urefs delta then mret KERN_INVALID_VALUE
    else if MACH_PORT_UREFS_OVERFLOW urefs delta then mret KERN_UREFS_OVERFLOW
    else
      (if u32 (urefs + delta) =? 0 then onS (ipc_entry_dealloc name)
       else set_entry name (set_ie_bits (u32 (bits + delta))));;
      mret KERN_SUCCESS.

(** [ipc_right_delta], a send right (osfmk/ipc/ipc_right.c, 1169-1246). *)
Definition delta_send (name delta : Z) : R Z :=
  e ← get_entry name;
  let bits := ie_bits e in
  if negb (has bits MACH_PORT_TYPE_SEND) then mret KERN_INVALID_RIGHT
  else
    let port := ie_object e in
    assert_ (negb (port =? IP_NULL));;
    died ← ipc_right_check port name;
    if (died : bool) then
      e ← get_entry name;
      assert_ (negb (has (ie_bits e) MACH_PORT_TYPE_SEND));;
      mret KERN_INVALID_RIGHT
    else
      P ← get_port port;
      assert_ (0 <? ip_srights P);;
      let urefs := IE_BITS_UREFS bits in
      if MACH_PORT_UREFS_UNDERFLOW urefs delta then mret KERN_INVALID_VALUE
      else if MACH_PORT_UREFS_OVERFLOW (urefs + 1) delta then mret KERN_UREFS_OVERFLOW
      else
        '(nsrequest, mscount, dnrequest) ←
          (if u32 (urefs + delta) =? 0 then
             '(nsrequest, mscount) ← drop_sright port;
             if has bits MACH_PORT_TYPE_RECEIVE then
               assert_ (ip_receiver_name P =? name);;
               assert_ (ip_receiver P =? space);;
               assert_ (IE_BITS_TYPE bits =? MACH_PORT_TYPE_SEND_RECEIVE);;
               set_entry name (set_ie_bits
                 (Z.ldiff bits (IE_BITS_UREFS_MASK ||| MACH_PORT_TYPE_SEND)));;
               mret (nsrequest, mscount, IP_NULL)
             else
               assert_ (IE_BITS_TYPE bits =? MACH_PORT_TYPE_SEND);;
               dnrequest ← ipc_right_dncancel_macro port name;
               onS (ipc_hash_delete port name);;
               onK (ip_release port);;
               set_entry name (set_ie_object IO_NULL);;
               onS (ipc_entry_dealloc name);;
               mret (nsrequest, mscount, dnrequest)
           else
             set_entry name (set_ie_bits (u32 (bits + delta)));;
             mret (IP_NULL, 0, IP_NULL));
        notify_no_senders nsrequest mscount;;
        notify_port_deleted dnrequest name;;
        mret KERN_SUCCESS.

(** [ipc_right_delta] (osfmk/ipc/ipc_right.c, 956-1269). *)
Definition ipc_right_delta (name right delta : Z) : R Z :=
  active ← gets rs_active;
  assert_ active;;
  assert_ (right <? MACH_PORT_RIGHT_NUMBER);;
  if right =? MACH_PORT_RIGHT_PORT_SET then delta_port_set name delta
  else if right =? MACH_PORT_RIGHT_RECEIVE then delta_receive name delta
  else if right =? MACH_PORT_RIGHT_SEND_ONCE then delta_send_once name delta
  else if right =? MACH_PORT_RIGHT_DEAD_NAME then delta_dead_name name delta
  else if right =? MACH_PORT_RIGHT_SEND then delta_send name delta
  else panic.

(** [ipc_right_info] (osfmk/ipc/ipc_right.c, 1282-1315): the type and the user
    references. *)
Definition ipc_right_info (name : Z) : R (Z * Z) :=
  e ← get_entry name;
  let bits := ie_bits e in
  (if has bits MACH_PORT_TYPE_SEND_RIGHTS then
     died ← ipc_right_check (ie_object e) name;
     if (died : bool) then
       e ← get_entry name;
       assert_ (IE_BITS_TYPE (ie_bits e) =? MACH_PORT_TYPE_DEAD_NAME)
     else mret tt
   else mret tt);;
  e ← get_entry name;
  let bits := ie_bits e in
  let type := IE_BITS_TYPE bits in
  mret (if negb (ie_request e =? 0) then type ||| MACH_PORT_TYPE_DNREQUEST else type,
        IE_BITS_UREFS bits).

(** * Moving rights in and out of messages *)

(** [ipc_right_copyin_check] (osfmk/ipc/ipc_right.c, 1325-1452). *)
Definition ipc_right_copyin_check (name msgt_name : Z) : R bool :=
  e ← get_entry name;
  let bits := ie_bits e in
  active ← gets rs_active;
  assert_ active;;
  if (msgt_name =? MACH_MSG_TYPE_MAKE_SEND) || (msgt_name =? MACH_MSG_TYPE_MAKE_SEND_ONCE)
     || (msgt_name =? MACH_MSG_TYPE_MOVE_RECEIVE) then
    mret (has bits MACH_PORT_TYPE_RECEIVE)
  else if (msgt_name =? MACH_MSG_TYPE_COPY_SEND) || (msgt_name =? MACH_MSG_TYPE_MOVE_SEND)
          || (msgt_name =? MACH_MSG_TYPE_MOVE_SEND_ONCE) then
    if has bits MACH_PORT_TYPE_DEAD_NAME then mret true
    else if negb (has bits MACH_PORT_TYPE_SEND_RIGHTS) then mret false
    else
      let port := ie_object e in
      assert_ (negb (port =? IP_NULL));;
      P ← get_port port;
      if negb (ip_active P) then mret true
      else if msgt_name =? MACH_MSG_TYPE_MOVE_SEND_ONCE then
        mret (has bits MACH_PORT_TYPE_SEND_ONCE)
      else mret (has bits MACH_PORT_TYPE_SEND)
  else panic.

(** What a copyin gives: the code, the object and the send-once right for a port-deleted
    notification. *)
Abbreviation copied := (Z * Z * Z)%type.
Definition invalid_right : R copied := mret (KERN_INVALID_RIGHT, 0, 0).

(** The checks that start the cases that need the receive right. *)
Definition receive_port (name : Z) (e : entry) : R Z :=
  let port := ie_object e in
  assert_ (negb (port =? IP_NULL));;
  P ← get_port port;
  assert_ (ip_active P);;
  assert_ (ip_receiver_name P =? name);;
  assert_ (ip_receiver P =? space);;
  mret port.

(** [ipc_right_copyin], MAKE_SEND (osfmk/ipc/ipc_right.c, 1498-1530). *)
Definition copyin_make_send (name : Z) : R copied :=
  e ← get_entry name;
  if negb (has (ie_bits e) MACH_PORT_TYPE_RECEIVE) then invalid_right
  else
    port ← receive_port name e;
    set_port port (λ P, set_ip_srights (u32 (ip_srights P + 1))
      (set_ip_mscount (u32 (ip_mscount P + 1)) P));;
    onK (ip_reference port);;
    mret (KERN_SUCCESS, port, IP_NULL).

(** [ipc_right_copyin], MAKE_SEND_ONCE (osfmk/ipc/ipc_right.c, 1532-1563). *)
Definition copyin_make_send_once (name : Z) : R copied :=
  e ← get_entry name;
  if negb (has (ie_bits e) MACH_PORT_TYPE_RECEIVE) then invalid_right
  else
    port ← receive_port name e;
    set_port port (λ P, set_ip_sorights (u32 (ip_sorights P + 1)) P);;
    onK (ip_reference port);;
    mret (KERN_SUCCESS, port, IP_NULL).

(** [ipc_right_copyin], MOVE_RECEIVE (osfmk/ipc/ipc_right.c, 1565-1619). *)
Definition copyin_move_receive (name : Z) : R copied :=
  e ← get_entry name;
  let bits := ie_bits e in
  if negb (has bits MACH_PORT_TYPE_RECEIVE) then invalid_right
  else
    port ← receive_port name e;
    dnrequest ←
      (if has bits MACH_PORT_TYPE_SEND then
         assert_ (IE_BITS_TYPE bits =? MACH_PORT_TYPE_SEND_RECEIVE);;
         assert_ (0 <? IE_BITS_UREFS bits);;
         P ← get_port port;
         assert_ (0 <? ip_srights P);;
         onS (ipc_hash_insert port name);;
         onK (ip_reference port);;
         mret IP_NULL
       else
         assert_ (IE_BITS_TYPE bits =? MACH_PORT_TYPE_RECEIVE);;
         assert_ (IE_BITS_UREFS bits =? 0);;
         dnrequest ← ipc_right_dncancel_macro port name;
         set_entry name (set_ie_object IO_NULL);;
         mret dnrequest);
    set_entry name (set_ie_bits (Z.ldiff bits MACH_PORT_TYPE_RECEIVE));;
    onK (ipc_port_clear_receiver port);;
    set_port port (λ P, set_ip_data IP_NULL (set_ip_receiver_name MACH_PORT_NULL P));;
    mret (KERN_SUCCESS, port, dnrequest).

(** [ipc_right_copyin], the label [copy_dead] (osfmk/ipc/ipc_right.c, 1814-1825). *)
Definition copy_dead (name : Z) (deadok : bool) : R copied :=
  e ← get_entry name;
  let bits := ie_bits e in
  assert_ (IE_BITS_TYPE bits =? MACH_PORT_TYPE_DEAD_NAME);;
  assert_ (0 <? IE_BITS_UREFS bits);;
  assert_ (ie_request e =? 0);;
  assert_ (ie_object e =? 0);;
  if negb deadok then invalid_right else mret (KERN_SUCCESS, IO_DEAD, IP_NULL).

(** [ipc_right_copyin], the label [move_dead] (osfmk/ipc/ipc_right.c, 1827-1843). *)
Definition move_dead (name : Z) (deadok : bool) : R copied :=
  e ← get_entry name;
  let bits := ie_bits e in
  assert_ (IE_BITS_TYPE bits =? MACH_PORT_TYPE_DEAD_NAME);;
  assert_ (0 <? IE_BITS_UREFS bits);;
  assert_ (ie_request e =? 0);;
  assert_ (ie_object e =? 0);;
  if negb deadok then invalid_right
  else
    let bits := if IE_BITS_UREFS bits =? 1 then Z.ldiff bits MACH_PORT_TYPE_DEAD_NAME else bits in
    set_entry name (set_ie_bits (bits - 1));;
    mret (KERN_SUCCESS, IO_DEAD, IP_NULL).

(** [ipc_right_copyin], COPY_SEND (osfmk/ipc/ipc_right.c, 1621-1670). *)
Definition copyin_copy_send (name : Z) (deadok : bool) : R copied :=
  e ← get_entry name;
  let bits := ie_bits e in
  if has bits MACH_PORT_TYPE_DEAD_NAME then copy_dead name deadok
  else if negb (has bits MACH_PORT_TYPE_SEND_RIGHTS) then invalid_right
  else
    assert_ (0 <? IE_BITS_UREFS bits);;
    let port := ie_object e in
    assert_ (negb (port =? IP_NULL));;
    died ← ipc_right_check port name;
    if (died : bool) then copy_dead name deadok
    else if negb (has bits MACH_PORT_TYPE_SEND) then
      assert_ (IE_BITS_TYPE bits =? MACH_PORT_TYPE_SEND_ONCE);;
      P ← get_port port;
      assert_ (0 <? ip_sorights P);;
      invalid_right
    else
      P ← get_port port;
      assert_ (0 <? ip_srights P);;
      set_port port (λ P, set_ip_srights (u32 (ip_srights P + 1)) P);;
      onK (ip_reference port);;
      mret (KERN_SUCCESS, port, IP_NULL).

(** [ipc_right_copyin], MOVE_SEND (osfmk/ipc/ipc_right.c, 1672-1747). *)
Definition copyin_move_send (name : Z) (deadok : bool) : R copied :=
  e ← get_entry name;
  let bits := ie_bits e in
  if has bits MACH_PORT_TYPE_DEAD_NAME then move_dead name deadok
  else if negb (has bits MACH_PORT_TYPE_SEND_RIGHTS) then invalid_right
  else
    assert_ (0 <? IE_BITS_UREFS bits);;
    let port := ie_object e in
    assert_ (negb (port =? IP_NULL));;
    died ← ipc_right_check port name;
    if (died : bool) then move_dead name deadok
    else if negb (has bits MACH_PORT_TYPE_SEND) then
      assert_ (IE_BITS_TYPE bits =? MACH_PORT_TYPE_SEND_ONCE);;
      P ← get_port port;
      assert_ (0 <? ip_sorights P);;
      invalid_right
    else
      P ← get_port port;
      assert_ (0 <? ip_srights P);;
      dnrequest ←
        (if IE_BITS_UREFS bits =? 1 then
           dnrequest ←
             (if has bits MACH_PORT_TYPE_RECEIVE then
                assert_ (ip_receiver_name P =? name);;
                assert_ (ip_receiver P =? space);;
                assert_ (IE_BITS_TYPE bits =? MACH_PORT_TYPE_SEND_RECEIVE);;
                onK (ip_reference port);;
                mret IP_NULL
              else
                assert_ (IE_BITS_TYPE bits =? MACH_PORT_TYPE_SEND);;
                dnrequest ← ipc_right_dncancel_macro port name;
                onS (ipc_hash_delete port name);;
                set_entry name (set_ie_object IO_NULL);;
                mret dnrequest);
           set_entry name (set_ie_bits
             (Z.ldiff bits (IE_BITS_UREFS_MASK ||| MACH_PORT_TYPE_SEND)));;
           mret dnrequest
         else
           set_port port (λ P, set_ip_srights (u32 (ip_srights P + 1)) P);;
           onK (ip_reference port);;
           set_entry name (set_ie_bits (bits - 1));;
           mret IP_NULL);
      mret (KERN_SUCCESS, port, dnrequest).

(** [ipc_right_copyin], MOVE_SEND_ONCE (osfmk/ipc/ipc_right.c, 1749-1805). *)
Definition copyin_move_send_once (name : Z) (deadok : bool) : R copied :=
  e ← get_entry name;
  let bits := ie_bits e in
  if has bits MACH_PORT_TYPE_DEAD_NAME then move_dead name deadok
  else if negb (has bits MACH_PORT_TYPE_SEND_RIGHTS) then invalid_right
  else
    assert_ (0 <? IE_BITS_UREFS bits);;
    let port := ie_object e in
    assert_ (negb (port =? IP_NULL));;
    died ← ipc_right_check port name;
    if (died : bool) then move_dead name deadok
    else if negb (has bits MACH_PORT_TYPE_SEND_ONCE) then
      assert_ (has bits MACH_PORT_TYPE_SEND);;
      P ← get_port port;
      assert_ (0 <? ip_srights P);;
      invalid_right
    else
      assert_ (IE_BITS_TYPE bits =? MACH_PORT_TYPE_SEND_ONCE);;
      assert_ (IE_BITS_UREFS bits =? 1);;
      P ← get_port port;
      assert_ (0 <? ip_sorights P);;
      dnrequest ← ipc_right_dncancel_macro port name;
      set_entry name (set_ie_object IO_NULL);;
      set_entry name (set_ie_bits
        (Z.ldiff bits (IE_BITS_UREFS_MASK ||| MACH_PORT_TYPE_SEND_ONCE)));;
      mret (KERN_SUCCESS, port, dnrequest).

(** [ipc_right_copyin] (osfmk/ipc/ipc_right.c, 1477-1845). *)
Definition ipc_right_copyin (name msgt_name : Z) (deadok : bool) : R copied :=
  active ← gets rs_active;
  assert_ active;;
  if msgt_name =? MACH_MSG_TYPE_MAKE_SEND then copyin_make_send name
  else if msgt_name =? MACH_MSG_TYPE_MAKE_SEND_ONCE then copyin_make_send_once name
  else if msgt_name =? MACH_MSG_TYPE_MOVE_RECEIVE then copyin_move_receive name
  else if msgt_name =? MACH_MSG_TYPE_COPY_SEND then copyin_copy_send name deadok
  else if msgt_name =? MACH_MSG_TYPE_MOVE_SEND then copyin_move_send name deadok
  else if msgt_name =? MACH_MSG_TYPE_MOVE_SEND_ONCE then copyin_move_send_once name deadok
  else invalid_right.

(** [ipc_right_copyin_undo] (osfmk/ipc/ipc_right.c, 1857-1926). *)
Definition ipc_right_copyin_undo (name msgt_name object soright : Z) : R unit :=
  e ← get_entry name;
  let bits := ie_bits e in
  active ← gets rs_active;
  assert_ active;;
  assert_ ((msgt_name =? MACH_MSG_TYPE_MOVE_SEND) || (msgt_name =? MACH_MSG_TYPE_COPY_SEND)
           || (msgt_name =? MACH_MSG_TYPE_MOVE_SEND_ONCE));;
  (if negb (soright =? IP_NULL) then
     assert_ ((msgt_name =? MACH_MSG_TYPE_MOVE_SEND) || (msgt_name =? MACH_MSG_TYPE_MOVE_SEND_ONCE));;
     assert_ (IE_BITS_TYPE bits =? MACH_PORT_TYPE_NONE);;
     assert_ (negb (object =? IO_DEAD));;
     set_entry name (set_ie_bits (Z.ldiff bits IE_BITS_RIGHT_MASK ||| MACH_PORT_TYPE_DEAD_NAME ||| 2))
   else if IE_BITS_TYPE bits =? MACH_PORT_TYPE_NONE then
     assert_ ((msgt_name =? MACH_MSG_TYPE_MOVE_SEND) || (msgt_name =? MACH_MSG_TYPE_MOVE_SEND_ONCE));;
     set_entry name (set_ie_bits (Z.ldiff bits IE_BITS_RIGHT_MASK ||| MACH_PORT_TYPE_DEAD_NAME ||| 1))
   else if IE_BITS_TYPE bits =? MACH_PORT_TYPE_DEAD_NAME then
     assert_ (object =? IO_DEAD);;
     assert_ (0 <? IE_BITS_UREFS bits);;
     if negb (msgt_name =? MACH_MSG_TYPE_COPY_SEND) then
       assert_ (IE_BITS_UREFS bits <? MACH_PORT_UREFS_MAX);;
       set_entry name (set_ie_bits (bits + 1))
     else mret tt
   else
     assert_ ((msgt_name =? MACH_MSG_TYPE_MOVE_SEND) || (msgt_name =? MACH_MSG_TYPE_COPY_SEND));;
     assert_ (IE_BITS_TYPE bits =? MACH_PORT_TYPE_SEND);;
     assert_ (negb (object =? IO_DEAD));;
     assert_ (ie_object e =? object);;
     assert_ (0 <? IE_BITS_UREFS bits);;
     (if negb (msgt_name =? MACH_MSG_TYPE_COPY_SEND) then
        assert_ (IE_BITS_UREFS bits <? MACH_PORT_UREFS_MAX - 1);;
        set_entry name (set_ie_bits (bits + 1))
      else mret tt);;
     ipc_right_check object name;;
     mret tt);;
  if negb (object =? IO_DEAD) then onK (ipc_port_release object) else mret tt.

(** [ipc_right_copyin_two] (osfmk/ipc/ipc_right.c, 1942-2027). *)
Definition ipc_right_copyin_two (name : Z) : R copied :=
  active ← gets rs_active;
  assert_ active;;
  e ← get_entry name;
  let bits := ie_bits e in
  if negb (has bits MACH_PORT_TYPE_SEND) then invalid_right
  else
    let urefs := IE_BITS_UREFS bits in
    if urefs <? 2 then invalid_right
    else
      let port := ie_object e in
      assert_ (negb (port =? IP_NULL));;
      died ← ipc_right_check port name;
      if (died : bool) then invalid_right
      else
        P ← get_port port;
        assert_ (0 <? ip_srights P);;
        dnrequest ←
          (if urefs =? 2 then
             dnrequest ←
               (if has bits MACH_PORT_TYPE_RECEIVE then
                  assert_ (ip_receiver_name P =? name);;
                  assert_ (ip_receiver P =? space);;
                  assert_ (IE_BITS_TYPE bits =? MACH_PORT_TYPE_SEND_RECEIVE);;
                  set_port port (λ P, set_ip_srights (u32 (ip_srights P + 1)) P);;
                  onK (ip_reference port);;
                  onK (ip_reference port);;
                  mret IP_NULL
                else
                  assert_ (IE_BITS_TYPE bits =? MACH_PORT_TYPE_SEND);;
                  dnrequest ← ipc_right_dncancel_macro port name;
                  set_port port (λ P, set_ip_srights (u32 (ip_srights P + 1)) P);;
                  onK (ip_reference port);;
                  onS (ipc_hash_delete port name);;
                  set_entry name (set_ie_object IO_NULL);;
                  mret dnrequest);
             set_entry name (set_ie_bits
               (Z.ldiff bits (IE_BITS_UREFS_MASK ||| MACH_PORT_TYPE_SEND)));;
             mret dnrequest
           else
             set_port port (λ P, set_ip_srights (u32 (ip_srights P + 2)) P);;
             onK (ip_reference port);;
             onK (ip_reference port);;
             set_entry name (set_ie_bits (bits - 2));;
             mret IP_NULL);
        mret (KERN_SUCCESS, port, dnrequest).

(** [ipc_right_copyout], a send-once right (osfmk/ipc/ipc_right.c, 2078-2100). *)
Definition copyout_send_once (name port : Z) : R Z :=
  e ← get_entry name;
  let bits := ie_bits e in
  assert_ (IE_BITS_TYPE bits =? MACH_PORT_TYPE_NONE);;
  P ← get_port port;
  assert_ (0 <? ip_sorights P);;
  set_entry name (set_ie_bits (bits ||| (MACH_PORT_TYPE_SEND_ONCE ||| 1)));;
  mret KERN_SUCCESS.

(** [ipc_right_copyout], a send right (osfmk/ipc/ipc_right.c, 2102-2164). *)
Definition copyout_send (name : Z) (overflow : bool) (port : Z) : R Z :=
  e ← get_entry name;
  let bits := ie_bits e in
  P ← get_port port;
  assert_ (0 <? ip_srights P);;
  (** One send right and one reference less, as the entry has its own. *)
  let merge : R unit :=
    set_port port (λ P, set_ip_srights (u32 (ip_srights P - 1)) P);;
    onK (ip_release port) in
  let finish : R Z :=
    set_entry name (set_ie_bits ((bits ||| MACH_PORT_TYPE_SEND) + 1));;
    mret KERN_SUCCESS in
  if has bits MACH_PORT_TYPE_SEND then
    let urefs := IE_BITS_UREFS bits in
    assert_ (1 <? ip_srights P);;
    assert_ (0 <? urefs);;
    assert_ (urefs <? MACH_PORT_UREFS_MAX);;
    if urefs + 1 =? MACH_PORT_UREFS_MAX then
      if overflow then merge;; mret KERN_SUCCESS else mret KERN_UREFS_OVERFLOW
    else merge;; finish
  else if has bits MACH_PORT_TYPE_RECEIVE then
    assert_ (IE_BITS_TYPE bits =? MACH_PORT_TYPE_RECEIVE);;
    assert_ (IE_BITS_UREFS bits =? 0);;
    onK (ip_release port);;
    finish
  else
    assert_ (IE_BITS_TYPE bits =? MACH_PORT_TYPE_NONE);;
    assert_ (IE_BITS_UREFS bits =? 0);;
    onS (ipc_hash_insert port name);;
    finish.

(** [ipc_right_copyout], a receive right (osfmk/ipc/ipc_right.c, 2166-2216). *)
Definition copyout_receive (name port : Z) : R Z :=
  e ← get_entry name;
  let bits := ie_bits e in
  P ← get_port port;
  assert_ (ip_mscount P =? 0);;
  assert_ (ip_receiver_name P =? MACH_PORT_NULL);;
  let dest := ip_destination P in
  set_port port (λ P, set_ip_data space (set_ip_receiver_name name P));;
  assert_ (negb (has bits MACH_PORT_TYPE_RECEIVE));;
  (if has bits MACH_PORT_TYPE_SEND then
     assert_ (IE_BITS_TYPE bits =? MACH_PORT_TYPE_SEND);;
     assert_ (0 <? IE_BITS_UREFS bits);;
     assert_ (0 <? ip_srights P);;
     onK (ip_release port);;
     onS (ipc_hash_delete port name)
   else
     assert_ (IE_BITS_TYPE bits =? MACH_PORT_TYPE_NONE);;
     assert_ (IE_BITS_UREFS bits =? 0));;
  set_entry name (set_ie_bits (bits ||| MACH_PORT_TYPE_RECEIVE));;
  (if negb (dest =? IP_NULL) then onK (ipc_port_release dest) else mret tt);;
  mret KERN_SUCCESS.

(** [ipc_right_copyout] (osfmk/ipc/ipc_right.c, 2053-2223).  An object is valid and, in
    the state, a port. *)
Definition ipc_right_copyout (name msgt_name : Z) (overflow : bool) (object : Z) : R Z :=
  assert_ (IP_VALID object);;
  P ← get_port object;
  assert_ (ip_active P);;
  e ← get_entry name;
  assert_ (ie_object e =? object);;
  if msgt_name =? MACH_MSG_TYPE_PORT_SEND_ONCE then copyout_send_once name object
  else if msgt_name =? MACH_MSG_TYPE_PORT_SEND then copyout_send name overflow object
  else if msgt_name =? MACH_MSG_TYPE_PORT_RECEIVE then copyout_receive name object
  else panic.

(** [ipc_right_rename] (osfmk/ipc/ipc_right.c, 2238-2350). *)
Definition ipc_right_rename (oname nname : Z) : R Z :=
  oe ← get_entry oname;
  active ← gets rs_active;
  assert_ active;;
  assert_ (negb (oname =? nname));;
  '(request, bits, object) ←
    (if negb (ie_request oe =? 0) then
       assert_ (has (ie_bits oe) MACH_PORT_TYPE_PORT_RIGHTS);;
       let port := ie_object oe in
       assert_ (negb (port =? IP_NULL));;
       died ← ipc_right_check port oname;
       if (died : bool) then
         oe ← get_entry oname;
         assert_ (IE_BITS_TYPE (ie_bits oe) =? MACH_PORT_TYPE_DEAD_NAME);;
         assert_ (ie_request oe =? 0);;
         mret (0, ie_bits oe, IO_NULL)
       else
         onK (ipc_port_dnrename port (ie_request oe) oname nname);;
         set_entry oname (set_ie_request 0);;
         mret (ie_request oe, ie_bits oe, port)
     else mret (0, ie_bits oe, ie_object oe));
  ne ← get_entry nname;
  assert_ (ie_bits ne &&& IE_BITS_RIGHT_MASK =? 0);;
  put_entry nname (Entry object (ie_bits ne ||| (bits &&& IE_BITS_RIGHT_MASK)) request);;
  let type := IE_BITS_TYPE bits in
  (if type =? MACH_PORT_TYPE_SEND then
     assert_ (negb (object =? IP_NULL));;
     onS (ipc_hash_delete object oname);;
     onS (ipc_hash_insert object nname)
   else if (type =? MACH_PORT_TYPE_RECEIVE) || (type =? MACH_PORT_TYPE_SEND_RECEIVE) then
     assert_ (negb (object =? IP_NULL));;
     P ← get_port object;
     assert_ (ip_active P);;
     assert_ (ip_receiver_name P =? oname);;
     assert_ (ip_receiver P =? space);;
     set_port object (set_ip_receiver_name nname)
   else if type =? MACH_PORT_TYPE_PORT_SET then
     assert_ (negb (object =? 0));;
     S ← onK (pset_get object);
     assert_ (ips_active S);;
     assert_ (ips_local_name S =? oname);;
     onK (pset_put object (Pset (ips_bits S) (ips_references S) nname))
   else if (type =? MACH_PORT_TYPE_SEND_ONCE) || (type =? MACH_PORT_TYPE_DEAD_NAME) then mret tt
   else panic);;
  oe ← get_entry oname;
  assert_ (ie_request oe =? 0);;
  set_entry oname (set_ie_object IO_NULL);;
  onS (ipc_entry_dealloc oname);;
  mret KERN_SUCCESS.

(** [ipc_port_lookup_notify] (osfmk/ipc/ipc_port.c, 854-883): the port with a new send-once
    right, or null. *)
Definition ipc_port_lookup_notify (name : Z) : R Z :=
  active ← gets rs_active;
  assert_ active;;
  found ← onS (ipc_entry_lookup name);
  if negb found then mret IP_NULL
  else
    e ← get_entry name;
    if negb (has (ie_bits e) MACH_PORT_TYPE_RECEIVE) then mret IP_NULL
    else
      port ← receive_port name e;
      onK (ip_reference port);;
      set_port port (λ P, set_ip_sorights (u32 (ip_sorights P + 1)) P);;
      mret port.
End rights.

(** * The bits of an entry *)

(** The generation and collision mark, the type and the user references as one word. *)
Definition fields (g c u : Z) : Z := g * 2 ^ 23 + c * 2 ^ 16 + u.

Inductive rtype := RNone | RSend | RReceive | RSendReceive | RSendOnce | RPortSet | RDeadName.

Definition tcode (t : rtype) : Z :=
  match t with
  | RNone => 0 | RSend => 1 | RReceive => 2 | RSendReceive => 3 | RSendOnce => 4
  | RPortSet => 8 | RDeadName => 16
  end.

#[export] Instance rtype_eq_dec : EqDecision rtype.
Proof. solve_decision. Defined.

Lemma fields_testbit g c u i : 0 <= g -> 0 <= c < 2 ^ 7 -> 0 <= u < 2 ^ 16 -> 0 <= i ->
  Z.testbit (fields g c u) i =
    if i <? 16 then Z.testbit u i
    else if i <? 23 then Z.testbit c (i - 16) else Z.testbit g (i - 23).
Proof.
  intros Hg Hc Hu Hi. unfold fields.
  destruct (Z.ltb_spec i 16); [|destruct (Z.ltb_spec i 23)].
  - rewrite <- (Z.mod_pow2_bits_low (g * 2 ^ 23 + c * 2 ^ 16 + u) 16) by done.
    replace (g * 2 ^ 23 + c * 2 ^ 16 + u) with (u + (g * 2 ^ 7 + c) * 2 ^ 16) by lia.
    by rewrite Z.mod_add, Z.mod_small by lia.
  - replace i with (i - 16 + 16) at 1 by lia. rewrite <- Z.shiftr_spec, Z.shiftr_div_pow2 by lia.
    replace (g * 2 ^ 23 + c * 2 ^ 16 + u) with (u + (g * 2 ^ 7 + c) * 2 ^ 16) by lia.
    rewrite Z.div_add, Z.div_small by lia.
    rewrite <- (Z.mod_pow2_bits_low (0 + (g * 2 ^ 7 + c)) 7) by lia.
    replace (0 + (g * 2 ^ 7 + c)) with (c + g * 2 ^ 7) by lia.
    by rewrite Z.mod_add, Z.mod_small by lia.
  - replace i with (i - 23 + 23) at 1 by lia. rewrite <- Z.shiftr_spec, Z.shiftr_div_pow2 by lia.
    replace (g * 2 ^ 23 + c * 2 ^ 16 + u) with ((c * 2 ^ 16 + u) + g * 2 ^ 23) by lia.
    by rewrite Z.div_add, Z.div_small by lia.
Qed.

Lemma land_range n a b : 0 <= n -> 0 <= a < 2 ^ n -> 0 <= b -> 0 <= Z.land a b < 2 ^ n.
Proof.
  intros Hn Ha Hb. split; [apply Z.land_nonneg; lia|].
  assert (a &&& b = (a &&& b) mod 2 ^ n) as ->; [|apply Z.mod_pos_bound; lia].
  rewrite <- !Z.land_ones, <- Z.land_assoc, (Z.land_comm b), Z.land_assoc, Z.land_ones by lia.
  by rewrite (Z.mod_small a).
Qed.

Lemma ldiff_range n a b : 0 <= n -> 0 <= a < 2 ^ n -> 0 <= Z.ldiff a b < 2 ^ n.
Proof.
  intros Hn Ha. split; [apply Z.ldiff_nonneg; lia|].
  assert (Z.ldiff a b = Z.ldiff a b mod 2 ^ n) as ->; [|apply Z.mod_pos_bound; lia].
  rewrite <- Z.land_ones by lia. apply Z.bits_inj'. intros i Hi.
  rewrite Z.land_spec, !Z.ldiff_spec.
  rewrite <- (Z.mod_small a (2 ^ n)) by done. rewrite <- Z.land_ones, Z.land_spec by lia.
  by destruct (Z.testbit a i), (Z.testbit b i), (Z.testbit (Z.ones n) i).
Qed.

Lemma lor_range n a b : 0 <= n -> 0 <= a < 2 ^ n -> 0 <= b < 2 ^ n -> 0 <= Z.lor a b < 2 ^ n.
Proof.
  intros Hn Ha Hb. split; [apply Z.lor_nonneg; lia|].
  assert (a ||| b = (a ||| b) mod 2 ^ n) as ->; [|apply Z.mod_pos_bound; lia].
  rewrite <- Z.land_ones, Z.land_lor_distr_l, !Z.land_ones by lia. by rewrite !Z.mod_small.
Qed.

Section fields_ops.
Context (g c u g' c' u' : Z).
Context (Hg : 0 <= g) (Hc : 0 <= c < 2 ^ 7) (Hu : 0 <= u < 2 ^ 16).
Context (Hg' : 0 <= g') (Hc' : 0 <= c' < 2 ^ 7) (Hu' : 0 <= u' < 2 ^ 16).

Lemma fields_land : fields g c u &&& fields g' c' u' = fields (g &&& g') (c &&& c') (u &&& u').
Proof.
  apply Z.bits_inj'. intros i Hi.
  assert (0 <= Z.land g g') by (apply Z.land_nonneg; lia).
  assert (0 <= Z.land c c' < 2 ^ 7) by (apply land_range; lia).
  assert (0 <= Z.land u u' < 2 ^ 16) by (apply land_range; lia).
  rewrite Z.land_spec, !fields_testbit by lia.
  repeat case_match; by rewrite ?Z.land_spec.
Qed.

Lemma fields_lor : fields g c u ||| fields g' c' u' = fields (g ||| g') (c ||| c') (u ||| u').
Proof.
  apply Z.bits_inj'. intros i Hi.
  assert (0 <= Z.lor g g') by (by apply Z.lor_nonneg).
  assert (0 <= Z.lor c c' < 2 ^ 7) by (apply lor_range; lia).
  assert (0 <= Z.lor u u' < 2 ^ 16) by (apply lor_range; lia).
  rewrite Z.lor_spec, !fields_testbit by lia.
  repeat case_match; by rewrite ?Z.lor_spec.
Qed.

Lemma fields_ldiff :
  Z.ldiff (fields g c u) (fields g' c' u') = fields (Z.ldiff g g') (Z.ldiff c c') (Z.ldiff u u').
Proof.
  apply Z.bits_inj'. intros i Hi.
  assert (0 <= Z.ldiff g g') by (apply Z.ldiff_nonneg; lia).
  assert (0 <= Z.ldiff c c' < 2 ^ 7) by (apply ldiff_range; lia).
  assert (0 <= Z.ldiff u u' < 2 ^ 16) by (apply ldiff_range; lia).
  rewrite Z.ldiff_spec, !fields_testbit by lia.
  repeat case_match; by rewrite ?Z.ldiff_spec.
Qed.

Lemma fields_upper : Z.shiftr (fields g c u) 23 = g.
Proof.
  rewrite Z.shiftr_div_pow2 by lia. unfold fields.
  replace (g * 2 ^ 23 + c * 2 ^ 16 + u) with ((c * 2 ^ 16 + u) + g * 2 ^ 23) by lia.
  by rewrite Z.div_add, Z.div_small by lia.
Qed.

Lemma fields_zero : fields g c u = 0 <-> g = 0 /\ c = 0 /\ u = 0.
Proof. unfold fields. lia. Qed.
End fields_ops.

Lemma ones16 : 0 <= Z.ones 16 < 2 ^ 16.
Proof. done. Qed.

Lemma tcode_range t : 0 <= tcode t < 2 ^ 7.
Proof. destruct t; cbn; lia. Qed.

Section tests.
Context (g : Z) (t : rtype) (u : Z) (Hg : 0 <= g) (Hu : 0 <= u < 2 ^ 16).

Lemma urefs_fields : IE_BITS_UREFS (fields g (tcode t) u) = u.
Proof.
  unfold IE_BITS_UREFS. change IE_BITS_UREFS_MASK with (fields 0 0 (Z.ones 16)).
  pose proof ones16. rewrite fields_land by (try apply tcode_range; lia).
  rewrite !Z.land_0_r, Z.land_ones, Z.mod_small by lia. unfold fields. lia.
Qed.

Lemma type_fields : IE_BITS_TYPE (fields g (tcode t) u) = fields 0 (tcode t) 0.
Proof.
  unfold IE_BITS_TYPE. change IE_BITS_TYPE_MASK with (fields 0 31 0).
  pose proof ones16. rewrite fields_land by (try apply tcode_range; lia).
  rewrite !Z.land_0_r. f_equal. by destruct t.
Qed.

Lemma has_fields m : 0 <= m < 2 ^ 7 ->
  has (fields g (tcode t) u) (fields 0 m 0) = negb (tcode t &&& m =? 0).
Proof.
  intros Hm. unfold has, truth. f_equal.
  rewrite fields_land, !Z.land_0_r by (try apply tcode_range; lia).
  pose proof (land_range 7 (tcode t) m). pose proof (tcode_range t).
  apply eq_true_iff_eq. rewrite !Z.eqb_eq. rewrite fields_zero by lia. lia.
Qed.

Lemma has_send : has (fields g (tcode t) u) MACH_PORT_TYPE_SEND =
  match t with RSend | RSendReceive => true | _ => false end.
Proof. etransitivity; [exact (has_fields 1 ltac:(lia))|by destruct t]. Qed.
Lemma has_receive : has (fields g (tcode t) u) MACH_PORT_TYPE_RECEIVE =
  match t with RReceive | RSendReceive => true | _ => false end.
Proof. etransitivity; [exact (has_fields 2 ltac:(lia))|by destruct t]. Qed.
Lemma has_send_once : has (fields g (tcode t) u) MACH_PORT_TYPE_SEND_ONCE =
  match t with RSendOnce => true | _ => false end.
Proof. etransitivity; [exact (has_fields 4 ltac:(lia))|by destruct t]. Qed.
Lemma has_port_set : has (fields g (tcode t) u) MACH_PORT_TYPE_PORT_SET =
  match t with RPortSet => true | _ => false end.
Proof. etransitivity; [exact (has_fields 8 ltac:(lia))|by destruct t]. Qed.
Lemma has_dead_name : has (fields g (tcode t) u) MACH_PORT_TYPE_DEAD_NAME =
  match t with RDeadName => true | _ => false end.
Proof. etransitivity; [exact (has_fields 16 ltac:(lia))|by destruct t]. Qed.
Lemma has_send_rights : has (fields g (tcode t) u) MACH_PORT_TYPE_SEND_RIGHTS =
  match t with RSend | RSendReceive | RSendOnce => true | _ => false end.
Proof. etransitivity; [exact (has_fields 5 ltac:(lia))|by destruct t]. Qed.
Lemma has_port_rights : has (fields g (tcode t) u) MACH_PORT_TYPE_PORT_RIGHTS =
  match t with RSend | RReceive | RSendReceive | RSendOnce => true | _ => false end.
Proof. etransitivity; [exact (has_fields 7 ltac:(lia))|by destruct t]. Qed.
Lemma has_port_or_dead : has (fields g (tcode t) u) MACH_PORT_TYPE_PORT_OR_DEAD =
  match t with RNone | RPortSet => false | _ => true end.
Proof. etransitivity; [exact (has_fields 23 ltac:(lia))|by destruct t]. Qed.

(** The new types the routines store. *)
Lemma to_dead_name : Z.ldiff (fields g (tcode t) u) IE_BITS_TYPE_MASK ||| MACH_PORT_TYPE_DEAD_NAME
  = fields g (tcode RDeadName) u.
Proof.
  change IE_BITS_TYPE_MASK with (fields 0 31 0). change MACH_PORT_TYPE_DEAD_NAME with (fields 0 16 0).
  rewrite fields_ldiff by (try apply tcode_range; lia). rewrite !Z.ldiff_0_r.
  replace (Z.ldiff (tcode t) 31) with 0 by (by destruct t).
  rewrite fields_lor by lia. by rewrite !Z.lor_0_r.
Qed.
Lemma to_untyped : Z.ldiff (fields g (tcode t) u) IE_BITS_TYPE_MASK = fields g (tcode RNone) u.
Proof.
  change IE_BITS_TYPE_MASK with (fields 0 31 0).
  rewrite fields_ldiff by (try apply tcode_range; lia). rewrite !Z.ldiff_0_r.
  f_equal. by destruct t.
Qed.
Lemma drop_bits m : 0 <= m < 2 ^ 7 -> Z.ldiff (fields g (tcode t) u) (fields 0 m 0)
  = fields g (Z.ldiff (tcode t) m) u.
Proof. intros. rewrite fields_ldiff by (try apply tcode_range; lia). by rewrite !Z.ldiff_0_r. Qed.
Lemma drop_bits_urefs m : 0 <= m < 2 ^ 7 ->
  Z.ldiff (fields g (tcode t) u) (fields 0 m (Z.ones 16)) = fields g (Z.ldiff (tcode t) m) 0.
Proof.
  intros. pose proof ones16. rewrite fields_ldiff by (try apply tcode_range; lia). rewrite Z.ldiff_0_r.
  f_equal. rewrite Z.ldiff_ones_r_low; [done|lia|].
  destruct (decide (u = 0)) as [->|]; [done|]. apply Z.log2_lt_pow2; lia.
Qed.
Lemma add_bits m : 0 <= m < 2 ^ 7 ->
  fields g (tcode t) u ||| fields 0 m 0 = fields g (tcode t ||| m) u.
Proof. intros. rewrite fields_lor by (try apply tcode_range; lia). by rewrite !Z.lor_0_r. Qed.
End tests.

(** * The invariant of a space *)

Definition entry_is (e : entry) (g : Z) (t : rtype) (u : Z) : Prop :=
  ie_bits e = fields g (tcode t) u /\ 0 <= g /\ 0 <= u < 2 ^ 16.

(** An entry has a request registered in slot [r] of the port, or none. *)
Definition request_ok (P : ipc_port) (n r : Z) : Prop :=
  r = 0 \/ ∃ so, requests (ip_dnrequests P) r = Some (n, so) /\ so <> IP_NULL.

(** The rights and references to a port that are not in the entries of the space: in
    messages, in other spaces, held by the kernel. *)
Record ghost := Ghost { g_sends : Z; g_sonces : Z; g_refs : Z }.

Definition holds (mask p : Z) (e : entry) : Z :=
  if has (ie_bits e) mask && (ie_object e =? p) then 1 else 0.

(** Send rights, send-once rights and references the entries have of port [p]. *)
Definition sends (m : gmap Z entry) (p : Z) : Z := map_sum (holds MACH_PORT_TYPE_SEND p) m.
Definition sonces (m : gmap Z entry) (p : Z) : Z := map_sum (holds MACH_PORT_TYPE_SEND_ONCE p) m.
Definition refs (m : gmap Z entry) (p : Z) : Z := map_sum (holds MACH_PORT_TYPE_PORT_RIGHTS p) m.

Section invariant.
Context {St : Type} `{!EntryStore St} (space : Z) (sizes : list Z).

(** What an entry of type [t] with object [p], request [r] and [u] user references means. *)
Definition right_ok (k : kstate) (n p r : Z) (t : rtype) (u : Z) : Prop :=
  match t with
  | RNone => u = 0 /\ r = 0
  | RDeadName => 0 < u /\ p = IO_NULL /\ r = 0
  | RPortSet => u = 0 /\ r = 0 /\ ∃ S, ks_psets k !! p = Some S /\ ips_active S = true /\
                  0 < ips_references S <= IO_MAX_REFERENCES /\ ips_local_name S = n
  | RSend => 0 < u < MACH_PORT_UREFS_MAX /\ ∃ P, ks_ports k !! p = Some P /\
               (ip_active P = true -> ip_receiver P <> space /\ request_ok P n r)
  | RReceive => u = 0 /\ ∃ P, ks_ports k !! p = Some P /\ ip_active P = true /\
                  ip_receiver P = space /\ ip_receiver_name P = n /\ request_ok P n r
  | RSendReceive => 0 < u < MACH_PORT_UREFS_MAX /\ ∃ P, ks_ports k !! p = Some P /\
                  ip_active P = true /\ ip_receiver P = space /\ ip_receiver_name P = n /\
                  request_ok P n r
  | RSendOnce => u = 1 /\ ∃ P, ks_ports k !! p = Some P /\ (ip_active P = true -> request_ok P n r)
  end.

(** The name is not null and the bits are a 32-bit word. *)
Definition name_ok (n : Z) (e : entry) : Prop := n <> MACH_PORT_NULL /\ ie_upper e < 2 ^ 9.

Definition entry_ok (k : kstate) (n : Z) (e : entry) : Prop :=
  name_ok n e /\
  ∃ g t u, entry_is e g t u /\ right_ok k n (ie_object e) (ie_request e) t u.

(** The port [p]: its counts cover the rights in the entries and outside. *)
Record counts_ok (out : ghost) (m : gmap Z entry) (p : Z) (P : ipc_port) : Prop := {
  ct_port : port_ok sizes P;
  ct_premsg : truth (io_bits P &&& IP_BIT_PREALLOC) = true -> ip_premsg P <> 0;
  ct_range : in_range 32 (ip_srights P) /\ in_range 32 (ip_sorights P);
  ct_refs : io_references P = g_refs out + refs m p;
  ct_sends : ip_active P = true -> g_sends out + sends m p <= ip_srights P;
  ct_sonces : ip_active P = true -> g_sonces out + sonces m p <= ip_sorights P;
  ct_receiver : ip_active P = true -> ip_receiver P = space ->
    ∃ e, m !! ip_receiver_name P = Some e /\ ie_object e = p /\
         has (ie_bits e) MACH_PORT_TYPE_RECEIVE = true;
  ct_out : ip_active P = true ->
    g_sends out + g_sonces out + (if ip_receiver P =? space then 0 else 1) <= g_refs out }.

Definition pure_send (p : Z) (e : entry) : Prop :=
  ie_object e = p /\ IE_BITS_TYPE (ie_bits e) = MACH_PORT_TYPE_SEND.

Record inv (out : Z -> ghost) (k : kstate) (t : St) : Prop := {
  i_store : es_ok t;
  i_entries : ∀ n e, es_entries t !! n = Some e -> entry_ok k n e;
  i_ports : ∀ p P, ks_ports k !! p = Some P -> counts_ok (out p) (es_entries t) p P;
  i_hash : ∀ p n, es_hash t !! p = Some n <-> ∃ e, es_entries t !! n = Some e /\ pure_send p e;
  i_null : ks_ports k !! IP_NULL = None /\ ks_psets k !! 0 = None;
  i_ghost : ∀ p, 0 <= g_sends (out p) /\ 0 <= g_sonces (out p) /\
              g_sends (out p) + g_sonces (out p) <= g_refs (out p);
  i_gone : ∀ p, ks_ports k !! p = None -> g_refs (out p) = 0 }.
End invariant.

(** ** Weights *)

Lemma holds_nonneg mask p e : 0 <= holds mask p e.
Proof. unfold holds. destruct (_ && _); lia. Qed.

Lemma holds_le p e g t u : entry_is e g t u ->
  holds MACH_PORT_TYPE_SEND p e <= holds MACH_PORT_TYPE_PORT_RIGHTS p e /\
  holds MACH_PORT_TYPE_SEND_ONCE p e <= holds MACH_PORT_TYPE_PORT_RIGHTS p e.
Proof.
  intros (E & Hg & Hu). unfold holds. rewrite E, has_send, has_send_once, has_port_rights by done.
  destruct (ie_object e =? p), t; cbn; lia.
Qed.

(** The entry has nothing to do with the other ports. *)
Definition about (p : Z) (e : entry) : Prop :=
  ie_object e = p \/ has (ie_bits e) MACH_PORT_TYPE_PORT_RIGHTS = false.

Lemma about_holds p q e g t u : entry_is e g t u -> about p e -> q <> p ->
  holds MACH_PORT_TYPE_SEND q e = 0 /\ holds MACH_PORT_TYPE_SEND_ONCE q e = 0 /\
  holds MACH_PORT_TYPE_PORT_RIGHTS q e = 0.
Proof.
  intros (E & Hg & Hu) Hab Hq. unfold about, holds in *.
  rewrite E, has_port_rights in Hab by done.
  rewrite E, has_send, has_send_once, has_port_rights by done. destruct Hab as [->|Hab].
  - by rewrite (proj2 (Z.eqb_neq p q)), !andb_false_r by congruence.
  - by destruct t, (ie_object e =? q).
Qed.

Lemma holds_is mask p e g t u b : entry_is e g t u ->
  has (fields g (tcode t) u) mask = b -> ie_object e = p -> holds mask p e = if b then 1 else 0.
Proof. intros (E & _) Hb <-. unfold holds. rewrite E, Hb, Z.eqb_refl. by destruct b. Qed.

Lemma pure_send_is p e g t u : entry_is e g t u -> pure_send p e <-> ie_object e = p /\ t = RSend.
Proof.
  intros (E & Hg & Hu). unfold pure_send. rewrite E, type_fields by done.
  change MACH_PORT_TYPE_SEND with (fields 0 1 0). unfold fields.
  split; intros [-> Ht]; (split; [done|]); [destruct t; cbn [tcode] in Ht; (done || lia)|by subst].
Qed.

(** ** One entry and one port change *)

Definition upd {A} (i : Z) (o : option A) (m : gmap Z A) : gmap Z A :=
  match o with Some x => <[i := x]> m | None => delete i m end.

Lemma upd_eq {A} i (o : option A) m : upd i o m !! i = o.
Proof. destruct o; [apply lookup_insert_eq|apply lookup_delete_eq]. Qed.

Lemma upd_ne {A} i j (o : option A) m : j <> i -> upd i o m !! j = m !! j.
Proof. intros. destruct o; [by apply lookup_insert_ne|by apply lookup_delete_ne]. Qed.

Lemma map_sum_upd_opt {A} (f : A -> Z) i (o : option A) m :
  map_sum f (upd i o m) = match o with Some x => f x | None => 0 end + map_sum f (delete i m).
Proof. destruct o; [apply map_sum_upd|done]. Qed.

Section touch.
Context {St : Type} `{!EntryStore St} (space : Z) (sizes : list Z).

Lemma right_ok_frame k k' n o r t u : right_ok space k n o r t u ->
  (match t with RSend | RReceive | RSendReceive | RSendOnce => ks_ports k' !! o = ks_ports k !! o
   | _ => True end) -> ks_psets k' = ks_psets k -> right_ok space k' n o r t u.
Proof. intros H Hp Hs. unfold right_ok in *. rewrite Hs. by destruct t; rewrite ?Hp. Qed.

Lemma entry_ok_is k n e : entry_ok space k n e -> ∃ g t u, entry_is e g t u.
Proof. intros (_ & g & t & u & H & _). eauto. Qed.

(** The counts of a port that neither entry is about do not change. *)
Lemma counts_other k t n p q e0 oe P g :
  (∀ n e, es_entries t !! n = Some e -> entry_ok space k n e) ->
  es_entries t !! n = Some e0 -> about p e0 ->
  (∀ e', oe = Some e' -> about p e' /\ ∃ g t u, entry_is e' g t u) -> q <> p ->
  counts_ok space sizes g (es_entries t) q P ->
  counts_ok space sizes g (upd n oe (es_entries t)) q P.
Proof.
  intros Hent E0 Ha0 Hae Hq [H1 H2 H3 H4 H5 H6 H7 H8].
  destruct (entry_ok_is _ _ _ (Hent n e0 E0)) as (g0 & t0 & u0 & Hi0).
  destruct (about_holds p q e0 _ _ _ Hi0 Ha0 Hq) as (Z1 & Z2 & Z3).
  assert (Hsum : ∀ f, f e0 = 0 -> (∀ e', oe = Some e' -> f e' = 0) ->
    map_sum f (upd n oe (es_entries t)) = map_sum f (es_entries t)).
  { intros f Hf0 Hf. rewrite map_sum_upd_opt, (map_sum_delete f n e0 _ E0), Hf0.
    destruct oe as [e'|]; [by rewrite (Hf e' eq_refl)|done]. }
  assert (Hnew : ∀ e', oe = Some e' -> holds MACH_PORT_TYPE_SEND q e' = 0 /\
    holds MACH_PORT_TYPE_SEND_ONCE q e' = 0 /\ holds MACH_PORT_TYPE_PORT_RIGHTS q e' = 0).
  { intros e' ->. destruct (Hae e' eq_refl) as (Ha & g' & t' & u' & Hi).
    by apply (about_holds p q e' _ _ _ Hi). }
  assert (Es : sends (upd n oe (es_entries t)) q = sends (es_entries t) q)
    by (apply Hsum; [done|]; intros e' He; by destruct (Hnew e' He)).
  assert (Eo : sonces (upd n oe (es_entries t)) q = sonces (es_entries t) q)
    by (apply Hsum; [done|]; intros e' He; by destruct (Hnew e' He) as (_ & ? & _)).
  assert (Er : refs (upd n oe (es_entries t)) q = refs (es_entries t) q)
    by (apply Hsum; [done|]; intros e' He; by destruct (Hnew e' He) as (_ & _ & ?)).
  split; rewrite ?Es, ?Eo, ?Er; try done.
  intros Hact Hr. destruct (H7 Hact Hr) as (e & Ee & Eobj & Hhas). exists e.
  rewrite upd_ne; [done|]. intros Hn. rewrite Hn, E0 in Ee. injection Ee as ->.
  destruct Ha0 as [Hobj|Hno]; [congruence|]. destruct Hi0 as (Eb & Hg & Hu).
  rewrite Eb, has_port_rights in Hno by done. rewrite Eb, has_receive in Hhas by done.
  by destruct t0.
Qed.

Lemma inv_touch out out' k t k' t' n p e0 oe oP :
  inv space sizes out k t -> es_entries t !! n = Some e0 -> about p e0 -> p <> IP_NULL ->
  es_ok t' -> es_entries t' = upd n oe (es_entries t) ->
  ks_ports k' = upd p oP (ks_ports k) -> ks_psets k' = ks_psets k ->
  (∀ q, q <> p -> out' q = out q) ->
  0 <= g_sends (out' p) /\ 0 <= g_sonces (out' p) /\
    g_sends (out' p) + g_sonces (out' p) <= g_refs (out' p) ->
  (oP = None -> g_refs (out' p) = 0) ->
  (∀ e', oe = Some e' -> about p e' /\ entry_ok space k' n e') ->
  (∀ P', oP = Some P' -> counts_ok space sizes (out' p) (upd n oe (es_entries t)) p P') ->
  (∀ m e, m <> n -> es_entries t !! m = Some e -> ie_object e = p ->
     has (ie_bits e) MACH_PORT_TYPE_PORT_RIGHTS = true -> entry_ok space k' m e) ->
  (∀ q m, es_hash t' !! q = Some m <->
     (m <> n /\ es_hash t !! q = Some m) \/ (m = n /\ ∃ e', oe = Some e' /\ pure_send q e')) ->
  inv space sizes out' k' t'.
Proof.
  intros [I1 I2 I3 I4 [I5 I5'] I6 I7] E0 Ha0 Hp0 Hok' Een Epo Eps Hout Hg Hgone Hnew Hport Hoth Hhash.
  split; [done|..].
  - intros m e. rewrite Een. destruct (decide (m = n)) as [->|Hm].
    { rewrite upd_eq. intros He. by apply Hnew. }
    rewrite upd_ne by done. intros He. pose proof (I2 m e He) as Hoke.
    destruct (decide (ie_object e = p)) as [Ho|Ho];
      [destruct (has (ie_bits e) MACH_PORT_TYPE_PORT_RIGHTS) eqn:Hh; [by apply Hoth|]|].
    + destruct Hoke as (Hm0 & g & ty & u & (Eb & ? & ?) & Hr). split; [done|].
      exists g, ty, u. split; [done|]. apply (right_ok_frame k); [done| |done].
      rewrite Eb, has_port_rights in Hh by done. by destruct ty.
    + destruct Hoke as (Hm0 & g & ty & u & Hi & Hr). split; [done|]. exists g, ty, u.
      split; [done|]. apply (right_ok_frame k); [done| |done].
      rewrite Epo, upd_ne by done. by destruct ty.
  - intros q P. rewrite Epo, Een. destruct (decide (q = p)) as [->|Hq].
    { rewrite upd_eq. apply Hport. }
    rewrite upd_ne, Hout by done. intros HP. eapply counts_other; try done.
    + intros e' He. destruct (Hnew e' He) as [? ?%entry_ok_is]. done.
    + by apply I3.
  - intros q m. rewrite Hhash, Een. split.
    + intros [[Hm Hh]|[-> (e' & -> & Hs)]].
      * apply I4 in Hh as (e & He & Hs). exists e. by rewrite upd_ne.
      * exists e'. by rewrite upd_eq.
    + intros (e & He & Hs). destruct (decide (m = n)) as [->|Hm].
      * rewrite upd_eq in He. right. eauto.
      * rewrite upd_ne in He by done. left. split; [done|]. apply I4. eauto.
  - rewrite Epo, Eps, upd_ne by done. done.
  - intros q. destruct (decide (q = p)) as [->|Hq]; [done|]. rewrite Hout by done. apply I6.
  - intros q. rewrite Epo. destruct (decide (q = p)) as [->|Hq].
    + rewrite upd_eq. apply Hgone.
    + rewrite upd_ne, Hout by done. apply I7.
Qed.
End touch.

(** ** Running the routines *)

Section running.
Context {St : Type} `{!EntryStore St}.
Implicit Types (k : kstate) (t : St) (b : bool).

Lemma runs_onK {A} (m : K A) (Q : A -> rstate St -> Prop) k t b :
  runs m (λ a k', Q a (RState k' t b)) k -> runs (onK m) Q (RState k t b).
Proof. unfold runs, onK. cbn. by destruct (m k) as [[a k']|]. Qed.

Lemma runs_onS {A} (m : kern St A) (Q : A -> rstate St -> Prop) k t b :
  runs m (λ a t', Q a (RState k t' b)) t -> runs (onS m) Q (RState k t b).
Proof. unfold runs, onS. cbn. by destruct (m t) as [[a t']|]. Qed.

Lemma get_entry_runs n e Q k t b : es_ok t -> es_entries t !! n = Some e ->
  Q e (RState k t b) -> runs (get_entry n) Q (RState k t b).
Proof. intros Hok E HQ. apply runs_onS. by eapply entry_read_law. Qed.

Lemma set_entry_runs n f e Q k t b : es_ok t -> es_entries t !! n = Some e ->
  ie_upper (f e) = ie_upper e -> (∀ p, es_hash t !! p = Some n -> ie_object (f e) = p) ->
  (∀ t', es_ok t' -> es_entries t' = <[n := f e]> (es_entries t) -> es_hash t' = es_hash t ->
     Q tt (RState k t' b)) ->
  runs (set_entry n f) Q (RState k t b).
Proof.
  intros Hok E Hup Hh HQ. apply runs_bind. eapply get_entry_runs; [done..|].
  apply runs_onS. by eapply entry_write_law.
Qed.

Lemma put_entry_runs n e' e Q k t b : es_ok t -> es_entries t !! n = Some e ->
  ie_upper e' = ie_upper e -> (∀ p, es_hash t !! p = Some n -> ie_object e' = p) ->
  (∀ t', es_ok t' -> es_entries t' = <[n := e']> (es_entries t) -> es_hash t' = es_hash t ->
     Q tt (RState k t' b)) ->
  runs (put_entry n e') Q (RState k t b).
Proof. intros Hok E Hup Hh HQ. apply runs_onS. by eapply entry_write_law. Qed.

Lemma get_port_runs p P Q k t b : ks_ports k !! p = Some P ->
  Q P (RState k t b) -> runs (get_port p) Q (RState k t b).
Proof. intros E HQ. apply runs_onK. by eapply runs_port_get. Qed.

Lemma set_port_runs p f P Q k t b : ks_ports k !! p = Some P ->
  Q tt (RState (set_ks_ports (<[p := f P]> (ks_ports k)) k) t b) ->
  runs (set_port p f) Q (RState k t b).
Proof. intros E HQ. apply runs_onK. apply runs_bind. by eapply runs_port_get. Qed.

Lemma dealloc_runs n e Q k t b : es_ok t -> es_entries t !! n = Some e ->
  ie_object e = IO_NULL -> ie_request e = 0 -> (∀ p, es_hash t !! p <> Some n) ->
  (∀ t', es_ok t' -> es_entries t' = delete n (es_entries t) -> es_hash t' = es_hash t ->
     Q tt (RState k t' b)) ->
  runs (onS (ipc_entry_dealloc n)) Q (RState k t b).
Proof. intros Hok E Ho Hr Hh HQ. apply runs_onS. by eapply ipc_entry_dealloc_law. Qed.

Lemma hash_delete_runs p n Q k t b : es_ok t -> es_hash t !! p = Some n ->
  (∀ t', es_ok t' -> es_entries t' = es_entries t -> es_hash t' = delete p (es_hash t) ->
     Q tt (RState k t' b)) ->
  runs (onS (ipc_hash_delete p n)) Q (RState k t b).
Proof. intros Hok E HQ. apply runs_onS. by eapply ipc_hash_delete_law. Qed.

Lemma hash_insert_runs p n e Q k t b : es_ok t -> p <> IO_NULL -> es_entries t !! n = Some e ->
  ie_object e = p -> es_hash t !! p = None ->
  (∀ t', es_ok t' -> es_entries t' = es_entries t -> es_hash t' = <[p := n]> (es_hash t) ->
     Q tt (RState k t' b)) ->
  runs (onS (ipc_hash_insert p n)) Q (RState k t b).
Proof. intros Hok Hp E Ho Hn HQ. apply runs_onS. by eapply ipc_hash_insert_law. Qed.

Lemma active_runs Q k t b : Q b (RState k t b) -> runs (gets rs_active) Q (RState k t b).
Proof. done. Qed.
End running.

Lemma upper_is e g t u : entry_is e g t u -> ie_upper e = g.
Proof. intros (E & Hg & Hu). unfold ie_upper. rewrite E. apply fields_upper; [apply tcode_range|done]. Qed.

Lemma upper_fields o r g t u : 0 <= g -> 0 <= u < 2 ^ 16 ->
  ie_upper (Entry o (fields g (tcode t) u) r) = g.
Proof. intros. apply (upper_is _ g t u). done. Qed.

(** One step of a routine on rights. *)
Ltac elookup := first
  [ eassumption
  | match goal with H : es_entries ?t = _ |- es_entries ?t !! _ = _ =>
      rewrite H, ?lookup_insert_eq; first [eassumption | reflexivity] end ].
Ltac rstep :=
  lazymatch goal with
  | |- runs (mret _) _ _ => apply runs_ret
  | |- runs (mbind _ _) _ _ => apply runs_bind
  | |- runs (gets rs_active) _ _ => apply active_runs
  | |- runs (get_entry _) _ _ => eapply get_entry_runs; [assumption|elookup|]
  | |- runs (get_port _) _ _ => eapply get_port_runs; [klookup|]
  | |- runs (set_port _ _) _ _ => eapply set_port_runs; [klookup|]
  | |- runs (assert_ _) _ _ => apply runs_assert; [kbool|]
  end; kcbn; cbn [ie_object ie_bits ie_request set_ie_object set_ie_bits set_ie_request]; cbv beta.
Ltac rrun := repeat rstep.

(** Evaluates the tests on the bits of an entry. *)
Ltac bits_eval := rewrite ?has_send, ?has_receive, ?has_send_once, ?has_port_set, ?has_dead_name,
  ?has_send_rights, ?has_port_rights, ?has_port_or_dead, ?urefs_fields, ?type_fields by lia;
  cbn [negb andb orb].

End IpcRight.
