(* ===== verification/IpcRightSpec.v ===== *)
(** Rights: the theorems on the routines of IpcRight.  A routine works on one name and one
    port; [view] describes the state in terms of that entry, that port, the hash table's
    knowledge of the name and the calls made, relative to the state the routine started
    in, and the lemmas [v_*] run one step of a routine on it.  [view_inv] turns the final
    view into the invariant of the space. *)

From S2P Require Import Prelude.
From S2P Require Import IpcTable.
From S2P Require Import IpcPort.
From S2P Require Import IpcStore.
From S2P Require Import IpcRight.
Import IpcTable.IpcTable IpcPort.IpcPort IpcStore.IpcStore IpcRight.IpcRight.

Module IpcRightSpec.

(** * Types of rights as weights *)

Definition tw_send (t : rtype) : Z := match t with RSend | RSendReceive => 1 | _ => 0 end.
Definition tw_once (t : rtype) : Z := match t with RSendOnce => 1 | _ => 0 end.
Definition tw_refs (t : rtype) : Z :=
  match t with RSend | RReceive | RSendReceive | RSendOnce => 1 | _ => 0 end.
Definition receives (t : rtype) : bool :=
  match t with RReceive | RSendReceive => true | _ => false end.

(** The entry has type [t] and is about the port [p]. *)
Definition of_port (p : Z) (e : entry) (t : rtype) : Prop := ie_object e = p \/ tw_refs t = 0.

Lemma of_port_about p e g t u : entry_is e g t u -> of_port p e t -> about p e.
Proof.
  intros (E & Hg & Hu) [H|H]; [by left|right]. rewrite E, has_port_rights by done. by destruct t.
Qed.

Lemma of_port_holds p e g t u : entry_is e g t u -> of_port p e t ->
  holds MACH_PORT_TYPE_SEND p e = tw_send t /\ holds MACH_PORT_TYPE_SEND_ONCE p e = tw_once t /\
  holds MACH_PORT_TYPE_PORT_RIGHTS p e = tw_refs t.
Proof.
  intros (E & Hg & Hu) Ho. unfold holds. rewrite E, has_send, has_send_once, has_port_rights by done.
  destruct Ho as [->|Ho]; [rewrite Z.eqb_refl; by destruct t|by destruct t, (ie_object e =? p)].
Qed.

Lemma upd_upd {A} i (o o' : option A) m : upd i o (upd i o' m) = upd i o m.
Proof.
  apply map_eq. intros j. destruct (decide (j = i)) as [->|]; [by rewrite !upd_eq|].
  by rewrite !upd_ne.
Qed.

Lemma upd_id {A} i (o : option A) (m : gmap Z A) : m !! i = o -> upd i o m = m.
Proof. intros <-. destruct (m !! i) eqn:E; [by apply insert_id|by apply delete_id]. Qed.

Section sums.
Context (m : gmap Z entry) (n p : Z) (e0 : entry) (g0 : Z) (ty0 : rtype) (u0 : Z).
Context (E0 : m !! n = Some e0) (Hi0 : entry_is e0 g0 ty0 u0) (Ho0 : of_port p e0 ty0).

(** The sums after the change of one entry. *)
Lemma sums_upd oe ty1 :
  match oe with Some e' => (∃ g u, entry_is e' g ty1 u) /\ of_port p e' ty1 | None => ty1 = RNone end ->
  sends (upd n oe m) p = sends m p + tw_send ty1 - tw_send ty0 /\
  sonces (upd n oe m) p = sonces m p + tw_once ty1 - tw_once ty0 /\
  refs (upd n oe m) p = refs m p + tw_refs ty1 - tw_refs ty0.
Proof.
  intros He. destruct (of_port_holds p e0 _ _ _ Hi0 Ho0) as (W1 & W2 & W3).
  unfold sends, sonces, refs. rewrite !map_sum_upd_opt.
  rewrite !(map_sum_delete _ n e0 m E0), W1, W2, W3.
  destruct oe as [e'|]; [|subst ty1; cbn; lia].
  destruct He as ((g & u & Hi) & Ho).
  destruct (of_port_holds p e' _ _ _ Hi Ho) as (-> & -> & ->). lia.
Qed.

Lemma refs_own : tw_refs ty0 <= refs m p.
Proof.
  destruct (of_port_holds p e0 _ _ _ Hi0 Ho0) as (_ & _ & W3).
  unfold refs. rewrite (map_sum_delete _ n e0 m E0), W3.
  pose proof (map_sum_nonneg (holds MACH_PORT_TYPE_PORT_RIGHTS p) (delete n m)
    (holds_nonneg _ p)). lia.
Qed.

Lemma sends_own : tw_send ty0 <= sends m p.
Proof.
  destruct (of_port_holds p e0 _ _ _ Hi0 Ho0) as (W1 & _ & _).
  unfold sends. rewrite (map_sum_delete _ n e0 m E0), W1.
  pose proof (map_sum_nonneg (holds MACH_PORT_TYPE_SEND p) (delete n m) (holds_nonneg _ p)). lia.
Qed.

Lemma sonces_own : tw_once ty0 <= sonces m p.
Proof.
  destruct (of_port_holds p e0 _ _ _ Hi0 Ho0) as (_ & W2 & _).
  unfold sonces. rewrite (map_sum_delete _ n e0 m E0), W2.
  pose proof (map_sum_nonneg (holds MACH_PORT_TYPE_SEND_ONCE p) (delete n m)
    (holds_nonneg _ p)). lia.
Qed.
End sums.

(** * Views *)

Section view.
Context {St : Type} `{!EntryStore St} (k0 : kstate) (t0 : St) (n p : Z).

(** The state as it differs from [k0] and [t0]: the entry [n], the port [p], whether the
    hash table maps [p] to [n], and the calls made since. *)
Record view (oe : option entry) (oP : option ipc_port) (h : bool) (cs : list call)
    (k : kstate) (t : St) : Prop := {
  v_ok : es_ok t;
  v_entries : es_entries t = upd n oe (es_entries t0);
  v_ports : ks_ports k = upd p oP (ks_ports k0);
  v_psets : ks_psets k = ks_psets k0;
  v_inuse : ks_inuse k = ks_inuse k0;
  v_stamp : ipc_port_timestamp_data k = ipc_port_timestamp_data k0;
  v_trace : ks_trace k = ks_trace k0 ++ cs;
  v_hash : ∀ q m, es_hash t !! q = Some m <->
    (m <> n /\ es_hash t0 !! q = Some m) \/ (m = n /\ h = true /\ q = p) }.

Lemma view_entry oe oP h cs k t : view oe oP h cs k t -> es_entries t !! n = oe.
Proof. intros V. by rewrite (v_entries _ _ _ _ _ _ V), upd_eq. Qed.

Lemma view_port oe oP h cs k t : view oe oP h cs k t -> ks_ports k !! p = oP.
Proof. intros V. by rewrite (v_ports _ _ _ _ _ _ V), upd_eq. Qed.

Lemma view_store oe oP h cs k t oe' h' t' : view oe oP h cs k t ->
  es_ok t' -> es_entries t' = upd n oe' (es_entries t) ->
  (∀ q m, es_hash t' !! q = Some m <->
     (m <> n /\ es_hash t !! q = Some m) \/ (m = n /\ h' = true /\ q = p)) ->
  view oe' oP h' cs k t'.
Proof.
  intros [V1 V2 V3 V4 V7 V8 V5 V6] Hok He Hh. split; try done.
  - by rewrite He, V2, upd_upd.
  - intros q m. rewrite Hh, V6. intuition congruence.
Qed.

Lemma view_k oe oP h cs k t oP' cs' k' : view oe oP h cs k t ->
  ks_ports k' = upd p oP' (ks_ports k) -> ks_psets k' = ks_psets k -> ks_inuse k' = ks_inuse k ->
  ipc_port_timestamp_data k' = ipc_port_timestamp_data k ->
  ks_trace k' = ks_trace k ++ cs' -> view oe oP' h (cs ++ cs') k' t.
Proof.
  intros [V1 V2 V3 V4 V7 V8 V5 V6] Hp Hs Hi Hst Ht. split; try done.
  - by rewrite Hp, V3, upd_upd.
  - by rewrite Hs.
  - by rewrite Hi.
  - by rewrite Hst.
  - by rewrite Ht, V5, app_assoc.
Qed.

Lemma view_k0 oe oP h cs k t oP' k' : view oe oP h cs k t ->
  ks_ports k' = upd p oP' (ks_ports k) -> ks_psets k' = ks_psets k -> ks_inuse k' = ks_inuse k ->
  ipc_port_timestamp_data k' = ipc_port_timestamp_data k ->
  ks_trace k' = ks_trace k -> view oe oP' h cs k' t.
Proof.
  intros V Hp Hs Hi Hst Ht. rewrite <- (app_nil_r cs). apply (view_k _ _ _ _ _ _ _ _ _ V); [done..|].
  by rewrite app_nil_r.
Qed.

(** ** Steps on the entry *)

Implicit Types (Q : unit -> rstate St -> Prop) (b : bool).

Lemma v_get_entry e oP h cs k t b (Q : entry -> rstate St -> Prop) :
  view (Some e) oP h cs k t -> Q e (RState k t b) -> runs (get_entry n) Q (RState k t b).
Proof. intros V. eapply get_entry_runs; [apply V|by eapply view_entry]. Qed.

Lemma v_put_entry e e' oP h cs k t b Q :
  view (Some e) oP h cs k t -> ie_upper e' = ie_upper e -> (h = true -> ie_object e' = p) ->
  (∀ t', view (Some e') oP h cs k t' -> Q tt (RState k t' b)) ->
  runs (put_entry n e') Q (RState k t b).
Proof.
  intros V Hu Hh HQ. eapply put_entry_runs; [apply V|by eapply view_entry|done|..].
  - intros q Hq. apply V in Hq as [[? _]|(_ & Ht & ->)]; [done|auto].
  - intros t' Hok He Hh'. apply HQ. eapply view_store; [exact V|done|exact He|].
    intros q m. rewrite Hh', (v_hash _ _ _ _ _ _ V). intuition congruence.
Qed.

Lemma v_set_entry f e oP h cs k t b Q :
  view (Some e) oP h cs k t -> ie_upper (f e) = ie_upper e -> (h = true -> ie_object (f e) = p) ->
  (∀ t', view (Some (f e)) oP h cs k t' -> Q tt (RState k t' b)) ->
  runs (set_entry n f) Q (RState k t b).
Proof.
  intros V Hu Hh HQ. apply runs_bind. eapply v_get_entry; [exact V|]. by eapply v_put_entry.
Qed.

Lemma v_dealloc e oP cs k t b Q :
  view (Some e) oP false cs k t -> ie_object e = IO_NULL -> ie_request e = 0 ->
  (∀ t', view None oP false cs k t' -> Q tt (RState k t' b)) ->
  runs (onS (ipc_entry_dealloc n)) Q (RState k t b).
Proof.
  intros V Ho Hr HQ. eapply dealloc_runs; [apply V|by eapply view_entry|done..| |].
  - intros q Hq. apply V in Hq as [[? _]|(_ & Ht & _)]; done.
  - intros t' Hok He Hh'. apply HQ. eapply view_store; [exact V|done|exact He|].
    intros q m. rewrite Hh', (v_hash _ _ _ _ _ _ V). intuition congruence.
Qed.

Lemma v_hash_delete oe oP cs k t b Q :
  view oe oP true cs k t ->
  (∀ t', view oe oP false cs k t' -> Q tt (RState k t' b)) ->
  runs (onS (ipc_hash_delete p n)) Q (RState k t b).
Proof.
  intros V HQ. assert (Hp : es_hash t !! p = Some n) by (apply V; auto).
  eapply hash_delete_runs; [apply V|done|]. intros t' Hok He Hh'. apply HQ.
  eapply view_store; [exact V|done| |].
  - rewrite He. symmetry. apply upd_id. by eapply view_entry.
  - intros q m. rewrite Hh', lookup_delete_Some. split.
    + intros [Hq Hm]. left. split; [|done]. intros ->.
      apply V in Hm as [[? _]|(_ & _ & ?)]; congruence.
    + intros [[Hm Hq]|(_ & ? & _)]; [|done]. split; [|done]. intros <-. congruence.
Qed.

Lemma v_hash_insert e oP cs k t b Q :
  view (Some e) oP false cs k t -> p <> IO_NULL -> ie_object e = p ->
  (∀ m, m <> n -> es_hash t0 !! p <> Some m) ->
  (∀ t', view (Some e) oP true cs k t' -> Q tt (RState k t' b)) ->
  runs (onS (ipc_hash_insert p n)) Q (RState k t b).
Proof.
  intros V Hp Ho Hno HQ. assert (Hn : es_hash t !! p = None).
  { destruct (es_hash t !! p) as [m|] eqn:E; [|done].
    apply V in E as [[Hm E]|(_ & ? & _)]; [|done]. by destruct (Hno m Hm). }
  eapply hash_insert_runs; [apply V|done|by eapply view_entry|done..|].
  intros t' Hok He Hh'. apply HQ. eapply view_store; [exact V|done| |].
  - rewrite He. symmetry. apply upd_id. by eapply view_entry.
  - intros q m. rewrite Hh', lookup_insert_Some. split.
    + intros [[-> ->]|[Hq Hm]]; [by right|]. left. split; [|done]. intros ->.
      apply V in Hm as [[? _]|(_ & ? & _)]; congruence.
    + intros [[Hm Hq]|(-> & _ & ->)]; [|by left]. right. split; [|done]. intros <-.
      congruence.
Qed.
(** ** Steps on the port *)

Lemma v_get_port oe P h cs k t b (Q : ipc_port -> rstate St -> Prop) :
  view oe (Some P) h cs k t -> Q P (RState k t b) -> runs (get_port p) Q (RState k t b).
Proof. intros V. eapply get_port_runs. by eapply view_port. Qed.

Lemma v_put_port oe oP P' h cs k t : view oe oP h cs k t ->
  view oe (Some P') h cs (set_ks_ports (<[p := P']> (ks_ports k)) k) t.
Proof. intros V. by apply (view_k0 _ _ _ _ _ _ _ _ V). Qed.

Lemma v_set_port f oe P h cs k t b Q :
  view oe (Some P) h cs k t ->
  (∀ k', view oe (Some (f P)) h cs k' t -> Q tt (RState k' t b)) ->
  runs (set_port p f) Q (RState k t b).
Proof.
  intros V HQ. eapply set_port_runs; [by eapply view_port|]. apply HQ. by eapply v_put_port.
Qed.

Lemma v_reference oe P h cs k t b Q :
  view oe (Some P) h cs k t -> io_references P < IO_MAX_REFERENCES ->
  (∀ k', view oe (Some (set_io_references (io_references P + 1) P)) h cs k' t ->
     Q tt (RState k' t b)) ->
  runs (onK (ip_reference p)) Q (RState k t b).
Proof.
  intros V Hr HQ. apply runs_onK. pose proof (view_port _ _ _ _ _ _ V). unfold ip_reference. krun.
  apply HQ. by eapply v_put_port.
Qed.

Lemma v_release oe P h cs k t b Q :
  view oe (Some P) h cs k t -> 0 < io_references P <= IO_MAX_REFERENCES ->
  (∀ k', view oe (Some (set_io_references (io_references P - 1) P)) h cs k' t ->
     Q tt (RState k' t b)) ->
  runs (onK (ip_release p)) Q (RState k t b).
Proof.
  intros V Hr HQ. apply runs_onK. eapply ip_release_runs; [by eapply view_port|done|].
  apply HQ. by eapply v_put_port.
Qed.

(** What is left of a port when a reference goes. *)
Definition dropped (P : ipc_port) : option ipc_port :=
  if io_references P =? 1 then None else Some (set_io_references (io_references P - 1) P).

Lemma v_port_release oe P h cs k t b Q :
  view oe (Some P) h cs k t -> 0 < io_references P <= IO_MAX_REFERENCES ->
  (∀ k', view oe (dropped P) h cs k' t -> Q tt (RState k' t b)) ->
  runs (onK (ipc_port_release p)) Q (RState k t b).
Proof.
  intros V Hr HQ. apply runs_onK. eapply release_runs; [by eapply view_port|done|].
  apply HQ. eapply view_k0; [exact V| |done..]. kcbn. unfold drop_ref, dropped.
  by destruct (_ =? 1).
Qed.

Lemma v_release_unlock oe P h cs k t b Q :
  view oe (Some P) h cs k t -> 0 < io_references P <= IO_MAX_REFERENCES ->
  (∀ k', view oe (dropped P) h cs k' t -> Q tt (RState k' t b)) ->
  runs (onK (ip_release p);; onK (ip_check_unlock p)) Q (RState k t b).
Proof.
  intros V Hr HQ. apply runs_bind. eapply v_release; [exact V|done|]. intros k' V'.
  apply runs_onK. unfold dropped in HQ.
  eapply ip_check_unlock_runs; [by eapply view_port|..]; kcbn; intros E; apply HQ.
  - by rewrite (proj2 (Z.eqb_neq (io_references P) 1)) by lia.
  - rewrite (proj2 (Z.eqb_eq (io_references P) 1)) by lia.
    by eapply (view_k0 _ _ _ _ _ _ None).
Qed.

Lemma v_call c oe oP h cs k t b Q :
  view oe oP h cs k t -> (∀ k', view oe oP h (cs ++ [c]) k' t -> Q tt (RState k' t b)) ->
  runs (onK (call_ c)) Q (RState k t b).
Proof.
  intros V HQ. apply runs_onK, call_runs, HQ. eapply view_k; [exact V| |done..].
  kcbn. symmetry. apply upd_id. by eapply view_port.
Qed.

(** The notifications that end a routine. *)
Definition no_senders_calls (nsrequest mscount : Z) : list call :=
  if nsrequest =? IP_NULL then [] else [mach_notify_no_senders nsrequest mscount].
Definition port_deleted_calls (dnrequest : Z) : list call :=
  if dnrequest =? IP_NULL then [] else [mach_notify_port_deleted dnrequest n].

Lemma v_no_senders ns ms oe oP h cs k t b Q :
  view oe oP h cs k t ->
  (∀ k', view oe oP h (cs ++ no_senders_calls ns ms) k' t -> Q tt (RState k' t b)) ->
  runs (notify_no_senders ns ms) Q (RState k t b).
Proof.
  intros V HQ. unfold notify_no_senders, no_senders_calls in *. destruct (ns =? IP_NULL); cbn [negb].
  - apply runs_ret, HQ. by rewrite app_nil_r.
  - by eapply v_call.
Qed.

Lemma v_port_deleted dn oe oP h cs k t b Q :
  view oe oP h cs k t ->
  (∀ k', view oe oP h (cs ++ port_deleted_calls dn) k' t -> Q tt (RState k' t b)) ->
  runs (notify_port_deleted dn n) Q (RState k t b).
Proof.
  intros V HQ. unfold notify_port_deleted, port_deleted_calls in *.
  destruct (dn =? IP_NULL); cbn [negb].
  - apply runs_ret, HQ. by rewrite app_nil_r.
  - by eapply v_call.
Qed.

(** The change of the table of requests by routines on the name [n]. *)
Record table_step (sizes : list Z) (P P' : ipc_port) : Prop := {
  ts_rest : P' = set_ip_dnrequests (ip_dnrequests P') P;
  ts_ok : port_ok sizes P';
  ts_keeps : ∀ m r, m <> n -> request_ok P m r -> request_ok P' m r }.

(** The send-once right of the request in slot [r]. *)
Definition request_of (P : ipc_port) (r : Z) : Z :=
  if r =? 0 then IP_NULL
  else match requests (ip_dnrequests P) r with Some (_, so) => so | None => IP_NULL end.

(** The port after the request in slot [r], if any, was cancelled. *)
Definition request_dropped (r : Z) (P : ipc_port) : ipc_port :=
  if r =? 0 then P
  else match ip_dnrequests P with
       | Some (a, t) => set_ip_dnrequests (Some (a, slot_freed r t)) P
       | None => P
       end.

Lemma v_cancel sizes e P h cs k t b (Q : Z -> rstate St -> Prop) :
  view (Some e) (Some P) h cs k t -> n <> MACH_PORT_NULL -> ie_object e = p ->
  ip_active P = true -> port_ok sizes P -> request_ok P n (ie_request e) ->
  (∀ k' t' P', P' = request_dropped (ie_request e) P ->
     view (Some (set_ie_request 0 e)) (Some P') h cs k' t' -> table_step sizes P P' ->
     Q (request_of P (ie_request e)) (RState k' t' b)) ->
  runs (ipc_right_dncancel_macro p n) Q (RState k t b).
Proof.
  intros V Hn Ho Ha Hok Hr HQ. unfold ipc_right_dncancel_macro, request_of, request_dropped in *.
  apply runs_bind. eapply v_get_entry; [exact V|].
  destruct (Z.eqb_spec (ie_request e) 0) as [E|E].
  - apply runs_ret. apply (HQ k t P); [done| |split; [by destruct P|done..]].
    replace (set_ie_request 0 e) with e by (destruct e; cbn in *; by subst). done.
  - destruct Hr as [Hr|(so & Hr & Hso)]; [done|]. rewrite Hr in HQ.
    unfold requests in Hr. destruct (ip_dnrequests P) as [[a tb]|] eqn:Et; [|done].
    destruct Hok as [Hrefs Ht]. rewrite Et in Ht. destruct Ht as (Ha0 & fl & Htok).
    unfold ipc_right_dncancel.
    apply runs_bind. eapply v_get_port; [exact V|]. apply runs_bind, runs_assert; [done|].
    apply runs_bind. eapply v_get_entry; [exact V|].
    apply runs_bind, runs_assert; [by apply Z.eqb_eq|].
    apply runs_bind, runs_onK. eapply dncancel_runs; [by eapply view_port|done..|].
    intros Htb' Hreq. apply runs_bind.
    eapply v_put_entry; [by eapply v_put_port|done|done|]. intros t' V'. apply runs_ret.
    eapply HQ; [done|exact V'|]. split; kcbn.
    + done.
    + split; kcbn; [done|]. eauto.
    + unfold request_ok. kcbn. rewrite Et. cbn [requests]. intros m r Hm [->|(so' & Hr' & Hso')]; [by left|].
      right. exists so'. rewrite Hreq. destruct (decide (r = ie_request e)) as [->|]; [congruence|done].
Qed.

(** The port after [drop_sright], and what that gives. *)
Definition srights_down (P : ipc_port) : ipc_port :=
  set_ip_nsrequest (if ip_srights P =? 1 then IP_NULL else ip_nsrequest P)
    (set_ip_srights (ip_srights P - 1) P).
Definition last_send (P : ipc_port) : Z * Z :=
  if (ip_srights P =? 1) && negb (ip_nsrequest P =? IP_NULL) then (ip_nsrequest P, ip_mscount P)
  else (IP_NULL, 0).

Lemma v_drop_sright oe P h cs k t b (Q : Z * Z -> rstate St -> Prop) :
  view oe (Some P) h cs k t -> 0 < ip_srights P < 2 ^ 32 ->
  (∀ k', view oe (Some (srights_down P)) h cs k' t -> Q (last_send P) (RState k' t b)) ->
  runs (drop_sright p) Q (RState k t b).
Proof.
  intros V Hs HQ. unfold drop_sright, srights_down, last_send in *.
  apply runs_bind. eapply v_get_port; [exact V|]. rewrite wrap_small by (unfold in_range; lia).
  apply runs_bind. eapply v_set_port; [exact V|]. intros k1 V1.
  destruct (Z.eqb_spec (ip_srights P) 1) as [E|E].
  - rewrite E in V1 |- *. change (1 - 1 =? 0) with true. cbn [andb] in HQ.
    destruct (Z.eqb_spec (ip_nsrequest P) IP_NULL) as [E'|E']; cbn [negb] in *.
    + apply runs_ret. apply HQ. rewrite <- E', E. destruct P; exact V1.
    + apply runs_bind. eapply v_set_port; [exact V1|]. intros k2 V2. apply runs_ret. apply HQ.
      rewrite E. exact V2.
  - rewrite (proj2 (Z.eqb_neq _ _)) by lia. apply runs_ret. apply HQ. by destruct P.
Qed.

Lemma v_clear_receiver oe P h cs k t b Q :
  view oe (Some P) h cs k t -> ip_active P = true ->
  (∀ k', view oe (Some (cleared P)) h (cs ++ clear_calls p P) k' t -> Q tt (RState k' t b)) ->
  runs (onK (ipc_port_clear_receiver p)) Q (RState k t b).
Proof.
  intros V Ha HQ. apply runs_onK. eapply clear_receiver_runs; [by eapply view_port|done|].
  apply HQ. by eapply view_k; [exact V|..].
Qed.

(** A port handed to its backup. *)
Definition handed (P : ipc_port) : ipc_port :=
  set_ip_data IP_NULL (set_ip_receiver_name MACH_PORT_NULL (set_ip_pdrequest IP_NULL P)).

Lemma v_destroy_backup oe P h cs k t b Q :
  view oe (Some P) h cs k t -> ip_active P = true -> ip_pset_count P = 0 -> ip_mscount P = 0 ->
  ip_pdrequest P <> IP_NULL ->
  (∀ k', view oe (Some (handed P)) h (cs ++ [mach_notify_port_destroyed (ip_pdrequest P) p]) k' t ->
     Q tt (RState k' t b)) ->
  runs (onK (ipc_port_destroy p)) Q (RState k t b).
Proof.
  intros V Ha Hps Hms Hpd HQ. apply runs_onK.
  eapply destroy_backup_runs; [by eapply view_port|done..|]. apply HQ.
  by eapply view_k; [exact V|..].
Qed.
End view.

(** ** Automation *)

Lemma upper_change e g t u v : ie_bits e = fields g (tcode t) u -> 0 <= g -> 0 <= u < 2 ^ 16 ->
  (∃ t' u', v = fields g (tcode t') u' /\ 0 <= u' < 2 ^ 16) -> Z.shiftr v 23 = ie_upper e.
Proof.
  intros E Hg Hu (t' & u' & -> & Hu'). unfold ie_upper. rewrite E.
  rewrite !fields_upper by (try apply tcode_range; done). done.
Qed.

Lemma fields_add g c u d : fields g c u + d = fields g c (u + d).
Proof. unfold fields. lia. Qed.
Lemma fields_sub g c u d : fields g c u - d = fields g c (u - d).
Proof. unfold fields. lia. Qed.

Lemma view_eq {St} `{!EntryStore St} k0 t0 n p oe oP h cs k t oe' oP' h' cs' :
  view k0 t0 n p oe oP h cs k t -> oe' = oe -> oP' = oP -> h' = h -> cs' = cs ->
  view k0 t0 n p oe' oP' h' cs' k t.
Proof. by intros V -> -> -> ->. Qed.

Ltac ecbn := kcbn; cbn [ie_object ie_bits ie_request set_ie_object set_ie_bits set_ie_request]; cbv beta.

Ltac vnext x V :=
  lazymatch type of x with
  | kstate => clear V; try clear dependent x; let y := fresh "k" in intros y V
  | _ => clear V; try clear dependent x; let y := fresh "t" in intros y V
  end.

(** The store keeps the generation of an entry. *)
Ltac vupper := eapply upper_change; [eassumption|assumption|assumption|];
  ecbn; rewrite ?fields_add, ?fields_sub; do 2 eexists; split; [reflexivity|lia].

(** Decides the tests on a known type. *)
Ltac type_eval := bits_eval; repeat match goal with
  | |- context [fields 0 (tcode ?t) 0 =? ?m] =>
      let b := eval vm_compute in (fields 0 (tcode t) 0 =? m) in
      change (fields 0 (tcode t) 0 =? m) with b
  end; cbn [negb andb orb].

(** One step of a routine, on the view of the current state. *)
Ltac vstep :=
  lazymatch goal with
  | |- runs (mret _) _ _ => apply runs_ret
  | |- runs (mbind _ _) _ _ => apply runs_bind
  | |- runs (gets rs_active) _ _ => apply active_runs
  | |- runs (assert_ _) _ _ => apply runs_assert; [ecbn; kbool|]
  | V : view _ _ _ _ _ _ _ _ ?k ?t |- runs (get_entry _) _ (RState ?k ?t _) =>
      eapply v_get_entry; [exact V|]
  | V : view _ _ _ _ _ _ _ _ ?k ?t |- runs (get_port _) _ (RState ?k ?t _) =>
      eapply v_get_port; [exact V|]
  | V : view _ _ _ _ _ _ _ _ ?k ?t |- runs (set_entry _ _) _ (RState ?k ?t _) =>
      eapply v_set_entry; [exact V|first [reflexivity|vupper|idtac]|try done|
        vnext t V]
  | V : view _ _ _ _ _ _ _ _ ?k ?t |- runs (set_port _ _) _ (RState ?k ?t _) =>
      eapply v_set_port; [exact V|vnext k V]
  | V : view _ _ _ _ _ _ _ _ ?k ?t |- runs (onS (ipc_entry_dealloc _)) _ (RState ?k ?t _) =>
      eapply v_dealloc; [exact V|try done|try done|vnext t V]
  | V : view _ _ _ _ _ _ _ _ ?k ?t |- runs (onS (ipc_hash_delete _ _)) _ (RState ?k ?t _) =>
      eapply v_hash_delete; [exact V|vnext t V]
  | V : view _ _ _ _ _ _ _ _ ?k ?t |- runs (notify_no_senders _ _) _ (RState ?k ?t _) =>
      eapply v_no_senders; [exact V|vnext k V]
  | V : view _ _ _ _ _ _ _ _ ?k ?t |- runs (notify_port_deleted _ _) _ (RState ?k ?t _) =>
      eapply v_port_deleted; [exact V|vnext k V]
  | V : view _ _ _ _ _ _ _ _ ?k ?t |- runs (onK (ip_release _)) _ (RState ?k ?t _) =>
      eapply v_release; [exact V|ecbn|vnext k V]
  | V : view _ _ _ _ _ _ _ _ ?k ?t |- runs (onK (ip_reference _)) _ (RState ?k ?t _) =>
      eapply v_reference; [exact V|ecbn|vnext k V]
  | V : view _ _ _ _ _ _ _ _ ?k ?t |- runs (onK (ipc_port_release _)) _ (RState ?k ?t _) =>
      eapply v_port_release; [exact V|ecbn|vnext k V]
  | V : view _ _ _ _ _ _ _ _ ?k ?t |- runs (onK (ipc_port_clear_receiver _)) _ (RState ?k ?t _) =>
      eapply v_clear_receiver; [exact V|try done|vnext k V]
  | V : view _ _ _ _ _ _ _ _ ?k ?t |- runs (drop_sright _) _ (RState ?k ?t _) =>
      eapply v_drop_sright; [exact V|ecbn|vnext k V]
  end; ecbn.
Ltac vrun := repeat vstep.

(** * From views to the invariant *)

Section invariants.
Context {St : Type} `{!EntryStore St} (space : Z) (sizes : list Z).
Context (out : Z -> ghost) (k0 : kstate) (t0 : St) (n p : Z) (e0 : entry) (P : ipc_port).
Context (g0 : Z) (ty0 : rtype) (u0 : Z).
Context (I : inv space sizes out k0 t0) (E0 : es_entries t0 !! n = Some e0).
Context (Hi0 : entry_is e0 g0 ty0 u0) (Ho0 : of_port p e0 ty0) (EP : ks_ports k0 !! p = Some P).

Abbreviation View := (view k0 t0 n p).

Lemma start_view : View (Some e0) (Some P) (bool_decide (ty0 = RSend)) [] k0 t0.
Proof.
  pose proof I as [I1 I2 I3 I4 I5 I6 I7]. split; try done.
  - by rewrite upd_id.
  - by rewrite upd_id.
  - by rewrite app_nil_r.
  - intros q m. rewrite bool_decide_eq_true. split.
    + intros Hh. destruct (decide (m = n)) as [->|]; [right|by left].
      apply I4 in Hh as (e & Ee & Hs). assert (e = e0) as -> by congruence.
      apply (pure_send_is q e0 _ _ _ Hi0) in Hs as [Hq Hty]. split; [done|]. split; [done|].
      destruct Ho0 as [Ho|Ho]; [congruence|]. by subst.
    + intros [[_ ?]|(-> & Hty & ->)]; [done|]. apply I4. exists e0. split; [done|].
      apply (pure_send_is p e0 _ _ _ Hi0). split; [|done].
      destruct Ho0 as [Ho|Ho]; [done|]. by rewrite Hty in Ho.
Qed.

Lemma port_nonnull : p <> IP_NULL.
Proof. intros ->. pose proof (i_null _ _ _ _ _ I) as [? _]. congruence. Qed.

Lemma entry_name : n <> MACH_PORT_NULL.
Proof. by destruct (i_entries _ _ _ _ _ I n e0 E0) as [[? _] _]. Qed.

Lemma entry_upper : g0 < 2 ^ 9.
Proof.
  destruct (i_entries _ _ _ _ _ I n e0 E0) as [[_ H] _].
  by rewrite (upper_is e0 g0 ty0 u0 Hi0) in H.
Qed.

Lemma same_name_ok e' ty u : entry_is e' g0 ty u -> name_ok n e'.
Proof.
  intros Hi. split; [apply entry_name|]. rewrite (upper_is e' g0 ty u Hi). apply entry_upper.
Qed.

Lemma entry_right : right_ok space k0 n (ie_object e0) (ie_request e0) ty0 u0.
Proof.
  destruct (i_entries _ _ _ _ _ I n e0 E0) as (_ & g & ty & u & (Eb & Hg & Hu) & Hr).
  destruct Hi0 as (Eb0 & Hg0 & Hu0). rewrite Eb0 in Eb.
  assert (u = u0) as -> by (pose proof (f_equal IE_BITS_UREFS Eb) as E; by rewrite !urefs_fields in E).
  assert (ty = ty0) as ->; [|done].
  pose proof (f_equal IE_BITS_TYPE Eb) as E. rewrite !type_fields in E by done.
  unfold fields in E. destruct ty, ty0; cbn [tcode] in E; (done || lia).
Qed.

(** What the new port [P'] must satisfy when the entry gets type [ty1]. *)
Record port_step (out' : ghost) (ty1 : rtype) (P' : ipc_port) : Prop := {
  ps_ok : port_ok sizes P';
  ps_premsg : truth (io_bits P' &&& IP_BIT_PREALLOC) = true -> ip_premsg P' <> 0;
  ps_range : in_range 32 (ip_srights P') /\ in_range 32 (ip_sorights P');
  ps_live : ip_active P' = true -> ip_active P = true /\
    g_sends out' - g_sends (out p) + tw_send ty1 - tw_send ty0 <= ip_srights P' - ip_srights P /\
    g_sonces out' - g_sonces (out p) + tw_once ty1 - tw_once ty0 <= ip_sorights P' - ip_sorights P /\
    g_sends out' + g_sonces out' + (if ip_receiver P' =? space then 0 else 1) <= g_refs out';
  ps_requests : ip_active P' = true -> ∀ m r, m <> n -> request_ok P m r -> request_ok P' m r;
  ps_sender : ip_active P' = true -> ip_receiver P' = space ->
    ip_receiver P = space \/ ∀ m, m <> n -> es_hash t0 !! p <> Some m;
  ps_receiver : ip_active P = true -> ip_receiver P = space -> ip_receiver_name P = n \/
    ip_active P' = true /\ ip_receiver P' = space /\ ip_receiver_name P' = ip_receiver_name P;
  ps_name : ip_active P' = true -> ip_receiver P' = space ->
    (ip_receiver_name P' = n /\ receives ty1 = true) \/
    (ip_receiver P = space /\ ip_receiver_name P' = ip_receiver_name P /\ ip_receiver_name P' <> n) }.

Section final.
Context (out' : Z -> ghost) (oe : option entry) (ty1 : rtype) (oP : option ipc_port) (h : bool).
Context (cs : list call) (k : kstate) (t : St).
Context (V : View oe oP h cs k t).
Context (Hout : ∀ q, q <> p -> out' q = out q).
Context (Hg : 0 <= g_sends (out' p) /\ 0 <= g_sonces (out' p) /\
              g_sends (out' p) + g_sonces (out' p) <= g_refs (out' p)).
Context (He : match oe with
              | Some e' => ∃ u1, entry_is e' g0 ty1 u1 /\ of_port p e' ty1 /\
                             right_ok space k n (ie_object e') (ie_request e') ty1 u1
              | None => ty1 = RNone
              end).
Context (Hh : h = bool_decide (ty1 = RSend)).
Context (Hrefs : match oP with Some P' => io_references P' | None => 0 end =
  io_references P + (g_refs (out' p) - g_refs (out p)) + tw_refs ty1 - tw_refs ty0).
Context (HP : match oP with Some P' => port_step (out' p) ty1 P' | None => True end).

Lemma new_entry : match oe with
  | Some e' => (∃ g u, entry_is e' g ty1 u) /\ of_port p e' ty1 | None => ty1 = RNone end.
Proof. clear - He. destruct oe; [|done]. destruct He as (u1 & ? & ? & _). eauto. Qed.

Lemma new_sums :
  sends (upd n oe (es_entries t0)) p = sends (es_entries t0) p + tw_send ty1 - tw_send ty0 /\
  sonces (upd n oe (es_entries t0)) p = sonces (es_entries t0) p + tw_once ty1 - tw_once ty0 /\
  refs (upd n oe (es_entries t0)) p = refs (es_entries t0) p + tw_refs ty1 - tw_refs ty0.
Proof. apply (sums_upd _ _ _ _ _ _ _ E0 Hi0 Ho0), new_entry. Qed.

Lemma new_gone : oP = None -> g_refs (out' p) = 0 /\ refs (upd n oe (es_entries t0)) p = 0.
Proof.
  intros HoP. destruct new_sums as (_ & _ & ->).
  assert (0 = io_references P + (g_refs (out' p) - g_refs (out p)) + tw_refs ty1 - tw_refs ty0)
    by (by rewrite <- Hrefs, HoP).
  pose proof (ct_refs _ _ _ _ _ _ (i_ports _ _ _ _ _ I p P EP)).
  pose proof (refs_own _ _ p _ _ _ _ E0 Hi0 Ho0). assert (0 <= tw_refs ty1) by (by destruct ty1).
  clear HP Hrefs. lia.
Qed.

(** The other entries of the port. *)
Lemma other_entry m e : m <> n -> es_entries t0 !! m = Some e -> ie_object e = p ->
  has (ie_bits e) MACH_PORT_TYPE_PORT_RIGHTS = true -> entry_ok space k m e.
Proof.
  intros Hm Ee Hoe Hhas. destruct (i_entries _ _ _ _ _ I m e Ee) as (Hm0 & g & ty & u & Hi & Hr).
  pose proof Hi as (Eb & Hg1 & Hu). rewrite Eb, has_port_rights in Hhas by done.
  split; [done|]. exists g, ty, u. split; [done|]. rewrite Hoe in *.
  pose proof (view_port _ _ _ _ _ _ _ _ _ _ V) as EP'. pose proof new_gone as Hgone.
  destruct oP as [P'|].
  2:{ destruct (Hgone eq_refl) as [_ Hz].
      assert (Hm' : upd n oe (es_entries t0) !! m = Some e) by (by rewrite upd_ne).
      pose proof (map_sum_zero _ _ _ _ (holds_nonneg MACH_PORT_TYPE_PORT_RIGHTS p) Hz Hm') as H0.
      destruct (of_port_holds p e _ _ _ Hi (or_introl Hoe)) as (_ & _ & H1). rewrite H1 in H0.
      by destruct ty. }
  destruct HP as [H1 H2 H3 H4 H5 H6 H7 H8].
  assert (Hsend : ty = RSend -> es_hash t0 !! p = Some m).
  { intros ->. apply (i_hash _ _ _ _ _ I). exists e. split; [done|]. by apply (pure_send_is p e _ _ _ Hi). }
  unfold right_ok in *. destruct ty; try done.
  - destruct Hr as (? & P0 & EP0 & Hr). assert (P0 = P) as -> by congruence.
    split; [done|]. exists P'. split; [done|]. intros Ha. destruct (H4 Ha) as [Ha0 _].
    destruct (Hr Ha0) as [Hs Hq]. split; [|by apply H5]. intros Hsp.
    destruct (H6 Ha Hsp) as [?|Hno]; [done|]. by apply (Hno m Hm), Hsend.
  - destruct Hr as (? & P0 & EP0 & Ha & Hs & Hn & Hr). assert (P0 = P) as -> by congruence.
    split; [done|]. exists P'. destruct (H7 Ha Hs) as [?|(? & ? & ?)]; [congruence|].
    repeat (split; [by (done || congruence)|]). by apply H5.
  - destruct Hr as (? & P0 & EP0 & Ha & Hs & Hn & Hr). assert (P0 = P) as -> by congruence.
    split; [done|]. exists P'. destruct (H7 Ha Hs) as [?|(? & ? & ?)]; [congruence|].
    repeat (split; [by (done || congruence)|]). by apply H5.
  - destruct Hr as (? & P0 & EP0 & Hr). assert (P0 = P) as -> by congruence.
    split; [done|]. exists P'. split; [done|]. intros Ha. destruct (H4 Ha) as [Ha0 _].
    by apply H5, Hr.
Qed.

Lemma new_counts P' : oP = Some P' ->
  counts_ok space sizes (out' p) (upd n oe (es_entries t0)) p P'.
Proof.
  intros HoP. destruct new_sums as (S1 & S2 & S3). rewrite HoP in *.
  destruct (i_ports _ _ _ _ _ I p P EP) as [C1 C2 C3 C4 C5 C6 C7 C8].
  destruct HP as [H1 H2 H3 H4 H5 H6 H7 H8].
  split; [done..| | | | |].
  - lia.
  - intros Ha. destruct (H4 Ha) as (Ha0 & ? & ? & ?). specialize (C5 Ha0). lia.
  - intros Ha. destruct (H4 Ha) as (Ha0 & ? & ? & ?). specialize (C6 Ha0). lia.
  - intros Ha Hs. destruct (H8 Ha Hs) as [[Hn Hrec]|(Hs0 & Hn & Hne)].
    + rewrite Hn, upd_eq. destruct oe as [e'|]; [|by subst ty1].
      destruct He as (u1 & (Eb & ? & ?) & Ho & _). exists e'. split; [done|].
      split; [destruct Ho as [|Ho]; [done|by destruct ty1]|].
      rewrite Eb, has_receive by done. by destruct ty1.
    + destruct (H4 Ha) as [Ha0 _]. rewrite upd_ne by done. rewrite Hn. by apply C7.
  - intros Ha. by destruct (H4 Ha) as (? & ? & ? & ?).
Qed.

Lemma view_inv : inv space sizes out' k t.
Proof.
  eapply (inv_touch space sizes out out' k0 t0 k t n p e0 oe oP); try done.
  - by apply (of_port_about p e0 _ _ _ Hi0).
  - apply port_nonnull.
  - apply V.
  - apply V.
  - apply V.
  - apply V.
  - intros H. by apply new_gone.
  - intros e' ->. destruct He as (u1 & Hi & Ho & Hr). split; [by eapply of_port_about|].
    split; [by eapply same_name_ok|]. by exists g0, ty1, u1.
  - apply new_counts.
  - apply other_entry.
  - intros q m. rewrite (v_hash _ _ _ _ _ _ _ _ _ _ V), Hh, bool_decide_eq_true.
    split; (intros [?|H]; [by left|right]).
    + destruct H as (-> & Hty & ->). split; [done|]. destruct oe as [e'|]; [|congruence].
      destruct He as (u1 & Hi & Ho & _). exists e'. split; [done|].
      apply (pure_send_is p e' _ _ _ Hi). split; [|done]. destruct Ho; [done|by rewrite Hty in *].
    + destruct H as (-> & e' & -> & Hs). split; [done|].
      destruct He as (u1 & Hi & Ho & _). apply (pure_send_is q e' _ _ _ Hi) in Hs as [Hq Hty].
      split; [done|]. destruct Ho as [Ho|Ho]; [congruence|by rewrite Hty in *].
Qed.
End final.
(** ** Common cases *)

Lemma counts_own : counts_ok space sizes (out p) (es_entries t0) p P.
Proof. by apply (i_ports _ _ _ _ _ I). Qed.

(** The name of a live port's receive right. *)
Lemma receiver_is : ip_active P = true -> ip_receiver P = space -> ip_receiver_name P = n ->
  receives ty0 = true.
Proof.
  intros Ha Hs Hn. destruct (ct_receiver _ _ _ _ _ _ counts_own Ha Hs) as (e & Ee & _ & Hhas).
  rewrite Hn, E0 in Ee. injection Ee as <-. destruct Hi0 as (Eb & ? & ?).
  rewrite Eb, has_receive in Hhas by done. by destruct ty0.
Qed.

Lemma own_sends : ip_active P = true -> g_sends (out p) + tw_send ty0 <= ip_srights P < 2 ^ 32.
Proof.
  intros Ha. destruct counts_own as [_ _ [[? ?] _] _ H _ _ _]. specialize (H Ha).
  pose proof (sends_own _ _ p _ _ _ _ E0 Hi0 Ho0). lia.
Qed.

Lemma own_sonces : ip_active P = true -> g_sonces (out p) + tw_once ty0 <= ip_sorights P < 2 ^ 32.
Proof.
  intros Ha. destruct counts_own as [_ _ [_ [? ?]] _ _ H _ _]. specialize (H Ha).
  pose proof (sonces_own _ _ p _ _ _ _ E0 Hi0 Ho0). lia.
Qed.

Lemma own_refs : g_refs (out p) + tw_refs ty0 <= io_references P /\
  0 < io_references P < IO_MAX_REFERENCES.
Proof.
  destruct counts_own as [[? _] _ _ H _ _ _ _].
  pose proof (refs_own _ _ p _ _ _ _ E0 Hi0 Ho0). lia.
Qed.

Lemma ghost_ok : 0 <= g_sends (out p) /\ 0 <= g_sonces (out p) /\
  g_sends (out p) + g_sonces (out p) <= g_refs (out p).
Proof. apply (i_ghost _ _ _ _ _ I). Qed.

(** A port that stays what it is but for its counts and requests. *)
Lemma port_step_keep out' ty1 P' :
  io_bits P' = io_bits P -> ip_data P' = ip_data P -> ip_receiver_name P' = ip_receiver_name P ->
  ip_premsg P' = ip_premsg P -> port_ok sizes P' ->
  in_range 32 (ip_srights P') -> in_range 32 (ip_sorights P') ->
  (receives ty0 = true -> receives ty1 = true) ->
  (∀ m r, m <> n -> request_ok P m r -> request_ok P' m r) ->
  (ip_active P = true ->
    g_sends out' - g_sends (out p) + tw_send ty1 - tw_send ty0 <= ip_srights P' - ip_srights P /\
    g_sonces out' - g_sonces (out p) + tw_once ty1 - tw_once ty0 <= ip_sorights P' - ip_sorights P /\
    g_sends out' - g_sends (out p) + (g_sonces out' - g_sonces (out p)) <= g_refs out' - g_refs (out p)) ->
  port_step out' ty1 P'.
Proof.
  intros Hb Hd Hn Hp Hok Hs Ho Hrec Hreq Hlive.
  assert (Ha : ip_active P' = ip_active P) by (unfold ip_active; by rewrite Hb).
  destruct counts_own as [C1 C2 C3 C4 C5 C6 C7 C8].
  split; rewrite ?Hb, ?Hd, ?Hn, ?Hp, ?Ha; try done.
  - intros HaP. specialize (C8 HaP). destruct (Hlive HaP) as (? & ? & ?).
    split; [done|]. split; [done|]. split; [done|]. destruct (ip_data P =? space); lia.
  - by left.
  - by right.
  - intros HaP Hsp. destruct (decide (ip_receiver_name P = n)) as [E|]; [left|by right].
    split; [done|]. by apply Hrec, receiver_is.
Qed.

(** A dead port with some of its references gone. *)
Lemma port_step_dead out' ty1 r :
  ip_active P = false -> 0 < r < IO_MAX_REFERENCES ->
  port_step out' ty1 (set_io_references r P).
Proof.
  intros Ha Hr. destruct counts_own as [[_ C1] C2 C3 _ _ _ _ _].
  split; kcbn; try done; unfold ip_active in *; kcbn; congruence.
Qed.

Lemma dropped_refs : match dropped P with Some P' => io_references P' | None => 0 end =
  io_references P - 1.
Proof. unfold dropped. destruct (Z.eqb_spec (io_references P) 1); kcbn; lia. Qed.

Lemma dropped_some P' : dropped P = Some P' ->
  P' = set_io_references (io_references P - 1) P /\ 0 < io_references P - 1 < IO_MAX_REFERENCES.
Proof.
  pose proof own_refs. unfold dropped. destruct (Z.eqb_spec (io_references P) 1); [done|].
  intros [= <-]. split; [done|]. lia.
Qed.

(** ** A right found dead *)

Definition dead_entry : entry :=
  Entry IO_NULL (fields g0 (tcode RDeadName) (u0 + if ie_request e0 =? 0 then 0 else 1)) 0.

Lemma check_runs (Q : bool -> rstate St -> Prop) :
  ie_object e0 = p -> tw_send ty0 + tw_once ty0 = 1 ->
  (ip_active P = true -> Q false (RState k0 t0 true)) ->
  (ip_active P = false -> ∀ k t, View (Some dead_entry) (dropped P) false [] k t ->
     inv space sizes out k t -> Q true (RState k t true)) ->
  runs (ipc_right_check p n) Q (RState k0 t0 true).
Proof.
  intros Eo Hty Hlive Hdead. pose proof start_view as V. pose proof Hi0 as (Eb & Hg0 & Hu0).
  pose proof entry_right as Hr. unfold right_ok in Hr. rewrite Eo in Hr.
  unfold ipc_right_check. vrun.
  destruct (ip_active P) eqn:Ha; [apply runs_ret; by apply Hlive|]. specialize (Hdead eq_refl).
  assert (Hs : ty0 = RSend \/ ty0 = RSendOnce /\ u0 = 1).
  { destruct ty0; cbn in Hty; try lia; [by left| |by right; destruct Hr as [-> _]].
    destruct Hr as (_ & P0 & EP0 & Ha0 & _). congruence. }
  assert (Hu1 : 0 < u0 < 2 ^ 16 - 1) by (destruct Hs as [->|[-> ->]]; [apply Hr|done]).
  rewrite Eb, to_dead_name by done. unfold MACH_PORT_UREFS_MAX. bits_eval.
  eapply (runs_weaken _ (λ d s, d = true /\ ∃ k t, s = RState k t true /\
    View (Some dead_entry) (dropped P) false [] k t)).
  2:{ intros d s (-> & k & t & -> & V'). apply Hdead; [done..|].
      eapply (view_inv out _ RDeadName); [exact V'|done|apply ghost_ok| |done| |].
      - exists (u0 + if ie_request e0 =? 0 then 0 else 1). cbn.
        repeat split; try done; try (destruct (_ =? 0); lia). by right.
      - rewrite dropped_refs. destruct Hs as [->|[-> _]]; cbn; lia.
      - destruct (dropped P) as [P'|] eqn:Ed; [|done].
        apply dropped_some in Ed as [-> ?]. by apply port_step_dead. }
  pose proof own_refs.
  destruct Hs as [->|[-> ->]]; cbn [andb negb];
    [rewrite bool_decide_true in V by done|rewrite bool_decide_false in V by done]; vrun; try lia.
  all: unfold dead_entry; destruct (Z.eqb_spec (ie_request e0) 0) as [Er|Er]; cbn [negb]; vrun;
    (split; [done|]; do 2 eexists; split; [done|]; eapply view_eq; [exact V| |done..]);
    unfold set_ie_object, set_ie_bits, set_ie_request; ecbn; rewrite ?fields_add, ?Er; repeat f_equal; lia.
Qed.
End invariants.

(** ** Entries without a port *)

Section plain.
Context {St : Type} `{!EntryStore St} (space : Z) (sizes : list Z).
Context (out : Z -> ghost) (k0 : kstate) (t0 : St) (n : Z) (e0 : entry).
Context (g0 : Z) (ty0 : rtype) (u0 : Z).
Context (I : inv space sizes out k0 t0) (E0 : es_entries t0 !! n = Some e0).
Context (Hi0 : entry_is e0 g0 ty0 u0) (Hty0 : tw_refs ty0 = 0).

(** The view when the entry has no port: of any port, here 1, which stays the same. *)
Abbreviation View := (view k0 t0 n 1).

Lemma no_hash q : es_hash t0 !! q <> Some n.
Proof.
  intros Hq. apply (i_hash _ _ _ _ _ I) in Hq as (e & Ee & Hs). assert (e = e0) as -> by congruence.
  apply (pure_send_is q e0 _ _ _ Hi0) in Hs as [_ ->]. done.
Qed.

Lemma plain_view : View (Some e0) (ks_ports k0 !! 1) false [] k0 t0.
Proof.
  split; try done.
  - apply I.
  - by rewrite upd_id.
  - by rewrite upd_id.
  - by rewrite app_nil_r.
  - intros q m. split; [|by intros [[_ ?]|(_ & ? & _)]].
    intros Hh. left. split; [|done]. intros ->. by apply (no_hash q).
Qed.

Lemma plain_inv oe ty1 cs k t : View oe (ks_ports k0 !! 1) false cs k t ->
  match oe with
  | Some e' => ∃ u1, entry_is e' g0 ty1 u1 /\
                 right_ok space k n (ie_object e') (ie_request e') ty1 u1
  | None => ty1 = RNone
  end -> tw_refs ty1 = 0 -> inv space sizes out k t.
Proof.
  intros V He Hty1. pose proof I as [I1 I2 I3 I4 I5 I6 I7].
  assert (Hports : ks_ports k = ks_ports k0) by (by rewrite (v_ports _ _ _ _ _ _ _ _ _ _ V), upd_id).
  eapply (inv_touch space sizes out out k0 t0 k t n 1 e0 oe (ks_ports k0 !! 1)); try done.
  - apply (of_port_about 1 e0 _ _ _ Hi0). by right.
  - apply V.
  - apply V.
  - apply V.
  - apply V.
  - apply I7.
  - intros e' ->. destruct He as (u1 & Hi & Hr). split; [apply (of_port_about 1 e' _ _ _ Hi); by right|].
    split; [|by exists g0, ty1, u1].
    destruct (I2 n e0 E0) as [[Hn Hup] _]. split; [done|].
    by rewrite (upper_is e' g0 _ u1 Hi), <- (upper_is e0 g0 ty0 u0 Hi0).
  - intros P EP. pose proof (I3 1 P EP) as [C1 C2 C3 C4 C5 C6 C7 C8].
    destruct (sums_upd (es_entries t0) n 1 e0 g0 ty0 u0 E0 Hi0 (or_intror Hty0) oe ty1)
      as (S1 & S2 & S3).
    { destruct oe; [|done]. destruct He as (u1 & Hi & _). split; [eauto|by right]. }
    assert (tw_send ty0 = 0 /\ tw_send ty1 = 0 /\ tw_once ty0 = 0 /\ tw_once ty1 = 0) as (? & ? & ? & ?)
      by (by destruct ty0, ty1).
    split; rewrite ?S1, ?S2, ?S3; try done; try lia.
    + intros Ha. specialize (C5 Ha). lia.
    + intros Ha. specialize (C6 Ha). lia.
    + intros Ha Hs. destruct (C7 Ha Hs) as (e & Ee & Hhas). exists e.
      rewrite upd_ne; [done|]. intros Hnn. rewrite Hnn, E0 in Ee. injection Ee as <-.
      destruct Hhas as [_ Hhas]. destruct Hi0 as (Eb & ? & ?). rewrite Eb, has_receive in Hhas by done.
      by destruct ty0.
  - intros m e Hm Ee Ho Hhas. destruct (I2 m e Ee) as (Hm0 & g & ty & u & Hi & Hr).
    split; [done|]. exists g, ty, u. split; [done|]. apply (right_ok_frame space k0 k); [done|by rewrite Hports; destruct ty|apply V].
  - intros q m. rewrite (v_hash _ _ _ _ _ _ _ _ _ _ V). split; (intros [?|H]; [by left|right]).
    + by destruct H as (_ & ? & _).
    + destruct H as (-> & e' & -> & Hs). destruct He as (u1 & Hi & _).
      apply (pure_send_is q e' _ _ _ Hi) in Hs as [_ ->]. done.
Qed.
End plain.

(** A signed 32-bit [int]. *)
Definition int_ok (d : Z) : Prop := - 2 ^ 31 <= d < 2 ^ 31.

Lemma underflow_eq u d : 0 <= u < 2 ^ 16 -> int_ok d ->
  MACH_PORT_UREFS_UNDERFLOW u d = (d <? 0) && (u <? - d).
Proof.
  unfold int_ok, MACH_PORT_UREFS_UNDERFLOW. intros Hu Hd. destruct (Z.ltb_spec d 0); [|done].
  cbn [andb]. rewrite wrap_small; [done|]. unfold in_range. lia.
Qed.

Lemma overflow_eq u d : 0 <= u <= 2 ^ 16 -> int_ok d ->
  MACH_PORT_UREFS_OVERFLOW u d = (0 <? d) && (MACH_PORT_UREFS_MAX <? u + d).
Proof.
  unfold int_ok, MACH_PORT_UREFS_OVERFLOW. intros Hu Hd. destruct (Z.ltb_spec 0 d); [|done].
  cbn [andb]. rewrite wrap_small by (unfold in_range; lia).
  by rewrite (proj2 (Z.leb_gt (u + d) u)) by lia.
Qed.

(** The change of the user references within the word of bits. *)
Lemma bits_delta g t u d : 0 <= g < 2 ^ 9 -> 0 <= u + d < 2 ^ 16 ->
  u32 (fields g (tcode t) u + d) = fields g (tcode t) (u + d).
Proof.
  intros Hg Hu. rewrite fields_add. apply wrap_small. pose proof (tcode_range t).
  unfold in_range, fields. lia.
Qed.

(** * Outcomes *)

(** What is left of the entry [e] when its name has type [ty] and [u] user references: an entry
    that loses its last port right loses the object and the request as well. *)
Definition left_entry (g : Z) (ty : rtype) (u : Z) (e : entry) : entry :=
  if (tw_refs ty =? 0) && has (ie_bits e) MACH_PORT_TYPE_PORT_RIGHTS
  then Entry IO_NULL (fields g (tcode ty) u) 0
  else set_ie_bits (fields g (tcode ty) u) e.

(** What a routine on name [n] has done when it ends in state [s]: the invariant holds with
    the rights [out'] outside of the space, the name has the type and the user references [o]
    or is gone, the ports are [ports], the calls [cs] were made, and nothing else changed. *)
Record outcome {St} `{!EntryStore St} (space : Z) (sizes : list Z) (k0 : kstate) (t0 : St)
    (n g : Z) (out' : Z -> ghost) (o : option (rtype * Z)) (ports : gmap Z ipc_port)
    (cs : list call) (s : rstate St) : Prop := Outcome {
  oc_active : rs_active s = true;
  oc_inv : inv space sizes out' (rs_k s) (rs_s s);
  oc_entries : es_entries (rs_s s) =
    upd n ('(ty, u) ← o; left_entry g ty u <$> es_entries t0 !! n) (es_entries t0);
  oc_kernel : rs_k s = KState ports (ks_psets k0) (ks_inuse k0) (ipc_port_timestamp_data k0)
                         (ks_trace k0 ++ cs) }.

Lemma view_outcome {St} `{!EntryStore St} space sizes k0 t0 n p g out' o ports cs e0
    (oe : option entry) oP h (k : kstate) (t : St) :
  view k0 t0 n p oe oP h cs k t -> inv space sizes out' k t ->
  es_entries t0 !! n = Some e0 ->
  oe = match o with Some (ty, u) => Some (left_entry g ty u e0) | None => None end ->
  ports = upd p oP (ks_ports k0) ->
  outcome space sizes k0 t0 n g out' o ports cs (RState k t true).
Proof.
  intros [V1 V2 V3 V4 V5 V6 V7 V8] Hinv E0 He ->. split; cbn; try done.
  - rewrite V2, E0, He. by destruct o as [[ty u]|].
  - destruct k. cbn in *. by subst.
Qed.

Lemma plain_outcome {St} `{!EntryStore St} space sizes k0 t0 n g out o cs e0
    (oe : option entry) h (k : kstate) (t : St) :
  view k0 t0 n 1 oe (ks_ports k0 !! 1) h cs k t -> inv space sizes out k t ->
  es_entries t0 !! n = Some e0 ->
  oe = match o with Some (ty, u) => Some (left_entry g ty u e0) | None => None end ->
  outcome space sizes k0 t0 n g out o (ks_ports k0) cs (RState k t true).
Proof. intros V Hinv E0 He. eapply view_outcome; [done..|]. by rewrite upd_id. Qed.

Definition has_request (e : entry) : Z := if ie_request e =? 0 then 0 else 1.

(** One user reference less. *)
Definition less_one (ty : rtype) (u : Z) : option (rtype * Z) :=
  if u =? 1 then None else Some (ty, u - 1).

(** A send-once right more in messages. *)
Definition one_sonce (p : Z) (out : Z -> ghost) : Z -> ghost := λ q,
  if decide (q = p) then Ghost (g_sends (out p)) (g_sonces (out p) + 1) (g_refs (out p) + 1)
  else out q.

(** ** The effect of giving up one reference *)

Definition live (k : kstate) (p : Z) : bool :=
  match ks_ports k !! p with Some P => ip_active P | None => false end.

(** The no-senders notification when the last send right of the port goes, and the
    port-deleted notification for the request in slot [r]. *)
Definition last_send_calls (k : kstate) (p : Z) : list call :=
  match ks_ports k !! p with
  | Some P => no_senders_calls (last_send P).1 (last_send P).2 | None => [] end.
Definition deleted_calls (k : kstate) (p n r : Z) : list call :=
  match ks_ports k !! p with Some P => port_deleted_calls n (request_of P r) | None => [] end.

(** An effect on a name: the return code, the type and user references the name ends with,
    the ports, the calls made and the rights outside of the space. *)
Record effect := Effect {
  ef_code : Z;
  ef_name : option (rtype * Z);
  ef_ports : gmap Z ipc_port;
  ef_calls : list call;
  ef_out : Z -> ghost }.

Section effects.
Context (out : Z -> ghost) (k : kstate) (n p : Z).

(** The ports when only [p] changes. *)
Definition on_port (f : ipc_port -> option ipc_port) : gmap Z ipc_port :=
  match ks_ports k !! p with Some P => upd p (f P) (ks_ports k) | None => ks_ports k end.

(** No calls and no change of the rights outside. *)
Definition quiet (ports : gmap Z ipc_port) (code : Z) (o : option (rtype * Z)) : effect :=
  Effect code o ports [] out.
(** Nothing but the name changes. *)
Definition only_name : Z -> option (rtype * Z) -> effect := quiet (ks_ports k).
(** The port has died: the reference of the name goes. *)
Definition found_dead : Z -> option (rtype * Z) -> effect := quiet (on_port dropped).

(** The port when the last reference to its send right goes: the entry's reference, its
    request and the right itself. *)
Definition sender_gone (r : Z) (P : ipc_port) : ipc_port :=
  set_io_references (io_references P - 1) (request_dropped r (srights_down P)).

(** The last reference to a send right: nothing is left of a pure send right, the receive
    right of a port with both. *)
Definition send_gone (ty : rtype) (r : Z) : effect :=
  match ty with
  | RSendReceive =>
      Effect KERN_SUCCESS (Some (RReceive, 0)) (on_port (λ P, Some (srights_down P)))
        (last_send_calls k p) out
  | _ =>
      Effect KERN_SUCCESS None (on_port (λ P, Some (sender_gone r P)))
        (last_send_calls k p ++ deleted_calls k p n r) out
  end.

(** The end of a send-once right, whose reference goes along into the notification. *)
Definition once_gone (r : Z) : effect :=
  Effect KERN_SUCCESS None (on_port (λ P, Some (request_dropped r P))) (mach_notify_send_once p :: deleted_calls k p n r) (one_sonce p out).

(** One reference of a name of type [ty] goes, with [u] user references and the request
    [r]. *)
Definition dealloc_effect (live : bool) (ty : rtype) (u r : Z) : effect :=
  let dead := found_dead KERN_SUCCESS (less_one RDeadName (u + if r =? 0 then 0 else 1)) in
  match ty with
  | RDeadName => only_name KERN_SUCCESS (less_one RDeadName u)
  | RSend =>
      if negb live then dead
      else if u =? 1 then send_gone RSend r else only_name KERN_SUCCESS (Some (RSend, u - 1))
  | RSendReceive =>
      if u =? 1 then send_gone RSendReceive r
      else only_name KERN_SUCCESS (Some (RSendReceive, u - 1))
  | RSendOnce => if negb live then dead else once_gone r
  | RNone | RReceive | RPortSet => only_name KERN_INVALID_RIGHT (Some (ty, u))
  end.

(** The user references of a dead name change by [d]. *)
Definition delta_dead_effect (ports : gmap Z ipc_port) (u d : Z) : effect :=
  if (d <? 0) && (u <? - d) then quiet ports KERN_INVALID_VALUE (Some (RDeadName, u))
  else if (0 <? d) && (MACH_PORT_UREFS_MAX <? u + d)
  then quiet ports KERN_UREFS_OVERFLOW (Some (RDeadName, u))
  else quiet ports KERN_SUCCESS (if u + d =? 0 then None else Some (RDeadName, u + d)).

(** The user references of a send right to a live port change by [d]; one reference stays
    free for the request. *)
Definition delta_send_effect (ty : rtype) (u r d : Z) : effect :=
  if (d <? 0) && (u <? - d) then only_name KERN_INVALID_VALUE (Some (ty, u))
  else if (0 <? d) && (MACH_PORT_UREFS_MAX <? u + 1 + d)
  then only_name KERN_UREFS_OVERFLOW (Some (ty, u))
  else if u + d =? 0 then send_gone ty r
  else only_name KERN_SUCCESS (Some (ty, u + d)).

(** [ipc_right_delta] on user references of the rights [right]. *)
Definition delta_effect (right : Z) (live : bool) (ty : rtype) (u r d : Z) : effect :=
  let u' := u + if r =? 0 then 0 else 1 in
  if right =? MACH_PORT_RIGHT_SEND then
    match ty with
    | RSend => if live then delta_send_effect ty u r d
               else found_dead KERN_INVALID_RIGHT (Some (RDeadName, u'))
    | RSendReceive => delta_send_effect ty u r d
    | _ => only_name KERN_INVALID_RIGHT (Some (ty, u))
    end
  else if right =? MACH_PORT_RIGHT_SEND_ONCE then
    match ty with
    | RSendOnce =>
        if negb live then found_dead KERN_INVALID_RIGHT (Some (RDeadName, u'))
        else if (0 <? d) || (d <? -1) then only_name KERN_INVALID_VALUE (Some (ty, u))
        else if d =? 0 then only_name KERN_SUCCESS (Some (ty, u)) else once_gone r
    | _ => only_name KERN_INVALID_RIGHT (Some (ty, u))
    end
  else
    match ty with
    | RDeadName => delta_dead_effect (ks_ports k) u d
    | RSend | RSendOnce => if live then only_name KERN_INVALID_RIGHT (Some (ty, u))
                           else delta_dead_effect (on_port dropped) u' d
    | _ => only_name KERN_INVALID_RIGHT (Some (ty, u))
    end.
End effects.

(** The routine returned the code of the effect and did what the effect says. *)
Definition did {St} `{!EntryStore St} (space : Z) (sizes : list Z) (k0 : kstate) (t0 : St)
    (n g : Z) (ef : effect) (kr : Z) (s : rstate St) : Prop :=
  kr = ef_code ef /\
  outcome space sizes k0 t0 n g (ef_out ef) (ef_name ef) (ef_ports ef) (ef_calls ef) s.

(** A name without a port: dead, with user references, or unused. *)
Definition dead_shape (ty : rtype) (u : Z) : Prop :=
  match ty with RDeadName => 0 < u < 2 ^ 16 | RNone => u = 0 | _ => False end.

Lemma dead_shape_right ty u : dead_shape ty u ->
  0 <= u < 2 ^ 16 /\ tw_refs ty = 0 /\ tw_send ty = 0 /\ tw_once ty = 0 /\ ty <> RSend /\
  ∀ space k n, right_ok space k n IO_NULL 0 ty u.
Proof. destruct ty; try done; cbn; intros Hu; repeat split; (done || lia). Qed.

Lemma set_bits_same e v : ie_bits e = v -> set_ie_bits v e = e.
Proof. intros <-. by destruct e. Qed.

Lemma same_left e g ty u : entry_is e g ty u -> left_entry g ty u e = e.
Proof.
  intros (Eb & Hg & Hu). unfold left_entry. rewrite Eb, has_port_rights by done.
  rewrite set_bits_same by done. by destruct ty.
Qed.

(** Nothing has changed. *)
Lemma unchanged {St} `{!EntryStore St} space sizes out (k : kstate) (t : St) n e g ty u :
  inv space sizes out k t -> es_entries t !! n = Some e -> entry_is e g ty u ->
  outcome space sizes k t n g out (Some (ty, u)) (ks_ports k) [] (RState k t true).
Proof.
  intros I E Hi. split; [done..| |].
  - rewrite E. change (es_entries t = upd n (Some (left_entry g ty u e)) (es_entries t)).
    by rewrite (same_left _ _ _ _ Hi), upd_id.
  - cbn. rewrite app_nil_r. by destruct k.
Qed.

Section giving_up.
Context {St : Type} `{!EntryStore St} (space : Z) (sizes : list Z).

Lemma v_dead_name k0 t0 n p e g u oP cs k t b (Q : Z -> rstate St -> Prop) :
  view k0 t0 n p (Some e) oP false cs k t -> entry_is e g RDeadName u -> 0 < u ->
  ie_request e = 0 -> ie_object e = IO_NULL ->
  (∀ t', view k0 t0 n p (if u =? 1 then None
            else Some (set_ie_bits (fields g (tcode RDeadName) (u - 1)) e)) oP false cs k t' ->
     Q KERN_SUCCESS (RState k t' b)) ->
  runs (dealloc_dead_name n (ie_bits e)) Q (RState k t b).
Proof.
  intros V (Eb & Hg & Hu) Hu0 Hr Ho HQ. unfold dealloc_dead_name. vrun.
  rewrite Eb. bits_eval. vrun. destruct (Z.eqb_spec u 1) as [->|Hu1]; vrun; [by apply HQ|].
  apply HQ. by rewrite fields_sub in V.
Qed.
(** [ipc_right_delta] on a name that is dead. *)
Lemma v_dead_delta out ports k0 t0 n p e g u d oP cs k t b (Q : Z -> rstate St -> Prop) :
  view k0 t0 n p (Some e) oP false cs k t -> entry_is e g RDeadName u -> g < 2 ^ 9 -> 0 < u ->
  ie_request e = 0 -> ie_object e = IO_NULL -> int_ok d ->
  (∀ t' oe, view k0 t0 n p oe oP false cs k t' ->
     match ef_name (delta_dead_effect out ports u d) with
     | Some (ty, u') => dead_shape ty u' /\ oe = Some (set_ie_bits (fields g (tcode ty) u') e)
     | None => oe = None
     end -> Q (ef_code (delta_dead_effect out ports u d)) (RState k t' b)) ->
  runs (e ← get_entry n;
        let bits := ie_bits e in
        assert_ (IE_BITS_TYPE bits =? MACH_PORT_TYPE_DEAD_NAME);;
        assert_ (0 <? IE_BITS_UREFS bits);;
        assert_ (ie_object e =? IO_NULL);;
        assert_ (ie_request e =? 0);;
        let urefs := IE_BITS_UREFS bits in
        if MACH_PORT_UREFS_UNDERFLOW urefs d then mret KERN_INVALID_VALUE
        else if MACH_PORT_UREFS_OVERFLOW urefs d then mret KERN_UREFS_OVERFLOW
        else
          (if u32 (urefs + d) =? 0 then onS (ipc_entry_dealloc n)
           else set_entry n (set_ie_bits (u32 (bits + d))));;
          mret KERN_SUCCESS) Q (RState k t b).
Proof.
  intros V (Eb & Hg & Hu) Hg9 Hu0 Hr Ho Hd HQ. vrun. rewrite Eb. type_eval. vrun.
  rewrite underflow_eq, overflow_eq by (done || lia). unfold delta_dead_effect in HQ.
  destruct ((d <? 0) && (u <? - d)) eqn:Eun.
  { vrun. apply (HQ _ _ V). cbn [quiet ef_name]. rewrite (set_bits_same e) by done.
    repeat split; lia. }
  destruct ((0 <? d) && (MACH_PORT_UREFS_MAX <? u + d)) eqn:Eov.
  { vrun. apply (HQ _ _ V). cbn [quiet ef_name]. rewrite (set_bits_same e) by done.
    repeat split; lia. }
  assert (Hud : 0 <= u + d < 2 ^ 16).
  { unfold MACH_PORT_UREFS_MAX in Eov. apply andb_false_iff in Eun, Eov.
    rewrite !Z.ltb_ge in Eun, Eov. lia. }
  rewrite (wrap_small 32 (u + d)) by (unfold in_range; lia). rewrite bits_delta by (done || lia).
  cbn [quiet ef_name ef_code] in HQ.
  destruct (Z.eqb_spec (u + d) 0) as [E|E]; vrun; [by apply (HQ _ _ V)|].
  apply (HQ _ _ V). repeat split; lia.
Qed.

Section one_port.
Context (out : Z -> ghost) (k0 : kstate) (t0 : St) (n p : Z) (e0 : entry) (P : ipc_port).
Context (g0 : Z) (ty0 : rtype) (u0 : Z).
Context (I : inv space sizes out k0 t0) (E0 : es_entries t0 !! n = Some e0).
Context (Hi0 : entry_is e0 g0 ty0 u0) (Eo : ie_object e0 = p) (EP : ks_ports k0 !! p = Some P).

Abbreviation View := (view k0 t0 n p).
Abbreviation Outcome := (outcome space sizes k0 t0 n g0).

Lemma of_port0 : of_port p e0 ty0.
Proof. by left. Qed.

(** What is left of the entry of a right of the port. *)
Lemma left_port_right ty u : tw_refs ty0 = 1 -> left_entry g0 ty u e0 =
  if tw_refs ty =? 0 then Entry IO_NULL (fields g0 (tcode ty) u) 0
  else set_ie_bits (fields g0 (tcode ty) u) e0.
Proof.
  intros Hty. pose proof Hi0 as (Eb & Hg & Hu). unfold left_entry.
  rewrite Eb, has_port_rights by done. destruct (_ =? 0); by destruct ty0.
Qed.

Lemma on_port_eq f : on_port k0 p f = upd p (f P) (ks_ports k0).
Proof. unfold on_port. by rewrite EP. Qed.

(** The entry of a right that was found dead, with other user references or gone. *)
Lemma dead_change_outcome oe o k t :
  tw_send ty0 + tw_once ty0 = 1 -> ip_active P = false ->
  View oe (dropped P) false [] k t ->
  match o with
  | Some (ty, u) => dead_shape ty u /\
      oe = Some (set_ie_bits (fields g0 (tcode ty) u) (dead_entry e0 g0 u0))
  | None => oe = None
  end -> Outcome out o (on_port k0 p dropped) [] (RState k t true).
Proof.
  intros Hty Ha V Ho. pose proof Hi0 as (_ & Hg0 & _).
  assert (Hw0 : tw_refs ty0 = 1) by (destruct ty0; cbn in *; lia).
  eapply view_outcome; [exact V| |exact E0| |by apply on_port_eq].
  - eapply (view_inv space sizes out k0 t0 n p e0 P g0 ty0 u0 I E0 Hi0 of_port0 EP out _
      (match o with Some (ty, _) => ty | None => RNone end)); [exact V|done|apply (ghost_ok space sizes out k0 t0 p I)| | | |].
    + destruct o as [[ty u]|]; [|by subst oe]. destruct Ho as (Hsh & ->).
      apply dead_shape_right in Hsh as (Hu & Hw & _ & _ & _ & Hr). exists u.
      split; [done|]. split; [by right|]. apply Hr.
    + destruct o as [[ty u]|]; [|done]. destruct Ho as (Hsh & _).
      apply dead_shape_right in Hsh as (_ & _ & _ & _ & Hns & _). by rewrite bool_decide_false.
    + rewrite dropped_refs, Hw0.
      destruct o as [[ty u]|]; [|cbn; lia]. destruct Ho as (Hsh & _).
      apply dead_shape_right in Hsh as (_ & -> & _). lia.
    + destruct (dropped P) as [P'|] eqn:Ed; [|done].
      apply (dropped_some space sizes out k0 t0 n p e0 P g0 ty0 u0 I E0 Hi0 of_port0 EP) in Ed as [-> ?].
      by apply (port_step_dead space sizes out k0 t0 n p P ty0 I EP).
  - destruct o as [[ty u]|]; [|done]. destruct Ho as (Hsh & ->).
    apply dead_shape_right in Hsh as (_ & Hw & _). by rewrite left_port_right, Hw.
Qed.

Lemma live_refs : ip_active P = true -> tw_refs ty0 = 1 -> receives ty0 = false ->
  2 <= io_references P.
Proof.
  intros Ha Hty Hrec. pose proof (i_ports _ _ _ _ _ I p P EP) as [C1 C2 C3 C4 C5 C6 C7 C8].
  pose proof (refs_own _ _ p _ _ _ _ E0 Hi0 of_port0) as Hown. specialize (C8 Ha).
  pose proof (i_ghost _ _ _ _ _ I p). destruct (Z.eqb_spec (ip_receiver P) space) as [Hs|Hs]; [|lia].
  destruct (C7 Ha Hs) as (e & Ee & He & Hhas). destruct (decide (ip_receiver_name P = n)) as [Hn|Hn].
  { rewrite Hn, E0 in Ee. injection Ee as <-. destruct Hi0 as (Eb & ? & ?).
    rewrite Eb, has_receive in Hhas by done. by destruct ty0. }
  destruct (i_entries _ _ _ _ _ I _ e Ee) as (_ & g & ty & u & Hi & _).
  destruct (of_port_holds p e g ty u Hi (or_introl He)) as (_ & _ & W).
  destruct (of_port_holds p e0 _ _ _ Hi0 of_port0) as (_ & _ & W0).
  unfold refs in *. rewrite (map_sum_delete _ n e0 _ E0), W0 in C4.
  rewrite (map_sum_delete _ (ip_receiver_name P) e (delete n _)) in C4
    by (by rewrite lookup_delete_ne). rewrite W in C4.
  pose proof (map_sum_nonneg (holds MACH_PORT_TYPE_PORT_RIGHTS p)
    (delete (ip_receiver_name P) (delete n (es_entries t0))) (holds_nonneg _ p)).
  destruct Hi as (Eb & ? & ?). rewrite Eb, has_receive in Hhas by done.
  assert (tw_refs ty = 1) by (by destruct ty). lia.
Qed.

Lemma start_view' : View (Some e0) (Some P) (bool_decide (ty0 = RSend)) [] k0 t0.
Proof. exact (start_view space sizes out k0 t0 n p e0 P g0 ty0 u0 I E0 Hi0 of_port0 EP). Qed.

Lemma right0 : right_ok space k0 n p (ie_request e0) ty0 u0.
Proof.
  rewrite <- Eo. eapply entry_right; [exact I|exact E0|exact Hi0|apply of_port0].
Qed.

Lemma name0 : n <> MACH_PORT_NULL.
Proof. eapply entry_name; [exact I|exact E0]. Qed.

Lemma request0 : ip_active P = true -> tw_refs ty0 = 1 -> request_ok P n (ie_request e0).
Proof.
  intros Ha Hty. pose proof right0 as Hr. unfold right_ok in Hr.
  destruct ty0; try done; destruct Hr as (_ & P0 & EP0 & Hr); (assert (P0 = P) as -> by congruence);
    [by destruct (Hr Ha)|by destruct Hr as (? & ? & ? & ?)|by destruct Hr as (? & ? & ? & ?)|auto].
Qed.

(** A live port keeps its counts and loses the reference of the entry. *)
Lemma live_gone_outcome out' ds dso cs P2 r k t :
  ip_active P = true -> tw_refs ty0 = 1 -> receives ty0 = false ->
  View None (Some (set_io_references r P2)) false cs k t ->
  io_bits P2 = io_bits P -> ip_data P2 = ip_data P -> ip_receiver_name P2 = ip_receiver_name P ->
  ip_premsg P2 = ip_premsg P -> port_ok sizes P2 ->
  (∀ m r, m <> n -> request_ok P m r -> request_ok P2 m r) ->
  (∀ q, q <> p -> out' q = out q) ->
  g_sends (out' p) = g_sends (out p) -> g_sonces (out p) <= g_sonces (out' p) ->
  g_refs (out' p) - g_refs (out p) = g_sonces (out' p) - g_sonces (out p) ->
  r = io_references P - 1 + (g_refs (out' p) - g_refs (out p)) -> r < IO_MAX_REFERENCES ->
  ip_srights P2 = ip_srights P + ds -> - tw_send ty0 <= ds <= 0 ->
  ip_sorights P2 = ip_sorights P + dso -> g_sonces (out' p) - g_sonces (out p) - tw_once ty0 <= dso <= 0 ->
  Outcome out' None (upd p (Some (set_io_references r P2)) (ks_ports k0)) cs (RState k t true).
Proof.
  intros Ha Hty Hrec V Hb Hd Hn Hpm Hok Hreq Hout Hgs Hgo Hgr Hr Hrm Hds Hds' Hdso Hdso'.
  pose proof live_refs Ha Hty Hrec as Hlr. pose proof (ghost_ok space sizes out k0 t0 p I) as Hgh.
  eapply view_outcome; [exact V| |exact E0|done|done].
  eapply (view_inv space sizes out k0 t0 n p e0 P g0 ty0 u0 I E0 Hi0 of_port0 EP out' _ RNone);
    [exact V|done|lia|done|done|kcbn; cbn [tw_refs]; lia|].
  pose proof (own_sends space sizes out k0 t0 n p e0 P g0 ty0 u0 I E0 Hi0 of_port0 EP Ha).
  pose proof (own_sonces space sizes out k0 t0 n p e0 P g0 ty0 u0 I E0 Hi0 of_port0 EP Ha).
  eapply (port_step_keep space sizes out k0 t0 n p e0 P g0 ty0 u0 I E0 Hi0 of_port0 EP);
    kcbn; try done; try (unfold in_range; lia).
  - destruct Hok as [_ Ht]. split; kcbn; [lia|done].
  - by destruct ty0.
  - intros _. cbn [tw_send tw_once]. lia.
Qed.

(** *** Giving up a send right *)

Lemma last_send_eq : last_send_calls k0 p = no_senders_calls (last_send P).1 (last_send P).2.
Proof. unfold last_send_calls. by rewrite EP. Qed.

Lemma deleted_eq : deleted_calls k0 p n (ie_request e0) = port_deleted_calls n (request_of P (ie_request e0)).
Proof. unfold deleted_calls. by rewrite EP. Qed.

(** The cancellation of the request after the last send right was counted off. *)
Lemma cancel_after_drop (Q : Z -> rstate St -> Prop) h k t :
  View (Some e0) (Some (srights_down P)) h [] k t -> ip_active P = true -> ty0 = RSend ->
  (∀ k' t' P2, P2 = request_dropped (ie_request e0) (srights_down P) ->
     View (Some (set_ie_request 0 e0)) (Some P2) h [] k' t' ->
     table_step n sizes (srights_down P) P2 -> io_references P2 = io_references P ->
     0 < io_references P2 <= IO_MAX_REFERENCES ->
     Q (request_of P (ie_request e0)) (RState k' t' true)) ->
  runs (ipc_right_dncancel_macro p n) Q (RState k t true).
Proof.
  intros V Ha Hty HQ. pose proof (i_ports _ _ _ _ _ I p P EP) as [[C1 C1'] C2 C3 C4 C5 C6 C7 C8].
  eapply (v_cancel _ _ _ _ sizes); [exact V|apply name0|exact Eo|exact Ha| | |].
  { split; kcbn; [done|]. exact C1'. }
  { apply request0; [done|by rewrite Hty]. }
  clear V. intros k1 t1 P2 HP2 V Hts. pose proof Hts as [Hrest [Hr2 _] _].
  assert (Er : io_references P2 = io_references P) by (by rewrite Hrest).
  apply (HQ k1 t1 P2); try done. lia.
Qed.

(** The last reference to a send right: the port, the request, the hash table and the entry. *)
Lemma send_gone_runs (Q : Z * Z * Z -> rstate St -> Prop) :
  ip_active P = true -> ty0 = RSend ->
  (∀ k t P2, P2 = request_dropped (ie_request e0) (srights_down P) ->
     View None (Some (set_io_references (io_references P - 1) P2)) false [] k t ->
     table_step n sizes (srights_down P) P2 ->
     Q ((last_send P).1, (last_send P).2, request_of P (ie_request e0)) (RState k t true)) ->
  runs ('(nsrequest, mscount) ← drop_sright p;
        dnrequest ← ipc_right_dncancel_macro p n;
        onS (ipc_hash_delete p n);;
        onK (ip_release p);;
        set_entry n (set_ie_object IO_NULL);;
        onS (ipc_entry_dealloc n);;
        mret (nsrequest, mscount, dnrequest)) Q (RState k0 t0 true).
Proof.
  intros Ha Hty HQ. pose proof start_view' as V. pose proof (i_ghost _ _ _ _ _ I p).
  pose proof (own_sends space sizes out k0 t0 n p e0 P g0 ty0 u0 I E0 Hi0 of_port0 EP Ha) as Hs.
  rewrite Hty in Hs. cbn [tw_send] in Hs. rewrite bool_decide_true in V by done.
  vrun; [lia|]. destruct (last_send P) as [ns ms]. vrun.
  eapply cancel_after_drop; [exact V|done..|]. clear V. intros k1 t1 P2 HP2 V Hts Er Hr2.
  vrun; [lia|]. eapply HQ; [exact HP2|rewrite Er in V; exact V|done].
Qed.

(** The ports stay, and the entry gets other user references. *)
Lemma urefs_outcome u1 k t :
  View (Some (set_ie_bits (fields g0 (tcode ty0) u1) e0)) (Some P) (bool_decide (ty0 = RSend)) [] k t ->
  ty0 = RSend \/ ty0 = RSendReceive -> 0 < u1 < MACH_PORT_UREFS_MAX ->
  Outcome out (Some (ty0, u1)) (ks_ports k0) [] (RState k t true).
Proof.
  intros V Hty Hu1. pose proof Hi0 as (_ & Hg & _). pose proof right0 as Hr.
  assert (Hu : 0 <= u1 < 2 ^ 16) by (unfold MACH_PORT_UREFS_MAX in Hu1; lia).
  assert (Hk : ks_ports k = ks_ports k0) by (by rewrite (v_ports _ _ _ _ _ _ _ _ _ _ V), upd_id).
  eapply view_outcome; [exact V| |exact E0| |by rewrite upd_id].
  - eapply (view_inv space sizes out k0 t0 n p e0 P g0 ty0 u0 I E0 Hi0 of_port0 EP out _ ty0);
      [exact V|done|by eapply ghost_ok| |done|cbv iota; lia|].
    + exists u1. split; [done|]. split; [by left|]. cbn. rewrite Eo.
      unfold right_ok in *. rewrite Hk. by destruct Hty as [-> | ->]; destruct Hr as [_ Hr].
    + pose proof (i_ports _ _ _ _ _ I p P EP) as [C1 C2 [C3 C3'] C4 C5 C6 C7 C8].
      eapply (port_step_keep space sizes out k0 t0 n p e0 P g0 ty0 u0 I E0 Hi0 of_port0 EP); try done.
      intros _. lia.
  - rewrite left_port_right by (by destruct Hty as [-> | ->]). by destruct Hty as [-> | ->].
Qed.

Lemma send_gone_outcome P2 cs k t :
  View None (Some (set_io_references (io_references P - 1) P2)) false cs k t ->
  table_step n sizes (srights_down P) P2 -> P2 = request_dropped (ie_request e0) (srights_down P) ->
  ip_active P = true -> ty0 = RSend ->
  Outcome out None (on_port k0 p (λ P, Some (sender_gone (ie_request e0) P))) cs (RState k t true).
Proof.
  intros V [Hrest Hok Hk] HP2 Ha Hty. rewrite on_port_eq. unfold sender_gone. rewrite <- HP2.
  pose proof (own_refs space sizes out k0 t0 n p e0 P g0 ty0 u0 I E0 Hi0 of_port0 EP).
  eapply (live_gone_outcome out (-1) 0 _ P2); try done; try lia.
  all: try (by rewrite Hty).
  all: try (rewrite Hrest; kcbn; by rewrite ?Z.add_0_r).
  rewrite Hty. cbn. lia.
Qed.

Lemma send_urefs : ty0 = RSend \/ ty0 = RSendReceive -> 0 < u0 < MACH_PORT_UREFS_MAX.
Proof. intros Hty. pose proof right0 as Hr. by destruct Hty as [E|E]; rewrite E in Hr; destruct Hr. Qed.

Lemma own_srights : ip_active P = true -> tw_send ty0 = 1 -> 0 < ip_srights P.
Proof.
  intros Ha Hty. pose proof (i_ghost _ _ _ _ _ I p).
  pose proof (own_sends space sizes out k0 t0 n p e0 P g0 ty0 u0 I E0 Hi0 of_port0 EP Ha). lia.
Qed.

Lemma own_sorights : ip_active P = true -> tw_once ty0 = 1 -> 0 < ip_sorights P.
Proof.
  intros Ha Hty. pose proof (i_ghost _ _ _ _ _ I p).
  pose proof (own_sonces space sizes out k0 t0 n p e0 P g0 ty0 u0 I E0 Hi0 of_port0 EP Ha). lia.
Qed.

Lemma dead_bits : ie_bits (dead_entry e0 g0 u0) = fields g0 (tcode RDeadName) (u0 + has_request e0).
Proof. done. Qed.

Lemma p_nonnull : p <> IP_NULL.
Proof. intros Hp. pose proof (i_null _ _ _ _ _ I) as [H _]. rewrite <- Hp in H. congruence. Qed.

Lemma dealloc_dead_runs (Q : Z -> rstate St -> Prop) k t :
  View (Some (dead_entry e0 g0 u0)) (dropped P) false [] k t ->
  tw_send ty0 + tw_once ty0 = 1 -> ip_active P = false -> 0 < u0 < MACH_PORT_UREFS_MAX ->
  (∀ s, Outcome out (less_one RDeadName (u0 + has_request e0)) (on_port k0 p dropped) [] s ->
     Q KERN_SUCCESS s) ->
  runs (e ← get_entry n;
        assert_ (IE_BITS_TYPE (ie_bits e) =? MACH_PORT_TYPE_DEAD_NAME);;
        dealloc_dead_name n (ie_bits e)) Q (RState k t true).
Proof.
  intros V Hty Ha Hu HQ. pose proof Hi0 as (_ & Hg & _). unfold MACH_PORT_UREFS_MAX in Hu.
  assert (0 <= has_request e0 <= 1) by (unfold has_request; destruct (_ =? 0); lia).
  vrun. rewrite dead_bits. type_eval. vrun. rewrite <- dead_bits.
  eapply (v_dead_name _ _ _ _ _ g0 (u0 + has_request e0)); [exact V|split; [done|lia]|lia|done|done|].
  intros t' V'. apply HQ. eapply dead_change_outcome; [done..|exact V'|].
  unfold less_one. destruct (Z.eqb_spec (u0 + has_request e0) 1); [done|]. repeat split; lia.
Qed.

(** *** [ipc_right_dealloc] on each type of right *)

Abbreviation Did := (did space sizes k0 t0 n g0).
Abbreviation req0 := (ie_request e0).

Lemma send_gone_did P2 k t :
  View None (Some (set_io_references (io_references P - 1) P2)) false
    (([] ++ no_senders_calls (last_send P).1 (last_send P).2)
      ++ port_deleted_calls n (request_of P req0)) k t ->
  table_step n sizes (srights_down P) P2 -> P2 = request_dropped req0 (srights_down P) ->
  ip_active P = true -> ty0 = RSend ->
  Did (send_gone out k0 n p RSend req0) KERN_SUCCESS (RState k t true).
Proof.
  intros V Hts HP2 Ha Hty. split; [done|]. cbn [send_gone ef_calls ef_out ef_name ef_ports].
  rewrite last_send_eq, deleted_eq. by apply (send_gone_outcome P2).
Qed.

Lemma dealloc_send : ty0 = RSend ->
  runs (ipc_right_dealloc space n) (Did (dealloc_effect out k0 n p (ip_active P) RSend u0 req0))
    (RState k0 t0 true).
Proof.
  intros Hty. pose proof start_view' as V. pose proof Hi0 as (Eb & Hg & Hu).
  pose proof (send_urefs (or_introl Hty)) as Hu0. pose proof p_nonnull as Hp.
  unfold ipc_right_dealloc. vrun. rewrite Eb. rewrite Hty. type_eval. vrun.
  rewrite Eo. vrun.
  eapply (check_runs space sizes out k0 t0 n p e0 P g0 ty0 u0 I E0 Hi0 of_port0 EP); [done|by rewrite Hty|..].
  - intros Ha. rewrite Ha. pose proof (own_srights Ha ltac:(by rewrite Hty)). cbn [dealloc_effect negb].
    clear V. pose proof start_view' as V. vrun.
    rewrite fields_sub. destruct (Z.eqb_spec u0 1) as [Hu1|Hu1].
    + apply send_gone_runs; [done..|]. intros k t P2 HP2 V2 Hts. vrun. by eapply send_gone_did.
    + rewrite Hty in V. vrun. split; [done|].
      rewrite <- Hty. apply urefs_outcome; [by rewrite Hty|by left|lia].
  - intros Ha k t V2 _. rewrite Ha. cbn [dealloc_effect negb].
    apply (dealloc_dead_runs _ k t V2); [by rewrite Hty|done..].
Qed.

Lemma end_send_once_runs (Q : Z -> rstate St -> Prop) :
  ip_active P = true -> ty0 = RSendOnce ->
  (∀ s, Outcome (one_sonce p out) None (on_port k0 p (λ P, Some (request_dropped req0 P)))
          (mach_notify_send_once p :: deleted_calls k0 p n req0) s -> Q KERN_SUCCESS s) ->
  runs (end_send_once p n) Q (RState k0 t0 true).
Proof.
  intros Ha Hty HQ. pose proof start_view' as V. rewrite bool_decide_false in V by (by rewrite Hty).
  pose proof (i_ports _ _ _ _ _ I p P EP) as [C1 C2 C3 C4 C5 C6 C7 C8].
  unfold end_send_once. vrun.
  eapply (v_cancel _ _ _ _ sizes); [exact V|apply name0|exact Eo|exact Ha|done| |].
  { apply request0; [done|by rewrite Hty]. }
  clear V. intros k1 t1 P2 HP2 V [Hrest Hok Hk]. vrun.
  eapply v_call; [exact V|]. clear V. intros k2 V. vrun. apply HQ.
  rewrite deleted_eq, on_port_eq, <- HP2. cbn [app] in V.
  assert (Hsame : set_io_references (io_references P) P2 = P2) by (rewrite Hrest; by destruct P).
  rewrite <- Hsame in V |- *.
  pose proof (own_refs space sizes out k0 t0 n p e0 P g0 ty0 u0 I E0 Hi0 of_port0 EP).
  apply (live_gone_outcome (one_sonce p out) 0 0 _ P2 (io_references P)); try done;
    unfold one_sonce; rewrite ?decide_True by done; cbn [g_sends g_sonces g_refs]; try lia.
  - by rewrite Hty.
  - by rewrite Hty.
  - by rewrite Hrest.
  - by rewrite Hrest.
  - by rewrite Hrest.
  - by rewrite Hrest.
  - intros q Hq. by rewrite decide_False.
  - rewrite Hrest. kcbn. lia.
  - by rewrite Hty.
  - rewrite Hrest. kcbn. lia.
  - rewrite Hty. cbn. lia.
Qed.

Lemma dealloc_send_once : ty0 = RSendOnce ->
  runs (ipc_right_dealloc space n) (Did (dealloc_effect out k0 n p (ip_active P) RSendOnce u0 req0))
    (RState k0 t0 true).
Proof.
  intros Hty. pose proof start_view' as V. pose proof Hi0 as (Eb & Hg & Hu).
  pose proof right0 as Hr. rewrite Hty in Hr. destruct Hr as [Hu0 _]. pose proof p_nonnull as Hp.
  unfold ipc_right_dealloc. vrun. rewrite Eb. rewrite Hty. type_eval. vrun.
  rewrite Eo. vrun.
  eapply (check_runs space sizes out k0 t0 n p e0 P g0 ty0 u0 I E0 Hi0 of_port0 EP); [done|by rewrite Hty|..].
  - intros Ha. rewrite Ha. pose proof (own_sorights Ha ltac:(by rewrite Hty)). vrun.
    by apply end_send_once_runs.
  - intros Ha k t V2 _. rewrite Ha. cbn [dealloc_effect negb].
    apply (dealloc_dead_runs _ k t V2); [by rewrite Hty|done| |done].
    unfold MACH_PORT_UREFS_MAX. lia.
Qed.

(** The last send reference of a receive right that stays. *)
Lemma send_half_outcome P' k t :
  P' = srights_down P -> ip_active P = true -> ty0 = RSendReceive ->
  View (Some (set_ie_bits (fields g0 (tcode RReceive) 0) e0)) (Some P') false
    (no_senders_calls (last_send P).1 (last_send P).2) k t ->
  Outcome out (Some (RReceive, 0)) (on_port k0 p (λ P, Some (srights_down P)))
    (last_send_calls k0 p) (RState k t true).
Proof.
  intros -> Ha Hty V. pose proof Hi0 as (_ & Hg & _). pose proof right0 as Hr. rewrite Hty in Hr.
  destruct Hr as (_ & P1 & EP1 & Hr). assert (P1 = P) as -> by congruence.
  pose proof (view_port _ _ _ _ _ _ _ _ _ _ V) as EP'. rewrite last_send_eq.
  pose proof (own_sends space sizes out k0 t0 n p e0 P g0 ty0 u0 I E0 Hi0 of_port0 EP Ha) as Hs.
  pose proof (i_ghost _ _ _ _ _ I p).
  assert (Hs1 : tw_send ty0 = 1) by (by rewrite Hty).
  eapply view_outcome; [exact V| |exact E0|by rewrite left_port_right by (by rewrite Hty)|by apply on_port_eq].
  - eapply (view_inv space sizes out k0 t0 n p e0 P g0 ty0 u0 I E0 Hi0 of_port0 EP out _ RReceive);
      [exact V|done|by eapply ghost_ok| |done|rewrite Hty; kcbn; cbn; lia|].
    + exists 0. split; [done|]. split; [by left|]. cbn. rewrite Eo. split; [done|].
      exists (srights_down P). split; [done|]. exact Hr.
    + pose proof (i_ports _ _ _ _ _ I p P EP) as [C1 C2 [C3 C3'] C4 C5 C6 C7 C8].
      eapply (port_step_keep space sizes out k0 t0 n p e0 P g0 ty0 u0 I E0 Hi0 of_port0 EP); try done.
      * by destruct C1.
      * unfold in_range, srights_down. kcbn. lia.
      * intros _. rewrite Hty. kcbn. cbn. lia.
Qed.

Lemma dealloc_send_receive : ty0 = RSendReceive ->
  runs (ipc_right_dealloc space n) (Did (dealloc_effect out k0 n p true RSendReceive u0 req0))
    (RState k0 t0 true).
Proof.
  intros Hty. pose proof start_view' as V. pose proof Hi0 as (Eb & Hg & Hu).
  pose proof (send_urefs (or_intror Hty)) as Hu0. pose proof p_nonnull as Hp.
  pose proof right0 as Hr. rewrite Hty in Hr. destruct Hr as (_ & P1 & EP1 & Ha & Hs & Hn & Hr).
  assert (P1 = P) as -> by congruence.
  pose proof (own_srights Ha ltac:(by rewrite Hty)) as Hsr.
  pose proof (own_sends space sizes out k0 t0 n p e0 P g0 ty0 u0 I E0 Hi0 of_port0 EP Ha) as Hs32.
  unfold ipc_right_dealloc. vrun. rewrite Eb. rewrite Hty. type_eval. vrun.
  rewrite Eo. vrun. cbn [dealloc_effect]. destruct (Z.eqb_spec u0 1) as [Hu1|Hu1].
  - change (IE_BITS_UREFS_MASK ||| MACH_PORT_TYPE_SEND) with (fields 0 1 (Z.ones 16)).
    rewrite drop_bits_urefs by (done || lia). change (Z.ldiff (tcode RSendReceive) 1) with (tcode RReceive).
    rewrite bool_decide_false in V by (by rewrite Hty). vrun; [lia|]. destruct (last_send P) as [ns ms] eqn:El.
    vrun. split; [done|].
    apply (send_half_outcome (srights_down P)); try done. by rewrite El.
  - rewrite fields_sub. rewrite bool_decide_false in V by (by rewrite Hty). vrun. split; [done|].
    rewrite <- Hty. apply urefs_outcome; [|by right|lia].
    rewrite bool_decide_false by (by rewrite Hty). by rewrite Hty.
Qed.

(** *** [ipc_right_delta] on a right to a live port *)

Lemma upper0 : 0 <= g0 < 2 ^ 9.
Proof.
  pose proof Hi0 as (_ & Hg & _). split; [done|].
  eapply (entry_upper space sizes out k0 t0 n e0 g0 ty0 u0 I E0 Hi0).
Qed.

Lemma same_did code : Did (only_name out k0 code (Some (ty0, u0))) code (RState k0 t0 true).
Proof. split; [done|]. by eapply unchanged. Qed.

Lemma delta_send_live d : ip_active P = true -> ty0 = RSend \/ ty0 = RSendReceive -> int_ok d ->
  runs (delta_send space n d) (Did (delta_send_effect out k0 n p ty0 u0 req0 d)) (RState k0 t0 true).
Proof.
  intros Ha Hty Hd. pose proof start_view' as V. pose proof Hi0 as (Eb & Hg & Hu).
  pose proof (send_urefs Hty) as Hu0. pose proof p_nonnull as Hp. pose proof upper0 as Hg9.
  assert (Hs : tw_send ty0 = 1) by (by destruct Hty as [E|E]; rewrite E).
  pose proof (own_srights Ha Hs) as Hsr. unfold MACH_PORT_UREFS_MAX in Hu0.
  pose proof (own_sends space sizes out k0 t0 n p e0 P g0 ty0 u0 I E0 Hi0 of_port0 EP Ha) as Hs32.
  assert (Hhas : has (ie_bits e0) MACH_PORT_TYPE_SEND = true)
    by (rewrite Eb, has_send by done; by destruct Hty as [E|E]; rewrite E).
  unfold delta_send. vrun. rewrite Hhas, Eo. cbn [negb]. vrun.
  eapply (check_runs space sizes out k0 t0 n p e0 P g0 ty0 u0 I E0 Hi0 of_port0 EP); [done| | |congruence].
  { by destruct Hty as [E|E]; rewrite E. }
  intros _. vrun. rewrite Eb, urefs_fields, underflow_eq, overflow_eq by (done || lia).
  unfold delta_send_effect.
  destruct ((d <? 0) && (u0 <? - d)) eqn:Eun; [vrun; apply same_did|].
  destruct ((0 <? d) && (MACH_PORT_UREFS_MAX <? u0 + 1 + d)) eqn:Eov; [vrun; apply same_did|].
  assert (Hud : 0 <= u0 + d < 2 ^ 16 - 1).
  { unfold MACH_PORT_UREFS_MAX in Eov. apply andb_false_iff in Eun, Eov.
    rewrite !Z.ltb_ge in Eun, Eov. lia. }
  rewrite (wrap_small 32 (u0 + d)) by (unfold in_range; lia). rewrite bits_delta by (done || lia).
  destruct (Z.eqb_spec (u0 + d) 0) as [E0'|E0'].
  - destruct Hty as [E|E].
    + rewrite E. type_eval. rewrite bool_decide_true in V by done. vrun; [lia|].
      destruct (last_send P) as [ns ms] eqn:El. vrun.
      eapply cancel_after_drop; [exact V|done..|]. clear V. intros k1 t1 P2 HP2 V Hts Er Hr2.
      vrun; [lia|]. rewrite Er in V. eapply send_gone_did; [by rewrite El|done..].
    + rewrite E. type_eval.
      pose proof right0 as Hr. rewrite E in Hr. destruct Hr as (_ & P1 & EP1 & _ & Hsp & Hn & _).
      assert (P1 = P) as -> by congruence. rewrite bool_decide_false in V by (by rewrite E).
      change (IE_BITS_UREFS_MASK ||| MACH_PORT_TYPE_SEND) with (fields 0 1 (Z.ones 16)).
      rewrite drop_bits_urefs by (done || lia).
      change (Z.ldiff (tcode RSendReceive) 1) with (tcode RReceive).
      vrun; [lia|]. destruct (last_send P) as [ns ms] eqn:El. vrun. split; [done|].
      apply (send_half_outcome (srights_down P)); try done. rewrite El. by rewrite app_nil_r in V.
  - vrun. split; [done|]. cbn [ef_out only_name quiet ef_name ef_ports ef_calls].
    by apply urefs_outcome; [|done|unfold MACH_PORT_UREFS_MAX; lia].
Qed.

Lemma delta_send_dead d : ip_active P = false -> ty0 = RSend ->
  runs (delta_send space n d)
    (Did (found_dead out k0 p KERN_INVALID_RIGHT (Some (RDeadName, u0 + has_request e0))))
    (RState k0 t0 true).
Proof.
  intros Ha Hty. pose proof start_view' as V. pose proof Hi0 as (Eb & Hg & Hu).
  pose proof (send_urefs (or_introl Hty)) as Hu0. pose proof p_nonnull as Hp.
  unfold MACH_PORT_UREFS_MAX in Hu0.
  assert (Hr : 0 <= has_request e0 <= 1) by (unfold has_request; destruct (_ =? 0); lia).
  assert (Hhas : has (ie_bits e0) MACH_PORT_TYPE_SEND = true)
    by (rewrite Eb, has_send by done; by rewrite Hty).
  unfold delta_send. vrun. rewrite Hhas, Eo. cbn [negb]. vrun.
  eapply (check_runs space sizes out k0 t0 n p e0 P g0 ty0 u0 I E0 Hi0 of_port0 EP);
    [done|by rewrite Hty|congruence|]. intros _ k t V2 _. vrun.
  rewrite dead_bits. type_eval. vrun. split; [done|].
  eapply dead_change_outcome; [by rewrite Hty|done|exact V2|]. split; [cbn [dead_shape]; lia|].
  by rewrite set_bits_same.
Qed.

Lemma delta_once_runs d : ty0 = RSendOnce ->
  runs (delta_send_once n d)
    (Did (delta_effect out k0 n p MACH_PORT_RIGHT_SEND_ONCE (ip_active P) RSendOnce u0 req0 d))
    (RState k0 t0 true).
Proof.
  intros Hty. pose proof start_view' as V. pose proof Hi0 as (Eb & Hg & Hu).
  pose proof right0 as Hr0. rewrite Hty in Hr0. destruct Hr0 as [Hu0 _]. pose proof p_nonnull as Hp.
  assert (Hr : 0 <= has_request e0 <= 1) by (unfold has_request; destruct (_ =? 0); lia).
  unfold delta_send_once. vrun. rewrite Eb, Hty. type_eval. vrun. rewrite Eo. vrun.
  unfold delta_effect. cbn [Z.eqb]. change (MACH_PORT_RIGHT_SEND_ONCE =? MACH_PORT_RIGHT_SEND) with false.
  change (MACH_PORT_RIGHT_SEND_ONCE =? MACH_PORT_RIGHT_SEND_ONCE) with true. cbv iota.
  eapply (check_runs space sizes out k0 t0 n p e0 P g0 ty0 u0 I E0 Hi0 of_port0 EP);
    [done|by rewrite Hty|..].
  - intros Ha. rewrite Ha. pose proof (own_sorights Ha ltac:(by rewrite Hty)). vrun.
    cbn [negb]. destruct ((0 <? d) || (d <? -1)).
    { vrun. rewrite <- Hty. apply same_did. }
    destruct (d =? 0); [vrun; rewrite <- Hty; apply same_did|].
    apply end_send_once_runs; [done..|]. intros s Ho. by split.
  - intros Ha k t V2 _. rewrite Ha. cbn [negb]. vrun.
    rewrite dead_bits. type_eval. vrun. split; [done|].
    eapply dead_change_outcome; [by rewrite Hty|done|exact V2|]. unfold has_request in Hr.
    cbn [found_dead quiet ef_name]. split; [cbn [dead_shape]; lia|].
    by rewrite set_bits_same.
Qed.

Lemma delta_dead_runs d : ty0 = RSend \/ ty0 = RSendOnce -> int_ok d ->
  runs (delta_dead_name n d)
    (Did (delta_effect out k0 n p MACH_PORT_RIGHT_DEAD_NAME (ip_active P) ty0 u0 req0 d))
    (RState k0 t0 true).
Proof.
  intros Hty Hd. pose proof start_view' as V. pose proof Hi0 as (Eb & Hg & Hu).
  pose proof p_nonnull as Hp. pose proof upper0 as Hg9.
  assert (Hr : 0 <= has_request e0 <= 1) by (unfold has_request; destruct (_ =? 0); lia).
  assert (Hu0 : 0 < u0 < 2 ^ 16 - 1).
  { pose proof right0 as Hr0. destruct Hty as [E|E]; rewrite E in Hr0; destruct Hr0 as [H _];
      [exact H|by subst]. }
  assert (Hw : tw_send ty0 + tw_once ty0 = 1) by (by destruct Hty as [E|E]; rewrite E).
  assert (Hhas : has (ie_bits e0) MACH_PORT_TYPE_SEND_RIGHTS = true)
    by (rewrite Eb, has_send_rights by done; by destruct Hty as [E|E]; rewrite E).
  unfold delta_dead_name. vrun. rewrite Hhas, Eo. vrun.
  assert (He : delta_effect out k0 n p MACH_PORT_RIGHT_DEAD_NAME (ip_active P) ty0 u0 req0 d =
    if ip_active P then only_name out k0 KERN_INVALID_RIGHT (Some (ty0, u0))
    else delta_dead_effect out (on_port k0 p dropped) (u0 + has_request e0) d) by (by destruct Hty as [E|E]; rewrite E).
  rewrite He.
  eapply (check_runs space sizes out k0 t0 n p e0 P g0 ty0 u0 I E0 Hi0 of_port0 EP); [done|done|..].
  - intros Ha. rewrite Ha. cbn [negb]. vrun. apply same_did.
  - intros Ha k t V2 _. rewrite Ha. cbn [negb].
    eapply (v_dead_delta out (on_port k0 p dropped) k0 t0 n p _ g0 (u0 + has_request e0) d); [exact V2|..]; try done; try lia.
    { split; [done|]. lia. }
    intros t' oe V3 Hoe. split; [done|].
    assert (Hd0 : ∀ ports u, ef_out (delta_dead_effect out ports u d) = out /\
      ef_ports (delta_dead_effect out ports u d) = ports /\ ef_calls (delta_dead_effect out ports u d) = [])
      by (intros; unfold delta_dead_effect; by repeat case_match).
    destruct (Hd0 (on_port k0 p dropped) (u0 + has_request e0)) as (-> & -> & ->).
    by eapply dead_change_outcome.
Qed.
End one_port.

Section one_plain.
Context (out : Z -> ghost) (k0 : kstate) (t0 : St) (n : Z) (e0 : entry).
Context (g0 : Z) (ty0 : rtype) (u0 : Z).
Context (I : inv space sizes out k0 t0) (E0 : es_entries t0 !! n = Some e0).
Context (Hi0 : entry_is e0 g0 ty0 u0).

Abbreviation View := (view k0 t0 n 1).
Abbreviation Outcome := (outcome space sizes k0 t0 n g0).
Abbreviation Did := (did space sizes k0 t0 n g0).

(** A dead name with other user references, or gone. *)
Lemma dead_name_outcome oe o k t : ty0 = RDeadName ->
  View oe (ks_ports k0 !! 1) false [] k t ->
  match o with
  | Some (ty, u) => dead_shape ty u /\ oe = Some (set_ie_bits (fields g0 (tcode ty) u) e0)
  | None => oe = None
  end -> Outcome out o (ks_ports k0) [] (RState k t true).
Proof.
  intros Hty V Ho. pose proof Hi0 as (Eb & Hg & Hu).
  destruct (i_entries _ _ _ _ _ I n e0 E0) as (Hn & g & ty & u & (Eb' & Hg' & Hu') & Hr).
  assert (ty = RDeadName) as ->.
  { pose proof (f_equal IE_BITS_TYPE (eq_trans (eq_sym Eb) Eb')) as E.
    rewrite !type_fields in E by done. rewrite Hty in E. unfold fields in E.
    destruct ty; cbn [tcode] in E; (done || lia). }
  destruct Hr as (_ & Hobj & Hreq).
  eapply plain_outcome; [exact V| |exact E0|].
  - destruct o as [[ty u']|].
    + destruct Ho as (Hsh & ->). apply dead_shape_right in Hsh as (Hu1 & Hw & _ & _ & _ & Hr).
      apply (plain_inv space sizes out k0 t0 n e0 g0 ty0 u0 I E0 Hi0 ltac:(by rewrite Hty) _ ty _ k t V);
        [|done]. exists u'. split; [done|]. cbn. rewrite Hobj, Hreq. apply Hr.
    + subst oe.
      by apply (plain_inv space sizes out k0 t0 n e0 g0 ty0 u0 I E0 Hi0 ltac:(by rewrite Hty) _ RNone _ k t V).
  - destruct o as [[ty u']|]; [|done]. destruct Ho as (Hsh & ->).
    unfold left_entry. rewrite Eb, has_port_rights, Hty by done. by rewrite andb_false_r.
Qed.

Lemma same_outcome : Outcome out (Some (ty0, u0)) (ks_ports k0) [] (RState k0 t0 true).
Proof. by eapply unchanged. Qed.

Lemma dead_right : ty0 = RDeadName -> 0 < u0 /\ ie_object e0 = IO_NULL /\ ie_request e0 = 0.
Proof.
  intros Hty. destruct (i_entries _ _ _ _ _ I n e0 E0) as (Hn & g & ty & u & (Eb' & Hg' & Hu') & Hr).
  pose proof Hi0 as (Eb & Hg & Hu). rewrite Eb in Eb'.
  pose proof (f_equal IE_BITS_TYPE Eb') as E. rewrite !type_fields, Hty in E by done.
  assert (u = u0) as -> by (pose proof (f_equal IE_BITS_UREFS Eb') as E'; by rewrite !urefs_fields in E').
  unfold fields in E. destruct ty; cbn [tcode] in E; (done || lia).
Qed.

Lemma dealloc_dead l : ty0 = RDeadName ->
  runs (ipc_right_dealloc space n)
    (Did (dealloc_effect out k0 n (ie_object e0) l RDeadName u0 (ie_request e0))) (RState k0 t0 true).
Proof.
  intros Hty. pose proof Hi0 as (Eb & Hg & Hu). destruct (dead_right Hty) as (Hu0 & Hobj & Hreq).
  pose proof (plain_view space sizes out k0 t0 n e0 g0 ty0 u0 I E0 Hi0 ltac:(by rewrite Hty)) as V.
  unfold ipc_right_dealloc. vrun. rewrite Eb at 1. rewrite Hty. type_eval. vrun.
  eapply (v_dead_name _ _ _ _ _ g0 u0); [exact V|by rewrite <- Hty|done|done|done|].
  intros t' V'. split; [done|]. eapply dead_name_outcome; [done|exact V'|].
  cbn [dealloc_effect ef_name only_name]. unfold less_one.
  destruct (Z.eqb_spec u0 1); [done|]. repeat split; lia.
Qed.

Lemma dealloc_invalid l : ty0 = RNone \/ ty0 = RPortSet \/ ty0 = RReceive ->
  runs (ipc_right_dealloc space n)
    (Did (dealloc_effect out k0 n (ie_object e0) l ty0 u0 (ie_request e0))) (RState k0 t0 true).
Proof.
  intros Hty. pose proof Hi0 as (Eb & Hg & Hu). pose proof same_outcome as Ho.
  unfold ipc_right_dealloc. apply runs_bind.
  eapply get_entry_runs; [apply I|exact E0|]. rewrite Eb.
  destruct Hty as [E|[E|E]]; rewrite E in *; type_eval; vrun; done.
Qed.

Lemma same_did' code :
  Did (only_name out k0 code (Some (ty0, u0))) code (RState k0 t0 true).
Proof. split; [done|]. apply same_outcome. Qed.

Lemma dead_delta d : ty0 = RDeadName -> int_ok d ->
  runs (delta_dead_name n d) (Did (delta_dead_effect out (ks_ports k0) u0 d)) (RState k0 t0 true).
Proof.
  intros Hty Hd. pose proof Hi0 as (Eb & Hg & Hu). destruct (dead_right Hty) as (Hu0 & Hobj & Hreq).
  pose proof (plain_view space sizes out k0 t0 n e0 g0 ty0 u0 I E0 Hi0 ltac:(by rewrite Hty)) as V.
  destruct (i_entries _ _ _ _ _ I n e0 E0) as [[_ Hup] _]. rewrite (upper_is e0 g0 ty0 u0 Hi0) in Hup.
  unfold delta_dead_name. vrun. rewrite Eb, Hty. type_eval. vrun. cbn [negb].
  eapply (v_dead_delta out (ks_ports k0) k0 t0 n 1 e0 g0 u0 d); [exact V|by rewrite <- Hty|done..|].
  intros t' oe V3 Hoe. split; [done|].
  assert (Hd0 : ef_out (delta_dead_effect out (ks_ports k0) u0 d) = out /\
    ef_ports (delta_dead_effect out (ks_ports k0) u0 d) = ks_ports k0 /\
    ef_calls (delta_dead_effect out (ks_ports k0) u0 d) = [])
    by (unfold delta_dead_effect; by repeat case_match).
  destruct Hd0 as (-> & -> & ->). by eapply dead_name_outcome.
Qed.

(** The rights a name does not have. *)
Lemma delta_invalid right d :
  match right with
  | 0 => tw_send ty0 = 0 | 2 => ty0 <> RSendOnce
  | 4 => tw_send ty0 + tw_once ty0 = 0 /\ ty0 <> RDeadName \/ ty0 = RSendReceive /\
         live k0 (ie_object e0) = true
  | _ => False
  end ->
  runs (ipc_right_delta space n right d) (Did (only_name out k0 KERN_INVALID_RIGHT (Some (ty0, u0))))
    (RState k0 t0 true).
Proof.
  intros Hty. pose proof Hi0 as (Eb & Hg & Hu). pose proof same_did' KERN_INVALID_RIGHT as Hs.
  pose proof I as [I1 _ _ _ _ _ _].
  assert (Hr : right = MACH_PORT_RIGHT_SEND \/ right = MACH_PORT_RIGHT_SEND_ONCE \/
    right = MACH_PORT_RIGHT_DEAD_NAME).
  { destruct right as [|r|r]; [by left| |done]. destruct r as [r|r|]; try done.
    destruct r as [r|r|]; try done; [destruct r; try done; by right; right|by right; left]. }
  unfold ipc_right_delta. apply runs_bind, active_runs, runs_bind, runs_assert; [done|].
  destruct Hr as [->|[->| ->]]; (apply runs_bind, runs_assert; [done|]); cbn [Z.eqb];
    cbv [MACH_PORT_RIGHT_SEND MACH_PORT_RIGHT_SEND_ONCE MACH_PORT_RIGHT_DEAD_NAME
         MACH_PORT_RIGHT_PORT_SET MACH_PORT_RIGHT_RECEIVE] in *; cbn [Z.eqb Pos.eqb];
    unfold delta_send, delta_send_once, delta_dead_name; apply runs_bind;
    (eapply get_entry_runs; [done|exact E0|]); rewrite Eb.
  - rewrite has_send by done. destruct ty0; try done; by apply runs_ret.
  - rewrite has_send_once by done. destruct ty0; try done; by apply runs_ret.
  - destruct Hty as [[Hty Hnd]|[Hty Hl]].
    + rewrite has_send_rights, has_dead_name by done. destruct ty0; try done;
        by apply runs_bind, runs_ret, runs_ret.
    + rewrite has_send_rights by done. rewrite Hty at 1. unfold live in Hl.
      destruct (ks_ports k0 !! ie_object e0) as [P|] eqn:EP; [|done].
      apply runs_bind. apply runs_bind, runs_assert.
      { apply negb_true_iff, Z.eqb_neq. intros Ho. pose proof (i_null _ _ _ _ _ I) as [Hn _].
        rewrite <- Ho in Hn. congruence. }
      unfold ipc_right_check. apply runs_bind, active_runs, runs_bind, runs_assert; [done|].
      apply runs_bind. eapply get_entry_runs; [done|exact E0|].
      apply runs_bind, runs_assert; [apply Z.eqb_refl|]. apply runs_bind.
      eapply get_port_runs; [exact EP|]. rewrite Hl. by apply runs_ret, runs_ret.
Qed.
End one_plain.


(** The port of a right. *)
Lemma right_port out k t n e g ty u : inv space sizes out k t -> es_entries t !! n = Some e ->
  entry_is e g ty u -> tw_refs ty = 1 -> ∃ P, ks_ports k !! ie_object e = Some P /\
    (receives ty = true -> ip_active P = true).
Proof.
  intros I E Hi Hty. pose proof (entry_right space sizes out k t n (ie_object e) e g ty u I E Hi
    (or_introl eq_refl)) as Hr. unfold right_ok in Hr.
  destruct ty; try done; destruct Hr as (_ & P & EP & Hr); exists P; split; try done; tauto.
Qed.

(** C29 (functional): [ipc_right_dealloc] gives up one user reference of a name and keeps the
    space, the ports and the hash table consistent: a dead name, a send right or a right
    whose port has died (which first becomes a dead name, with one more reference for a
    pending request) loses one reference and goes with the last; the last reference to a send
    right makes the port's count of send rights drop, fires its no-senders request at the
    last right of all (and disarms it), cancels the request of the name and gives the entry's
    reference back; a send-once right of a live port goes into a send-once notification with
    its reference; a receive right, a port set and an unused entry are [KERN_INVALID_RIGHT],
    with nothing changed.  The whole state afterwards is stated: every field of the port, the
    other ports, the port sets, the entries and the calls made. *)
Theorem right_dealloc_correct out k t n e g ty u :
  inv space sizes out k t -> es_entries t !! n = Some e -> entry_is e g ty u ->
  runs (ipc_right_dealloc space n) (did space sizes k t n g
    (dealloc_effect out k n (ie_object e) (live k (ie_object e)) ty u (ie_request e)))
    (RState k t true).
Proof.
  intros I E Hi. destruct (decide (tw_refs ty = 1)) as [Hty|Hty].
  - destruct (right_port out k t n e g ty u I E Hi Hty) as (P & EP & Hrec).
    unfold live. rewrite EP. destruct ty; try done.
    + by eapply dealloc_send.
    + eapply dealloc_invalid; auto.
    + rewrite Hrec by done. by eapply dealloc_send_receive.
    + by eapply dealloc_send_once.
  - destruct ty; try done.
    + eapply dealloc_invalid; auto.
    + eapply dealloc_invalid; auto.
    + by eapply dealloc_dead.
Qed.

Lemma delta_dispatch right n d Q (k : kstate) (t : St) :
  right ∈ [MACH_PORT_RIGHT_SEND; MACH_PORT_RIGHT_SEND_ONCE; MACH_PORT_RIGHT_DEAD_NAME] ->
  runs (if right =? MACH_PORT_RIGHT_SEND then delta_send space n d
        else if right =? MACH_PORT_RIGHT_SEND_ONCE then delta_send_once n d
        else delta_dead_name n d) Q (RState k t true) ->
  runs (ipc_right_delta space n right d) Q (RState k t true).
Proof.
  rewrite !elem_of_cons, elem_of_nil. intros [->|[->|[->|[]]]] HQ; unfold ipc_right_delta;
    (apply runs_bind, active_runs, runs_bind, runs_assert; [done|]);
    (apply runs_bind, runs_assert; [done|]); exact HQ.
Qed.

(** C30 (functional): [ipc_right_delta] on the user references of send, send-once and dead
    names, for every 32-bit [delta]: a delta below minus the references is
    [KERN_INVALID_VALUE], one that takes a dead name above 65535 references, or a send
    right above 65534 (a reference stays free for the pending request), is
    [KERN_UREFS_OVERFLOW], both with nothing changed; otherwise the references change by
    the delta, and the name gives its right up at zero, as in [ipc_right_dealloc].  A right
    whose port has died, when its kind or dead names are asked for, is first turned into a
    dead name, on which only the dead-name right acts; a right the name does not have is
    [KERN_INVALID_RIGHT].  The whole state afterwards is stated: every field of the port, the
    other ports, the port sets, the entries and the calls made. *)
Theorem right_delta_correct out k t n e g ty u right d :
  inv space sizes out k t -> es_entries t !! n = Some e -> entry_is e g ty u ->
  right ∈ [MACH_PORT_RIGHT_SEND; MACH_PORT_RIGHT_SEND_ONCE; MACH_PORT_RIGHT_DEAD_NAME] ->
  int_ok d ->
  runs (ipc_right_delta space n right d) (did space sizes k t n g
    (delta_effect out k n (ie_object e) right (live k (ie_object e)) ty u (ie_request e) d))
    (RState k t true).
Proof.
  intros I E Hi Hright Hd.
  assert (Hport : tw_refs ty = 1 -> ∃ P, ks_ports k !! ie_object e = Some P /\
    live k (ie_object e) = ip_active P /\ (receives ty = true -> ip_active P = true)).
  { intros Hty. destruct (right_port out k t n e g ty u I E Hi Hty) as (P & EP & Hrec).
    exists P. unfold live. by rewrite EP. }
  rewrite !elem_of_cons, elem_of_nil in Hright. destruct Hright as [->|[->|[->|[]]]].
  - destruct (decide (tw_send ty = 1)) as [Hty|Hty].
    + destruct Hport as (P & EP & Hl & Hrec); [by destruct ty|]. rewrite Hl.
      apply delta_dispatch; [by left|]. cbn [Z.eqb].
      destruct (ip_active P) eqn:Ha.
      * eapply runs_weaken; [eapply delta_send_live; try done|].
        { destruct ty; try done; auto. }
        intros kr s Hdid. by destruct ty.
      * assert (ty = RSend) as -> by (destruct ty; try done; by specialize (Hrec eq_refl)).
        by eapply delta_send_dead.
    + eapply runs_weaken; [eapply delta_invalid; [done..|by destruct ty]|].
      intros kr s Hdid. by destruct ty.
  - destruct (decide (ty = RSendOnce)) as [->|Hty].
    + destruct Hport as (P & EP & Hl & Hrec); [done|]. rewrite Hl.
      apply delta_dispatch; [by right; left|]. by eapply delta_once_runs.
    + eapply runs_weaken; [eapply delta_invalid; done|]. intros kr s Hdid. by destruct ty.
  - destruct (decide (ty = RDeadName)) as [->|Hty].
    + apply delta_dispatch; [by right; right; left|]. by eapply dead_delta.
    + destruct (decide (ty = RSend \/ ty = RSendOnce)) as [Hty2|Hty2].
      * destruct Hport as (P & EP & Hl & Hrec); [by destruct Hty2 as [-> | ->]|]. rewrite Hl.
        apply delta_dispatch; [by right; right; left|]. by eapply delta_dead_runs.
      * eapply runs_weaken; [eapply delta_invalid; [done..|]|intros kr s Hdid; destruct ty; try done; tauto].
        destruct ty; try tauto; try (by left). right. split; [done|].
        destruct Hport as (P & EP & Hl & Hrec); [done|]. rewrite Hl. by apply Hrec.
Qed.

(** When the receive right of a name that also has send rights goes with
    [ipc_right_delta] and the port has a backup, the port survives in the port-destroyed
    notification, but its count of send rights does not drop although the space has one
    send right less, the no-senders request stays armed and unfired, and the request of
    the name, which now is a dead name, stays in the table of the live port. *)
Theorem backup_keeps_send_count out k t n e g u P :
  inv space sizes out k t -> es_entries t !! n = Some e -> entry_is e g RSendReceive u ->
  ks_ports k !! ie_object e = Some P -> ip_pdrequest P <> IP_NULL ->
  runs (ipc_right_delta space n MACH_PORT_RIGHT_RECEIVE (-1)) (λ kr s, kr = KERN_SUCCESS /\
    (∃ e', es_entries (rs_s s) !! n = Some e' /\ entry_is e' g RDeadName (u + has_request e)) /\
    sends (es_entries (rs_s s)) (ie_object e) = sends (es_entries t) (ie_object e) - 1 /\
    (∃ P', ks_ports (rs_k s) !! ie_object e = Some P' /\ ip_active P' = true /\
       ip_srights P' = ip_srights P /\ ip_nsrequest P' = ip_nsrequest P /\
       ip_dnrequests P' = ip_dnrequests P) /\
    ks_trace (rs_k s) = ks_trace k ++ clear_calls (ie_object e) P
      ++ [mach_notify_port_destroyed (ip_pdrequest P) (ie_object e)]) (RState k t true).
Proof.
  intros I E Hi EP Hpd. set (p := ie_object e) in *.
  assert (Ho : of_port p e RSendReceive) by (by left). pose proof Hi as (Eb & Hg & Hu).
  pose proof (right0 out k t n p e g RSendReceive u I E Hi eq_refl) as (Hu0 & P1 & EP1 & Ha & Hs & Hn & Hr).
  assert (P1 = P) as -> by congruence. unfold MACH_PORT_UREFS_MAX in Hu0.
  pose proof (own_srights out k t n p e P g RSendReceive u I E Hi eq_refl EP Ha eq_refl) as Hsr.
  pose proof (start_view space sizes out k t n p e P g RSendReceive u I E Hi Ho EP) as V.
  pose proof (p_nonnull out k t p P I EP) as Hp. rewrite bool_decide_false in V by done.
  assert (Hr1 : 0 <= has_request e <= 1) by (unfold has_request; destruct (_ =? 0); lia).
  eapply (runs_weaken _ (λ kr s, kr = KERN_SUCCESS /\ ∃ k' t', s = RState k' t' true /\
    view k t n p (Some (dead_entry e g u)) (Some (handed (cleared P))) false
      (clear_calls p P ++ [mach_notify_port_destroyed (ip_pdrequest P) p]) k' t')).
  - unfold ipc_right_delta. vrun.
    change (MACH_PORT_RIGHT_RECEIVE =? MACH_PORT_RIGHT_PORT_SET) with false.
    change (MACH_PORT_RIGHT_RECEIVE =? MACH_PORT_RIGHT_RECEIVE) with true. cbv iota.
    unfold delta_receive. vrun. rewrite Eb. type_eval. fold p.
    change (-1 =? 0) with false. change (-1 =? -1) with true. cbn [negb]. vrun.
    rewrite to_dead_name by done. unfold MACH_PORT_UREFS_MAX. vrun.
    unfold dead_entry. destruct (Z.eqb_spec (ie_request e) 0) as [Er|Er]; cbn [negb]; vrun;
      (eapply v_destroy_backup; [exact V|done..|]); clear V; intros k' V; vrun;
      (split; [done|]; do 2 eexists; split; [done|]; eapply view_eq; [exact V| |done|done|by rewrite app_nil_r]);
      unfold set_ie_object, set_ie_bits, set_ie_request; ecbn; rewrite ?fields_add, ?Er;
      repeat f_equal; lia.
  - cbn beta. intros kr s (-> & k' & t' & -> & V'). split; [done|]. cbn.
    pose proof (view_entry _ _ _ _ _ _ _ _ _ _ V') as Ee.
    assert (Hid : entry_is (dead_entry e g u) g RDeadName (u + has_request e)) by (split; [done|lia]).
    split; [by exists (dead_entry e g u)|]. split.
    { rewrite (v_entries _ _ _ _ _ _ _ _ _ _ V').
      destruct (sums_upd (es_entries t) n p e g RSendReceive u E Hi Ho
        (Some (dead_entry e g u)) RDeadName) as (-> & _ & _); [|cbn; lia].
      split; [by eexists _, _|by right]. }
    split; [|by rewrite (v_trace _ _ _ _ _ _ _ _ _ _ V')].
    exists (handed (cleared P)). by rewrite (view_port _ _ _ _ _ _ _ _ _ _ V').
Qed.
End giving_up.

(** * Concrete spaces *)

(** The finite-map store with one entry [n], of type [ty], for the only port [p]. *)
Definition single_store (n p : Z) (e : entry) (ty : rtype) : spec_store :=
  SpecStore {[n := e]} (if decide (ty = RSend) then {[p := n]} else ∅).
Definition single_kstate (p : Z) (P : ipc_port) : kstate := KState {[p := P]} ∅ ∅ 7 [].
Definition single_out (p : Z) (gh : ghost) : Z -> ghost := λ q,
  if decide (q = p) then gh else Ghost 0 0 0.

Section single.
Context (space : Z) (sizes : list Z) (n p : Z) (e : entry) (P : ipc_port) (gh : ghost).
Context (g : Z) (ty : rtype) (u : Z).

Lemma single_inv :
  entry_is e g ty u -> g < 2 ^ 9 -> of_port p e ty -> p <> IP_NULL -> n <> MACH_PORT_NULL ->
  right_ok space (single_kstate p P) n (ie_object e) (ie_request e) ty u ->
  port_ok sizes P -> (truth (io_bits P &&& IP_BIT_PREALLOC) = true -> ip_premsg P <> 0) ->
  in_range 32 (ip_srights P) /\ in_range 32 (ip_sorights P) ->
  io_references P = g_refs gh + tw_refs ty ->
  g_sends gh + tw_send ty <= ip_srights P -> g_sonces gh + tw_once ty <= ip_sorights P ->
  (ip_receiver P = space -> ip_receiver_name P = n /\ receives ty = true) ->
  0 <= g_sends gh /\ 0 <= g_sonces gh /\
    g_sends gh + g_sonces gh + (if ip_receiver P =? space then 0 else 1) <= g_refs gh ->
  inv space sizes (single_out p gh) (single_kstate p P) (single_store n p e ty).
Proof.
  intros Hi Hg Ho Hp Hn Hr Hok Hpre Hrange Hrefs Hs Hso Hrec Hgh.
  destruct (of_port_holds p e g ty u Hi Ho) as (W1 & W2 & W3).
  assert (Hent : ∀ m e', ({[n := e]} : gmap Z entry) !! m = Some e' -> m = n /\ e' = e)
    by (intros m e' [-> ->]%lookup_singleton_Some; done).
  assert (Hsum : ∀ f, map_sum f ({[n := e]} : gmap Z entry) = f e).
  { intros f. unfold map_sum. rewrite <- insert_empty, map_fold_insert_L; [|lia|done].
    rewrite map_fold_empty. lia. }
  assert (Hhash : ∀ q m, ss_hash (single_store n p e ty) !! q = Some m <->
    (q = p /\ m = n /\ ty = RSend)).
  { intros q m. unfold single_store. cbn. destruct (decide (ty = RSend)); [|by split; [rewrite lookup_empty|intros (_ & _ & ?)]].
    rewrite lookup_singleton_Some. intuition. }
  assert (Hsend : ty = RSend -> ie_object e = p) by (intros ->; by destruct Ho).
  unfold single_out. split; cbn.
  - intros q m (-> & -> & Hty)%Hhash. exists e. cbn. rewrite lookup_singleton_eq. auto.
  - intros m e' [-> ->]%Hent. split; [|by exists g, ty, u].
    split; [done|]. by rewrite (upper_is e g ty u Hi).
  - intros q P' [-> ->]%lookup_singleton_Some. rewrite decide_True by done.
    split; try done; unfold sends, sonces, refs; rewrite ?Hsum, ?W1, ?W2, ?W3; try lia.
    intros _ Hsp. destruct (Hrec Hsp) as [-> Hty]. exists e. rewrite lookup_singleton_eq.
    split; [done|]. destruct Hi as (Eb & ? & ?). rewrite Eb, has_receive by done.
    destruct Ho as [Ho|Ho]; by destruct ty.
  - intros q m. rewrite Hhash. split.
    + intros (-> & -> & Hty). exists e. rewrite lookup_singleton_eq. split; [done|].
      apply (pure_send_is p e g ty u Hi). auto.
    + intros (e' & [-> ->]%Hent & Hps). apply (pure_send_is q e g ty u Hi) in Hps as [Hq Hty].
      rewrite <- Hq. auto.
  - split; [|done]. by rewrite lookup_singleton_ne.
  - intros q. destruct (decide (q = p)); cbn; [destruct (_ =? _)|]; lia.
  - intros q Hq. rewrite decide_False; [done|]. intros ->. by rewrite lookup_singleton_eq in Hq.
Qed.
End single.

(** A live port at 4096 whose receive right is in the space at 512, with [r] references and
    [s] send rights, and an entry with a send right to it. *)
Definition far_port (r s : Z) : ipc_port :=
  Port IO_BITS_ACTIVE r 512 0x103 0 0 s 0 8192 IP_NULL None 0 0.
Definition send_entry (u : Z) : entry := Entry 4096 (fields 5 (tcode RSend) u) 0.

Lemma send_inv u : 0 < u < MACH_PORT_UREFS_MAX ->
  inv 256 i386_dnrequests (single_out 4096 (Ghost 0 0 1)) (single_kstate 4096 (far_port 2 1))
    (single_store 0x203 4096 (send_entry u) RSend).
Proof.
  intros Hu. unfold MACH_PORT_UREFS_MAX in Hu.
  apply (single_inv _ _ _ _ _ _ _ 5 RSend u); try done.
  - split; [done|]. split; [done|lia].
  - by left.
  - split; [unfold MACH_PORT_UREFS_MAX; lia|]. exists (far_port 2 1). split; [done|].
    intros _. split; [done|by left].
Qed.

(** The last reference to a send right: the name goes and the port has no sender. *)
Lemma right_dealloc_correct_witness :
  runs (ipc_right_dealloc 256 0x203)
    (did 256 i386_dnrequests (single_kstate 4096 (far_port 2 1))
      (single_store 0x203 4096 (send_entry 1) RSend) 0x203 5
      (Effect KERN_SUCCESS None
        {[4096 := Port IO_BITS_ACTIVE 1 512 0x103 0 0 0 0 IP_NULL IP_NULL None 0 0]} [mach_notify_no_senders 8192 0]
        (single_out 4096 (Ghost 0 0 1))))
    (RState (single_kstate 4096 (far_port 2 1)) (single_store 0x203 4096 (send_entry 1) RSend) true).
Proof.
  apply (right_dealloc_correct 256 i386_dnrequests (single_out 4096 (Ghost 0 0 1))
    (single_kstate 4096 (far_port 2 1)) (single_store 0x203 4096 (send_entry 1) RSend) 0x203
    (send_entry 1) 5 RSend 1); [by apply send_inv|done|done].
Defined.

(** One more reference than the count can hold. *)
Lemma right_delta_correct_witness :
  runs (ipc_right_delta 256 0x203 MACH_PORT_RIGHT_SEND 65531)
    (did 256 i386_dnrequests (single_kstate 4096 (far_port 2 1))
      (single_store 0x203 4096 (send_entry 4) RSend) 0x203 5
      (Effect KERN_UREFS_OVERFLOW (Some (RSend, 4)) {[4096 := far_port 2 1]} [] (single_out 4096 (Ghost 0 0 1))))
    (RState (single_kstate 4096 (far_port 2 1)) (single_store 0x203 4096 (send_entry 4) RSend) true).
Proof.
  apply (right_delta_correct 256 i386_dnrequests (single_out 4096 (Ghost 0 0 1))
    (single_kstate 4096 (far_port 2 1)) (single_store 0x203 4096 (send_entry 4) RSend) 0x203
    (send_entry 4) 5 RSend 4); [by apply send_inv|done|done|by left|done].
Defined.

(** A live port at 4096 with its receive right and one send right under the name 0x203 of
    the space at 256, a no-senders request and a backup. *)
Definition near_port : ipc_port :=
  Port IO_BITS_ACTIVE 1 256 0x203 0 0 1 0 12288 8192 None 0 0.
Definition both_entry : entry := Entry 4096 (fields 5 (tcode RSendReceive) 1) 0.

Lemma both_inv :
  inv 256 i386_dnrequests (single_out 4096 (Ghost 0 0 0)) (single_kstate 4096 near_port)
    (single_store 0x203 4096 both_entry RSendReceive).
Proof.
  apply (single_inv _ _ _ _ _ _ _ 5 RSendReceive 1); try done.
  - by left.
  - split; [done|]. exists near_port. repeat (split; [done|]). by left.
Qed.

Lemma backup_keeps_send_count_witness :
  runs (ipc_right_delta 256 0x203 MACH_PORT_RIGHT_RECEIVE (-1)) (λ kr s, kr = KERN_SUCCESS /\
    (∃ e', es_entries (rs_s s) !! 0x203 = Some e' /\ entry_is e' 5 RDeadName 1) /\
    sends (es_entries (rs_s s)) 4096 =
      sends (es_entries (single_store 0x203 4096 both_entry RSendReceive)) 4096 - 1 /\
    (∃ P', ks_ports (rs_k s) !! 4096 = Some P' /\ ip_active P' = true /\
       ip_srights P' = 1 /\ ip_nsrequest P' = 12288 /\ ip_dnrequests P' = None) /\
    ks_trace (rs_k s) = ks_trace (single_kstate 4096 near_port)
      ++ clear_calls 4096 near_port ++ [mach_notify_port_destroyed 8192 4096])
    (RState (single_kstate 4096 near_port) (single_store 0x203 4096 both_entry RSendReceive) true).
Proof.
  apply (backup_keeps_send_count 256 i386_dnrequests (single_out 4096 (Ghost 0 0 0))
    (single_kstate 4096 near_port) (single_store 0x203 4096 both_entry RSendReceive) 0x203
    both_entry 5 1 near_port); [apply both_inv|done|done|done|done].
Defined.

End IpcRightSpec.
