(* ===== verification/IpcRightMove.v ===== *)
(** Rights that move in and out of messages, [ipc_right_copyin], [ipc_right_copyin_check],
    [ipc_right_copyin_undo] and [ipc_right_copyout] of IpcRight: what each transfer does to
    the name, to the port's counts and to the rights in messages. *)

From S2P Require Import Prelude.
From S2P Require Import IpcTable.
From S2P Require Import IpcPort.
From S2P Require Import IpcStore.
From S2P Require Import IpcRight.
From S2P Require Import IpcRightSpec.
Import IpcTable.IpcTable IpcPort.IpcPort IpcStore.IpcStore IpcRight.IpcRight.
Import IpcRightSpec.IpcRightSpec.

Module IpcRightMove.

(** * The rights in messages *)

(** [s] send rights, [o] send-once rights and [r] references more outside of the space. *)
Definition moved (p s o r : Z) (out : Z -> ghost) : Z -> ghost := λ q,
  if decide (q = p)
  then Ghost (g_sends (out p) + s) (g_sonces (out p) + o) (g_refs (out p) + r) else out q.

Lemma moved_ne p s o r out q : q <> p -> moved p s o r out q = out q.
Proof. intros. unfold moved. by rewrite decide_False. Qed.
Lemma moved_eq p s o r out : moved p s o r out p =
  Ghost (g_sends (out p) + s) (g_sonces (out p) + o) (g_refs (out p) + r).
Proof. unfold moved. by rewrite decide_True. Qed.

(** A transfer: the code, the object and the request that [ipc_right_copyin] returns, what
    becomes of the name and of the ports, the calls and the rights outside. *)
Record transfer := Transfer {
  tr_result : Z * Z * Z;
  tr_name : option (rtype * Z);
  tr_ports : gmap Z ipc_port;
  tr_calls : list call;
  tr_out : Z -> ghost }.

Definition transferred {St} `{!EntryStore St} (space : Z) (sizes : list Z) (k0 : kstate) (t0 : St)
    (n g : Z) (tr : transfer) (res : Z * Z * Z) (s : rstate St) : Prop :=
  res = tr_result tr /\
  outcome space sizes k0 t0 n g (tr_out tr) (tr_name tr) (tr_ports tr) (tr_calls tr) s.

(** The port with one more reference; with a send right more, made here (which the make-send
    count records) or not; with a send-once right more; and while its receive right is in a
    message. *)
Definition one_more_ref (P : ipc_port) : ipc_port := set_io_references (io_references P + 1) P.
Definition one_more_send (made : bool) (P : ipc_port) : ipc_port :=
  set_ip_mscount (if made then u32 (ip_mscount P + 1) else ip_mscount P)
    (set_ip_srights (ip_srights P + 1) (one_more_ref P)).
Definition one_more_sonce (P : ipc_port) : ipc_port :=
  set_ip_sorights (ip_sorights P + 1) (one_more_ref P).
Definition in_message (P : ipc_port) : ipc_port :=
  set_ip_data IP_NULL (set_ip_receiver_name MACH_PORT_NULL (cleared P)).

Section effects.
Context (out : Z -> ghost) (k : kstate) (n p : Z).

(** The request in slot [r] of the port. *)
Definition request_in (r : Z) : Z :=
  match ks_ports k !! p with Some P => request_of P r | None => IP_NULL end.

(** The ports when [p] becomes [f] of it. *)
Definition port_is (f : ipc_port -> ipc_port) : gmap Z ipc_port := on_port k p (λ P, Some (f P)).

Definition refused (ports : gmap Z ipc_port) (ty : rtype) (u : Z) : transfer :=
  Transfer (KERN_INVALID_RIGHT, 0, 0) (Some (ty, u)) ports [] out.

(** A copy of, or one reference of, a dead name. *)
Definition dead_copied (ports : gmap Z ipc_port) (deadok : bool) (u : Z) : transfer :=
  if deadok then Transfer (KERN_SUCCESS, IO_DEAD, IP_NULL) (Some (RDeadName, u)) ports [] out
  else refused ports RDeadName u.
Definition dead_moved (ports : gmap Z ipc_port) (deadok : bool) (u : Z) : transfer :=
  if deadok then
    Transfer (KERN_SUCCESS, IO_DEAD, IP_NULL)
      (Some (if u =? 1 then (RNone, 0) else (RDeadName, u - 1))) ports [] out
  else refused ports RDeadName u.

(** A new send right, or a new send-once right, for the message. *)
Definition send_made (made : bool) (ty : rtype) (u : Z) : transfer :=
  Transfer (KERN_SUCCESS, p, IP_NULL) (Some (ty, u)) (port_is (one_more_send made)) [] (moved p 1 0 1 out).
Definition sonce_made (ty : rtype) (u : Z) : transfer :=
  Transfer (KERN_SUCCESS, p, IP_NULL) (Some (ty, u)) (port_is one_more_sonce) [] (moved p 0 1 1 out).

(** One reference of a send right for the message: the last one takes the right along, and
    the entry's reference to the port with it. *)
Definition send_moved (ty : rtype) (u r : Z) : transfer :=
  if u =? 1 then
    match ty with
    | RSendReceive =>
        Transfer (KERN_SUCCESS, p, IP_NULL) (Some (RReceive, 0)) (port_is one_more_ref) [] (moved p 1 0 1 out)
    | _ =>
        Transfer (KERN_SUCCESS, p, request_in r) (Some (RNone, 0)) (port_is (request_dropped r)) []
          (moved p 1 0 1 out)
    end
  else send_made false ty (u - 1).

Definition sonce_moved (r : Z) : transfer :=
  Transfer (KERN_SUCCESS, p, request_in r) (Some (RNone, 0)) (port_is (request_dropped r)) []
    (moved p 0 1 1 out).

(** The receive right for the message; a send right of the same name stays. *)
Definition receive_moved (ty : rtype) (u r : Z) : transfer :=
  let calls := match ks_ports k !! p with Some P => clear_calls p P | None => [] end in
  match ty with
  | RSendReceive =>
      Transfer (KERN_SUCCESS, p, IP_NULL) (Some (RSend, u)) (port_is (λ P, in_message (one_more_ref P)))
        calls (moved p 0 0 1 out)
  | _ =>
      Transfer (KERN_SUCCESS, p, request_in r) (Some (RNone, 0))
        (port_is (λ P, in_message (request_dropped r P))) calls (moved p 0 0 1 out)
  end.

(** [ipc_right_copyin] of a name of type [ty] with [u] user references and request [r]. *)
Definition copyin_effect (msgt_name : Z) (deadok live : bool) (ty : rtype) (u r : Z) : transfer :=
  let u' := u + if r =? 0 then 0 else 1 in
  let none := refused (ks_ports k) ty u in
  let found := on_port k p dropped in
  if msgt_name =? MACH_MSG_TYPE_MAKE_SEND then
    if receives ty then send_made true ty u else none
  else if msgt_name =? MACH_MSG_TYPE_MAKE_SEND_ONCE then
    if receives ty then sonce_made ty u else none
  else if msgt_name =? MACH_MSG_TYPE_MOVE_RECEIVE then
    if receives ty then receive_moved ty u r else none
  else if msgt_name =? MACH_MSG_TYPE_COPY_SEND then
    match ty with
    | RDeadName => dead_copied (ks_ports k) deadok u
    | RSend => if live then send_made false ty u else dead_copied found deadok u'
    | RSendReceive => send_made false ty u
    | RSendOnce => if live then none else dead_copied found deadok u'
    | _ => none
    end
  else if msgt_name =? MACH_MSG_TYPE_MOVE_SEND then
    match ty with
    | RDeadName => dead_moved (ks_ports k) deadok u
    | RSend => if live then send_moved ty u r else dead_moved found deadok u'
    | RSendReceive => send_moved ty u r
    | RSendOnce => if live then none else dead_moved found deadok u'
    | _ => none
    end
  else
    match ty with
    | RDeadName => dead_moved (ks_ports k) deadok u
    | RSend => if live then none else dead_moved found deadok u'
    | RSendReceive => none
    | RSendOnce => if live then sonce_moved r else dead_moved found deadok u'
    | _ => none
    end.
End effects.

(** ** Dead names *)

Definition dead_tr (out : Z -> ghost) (ports : gmap Z ipc_port) (move deadok : bool) (u : Z) : transfer :=
  if move then dead_moved out ports deadok u else dead_copied out ports deadok u.

Lemma dead_tr_quiet out ports move deadok u :
  tr_ports (dead_tr out ports move deadok u) = ports /\
  tr_calls (dead_tr out ports move deadok u) = [] /\ tr_out (dead_tr out ports move deadok u) = out.
Proof. by destruct move, deadok. Qed.

Section dead_names.
Context {St : Type} `{!EntryStore St}.

(** The labels [copy_dead] and [move_dead]. *)
Lemma v_dead_tr out ports k0 t0 n p e g u oP cs k t b move deadok (Q : Z * Z * Z -> rstate St -> Prop) :
  view k0 t0 n p (Some e) oP false cs k t -> entry_is e g RDeadName u -> 0 < u ->
  ie_request e = 0 -> ie_object e = IO_NULL ->
  (∀ t' oe, view k0 t0 n p oe oP false cs k t' ->
     match tr_name (dead_tr out ports move deadok u) with
     | Some (ty, u') => dead_shape ty u' /\ oe = Some (set_ie_bits (fields g (tcode ty) u') e)
     | None => oe = None
     end -> Q (tr_result (dead_tr out ports move deadok u)) (RState k t' b)) ->
  runs (if move then move_dead n deadok else copy_dead n deadok) Q (RState k t b).
Proof.
  intros V (Eb & Hg & Hu) Hu0 Hr Ho HQ. change IO_NULL with 0 in Ho.
  assert (Hsame : dead_shape RDeadName u /\ Some e = Some (set_ie_bits (fields g (tcode RDeadName) u) e))
    by (rewrite (set_bits_same e) by done; split; [cbn [dead_shape]; lia|done]).
  destruct move; cbn [dead_tr] in HQ; [unfold move_dead|unfold copy_dead]; vrun;
    rewrite Eb; type_eval; vrun; unfold dead_moved, dead_copied in HQ;
    destruct deadok; cbn [negb refused tr_name tr_result] in *;
    try (vrun; by apply (HQ _ _ V)).
  destruct (Z.eqb_spec u 1) as [->|Hu1].
  - change MACH_PORT_TYPE_DEAD_NAME with (fields 0 16 0). rewrite drop_bits by (done || lia).
    change (Z.ldiff (tcode RDeadName) 16) with (tcode RNone). rewrite fields_sub. vrun.
    by apply (HQ _ _ V).
  - rewrite fields_sub. vrun. apply (HQ _ _ V). split; [cbn [dead_shape]; lia|done].
Qed.
End dead_names.

(** * A reference from outside of the space *)

Section release.
Context {St : Type} `{!EntryStore St} (space : Z) (sizes : list Z).
Context (out : Z -> ghost) (k : kstate) (t : St) (d : Z) (D : ipc_port).
Context (I : inv space sizes out k t) (ED : ks_ports k !! d = Some D).
Context (Hheld : g_sends (out d) + g_sonces (out d)
  + (if ip_active D && negb (ip_receiver D =? space) then 1 else 0) < g_refs (out d)).

Definition released_k : kstate := set_ks_ports (upd d (dropped D) (ks_ports k)) k.

Lemma release_counts : g_refs (out d) + refs (es_entries t) d = io_references D /\
  0 <= refs (es_entries t) d /\ 0 <= g_sends (out d) /\ 0 <= g_sonces (out d) /\
  0 < io_references D < IO_MAX_REFERENCES.
Proof.
  destruct (i_ports _ _ _ _ _ I d D ED) as [[? _] _ _ C _ _ _ _]. pose proof (i_ghost _ _ _ _ _ I d).
  pose proof (map_sum_nonneg _ (es_entries t) (holds_nonneg MACH_PORT_TYPE_PORT_RIGHTS d)).
  unfold refs in *. lia.
Qed.

Lemma release_entry m e : es_entries t !! m = Some e -> entry_ok space released_k m e.
Proof.
  intros Ee. destruct (i_entries _ _ _ _ _ I m e Ee) as (Hm & g & ty & u & Hi & Hr).
  split; [done|]. exists g, ty, u. split; [done|]. unfold released_k.
  destruct (decide (ie_object e = d)) as [Ho|Ho].
  2:{ apply (right_ok_frame space k); [done| |done]. cbn. rewrite upd_ne by done. by destruct ty. }
  assert (Hone : tw_refs ty = 1 -> dropped D = Some (set_io_references (io_references D - 1) D)).
  { intros Hty. pose proof release_counts as (Hc & _ & ? & ? & _).
    pose proof (refs_own _ _ d _ _ _ _ Ee Hi (or_introl Ho)).
    unfold dropped. destruct (ip_active D && _); rewrite (proj2 (Z.eqb_neq _ 1)) by lia; done. }
  unfold right_ok in *. rewrite Ho in *. cbn [ks_ports set_ks_ports ks_psets]. rewrite upd_eq.
  destruct ty; try done; rewrite Hone by done;
    destruct Hr as (Hu & D1 & ED1 & Hr); (assert (D1 = D) as -> by congruence);
    (split; [done|]); eexists; (split; [done|]); exact Hr.
Qed.

Lemma release_inv : inv space sizes (moved d 0 0 (-1) out) released_k t.
Proof.
  pose proof release_counts as (Hc & Hr & Hgs & Hgo & Hrefs). pose proof I as [I1 I2 I3 I4 [I5 I5'] I6 I7].
  assert (Hn : d <> IP_NULL) by (intros ->; congruence).
  assert (Hlt : g_sends (out d) + g_sonces (out d) < g_refs (out d)) by (destruct (_ && _); lia).
  split; cbn; try done.
  - exact release_entry.
  - intros q Q. destruct (decide (q = d)) as [->|Hq].
    2:{ rewrite upd_ne, moved_ne by done. apply I3. }
    rewrite upd_eq, moved_eq. unfold dropped. destruct (Z.eqb_spec (io_references D) 1); [done|].
    intros [= <-]. destruct (I3 d D ED) as [[C1 C1'] C2 C3 C4 C5 C6 C7 C8].
    split; kcbn; try done; cbn [g_sends g_sonces g_refs]; try lia.
    + split; kcbn; [lia|done].
    + intros Ha. specialize (C5 Ha). lia.
    + intros Ha. specialize (C6 Ha). lia.
    + intros Ha. change (ip_active D = true) in Ha. rewrite Ha in Hheld. cbn [andb] in Hheld.
      destruct (ip_receiver D =? space); cbn [negb] in Hheld; lia.
  - by rewrite upd_ne.
  - intros q. destruct (decide (q = d)) as [->|Hq]; [|rewrite moved_ne by done; apply I6].
    rewrite moved_eq. cbn [g_sends g_sonces g_refs]. lia.
  - intros q. destruct (decide (q = d)) as [->|Hq]; [|rewrite upd_ne, moved_ne by done; apply I7].
    rewrite upd_eq, moved_eq. unfold dropped. destruct (Z.eqb_spec (io_references D) 1); [|done].
    cbn [g_refs]. lia.
Qed.

Lemma inv_release b (Q : unit -> rstate St -> Prop) :
  (inv space sizes (moved d 0 0 (-1) out) released_k t -> Q tt (RState released_k t b)) ->
  runs (onK (ipc_port_release d)) Q (RState k t b).
Proof.
  intros HQ. pose proof release_counts as (_ & _ & _ & _ & Hrefs). apply runs_onK.
  eapply release_runs; [exact ED|lia|].
  replace (set_ks_ports (drop_ref d D (ks_ports k)) k) with released_k; [by apply HQ, release_inv|].
  unfold released_k, drop_ref, dropped. by destruct (_ =? 1).
Qed.
End release.

(** * One entry and its port *)

Section one_port.
Context {St : Type} `{!EntryStore St} (space : Z) (sizes : list Z).
Context (out : Z -> ghost) (k0 : kstate) (t0 : St) (n p : Z) (e0 : entry) (P : ipc_port).
Context (g0 : Z) (ty0 : rtype) (u0 : Z).
Context (I : inv space sizes out k0 t0) (E0 : es_entries t0 !! n = Some e0).
Context (Hi0 : entry_is e0 g0 ty0 u0) (Eo : ie_object e0 = p) (EP : ks_ports k0 !! p = Some P).

Abbreviation View := (view k0 t0 n p).
Abbreviation Outcome := (outcome space sizes k0 t0 n g0).
Abbreviation Ho0 := (@or_introl (ie_object e0 = p) (tw_refs ty0 = 0) Eo).
Abbreviation Done := (transferred space sizes k0 t0 n g0).
Abbreviation port_on := (port_is k0 p).

(** The port stays where it is; the entry gets type [ty1]. *)
Lemma step_outcome e1 ty1 u1 s o r ds dso cs P' h k t :
  View (Some e1) (Some P') h cs k t -> ip_active P = true ->
  io_bits P' = io_bits P -> ip_data P' = ip_data P -> ip_receiver_name P' = ip_receiver_name P ->
  ip_premsg P' = ip_premsg P -> port_ok sizes P' ->
  (∀ m q, m <> n -> request_ok P m q -> request_ok P' m q) ->
  e1 = left_entry g0 ty1 u1 e0 -> entry_is e1 g0 ty1 u1 -> of_port p e1 ty1 ->
  right_ok space k n (ie_object e1) (ie_request e1) ty1 u1 ->
  h = bool_decide (ty1 = RSend) -> (receives ty0 = true -> receives ty1 = true) ->
  0 <= g_sends (out p) + s -> 0 <= g_sonces (out p) + o -> s + o <= r ->
  io_references P' = io_references P + r + tw_refs ty1 - tw_refs ty0 ->
  ip_srights P' = ip_srights P + ds -> s + tw_send ty1 - tw_send ty0 <= ds ->
  ip_sorights P' = ip_sorights P + dso -> o + tw_once ty1 - tw_once ty0 <= dso ->
  in_range 32 (ip_srights P') -> in_range 32 (ip_sorights P') ->
  Outcome (moved p s o r out) (Some (ty1, u1)) (upd p (Some P') (ks_ports k0)) cs (RState k t true).
Proof.
  intros V Ha Hb Hd Hn Hpm Hok Hreq Hleft He Ho Hr Hh Hrec Hs0 Hso0 Hsr Hrefs Hds Hds' Hdso Hdso' Hr1 Hr2.
  pose proof (ghost_ok space sizes out k0 t0 p I) as Hgh.
  eapply view_outcome; [exact V| |exact E0|by rewrite Hleft|done].
  eapply (view_inv space sizes out k0 t0 n p e0 P g0 ty0 u0 I E0 Hi0 Ho0 EP _ _ ty1); [exact V|..].
  - intros. by apply moved_ne.
  - rewrite moved_eq. cbn. lia.
  - by exists u1.
  - done.
  - rewrite moved_eq. cbn [g_refs]. lia.
  - rewrite moved_eq.
    eapply (port_step_keep space sizes out k0 t0 n p e0 P g0 ty0 u0 I E0 Hi0 Ho0 EP); try done.
    intros _. cbn [g_sends g_sonces g_refs]. lia.
Qed.

(** ** Facts about the entry *)

Lemma port_is_eq f : port_on f = upd p (Some (f P)) (ks_ports k0).
Proof. unfold port_is, on_port. by rewrite EP. Qed.

(** What is left of an entry that keeps its object. *)
Lemma left_keeps ty u : tw_refs ty = 1 -> left_entry g0 ty u e0 = set_ie_bits (fields g0 (tcode ty) u) e0.
Proof. unfold left_entry. by intros ->. Qed.
Lemma left_emptied u : tw_refs ty0 = 1 -> left_entry g0 RNone u e0 = Entry IO_NULL (fields g0 (tcode RNone) u) 0.
Proof.
  intros Hty. pose proof Hi0 as (Eb & Hg & Hu). unfold left_entry. rewrite Eb, has_port_rights by done.
  by destruct ty0.
Qed.

Lemma right_now : right_ok space k0 n p (ie_request e0) ty0 u0.
Proof. by eapply right0. Qed.

Lemma is_receiver : receives ty0 = true ->
  ip_active P = true /\ ip_receiver P = space /\ ip_receiver_name P = n.
Proof.
  intros Hty. pose proof right_now as Hr. unfold right_ok in Hr.
  destruct ty0; try done; destruct Hr as (_ & P1 & EP1 & ? & ? & ? & _);
    (assert (P1 = P) as -> by congruence); done.
Qed.

Lemma request_now : ip_active P = true -> tw_refs ty0 = 1 -> request_ok P n (ie_request e0).
Proof. by eapply request0. Qed.

Lemma table_now : match ip_dnrequests P with
  | Some (a, tb) => a <> 0 /\ ∃ fl, table_ok sizes tb fl | None => True end.
Proof. by destruct (i_ports _ _ _ _ _ I p P EP) as [[_ ?] _ _ _ _ _ _ _]. Qed.

Lemma refs_now : 0 < io_references P < IO_MAX_REFERENCES.
Proof. by destruct (i_ports _ _ _ _ _ I p P EP) as [[? _] _ _ _ _ _ _ _]. Qed.

Lemma counts_now : 0 <= ip_srights P /\ 0 <= ip_sorights P.
Proof. destruct (i_ports _ _ _ _ _ I p P EP) as [_ _ [[? _] [? _]] _ _ _ _ _]. done. Qed.

(** Nobody receives from a live port without a receiver's name. *)
Lemma elsewhere : ip_active P = true -> ip_receiver_name P = MACH_PORT_NULL -> ip_receiver P <> space.
Proof.
  intros Ha Hn Hs. destruct (i_ports _ _ _ _ _ I p P EP) as [_ _ _ _ _ _ C7 _].
  destruct (C7 Ha Hs) as (e & Ee & _). rewrite Hn in Ee.
  by destruct (i_entries _ _ _ _ _ I _ _ Ee) as [[? _] _].
Qed.

(** The right the entry has after a change of the counts of the port. *)
Lemma right_then k P' u1 : ks_ports k !! p = Some P' -> io_bits P' = io_bits P ->
  ip_data P' = ip_data P -> ip_receiver_name P' = ip_receiver_name P ->
  ip_dnrequests P' = ip_dnrequests P -> tw_refs ty0 = 1 ->
  match ty0 with RSend | RSendReceive => 0 < u1 < MACH_PORT_UREFS_MAX | _ => u1 = u0 end ->
  right_ok space k n p (ie_request e0) ty0 u1.
Proof.
  intros EP' Hb Hd Hn Ht Hty Hu. pose proof right_now as Hr.
  assert (Ha : ip_active P' = ip_active P) by (unfold ip_active; by rewrite Hb).
  assert (Hq : request_ok P n (ie_request e0) -> request_ok P' n (ie_request e0))
    by (unfold request_ok; by rewrite Ht).
  unfold right_ok in *.
  destruct ty0; try done; destruct Hr as (Hu0 & P1 & EP1 & Hr);
    (assert (P1 = P) as -> by congruence); (split; [by subst|]); exists P'; (split; [done|]);
    rewrite ?Ha, ?Hd, ?Hn; intuition.
Qed.

(** ** Rights that arrive *)

Lemma none_right : ty0 = RNone -> u0 = 0 /\ ie_request e0 = 0.
Proof. intros E. pose proof right_now as Hr. by rewrite E in Hr. Qed.

(** One right less outside: the entry takes the right and the reference of the message, or
    merges with them. *)
Lemma arrived_outcome e1 ty1 u1 s o ds P' h k t :
  View (Some e1) (Some P') h [] k t -> ip_active P = true ->
  P' = set_io_references (io_references P') (set_ip_srights (ip_srights P') P) ->
  e1 = left_entry g0 ty1 u1 e0 -> entry_is e1 g0 ty1 u1 -> of_port p e1 ty1 ->
  right_ok space k n (ie_object e1) (ie_request e1) ty1 u1 ->
  h = bool_decide (ty1 = RSend) -> (receives ty0 = true -> receives ty1 = true) ->
  0 <= s <= g_sends (out p) -> 0 <= o <= g_sonces (out p) -> s + o = 1 ->
  io_references P' = io_references P - 1 + tw_refs ty1 - tw_refs ty0 -> 0 < io_references P' ->
  ip_srights P' = ip_srights P + ds -> tw_send ty1 - tw_send ty0 - s <= ds <= 0 -> 0 <= ip_srights P' ->
  tw_once ty1 - tw_once ty0 <= o -> tw_refs ty1 <= 1 ->
  Outcome (moved p (- s) (- o) (-1) out) (Some (ty1, u1)) (upd p (Some P') (ks_ports k0)) [] (RState k t true).
Proof.
  intros V Ha HP' Hleft He Ho Hr Hh Hrec Hs Ho1 Hso Hrefs Hpos Hds Hds' Hsr Hdso Hw.
  pose proof (ghost_ok space sizes out k0 t0 p I). pose proof refs_now. pose proof counts_now.
  assert (Hrange : in_range 32 (ip_srights P) /\ in_range 32 (ip_sorights P))
    by (by destruct (i_ports _ _ _ _ _ I p P EP)).
  assert (Hw0 : 0 <= tw_refs ty0) by (by destruct ty0). unfold in_range in Hrange.
  assert (Hf : io_bits P' = io_bits P /\ ip_data P' = ip_data P /\ ip_receiver_name P' = ip_receiver_name P
    /\ ip_premsg P' = ip_premsg P /\ ip_dnrequests P' = ip_dnrequests P /\ ip_sorights P' = ip_sorights P)
    by (by rewrite HP').
  destruct Hf as (F1 & F2 & F3 & F4 & F5 & F6).
  eapply (step_outcome e1 ty1 u1 (- s) (- o) (-1) ds 0); try eassumption; unfold in_range; try lia.
  - split; [lia|]. rewrite F5. exact table_now.
  - intros m q _. unfold request_ok. by rewrite F5.
Qed.

(** [ipc_right_copyout] of a send-once right to a new name. *)
Lemma once_arrives : ip_active P = true -> ty0 = RNone -> 1 <= g_sonces (out p) ->
  runs (copyout_send_once n p) (λ kr s, kr = KERN_SUCCESS /\
    Outcome (moved p 0 (-1) (-1) out) (Some (RSendOnce, 1)) (ks_ports k0) [] s) (RState k0 t0 true).
Proof.
  intros Ha E Hgo. pose proof (start_view space sizes out k0 t0 n p e0 P g0 ty0 u0 I E0 Hi0 Ho0 EP) as V.
  pose proof Hi0 as (Eb & Hg & Hu). destruct (none_right E) as [Hu0 Hq]. pose proof refs_now as Hrefs.
  pose proof (own_sonces space sizes out k0 t0 n p e0 P g0 ty0 u0 I E0 Hi0 Ho0 EP Ha) as Hso.
  pose proof counts_now as Hc. pose proof (ghost_ok space sizes out k0 t0 p I).
  rewrite E in Hso. cbn [tw_once] in Hso.
  unfold copyout_send_once. rewrite bool_decide_false in V by (by rewrite E).
  vstep. vstep. rewrite Eb, E, Hu0. change (MACH_PORT_TYPE_SEND_ONCE ||| 1) with (fields 0 4 1).
  rewrite (fields_lor g0 (tcode RNone) 0 0 4 1) by (done || (cbn; lia)). rewrite Z.lor_0_r.
  change (tcode RNone ||| 4) with (tcode RSendOnce). change (0 ||| 1) with 1. type_eval. vrun.
  split; [done|]. rewrite <- (upd_id p (Some P) (ks_ports k0)) by done. apply (arrived_outcome _ RSendOnce 1 0 1 0 P false) in V; [done|..]; try done.
  all: try (rewrite ?E; cbn [tw_refs tw_send tw_once]; lia).
  - by destruct P.
  - by left.
  - cbn [set_ie_bits ie_object ie_request]. rewrite Eo. split; [done|]. exists P.
    split; [by eapply view_port|]. intros _. by left.
  - by rewrite E.
Qed.

(** The port when a send right of a message merges with the one of a name: its count and its
    reference go. *)
Definition merged (P : ipc_port) : ipc_port :=
  set_io_references (io_references P - 1) (set_ip_srights (ip_srights P - 1) P).

(** The send right merges into the send right of the name. *)
Lemma merged_outcome u1 k t :
  View (Some (set_ie_bits (fields g0 (tcode ty0) u1) e0))
    (Some (merged P))
    (bool_decide (ty0 = RSend)) [] k t ->
  ip_active P = true -> tw_send ty0 = 1 -> 1 <= g_sends (out p) -> 0 < u1 < MACH_PORT_UREFS_MAX ->
  Outcome (moved p (-1) 0 (-1) out) (Some (ty0, u1)) (port_on merged) [] (RState k t true).
Proof.
  intros V Ha Hty Hgs Hu1. pose proof Hi0 as (_ & Hg & _). pose proof V as V'. rewrite port_is_eq.
  pose proof (own_sends space sizes out k0 t0 n p e0 P g0 ty0 u0 I E0 Hi0 Ho0 EP Ha) as Hs.
  pose proof (own_refs space sizes out k0 t0 n p e0 P g0 ty0 u0 I E0 Hi0 Ho0 EP) as Hr.
  pose proof (ghost_ok space sizes out k0 t0 p I) as Hgh.
  assert (Hw : tw_refs ty0 = 1) by (by destruct ty0). unfold MACH_PORT_UREFS_MAX in Hu1.
  apply (arrived_outcome _ ty0 u1 1 0 (-1)) in V'; unfold merged; try done; try (kcbn; lia).
  - by rewrite left_keeps.
  - split; [done|]. split; [done|lia].
  - by left.
  - cbn [set_ie_bits ie_object ie_request]. rewrite Eo.
    eapply right_then; [eapply view_port; exact V|done..|].
    unfold MACH_PORT_UREFS_MAX. destruct ty0; try done; lia.
Qed.

(** The name takes the message's send right: it had no send right of the port. *)
Lemma taken_send_outcome ty1 k t : ip_active P = true ->
  ty1 = match ty0 with RReceive => RSendReceive | _ => RSend end ->
  ty0 = RReceive \/ ty0 = RNone /\ ip_receiver P <> space ->
  1 <= g_sends (out p) ->
  View (Some (set_ie_bits (fields g0 (tcode ty1) 1) e0))
    (Some (set_io_references (io_references P - tw_refs ty0) P)) (bool_decide (ty1 = RSend)) [] k t ->
  Outcome (moved p (-1) 0 (-1) out) (Some (ty1, 1))
    (upd p (Some (set_io_references (io_references P - tw_refs ty0) P)) (ks_ports k0)) [] (RState k t true).
Proof.
  intros Ha Hty1 Hty Hgs V. pose proof Hi0 as (_ & Hg & _). pose proof V as V'.
  pose proof (own_refs space sizes out k0 t0 n p e0 P g0 ty0 u0 I E0 Hi0 Ho0 EP) as Hr.
  pose proof (own_sends space sizes out k0 t0 n p e0 P g0 ty0 u0 I E0 Hi0 Ho0 EP Ha) as Hs.
  pose proof (ghost_ok space sizes out k0 t0 p I) as Hgh. pose proof counts_now.
  pose proof right_now as Hrt. pose proof (view_port _ _ _ _ _ _ _ _ _ _ V) as EP'.
  apply (arrived_outcome _ ty1 1 1 0 0) in V'; try done;
    destruct Hty as [E|[E Hsp]]; rewrite E in *; subst ty1;
    cbn [tw_refs tw_send tw_once] in *; try done; try (kcbn; lia);
    try (by left); try (by destruct P); cbn [set_ie_bits ie_object ie_request]; rewrite Eo.
  - destruct Hrt as (_ & P1 & EP1 & R1 & R2 & R3 & R4). assert (P1 = P) as -> by congruence.
    split; [by unfold MACH_PORT_UREFS_MAX|]. eexists. split; [exact EP'|]. done.
  - destruct Hrt as [_ Hq]. rewrite Hq. split; [by unfold MACH_PORT_UREFS_MAX|].
    eexists. split; [exact EP'|]. intros _. split; [done|by left].
Qed.

(** The port when the receiver's name takes a send right, and has the reference already. *)
Definition one_ref_less (P : ipc_port) : ipc_port := set_io_references (io_references P - 1) P.

(** One send reference more for a name of type [ty] with [u]; a right that merges gives its
    count back. *)
Definition send_arrived (overflow : bool) (ty : rtype) (u : Z) : effect :=
  let here := moved p (-1) 0 (-1) out in
  match ty with
  | RSend | RSendReceive =>
      if u + 1 =? MACH_PORT_UREFS_MAX then
        if overflow then Effect KERN_SUCCESS (Some (ty, u)) (port_on merged) [] here
        else Effect KERN_UREFS_OVERFLOW (Some (ty, u)) (ks_ports k0) [] out
      else Effect KERN_SUCCESS (Some (ty, u + 1)) (port_on merged) [] here
  | RReceive => Effect KERN_SUCCESS (Some (RSendReceive, 1)) (port_on one_ref_less) [] here
  | _ => Effect KERN_SUCCESS (Some (RSend, 1)) (ks_ports k0) [] here
  end.

Lemma send_arrives overflow : ip_active P = true -> 1 <= g_sends (out p) ->
  tw_send ty0 = 1 \/ ty0 = RReceive \/ ty0 = RNone /\ ip_receiver P <> space ->
  (∀ m, m <> n -> es_hash t0 !! p <> Some m) ->
  runs (copyout_send n overflow p) (did space sizes k0 t0 n g0 (send_arrived overflow ty0 u0))
    (RState k0 t0 true).
Proof.
  intros Ha Hgs Hty Hno. pose proof Hi0 as (Eb & Hg & Hu).
  pose proof (start_view space sizes out k0 t0 n p e0 P g0 ty0 u0 I E0 Hi0 Ho0 EP) as V.
  pose proof (own_refs space sizes out k0 t0 n p e0 P g0 ty0 u0 I E0 Hi0 Ho0 EP) as Hr.
  pose proof (own_sends space sizes out k0 t0 n p e0 P g0 ty0 u0 I E0 Hi0 Ho0 EP Ha) as Hs.
  pose proof (ghost_ok space sizes out k0 t0 p I) as Hgh. pose proof counts_now as Hc.
  pose proof right_now as Hrt. pose proof (p_nonnull space sizes out k0 t0 p P I EP) as Hp.
  assert (0 <= tw_send ty0) by (by destruct ty0).
  assert (Hbits : ((ie_bits e0 ||| MACH_PORT_TYPE_SEND) + 1) = fields g0 (tcode ty0 ||| 1) (u0 + 1)).
  { rewrite Eb. change MACH_PORT_TYPE_SEND with (fields 0 1 0). rewrite add_bits by (done || lia).
    apply fields_add. }
  unfold copyout_send. vstep. vstep. rewrite Hbits. vstep. vstep. vstep. vstep.
  rewrite Eb, has_send, has_receive, urefs_fields by done.
  destruct Hty as [Hty|Hty].
  - assert (Hw : tw_refs ty0 = 1) by (by destruct ty0).
    assert (Hu1 : 0 < u0 < MACH_PORT_UREFS_MAX) by (destruct ty0; try done; by destruct Hrt).
    assert (Hc1 : tcode ty0 ||| 1 = tcode ty0) by (by destruct ty0). rewrite Hc1.
    assert (Hmatch : ∀ A (x y z : A), match ty0 with RSend | RSendReceive => x | RReceive => y | _ => z end = x)
      by (by destruct ty0).
    unfold send_arrived. rewrite !Hmatch. unfold MACH_PORT_UREFS_MAX in *. vrun.
    destruct (Z.eqb_spec (u0 + 1) (2 ^ 16 - 1)) as [Hu2|Hu2].
    + destruct overflow; vrun; [lia| |].
      * rewrite wrap_small in V by (unfold in_range; lia). vrun. split; [done|].
        apply merged_outcome; try done.
        by rewrite set_bits_same.
      * split; [done|]. by eapply same_outcome.
    + vrun; [lia|]. rewrite wrap_small in V by (unfold in_range; lia). vrun. split; [done|].
      apply merged_outcome; try done. unfold MACH_PORT_UREFS_MAX; lia.
  - assert (Hty' : ty0 = RReceive \/ ty0 = RNone /\ ip_receiver P <> space) by done.
    destruct Hty as [E|[E Hsp]]; rewrite E in Hrt |- *; destruct Hrt as [Hu0 Hrt]; rewrite Hu0.
    + change (tcode RReceive ||| 1) with (tcode RSendReceive). type_eval. rewrite E in Hr.
      rewrite bool_decide_false in V by (by rewrite E). cbn [tw_refs] in Hr. vrun; [lia|].
      split; [done|]. cbn [send_arrived ef_ports ef_name ef_out ef_calls]. rewrite port_is_eq. unfold one_ref_less.
      replace (io_references P - 1) with (io_references P - tw_refs ty0) by (by rewrite E).
      apply (taken_send_outcome RSendReceive); try done; by rewrite E.
    + change (tcode RNone ||| 1) with (tcode RSend). type_eval.
      rewrite bool_decide_false in V by (by rewrite E). vrun.
      eapply v_hash_insert; [exact V|done..|]. clear V. intros t V. vrun.
      assert (Hsame : set_io_references (io_references P - tw_refs ty0) P = P)
        by (rewrite E; cbn [tw_refs]; rewrite Z.sub_0_r; by destruct P).
      split; [done|]. cbn [send_arrived ef_ports ef_name ef_out ef_calls].
      rewrite <- (upd_id p (Some P) (ks_ports k0)), <- Hsame by done.
      apply (taken_send_outcome RSend); rewrite ?Hsame; rewrite ?E; try done; by right.
Qed.


(** A live port whose receive right is in a message: nobody receives from it.  It is in limbo,
    or in transit to [ip_destination], the port whose queue the message is in, to which the
    message has a reference. *)
Definition in_transit (Q : ipc_port) : Prop :=
  ip_receiver_name Q = MACH_PORT_NULL /\ ip_mscount Q = 0.

(** The port with the receive right in the space, and with the reference that its name [n] of
    type [ty] has already. *)
Definition received (ty : rtype) (P : ipc_port) : ipc_port :=
  set_io_references (io_references P - tw_refs ty) (set_ip_data space (set_ip_receiver_name n P)).

(** The name becomes the receiver. *)
Lemma receiver_outcome e1 ty1 k t : ip_active P = true -> in_transit P ->
  (∀ m, m <> n -> es_hash t0 !! p <> Some m) ->
  ty1 = match ty0 with RSend => RSendReceive | _ => RReceive end ->
  ty0 = RSend \/ ty0 = RNone -> e1 = set_ie_bits (fields g0 (tcode ty1) u0) e0 ->
  View (Some e1) (Some (received ty0 P)) false [] k t ->
  Outcome (moved p 0 0 (-1) out) (Some (ty1, u0)) (port_on (received ty0)) [] (RState k t true).
Proof.
  intros Ha (Hrn & Hms) Hno Hty1 Hty He1 V. pose proof Hi0 as (Eb & Hg & Hu).
  pose proof (own_refs space sizes out k0 t0 n p e0 P g0 ty0 u0 I E0 Hi0 Ho0 EP) as Hr.
  pose proof (ghost_ok space sizes out k0 t0 p I) as Hgh. pose proof right_now as Hrt.
  pose proof (view_port _ _ _ _ _ _ _ _ _ _ V) as EP'.
  destruct (i_ports _ _ _ _ _ I p P EP) as [C1 C2 C3 C4 C5 C6 C7 C8]. specialize (C8 Ha).
  rewrite (proj2 (Z.eqb_neq (ip_data P) space)) in C8 by (by apply elsewhere).
  assert (Hw : tw_refs ty1 = 1 /\ tw_send ty1 = tw_send ty0 /\ tw_once ty1 = tw_once ty0 /\
    receives ty1 = true /\ ty1 <> RSend /\ 0 <= tw_refs ty0 <= 1)
    by (rewrite Hty1; by destruct Hty as [-> | ->]).
  destruct Hw as (W1 & W2 & W3 & W4 & W5 & W6).
  eapply view_outcome; [exact V| |exact E0|by rewrite left_keeps, He1|by rewrite port_is_eq].
  eapply (view_inv space sizes out k0 t0 n p e0 P g0 ty0 u0 I E0 Hi0 Ho0 EP _ _ ty1); [exact V|..].
  - intros. by apply moved_ne.
  - rewrite moved_eq. cbn. lia.
  - exists u0. rewrite He1. split; [done|]. split; [by left|].
    cbn [set_ie_bits ie_object ie_request]. rewrite Eo. rewrite Hty1.
    destruct Hty as [E|E]; rewrite E in Hrt, EP' |- *.
    + destruct Hrt as (Hu0 & P1 & EP1 & Hq). assert (P1 = P) as -> by congruence.
      split; [done|]. eexists. split; [exact EP'|]. repeat (split; [done|]). by apply Hq.
    + destruct Hrt as (Hu0 & Hq). split; [done|]. eexists. split; [exact EP'|].
      repeat (split; [done|]). by left.
  - by rewrite bool_decide_false.
  - rewrite moved_eq. cbn [g_refs]. unfold received. kcbn. lia.
  - rewrite moved_eq. unfold received. split; kcbn; try done.
    + destruct C1. split; kcbn; [lia|done].
    + intros _. split; [done|]. cbn [g_sends g_sonces g_refs]. rewrite Z.eqb_refl. lia.
    + by right.
    + intros _ Hs. by destruct (elsewhere Ha Hrn).
    + by left.
Qed.

(** The reference of the message to the destination: it comes on top of those of the rights in
    messages. *)
Definition dest_held (gh : ghost) (D : ipc_port) : Prop :=
  g_sends gh + g_sonces gh + (if ip_active D && negb (ip_receiver D =? space) then 1 else 0) < g_refs gh.

(** The ports and the rights outside when the reference to the destination [d] goes. *)
Definition dest_left (d : Z) (ports : gmap Z ipc_port) : gmap Z ipc_port :=
  if d =? IP_NULL then ports
  else match ports !! d with Some D => upd d (dropped D) ports | None => ports end.
Definition dest_out (d : Z) (out : Z -> ghost) : Z -> ghost :=
  if d =? IP_NULL then out else moved d 0 0 (-1) out.

Definition receive_arrived (ty : rtype) (u : Z) : effect :=
  Effect KERN_SUCCESS (Some (match ty with RSend => RSendReceive | _ => RReceive end, u))
    (dest_left (ip_destination P) (port_on (received ty))) []
    (dest_out (ip_destination P) (moved p 0 0 (-1) out)).

(** The reference to the destination goes. *)
Lemma dest_leaves ty1 k t : ip_active P = true -> ip_receiver_name P = MACH_PORT_NULL ->
  (ip_destination P <> IP_NULL -> ip_destination P <> p /\
     ∃ D, ks_ports k0 !! ip_destination P = Some D /\ dest_held (out (ip_destination P)) D) ->
  Outcome (moved p 0 0 (-1) out) (Some (ty1, u0)) (port_on (received ty0)) [] (RState k t true) ->
  runs (if negb (ip_destination P =? IP_NULL) then onK (ipc_port_release (ip_destination P)) else mret tt)
    (λ _ s, runs (mret KERN_SUCCESS) (λ kr s', kr = KERN_SUCCESS /\
       Outcome (dest_out (ip_destination P) (moved p 0 0 (-1) out)) (Some (ty1, u0))
         (dest_left (ip_destination P) (port_on (received ty0))) [] s') s) (RState k t true).
Proof.
  intros Ha Hrn Hd Ho. unfold dest_out, dest_left.
  destruct (Z.eqb_spec (ip_destination P) IP_NULL) as [E|E]; cbn [negb].
  { apply runs_ret, runs_ret. by split. }
  destruct (Hd E) as (Hp & D & ED & Hheld). destruct Ho as [_ O2 O3 O4]. cbn [rs_k rs_s] in *.
  assert (ED' : ks_ports k !! ip_destination P = Some D).
  { rewrite O4. cbn. rewrite port_is_eq. by rewrite upd_ne. }
  eapply (inv_release space sizes _ k t _ D); [exact O2|exact ED'| |].
  { unfold dest_held in Hheld. by rewrite moved_ne. }
  intros I'. apply runs_ret. split; [done|]. split; cbn [rs_active rs_k rs_s]; [done|exact I'|exact O3|].
  rewrite O4 in ED' |- *. cbn in ED'. cbn. by rewrite ED'.
Qed.

Lemma receive_arrives : ip_active P = true -> in_transit P ->
  (ip_destination P <> IP_NULL -> ip_destination P <> p /\
     ∃ D, ks_ports k0 !! ip_destination P = Some D /\ dest_held (out (ip_destination P)) D) ->
  (∀ m, m <> n -> es_hash t0 !! p <> Some m) -> ty0 = RSend \/ ty0 = RNone ->
  runs (copyout_receive space n p) (did space sizes k0 t0 n g0 (receive_arrived ty0 u0))
    (RState k0 t0 true).
Proof.
  intros Ha Htr Hdest Hno Hty. pose proof Hi0 as (Eb & Hg & Hu). pose proof Htr as (Hrn & Hms).
  pose proof (start_view space sizes out k0 t0 n p e0 P g0 ty0 u0 I E0 Hi0 Ho0 EP) as V.
  pose proof (own_refs space sizes out k0 t0 n p e0 P g0 ty0 u0 I E0 Hi0 Ho0 EP) as Hr.
  pose proof (own_sends space sizes out k0 t0 n p e0 P g0 ty0 u0 I E0 Hi0 Ho0 EP Ha) as Hs.
  pose proof (ghost_ok space sizes out k0 t0 p I) as Hgh. pose proof right_now as Hrt.
  unfold copyout_receive. vstep. vstep. rewrite Eb, has_receive, has_send, urefs_fields by done.
  change MACH_PORT_TYPE_RECEIVE with (fields 0 2 0). rewrite add_bits by (done || lia).
  unfold receive_arrived, did. cbn [ef_code ef_name ef_ports ef_calls ef_out].
  destruct Hty as [E|E]; rewrite E in Hrt, Hr, Hs |- *; cbn [tw_refs tw_send] in *; type_eval.
  - destruct Hrt as [[Hu0 _] _]. change (tcode RSend ||| 2) with (tcode RSendReceive).
    rewrite bool_decide_true in V by done. vrun; [lia|].
    rewrite <- E. apply dest_leaves; [done..|].
    eapply (receiver_outcome _ RSendReceive); [done..|by rewrite E|by left|done|].
    rewrite E. exact V.
  - destruct Hrt as [Hu0 _]. change (tcode RNone ||| 2) with (tcode RReceive).
    rewrite bool_decide_false in V by (by rewrite E). vrun. rewrite <- E. apply dest_leaves; [done..|].
    eapply (receiver_outcome _ RReceive); [done..|by rewrite E|by right|done|].
    rewrite E. unfold received. cbn [tw_refs]. rewrite Z.sub_0_r. destruct P. exact V.
Qed.

(** What the kernel assumes of the counts: there is room for one more right. *)
Context (Hroom : io_references P + 1 < IO_MAX_REFERENCES /\ ip_srights P + 1 < 2 ^ 32 /\
                 ip_sorights P + 1 < 2 ^ 32).

(** A right leaves for a message. *)
Lemma keep_outcome e1 ty1 u1 s o r ds dso cs P' h k t :
  View (Some e1) (Some P') h cs k t -> ip_active P = true ->
  io_bits P' = io_bits P -> ip_data P' = ip_data P -> ip_receiver_name P' = ip_receiver_name P ->
  ip_premsg P' = ip_premsg P ->
  match ip_dnrequests P' with Some (a, tb) => a <> 0 /\ ∃ fl, table_ok sizes tb fl | None => True end ->
  (∀ m q, m <> n -> request_ok P m q -> request_ok P' m q) ->
  e1 = left_entry g0 ty1 u1 e0 -> entry_is e1 g0 ty1 u1 -> of_port p e1 ty1 ->
  right_ok space k n (ie_object e1) (ie_request e1) ty1 u1 ->
  h = bool_decide (ty1 = RSend) -> (receives ty0 = true -> receives ty1 = true) ->
  0 <= s -> 0 <= o -> s + o <= r -> r <= 1 ->
  io_references P' = io_references P + r + tw_refs ty1 - tw_refs ty0 -> 0 < io_references P' ->
  ip_srights P' = ip_srights P + ds -> s + tw_send ty1 - tw_send ty0 <= ds <= 1 ->
  ip_sorights P' = ip_sorights P + dso -> o + tw_once ty1 - tw_once ty0 <= dso <= 1 ->
  0 <= ds -> 0 <= dso -> tw_refs ty1 <= tw_refs ty0 ->
  Outcome (moved p s o r out) (Some (ty1, u1)) (upd p (Some P') (ks_ports k0)) cs (RState k t true).
Proof.
  intros. pose proof (ghost_ok space sizes out k0 t0 p I) as Hgh. pose proof refs_now.
  pose proof counts_now. eapply (step_outcome _ _ _ _ _ _ ds dso); try eassumption; try lia;
    try (unfold in_range; lia). split; [lia|done].
Qed.

(** ** New rights for a message *)

Ltac room := kcbn; rewrite ?wrap_small by (unfold in_range; lia); lia.

Lemma made_outcome s o f u1 k t :
  View (Some (set_ie_bits (fields g0 (tcode ty0) u1) e0)) (Some (f P))
    (bool_decide (ty0 = RSend)) [] k t ->
  f P = set_io_references (io_references P + 1) (set_ip_srights (ip_srights P + s)
    (set_ip_sorights (ip_sorights P + o) (set_ip_mscount (ip_mscount (f P)) P))) ->
  ip_active P = true -> tw_refs ty0 = 1 -> 0 <= s -> 0 <= o -> s + o = 1 ->
  match ty0 with RSend | RSendReceive => 0 < u1 < MACH_PORT_UREFS_MAX | _ => u1 = u0 end ->
  Outcome (moved p s o 1 out) (Some (ty0, u1)) (port_on f) [] (RState k t true).
Proof.
  intros V Hf Ha Hty Hs Ho Hso Hu1. rewrite port_is_eq. rewrite Hf in V |- *. pose proof refs_now. pose proof Hi0 as (Eb & Hg & Hu).
  assert (Hu1' : 0 <= u1 < 2 ^ 16) by (unfold MACH_PORT_UREFS_MAX in Hu1; destruct ty0; lia).
  eapply (keep_outcome _ _ _ _ _ _ s o); [exact V|..]; try done; try (kcbn; lia).
  - exact table_now.
  - by rewrite left_keeps.
  - by left.
  - cbn [set_ie_bits ie_object ie_request]. rewrite Eo.
    by eapply right_then; [eapply view_port; exact V|..].
Qed.

Lemma same_urefs : tw_refs ty0 = 1 ->
  match ty0 with RSend | RSendReceive => 0 < u0 < MACH_PORT_UREFS_MAX | _ => u0 = u0 end.
Proof. intros Hty. pose proof right_now as Hr. destruct ty0; try done; by destruct Hr. Qed.

Lemma made_view oP h k t : View (Some e0) oP h [] k t ->
  View (Some (set_ie_bits (fields g0 (tcode ty0) u0) e0)) oP h [] k t.
Proof. intros V. pose proof Hi0 as (Eb & _). by rewrite set_bits_same. Qed.

Lemma make_send_runs : receives ty0 = true ->
  runs (copyin_make_send space n) (Done (send_made out k0 p true ty0 u0)) (RState k0 t0 true).
Proof.
  intros Hty. pose proof (start_view space sizes out k0 t0 n p e0 P g0 ty0 u0 I E0 Hi0 Ho0 EP) as V.
  destruct (is_receiver Hty) as (Ha & Hs & Hn). pose proof Hi0 as (Eb & Hg & Hu).
  pose proof (p_nonnull space sizes out k0 t0 p P I EP) as Hp. pose proof refs_now. pose proof counts_now.
  assert (Hhas : has (ie_bits e0) MACH_PORT_TYPE_RECEIVE = true)
    by (rewrite Eb, has_receive by done; by destruct ty0).
  unfold copyin_make_send. vrun. rewrite Hhas. cbn [negb]. unfold receive_port. vrun. rewrite Eo. vrun.
  { lia. }
  split; [done|]. apply (made_outcome 1 0 (one_more_send true)); [| |done|by destruct ty0|done|done|done|apply same_urefs; by destruct ty0].
  { apply made_view. rewrite wrap_small in V by (unfold in_range; lia). by destruct P. }
  destruct P; cbn; by rewrite Z.add_0_r.
Qed.

Lemma make_sonce_runs : receives ty0 = true ->
  runs (copyin_make_send_once space n) (Done (sonce_made out k0 p ty0 u0)) (RState k0 t0 true).
Proof.
  intros Hty. pose proof (start_view space sizes out k0 t0 n p e0 P g0 ty0 u0 I E0 Hi0 Ho0 EP) as V.
  destruct (is_receiver Hty) as (Ha & Hs & Hn). pose proof Hi0 as (Eb & Hg & Hu).
  pose proof (p_nonnull space sizes out k0 t0 p P I EP) as Hp. pose proof refs_now. pose proof counts_now.
  assert (Hhas : has (ie_bits e0) MACH_PORT_TYPE_RECEIVE = true)
    by (rewrite Eb, has_receive by done; by destruct ty0).
  unfold copyin_make_send_once. vrun. rewrite Hhas. cbn [negb]. unfold receive_port. vrun.
  rewrite Eo. vrun.
  { lia. }
  split; [done|]. apply (made_outcome 0 1 one_more_sonce); [| |done|by destruct ty0|done|done|done|apply same_urefs; by destruct ty0].
  { apply made_view. rewrite wrap_small in V by (unfold in_range; lia). by destruct P. }
  destruct P; cbn; by rewrite Z.add_0_r.
Qed.

(** ** A right found dead *)

Lemma dead_transfer (move deadok : bool) k t :
  View (Some (dead_entry e0 g0 u0)) (dropped P) false [] k t ->
  tw_send ty0 + tw_once ty0 = 1 -> ip_active P = false -> 0 < u0 < 2 ^ 16 - 1 ->
  runs (if move then move_dead n deadok else copy_dead n deadok)
    (Done (dead_tr out (on_port k0 p dropped) move deadok (u0 + has_request e0))) (RState k t true).
Proof.
  intros V Hty Ha Hu. pose proof Hi0 as (_ & Hg & _).
  assert (0 <= has_request e0 <= 1) by (unfold has_request; destruct (_ =? 0); lia).
  eapply (v_dead_tr out (on_port k0 p dropped) k0 t0 n p _ g0 (u0 + has_request e0)); [exact V| |lia|done|done|].
  { split; [done|lia]. }
  intros t' oe V' Hoe. split; [done|].
  destruct (dead_tr_quiet out (on_port k0 p dropped) move deadok (u0 + has_request e0)) as (-> & -> & ->).
  by eapply dead_change_outcome.
Qed.

Lemma urefs_now : tw_send ty0 + tw_once ty0 = 1 -> 0 < u0 < 2 ^ 16 - 1.
Proof.
  pose proof right_now as Hr. unfold right_ok, MACH_PORT_UREFS_MAX in Hr.
  destruct ty0; cbn; try lia; destruct Hr as [Hu _]; lia.
Qed.

Lemma refused_now : Done (refused out (ks_ports k0) ty0 u0) (KERN_INVALID_RIGHT, 0, 0) (RState k0 t0 true).
Proof. split; [done|]. by eapply unchanged. Qed.

(** ** Send rights *)

(** The start of the transfers of send rights, up to the case of a live right. *)
Lemma sender_starts (move deadok : bool) (rest : kern (rstate St) (Z * Z * Z)) (Q : Z * Z * Z -> rstate St -> Prop) :
  tw_send ty0 + tw_once ty0 = 1 ->
  (ip_active P = false -> ∀ s res, Done (dead_tr out (on_port k0 p dropped) move deadok (u0 + has_request e0)) res s -> Q res s) ->
  (ip_active P = true -> runs rest Q (RState k0 t0 true)) ->
  runs (ipc_right_check p n ≫= λ died : bool,
        if died then (if move then move_dead n deadok else copy_dead n deadok) else rest)
    Q (RState k0 t0 true).
Proof.
  intros Hty Hdead Hlive. apply runs_bind.
  eapply (check_runs space sizes out k0 t0 n p e0 P g0 ty0 u0 I E0 Hi0 Ho0 EP); [done|done|done|].
  intros Ha k t V _. eapply runs_weaken; [apply dead_transfer; [done..|by apply urefs_now]|].
  intros res s. by apply Hdead.
Qed.

Lemma copy_send_runs deadok : tw_send ty0 + tw_once ty0 = 1 ->
  runs (copyin_copy_send n deadok)
    (Done (if ip_active P then if tw_send ty0 =? 1 then send_made out k0 p false ty0 u0
             else refused out (ks_ports k0) ty0 u0
           else dead_copied out (on_port k0 p dropped) deadok (u0 + has_request e0))) (RState k0 t0 true).
Proof.
  intros Hty. pose proof (start_view space sizes out k0 t0 n p e0 P g0 ty0 u0 I E0 Hi0 Ho0 EP) as V.
  pose proof Hi0 as (Eb & Hg & Hu). pose proof (p_nonnull space sizes out k0 t0 p P I EP) as Hp.
  pose proof (urefs_now Hty) as Hu0. pose proof refs_now. pose proof counts_now.
  assert (Hd : has (ie_bits e0) MACH_PORT_TYPE_DEAD_NAME = false /\
    has (ie_bits e0) MACH_PORT_TYPE_SEND_RIGHTS = true /\
    has (ie_bits e0) MACH_PORT_TYPE_SEND = (tw_send ty0 =? 1)).
  { rewrite Eb, has_dead_name, has_send_rights, has_send by done. by destruct ty0. }
  destruct Hd as (Hd1 & Hd2 & Hd3).
  unfold copyin_copy_send. vstep. vstep. rewrite Hd1, Hd2, Hd3, Eo. cbn [negb].
  rewrite Eb. type_eval. vstep. vstep. vstep. vstep.
  apply (sender_starts false deadok); [done|..].
  { intros Ha s res Hdone. by rewrite Ha. }
  intros Ha. rewrite Ha. destruct (Z.eqb_spec (tw_send ty0) 1) as [Hs|Hs]; cbn [negb].
  - pose proof (own_srights space sizes out k0 t0 n p e0 P g0 ty0 u0 I E0 Hi0 Eo EP Ha Hs). vrun; [lia|].
    split; [done|]. apply (made_outcome 1 0 (one_more_send false)); [| |done|by destruct ty0|done|done|done|apply same_urefs; by destruct ty0].
    { apply made_view. rewrite wrap_small in V by (unfold in_range; lia). by destruct P. }
    destruct P; cbn; by rewrite Z.add_0_r.
  - assert (Ht : tw_once ty0 = 1) by (destruct ty0; cbn in *; lia).
    pose proof (own_sorights space sizes out k0 t0 n p e0 P g0 ty0 u0 I E0 Hi0 Eo EP Ha Ht).
    assert (ty0 = RSendOnce) as E by (by destruct ty0). unfold invalid_right.
    vstep. apply runs_assert; [by rewrite E|]. vrun. apply refused_now.
Qed.

(** The right leaves the name for the message, with the reference of the entry. *)
Lemma taken_outcome s o P2 k t : P2 = request_dropped (ie_request e0) P ->
  View (Some (Entry IO_NULL (fields g0 (tcode RNone) 0) 0)) (Some P2) false [] k t ->
  table_step n sizes P P2 -> ip_active P = true -> receives ty0 = false ->
  s = tw_send ty0 -> o = tw_once ty0 -> s + o = 1 ->
  Outcome (moved p s o 1 out) (Some (RNone, 0)) (port_on (request_dropped (ie_request e0))) []
    (RState k t true).
Proof.
  intros HP2 V [Hrest [_ Htab] Hk] Ha Hrec Hs Ho Hso. pose proof Hi0 as (_ & Hg & _). pose proof refs_now.
  assert (Hw : tw_refs ty0 = 1 /\ 0 <= s /\ 0 <= o) by (subst; destruct ty0; cbn in *; lia).
  destruct Hw as (Hw & Hs0 & Ho00).
  assert (Hc : io_references P2 = io_references P /\ ip_srights P2 = ip_srights P /\
    ip_sorights P2 = ip_sorights P) by (by rewrite Hrest).
  rewrite port_is_eq, <- HP2. eapply (keep_outcome _ RNone _ _ _ _ 0 0); [exact V|done|..]; try done.
  all: try (by rewrite Hrest).
  all: try (by rewrite left_emptied).
  all: try (cbn [tw_refs tw_send tw_once]; lia).
  - by right.
  - by rewrite Hrec.
Qed.

Lemma request_eq : request_in k0 p (ie_request e0) = request_of P (ie_request e0).
Proof. unfold request_in. by rewrite EP. Qed.

Lemma move_send_runs deadok : tw_send ty0 + tw_once ty0 = 1 ->
  runs (copyin_move_send space n deadok)
    (Done (if ip_active P then
             if tw_send ty0 =? 1 then send_moved out k0 p ty0 u0 (ie_request e0)
             else refused out (ks_ports k0) ty0 u0
           else dead_moved out (on_port k0 p dropped) deadok (u0 + has_request e0))) (RState k0 t0 true).
Proof.
  intros Hty. pose proof (start_view space sizes out k0 t0 n p e0 P g0 ty0 u0 I E0 Hi0 Ho0 EP) as V.
  pose proof Hi0 as (Eb & Hg & Hu). pose proof (p_nonnull space sizes out k0 t0 p P I EP) as Hp.
  pose proof (urefs_now Hty) as Hu0. pose proof refs_now as Hrefs. pose proof counts_now as Hcounts.
  assert (Hd : has (ie_bits e0) MACH_PORT_TYPE_DEAD_NAME = false /\
    has (ie_bits e0) MACH_PORT_TYPE_SEND_RIGHTS = true /\
    has (ie_bits e0) MACH_PORT_TYPE_SEND = (tw_send ty0 =? 1) /\
    has (ie_bits e0) MACH_PORT_TYPE_RECEIVE = receives ty0).
  { rewrite Eb, has_dead_name, has_send_rights, has_send, has_receive by done. by destruct ty0. }
  destruct Hd as (Hd1 & Hd2 & Hd3 & Hd4).
  unfold copyin_move_send. vstep. vstep. rewrite Hd1, Hd2, Hd3, Hd4, Eo. cbn [negb].
  rewrite Eb. type_eval. vstep. vstep. vstep. vstep.
  apply (sender_starts true deadok); [done|..].
  { intros Ha s res Hdone. by rewrite Ha. }
  intros Ha. rewrite Ha. destruct (Z.eqb_spec (tw_send ty0) 1) as [Hs|Hs]; cbn [negb].
  - pose proof (own_srights space sizes out k0 t0 n p e0 P g0 ty0 u0 I E0 Hi0 Eo EP Ha Hs). vrun.
    unfold send_moved. destruct (Z.eqb_spec u0 1) as [Hu1|Hu1].
    + change (IE_BITS_UREFS_MASK ||| MACH_PORT_TYPE_SEND) with (fields 0 1 (Z.ones 16)).
      rewrite drop_bits_urefs by (done || lia). destruct (receives ty0) eqn:Hrec.
      * assert (ty0 = RSendReceive) as E by (by destruct ty0).
        destruct (is_receiver Hrec) as (_ & Hrc & Hrn).
        rewrite E. rewrite bool_decide_false in V by (by rewrite E).
        change (Z.ldiff (tcode RSendReceive) 1) with (tcode RReceive).
        vrun; [lia|].
        split; [done|]. cbn [tr_out tr_name tr_ports tr_calls]. rewrite port_is_eq.
        eapply (keep_outcome _ RReceive _ _ _ _ 0 0); [exact V|done|..]; try done.
        all: try (unfold one_more_ref; cbn [tw_refs tw_send tw_once]; rewrite ?E; kcbn; cbn [tw_refs tw_send tw_once]; lia).
        -- exact table_now.
        -- by left.
        -- pose proof right_now as Hr. rewrite E in Hr. cbn [set_ie_bits ie_object ie_request]. rewrite Eo.
           destruct Hr as (_ & P1 & EP1 & Hr). assert (P1 = P) as -> by congruence. split; [done|].
           exists (set_io_references (io_references P + 1) P).
           split; [by eapply view_port|]. exact Hr.
      * assert (ty0 = RSend) as E by (by destruct ty0). rewrite E.
        rewrite bool_decide_true in V by done.
        change (Z.ldiff (tcode RSend) 1) with (tcode RNone).
        vrun.
        eapply (v_cancel _ _ _ _ sizes); [exact V|by eapply name0|exact Eo|exact Ha|split; [done|exact table_now]|
          by apply request_now; rewrite ?E|]. clear V. intros k t P2 HP2 V Hts. vrun. split; [by rewrite <- request_eq|].
        apply (taken_outcome 1 0 P2); try done; by rewrite E.
    + rewrite fields_sub. vrun; [lia|]. split; [done|]. apply (made_outcome 1 0 (one_more_send false)); try done.
      * rewrite wrap_small in V by (unfold in_range; lia). by destruct P.
      * destruct P; cbn; by rewrite Z.add_0_r.
      * by destruct ty0.
      * unfold MACH_PORT_UREFS_MAX. destruct ty0; try done; lia.
  - assert (Ht : tw_once ty0 = 1) by (destruct ty0; cbn in *; lia).
    pose proof (own_sorights space sizes out k0 t0 n p e0 P g0 ty0 u0 I E0 Hi0 Eo EP Ha Ht).
    assert (ty0 = RSendOnce) as E by (by destruct ty0). unfold invalid_right.
    vstep. apply runs_assert; [by rewrite E|]. vrun. apply refused_now.
Qed.

Lemma move_sonce_runs deadok : tw_send ty0 + tw_once ty0 = 1 ->
  runs (copyin_move_send_once n deadok)
    (Done (if ip_active P then
             if tw_once ty0 =? 1 then sonce_moved out k0 p (ie_request e0)
             else refused out (ks_ports k0) ty0 u0
           else dead_moved out (on_port k0 p dropped) deadok (u0 + has_request e0))) (RState k0 t0 true).
Proof.
  intros Hty. pose proof (start_view space sizes out k0 t0 n p e0 P g0 ty0 u0 I E0 Hi0 Ho0 EP) as V.
  pose proof Hi0 as (Eb & Hg & Hu). pose proof (p_nonnull space sizes out k0 t0 p P I EP) as Hp.
  pose proof (urefs_now Hty) as Hu0. pose proof refs_now as Hrefs.
  assert (Hd : has (ie_bits e0) MACH_PORT_TYPE_DEAD_NAME = false /\
    has (ie_bits e0) MACH_PORT_TYPE_SEND_RIGHTS = true /\
    has (ie_bits e0) MACH_PORT_TYPE_SEND_ONCE = (tw_once ty0 =? 1) /\
    has (ie_bits e0) MACH_PORT_TYPE_SEND = (tw_send ty0 =? 1)).
  { rewrite Eb, has_dead_name, has_send_rights, has_send, has_send_once by done. by destruct ty0. }
  destruct Hd as (Hd1 & Hd2 & Hd3 & Hd4).
  unfold copyin_move_send_once. vstep. vstep. rewrite Hd1, Hd2, Hd3, Hd4, Eo. cbn [negb].
  rewrite Eb. type_eval. vstep. vstep. vstep. vstep.
  apply (sender_starts true deadok); [done|..].
  { intros Ha s res Hdone. by rewrite Ha. }
  intros Ha. rewrite Ha. destruct (Z.eqb_spec (tw_once ty0) 1) as [Hs|Hs]; cbn [negb].
  - pose proof (own_sorights space sizes out k0 t0 n p e0 P g0 ty0 u0 I E0 Hi0 Eo EP Ha Hs).
    assert (ty0 = RSendOnce) as E by (by destruct ty0).
    pose proof right_now as Hr. rewrite E in Hr. destruct Hr as [Hu1 _].
    change (IE_BITS_UREFS_MASK ||| MACH_PORT_TYPE_SEND_ONCE) with (fields 0 4 (Z.ones 16)).
    rewrite drop_bits_urefs by (done || lia). rewrite E.
    change (Z.ldiff (tcode RSendOnce) 4) with (tcode RNone).
    rewrite bool_decide_false in V by (by rewrite E). vrun.
    eapply (v_cancel _ _ _ _ sizes); [exact V|by eapply name0|exact Eo|exact Ha|
      split; [done|exact table_now]|by apply request_now; rewrite ?E|].
    clear V. intros k t P2 HP2 V Hts. vrun. split; [by rewrite <- request_eq|].
    apply (taken_outcome 0 1 P2); try done; by rewrite E.
  - assert (Ht : tw_send ty0 = 1) by (destruct ty0; cbn in *; lia). rewrite Ht.
    pose proof (own_srights space sizes out k0 t0 n p e0 P g0 ty0 u0 I E0 Hi0 Eo EP Ha Ht).
    unfold invalid_right. vrun. apply refused_now.
Qed.

(** ** The receive right *)

Lemma received_outcome e1 ty1 u1 P2 h cs k t : receives ty0 = true -> space <> IP_NULL ->
  View (Some e1) (Some (in_message P2)) h cs k t ->
  P2 = set_io_references (io_references P2) (set_ip_dnrequests (ip_dnrequests P2) P) ->
  match ip_dnrequests P2 with Some (a, tb) => a <> 0 /\ ∃ fl, table_ok sizes tb fl | None => True end ->
  (∀ m q, m <> n -> request_ok P m q -> request_ok P2 m q) ->
  e1 = left_entry g0 ty1 u1 e0 -> entry_is e1 g0 ty1 u1 -> of_port p e1 ty1 ->
  right_ok space k n (ie_object e1) (ie_request e1) ty1 u1 ->
  h = bool_decide (ty1 = RSend) -> tw_send ty1 = tw_send ty0 -> receives ty1 = false ->
  tw_once ty1 = 0 -> io_references P2 = io_references P + tw_refs ty1 ->
  Outcome (moved p 0 0 1 out) (Some (ty1, u1)) (upd p (Some (in_message P2)) (ks_ports k0)) cs
    (RState k t true).
Proof.
  intros Hrec Hsp V Hrest Htab Hreq Hleft He Ho Hr Hh Hw Hrec1 Honce Hrefs.
  destruct (is_receiver Hrec) as (Ha & Hs & Hn).
  pose proof (ghost_ok space sizes out k0 t0 p I) as Hgh. pose proof refs_now as Hrf.
  destruct (i_ports _ _ _ _ _ I p P EP) as [C1 C2 C3 _ _ _ _ C8]. specialize (C8 Ha).
  assert (Hty : tw_refs ty0 = 1 /\ tw_once ty0 = 0) by (by destruct ty0). destruct Hty as [Hty Hto].
  assert (Hf : io_bits P2 = io_bits P /\ ip_srights P2 = ip_srights P /\
    ip_sorights P2 = ip_sorights P /\ ip_premsg P2 = ip_premsg P) by (by rewrite Hrest).
  destruct Hf as (Fb & Fs & Fo & Fp).
  assert (0 <= tw_refs ty1 <= 1) by (by destruct ty1).
  eapply view_outcome; [exact V| |exact E0|by rewrite Hleft|done].
  eapply (view_inv space sizes out k0 t0 n p e0 P g0 ty0 u0 I E0 Hi0 Ho0 EP _ _ ty1); [exact V|..].
  - intros. by apply moved_ne.
  - rewrite moved_eq. cbn. lia.
  - by exists u1.
  - done.
  - rewrite moved_eq. cbn [g_refs]. unfold in_message, cleared. kcbn. lia.
  - rewrite moved_eq. unfold in_message, cleared. split; kcbn; rewrite ?Fb, ?Fs, ?Fo, ?Fp; try done.
    + split; kcbn; [lia|done].
    + intros _. split; [done|]. cbn [g_sends g_sonces g_refs].
      rewrite (proj2 (Z.eqb_neq IP_NULL space)) by congruence.
      rewrite Hs, Z.eqb_refl in C8. lia.
    + by left.
Qed.

(** No other name of the space has a send right of a port received here. *)
Lemma receiver_hash : receives ty0 = true -> ∀ m, m <> n -> es_hash t0 !! p <> Some m.
Proof.
  intros Hrec m Hm Hh. apply (i_hash _ _ _ _ _ I) in Hh as (e & Ee & Hps).
  destruct (i_entries _ _ _ _ _ I m e Ee) as (_ & g & ty & u & Hi & Hr).
  apply (pure_send_is p e g ty u Hi) in Hps as [Hobj ->].
  destruct Hr as (_ & P1 & EP1 & Hr). rewrite Hobj in EP1. assert (P1 = P) as -> by congruence.
  destruct (is_receiver Hrec) as (Ha & Hs & _). by destruct (Hr Ha).
Qed.

Lemma move_receive_runs : receives ty0 = true -> space <> IP_NULL ->
  runs (copyin_move_receive space n) (Done (receive_moved out k0 p ty0 u0 (ie_request e0)))
    (RState k0 t0 true).
Proof.
  intros Hrec Hsp. pose proof (start_view space sizes out k0 t0 n p e0 P g0 ty0 u0 I E0 Hi0 Ho0 EP) as V.
  pose proof Hi0 as (Eb & Hg & Hu). pose proof (p_nonnull space sizes out k0 t0 p P I EP) as Hp.
  pose proof refs_now as Hrefs. destruct (is_receiver Hrec) as (Ha & Hs & Hn).
  pose proof right_now as Hr.
  assert (Hd : has (ie_bits e0) MACH_PORT_TYPE_RECEIVE = true) by (rewrite Eb, has_receive by done; by destruct ty0).
  unfold copyin_move_receive. vstep. vstep. rewrite Hd. cbn [negb]. unfold receive_port. vrun. rewrite Eo. vrun.
  rewrite Eb. change MACH_PORT_TYPE_RECEIVE with (fields 0 2 0). rewrite drop_bits by (done || lia).
  unfold receive_moved. rewrite EP.
  assert (Hty : ty0 = RReceive \/ ty0 = RSendReceive) by (destruct ty0; auto; done).
  assert (Hq : request_ok P n (ie_request e0)) by (apply request_now; [done|by destruct ty0]).
  destruct Hty as [E|E]; rewrite E in Hr |- *.
  - destruct Hr as (Hu0 & _). type_eval.
    change (Z.ldiff (tcode RReceive) 2) with (tcode RNone).
    rewrite bool_decide_false in V by (by rewrite E). vrun.
    eapply (v_cancel _ _ _ _ sizes); [exact V|by eapply name0|exact Eo|exact Ha|
      split; [done|exact table_now]|exact Hq|].
    clear V. intros k t P2 HP2 V [Hrest [_ Htab] Hk].
    assert (Hb : ip_active P2 = true) by (rewrite Hrest; exact Ha). vrun.
    split; [by rewrite <- request_eq|]. rewrite Hu0 in V.
    assert (Hr2 : io_references P2 = io_references P) by (by rewrite Hrest).
    cbn [tr_out tr_name tr_ports tr_calls]. rewrite port_is_eq, <- HP2.
    replace (clear_calls p P) with (clear_calls p P2) by (by rewrite Hrest).
    eapply (received_outcome _ RNone 0 P2); try done; try (by rewrite E); try (by right).
    all: try (by rewrite left_emptied; rewrite ?E).
    + rewrite Hrest at 1. kcbn. rewrite Hr2. by destruct P.
    + cbn [tw_refs]. lia.
  - destruct Hr as (Hu0 & P1 & EP1 & _ & _ & _ & Hreq). assert (P1 = P) as -> by congruence.
    unfold MACH_PORT_UREFS_MAX in Hu0.
    pose proof (own_srights space sizes out k0 t0 n p e0 P g0 ty0 u0 I E0 Hi0 Eo EP Ha ltac:(by rewrite E)).
    type_eval. change (Z.ldiff (tcode RSendReceive) 2) with (tcode RSend).
    rewrite bool_decide_false in V by (by rewrite E). vrun.
    eapply v_hash_insert; [exact V|done|done|by apply receiver_hash|]. clear V. intros t V. vrun.
    { lia. }
    vrun. split; [done|]. cbn [tr_out tr_name tr_ports tr_calls]. rewrite port_is_eq.
    eapply (received_outcome _ RSend u0 (set_io_references (io_references P + 1) P)); try done.
    all: try (by rewrite E).
    + exact table_now.
    + by left.
    + cbn [set_ie_bits ie_object ie_request]. rewrite Eo. split; [unfold MACH_PORT_UREFS_MAX; lia|].
      eexists. split; [by eapply view_port|]. intros _. kcbn. split; [congruence|exact Hreq].
Qed.

End one_port.

(** * Transfers of any name *)

Section any_name.
Context {St : Type} `{!EntryStore St} (space : Z) (sizes : list Z).

Definition transfers : list Z :=
  [MACH_MSG_TYPE_MAKE_SEND; MACH_MSG_TYPE_MAKE_SEND_ONCE; MACH_MSG_TYPE_MOVE_RECEIVE;
   MACH_MSG_TYPE_COPY_SEND; MACH_MSG_TYPE_MOVE_SEND; MACH_MSG_TYPE_MOVE_SEND_ONCE].

(** A name of type [ty] has no right for the disposition [m]. *)
Definition lacks (m : Z) (ty : rtype) : bool :=
  if (m =? MACH_MSG_TYPE_MAKE_SEND) || (m =? MACH_MSG_TYPE_MAKE_SEND_ONCE)
     || (m =? MACH_MSG_TYPE_MOVE_RECEIVE)
  then negb (receives ty)
  else match ty with RNone | RReceive | RPortSet => true | _ => false end.

Ltac transfer_cases Hm :=
  unfold transfers in Hm; rewrite !elem_of_cons, elem_of_nil in Hm;
  destruct Hm as [->|[->|[->|[->|[->|[->|[]]]]]]].

Lemma lacks_effect out k p m deadok live ty u r : m ∈ transfers -> lacks m ty = true ->
  copyin_effect out k p m deadok live ty u r = refused out (ks_ports k) ty u.
Proof. intros Hm. transfer_cases Hm; by destruct ty. Qed.

Section plain.
Context (out : Z -> ghost) (k0 : kstate) (t0 : St) (n : Z) (e0 : entry).
Context (g0 : Z) (ty0 : rtype) (u0 : Z).
Context (I : inv space sizes out k0 t0) (E0 : es_entries t0 !! n = Some e0).
Context (Hi0 : entry_is e0 g0 ty0 u0).

Abbreviation Done := (transferred space sizes k0 t0 n g0).

Lemma refused_any : Done (refused out (ks_ports k0) ty0 u0) (KERN_INVALID_RIGHT, 0, 0) (RState k0 t0 true).
Proof. split; [done|]. by eapply unchanged. Qed.

Lemma refused_runs m deadok l : m ∈ transfers -> lacks m ty0 = true ->
  runs (ipc_right_copyin space n m deadok)
    (Done (copyin_effect out k0 (ie_object e0) m deadok l ty0 u0 (ie_request e0))) (RState k0 t0 true).
Proof.
  intros Hm Hty. rewrite lacks_effect by done. pose proof Hi0 as (Eb & Hg & Hu).
  pose proof refused_any as Hr. pose proof I as [I1 _ _ _ _ _ _].
  unfold ipc_right_copyin. apply runs_bind, active_runs, runs_bind, runs_assert; [done|].
  transfer_cases Hm;
    cbv [MACH_MSG_TYPE_MAKE_SEND MACH_MSG_TYPE_MAKE_SEND_ONCE MACH_MSG_TYPE_MOVE_RECEIVE
      MACH_MSG_TYPE_COPY_SEND MACH_MSG_TYPE_MOVE_SEND MACH_MSG_TYPE_MOVE_SEND_ONCE];
    cbn [Z.eqb Pos.eqb];
    (unfold copyin_make_send, copyin_make_send_once, copyin_move_receive, copyin_copy_send,
      copyin_move_send, copyin_move_send_once; apply runs_bind; eapply get_entry_runs; [done|exact E0|];
     rewrite Eb, ?has_receive, ?has_dead_name, ?has_send_rights by done);
    destruct ty0; try done; by apply runs_ret.
Qed.

Lemma dead_runs m deadok : ty0 = RDeadName ->
  m ∈ [MACH_MSG_TYPE_COPY_SEND; MACH_MSG_TYPE_MOVE_SEND; MACH_MSG_TYPE_MOVE_SEND_ONCE] ->
  runs (ipc_right_copyin space n m deadok)
    (Done (dead_tr out (ks_ports k0) (negb (m =? MACH_MSG_TYPE_COPY_SEND)) deadok u0)) (RState k0 t0 true).
Proof.
  intros Hty Hm. pose proof Hi0 as (Eb & Hg & Hu).
  destruct (dead_right space sizes out k0 t0 n e0 g0 ty0 u0 I E0 Hi0 Hty) as (Hu0 & Hobj & Hreq).
  pose proof (plain_view space sizes out k0 t0 n e0 g0 ty0 u0 I E0 Hi0 ltac:(by rewrite Hty)) as V.
  assert (Hd : has (ie_bits e0) MACH_PORT_TYPE_DEAD_NAME = true)
    by (rewrite Eb, has_dead_name by done; by rewrite Hty).
  assert (Hdead : ∀ move : bool, runs (if move then move_dead n deadok else copy_dead n deadok)
    (Done (dead_tr out (ks_ports k0) move deadok u0)) (RState k0 t0 true)).
  { intros move. eapply (v_dead_tr out (ks_ports k0) k0 t0 n 1 e0 g0 u0); [exact V|by rewrite <- Hty|done..|].
    intros t' oe V' Hoe. split; [done|].
    destruct (dead_tr_quiet out (ks_ports k0) move deadok u0) as (-> & -> & ->).
    by eapply dead_name_outcome. }
  unfold ipc_right_copyin. apply runs_bind, active_runs, runs_bind, runs_assert; [done|].
  rewrite !elem_of_cons, elem_of_nil in Hm. destruct Hm as [->|[->|[->|[]]]];
    cbv [MACH_MSG_TYPE_MAKE_SEND MACH_MSG_TYPE_MAKE_SEND_ONCE MACH_MSG_TYPE_MOVE_RECEIVE
      MACH_MSG_TYPE_COPY_SEND MACH_MSG_TYPE_MOVE_SEND MACH_MSG_TYPE_MOVE_SEND_ONCE];
    cbn [Z.eqb Pos.eqb negb];
    unfold copyin_copy_send, copyin_move_send, copyin_move_send_once;
    vstep; vstep; rewrite Hd; [exact (Hdead false)|exact (Hdead true)|exact (Hdead true)].
Qed.
End plain.
(** Room for one more right of the port in its counts. *)
Definition room (k : kstate) (p : Z) : Prop :=
  ∀ P, ks_ports k !! p = Some P ->
    io_references P + 1 < IO_MAX_REFERENCES /\ ip_srights P + 1 < 2 ^ 32 /\
    ip_sorights P + 1 < 2 ^ 32.

Lemma copyin_runs out k t n e g ty u m deadok :
  inv space sizes out k t -> es_entries t !! n = Some e -> entry_is e g ty u ->
  m ∈ transfers -> space <> IP_NULL -> room k (ie_object e) ->
  runs (ipc_right_copyin space n m deadok) (transferred space sizes k t n g
    (copyin_effect out k (ie_object e) m deadok (live k (ie_object e)) ty u (ie_request e)))
    (RState k t true).
Proof.
  intros I E Hi Hm Hsp Hroom. set (p := ie_object e) in *.
  destruct (decide (tw_refs ty = 1)) as [Hty|Hty].
  - destruct (right_port space sizes out k t n e g ty u I E Hi Hty) as (P & EP & Hrec).
    fold p in EP. assert (Hl : live k p = ip_active P) by (unfold live; by rewrite EP).
    rewrite Hl. specialize (Hroom P EP).
    assert (Hstart : ∀ Q, runs (if m =? MACH_MSG_TYPE_MAKE_SEND then copyin_make_send space n
        else if m =? MACH_MSG_TYPE_MAKE_SEND_ONCE then copyin_make_send_once space n
        else if m =? MACH_MSG_TYPE_MOVE_RECEIVE then copyin_move_receive space n
        else if m =? MACH_MSG_TYPE_COPY_SEND then copyin_copy_send n deadok
        else if m =? MACH_MSG_TYPE_MOVE_SEND then copyin_move_send space n deadok
        else copyin_move_send_once n deadok) Q (RState k t true) ->
      runs (ipc_right_copyin space n m deadok) Q (RState k t true)).
    { intros Q HQ. unfold ipc_right_copyin.
      apply runs_bind, active_runs, runs_bind, runs_assert; [done|]. by transfer_cases Hm. }
    destruct (lacks m ty) eqn:Hlacks; [by eapply refused_runs|].
    pose proof (copy_send_runs space sizes out k t n p e P g ty u I E Hi eq_refl EP Hroom deadok) as Hcopy.
    pose proof (move_send_runs space sizes out k t n p e P g ty u I E Hi eq_refl EP Hroom deadok) as Hmove.
    pose proof (move_sonce_runs space sizes out k t n p e P g ty u I E Hi eq_refl EP Hroom deadok) as Honce.
    assert (Hlive : receives ty = true -> ip_active P = true) by done.
    transfer_cases Hm; apply Hstart.
    + assert (Hr : receives ty = true) by (by destruct ty). unfold copyin_effect. rewrite Hr.
      by eapply make_send_runs.
    + assert (Hr : receives ty = true) by (by destruct ty). unfold copyin_effect. rewrite Hr.
      by eapply make_sonce_runs.
    + assert (Hr : receives ty = true) by (by destruct ty). unfold copyin_effect. rewrite Hr.
      by eapply move_receive_runs.
    + eapply runs_weaken; [apply Hcopy; by destruct ty|]. intros res s Hd.
      destruct ty; try done; try (by destruct (ip_active P)); by rewrite Hlive in Hd.
    + eapply runs_weaken; [apply Hmove; by destruct ty|]. intros res s Hd.
      destruct ty; try done; try (by destruct (ip_active P)); by rewrite Hlive in Hd.
    + eapply runs_weaken; [apply Honce; by destruct ty|]. intros res s Hd.
      destruct ty; try done; try (by destruct (ip_active P)); by rewrite Hlive in Hd.
  - destruct (lacks m ty) eqn:Hlacks; [by eapply refused_runs|].
    assert (ty = RDeadName /\ m ∈ [MACH_MSG_TYPE_COPY_SEND; MACH_MSG_TYPE_MOVE_SEND; MACH_MSG_TYPE_MOVE_SEND_ONCE])
      as [Hd Hm'].
    { transfer_cases Hm; destruct ty; try done; (split; [done|]); rewrite !elem_of_cons; auto. }
    eapply runs_weaken; [by eapply dead_runs|]. cbn beta. intros res s Hdone. rewrite Hd.
    rewrite !elem_of_cons, elem_of_nil in Hm'. by destruct Hm' as [->|[->|[->|[]]]].
Qed.

(** C6 (functional): [ipc_right_copyin] moves a right of a name into a message for each of
    the six dispositions and ends in exactly the state [copyin_effect] says, every field of
    the port and every other port included, with the space, the ports and the hash table
    consistent.  A right made is counted in the port, a send right made in its make-send
    count as well, and takes a reference for the message; a copied right is counted but not
    in the make-send count; the last send reference takes the right and the entry's
    reference along (leaving the receive right of a name with both, and the request of the
    name for a port-deleted notification, taken out of the port's table, otherwise); a moved
    receive right clears the port of its receiver and leaves its send right behind in the hash
    table; a right whose port has died gives the dead object where that is wanted; a
    disposition the name has no right for changes nothing but a right found dead.  The
    space is not null and the port has room for one more in its counts, which the code
    assumes without a check. *)
Theorem right_copyin_correct out k t n e g ty u m deadok :
  inv space sizes out k t -> es_entries t !! n = Some e -> entry_is e g ty u ->
  m ∈ transfers -> space <> IP_NULL -> room k (ie_object e) ->
  runs (ipc_right_copyin space n m deadok) (transferred space sizes k t n g
    (copyin_effect out k (ie_object e) m deadok (live k (ie_object e)) ty u (ie_request e)))
    (RState k t true).
Proof. apply copyin_runs. Qed.

(** The answer of [ipc_right_copyin_check]. *)
Lemma check_answers out k t n e g ty u m :
  inv space sizes out k t -> es_entries t !! n = Some e -> entry_is e g ty u -> m ∈ transfers ->
  runs (ipc_right_copyin_check n m) (λ b s, s = RState k t true /\
    (b = true <-> (tr_result (copyin_effect out k (ie_object e) m true
                     (live k (ie_object e)) ty u (ie_request e))).1.1 = KERN_SUCCESS))
    (RState k t true).
Proof.
  intros I E Hi Hm. pose proof Hi as (Eb & Hg & Hu). pose proof I as [I1 _ _ _ _ _ _].
  assert (Hport : tw_send ty + tw_once ty = 1 -> ∃ P, ks_ports k !! ie_object e = Some P /\
    live k (ie_object e) = ip_active P /\ (receives ty = true -> ip_active P = true) /\
    negb (ie_object e =? IP_NULL) = true).
  { intros Hty. destruct (right_port space sizes out k t n e g ty u I E Hi) as (P & EP & Hrec);
      [by destruct ty|]. exists P. unfold live. rewrite EP. repeat (split; [done|]).
    apply negb_true_iff, Z.eqb_neq. by eapply p_nonnull. }
  unfold ipc_right_copyin_check. apply runs_bind. eapply get_entry_runs; [done|exact E|].
  apply runs_bind, active_runs, runs_bind, runs_assert; [done|].
  rewrite Eb, has_receive, has_dead_name, has_send_rights, has_send_once, has_send by done.
  transfer_cases Hm;
    cbv [MACH_MSG_TYPE_MAKE_SEND MACH_MSG_TYPE_MAKE_SEND_ONCE MACH_MSG_TYPE_MOVE_RECEIVE
      MACH_MSG_TYPE_COPY_SEND MACH_MSG_TYPE_MOVE_SEND MACH_MSG_TYPE_MOVE_SEND_ONCE] in *;
    cbn [Z.eqb Pos.eqb orb].
  1-3: apply runs_ret; split; [done|]; by destruct ty.
  all: destruct ty eqn:Ety; cbn [negb]; try (by apply runs_ret);
    destruct Hport as (P & EP & Hl & Hrec & Hnn); try done; rewrite Hl;
    apply runs_bind, runs_assert; try exact Hnn; apply runs_bind;
    (eapply get_port_runs; [exact EP|]);
    destruct (ip_active P) eqn:Ha; cbn [negb]; (apply runs_ret; split; [done|]);
    try done; try (by specialize (Hrec eq_refl)); unfold copyin_effect;
    cbn [Z.eqb Pos.eqb]; unfold send_moved; try (by destruct (u =? 1));
    try (by destruct (u + _ =? 1)).
Qed.

(** C31 (equivalence): [ipc_right_copyin_check] changes nothing and answers yes exactly when
    [ipc_right_copyin] of the same name and disposition, with dead rights accepted, run from
    the same state returns KERN_SUCCESS.  As for the transfer itself, the space is not null
    and the port's counts have room for one more. *)
Theorem copyin_check_decides out k t n e g ty u m :
  inv space sizes out k t -> es_entries t !! n = Some e -> entry_is e g ty u -> m ∈ transfers ->
  space <> IP_NULL -> room k (ie_object e) ->
  runs (ipc_right_copyin_check n m) (λ b s, s = RState k t true /\
    runs (ipc_right_copyin space n m true) (λ res _, b = true <-> res.1.1 = KERN_SUCCESS)
      (RState k t true)) (RState k t true).
Proof.
  intros I E Hi Hm Hsp Hroom. eapply runs_weaken; [by eapply check_answers|].
  intros b s [-> Hb]. split; [done|]. eapply runs_weaken; [by apply copyin_runs|].
  intros res s' [-> _]. exact Hb.
Qed.

(** What a message with a right of the port [p] gives the name. *)
Definition copyout_effect (out : Z -> ghost) (k : kstate) (n p msgt_name : Z) (overflow : bool)
    (P : ipc_port) (ty : rtype) (u : Z) : effect :=
  if msgt_name =? MACH_MSG_TYPE_PORT_SEND_ONCE then
    Effect KERN_SUCCESS (Some (RSendOnce, 1)) (ks_ports k) [] (moved p 0 (-1) (-1) out)
  else if msgt_name =? MACH_MSG_TYPE_PORT_SEND then send_arrived out k p overflow ty u
  else receive_arrived space out k n p P ty u.

(** The message has a reference to the destination of a receive right in transit, which is
    another port. *)
Definition destination_ok (out : Z -> ghost) (k : kstate) (p : Z) (P : ipc_port) : Prop :=
  ip_destination P <> IP_NULL -> ip_destination P <> p /\
    ∃ D, ks_ports k !! ip_destination P = Some D /\ dest_held space (out (ip_destination P)) D.

(** The message has the right, and the name, of the port's type, can take it. *)
Definition arrival_ok (out : Z -> ghost) (k : kstate) (p : Z) (P : ipc_port) (msgt_name : Z)
    (ty : rtype) : Prop :=
  (msgt_name = MACH_MSG_TYPE_PORT_SEND_ONCE /\ 1 <= g_sonces (out p) /\ ty = RNone) \/
  (msgt_name = MACH_MSG_TYPE_PORT_SEND /\ 1 <= g_sends (out p) /\
     (tw_send ty = 1 \/ ty = RReceive \/ ty = RNone /\ ip_receiver P <> space)) \/
  (msgt_name = MACH_MSG_TYPE_PORT_RECEIVE /\ in_transit P /\ destination_ok out k p P /\
     (ty = RSend \/ ty = RNone)).

(** C5 (functional): [ipc_right_copyout] moves a right of a message into the name that the
    space has, or has just made, for the live port and ends in exactly the state
    [copyout_effect] says, every field of the port and every other port included: a send-once
    right takes the new name, a send right takes it, joins the receive right or adds a user
    reference and gives its own count and reference back (at the limit it changes nothing, or
    vanishes where overflow is allowed), a receive right makes the space the receiver, takes
    the send right out of the hash table and gives back the reference to the destination the
    port was in transit to, if any; the space, the ports and the table stay consistent.  The
    space is not null, the message has the right, no other name of the space is in the hash
    table for the port, and a receive right comes from a message: the port has no receiver's
    name, no make-sends, and is in limbo or in transit to another port, to which the message
    has a reference besides those of rights. *)
Theorem right_copyout_correct out k t n p e P g ty u msgt_name overflow :
  inv space sizes out k t -> es_entries t !! n = Some e -> entry_is e g ty u -> ie_object e = p ->
  ks_ports k !! p = Some P -> ip_active P = true -> IP_VALID p = true -> space <> IP_NULL ->
  (∀ m, m <> n -> es_hash t !! p <> Some m) -> arrival_ok out k p P msgt_name ty ->
  runs (ipc_right_copyout space n msgt_name overflow p)
    (did space sizes k t n g (copyout_effect out k n p msgt_name overflow P ty u)) (RState k t true).
Proof.
  intros I E Hi Hobj EP Ha Hv Hsp Hno Harr. pose proof I as [I1 _ _ _ _ _ _].
  unfold ipc_right_copyout. apply runs_bind, runs_assert; [done|].
  apply runs_bind. eapply get_port_runs; [exact EP|]. apply runs_bind, runs_assert; [done|].
  apply runs_bind. eapply get_entry_runs; [done|exact E|].
  apply runs_bind, runs_assert; [by apply Z.eqb_eq|].
  destruct Harr as [(-> & Hg & Hty)|[(-> & Hg & Hty)|(-> & Htr & Hd & Hty)]].
  - eapply runs_weaken; [by eapply once_arrives|]. cbn beta. intros kr s [-> Ho]. by split.
  - by eapply send_arrives.
  - by eapply receive_arrives.
Qed.

End any_name.

(** * Examples *)

(** One of two send references of the name leaves for a message, as a second send right. *)
Lemma right_copyin_correct_witness :
  runs (ipc_right_copyin 256 0x203 MACH_MSG_TYPE_MOVE_SEND false)
    (transferred 256 i386_dnrequests (single_kstate 4096 (far_port 2 1))
      (single_store 0x203 4096 (send_entry 2) RSend) 0x203 5
      (Transfer (KERN_SUCCESS, 4096, IP_NULL) (Some (RSend, 1))
        (ks_ports (single_kstate 4096 (far_port 3 2))) []
        (moved 4096 1 0 1 (single_out 4096 (Ghost 0 0 1)))))
    (RState (single_kstate 4096 (far_port 2 1)) (single_store 0x203 4096 (send_entry 2) RSend) true).
Proof.
  apply (right_copyin_correct 256 i386_dnrequests (single_out 4096 (Ghost 0 0 1))
    (single_kstate 4096 (far_port 2 1)) (single_store 0x203 4096 (send_entry 2) RSend) 0x203
    (send_entry 2) 5 RSend 2); [by apply send_inv|done|done| |done|].
  - unfold transfers. rewrite !elem_of_cons. auto 10.
  - intros P HP. assert (P = far_port 2 1) as -> by (by injection HP). vm_compute. auto.
Defined.

(** A name with a send right only has no receive right to move. *)
Lemma copyin_check_decides_witness :
  runs (ipc_right_copyin_check 0x203 MACH_MSG_TYPE_MOVE_RECEIVE) (λ b s,
    s = RState (single_kstate 4096 (far_port 2 1)) (single_store 0x203 4096 (send_entry 1) RSend) true /\
    runs (ipc_right_copyin 256 0x203 MACH_MSG_TYPE_MOVE_RECEIVE true)
      (λ res _, b = true <-> res.1.1 = KERN_SUCCESS)
      (RState (single_kstate 4096 (far_port 2 1)) (single_store 0x203 4096 (send_entry 1) RSend) true))
    (RState (single_kstate 4096 (far_port 2 1)) (single_store 0x203 4096 (send_entry 1) RSend) true).
Proof.
  apply (copyin_check_decides 256 i386_dnrequests (single_out 4096 (Ghost 0 0 1))
    (single_kstate 4096 (far_port 2 1)) (single_store 0x203 4096 (send_entry 1) RSend) 0x203
    (send_entry 1) 5 RSend 1); [by apply send_inv|done|done| |done|].
  - unfold transfers. rewrite !elem_of_cons. auto 10.
  - intros P HP. assert (P = far_port 2 1) as -> by (by injection HP). vm_compute. auto.
Defined.

(** A port whose two send rights are a name's and a message's. *)
Lemma carried_inv u : 0 < u < MACH_PORT_UREFS_MAX ->
  inv 256 i386_dnrequests (single_out 4096 (Ghost 1 0 2)) (single_kstate 4096 (far_port 3 2))
    (single_store 0x203 4096 (send_entry u) RSend).
Proof.
  intros Hu. unfold MACH_PORT_UREFS_MAX in Hu.
  apply (single_inv _ _ _ _ _ _ _ 5 RSend u); try done.
  - split; [done|]. split; [done|lia].
  - by left.
  - split; [unfold MACH_PORT_UREFS_MAX; lia|]. exists (far_port 3 2). split; [done|].
    intros _. split; [done|by left].
Qed.

(** A further port, which only messages and another space have rights of. *)
Lemma outside_inv {St} `{!EntryStore St} space sizes out k (t : St) d D gh :
  inv space sizes out k t -> ks_ports k !! d = None -> d <> IP_NULL ->
  sends (es_entries t) d = 0 -> sonces (es_entries t) d = 0 -> refs (es_entries t) d = 0 ->
  port_ok sizes D -> truth (io_bits D &&& IP_BIT_PREALLOC) = false -> ip_receiver D <> space ->
  in_range 32 (ip_srights D) /\ in_range 32 (ip_sorights D) -> io_references D = g_refs gh ->
  0 <= g_sends gh <= ip_srights D -> 0 <= g_sonces gh <= ip_sorights D ->
  g_sends gh + g_sonces gh + 1 <= g_refs gh ->
  inv space sizes (λ q, if decide (q = d) then gh else out q)
    (set_ks_ports (<[d := D]> (ks_ports k)) k) t.
Proof.
  intros [I1 I2 I3 I4 [I5 I5'] I6 I7] Hd Hn Hz1 Hz2 Hrefs Hok Hpre Hrec Hrange Hr Hs Hso Hgh.
  split; cbn; try done.
  - intros m e Ee. destruct (I2 m e Ee) as (Hm & g & ty & u & Hi & Hright).
    split; [done|]. exists g, ty, u. split; [done|]. unfold right_ok in *. cbn.
    destruct ty; try done; destruct Hright as (Hu & P & EP & Hright); (split; [done|]);
      exists P; (split; [|done]); rewrite lookup_insert_ne; congruence.
  - intros q Q. destruct (decide (q = d)) as [->|Hq].
    + rewrite lookup_insert_eq. intros [= <-]. split; try done; try (intros; lia).
      * congruence.
      * intros _. rewrite (proj2 (Z.eqb_neq _ _)) by done. lia.
    + rewrite lookup_insert_ne by done. apply I3.
  - by rewrite lookup_insert_ne.
  - intros q. destruct (decide (q = d)); [lia|apply I6].
  - intros q. destruct (decide (q = d)) as [->|Hq]; [by rewrite lookup_insert_eq|].
    rewrite lookup_insert_ne by done. apply I7.
Qed.

(** A receive right in transit to the port 8192 arrives at the name that has a send right
    already: the space becomes the receiver, and the reference to the destination goes. *)
Definition transit_port : ipc_port :=
  Port IO_BITS_ACTIVE 2 8192 MACH_PORT_NULL 0 0 1 0 IP_NULL IP_NULL None 0 0.
Definition transit_arrived : ipc_port :=
  Port IO_BITS_ACTIVE 1 256 0x203 0 0 1 0 IP_NULL IP_NULL None 0 0.
Definition queue_port (r : Z) : ipc_port :=
  Port IO_BITS_ACTIVE r 512 0x103 0 0 0 0 IP_NULL IP_NULL None 0 0.
Definition transit_kstate : kstate :=
  set_ks_ports (<[8192 := queue_port 3]> {[4096 := transit_port]}) (single_kstate 4096 transit_port).
Definition transit_out : Z -> ghost := λ q,
  if decide (q = 8192) then Ghost 0 0 3 else single_out 4096 (Ghost 0 0 1) q.

Lemma transit_inv :
  inv 256 i386_dnrequests transit_out transit_kstate (single_store 0x203 4096 (send_entry 7) RSend).
Proof.
  apply (outside_inv 256 i386_dnrequests (single_out 4096 (Ghost 0 0 1))
    (single_kstate 4096 transit_port) _ 8192 (queue_port 3) (Ghost 0 0 3)); try done.
  apply (single_inv _ _ _ _ _ _ _ 5 RSend 7); try done.
  - by left.
  - split; [done|]. exists transit_port. split; [done|]. intros _. split; [done|by left].
Qed.

(** The message's send right merges with the name's; and the arrival from the transit above. *)
Lemma right_copyout_correct_witness :
  runs (ipc_right_copyout 256 0x203 MACH_MSG_TYPE_PORT_SEND false 4096)
    (did 256 i386_dnrequests (single_kstate 4096 (far_port 3 2))
      (single_store 0x203 4096 (send_entry 7) RSend) 0x203 5
      (Effect KERN_SUCCESS (Some (RSend, 8)) (ks_ports (single_kstate 4096 (far_port 2 1))) []
        (moved 4096 (-1) 0 (-1) (single_out 4096 (Ghost 1 0 2)))))
    (RState (single_kstate 4096 (far_port 3 2)) (single_store 0x203 4096 (send_entry 7) RSend) true) /\
  runs (ipc_right_copyout 256 0x203 MACH_MSG_TYPE_PORT_RECEIVE false 4096)
    (did 256 i386_dnrequests transit_kstate (single_store 0x203 4096 (send_entry 7) RSend) 0x203 5
      (Effect KERN_SUCCESS (Some (RSendReceive, 7))
        (<[8192 := queue_port 2]> {[4096 := transit_arrived]}) []
        (moved 8192 0 0 (-1) (moved 4096 0 0 (-1) transit_out))))
    (RState transit_kstate (single_store 0x203 4096 (send_entry 7) RSend) true).
Proof.
  split.
  - apply (right_copyout_correct 256 i386_dnrequests (single_out 4096 (Ghost 1 0 2))
      (single_kstate 4096 (far_port 3 2)) (single_store 0x203 4096 (send_entry 7) RSend) 0x203 4096
      (send_entry 7) (far_port 3 2) 5 RSend 7); try done.
    + by apply carried_inv.
    + intros m Hm Hh. apply Hm. by injection Hh.
    + right. left. split; [done|]. split; [done|by left].
  - apply (right_copyout_correct 256 i386_dnrequests transit_out transit_kstate
      (single_store 0x203 4096 (send_entry 7) RSend) 0x203 4096 (send_entry 7) transit_port 5 RSend 7);
      try done.
    + exact transit_inv.
    + intros m Hm Hh. apply Hm. by injection Hh.
    + right. right. split; [done|]. split; [done|]. split; [|by left].
      intros _. split; [done|]. by exists (queue_port 3).
Defined.

End IpcRightMove.
