(* ===== verification/IpcEntry.v ===== *)
(** The entries of an IPC space, osfmk/ipc/ipc_entry.c: a table with a free list and
    generation numbers, and a splay tree for the names that do not fit the table.

    The state is one space with the global reverse hash table and, as [w_other], whatever
    else the other threads see.  Tables are values: that the table is the same one after an
    unlock is checked by its size.  The kernel's [assert]s are on.  The lock is a flag, and
    what other threads do while it is free is the parameter [others], applied when the lock
    is taken; the answers of the allocators are parameters too. *)

From S2P Require Import Prelude.
From S2P Require Import IpcSplay.
From S2P Require Import IpcHash.
From S2P Require Import IpcStore.
Import IpcSplay.IpcSplay.
Import IpcHash.IpcHash.

Module IpcEntry.

Abbreviation IE_BITS_TYPE := IpcStore.IE_BITS_TYPE.
Abbreviation MACH_PORT_TYPE_NONE := IpcStore.MACH_PORT_TYPE_NONE.
Abbreviation MACH_PORT_TYPE_SEND := IpcStore.MACH_PORT_TYPE_SEND.

Definition KERN_SUCCESS : Z := 0.
Definition KERN_NO_SPACE : Z := 3.
Definition KERN_FAILURE : Z := 5.
Definition KERN_RESOURCE_SHORTAGE : Z := 6.
Definition KERN_INVALID_TASK : Z := 16.

(** The collision mark of an entry and the step of its generation
    (osfmk/ipc/ipc_entry.h, 123-130). *)
Definition IE_BITS_COLLISION : Z := 0x00800000.
Definition IE_BITS_GEN_ONE : Z := 0x04000000.
(** [IE_BITS_NEW_GEN] (osfmk/ipc/ipc_entry.h, 130-130). *)
Definition IE_BITS_NEW_GEN (old : Z) : Z := u32 (old + IE_BITS_GEN_ONE) &&& IE_BITS_GEN_MASK.
(** [MACH_PORT_VALID] (osfmk/mach/port.h, 194-198). *)
Definition MACH_PORT_VALID (name : Z) : bool := negb (name =? 0) && negb (name =? 2 ^ 32 - 1).

(** [sizeof(struct ipc_entry)] and [sizeof(struct ipc_tree_entry)] of the 32-bit kernel. *)
Definition sizeof_ipc_entry : Z := 16.
Definition sizeof_ipc_tree_entry : Z := 32.

(** * Spaces *)

(** A tree entry (osfmk/ipc/ipc_entry.h, 141-147) without its name and links, which are the
    tree's: its address and space and the fields of the embedded [ipc_entry]. *)
Record tnode := TNode {
  tn_addr : Z; tn_space : Z; tn_object : Z; tn_bits : Z; tn_request : Z }.

#[global] Instance tnode_eq_dec : EqDecision tnode.
Proof. solve_decision. Defined.

Abbreviation name_tree := (splay (E := tnode)).

(** A tree entry as the buckets of the global table see it. *)
Definition hash_entry (name : Z) (x : tnode) : tree_entry :=
  TreeEntry (tn_addr x) name (tn_space x) (tn_object x).

(** [ipc_space] (osfmk/ipc/ipc_space.h, 111-130): [is_hash] holds the fields the reverse hash
    tables use, the entry table among them; [is_table_next] is an index of
    [ipc_table_entries]. *)
Record ipc_space := ISpace {
  is_hash : space;
  is_active : bool;
  is_growing : bool;
  is_table_next : nat;
  is_tree : name_tree;
  is_tree_small : Z }.

(** The space, its lock, the global hash table and the rest of the system. *)
Record world {O : Type} := World {
  w_space : ipc_space; w_locked : bool; w_buckets : buckets; w_other : O }.
Arguments world : clear implicits.
Arguments World {O}.

Definition set_is_hash v s := ISpace v (is_active s) (is_growing s) (is_table_next s) (is_tree s) (is_tree_small s).
Definition set_is_growing v s := ISpace (is_hash s) (is_active s) v (is_table_next s) (is_tree s) (is_tree_small s).
Definition set_is_table_next v s := ISpace (is_hash s) (is_active s) (is_growing s) v (is_tree s) (is_tree_small s).
Definition set_is_tree v s := ISpace (is_hash s) (is_active s) (is_growing s) (is_table_next s) v (is_tree_small s).
Definition set_is_tree_small v s := ISpace (is_hash s) (is_active s) (is_growing s) (is_table_next s) (is_tree s) v.
Definition set_tree_total v s := set_is_hash (Space (is_addr (is_hash s)) (is_table (is_hash s))
  (is_table_size (is_hash s)) v (is_tree_hash (is_hash s)) (is_fast (is_hash s))) s.
Definition set_table t size s := set_is_hash (Space (is_addr (is_hash s)) t size
  (is_tree_total (is_hash s)) (is_tree_hash (is_hash s)) (is_fast (is_hash s))) s.

(** [ie_next] and [ie_request] share a word. *)
Definition with_bits v e := Entry (ie_object e) v (ie_request e) (ie_index e).
Definition with_request v e := Entry (ie_object e) (ie_bits e) v (ie_index e).
Abbreviation ie_next := ie_request.
Abbreviation with_next := with_request.

(** An [ipc_entry_t]: a slot of the table or the tree entry of a name. *)
Inductive eptr := PTable (index : Z) | PTree (name : Z).

(** Why a thread lets others run: it waits for the lock of the space, allocates a new table
    while the space is marked as growing, or sleeps until the thread that grows it is done. *)
Inductive pause := Locking | Growing | Sleeping.

Section entries.
Context {O : Type}.

Abbreviation E := (kern (world O)).

(** What other threads do to the system when the lock is free, the next time it is taken;
    the answers of the allocators of tables and of tree entries (its address). *)
Context (others : pause -> world O -> world O).
Context (table_alloc : world O -> bool) (ite_alloc : world O -> option Z).
(** The sizes an entry table grows along. *)
Context (ipc_table_entries : list Z).
(** What a splay tree on the stack holds before it is written. *)
Context (uninit : name_tree).

Definition set_space (f : ipc_space -> ipc_space) : E unit :=
  modify (λ w, World (f (w_space w)) (w_locked w) (w_buckets w) (w_other w)).
Definition of_space {A} (f : ipc_space -> A) : E A := gets (λ w, f (w_space w)).

Definition is_write_lock (why : pause) : E unit :=
  locked ← gets w_locked;
  assert_ (negb locked);;
  modify (others why);;
  modify (λ w, World (w_space w) true (w_buckets w) (w_other w)).
Definition is_write_unlock : E unit :=
  locked ← gets w_locked;
  assert_ locked;;
  modify (λ w, World (w_space w) false (w_buckets w) (w_other w)).
Definition is_write_sleep : E unit := is_write_unlock;; is_write_lock Sleeping.

(** Accesses of the table, in its bounds. *)
Definition table_read (i : Z) : E ipc_entry :=
  deref (λ w, if 0 <=? i then entry_at (is_table (is_hash (w_space w))) i else None).
Definition table_write (i : Z) (e : ipc_entry) : E unit :=
  _ ← table_read i;
  set_space (λ s, set_is_hash (set_is_table (is_hash s)
    (<[Z.to_nat i := e]> (is_table (is_hash s)))) s).
Definition table_set (i : Z) (f : ipc_entry -> ipc_entry) : E unit :=
  e ← table_read i; table_write i (f e).

(** An operation of the splay tree of the space. *)
Definition on_tree {A} (f : name_tree -> option (A * name_tree)) : E A :=
  '(a, t) ← deref (λ w, f (is_tree (w_space w)));
  set_space (set_is_tree t);; mret a.
Definition on_hash (f : space -> buckets -> option (space * buckets)) : E unit :=
  '(s, g) ← deref (λ w, f (is_hash (w_space w)) (w_buckets w));
  modify (λ w, World (set_is_hash s (w_space w)) (w_locked w) g (w_other w)).

(** [ipc_entry_tree_collision] (osfmk/ipc/ipc_entry.c, 110-131). *)
Definition ipc_entry_tree_collision (name : Z) : E bool :=
  active ← of_space is_active;
  assert_ active;;
  '(lower, upper) ← on_tree (λ t, '(lo, up, t) ← ipc_splay_tree_bounds t name; Some ((lo, up), t));
  let index := MACH_PORT_INDEX name in
  mret ((negb (lower =? 2 ^ 32 - 1) && (MACH_PORT_INDEX lower =? index))
        || (negb (upper =? 0) && (MACH_PORT_INDEX upper =? index))).

(** [ipc_entry_lookup], the search in the tree (osfmk/ipc/ipc_entry.c, 179-188). *)
Definition tree_lookup (name : Z) : E (option eptr) :=
  found ← on_tree (λ t, ipc_splay_tree_lookup t name);
  mret (match found with
        | Some x => if truth (IE_BITS_TYPE (tn_bits x)) then Some (PTree name) else None
        | None => None
        end).

(** [ipc_entry_lookup] (osfmk/ipc/ipc_entry.c, 142-192).  The final assertion, that the entry
    has a type, repeats the tests. *)
Definition ipc_entry_lookup (name : Z) : E (option eptr) :=
  s ← of_space id;
  assert_ (is_active s);;
  let index := MACH_PORT_INDEX name in
  if is_fast (is_hash s) then
    e ← table_read index;
    mret (if negb (IE_BITS_GEN (ie_bits e) =? MACH_PORT_GEN name)
             || (IE_BITS_TYPE (ie_bits e) =? MACH_PORT_TYPE_NONE)
          then None else Some (PTable index))
  else if index <? is_table_size (is_hash s) then
    e ← table_read index;
    if negb (IE_BITS_GEN (ie_bits e) =? MACH_PORT_GEN name) then
      if truth (ie_bits e &&& IE_BITS_COLLISION) then
        assert_ (0 <? is_tree_total (is_hash s));;
        tree_lookup name
      else mret None
    else if IE_BITS_TYPE (ie_bits e) =? MACH_PORT_TYPE_NONE then mret None
    else mret (Some (PTable index))
  else if is_tree_total (is_hash s) =? 0 then mret None
  else tree_lookup name.

(** [ipc_entry_get] (osfmk/ipc/ipc_entry.c, 206-256): the code and the new name, whose slot
    is the entry. *)
Definition ipc_entry_get : E (Z * Z) :=
  active ← of_space is_active;
  assert_ active;;
  table ← table_read 0;
  let first_free := ie_next table in
  if first_free =? 0 then mret (KERN_NO_SPACE, 0)
  else
    free_entry ← table_read first_free;
    table_set 0 (with_next (ie_next free_entry));;
    let gen := IE_BITS_NEW_GEN (ie_bits free_entry) in
    table_set first_free (λ e, with_request 0 (with_bits gen e));;
    let new_name := MACH_PORT_MAKE first_free gen in
    assert_ (MACH_PORT_VALID new_name);;
    assert_ (ie_object free_entry =? IO_NULL);;
    mret (KERN_SUCCESS, new_name).
(** ** Growing the table *)

(** [it_entries_reallocable] picks between remapping the table and copying it: the first
    [osize] entries are the same. *)

(** [ipc_entry_grow_table], the search for a target size (osfmk/ipc/ipc_entry.c, 690-699):
    the index in [ipc_table_entries], or none when the sizes end before it. *)
Fixpoint find_target (fuel : nat) (its : nat) (psize size target_size : Z) : option (option nat) :=
  if negb (psize =? size) && (size <? target_size) then
    match fuel with
    | 0%nat => None
    | S fuel =>
        size' ← ipc_table_entries !! S its;
        find_target fuel (S its) size size' target_size
    end
  else Some (if psize =? size then None else Some its).

Definition null_entry : ipc_entry := Entry 0 0 0 0.
(** [ipc_entry_grow_table], the old entries of the new table: the hash slots are cleared,
    the new part is zero (osfmk/ipc/ipc_entry.c, 766-780). *)
Definition widened (size : Z) (t : table) : table :=
  ((λ e, Entry (ie_object e) (ie_bits e) (ie_request e) 0) <$> t)
    ++ replicate (Z.to_nat (size - zlen t)) null_entry.

(** [ipc_entry_grow_table], the loop that puts old entries into the reverse hash table
    (osfmk/ipc/ipc_entry.c, 785-792). *)
Fixpoint rehash (n : nat) (i : Z) : E unit :=
  match n with
  | 0%nat => mret tt
  | S n =>
      e ← table_read i;
      (if IE_BITS_TYPE (ie_bits e) =? MACH_PORT_TYPE_SEND then
         on_hash (λ s g, t ← ipc_hash_local_insert (is_table s) (is_table_size s) (ie_object e) i;
                         Some (set_is_table s t, g))
       else mret tt);;
      rehash n (i + 1)
  end.

(** [ipc_entry_grow_table], an entry in its slot: the hash tables and the number of tree
    entries (osfmk/ipc/ipc_entry.c, 873-879). *)
Definition move_entry (name : Z) (x : tnode) : E unit :=
  (if IE_BITS_TYPE (tn_bits x) =? MACH_PORT_TYPE_SEND then
     on_hash (λ s g, ipc_hash_global_delete s g (tn_object x) name (hash_entry name x));;
     on_hash (λ s g, t ← ipc_hash_local_insert (is_table s) (is_table_size s)
                           (tn_object x) (MACH_PORT_INDEX name);
                     Some (set_is_table s t, g))
   else mret tt);;
  set_space (λ s, set_tree_total (u32 (is_tree_total (is_hash s) - 1)) s).

(** [ipc_entry_grow_table], the loop that moves entries of the tree into the table
    (osfmk/ipc/ipc_entry.c, 838-881); the tree that is traversed comes back. *)
Fixpoint move_entries (fuel : nat) (osize size : Z) (t : traversal (E := tnode))
    : E (tree (E := tnode)) :=
  match fuel with
  | 0%nat => panic
  | S fuel =>
      match t with
      | Done root => mret root
      | At ITE_NULL _ => panic
      | At (Node name x _ _) _ =>
          let gen := MACH_PORT_GEN name in
          let index := MACH_PORT_INDEX name in
          addr ← of_space (λ s, is_addr (is_hash s));
          assert_ (tn_space x =? addr);;
          assert_ ((osize <=? index) && (index <? size));;
          e ← table_read index;
          if truth (IE_BITS_TYPE (ie_bits e)) then
            assert_ (negb (IE_BITS_GEN (ie_bits e) =? gen));;
            table_set index (with_bits (ie_bits e ||| IE_BITS_COLLISION));;
            t ← deref (λ _, ipc_splay_traverse_next t false);
            move_entries fuel osize size t
          else
            let bits := tn_bits x in
            let type := IE_BITS_TYPE bits in
            assert_ (negb (type =? MACH_PORT_TYPE_NONE));;
            table_write index (Entry (tn_object x) (bits ||| gen) (tn_request x) (ie_index e));;
            move_entry name x;;
            t ← deref (λ _, ipc_splay_traverse_next t true);
            move_entries fuel osize size t
      end
  end.

(** [ipc_entry_grow_table], the loop that counts the indices of the small entries
    (osfmk/ipc/ipc_entry.c, 886-899). *)
Fixpoint count_small (fuel : nat) (nosmall index : Z) (t : traversal (E := tnode))
    : option (Z * tree (E := tnode)) :=
  match fuel with
  | 0%nat => None
  | S fuel =>
      match t with
      | Done root => Some (nosmall, root)
      | At ITE_NULL _ => None
      | At (Node name _ _ _) _ =>
          let nindex := MACH_PORT_INDEX name in
          t ← ipc_splay_traverse_next t false;
          if negb (nindex =? index) then count_small fuel (u32 (nosmall + 1)) nindex t
          else count_small fuel nosmall index t
      end
  end.
(** [ipc_entry_grow_table], the work on the tree (osfmk/ipc/ipc_entry.c, 801-910): it is cut
    at the indices [osize], [size] and [nsize], the entries of the second part move into the
    table, those of the third are counted, and the parts are joined. *)
Definition grow_tree (osize size nsize : Z) : E unit :=
  small ← on_tree (λ t, '(t, small) ← ipc_splay_tree_split t (MACH_PORT_MAKE nsize 0) uninit;
                        Some (small, t));
  '(small, move) ← deref (λ _, ipc_splay_tree_split small (MACH_PORT_MAKE size 0) uninit);
  '(move, ignore) ← deref (λ _, ipc_splay_tree_split move (MACH_PORT_MAKE osize 0) uninit);
  t ← deref (λ _, ipc_splay_traverse_start move);
  root ← move_entries (S (length (contents move))) osize size t;
  let move := ipc_splay_traverse_finish move root in
  t ← deref (λ _, ipc_splay_traverse_start small);
  '(nosmall, root) ← deref (λ _, count_small (S (length (contents small))) 0 0 t);
  let small := ipc_splay_traverse_finish small root in
  total ← of_space (λ s, is_tree_total (is_hash s));
  assert_ (nosmall <=? u32 (nsize - size));;
  assert_ (nosmall <=? total);;
  set_space (set_is_tree_small nosmall);;
  on_tree (λ t, '(t, _) ← ipc_splay_tree_join t small; Some (tt, t));;
  on_tree (λ t, '(t, _) ← ipc_splay_tree_join t move; Some (tt, t));;
  on_tree (λ t, '(t, _) ← ipc_splay_tree_join t ignore; Some (tt, t)).

(** [ipc_entry_grow_table], the loop that adds the unused entries from [osize] on to the free
    list, from the last one down (osfmk/ipc/ipc_entry.c, 919-929). *)
Fixpoint add_free (n : nat) (osize free_index : Z) : E unit :=
  match n with
  | 0%nat => table_set 0 (with_next free_index)
  | S n =>
      let i := osize + Z.of_nat n in
      e ← table_read i;
      if ie_bits e =? 0 then
        table_write i (with_next free_index (with_bits IE_BITS_GEN_MASK e));;
        add_free n osize i
      else add_free n osize free_index
  end.

Definition ITS_SIZE_NONE : Z := 2 ^ 32 - 1.

(** [ipc_entry_grow_table], the new table in use (osfmk/ipc/ipc_entry.c, 762-929). *)
Definition install_table (osize size nsize : Z) (nits : nat) : E unit :=
  t ← of_space (λ s, is_table (is_hash s));
  set_space (set_table (widened size t) size);;
  set_space (set_is_table_next nits);;
  rehash (Z.to_nat osize) 0;;
  s ← of_space is_hash;
  assert_ (negb (is_fast s) || (is_tree_total s =? 0));;
  (if 0 <? is_tree_total s then grow_tree osize size nsize else mret tt);;
  head ← table_read 0;
  add_free (Z.to_nat (size - osize)) osize (ie_next head).

(** [ipc_entry_grow_table] (osfmk/ipc/ipc_entry.c, 641-957). *)
Fixpoint ipc_entry_grow_table (fuel : nat) (target_size : Z) : E Z :=
  match fuel with
  | 0%nat => panic
  | S fuel =>
      s ← of_space id;
      assert_ (is_active s);;
      if is_growing s then is_write_sleep;; mret KERN_SUCCESS
      else
        let its := is_table_next s in
        size ← deref (λ _, ipc_table_entries !! its);
        osize ← deref (λ _, match its with 0%nat => None | S oits => ipc_table_entries !! oits end);
        if negb (target_size =? ITS_SIZE_NONE) && (target_size <=? osize) then
          is_write_unlock;; mret KERN_SUCCESS
        else
          found ← (if negb (target_size =? ITS_SIZE_NONE) then
                     deref (λ _, find_target (length ipc_table_entries) its osize size target_size)
                   else mret (if osize =? size then None else Some its));
          match found with
          | None => is_write_unlock;; mret KERN_NO_SPACE
          | Some its =>
              size ← deref (λ _, ipc_table_entries !! its);
              let nits := S its in
              nsize ← deref (λ _, ipc_table_entries !! nits);
              assert_ ((osize <? size) && (size <=? nsize));;
              set_space (set_is_growing true);;
              is_write_unlock;;
              allocated ← gets table_alloc;
              is_write_lock Growing;;
              set_space (set_is_growing false);;
              if negb allocated then is_write_unlock;; mret KERN_RESOURCE_SHORTAGE
              else
                active ← of_space is_active;
                if negb active then is_write_unlock;; is_write_lock Locking;; mret KERN_SUCCESS
                else
                  s ← of_space id;
                  assert_ ((is_table_next s =? its)%nat || negb (target_size =? ITS_SIZE_NONE));;
                  assert_ (is_table_size (is_hash s) =? osize);;
                  install_table osize size nsize nits;;
                  is_write_unlock;;
                  is_write_lock Locking;;
                  s ← of_space id;
                  if negb (is_active s) || negb (is_table_next s =? nits)%nat then mret KERN_SUCCESS
                  else if (0 <? is_tree_small s)
                          && (u32 ((nsize - size) * sizeof_ipc_entry)
                              <? u32 (is_tree_small s * sizeof_ipc_tree_entry))
                  then ipc_entry_grow_table fuel target_size
                  else mret KERN_SUCCESS
          end
  end.
(** ** Allocating and deallocating entries *)

(** [ipc_entry_alloc], the loop (osfmk/ipc/ipc_entry.c, 282-295). *)
Fixpoint alloc_loop (fuel : nat) : E (Z * Z) :=
  match fuel with
  | 0%nat => panic
  | S fuel' =>
      active ← of_space is_active;
      if negb (active : bool) then is_write_unlock;; mret (KERN_INVALID_TASK, 0)
      else
        '(kr, name) ← ipc_entry_get;
        if kr =? KERN_SUCCESS then mret (kr, name)
        else
          kr ← ipc_entry_grow_table fuel ITS_SIZE_NONE;
          if negb (kr =? KERN_SUCCESS) then mret (kr, 0) else alloc_loop fuel'
  end.

(** [ipc_entry_alloc] (osfmk/ipc/ipc_entry.c, 272-296): the code and the new name. *)
Definition ipc_entry_alloc (fuel : nat) : E (Z * Z) :=
  is_write_lock Locking;; alloc_loop fuel.

(** [ipc_entry_alloc_name], the search for the entry before [index] on the free list
    (osfmk/ipc/ipc_entry.c, 370-374). *)
Fixpoint find_previous (fuel : nat) (t : table) (free_index index : Z) : option Z :=
  match fuel with
  | 0%nat => None
  | S fuel =>
      e ← (if 0 <=? free_index then entry_at t free_index else None);
      if ie_next e =? index then Some free_index else find_previous fuel t (ie_next e) index
  end.

(** [ipc_entry_alloc_name], a free entry is ripped out of the free list
    (osfmk/ipc/ipc_entry.c, 370-383). *)
Definition take_free (index gen : Z) : E unit :=
  t ← of_space (λ s, is_table (is_hash s));
  free_index ← deref (λ _, find_previous (length t) t 0 index);
  next ← table_read index;
  table_set free_index (with_next (ie_next next));;
  table_set index (λ e, with_request 0 (with_bits gen e));;
  e ← table_read index;
  assert_ (ie_object e =? IO_NULL).

(** [ipc_entry_alloc_name], the case of an entry under the table's size
    (osfmk/ipc/ipc_entry.c, 349-390): the entry, or none when the name needs the tree. *)
Definition alloc_in_table (name : Z) (no_tentry : bool) : E (option eptr) :=
  let index := MACH_PORT_INDEX name in
  let gen := MACH_PORT_GEN name in
  s ← of_space is_hash;
  if negb (index <? is_table_size s) then mret None
  else
    e ← table_read index;
    if index =? 0 then
      assert_ (negb (truth (IE_BITS_TYPE (ie_bits e))));;
      assert_ (negb (truth (IE_BITS_GEN (ie_bits e))));;
      mret None
    else if truth (IE_BITS_TYPE (ie_bits e)) then
      if IE_BITS_GEN (ie_bits e) =? gen then
        assert_ no_tentry;; mret (Some (PTable index))
      else mret None
    else
      take_free index gen;;
      assert_ (negb (is_fast s) || no_tentry);;
      mret (Some (PTable index)).

(** [ipc_entry_alloc_name], the tree entry is inserted (osfmk/ipc/ipc_entry.c, 462-482). *)
Definition insert_tentry (name tentry : Z) (next_size : Z) : E unit :=
  let index := MACH_PORT_INDEX name in
  set_space (λ s, set_tree_total (u32 (is_tree_total (is_hash s) + 1)) s);;
  s ← of_space is_hash;
  (if index <? is_table_size s then
     table_set index (λ e, with_bits (ie_bits e ||| IE_BITS_COLLISION) e)
   else if index <? next_size then
     collides ← ipc_entry_tree_collision name;
     if (collides : bool) then mret tt
     else set_space (λ s, set_is_tree_small (u32 (is_tree_small s + 1)) s)
   else mret tt);;
  on_tree (λ t, t ← ipc_splay_tree_insert t name (TNode tentry (is_addr s) IO_NULL 0 0);
                Some (tt, t)).

(** [ipc_entry_alloc_name], the loop (osfmk/ipc/ipc_entry.c, 328-495); [tentry] is the tree
    entry allocated on an earlier pass, null at first. *)
Fixpoint alloc_name_loop (fuel : nat) (name tentry : Z) : E (Z * option eptr) :=
  match fuel with
  | 0%nat => panic
  | S fuel' =>
      let index := MACH_PORT_INDEX name in
      s ← of_space id;
      if negb (is_active s) then is_write_unlock;; mret (KERN_INVALID_TASK, None)
      else
        here ← alloc_in_table name (tentry =? 0);
        match here with
        | Some entry => mret (KERN_SUCCESS, Some entry)
        | None =>
            if is_fast (is_hash s) then
              is_write_unlock;;
              assert_ (tentry =? 0);;
              mret (KERN_FAILURE, None)
            else
              found ← (if 0 <? is_tree_total (is_hash s)
                       then on_tree (λ t, ipc_splay_tree_lookup t name) else mret None);
              match found with
              | Some tentry2 =>
                  assert_ (tn_space tentry2 =? is_addr (is_hash s));;
                  assert_ (truth (IE_BITS_TYPE (tn_bits tentry2)));;
                  mret (KERN_SUCCESS, Some (PTree name))
              | None =>
                  next_size ← deref (λ _, ipc_table_entries !! is_table_next s);
                  if (is_table_size (is_hash s) <=? index) && (index <? next_size)
                     && (u32 (u32 (next_size - is_table_size (is_hash s)) * sizeof_ipc_entry)
                         <? u32 (u32 (is_tree_small s + 1) * sizeof_ipc_tree_entry)) then
                    kr ← ipc_entry_grow_table fuel ITS_SIZE_NONE;
                    assert_ (negb (kr =? KERN_NO_SPACE));;
                    if negb (kr =? KERN_SUCCESS) then mret (kr, None)
                    else alloc_name_loop fuel' name tentry
                  else if negb (tentry =? 0) then
                    insert_tentry name tentry next_size;;
                    mret (KERN_SUCCESS, Some (PTree name))
                  else
                    is_write_unlock;;
                    new ← gets ite_alloc;
                    match new with
                    | None => mret (KERN_RESOURCE_SHORTAGE, None)
                    | Some tentry => is_write_lock Locking;; alloc_name_loop fuel' name tentry
                    end
              end
        end
  end.

(** [ipc_entry_alloc_name] (osfmk/ipc/ipc_entry.c, 313-496). *)
Definition ipc_entry_alloc_name (fuel : nat) (name : Z) : E (Z * option eptr) :=
  assert_ (MACH_PORT_VALID name);;
  is_write_lock Locking;;
  alloc_name_loop fuel name 0.

(** [ipc_entry_dealloc], the entry returns to the free list, as in a fast space, 530-532
    (osfmk/ipc/ipc_entry.c, 592-594). *)
Definition free_entry (index : Z) : E unit :=
  head ← table_read 0;
  table_set index (λ e, with_next (ie_next head) (with_bits (ie_bits e &&& IE_BITS_GEN_MASK) e));;
  table_set 0 (with_next index).

(** [ipc_entry_dealloc], the collisions that remain after a move
    (osfmk/ipc/ipc_entry.c, 574-589). *)
Definition settle_collisions (index tname : Z) (tentry : tnode) (collisions small : name_tree) : E unit :=
  '(_, collisions) ← deref (λ _, ipc_splay_tree_delete collisions tname tentry);
  total ← of_space (λ s, is_tree_total (is_hash s));
  assert_ (0 <? total);;
  set_space (set_tree_total (total - 1));;
  match ipc_splay_tree_pick collisions with
  | Some _ =>
      table_set index (λ e, with_bits (ie_bits e ||| IE_BITS_COLLISION) e);;
      on_tree (λ t, '(t, _) ← ipc_splay_tree_join t collisions; Some (tt, t))
  | None => mret tt
  end;;
  on_tree (λ t, '(t, _) ← ipc_splay_tree_join t small; Some (tt, t)).

(** [ipc_entry_dealloc], an entry that collides moves from the tree to the table
    (osfmk/ipc/ipc_entry.c, 541-589). *)
Definition refill_entry (index : Z) : E unit :=
  collisions ← on_tree (λ t, '(t, c) ← ipc_splay_tree_split t (MACH_PORT_MAKE (index + 1) 0) uninit;
                             Some (c, t));
  '(collisions, small) ← deref (λ _, ipc_splay_tree_split collisions (MACH_PORT_MAKE index 0) uninit);
  '(tname, tentry) ← deref (λ _, ipc_splay_tree_pick collisions);
  assert_ (MACH_PORT_INDEX tname =? index);;
  let obj := tn_object tentry in
  table_set index (λ e, Entry obj (tn_bits tentry ||| MACH_PORT_GEN tname) (tn_request tentry) (ie_index e));;
  addr ← of_space (λ s, is_addr (is_hash s));
  assert_ (tn_space tentry =? addr);;
  (if IE_BITS_TYPE (tn_bits tentry) =? MACH_PORT_TYPE_SEND then
     on_hash (λ s g, ipc_hash_global_delete s g obj tname (hash_entry tname tentry));;
     on_hash (λ s g, t ← ipc_hash_local_insert (is_table s) (is_table_size s) obj index;
                     Some (set_is_table s t, g))
   else mret tt);;
  settle_collisions index tname tentry collisions small.

(** [ipc_entry_dealloc], an entry of the tree (osfmk/ipc/ipc_entry.c, 598-621). *)
Definition dealloc_tentry (name : Z) : E unit :=
  let index := MACH_PORT_INDEX name in
  s ← of_space id;
  tentry ← deref (λ w, dir (is_tree (w_space w)) !! name);
  assert_ (tn_space tentry =? is_addr (is_hash s));;
  _ ← on_tree (λ t, ipc_splay_tree_delete t name tentry);
  assert_ (0 <? is_tree_total (is_hash s));;
  set_space (λ s, set_tree_total (is_tree_total (is_hash s) - 1) s);;
  if index <? is_table_size (is_hash s) then
    e ← table_read index;
    assert_ (truth (ie_bits e &&& IE_BITS_COLLISION));;
    collides ← ipc_entry_tree_collision name;
    if (collides : bool) then mret tt
    else table_set index (λ e, with_bits (Z.ldiff (ie_bits e) IE_BITS_COLLISION) e)
  else
    next_size ← deref (λ _, ipc_table_entries !! is_table_next s);
    if index <? next_size then
      collides ← ipc_entry_tree_collision name;
      if (collides : bool) then mret tt
      else
        assert_ (0 <? is_tree_small s);;
        set_space (λ s, set_is_tree_small (is_tree_small s - 1) s)
    else mret tt.

(** The fields of the entry a pointer points to. *)
Definition entry_object (entry : eptr) : E (Z * Z) :=
  match entry with
  | PTable i => e ← table_read i; mret (ie_object e, ie_request e)
  | PTree name => x ← deref (λ w, dir (is_tree (w_space w)) !! name); mret (tn_object x, tn_request x)
  end.

(** [ipc_entry_dealloc] (osfmk/ipc/ipc_entry.c, 507-623). *)
Definition ipc_entry_dealloc (name : Z) (entry : eptr) : E unit :=
  s ← of_space id;
  assert_ (is_active s);;
  '(object, request) ← entry_object entry;
  assert_ (object =? IO_NULL);;
  assert_ (request =? 0);;
  let index := MACH_PORT_INDEX name in
  let size := is_table_size (is_hash s) in
  match entry with
  | PTable i =>
      if negb (i =? index) || negb (index <? size) then panic
      else
        e ← table_read index;
        assert_ (IE_BITS_GEN (ie_bits e) =? MACH_PORT_GEN name);;
        if is_fast (is_hash s) then
          assert_ (negb (truth (ie_bits e &&& IE_BITS_COLLISION)));;
          free_entry index
        else if truth (ie_bits e &&& IE_BITS_COLLISION) then refill_entry index
        else free_entry index
  | PTree _ => if is_fast (is_hash s) then panic else dealloc_tentry name
  end.

(** ** Creating a space *)

(** [ipc_space_create], the loop that initialises the entries
    (osfmk/ipc/ipc_space.c, 164-169). *)
Fixpoint init_entries (n : nat) (index : Z) : table :=
  match n with
  | 0%nat => []
  | S n => Entry 0 IE_BITS_GEN_MASK (index + 1) 0 :: init_entries n (index + 1)
  end.

(** [ipc_space_create] (osfmk/ipc/ipc_space.c, 135-190): the code and the space. [initial] is an
    index of [ipc_table_entries]; the new space has an address and, as nothing writes it,
    some value of [is_fast]. *)
Definition ipc_space_create (initial : nat) (is_alloc : option (Z * bool)) (it_entries_alloc : bool)
    : option (Z * option ipc_space) :=
  match is_alloc with
  | None => Some (KERN_RESOURCE_SHORTAGE, None)
  | Some (addr, fast) =>
      if negb it_entries_alloc then Some (KERN_RESOURCE_SHORTAGE, None)
      else
        new_size ← ipc_table_entries !! initial;
        let table := init_entries (Z.to_nat new_size) 0 in
        let last := u32 (new_size - 1) in
        e ← entry_at table last;
        let table := <[Z.to_nat last := with_next 0 e]> table in
        Some (KERN_SUCCESS, Some (ISpace (Space addr table new_size 0 0 fast) true false (S initial)
          (ipc_splay_tree_init uninit) 0))
  end.

(** ** The callers in the system *)

(** [task_set_port_space] (osfmk/ipc/mach_port.c, 1865-1877). *)
Definition task_set_port_space (fuel : nat) (table_entries : Z) : E Z :=
  is_write_lock Locking;;
  kr ← ipc_entry_grow_table fuel (u32 table_entries);
  (if kr =? KERN_SUCCESS then is_write_unlock else mret tt);;
  mret kr.
End entries.
(** * Names and bits as numbers *)

(** Linear arithmetic with quotients and remainders by constants. *)
Ltac divlia := Z.to_euclidean_division_equations; lia.

(** The bits of an entry: the generation, the collision mark and the right. *)
Definition mkb (g : Z) (c : bool) (low : Z) : Z := g * 2 ^ 24 + Z.b2z c * 2 ^ 23 + low.
Definition gen_ok (g : Z) : Prop := 0 <= g < 2 ^ 8.
Definition low_ok (low : Z) : Prop := 0 <= low < 2 ^ 23.

Lemma mkb_range g c low : gen_ok g -> low_ok low -> in_range 32 (mkb g c low).
Proof. unfold gen_ok, low_ok, in_range, mkb. destruct c; cbn [Z.b2z]; lia. Qed.

Lemma mkb_split b : in_range 32 b -> ∃ g c low, b = mkb g c low /\ gen_ok g /\ low_ok low.
Proof.
  unfold in_range, gen_ok, low_ok. intros Hb.
  exists (b / 2 ^ 24), (Z.testbit b 23), (b mod 2 ^ 23). unfold mkb. rewrite Z.testbit_spec' by lia.
  change (2 ^ 24) with (2 ^ 23 * 2). rewrite <- Z.div_div by lia. divlia.
Qed.

Lemma mkb_bit g c low i : gen_ok g -> low_ok low -> 0 <= i -> Z.testbit (mkb g c low) i =
  if i <? 23 then Z.testbit low i else if i =? 23 then c else Z.testbit g (i - 24).
Proof.
  unfold gen_ok, low_ok. intros Hg Hlow Hi.
  assert (E : mkb g c low = low + (g * 2 + Z.b2z c) * 2 ^ 23) by (unfold mkb; lia).
  destruct (Z.ltb_spec i 23); [|destruct (Z.eqb_spec i 23) as [->|]].
  - rewrite <- (Z.mod_pow2_bits_low _ 23 i) by lia. by rewrite E, Z.mod_add, Z.mod_small by lia.
  - apply Z.b2z_inj. rewrite Z.testbit_spec', E, Z.div_add, Z.div_small by lia.
    destruct c; cbn [Z.b2z]; divlia.
  - replace i with (i - 24 + 24) at 1 by lia. rewrite <- Z.shiftr_spec, Z.shiftr_div_pow2 by lia.
    f_equal. unfold mkb. destruct c; cbn [Z.b2z]; divlia.
Qed.

Section bits.
Context (g : Z) (c : bool) (low : Z) (Hg : gen_ok g) (Hlow : low_ok low).

Lemma gen_mkb : IE_BITS_GEN (mkb g c low) = g * 2 ^ 24.
Proof.
  unfold IE_BITS_GEN. change IE_BITS_GEN_MASK with (Z.shiftl (Z.ones 8) 24).
  rewrite land_field by lia. unfold gen_ok, low_ok, mkb in *. destruct c; cbn [Z.b2z]; divlia.
Qed.

Lemma collision_mkb : truth (mkb g c low &&& IE_BITS_COLLISION) = c.
Proof. change IE_BITS_COLLISION with (2 ^ 23). by rewrite truth_land_bit, mkb_bit by (done || lia). Qed.

Lemma type_mkb : IE_BITS_TYPE (mkb g c low) = IE_BITS_TYPE low.
Proof.
  unfold IpcStore.IE_BITS_TYPE.
  change IpcStore.IE_BITS_TYPE_MASK with (Z.shiftl (Z.ones 5) 16).
  rewrite !land_field by lia. unfold gen_ok, low_ok, mkb in *. f_equal.
  destruct c; cbn [Z.b2z]; divlia.
Qed.

Lemma set_collision : mkb g c low ||| IE_BITS_COLLISION = mkb g true low.
Proof.
  apply Z.bits_inj'. intros i Hi. change IE_BITS_COLLISION with (2 ^ 23).
  rewrite Z.lor_spec, Z.pow2_bits_eqb, !mkb_bit by (done || lia).
  destruct (Z.ltb_spec i 23), (Z.eqb_spec i 23), (Z.eqb_spec 23 i); try lia;
    by rewrite ?orb_false_r, ?orb_true_r.
Qed.

Lemma clear_collision : Z.ldiff (mkb g c low) IE_BITS_COLLISION = mkb g false low.
Proof.
  apply Z.bits_inj'. intros i Hi. change IE_BITS_COLLISION with (2 ^ 23).
  rewrite Z.ldiff_spec, Z.pow2_bits_eqb, !mkb_bit by (done || lia).
  destruct (Z.ltb_spec i 23), (Z.eqb_spec i 23), (Z.eqb_spec 23 i); try lia;
    by rewrite ?andb_true_r, ?andb_false_r.
Qed.

(** The right of a tree entry with the generation of its name. *)
Lemma add_gen : low ||| (g * 2 ^ 24) = mkb g false low.
Proof.
  assert (E : g * 2 ^ 24 = mkb g false 0) by (unfold mkb; cbn [Z.b2z]; lia).
  assert (E0 : low = mkb 0 false low) by (unfold mkb; cbn [Z.b2z]; lia).
  apply Z.bits_inj'. intros i Hi. rewrite Z.lor_spec, E. rewrite E0 at 1.
  assert (low_ok 0) by (unfold low_ok; lia). assert (gen_ok 0) by (unfold gen_ok; lia).
  rewrite !mkb_bit by done. rewrite !Z.bits_0.
  destruct (i <? 23), (i =? 23); try done; apply orb_false_r.
Qed.

Lemma keep_gen : mkb g c low &&& IE_BITS_GEN_MASK = mkb g false 0.
Proof. change (IE_BITS_GEN (mkb g c low) = mkb g false 0). rewrite gen_mkb. unfold mkb. cbn [Z.b2z]. lia. Qed.

Lemma next_gen : IE_BITS_NEW_GEN (mkb g c low) = mkb ((g + 4) mod 2 ^ 8) false 0.
Proof.
  unfold IE_BITS_NEW_GEN. set (b := mkb g c low).
  assert (Hb : ∃ low', low_ok low' /\ wrap 32 (b + IE_BITS_GEN_ONE) = mkb ((g + 4) mod 2 ^ 8) c low').
  { exists low. split; [done|]. unfold wrap, b, mkb, gen_ok, low_ok, IE_BITS_GEN_ONE in *.
    destruct c; cbn [Z.b2z]; divlia. }
  destruct Hb as (low' & Hl & ->). change (IE_BITS_GEN (mkb ((g + 4) mod 2 ^ 8) c low') = mkb ((g + 4) mod 2 ^ 8) false 0).
  assert (gen_ok ((g + 4) mod 2 ^ 8)) by (unfold gen_ok; divlia).
  unfold IE_BITS_GEN. change IE_BITS_GEN_MASK with (Z.shiftl (Z.ones 8) 24).
  rewrite land_field by lia. unfold gen_ok, low_ok, mkb in *. destruct c; cbn [Z.b2z]; divlia.
Qed.
End bits.

(** A name is the index and the generation. *)
Lemma index_of_name i g : gen_ok g -> MACH_PORT_INDEX (i * 2 ^ 8 + g) = i.
Proof. unfold gen_ok, MACH_PORT_INDEX. intros. rewrite Z.shiftr_div_pow2 by lia. divlia. Qed.

Lemma gen_of_name i g : gen_ok g -> MACH_PORT_GEN (i * 2 ^ 8 + g) = g * 2 ^ 24.
Proof.
  unfold gen_ok, MACH_PORT_GEN. intros. change 0xff with (Z.ones 8).
  rewrite land_ones_mod, Z.shiftl_mul_pow2 by lia.
  replace ((i * 2 ^ 8 + g) mod 2 ^ 8) with g by divlia. apply wrap_small. unfold in_range. lia.
Qed.

Lemma make_name i g : 0 <= i < 2 ^ 24 -> gen_ok g -> MACH_PORT_MAKE i (g * 2 ^ 24) = i * 2 ^ 8 + g.
Proof.
  unfold gen_ok, MACH_PORT_MAKE. intros Hi Hg. rewrite Z.shiftl_mul_pow2, Z.shiftr_div_pow2, Z.div_mul by lia.
  rewrite wrap_small by (unfold in_range; lia).
  rewrite <- Z.lxor_lor; [rewrite <- Z.add_nocarry_lxor; [done|]|].
  all: apply Z.bits_inj'; intros k Hk; rewrite Z.land_spec, Z.bits_0;
    destruct (Z.ltb_spec k 8); [rewrite Z.mul_pow2_bits_low by lia; done|];
    rewrite (Z.bits_above_log2 g), andb_false_r; [done|lia|];
    destruct (Z.eq_dec g 0) as [->|]; [simpl; lia|];
    apply Z.log2_lt_pow2; [lia|]; apply Z.lt_le_trans with (2 ^ 8); [lia|]; by apply Z.pow_le_mono_r.
Qed.

Lemma name_split n : in_range 32 n -> ∃ i g, n = i * 2 ^ 8 + g /\ 0 <= i < 2 ^ 24 /\ gen_ok g.
Proof. unfold in_range, gen_ok. intros. exists (n / 2 ^ 8), (n mod 2 ^ 8). divlia. Qed.

End IpcEntry.
