(* ===== verification/IpcEntrySpec.v ===== *)
(** What the operations of IpcEntry keep and do: the invariant of a space, with the free list
    of its table, the names in its tree and the names its reverse hash tables hold; lookups,
    allocations and deallocations against the relation [has_entry] of names and entries. *)

From stdpp Require Import sorting.
From S2P Require Import Prelude.
From S2P Require Import IpcSplay.
From S2P Require Import IpcHash.
From S2P Require Import IpcStore.
From S2P Require Import IpcEntry.
Import IpcSplay.IpcSplay.
Import IpcHash.IpcHash.
Import IpcEntry.IpcEntry.

Module IpcEntrySpec.

(** * Tables and their free lists *)

(** Slot [i] of the table holds [e]. *)
Definition slot_at (t : table) (i : Z) (e : ipc_entry) : Prop := 0 <= i /\ entry_at t i = Some e.

(** The free list from [i] on runs through the slots [l]. *)
Fixpoint chain (t : table) (i : Z) (l : list Z) : Prop :=
  match l with
  | [] => i = 0
  | j :: l => i = j /\ 0 < j /\ ∃ e, slot_at t j e /\ chain t (ie_next e) l
  end.

Definition put (t : table) (i : Z) (e : ipc_entry) : table := <[Z.to_nat i := e]> t.

Section tables.
Context (t : table).

Lemma slot_at_range i e : slot_at t i e -> 0 <= i < zlen t.
Proof. intros [Hi He]. unfold entry_at in He. apply lookup_lt_Some in He. lia. Qed.

Lemma slot_at_fun i e e' : slot_at t i e -> slot_at t i e' -> e = e'.
Proof. intros [_ H] [_ H']. congruence. Qed.

Lemma slot_at_some i : 0 <= i < zlen t -> ∃ e, slot_at t i e.
Proof.
  intros Hi. destruct (lookup_lt_is_Some_2 t (Z.to_nat i)) as [e He]; [lia|].
  exists e. split; [lia|done].
Qed.

Lemma put_length i e : zlen (put t i e) = zlen t.
Proof. unfold put. by rewrite length_insert. Qed.

Lemma slot_at_put i e j e' : 0 <= i < zlen t ->
  slot_at (put t i e) j e' <-> (j = i /\ e' = e) \/ (j <> i /\ slot_at t j e').
Proof.
  intros Hi. unfold slot_at, put, entry_at. destruct (decide (j = i)) as [->|Hji].
  - rewrite list_lookup_insert_eq by lia. split; [intros [_ [= <-]]; auto|].
    intros [[_ ->]|[? _]]; [|done]. split; [lia|done].
  - split.
    + intros [Hj H]. right. rewrite list_lookup_insert_ne in H by lia. done.
    + intros [[? _]|(_ & Hj & H)]; [done|]. split; [done|]. by rewrite list_lookup_insert_ne by lia.
Qed.

Lemma slot_at_put_eq i e : 0 <= i < zlen t -> slot_at (put t i e) i e.
Proof. intros. apply slot_at_put; auto. Qed.
Lemma slot_at_put_ne i e j e' : 0 <= i < zlen t -> j <> i -> slot_at t j e' -> slot_at (put t i e) j e'.
Proof. intros. apply slot_at_put; auto. Qed.

Lemma chain_pos i l : chain t i l -> Forall (λ j, 0 < j < zlen t) l.
Proof.
  revert i. induction l as [|j l IH]; [constructor|]. intros i (-> & Hj & e & He & Hc).
  constructor; [|by eapply IH]. pose proof (slot_at_range _ _ He). lia.
Qed.

Lemma chain_head i l : chain t i l -> match l with [] => i = 0 | j :: _ => i = j /\ 0 < j end.
Proof. destruct l as [|j l]; [done|]. by intros (-> & Hj & _). Qed.

(** The free list up to a member and from it on. *)
Lemma chain_app i l1 j l2 : chain t i (l1 ++ j :: l2) -> ∃ e, slot_at t j e /\ 0 < j /\ chain t (ie_next e) l2.
Proof.
  revert i. induction l1 as [|k l1 IH]; intros i.
  - intros (-> & Hj & e & He & Hc). eauto.
  - intros (_ & _ & e & _ & Hc). eauto.
Qed.
End tables.

(** A write to a slot that is not on the free list leaves the list. *)
Lemma chain_put t i l j e : 0 <= j < zlen t -> j ∉ l -> chain t i l -> chain (put t j e) i l.
Proof.
  intros Hj. revert i. induction l as [|k l IH]; [done|]. intros i Hn (-> & Hk & e' & He & Hc).
  apply not_elem_of_cons in Hn as [Hjk Hn]. split; [done|]. split; [done|]. exists e'. split; [|by apply IH].
  apply slot_at_put_ne; auto.
Qed.

(** ** The hash slots of a table that is written *)

Lemma ixf_put t i e e0 h : slot_at t i e0 -> ie_index e = ie_index e0 -> ixf (put t i e) h = ixf t h.
Proof.
  intros [Hi He0] Hix. unfold ixf, put, entry_at in *.
  destruct (decide (Z.to_nat h = Z.to_nat i)) as [->|Hne].
  - rewrite list_lookup_insert_eq by (by apply lookup_lt_Some in He0). by rewrite He0.
  - by rewrite list_lookup_insert_ne.
Qed.

Lemma obj_of_put_ne t i e j : Z.to_nat j <> Z.to_nat i -> obj_of (put t i e) j = obj_of t j.
Proof. intros. unfold obj_of, put, entry_at. by rewrite list_lookup_insert_ne. Qed.

Lemma obj_of_at t i e : slot_at t i e -> obj_of t i = ie_object e.
Proof. intros [_ H]. unfold obj_of. by rewrite H. Qed.

Lemma hashed_put t i e e0 j : slot_at t i e0 -> ie_index e = ie_index e0 ->
  hashed (put t i e) j <-> hashed t j.
Proof.
  intros H0 Hix. unfold hashed. rewrite put_length.
  by setoid_rewrite (ixf_put t i e e0 _ H0 Hix).
Qed.

Lemma table_ok_put t i e e0 : table_ok t -> slot_at t i e0 -> ie_index e = ie_index e0 ->
  (hashed t i -> ie_object e = ie_object e0) -> table_ok (put t i e).
Proof.
  intros [H1 H2 H3] H0 Hix Hobj. pose proof (slot_at_range _ _ _ H0) as Hi.
  assert (Hsame : ∀ h, slot (zlen t) h -> ixf t h <> 0 -> obj_of (put t i e) (ixf t h) = obj_of t (ixf t h)).
  { intros h Hh Hx. destruct (decide (Z.to_nat (ixf t h) = Z.to_nat i)) as [E|]; [|by apply obj_of_put_ne].
    assert (Hxi : ixf t h = i) by (apply (probed_index _ _ _ H2) in Hx; [lia|done]).
    rewrite Hxi. rewrite (obj_of_at t i e0) by done. rewrite (obj_of_at _ i e) by (by apply slot_at_put_eq).
    apply Hobj. split; [lia|]. eauto. }
  constructor; rewrite ?put_length.
  - done.
  - destruct H2 as [Hi1 Hp1 Hj1]. constructor; setoid_rewrite (ixf_put t i e e0 _ H0 Hix); try done.
    intros h k Hh Hx Hk Hpath. apply (Hp1 h k); try done.
    unfold home in *. rewrite Hsame, put_length in Hpath by done. done.
  - intros h Hh. rewrite (ixf_put t i e e0) by done. intros Hx. rewrite Hsame by done. auto.
Qed.

(** * Steps *)

Abbreviation tab s := (is_table (is_hash s)).
Definition with_tab (t : table) (s : ipc_space) : ipc_space := set_is_hash (set_is_table (is_hash s) t) s.

Section steps.
Context {O : Type}.
Implicit Types (w : world O) (o : O).

Lemma s_of_space {A} (f : ipc_space -> A) (Q : A -> world O -> Prop) s lk g o :
  Q (f s) (World s lk g o) -> runs (of_space f) Q (World s lk g o).
Proof. done. Qed.

Lemma s_set_space f (Q : unit -> world O -> Prop) s lk g o :
  Q tt (World (f s) lk g o) -> runs (set_space f) Q (World s lk g o).
Proof. done. Qed.

Lemma s_deref {A} (f : world O -> option A) a (Q : A -> world O -> Prop) w :
  f w = Some a -> Q a w -> runs (deref f) Q w.
Proof. apply runs_deref. Qed.

Lemma s_read i e (Q : ipc_entry -> world O -> Prop) s lk g o :
  slot_at (tab s) i e -> Q e (World s lk g o) -> runs (table_read i) Q (World s lk g o).
Proof.
  intros [Hi He] HQ. apply (runs_deref _ e); [|done]. cbn. by rewrite (proj2 (Z.leb_le 0 i)).
Qed.

Lemma s_write i e0 e (Q : unit -> world O -> Prop) s lk g o :
  slot_at (tab s) i e0 -> Q tt (World (with_tab (put (tab s) i e) s) lk g o) ->
  runs (table_write i e) Q (World s lk g o).
Proof. intros H0 HQ. apply runs_bind. by eapply s_read. Qed.

Lemma s_set f i e (Q : unit -> world O -> Prop) s lk g o :
  slot_at (tab s) i e -> Q tt (World (with_tab (put (tab s) i (f e)) s) lk g o) ->
  runs (table_set i f) Q (World s lk g o).
Proof. intros H0 HQ. apply runs_bind. eapply s_read; [done|]. by eapply s_write. Qed.

Lemma s_on_tree {A} (f : name_tree -> option (A * name_tree)) a t (Q : A -> world O -> Prop) s lk g o :
  f (is_tree s) = Some (a, t) -> Q a (World (set_is_tree t s) lk g o) ->
  runs (on_tree f) Q (World s lk g o).
Proof. intros E HQ. apply runs_bind, (runs_deref _ (a, t)); [done|]. exact HQ. Qed.

Lemma s_on_hash f h' g' (Q : unit -> world O -> Prop) s lk g o :
  f (is_hash s) g = Some (h', g') -> Q tt (World (set_is_hash h' s) lk g' o) ->
  runs (on_hash f) Q (World s lk g o).
Proof. intros E HQ. apply runs_bind, (runs_deref _ (h', g')); [done|]. exact HQ. Qed.

Lemma s_unlock (Q : unit -> world O -> Prop) s g o :
  Q tt (World s false g o) -> runs is_write_unlock Q (World s true g o).
Proof. done. Qed.

Lemma s_lock others why (Q : unit -> world O -> Prop) s g o :
  (∀ s' lk' g' o', others why (World s false g o) = World s' lk' g' o' -> Q tt (World s' true g' o')) ->
  runs (is_write_lock others why) Q (World s false g o).
Proof.
  intros HQ. unfold is_write_lock, runs, mbind, kern_bind, gets, assert_, modify. cbn [w_locked negb].
  destruct (others _ _) as [s' lk' g' o'] eqn:E. cbn. by eapply HQ.
Qed.
End steps.

(** * Names and entries *)

(** What an entry is to the routines on rights: the object, the right, the request. *)
Abbreviation right := IpcStore.entry.
Definition slot_right (e : ipc_entry) (low : Z) : right := IpcStore.Entry (ie_object e) low (ie_request e).
Definition tree_right (x : tnode) : right := IpcStore.Entry (tn_object x) (tn_bits x) (tn_request x).

Definition slot_is (e : ipc_entry) (g : Z) (c : bool) (low : Z) : Prop :=
  ie_bits e = mkb g c low /\ gen_ok g /\ low_ok low.

(** Slot [i] is neither the head of the free list nor on it. *)
Definition used (t : table) (l : list Z) (i : Z) : Prop := 0 < i < zlen t /\ i ∉ l.

Definition in_slot (t : table) (l : list Z) (n : Z) (r : right) : Prop :=
  ∃ i e g c low, n = i * 2 ^ 8 + g /\ used t l i /\ slot_at t i e /\ slot_is e g c low /\
    r = slot_right e low.
Definition in_tree (s : ipc_space) (n : Z) (r : right) : Prop :=
  ∃ x, dir (is_tree s) !! n = Some x /\ r = tree_right x.

(** The space has the name [n], for the entry [r]. *)
Definition has_entry (s : ipc_space) (l : list Z) (n : Z) (r : right) : Prop :=
  in_slot (tab s) l n r \/ in_tree s n r.

(** * The invariant of a space *)

(** The table, with [l] as its free list. *)
Record table_wf (t : table) (l : list Z) : Prop := {
  tw_size : 0 < zlen t < 2 ^ 24;
  tw_head : ∃ h, slot_at t 0 h /\ chain t (ie_next h) l;
  tw_nodup : NoDup l;
  tw_bits i e : slot_at t i e -> in_range 32 (ie_bits e);
  tw_unused i e : slot_at t i e -> i = 0 \/ i ∈ l ->
    ie_object e = IO_NULL /\ ∃ g, slot_is e g false 0 }.

(** The names of the tree whose index is [i]. *)
Definition tree_index (s : ipc_space) (i : Z) : Prop :=
  ∃ n x, dir (is_tree s) !! n = Some x /\ MACH_PORT_INDEX n = i.

(** The indices in the tree that the next size of the table reaches. *)
Definition small_indices (s : ipc_space) (size next : Z) : gset Z :=
  filter (λ i, size <= i < next) (set_map MACH_PORT_INDEX (dom (dir (is_tree s)))).

Record tree_wf (s : ipc_space) (next : Z) : Prop := {
  tr_wf : wf (is_tree s);
  tr_total : is_tree_total (is_hash s) = zlen (contents (is_tree s));
  tr_nodes n x : dir (is_tree s) !! n = Some x ->
    tn_space x = is_addr (is_hash s) /\ low_ok (tn_bits x) /\ 0 < MACH_PORT_INDEX n /\
    n <> MACH_PORT_LARGEST;
  tr_collision i e : slot_at (tab s) i e ->
    truth (ie_bits e &&& IE_BITS_COLLISION) = true <-> tree_index s i;
  tr_gens n x e : dir (is_tree s) !! n = Some x -> slot_at (tab s) (MACH_PORT_INDEX n) e ->
    IE_BITS_GEN (ie_bits e) <> MACH_PORT_GEN n;
  tr_small : is_tree_small s = Z.of_nat (base.size (small_indices s (zlen (tab s)) next));
  tr_fast : is_fast (is_hash s) = true -> contents (is_tree s) = [] }.

(** The reverse hash tables hold names of the space, one for an object. *)
Record names_wf (s : ipc_space) (g : buckets) (l : list Z) : Prop := {
  nm_ok : space_ok (is_hash s) g;
  nm_local i : hashed (tab s) i -> used (tab s) l i;
  nm_global e : e ∈ tree_entries (is_hash s) g ->
    ∃ x, dir (is_tree s) !! ite_name e = Some x /\ e = hash_entry (ite_name e) x /\ tn_object x <> IO_NULL;
  nm_nodup : NoDup (tree_entries (is_hash s) g);
  nm_once o n p n' p' : maps_to (is_hash s) g o n p -> maps_to (is_hash s) g o n' p' -> n = n' }.

Section space.
Context (sizes : list Z).

(** The table has one of the sizes, and [is_table_next] is the one after it. *)
Definition next_ok (s : ipc_space) (next : Z) : Prop :=
  sizes !! is_table_next s = Some next /\
  ∃ k, is_table_next s = S k /\ sizes !! k = Some (zlen (tab s)).

Record space_wf (s : ipc_space) (g : buckets) (l : list Z) (next : Z) : Prop := {
  sw_next : next_ok s next;
  sw_table : table_wf (tab s) l;
  sw_tree : tree_wf s next;
  sw_names : names_wf s g l }.
End space.

(** ** Reading the invariant *)

(** The entry a pointer points to. *)
Definition pointee (s : ipc_space) (l : list Z) (n : Z) (p : eptr) (r : right) : Prop :=
  match p with
  | PTable i => i = MACH_PORT_INDEX n /\ in_slot (tab s) l n r
  | PTree m => m = n /\ in_tree s n r
  end.

(** The space with the tree splayed differently. *)
Definition splayed (s s' : ipc_space) : Prop :=
  ∃ t, s' = set_is_tree t s /\ wf t /\ contents t = contents (is_tree s).

Lemma pointee_has s l n p r : pointee s l n p r -> has_entry s l n r.
Proof. destruct p; intros [_ H]; [by left|by right]. Qed.

Section facts.
Context (sizes : list Z) (s : ipc_space) (g : buckets) (l : list Z) (next : Z).
Context (W : space_wf sizes s g l next).

Lemma slot_decode i e : slot_at (tab s) i e -> ∃ g c low, slot_is e g c low.
Proof.
  intros H. apply (tw_bits _ _ (sw_table _ _ _ _ _ W)) in H.
  apply mkb_split in H as (g1 & c & low & ? & ? & ?). by exists g1, c, low.
Qed.

Lemma table_range : 0 < zlen (tab s) < 2 ^ 24.
Proof. apply (tw_size _ _ (sw_table _ _ _ _ _ W)). Qed.

Lemma table_size : is_table_size (is_hash s) = zlen (tab s).
Proof. apply (space_size _ _ (nm_ok _ _ _ (sw_names _ _ _ _ _ W))). Qed.

(** The slot of a name holds the entry of at most that name. *)
Lemma slot_names i e g1 c low n r : slot_at (tab s) i e -> slot_is e g1 c low ->
  MACH_PORT_INDEX n = i -> in_slot (tab s) l n r ->
  n = i * 2 ^ 8 + g1 /\ r = slot_right e low /\ used (tab s) l i.
Proof.
  intros He (Eb & Hg & Hl) Hi (j & e' & g2 & c' & low' & -> & Hu & He' & (Eb' & Hg' & Hl') & ->).
  rewrite index_of_name in Hi by done. subst j. assert (e' = e) as -> by (by eapply slot_at_fun).
  assert (g2 = g1 /\ low' = low) as [-> ->]; [|done].
  rewrite Eb in Eb'. unfold mkb, gen_ok, low_ok in *. destruct c, c'; cbn [Z.b2z] in *; lia.
Qed.

Lemma no_slot n r : zlen (tab s) <= MACH_PORT_INDEX n -> ~ in_slot (tab s) l n r.
Proof.
  intros Hn (j & e' & g2 & c' & low' & -> & [Hu _] & _ & (_ & Hg' & _) & _).
  rewrite index_of_name in Hn by done. lia.
Qed.

Lemma tree_empty : is_tree_total (is_hash s) = 0 -> ∀ n, dir (is_tree s) !! n = None.
Proof.
  intros H n. rewrite (tr_total _ _ (sw_tree _ _ _ _ _ W)) in H. unfold dir.
  by destruct (contents (is_tree s)).
Qed.

Lemma tree_nonempty n x : dir (is_tree s) !! n = Some x -> 0 < is_tree_total (is_hash s).
Proof.
  intros H. destruct (Z.eqb_spec (is_tree_total (is_hash s)) 0) as [E|E].
  - by rewrite tree_empty in H.
  - rewrite (tr_total _ _ (sw_tree _ _ _ _ _ W)) in *. lia.
Qed.

(** A name of the tree does not match its slot, which has the collision mark. *)
Lemma tree_slot n x i e g1 c low : dir (is_tree s) !! n = Some x -> slot_at (tab s) i e ->
  slot_is e g1 c low -> MACH_PORT_INDEX n = i -> c = true /\ IE_BITS_GEN (ie_bits e) <> MACH_PORT_GEN n.
Proof.
  intros Hx He (Eb & Hg & Hl) Hi. split.
  - rewrite <- (collision_mkb g1 c low) by done. rewrite <- Eb.
    apply (tr_collision _ _ (sw_tree _ _ _ _ _ W) i e He). by exists n, x.
  - eapply (tr_gens _ _ (sw_tree _ _ _ _ _ W)); [done|]. by rewrite Hi.
Qed.

Lemma tree_right_low n x : dir (is_tree s) !! n = Some x -> low_ok (tn_bits x).
Proof. intros Hx. by apply (tr_nodes _ _ (sw_tree _ _ _ _ _ W)) in Hx as (_ & ? & _). Qed.

Lemma has_entry_fun n r r' : has_entry s l n r -> has_entry s l n r' -> r = r'.
Proof.
  assert (Hst : ∀ m q q', in_slot (tab s) l m q -> in_tree s m q' -> False).
  { intros m q q' (j & e & g2 & c & low & -> & Hu & He & Hs & ->) (x & Hx & ->).
    destruct (tree_slot _ x j e g2 c low Hx He Hs) as [_ Hne];
      [apply index_of_name; apply Hs|]. apply Hne. destruct Hs as (-> & Hg & Hl).
    by rewrite gen_mkb, gen_of_name. }
  intros [H|H] [H'|H']; try (by edestruct Hst).
  - pose proof H as (j & e & g2 & c & low & -> & Hu & He & Hs & ->).
    assert (Hi : MACH_PORT_INDEX (j * 2 ^ 8 + g2) = j) by (apply index_of_name; apply Hs).
    by destruct (slot_names _ _ _ _ _ _ _ He Hs Hi H') as (_ & -> & _).
  - destruct H as (x & Hx & ->), H' as (x' & Hx' & ->). congruence.
Qed.

Lemma splayed_wf s' : splayed s s' -> space_wf sizes s' g l next /\
  (∀ n r, has_entry s' l n r <-> has_entry s l n r) /\ tab s' = tab s /\ is_hash s' = is_hash s.
Proof.
  intros (t & -> & Ht & Hc). assert (Hd : dir t = dir (is_tree s)) by (unfold dir; by rewrite Hc).
  destruct W as [W1 W2 [T1 T2 T3 T4 T5 T6 T7] [N1 N2 N3 N4 N5]].
  split; [|split; [|done]].
  - split; [done|done| |].
    + split; cbn; unfold small_indices, tree_index in *; cbn; rewrite ?Hd, ?Hc; done.
    + split; cbn; rewrite ?Hd; done.
  - intros n r. unfold has_entry, in_tree. cbn. by rewrite Hd.
Qed.
End facts.

Lemma splayed_refl sizes s g l next : space_wf sizes s g l next -> splayed s s.
Proof. intros W. exists (is_tree s). split; [by destruct s|]. split; [apply (sw_tree _ _ _ _ _ W)|done]. Qed.

Lemma splayed_trans s1 s2 s3 : splayed s1 s2 -> splayed s2 s3 -> splayed s1 s3.
Proof.
  intros (t & -> & Ht & Hc) (t' & -> & Ht' & Hc'). exists t'. split; [done|]. split; [done|].
  by rewrite Hc'.
Qed.

(** * Lookups *)

Section lookup.
Context {O : Type} (o : O) (sizes : list Z).

Lemma s_tree_find n (s : ipc_space) lk g (Q : option tnode -> world O -> Prop) :
  wf (is_tree s) ->
  (∀ s', splayed s s' -> Q (dir (is_tree s) !! n) (World s' lk g o)) ->
  runs (on_tree (λ t, ipc_splay_tree_lookup t n)) Q (World s lk g o).
Proof.
  intros Hwf HQ. destruct (lookup_spec (is_tree s) n Hwf) as (t & E & Ht & Hc).
  eapply s_on_tree; [exact E|]. apply HQ. by exists t.
Qed.

(** A pointer to a typed entry of the name, or none when there is none. *)
Definition found (s : ipc_space) (l : list Z) (n : Z) (p : option eptr) : Prop :=
  match p with
  | Some p => ∃ r, pointee s l n p r /\ IE_BITS_TYPE (IpcStore.ie_bits r) <> 0
  | None => ∀ r, has_entry s l n r -> IE_BITS_TYPE (IpcStore.ie_bits r) = 0
  end.

(** A search of the tree for a name no slot has. *)
Lemma tree_lookup_runs s lk g l next n (Q : option eptr -> world O -> Prop) :
  space_wf sizes s g l next -> (∀ r, ~ in_slot (tab s) l n r) ->
  (∀ p s', splayed s s' -> found s l n p -> Q p (World s' lk g o)) ->
  runs (tree_lookup n) Q (World s lk g o).
Proof.
  intros W Hno HQ. unfold tree_lookup. apply runs_bind, s_tree_find; [apply (sw_tree _ _ _ _ _ W)|].
  intros s' Hs'. apply runs_ret. destruct (dir (is_tree s) !! n) as [x|] eqn:Ex.
  - destruct (truth (IE_BITS_TYPE (tn_bits x))) eqn:Et; apply HQ; try done.
    + exists (tree_right x). split; [split; [done|by exists x]|]. by apply truth_true.
    + intros r [Hr|(x' & Ex' & ->)]; [by destruct (Hno r)|].
      rewrite Ex in Ex'. injection Ex' as <-. by apply truth_false.
  - apply HQ; [done|]. intros r [Hr|(x & Ex' & _)]; [by destruct (Hno r)|]. congruence.
Qed.

(** The slot of the name's index, when it has the name's generation. *)
Lemma slot_found s g l next i gn e c low : space_wf sizes s g l next -> slot_at (tab s) i e -> slot_is e gn c low ->
  found s l (i * 2 ^ 8 + gn) (if IE_BITS_TYPE low =? MACH_PORT_TYPE_NONE then None else Some (PTable i)).
Proof.
  intros W He Hs. pose proof Hs as (Eb & Hg & Hl). pose proof (index_of_name i gn Hg) as Hix.
  destruct (Z.eqb_spec (IE_BITS_TYPE low) MACH_PORT_TYPE_NONE) as [Hty|Hty].
  - intros r [Hr|(x & Ex & _)].
    + by destruct (slot_names s l i e gn c low _ r He Hs Hix Hr) as (_ & -> & _).
    + destruct (tree_slot _ _ _ _ _ W _ _ _ _ _ _ _ Ex He Hs Hix) as [_ Hne].
      by rewrite Eb, gen_mkb, gen_of_name in Hne by done.
  - exists (slot_right e low). split; [|done]. split; [done|]. exists i, e, gn, c, low.
    split; [done|]. split; [|done]. pose proof (slot_at_range _ _ _ He).
    assert (Hun : i = 0 \/ i ∈ l -> False).
    { intros Hun. destruct (tw_unused _ _ (sw_table _ _ _ _ _ W) i e He Hun) as [_ (g' & Eb' & Hg' & Hl')].
      rewrite Eb in Eb'. apply Hty.
      assert (low = 0) as -> by (unfold mkb, gen_ok, low_ok in *; destruct c; cbn [Z.b2z] in *; lia). done. }
    split; [|by intros ?; apply Hun; right]. destruct (Z.eq_dec i 0); [|lia]. by destruct Hun; left.
Qed.

(** The slot of the name's index, when it has another generation. *)
Lemma slot_missed s l i gn e g1 c low r : slot_at (tab s) i e -> slot_is e g1 c low -> gen_ok gn -> g1 <> gn ->
  ~ in_slot (tab s) l (i * 2 ^ 8 + gn) r.
Proof.
  intros He Hs Hg Hne Hr. pose proof (index_of_name i gn Hg) as Hix.
  destruct (slot_names s l i e g1 c low _ r He Hs Hix Hr) as (En & _ & _).
  destruct Hs as (_ & Hg1 & _). unfold gen_ok in *. lia.
Qed.

Lemma lookup_runs s lk g l next n (Q : option eptr -> world O -> Prop) :
  space_wf sizes s g l next -> is_active s = true -> in_range 32 n ->
  (is_fast (is_hash s) = true -> MACH_PORT_INDEX n < zlen (tab s)) ->
  (∀ p s', splayed s s' -> found s l n p -> Q p (World s' lk g o)) ->
  runs (ipc_entry_lookup n) Q (World s lk g o).
Proof.
  intros W Ha Hn Hfast HQ. destruct (name_split n Hn) as (i & gn & -> & Hi & Hgn).
  pose proof (splayed_refl _ _ _ _ _ W) as Hself.
  assert (Htree : (∀ r, ~ in_slot (tab s) l (i * 2 ^ 8 + gn) r) -> runs (tree_lookup (i * 2 ^ 8 + gn)) Q (World s lk g o))
    by (intros Hno; by eapply tree_lookup_runs).
  unfold ipc_entry_lookup. apply runs_bind, s_of_space, runs_bind, runs_assert; [done|].
  cbv beta zeta delta [id]. rewrite index_of_name in Hfast |- * by done.
  rewrite gen_of_name, (table_size _ _ _ _ _ W) by done.
  destruct (is_fast (is_hash s)) eqn:Ef; [|destruct (Z.ltb_spec i (zlen (tab s))) as [Hlt|Hge]].
  - destruct (slot_at_some (tab s) i) as [e He]; [specialize (Hfast eq_refl); lia|].
    destruct (slot_decode _ _ _ _ _ W i e He) as (g1 & c & low & Hs). pose proof Hs as (Eb & Hg & Hl).
    apply runs_bind, (s_read i e); [done|]. apply runs_ret. rewrite Eb, gen_mkb, type_mkb by done.
    destruct (Z.eqb_spec (g1 * 2 ^ 24) (gn * 2 ^ 24)) as [Eg|Eg]; cbn [negb orb].
    + assert (g1 = gn) as -> by lia. apply HQ; [done|]. by eapply slot_found.
    + apply HQ; [done|]. intros r [Hr|(x & Ex & _)]; [by edestruct (slot_missed s l i gn e g1); [..|lia|]|].
      rewrite tree_empty with (1 := W) in Ex; [done|].
      rewrite (tr_total _ _ (sw_tree _ _ _ _ _ W)). by rewrite (tr_fast _ _ (sw_tree _ _ _ _ _ W) Ef).
  - destruct (slot_at_some (tab s) i) as [e He]; [lia|].
    destruct (slot_decode _ _ _ _ _ W i e He) as (g1 & c & low & Hs). pose proof Hs as (Eb & Hg & Hl).
    apply runs_bind, (s_read i e); [done|]. rewrite Eb, gen_mkb, type_mkb, collision_mkb by done.
    destruct (Z.eqb_spec (g1 * 2 ^ 24) (gn * 2 ^ 24)) as [Eg|Eg]; cbn [negb].
    + assert (g1 = gn) as -> by lia. pose proof (slot_found s g l next i gn e c low W He Hs) as Hhit.
      destruct (IE_BITS_TYPE low =? MACH_PORT_TYPE_NONE); by apply runs_ret, HQ.
    + assert (Hno : ∀ r, ~ in_slot (tab s) l (i * 2 ^ 8 + gn) r) by (intros r; eapply slot_missed; [done..|lia]). destruct c.
      * apply runs_bind, runs_assert; [|by apply Htree]. apply Z.ltb_lt.
        assert (Hc : truth (ie_bits e &&& IE_BITS_COLLISION) = true) by (by rewrite Eb, collision_mkb).
        apply (tr_collision _ _ (sw_tree _ _ _ _ _ W) i e He) in Hc as (m & x & Hx & _).
        by eapply tree_nonempty.
      * apply runs_ret, HQ; [done|]. intros r [Hr|(x & Ex & _)]; [by destruct (Hno r)|].
        by destruct (tree_slot _ _ _ _ _ W _ _ _ _ _ _ _ Ex He Hs (index_of_name i gn Hgn)).
  - assert (Hno : ∀ r, ~ in_slot (tab s) l (i * 2 ^ 8 + gn) r) by (intros r; apply no_slot; by rewrite index_of_name).
    destruct (Z.eqb_spec (is_tree_total (is_hash s)) 0) as [E0|E0]; [|by apply Htree].
    apply runs_ret, HQ; [done|]. intros r [Hr|(x & Ex & _)]; [by destruct (Hno r)|].
    by rewrite (tree_empty _ _ _ _ _ W E0) in Ex.
Qed.
End lookup.

(** * Writing a slot *)

(** The spaces agree but for the contents of the table. *)
Record kept (s s' : ipc_space) : Prop := {
  kp_active : is_active s' = is_active s;
  kp_growing : is_growing s' = is_growing s;
  kp_next : is_table_next s' = is_table_next s;
  kp_tree : is_tree s' = is_tree s;
  kp_small : is_tree_small s' = is_tree_small s;
  kp_addr : is_addr (is_hash s') = is_addr (is_hash s);
  kp_fast : is_fast (is_hash s') = is_fast (is_hash s);
  kp_total : is_tree_total (is_hash s') = is_tree_total (is_hash s);
  kp_hash : is_tree_hash (is_hash s') = is_tree_hash (is_hash s);
  kp_size : zlen (tab s') = zlen (tab s);
  kp_maps g o n p : maps_to (is_hash s') g o n p <-> maps_to (is_hash s) g o n p }.

Lemma kept_refl s : kept s s.
Proof. by split. Qed.
Lemma kept_trans s1 s2 s3 : kept s1 s2 -> kept s2 s3 -> kept s1 s3.
Proof.
  intros [A1 A2 A3 A4 A5 A6 A7 A8 A9 A10 A11] [B1 B2 B3 B4 B5 B6 B7 B8 B9 B10 B11].
  split; try congruence. intros. by rewrite B11, A11.
Qed.

(** What a write to slot [i] leaves alone. *)
Record mild (s : ipc_space) (i : Z) (e e' : ipc_entry) : Prop := {
  ml_at : slot_at (tab s) i e;
  ml_index : ie_index e' = ie_index e;
  ml_hashed : hashed (tab s) i ->
    ie_object e' = ie_object e /\ IE_BITS_GEN (ie_bits e') = IE_BITS_GEN (ie_bits e) }.

Lemma in_slot_put t l i e e' n r : slot_at t i e ->
  in_slot (put t i e') l n r <->
  (∃ g c low, n = i * 2 ^ 8 + g /\ used t l i /\ slot_is e' g c low /\ r = slot_right e' low) \/
  (MACH_PORT_INDEX n <> i /\ in_slot t l n r).
Proof.
  intros He. pose proof (slot_at_range _ _ _ He) as Hi. split.
  - intros (j & x & g & c & low & -> & Hu & Hx & Hs & ->). rewrite slot_at_put in Hx by done.
    unfold used in Hu |- *. rewrite put_length in Hu. destruct Hx as [[-> ->]|[Hne Hx]].
    + left. by exists g, c, low.
    + right. rewrite index_of_name by apply Hs. split; [done|]. by exists j, x, g, c, low.
  - intros [(g & c & low & -> & Hu & Hs & ->)|(Hne & j & x & g & c & low & -> & Hu & Hx & Hs & ->)].
    + exists i, e', g, c, low. unfold used in *. rewrite put_length. repeat (split; [done|]).
      split; [by apply slot_at_put_eq|done].
    + rewrite index_of_name in Hne by apply Hs. exists j, x, g, c, low. unfold used in *.
      rewrite put_length. repeat (split; [done|]). split; [by apply slot_at_put_ne|done].
Qed.

Lemma bits_of_at t i e : slot_at t i e -> from_option ie_bits 0 (entry_at t i) = ie_bits e.
Proof. by intros [_ ->]. Qed.

Lemma hashed_range t j : table_ok t -> hashed t j -> 0 < j < zlen t.
Proof.
  intros [_ H _] (Hj & h & Hh & Hx). rewrite <- Hx. apply (probed_index _ _ _ H); [done|]. by rewrite Hx.
Qed.

(** A name that the local table holds, by its slot. *)
Lemma maps_slot s g o n j e : table_ok (tab s) -> slot_at (tab s) j e ->
  maps_to (is_hash s) g o n (InTable j) <->
  hashed (tab s) j /\ ie_object e = o /\ n = MACH_PORT_MAKE j (IE_BITS_GEN (ie_bits e)).
Proof. intros Hok He. cbn. by rewrite (obj_of_at _ j e), (bits_of_at _ j e). Qed.

Lemma write_kept s i e e' : table_ok (tab s) -> mild s i e e' -> kept s (with_tab (put (tab s) i e') s).
Proof.
  intros Hok [He Hx Hh]. pose proof (slot_at_range _ _ _ He) as Hi.
  assert (Hok' : table_ok (put (tab s) i e')) by (eapply table_ok_put; [done..|apply Hh]).
  split; try done; [apply put_length|]. intros g o n [j|x]; [|done].
  assert (Hj : 0 < j < zlen (tab s) ->
    maps_to (is_hash (with_tab (put (tab s) i e') s)) g o n (InTable j) <->
    maps_to (is_hash s) g o n (InTable j)).
  { intros Hj. destruct (slot_at_some (tab s) j) as [x Hxj]; [lia|].
    destruct (decide (j = i)) as [->|Hne].
    - rewrite (maps_slot s _ _ _ _ e) by done.
      rewrite (maps_slot (with_tab _ s) _ _ _ _ e') by (done || by apply slot_at_put_eq).
      cbn [with_tab set_is_hash set_is_table is_hash is_table]. rewrite (hashed_put _ _ _ e) by done.
      split; intros (H1 & <- & ->); destruct (Hh H1) as [-> ->]; done.
    - rewrite (maps_slot s _ _ _ _ x) by done.
      rewrite (maps_slot (with_tab _ s) _ _ _ _ x) by (done || by apply slot_at_put_ne).
      cbn [with_tab set_is_hash set_is_table is_hash is_table]. by rewrite (hashed_put _ _ _ e). }
  split; intros H; apply Hj; try done; destruct H as [H _].
  - apply (hashed_range _ _ Hok') in H. by rewrite put_length in H.
  - by apply (hashed_range _ _ Hok).
Qed.

Section writes.
Context (sizes : list Z) (s : ipc_space) (g : buckets) (l : list Z) (next : Z).
Context (W : space_wf sizes s g l next).

Lemma space_table_ok : table_ok (tab s).
Proof. apply (space_table _ _ (nm_ok _ _ _ (sw_names _ _ _ _ _ W))). Qed.

(** The invariant, for a write that keeps the collision mark and, for an index of the tree,
    the generation. *)
Lemma write_wf i e e' l' : mild s i e e' ->
  truth (ie_bits e' &&& IE_BITS_COLLISION) = truth (ie_bits e &&& IE_BITS_COLLISION) ->
  (tree_index s i -> IE_BITS_GEN (ie_bits e') = IE_BITS_GEN (ie_bits e)) ->
  table_wf (put (tab s) i e') l' -> (∀ j, hashed (tab s) j -> used (tab s) l' j) ->
  space_wf sizes (with_tab (put (tab s) i e') s) g l' next.
Proof.
  intros M Hc Hg Ht Hu. pose proof (write_kept s i e e' space_table_ok M) as K.
  destruct M as [He Hx Hh]. pose proof (slot_at_range _ _ _ He) as Hi.
  assert (Hok' : table_ok (put (tab s) i e')) by (eapply table_ok_put; [apply space_table_ok|done..|apply Hh]).
  destruct W as [[W1 (k & W1' & W1'')] W2 [T1 T2 T3 T4 T5 T6 T7] [[N1 N1a N1b N1c N1d N1e N1f] N2 N3 N4 N5]].
  assert (Hcase : ∀ j x, slot_at (put (tab s) i e') j x ->
    (j = i /\ x = e') \/ (j <> i /\ slot_at (tab s) j x)) by (intros j x; by apply slot_at_put).
  split.
  - split; [done|]. exists k. split; [done|]. by rewrite (kp_size _ _ K).
  - done.
  - split; cbn; rewrite ?put_length; try done.
    + intros j x [[-> ->]|[_ Hj]]%Hcase; [|by apply T4]. rewrite Hc. by apply T4.
    + intros n x y Hn Hy. apply Hcase in Hy as [[Hj ->]|[_ Hj]]; [|by eapply T5].
      rewrite Hg by (by exists n, x). eapply T5; [done|]. by rewrite Hj.
  - split; try done.
    + split; try done. cbn. by rewrite put_length.
    + intros j. cbn. rewrite (hashed_put _ _ _ e) by done. unfold used. rewrite put_length. apply Hu.
    + intros o n p n' p'. rewrite !(kp_maps _ _ K). apply N5.
Qed.
End writes.

(** ** The free list *)

Section free_list.
Context (t : table) (l : list Z) (W : table_wf t l).

Lemma free_range i : i ∈ l -> 0 < i < zlen t.
Proof.
  destruct (tw_head _ _ W) as (h & _ & Hc). apply chain_pos in Hc. rewrite Forall_forall in Hc. auto.
Qed.

(** A write to a slot in use. *)
Lemma table_wf_used i e e' : slot_at t i e -> i <> 0 -> i ∉ l -> in_range 32 (ie_bits e') ->
  table_wf (put t i e') l.
Proof.
  intros He Hi Hl Hb. pose proof (slot_at_range _ _ _ He) as Hr. destruct W as [W1 (h & Hh & Hc) W3 W4 W5].
  split; rewrite ?put_length; try done.
  - exists h. split; [apply slot_at_put_ne; auto|by apply chain_put].
  - intros j x [[-> ->]|[_ Hx]]%slot_at_put; [done|by eapply W4|done].
  - intros j x [[-> ->]|[_ Hx]]%slot_at_put Hj; [|by eapply W5|done]. by destruct Hj.
Qed.

(** A write to the head that makes another list of unused slots the free list. *)
Lemma table_wf_head l' h v : slot_at t 0 h -> chain t v l' -> NoDup l' ->
  (∀ i e, i ∈ l' -> slot_at t i e -> ie_object e = IO_NULL /\ ∃ g, slot_is e g false 0) ->
  table_wf (put t 0 (with_next v h)) l'.
Proof.
  intros Hh Hc Hd Hun. pose proof (slot_at_range _ _ _ Hh) as Hr. destruct W as [W1 _ W3 W4 W5].
  assert (H0 : 0 ∉ l').
  { intros H. apply chain_pos in Hc. rewrite Forall_forall in Hc. specialize (Hc 0 H). lia. }
  split; rewrite ?put_length; try done.
  - exists (with_next v h). split; [by apply slot_at_put_eq|by apply chain_put].
  - intros j x [[-> ->]|[_ Hx]]%slot_at_put; [by eapply (W4 0 h)|by eapply W4|done].
  - intros j x [[-> ->]|[Hne Hx]]%slot_at_put Hj; [|destruct Hj; [done|by eapply Hun]|done].
    destruct (W5 0 h Hh) as [? (g & ?)]; [by left|]. split; [done|]. by exists g.
Qed.

(** The slot before the first of [l2] on the list [l1 ++ l2]. *)
Definition before (l1 : list Z) : Z := default 0 (last l1).

(** A write to the slot before [f] that takes [f] off the list. *)
Lemma chain_unlink t' h p0 f e l1 l2 : slot_at t' p0 h -> chain t' (ie_next h) (l1 ++ f :: l2) ->
  NoDup (p0 :: l1 ++ f :: l2) -> slot_at t' f e -> let p := default p0 (last l1) in
  ∃ hp, slot_at t' p hp /\ ie_next hp = f /\
    ∃ h', slot_at (put t' p (with_next (ie_next e) hp)) p0 h' /\
      chain (put t' p (with_next (ie_next e) hp)) (ie_next h') (l1 ++ l2) /\
      (p0 <> p -> h' = h).
Proof.
  revert p0 h. induction l1 as [|k l1 IH]; intros p0 h Hh Hc Hd He; cbn zeta.
  - destruct Hc as (Hf & _ & e' & He' & Hc). assert (e' = e) as -> by (by eapply slot_at_fun).
    exists h. split; [done|]. split; [done|]. pose proof (slot_at_range _ _ _ Hh) as Hr.
    eexists. split; [by apply slot_at_put_eq|]. split; [|done]. cbn. apply chain_put; try done.
    intros Hin. apply NoDup_cons in Hd as [Hd _]. apply Hd. apply elem_of_cons. by right.
  - destruct Hc as (Hk & Hk0 & ek & Hek & Hc). apply NoDup_cons in Hd as [Hp0 Hd].
    destruct (IH k ek Hek Hc Hd He) as (hp & Hp & Hnp & h' & Hh' & Hc' & Hsame).
    assert (Hlast : default p0 (last (k :: l1)) = default k (last l1)) by (rewrite last_cons; by destruct (last l1)).
    rewrite Hlast. exists hp. split; [done|]. split; [done|].
    assert (Hne : p0 <> default k (last l1)).
    { intros E. apply Hp0. rewrite E. destruct (last l1) as [y|] eqn:Ey; [|by left].
      apply last_Some in Ey as [l' ->]. cbn. rewrite !elem_of_cons, !elem_of_app. right. left. right. by left. }
    exists h. split; [by apply slot_at_put_ne; [apply (slot_at_range _ _ _ Hp)| |]|]. split; [|done].
    rewrite Hk. cbn [app chain]. split; [done|]. split; [done|]. by exists h'.
Qed.

Lemma table_wf_unlink l1 f l2 e : l = l1 ++ f :: l2 -> slot_at t f e ->
  ∃ hp, slot_at t (before l1) hp /\ ie_next hp = f /\
    table_wf (put t (before l1) (with_next (ie_next e) hp)) (l1 ++ l2).
Proof.
  intros El He. destruct W as [W1 (h & Hh & Hc) W3 W4 W5].
  assert (H0 : 0 ∉ l) by (intros H; apply free_range in H; lia).
  destruct (chain_unlink t h 0 f e l1 l2) as (hp & Hp & Hf & h' & Hh' & Hc' & _); try done.
  { by rewrite <- El. }
  { rewrite <- El. by apply NoDup_cons. }
  exists hp. split; [done|]. split; [done|]. pose proof (slot_at_range _ _ _ Hp) as Hr.
  assert (Hsub : ∀ j, j ∈ l1 ++ l2 -> j ∈ l).
  { intros j Hj. rewrite El. apply elem_of_app in Hj as [Hj|Hj]; apply elem_of_app; [by left|].
    right. apply elem_of_cons. by right. }
  split; rewrite ?put_length; try done.
  - by exists h'.
  - rewrite El in W3. apply NoDup_app in W3 as (? & Hdis & [_ ?]%NoDup_cons). apply NoDup_app.
    split; [done|]. split; [|done]. intros j Hj Hj2. apply (Hdis j Hj). apply elem_of_cons. by right.
  - intros j x [[-> ->]|[_ Hx]]%slot_at_put; [by eapply (W4 _ hp)|by eapply W4|done].
  - intros j x [[-> ->]|[Hne Hx]]%slot_at_put Hj; [|apply (W5 j x Hx); destruct Hj; auto|done].
    destruct (W5 _ hp Hp) as [? (g & ?)]; [destruct Hj; auto|]. split; [done|]. by exists g.
Qed.
End free_list.

Lemma unused_slot t l i e : table_wf t l -> i ∈ l -> slot_at t i e ->
  ie_object e = IO_NULL /\ ∃ g, slot_is e g false 0.
Proof. intros W Hi He. apply (tw_unused _ _ W i e He). by right. Qed.

(** A free slot is in no hash table, and its index is not in the tree. *)
Section free_slot.
Context (sizes : list Z) (s : ipc_space) (g : buckets) (l : list Z) (next : Z).
Context (W : space_wf sizes s g l next).

Lemma null_not_hashed i e : slot_at (tab s) i e -> ie_object e = IO_NULL -> ~ hashed (tab s) i.
Proof.
  intros He Ho (Hi & h & Hh & Hx).
  apply (table_objects _ (space_table_ok _ _ _ _ _ W) h Hh); [by rewrite Hx|].
  by rewrite Hx, (obj_of_at _ i e).
Qed.

Lemma no_tree_index i e g1 low : slot_at (tab s) i e -> slot_is e g1 false low -> ~ tree_index s i.
Proof.
  intros He (Eb & Hg & Hl) Ht. apply (tr_collision _ _ (sw_tree _ _ _ _ _ W) i e He) in Ht.
  by rewrite Eb, collision_mkb in Ht.
Qed.

Lemma no_entry i e g1 low g2 : slot_at (tab s) i e -> slot_is e g1 false low -> gen_ok g2 ->
  ~ used (tab s) l i -> ∀ r, ~ has_entry s l (i * 2 ^ 8 + g2) r.
Proof.
  intros He Hs Hg Hn r [(j & x & g3 & c & low' & En & Hu & _ & (_ & Hg3 & _) & _)|(x & Hx & _)].
  - assert (j = i) as -> by (unfold gen_ok in *; lia). done.
  - eapply no_tree_index; [done..|]. eexists _, x. split; [exact Hx|]. by apply index_of_name.
Qed.
End free_slot.

(** * Entries that are taken from the free list *)

(** The space has the entry [r] more. *)
Definition adds_entry (s : ipc_space) (l : list Z) (s' : ipc_space) (l' : list Z) (n : Z) (r : right) : Prop :=
  (∀ q, ~ has_entry s l n q) /\ in_range 32 n /\
  ∀ m q, has_entry s' l' m q <-> has_entry s l m q \/ (m = n /\ q = r).

Definition new_right : right := IpcStore.Entry IO_NULL 0 0.

(** A name's slot, when two lists differ by [f]. *)
Lemma in_slot_remove t l1 f l2 n r : NoDup (l1 ++ f :: l2) ->
  in_slot t (l1 ++ f :: l2) n r <-> MACH_PORT_INDEX n <> f /\ in_slot t (l1 ++ l2) n r.
Proof.
  intros Hd. split.
  - intros (j & x & g & c & low & -> & [Hj Hl] & Hx & Hs & ->). rewrite index_of_name by apply Hs.
    rewrite elem_of_app, elem_of_cons in Hl. split; [intuition congruence|].
    exists j, x, g, c, low. repeat (split; [done|]). split; [|done]. split; [done|].
    rewrite elem_of_app. intuition congruence.
  - intros [Hne (j & x & g & c & low & -> & [Hj Hl] & Hx & Hs & ->)].
    rewrite index_of_name in Hne by apply Hs. rewrite elem_of_app in Hl.
    exists j, x, g, c, low. repeat (split; [done|]). split; [|done]. split; [done|].
    rewrite elem_of_app, elem_of_cons. intuition congruence.
Qed.

(** Two writes to different slots, one of which keeps the bits. *)
Definition unlinked (s : ipc_space) (p : Z) (hp e : ipc_entry) : ipc_space :=
  with_tab (put (tab s) p (with_next (ie_next e) hp)) s.
Definition claimed (s : ipc_space) (f : Z) (e : ipc_entry) (g1 : Z) : ipc_space :=
  with_tab (put (tab s) f (with_request 0 (with_bits (mkb g1 false 0) e))) s.

Section take.
Context (sizes : list Z) (s : ipc_space) (g : buckets) (l1 : list Z) (f : Z) (l2 : list Z) (next : Z).
Context (W : space_wf sizes s g (l1 ++ f :: l2) next) (e : ipc_entry) (He : slot_at (tab s) f e).

Lemma taken_range : 0 < f < zlen (tab s).
Proof. eapply free_range; [apply W|]. apply elem_of_app. right. by left. Qed.

Lemma taken_unused : ie_object e = IO_NULL /\ ∃ g0, slot_is e g0 false 0.
Proof. eapply unused_slot; [apply W| |done]. apply elem_of_app. right. by left. Qed.

Lemma taken_other : f ∉ l1 ++ l2.
Proof.
  pose proof (tw_nodup _ _ (sw_table _ _ _ _ _ W)) as H. apply NoDup_app in H as (_ & H1 & [H2 _]%NoDup_cons).
  rewrite elem_of_app. intros [Hf|?]; [|done]. apply (H1 f Hf). by left.
Qed.

Lemma before_free : before l1 = 0 \/ before l1 ∈ l1 ++ f :: l2.
Proof.
  unfold before. destruct (last l1) as [y|] eqn:Ey; [right|by left].
  apply last_Some in Ey as [l' ->]. cbn. rewrite !elem_of_app. left. right. by left.
Qed.

(** The write to the slot before [f]. *)
Lemma unlink_wf : ∃ hp, slot_at (tab s) (before l1) hp /\ ie_next hp = f /\ before l1 <> f /\
  space_wf sizes (unlinked s (before l1) hp e) g (l1 ++ l2) next /\
  kept s (unlinked s (before l1) hp e).
Proof.
  destruct (table_wf_unlink _ _ (sw_table _ _ _ _ _ W) l1 f l2 e eq_refl He) as (hp & Hp & Hf & Wt).
  exists hp. split; [done|]. split; [done|].
  destruct (tw_unused _ _ (sw_table _ _ _ _ _ W) _ _ Hp before_free) as [Ho _].
  assert (M : mild s (before l1) hp (with_next (ie_next e) hp)).
  { split; [done|done|]. intros Hb. by destruct (null_not_hashed _ _ _ _ _ W _ hp Hp Ho). }
  pose proof taken_range. pose proof taken_other as Hn.
  split; [|split; [|eapply write_kept; [by eapply space_table_ok|exact M]]].
  { destruct (last l1) as [y|] eqn:Ey; unfold before; rewrite Ey; cbn; [|lia].
    intros ->. apply Hn. apply last_Some in Ey as [l' ->]. rewrite !elem_of_app. left. right. by left. }
  apply (write_wf _ _ _ _ _ W _ hp); try done. intros j Hj.
  destruct (nm_local _ _ _ (sw_names _ _ _ _ _ W) j Hj) as [? Hj2]. split; [done|].
  rewrite elem_of_app in Hj2 |- *. rewrite elem_of_cons in Hj2. intuition congruence.
Qed.

(** Both writes: the space has the name of [f] with generation [g1] more. *)
Lemma take_wf hp g1 : slot_at (tab s) (before l1) hp -> before l1 <> f -> gen_ok g1 ->
  let s1 := unlinked s (before l1) hp e in
  space_wf sizes s1 g (l1 ++ l2) next -> kept s s1 ->
  slot_at (tab s1) f e /\
  let s2 := claimed s1 f e g1 in let n := f * 2 ^ 8 + g1 in
  space_wf sizes s2 g (l1 ++ l2) next /\ kept s s2 /\
  adds_entry s (l1 ++ f :: l2) s2 (l1 ++ l2) n new_right /\
  slot_at (tab s2) f (with_request 0 (with_bits (mkb g1 false 0) e)) /\
  pointee s2 (l1 ++ l2) n (PTable f) new_right.
Proof.
  intros Hp Hpf Hg1 s1 W1 K1. destruct taken_unused as [Ho (g0 & Hs)]. pose proof Hs as (Eb & Hg0 & Hl0).
  pose proof taken_range as Hfr. pose proof taken_other as Hfl. pose proof (slot_at_range _ _ _ Hp) as Hpr.
  pose proof (table_range _ _ _ _ _ W) as Hsz.
  assert (He1 : slot_at (tab s1) f e) by (by apply slot_at_put_ne).
  split; [done|]. set (e2 := with_request 0 (with_bits (mkb g1 false 0) e)).
  assert (Hs2 : slot_is e2 g1 false 0) by done.
  assert (M2 : mild s1 f e e2).
  { split; [done|done|]. intros Hb. by destruct (null_not_hashed _ _ _ _ _ W1 f e He1 Ho). }
  cbn zeta. unfold claimed. fold e2.
  assert (W2 : space_wf sizes (with_tab (put (tab s1) f e2) s1) g (l1 ++ l2) next).
  { apply (write_wf _ _ _ _ _ W1 f e); try done.
    - cbn [e2 with_request with_bits ie_bits]. by rewrite Eb, !collision_mkb.
    - intros Ht. by destruct (no_tree_index _ _ _ _ _ W1 f e g0 0).
    - eapply table_wf_used; try done; [apply W1|lia|]. cbn. by apply mkb_range.
    - apply (nm_local _ _ _ (sw_names _ _ _ _ _ W1)). }
  pose proof (write_kept s1 f e _ (space_table_ok _ _ _ _ _ W1) M2) as K2.
  assert (Hu : used (tab s1) (l1 ++ l2) f) by (split; [by rewrite (kp_size _ _ K1)|done]).
  assert (He2 : slot_at (put (tab s1) f e2) f e2) by (apply slot_at_put_eq; rewrite (kp_size _ _ K1); lia).
  assert (Hr2 : slot_right e2 0 = new_right) by (unfold slot_right; cbn; by rewrite Ho).
  split; [done|]. split; [by eapply kept_trans|]. split; [|split; [done|]].
  - split; [|split].
    + eapply no_entry; [done..|]. intros [_ Hn]. apply Hn. apply elem_of_app. right. by left.
    + unfold in_range, gen_ok in *. lia.
    + intros m q. unfold has_entry. rewrite in_slot_remove by apply W.
      assert (Ht : ∀ m q, in_tree (with_tab (put (tab s1) f e2) s1) m q <-> in_tree s m q) by done.
      rewrite Ht. cbn [with_tab set_is_hash set_is_table is_hash is_table].
      rewrite (in_slot_put _ _ f e e2) by done.
      assert (Hp0 : ¬ used (tab s) (l1 ++ l2) (before l1)).
      { intros [Hb1 Hb2]. destruct before_free as [E|Hb]; [lia|].
        rewrite elem_of_app, elem_of_cons in Hb. rewrite elem_of_app in Hb2. intuition congruence. }
      assert (Hs1 : in_slot (tab s1) (l1 ++ l2) m q <-> in_slot (tab s) (l1 ++ l2) m q).
      { cbn. rewrite (in_slot_put _ _ (before l1) hp) by done. split.
        - intros [(? & ? & ? & _ & ? & _)|[_ ?]]; done.
        - intros Hm. right. split; [|done]. intros E.
          destruct Hm as (j & x & gx & c & low & -> & Hj & _ & Hsx & _).
          rewrite index_of_name in E by apply Hsx. by subst j. }
      rewrite Hs1. split.
      * intros [[(g2 & c & low & -> & _ & (Eb' & Hgx & Hlx) & ->)|?]|?]; [right|intuition congruence..].
        cbn in Eb'. unfold mkb, gen_ok, low_ok in *. destruct c; cbn [Z.b2z] in *; [lia|].
        assert (g2 = g1 /\ low = 0) as [-> ->] by lia. done.
      * intros [[?|?]|[-> ->]]; [intuition congruence..|]. left. left. by exists g1, false, 0.
  - split; [symmetry; by apply index_of_name|]. exists f, e2, g1, false, 0.
    split; [done|]. split; [|done]. split; [by rewrite (kp_size _ _ K2); apply Hu|done].
Qed.
End take.

(** * [ipc_entry_get] *)

Section get.
Context {O : Type} (o : O) (sizes : list Z).

Lemma get_runs s lk g l next (Q : Z * Z -> world O -> Prop) :
  space_wf sizes s g l next -> is_active s = true ->
  (l = [] -> Q (KERN_NO_SPACE, 0) (World s lk g o)) ->
  (∀ f l' e g0 s', l = f :: l' -> slot_at (tab s) f e -> slot_is e g0 false 0 ->
     let n := f * 2 ^ 8 + (g0 + 4) mod 2 ^ 8 in
     space_wf sizes s' g l' next -> kept s s' -> adds_entry s l s' l' n new_right ->
     pointee s' l' n (PTable f) new_right ->
     Q (KERN_SUCCESS, n) (World s' lk g o)) ->
  runs ipc_entry_get Q (World s lk g o).
Proof.
  intros W Ha Hfull HQ. destruct (tw_head _ _ (sw_table _ _ _ _ _ W)) as (h & Hh & Hc).
  unfold ipc_entry_get. apply runs_bind, s_of_space, runs_bind, runs_assert; [done|].
  apply runs_bind, (s_read 0 h); [done|]. destruct l as [|f l'].
  { cbn in Hc. rewrite Hc. cbn [Z.eqb]. by apply runs_ret, Hfull. }
  destruct Hc as (-> & Hf & e & He & Hc). rewrite (proj2 (Z.eqb_neq f 0)) by lia.
  change (f :: l') with ([] ++ f :: l') in W.
  destruct (taken_unused _ _ _ _ _ _ _ W e He) as [Ho (g0 & Hs)]. pose proof Hs as (Eb & Hg & Hl).
  destruct (unlink_wf _ _ _ _ _ _ _ W e He) as (hp & Hp & Hpf & Hne & W1 & K1).
  assert (hp = h) as -> by (by eapply slot_at_fun).
  set (g1 := (g0 + 4) mod 2 ^ 8). assert (Hg1 : gen_ok g1) by (unfold gen_ok, g1; divlia).
  destruct (take_wf _ _ _ _ _ _ _ W e He h g1 Hp Hne Hg1 W1 K1) as (He1 & W2 & K2 & Hadd & _ & Hpt).
  pose proof (table_range _ _ _ _ _ W) as Hsz. pose proof (taken_range _ _ _ _ _ _ _ W) as Hfr.
  apply runs_bind, (s_read f e); [done|]. apply runs_bind, (s_set _ 0 h); [done|].
  cbn zeta. rewrite Eb, next_gen by done. fold g1.
  apply runs_bind, (s_set _ f e); [exact He1|].
  assert (Hname : MACH_PORT_MAKE f (mkb g1 false 0) = f * 2 ^ 8 + g1)
    by (rewrite <- make_name by (done || lia); f_equal; unfold mkb; cbn [Z.b2z]; lia).
  rewrite Hname. apply runs_bind, runs_assert.
  { unfold MACH_PORT_VALID, gen_ok in *. by rewrite (proj2 (Z.eqb_neq _ 0)), (proj2 (Z.eqb_neq _ (2 ^ 32 - 1))) by lia. }
  apply runs_bind, runs_assert; [by apply Z.eqb_eq|]. apply runs_ret. by eapply (HQ f l' e g0).
Qed.
End get.

(** * Entries that return to the free list *)

(** The space has the name [n] no longer. *)
Definition drops_entry (s : ipc_space) (l : list Z) (s' : ipc_space) (l' : list Z) (n : Z) : Prop :=
  ∀ m q, has_entry s' l' m q <-> has_entry s l m q /\ m <> n.

Section free.
Context {O : Type} (o : O) (sizes : list Z).

Lemma in_slot_more t i l n r : in_slot t (i :: l) n r <-> MACH_PORT_INDEX n <> i /\ in_slot t l n r.
Proof.
  split.
  - intros (j & x & g & c & low & -> & [Hj Hl] & Hx & Hs & ->). rewrite index_of_name by apply Hs.
    apply not_elem_of_cons in Hl as [? ?]. split; [done|]. by exists j, x, g, c, low.
  - intros [Hne (j & x & g & c & low & -> & [Hj Hl] & Hx & Hs & ->)].
    rewrite index_of_name in Hne by apply Hs. exists j, x, g, c, low. repeat (split; [done|]).
    split; [|done]. split; [done|]. by apply not_elem_of_cons.
Qed.

Lemma free_entry_runs s lk g l next i e g1 low (Q : unit -> world O -> Prop) :
  space_wf sizes s g l next -> slot_at (tab s) i e -> used (tab s) l i -> slot_is e g1 false low ->
  ie_object e = IO_NULL ->
  (∀ s', space_wf sizes s' g (i :: l) next -> kept s s' ->
     drops_entry s l s' (i :: l) (i * 2 ^ 8 + g1) -> Q tt (World s' lk g o)) ->
  runs (free_entry i) Q (World s lk g o).
Proof.
  intros W He [Hi Hil] Hs Ho HQ. pose proof Hs as (Eb & Hg & Hl).
  destruct (tw_head _ _ (sw_table _ _ _ _ _ W)) as (h & Hh & Hc).
  destruct (tw_unused _ _ (sw_table _ _ _ _ _ W) 0 h Hh) as [Hho (gh & Hhs)]; [by left|].
  set (e1 := with_next (ie_next h) (with_bits (mkb g1 false 0) e)).
  set (s1 := with_tab (put (tab s) i e1) s).
  assert (Hl0 : low_ok 0) by (unfold low_ok; lia).
  assert (M1 : mild s i e e1).
  { split; [done|done|]. intros Hb. by destruct (null_not_hashed _ _ _ _ _ W i e He Ho). }
  assert (W1 : space_wf sizes s1 g l next).
  { apply (write_wf _ _ _ _ _ W i e); try done.
    - cbn [e1 with_request with_bits ie_bits]. by rewrite Eb, !collision_mkb.
    - intros Ht. by destruct (no_tree_index _ _ _ _ _ W i e g1 low).
    - eapply table_wf_used; try done; [apply W|lia|]. cbn. by apply mkb_range.
    - apply (nm_local _ _ _ (sw_names _ _ _ _ _ W)). }
  pose proof (write_kept s i e _ (space_table_ok _ _ _ _ _ W) M1) as K1. fold s1 in K1.
  assert (Hh1 : slot_at (tab s1) 0 h) by (apply slot_at_put_ne; [lia..|done]).
  assert (He1 : slot_at (tab s1) i e1) by (apply slot_at_put_eq; lia).
  assert (Hc1 : chain (tab s1) i (i :: l)).
  { split; [done|]. split; [lia|]. exists e1. split; [done|]. apply chain_put; [lia|done..]. }
  set (s2 := with_tab (put (tab s1) 0 (with_next i h)) s1).
  assert (M2 : mild s1 0 h (with_next i h)).
  { split; [done|done|]. intros Hb. by destruct (null_not_hashed _ _ _ _ _ W1 0 h Hh1 Hho). }
  assert (W2 : space_wf sizes s2 g (i :: l) next).
  { apply (write_wf _ _ _ _ _ W1 0 h); try done.
    - apply (table_wf_head _ _ (sw_table _ _ _ _ _ W1)); try done.
      + apply NoDup_cons. split; [done|]. apply W.
      + intros j x [->|Hj]%elem_of_cons Hx; [|by eapply unused_slot; [apply W1|..]].
        assert (x = e1) as -> by (by eapply slot_at_fun). split; [done|]. by exists g1.
    - intros j Hj. destruct (nm_local _ _ _ (sw_names _ _ _ _ _ W1) j Hj) as [? Hjl]. split; [done|].
      apply not_elem_of_cons. split; [|done]. intros ->.
      by destruct (null_not_hashed _ _ _ _ _ W1 i e1 He1 Ho). }
  pose proof (write_kept s1 0 h _ (space_table_ok _ _ _ _ _ W1) M2) as K2. fold s2 in K2.
  unfold free_entry. apply runs_bind, (s_read 0 h); [done|].
  apply runs_bind, (s_set _ i e); [done|]. rewrite Eb, keep_gen by done. fold e1 s1.
  apply (s_set _ 0 h); [done|]. fold s2. apply HQ; [done|by eapply kept_trans|].
  intros m q. unfold has_entry. rewrite in_slot_more.
  assert (Ht : in_tree s2 m q <-> in_tree s m q) by done. rewrite Ht.
  assert (H2 : MACH_PORT_INDEX m <> i /\ in_slot (tab s2) l m q <-> MACH_PORT_INDEX m <> i /\ in_slot (tab s) l m q).
  { cbn [s2 s1 with_tab set_is_hash set_is_table is_hash is_table].
    rewrite (in_slot_put _ _ 0 h), (in_slot_put _ _ i e) by done. split.
    - intros [Hne [(? & ? & ? & _ & [? _] & _)|(_ & [(? & ? & ? & -> & _ & Hsx & _)|[_ ?]])]]; [lia| |done].
      by rewrite index_of_name in Hne by apply Hsx.
    - intros [Hne Hm]. split; [done|]. right. split; [|by right]. intros E.
      destruct Hm as (j & x & gx & c & lw & -> & [Hj _] & _ & Hsx & _).
      rewrite index_of_name in E by apply Hsx. lia. }
  rewrite H2. split.
  - intros [[Hne Hm]|Hm].
    + split; [by left|]. intros ->. by rewrite index_of_name in Hne.
    + split; [by right|]. intros ->. destruct Hm as (x & Hx & _).
      destruct (tree_slot _ _ _ _ _ W _ _ _ _ _ _ _ Hx He Hs) as [? _]; [by apply index_of_name|done].
  - intros [[Hm|Hm] Hne]; [left|by right]. split; [|done]. intros E.
    by destruct (slot_names s l i e g1 false low m q He Hs E Hm) as (-> & _ & _).
Qed.
End free.

(** * Changes of the tree *)

Section trees.
Context (t : name_tree) (Ht : wf t).

Lemma dir_contents n x : dir t !! n = Some x <-> (n, x) ∈ contents t.
Proof. unfold dir. rewrite elem_of_list_to_map; [done|]. apply sorted_NoDup, Ht. Qed.

Lemma dir_size : zlen (contents t) = Z.of_nat (base.size (dir t)).
Proof. unfold dir. rewrite map_size_list_to_map; [done|]. apply sorted_NoDup, Ht. Qed.

Lemma dir_name n x : dir t !! n = Some x -> in_range 32 n.
Proof.
  rewrite dir_contents. destruct Ht as (_ & Hok & _). rewrite Forall_forall in Hok. apply Hok.
Qed.

(** The last name up to [n] and the first name from [n] on. *)
Lemma last_upto n : ∀ l : list (Z * tnode), StronglySorted Z.lt l.*1 -> ∀ m x, (m, x) ∈ l -> m <= n ->
  ∃ m' x', last (filter (λ x, x.1 <= n) l) = Some (m', x') /\ (m', x') ∈ l /\ m <= m' <= n.
Proof.
  induction l as [|[k y] l IH] using rev_ind; [by intros _ m x ?%elem_of_nil|].
  rewrite fmap_app. intros Hs m x Hm Hmn. rewrite filter_app.
  apply elem_of_app in Hm. destruct (decide (k <= n)) as [Hk|Hk].
  - rewrite (filter_cons_True _ (k, y)), filter_nil by done. exists k, y. rewrite last_snoc.
    split; [done|]. split; [apply elem_of_app; right; by left|]. split; [|done].
    destruct Hm as [Hm|[= -> ->]%list_elem_of_singleton]; [|lia].
    assert (Hlt : m < k); [|lia].
    eapply (StronglySorted_app_1_elem_of Z.lt _ _ _ _ Hs); [|by left].
    apply list_elem_of_fmap. by exists (m, x).
  - rewrite (filter_cons_False _ (k, y)), filter_nil, app_nil_r by done.
    destruct Hm as [Hm|[= -> ->]%list_elem_of_singleton]; [|done].
    destruct (IH (StronglySorted_app_1_l Z.lt _ _ Hs) m x Hm Hmn) as (m' & x' & ? & ? & ?).
    exists m', x'. split; [done|]. split; [|done]. apply elem_of_app. by left.
Qed.

Lemma head_from n : ∀ l : list (Z * tnode), StronglySorted Z.lt l.*1 -> ∀ m x, (m, x) ∈ l -> n <= m ->
  ∃ m' x', head (filter (λ x, n <= x.1) l) = Some (m', x') /\ (m', x') ∈ l /\ n <= m' <= m.
Proof.
  induction l as [|[k y] l IH]; [by intros _ m x ?%elem_of_nil|]. intros Hs m x Hm Hmn.
  inversion Hs as [|? ? Hs' Hk]; subst. destruct (decide (n <= k)) as [Hnk|Hnk].
  - rewrite filter_cons_True by done. exists k, y. split; [done|]. split; [by left|]. split; [done|].
    apply elem_of_cons in Hm as [[= -> ->]|Hm]; [lia|]. rewrite Forall_forall in Hk.
    apply Z.lt_le_incl, Hk, list_elem_of_fmap. by exists (m, x).
  - rewrite filter_cons_False by done. apply elem_of_cons in Hm as [[= -> ->]|Hm]; [done|].
    destruct (IH Hs' m x Hm Hmn) as (m' & x' & ? & ? & ?). exists m', x'. split; [done|].
    split; [by right|done].
Qed.
End trees.

(** ** Collisions *)

Section collision.
Context {O : Type} (o : O).

Lemma index_mono m n : m <= n -> MACH_PORT_INDEX m <= MACH_PORT_INDEX n.
Proof. intros. unfold MACH_PORT_INDEX. rewrite !Z.shiftr_div_pow2 by lia. by apply Z.div_le_mono. Qed.

(** Whether another name of the tree has the index of [n]. *)
Lemma collision_runs n s lk g (Q : bool -> world O -> Prop) :
  wf (is_tree s) -> is_active s = true ->
  (∀ m x, dir (is_tree s) !! m = Some x -> 0 < MACH_PORT_INDEX m /\ m <> MACH_PORT_LARGEST) ->
  (∀ b s', splayed s s' -> b = true <-> tree_index s (MACH_PORT_INDEX n) -> Q b (World s' lk g o)) ->
  runs (ipc_entry_tree_collision n) Q (World s lk g o).
Proof.
  intros Hwf Ha Hnames HQ. destruct (bounds_run (is_tree s) n Hwf) as (t & Eb & Ht & Hc).
  unfold ipc_entry_tree_collision. apply runs_bind, s_of_space, runs_bind, runs_assert; [done|].
  apply runs_bind. eapply s_on_tree; [by rewrite Eb|]. apply runs_ret, HQ; [by exists t|].
  set (c := contents (is_tree s)). assert (Hs : StronglySorted Z.lt c.*1) by apply Hwf.
  assert (Hin : ∀ m x, (m, x) ∈ c -> 0 < MACH_PORT_INDEX m /\ m <> MACH_PORT_LARGEST /\
    (MACH_PORT_INDEX m = MACH_PORT_INDEX n -> tree_index s (MACH_PORT_INDEX n))).
  { intros m x Hm%dir_contents; [|done]. destruct (Hnames m x Hm). split; [done|]. split; [done|].
    intros E. by exists m, x. }
  rewrite orb_true_iff, !andb_true_iff, !negb_true_iff, !Z.eqb_eq, !Z.eqb_neq.
  change (2 ^ 32 - 1) with MACH_PORT_LARGEST. split.
  - intros [[Hne E]|[Hne E]].
    + destruct (last _) as [[m x]|] eqn:El; cbn in Hne, E; [|done].
      eapply (Hin m x); [|done]. apply last_Some_elem_of in El. by apply list_elem_of_filter in El as [_ ?].
    + destruct (head _) as [[m x]|] eqn:El; cbn in Hne, E; [|done].
      eapply (Hin m x); [|done]. apply head_Some_elem_of in El. by apply list_elem_of_filter in El as [_ ?].
  - intros (m & x & Hm & E). apply dir_contents in Hm; [|done]. fold c in Hm.
    destruct (Z.le_ge_cases m n) as [Hle|Hge].
    + left. destruct (last_upto n c Hs m x Hm Hle) as (m' & x' & -> & Hm' & Hr). cbn.
      split; [by eapply Hin|]. pose proof (index_mono m m'). pose proof (index_mono m' n). lia.
    + right. destruct (head_from n c Hs m x Hm Hge) as (m' & x' & -> & Hm' & Hr). cbn.
      pose proof (index_mono n m'). pose proof (index_mono m' m). split; [|lia].
      intros ->. by destruct (Hin _ _ Hm') as [? _].
Qed.
End collision.

(** ** The names of a changed tree *)

(** The reverse hash tables when the entries outside of the table are [v]. *)
Record names_of (s : ipc_space) (g : buckets) (v : gmap Z tnode) : Prop := {
  no_ok : space_ok (is_hash s) g;
  no_global e : e ∈ tree_entries (is_hash s) g ->
    ∃ x, v !! ite_name e = Some x /\ e = hash_entry (ite_name e) x /\ tn_object x <> IO_NULL;
  no_nodup : NoDup (tree_entries (is_hash s) g);
  no_once o n p n' p' : maps_to (is_hash s) g o n p -> maps_to (is_hash s) g o n' p' -> n = n' }.

Lemma names_wf_of s g l : names_wf s g l <->
  names_of s g (dir (is_tree s)) /\ ∀ i, hashed (tab s) i -> used (tab s) l i.
Proof. split; [intros [H1 H2 H3 H4 H5]; split; [by split|done]|intros [[H1 H2 H3 H4] H5]; by split]. Qed.

Lemma tree_entries_names s g v : names_of s g v -> NoDup (ite_name <$> tree_entries (is_hash s) g) /\
  ∀ n, n ∈ (ite_name <$> tree_entries (is_hash s) g) -> is_Some (v !! n).
Proof.
  intros [_ H3 H4 _]. split.
  - apply NoDup_fmap_2_strong; [|done]. intros x y Hx Hy E.
    destruct (H3 x Hx) as (a & Ha & -> & _), (H3 y Hy) as (b & Hb & -> & _). cbn in *. congruence.
  - intros n (x & -> & Hx)%list_elem_of_fmap. destruct (H3 x Hx) as (a & Ha & _). by exists a.
Qed.

(** The hashed names are at most the names. *)
Lemma tree_hash_le s g (v d : gmap Z tnode) : names_of s g v ->
  (∀ e x, e ∈ tree_entries (is_hash s) g -> v !! ite_name e = Some x -> is_Some (d !! ite_name e)) ->
  is_tree_hash (is_hash s) <= Z.of_nat (base.size d).
Proof.
  intros H Hd. destruct (tree_entries_names s g v H) as [Hn Hs].
  rewrite (space_count _ _ (no_ok _ _ _ H)).
  rewrite <- (length_fmap ite_name (tree_entries (is_hash s) g)).
  apply Nat2Z.inj_le. rewrite <- size_dom.
  transitivity (base.size (list_to_set (ite_name <$> tree_entries (is_hash s) g) : gset Z)).
  { by rewrite size_list_to_set. }
  apply subseteq_size. intros n. rewrite elem_of_list_to_set. intros (e & -> & He)%list_elem_of_fmap.
  apply elem_of_dom. destruct (no_global _ _ _ H e He) as (x & Hx & _). by eapply Hd.
Qed.

(** The hash tables of two spaces agree. *)
Record same_hash (s s' : ipc_space) : Prop := {
  sh_addr : is_addr (is_hash s') = is_addr (is_hash s);
  sh_fast : is_fast (is_hash s') = is_fast (is_hash s);
  sh_count : is_tree_hash (is_hash s') = is_tree_hash (is_hash s);
  sh_size : zlen (tab s') = zlen (tab s);
  sh_table_size : is_table_size (is_hash s') = is_table_size (is_hash s);
  sh_ok : table_ok (tab s) -> table_ok (tab s');
  sh_hashed j : hashed (tab s') j <-> hashed (tab s) j;
  sh_maps g o n p : maps_to (is_hash s') g o n p <-> maps_to (is_hash s) g o n p }.

Lemma names_change s g l s' l' : names_wf s g l -> same_hash s s' ->
  (∀ j, hashed (tab s) j -> used (tab s) l j -> used (tab s') l' j) ->
  (∀ e x, e ∈ tree_entries (is_hash s) g -> dir (is_tree s) !! ite_name e = Some x ->
     dir (is_tree s') !! ite_name e = Some x) ->
  is_tree_total (is_hash s') = Z.of_nat (base.size (dir (is_tree s'))) ->
  is_tree_total (is_hash s') < 2 ^ 32 -> names_wf s' g l'.
Proof.
  intros H [S1 S2 S3 S4 S5 S6 S7 S8] Hu Hd Ht Ht2.
  pose proof (tree_hash_le s g _ (dir (is_tree s')) (proj1 (proj1 (names_wf_of _ _ _) H))) as Hle.
  destruct H as [[N1 N2 N3 N4 N5 N6 N7] H2 H3 H4 H5].
  assert (He : tree_entries (is_hash s') g = tree_entries (is_hash s) g)
    by (unfold tree_entries; by rewrite S1).
  split.
  - split; rewrite ?S1, ?S2, ?S3, ?He, ?S5, ?S4; auto. split; [|done]. rewrite Ht. apply Hle.
    intros e x Hx Hex. by rewrite (Hd e x).
  - intros j Hj%S7. auto.
  - rewrite He. intros e Hx. destruct (H3 e Hx) as (x & Hex & ?). exists x. split; [by apply Hd|done].
  - by rewrite He.
  - intros o n p n' p'. rewrite !S8. apply H5.
Qed.

(** A write to the bits of a slot that keeps the generation. *)
Lemma bits_same_hash s i e v f : table_ok (tab s) -> slot_at (tab s) i e ->
  IE_BITS_GEN v = IE_BITS_GEN (ie_bits e) ->
  is_hash f = is_hash (with_tab (put (tab s) i (with_bits v e)) s) \/
  is_hash f = is_hash (set_tree_total (is_tree_total (is_hash f)) (with_tab (put (tab s) i (with_bits v e)) s)) ->
  same_hash s f.
Proof.
  intros Hok He Hg Hf.
  assert (M : mild s i e (with_bits v e)) by done.
  pose proof (write_kept s i e _ Hok M) as K.
  assert (Hmaps : ∀ g o n p, maps_to (is_hash f) g o n p <-> maps_to (is_hash s) g o n p).
  { intros g o n p. rewrite <- (kp_maps _ _ K). by destruct Hf as [-> | ->]. }
  assert (Htab : tab f = put (tab s) i (with_bits v e)) by (by destruct Hf as [-> | ->]).
  split; try (by destruct Hf as [-> | ->]); try done.
  - rewrite Htab. apply put_length.
  - rewrite Htab. intros _. by eapply table_ok_put.
  - intros j. rewrite Htab. by rewrite (hashed_put _ _ _ e).
Qed.

(** ** The small indices *)

Lemma elem_small s size next i : i ∈ small_indices s size next <-> size <= i < next /\ tree_index s i.
Proof.
  unfold small_indices, tree_index. rewrite elem_of_filter, elem_of_map.
  split; intros [Hr H]; (split; [done|]).
  - destruct H as (n & -> & Hn). apply elem_of_dom in Hn as [x Hx]. by exists n, x.
  - destruct H as (n & x & Hx & <-). exists n. split; [done|]. by apply elem_of_dom.
Qed.

Lemma small_same s s' size next : (∀ i, size <= i < next -> tree_index s' i <-> tree_index s i) ->
  small_indices s' size next = small_indices s size next.
Proof. intros H. apply set_eq. intros i. rewrite !elem_small. split; intros [Hr Hi]; (split; [done|]); by apply H. Qed.

Lemma small_more s s' size next i : size <= i < next -> ~ tree_index s i ->
  (∀ j, tree_index s' j <-> tree_index s j \/ j = i) ->
  base.size (small_indices s' size next) = S (base.size (small_indices s size next)).
Proof.
  intros Hr Hi H. assert (small_indices s' size next = {[i]} ∪ small_indices s size next) as ->.
  { apply set_eq. intros j. rewrite elem_of_union, elem_of_singleton, !elem_small, H. intuition congruence. }
  rewrite size_union, size_singleton; [done|]. apply disjoint_singleton_l. rewrite elem_small. tauto.
Qed.

(** ** Tree entries that go *)

(** The flags and the hash tables of the spaces agree. *)
Record alike (s s' : ipc_space) : Prop := {
  al_active : is_active s' = is_active s;
  al_growing : is_growing s' = is_growing s;
  al_next : is_table_next s' = is_table_next s;
  al_hash : same_hash s s' }.

Lemma same_hash_fields s s' : table_ok (tab s) -> is_addr (is_hash s') = is_addr (is_hash s) ->
  is_fast (is_hash s') = is_fast (is_hash s) -> is_tree_hash (is_hash s') = is_tree_hash (is_hash s) ->
  is_table_size (is_hash s') = is_table_size (is_hash s) -> tab s' = tab s -> same_hash s s'.
Proof.
  intros Hok H1 H2 H3 H4 H5. split; rewrite ?H5; try done.
  intros g o n [i|e]; cbn; by rewrite ?H5, ?H1.
Qed.

(** A slot whose collision mark changes. *)
Definition marked (s : ipc_space) (i : Z) (e : ipc_entry) (g : Z) (c : bool) (low : Z) : ipc_space :=
  with_tab (put (tab s) i (with_bits (mkb g c low) e)) s.

Lemma in_slot_mark t l i e g c c' low n r : slot_at t i e -> slot_is e g c low ->
  in_slot (put t i (with_bits (mkb g c' low) e)) l n r <-> in_slot t l n r.
Proof.
  intros He Hs. pose proof Hs as (Eb & Hg & Hl). rewrite (in_slot_put _ _ i e) by done. split.
  - intros [(g2 & c2 & low2 & -> & Hu & (Eb2 & Hg2 & Hl2) & ->)|[_ H]]; [|done].
    cbn in Eb2. assert (g2 = g /\ low2 = low) as [-> ->]
      by (unfold mkb, gen_ok, low_ok in *; destruct c', c2; cbn [Z.b2z] in *; lia).
    by exists i, e, g, c, low.
  - intros H. destruct (decide (MACH_PORT_INDEX n = i)) as [E|]; [left|by right].
    destruct H as (j & x & g2 & c2 & low2 & -> & Hu & Hx & Hs2 & ->).
    rewrite index_of_name in E by apply Hs2. subst j. assert (x = e) as -> by (by eapply slot_at_fun).
    destruct Hs2 as (Eb2 & Hg2 & Hl2). rewrite Eb in Eb2.
    assert (g2 = g /\ low2 = low) as [-> ->]
      by (unfold mkb, gen_ok, low_ok in *; destruct c, c2; cbn [Z.b2z] in *; lia).
    by exists g, c', low.
Qed.

(** The mark of slot [i] is brought up to date with the tree of [s']. *)
Definition remarked (s : ipc_space) (l : list Z) (s' : ipc_space) (i : Z) : Prop :=
  tab s' = tab s \/ ∃ e g1 c c' low, slot_at (tab s) i e /\ slot_is e g1 c low /\ used (tab s) l i /\
    tab s' = put (tab s) i (with_bits (mkb g1 c' low) e) /\ (c' = true <-> tree_index s' i).

(** The invariant after a change of the tree and of the mark of the slot it concerns. *)
Section tree_change.
Context (sizes : list Z) (s : ipc_space) (g : buckets) (l : list Z) (next : Z).
Context (W : space_wf sizes s g l next) (s' : ipc_space).
Context (Hal : alike s s') (Hwf : wf (is_tree s')).
Context (Htotal : is_tree_total (is_hash s') = zlen (contents (is_tree s'))).
Context (Hroom : is_tree_total (is_hash s') < 2 ^ 32).
Context (Hfast : is_fast (is_hash s) = false).

Lemma tree_change_wf i :
  remarked s l s' i ->
  (∀ n x, dir (is_tree s') !! n = Some x ->
     tn_space x = is_addr (is_hash s) /\ low_ok (tn_bits x) /\ 0 < MACH_PORT_INDEX n /\ n <> MACH_PORT_LARGEST) ->
  (∀ j, j <> i -> tree_index s' j <-> tree_index s j) ->
  (tab s' = tab s -> i < zlen (tab s) -> tree_index s' i <-> tree_index s i) ->
  (∀ n x e, dir (is_tree s') !! n = Some x -> slot_at (tab s) (MACH_PORT_INDEX n) e ->
     IE_BITS_GEN (ie_bits e) <> MACH_PORT_GEN n) ->
  is_tree_small s' = Z.of_nat (base.size (small_indices s' (zlen (tab s)) next)) ->
  (∀ e x, e ∈ tree_entries (is_hash s) g -> dir (is_tree s) !! ite_name e = Some x ->
     dir (is_tree s') !! ite_name e = Some x) ->
  space_wf sizes s' g l next /\ (∀ n r, in_slot (tab s') l n r <-> in_slot (tab s) l n r).
Proof.
  intros Htab Hnodes Hothers Hhere Hgens Hsmall Hkept. destruct Hal as [A1 A2 A3 A4].
  pose proof W as [[W1 (k & W1' & W1'')] W2 [T1 T2 T3 T4 T5 T6 T7] W4].
  assert (Hslots : ∀ n r, in_slot (tab s') l n r <-> in_slot (tab s) l n r).
  { intros n r. destruct Htab as [->|(e & g1 & c & c' & low & He & Hs & _ & -> & _)]; [done|].
    by eapply in_slot_mark. }
  split; [|done]. split.
  - split; [by rewrite A3|]. exists k. rewrite A3. split; [done|]. by rewrite (sh_size _ _ A4).
  - destruct Htab as [->|(e & g1 & c & c' & low & He & (_ & Hg & Hl) & [Hu Hul] & -> & _)]; [done|].
    eapply table_wf_used; try done; [lia|]. by apply mkb_range.
  - rewrite <- (sh_size _ _ A4) in Hsmall. split; try done.
    + by rewrite (sh_addr _ _ A4).
    + intros j y Hy. destruct Htab as [E|(e & g1 & c & c' & low & He & (_ & Hg & Hl) & _ & E & Hc)].
      * rewrite E in Hy. rewrite (T4 j y Hy). destruct (decide (j = i)) as [->|Hne].
        -- symmetry. apply Hhere; [done|]. apply slot_at_range in Hy; lia.
        -- symmetry. by apply Hothers.
      * rewrite E in Hy. apply slot_at_put in Hy as [[-> ->]|[Hne Hy]]; [..|by eapply slot_at_range].
        -- cbn. by rewrite collision_mkb.
        -- rewrite (T4 j y Hy). symmetry. by apply Hothers.
    + intros n x y Hn Hy. destruct Htab as [E|(e & g1 & c & c' & low & He & (Eb & Hg & Hl) & _ & E & Hc)].
      * rewrite E in Hy. by eapply Hgens.
      * rewrite E in Hy. apply slot_at_put in Hy as [[Hi ->]|[Hne Hy]]; [..|by eapply slot_at_range].
        -- cbn. rewrite gen_mkb by done. pose proof (Hgens n x e Hn) as H. rewrite Hi in H.
           specialize (H He). by rewrite Eb, gen_mkb in H by done.
        -- by eapply Hgens.
    + by rewrite (sh_fast _ _ A4), Hfast.
  - eapply names_change; try done.
    + intros j _ [? ?]. split; [|done]. by rewrite (sh_size _ _ A4).
    + by rewrite Htotal, dir_size.
Qed.
End tree_change.

Lemma tree_index_delete s s' n x : dir (is_tree s) !! n = Some x ->
  dir (is_tree s') = delete n (dir (is_tree s)) ->
  (∀ j, tree_index s' j -> tree_index s j) /\
  (∀ j, tree_index s j -> tree_index s' j \/ j = MACH_PORT_INDEX n).
Proof.
  intros Hx Hd. split.
  - intros j (m & y & Hy & <-). rewrite Hd in Hy. apply lookup_delete_Some in Hy as [_ Hy].
    by exists m, y.
  - intros j (m & y & Hy & <-). destruct (decide (m = n)) as [->|Hne]; [by right|left].
    exists m, y. split; [|done]. rewrite Hd. by apply lookup_delete_Some.
Qed.

(** The space once the entry of a name has left the tree, [t] being the tree without it. *)
Definition without (s : ipc_space) (t : name_tree) : ipc_space :=
  set_tree_total (is_tree_total (is_hash s) - 1) (set_is_tree t s).

Section tentry.
Context {O : Type} (o : O) (sizes : list Z) (s : ipc_space) (g : buckets) (l : list Z) (next n : Z).
Context (x : tnode) (W : space_wf sizes s g l next) (Hfast : is_fast (is_hash s) = false).
Context (Hx : dir (is_tree s) !! n = Some x) (Ho : tn_object x = IO_NULL).
Context (t : name_tree) (Ht : wf t) (Hdt : dir t = delete n (dir (is_tree s))).

Lemma without_alike : alike s (without s t).
Proof. split; try done; by apply same_hash_fields. Qed.

Lemma without_sub m y : dir t !! m = Some y -> dir (is_tree s) !! m = Some y.
Proof. rewrite Hdt. by intros [_ ?]%lookup_delete_Some. Qed.

Lemma without_total : is_tree_total (is_hash s) - 1 = zlen (contents t) /\
  is_tree_total (is_hash s) - 1 < 2 ^ 32.
Proof.
  pose proof W as [_ _ [T1 T2 _ _ _ _ _] W4]. pose proof (tree_nonempty _ _ _ _ _ W n x Hx) as Hpos.
  assert (is_tree_total (is_hash s) < 2 ^ 32) by apply (nm_ok _ _ _ W4). split; [|lia].
  rewrite T2, !dir_size, Hdt, map_size_delete_Some by (done || by exists x).
  pose proof (dir_size _ T1). cbn in *. lia.
Qed.

Lemma without_kept e y : e ∈ tree_entries (is_hash s) g -> dir (is_tree s) !! ite_name e = Some y ->
  dir t !! ite_name e = Some y.
Proof.
  intros He Hy. rewrite Hdt. apply lookup_delete_Some. split; [|done]. intros E.
  destruct W as [_ _ _ W4]. destruct (nm_global _ _ _ W4 e He) as (z & Hz & _ & Hne). rewrite <- E in Hz. congruence.
Qed.

Lemma without_drops s' : dir (is_tree s') = dir t ->
  (∀ m r, in_slot (tab s') l m r <-> in_slot (tab s) l m r) -> drops_entry s l s' l n.
Proof.
  intros Hd Hsl m q. unfold has_entry, in_tree. rewrite Hsl, Hd, Hdt. split.
  - intros [Hm|(y & [Hne Hy]%lookup_delete_Some & ->)]; [|split; [right; by exists y|done]].
    split; [by left|]. intros ->. destruct Hm as (j & e & g2 & c & low & -> & Hu & He & Hs & _).
    destruct (tree_slot _ _ _ _ _ W _ _ _ _ _ _ _ Hx He Hs) as [_ Hne]; [apply index_of_name; apply Hs|].
    apply Hne. destruct Hs as (-> & Hg & Hl). by rewrite gen_mkb, gen_of_name.
  - intros [[Hm|(y & Hy & ->)] Hne]; [by left|right]. exists y. split; [|done].
    by apply lookup_delete_Some.
Qed.

(** A final state: its tree is [t] up to splaying, and the mark of the entry's slot tells
    whether the slot still collides with the tree. *)
Lemma without_end s' : alike s s' -> wf (is_tree s') -> contents (is_tree s') = contents t ->
  is_tree_total (is_hash s') = is_tree_total (is_hash s) - 1 ->
  remarked s l s' (MACH_PORT_INDEX n) ->
  (tab s' = tab s -> MACH_PORT_INDEX n < zlen (tab s) ->
     tree_index s' (MACH_PORT_INDEX n) <-> tree_index s (MACH_PORT_INDEX n)) ->
  is_tree_small s' = Z.of_nat (base.size (small_indices s' (zlen (tab s)) next)) ->
  space_wf sizes s' g l next /\ drops_entry s l s' l n.
Proof.
  intros Hal Hwf Hc Htot Htab Hhere Hsm. assert (Hd : dir (is_tree s') = dir t) by (unfold dir; by rewrite Hc).
  destruct without_total as [Hcount Hroom]. pose proof W as [_ _ [_ _ T3 _ T5 _ _] _].
  destruct (tree_index_delete s s' n x Hx ltac:(by rewrite Hd)) as [Hin Hin'].
  destruct (tree_change_wf sizes s g l next W s' Hal Hwf) with (i := MACH_PORT_INDEX n) as [W' Hsl]; try done.
  - by rewrite Htot, Hcount, Hc.
  - by rewrite Htot.
  - intros m y. rewrite Hd. intros Hy%without_sub. by apply T3.
  - intros j Hj. split; [apply Hin|]. intros [?|?]%Hin'; done.
  - intros m y e. rewrite Hd. intros Hy%without_sub. by eapply T5.
  - rewrite Hd. apply without_kept.
  - split; [done|]. by apply without_drops.
Qed.

Lemma without_splayed s' : splayed (without s t) s' -> alike s s' /\ wf (is_tree s') /\
  contents (is_tree s') = contents t /\ is_tree_total (is_hash s') = is_tree_total (is_hash s) - 1 /\
  tab s' = tab s /\ is_tree_small s' = is_tree_small s /\
  (∀ j, tree_index s' j <-> tree_index (without s t) j).
Proof.
  intros (t' & -> & Ht' & Hc'). repeat (split; [by destruct without_alike|]). repeat (split; [done|]).
  intros j. unfold tree_index. cbn. unfold dir. by rewrite Hc'.
Qed.

Lemma without_collision lk (Q : bool -> world O -> Prop) : is_active s = true ->
  (∀ b s', splayed (without s t) s' -> b = true <-> tree_index (without s t) (MACH_PORT_INDEX n) ->
     Q b (World s' lk g o)) ->
  runs (ipc_entry_tree_collision n) Q (World (without s t) lk g o).
Proof.
  intros Ha HQ. apply collision_runs; try done. intros m y Hy%without_sub.
  destruct W as [_ _ [_ _ T3 _ _ _ _] _]. destruct (T3 m y Hy) as (_ & _ & ? & ?). done.
Qed.

Lemma without_small hi s' : (∀ j, tree_index s' j <-> tree_index (without s t) j) ->
  (tree_index s' (MACH_PORT_INDEX n) \/ ~ zlen (tab s) <= MACH_PORT_INDEX n < hi) ->
  base.size (small_indices s' (zlen (tab s)) hi) = base.size (small_indices s (zlen (tab s)) hi).
Proof.
  intros Hti Hn. destruct (tree_index_delete s (without s t) n x Hx Hdt) as [Hin Hin'].
  f_equal. apply small_same. intros j Hj. rewrite Hti. split; [apply Hin|].
  intros [?| ->]%Hin'; [done|]. rewrite <- Hti. tauto.
Qed.

(** The tail of [ipc_entry_dealloc] when the entry's index has a slot in the table. *)
Lemma dealloc_in_table lk (Q : unit -> world O -> Prop) : is_active s = true ->
  MACH_PORT_INDEX n < zlen (tab s) ->
  (∀ s', space_wf sizes s' g l next -> alike s s' -> drops_entry s l s' l n -> Q tt (World s' lk g o)) ->
  runs (e ← table_read (MACH_PORT_INDEX n);
        assert_ (truth (ie_bits e &&& IE_BITS_COLLISION));;
        collides ← ipc_entry_tree_collision n;
        if (collides : bool) then mret tt
        else table_set (MACH_PORT_INDEX n) (λ e, with_bits (Z.ldiff (ie_bits e) IE_BITS_COLLISION) e))
    Q (World (without s t) lk g o).
Proof.
  intros Ha Hlt HQ. pose proof W as [_ W2 [T1 T2 T3 T4 T5 T6 T7] W4].
  destruct (T3 n x Hx) as (_ & _ & Hix & _).
  destruct (slot_at_some (tab s) (MACH_PORT_INDEX n)) as [e He]; [lia|].
  destruct (slot_decode _ _ _ _ _ W _ e He) as (g1 & c & low & Hs). pose proof Hs as (Eb & Hg & Hl).
  destruct (tree_slot _ _ _ _ _ W _ _ _ _ _ _ _ Hx He Hs eq_refl) as [-> _].
  destruct (tree_index_delete s (without s t) n x Hx Hdt) as [Hin _].
  assert (Hused : used (tab s) l (MACH_PORT_INDEX n)).
  { split; [lia|]. intros Hun. destruct (unused_slot _ _ _ _ W2 Hun He) as [_ (g2 & Eb2 & Hg2 & _)].
    rewrite Eb in Eb2. unfold mkb, gen_ok, low_ok in *. cbn [Z.b2z] in *. lia. }
  apply runs_bind, (s_read _ e); [done|]. apply runs_bind, runs_assert; [by rewrite Eb, collision_mkb|].
  apply runs_bind, without_collision; [done|]. intros b s' Hs' Hb.
  destruct (without_splayed s' Hs') as (Hal & Hwf & Hc & Htot & Htab & Hsm & Hti).
  assert (Hsmall : is_tree_small s' = Z.of_nat (base.size (small_indices s' (zlen (tab s)) next)))
    by (rewrite Hsm, T6; f_equal; symmetry; apply without_small; [done|right; lia]).
  destruct b.
  - destruct (without_end s') as [? ?]; try done; [by left| |by apply runs_ret, HQ].
    intros _ _. rewrite Hti. split; [apply Hin|]. intros _. by apply Hb.
  - apply (s_set _ _ e); [by rewrite Htab|]. rewrite Htab, Eb, clear_collision by done.
    pose proof (space_table_ok _ _ _ _ _ W) as Hok. set (s2 := with_tab _ s'). assert (Hal2 : alike s s2).
    { destruct Hal as [A1 A2 A3 A4]. split; try done.
      apply (bits_same_hash s (MACH_PORT_INDEX n) e (mkb g1 false low)); try done; [by rewrite Eb, !gen_mkb|].
      right. by destruct Hs' as (t' & -> & _). }
    destruct (without_end s2) as [? ?]; try done; [| |by apply HQ].
    + right. exists e, g1, true, false, low. do 4 (split; [done|]).
      split; [done|]. intros H. exfalso. enough (false = true) by done. apply Hb. by apply Hti.
    + intros E. exfalso. cbn in E.
      pose proof (slot_at_put_eq (tab s) (MACH_PORT_INDEX n) (with_bits (mkb g1 false low) e) ltac:(lia)) as Hp.
      rewrite E in Hp. assert (Eq : with_bits (mkb g1 false low) e = e) by (by eapply slot_at_fun).
      apply (f_equal ie_bits) in Eq. cbn in Eq. rewrite Eb in Eq. unfold mkb in Eq. cbn [Z.b2z] in Eq. lia.
Qed.

(** The tail of [ipc_entry_dealloc] when the table is too small for the entry's index. *)
Lemma dealloc_above_table lk (Q : unit -> world O -> Prop) : is_active s = true ->
  zlen (tab s) <= MACH_PORT_INDEX n ->
  (∀ s', space_wf sizes s' g l next -> alike s s' -> drops_entry s l s' l n -> Q tt (World s' lk g o)) ->
  runs (next_size ← deref (λ _, sizes !! is_table_next s);
        if MACH_PORT_INDEX n <? next_size then
          collides ← ipc_entry_tree_collision n;
          if (collides : bool) then mret tt
          else
            assert_ (0 <? is_tree_small s);;
            set_space (λ s, set_is_tree_small (is_tree_small s - 1) s)
        else mret tt)
    Q (World (without s t) lk g o).
Proof.
  intros Ha Hge HQ. pose proof W as [[W1 _] _ [_ _ _ _ _ T6 _] _].
  destruct (tree_index_delete s (without s t) n x Hx Hdt) as [Hin Hin'].
  assert (Hend : ∀ s', alike s s' -> wf (is_tree s') -> contents (is_tree s') = contents t ->
    is_tree_total (is_hash s') = is_tree_total (is_hash s) - 1 -> tab s' = tab s ->
    is_tree_small s' = Z.of_nat (base.size (small_indices s' (zlen (tab s)) next)) -> Q tt (World s' lk g o)).
  { intros s' ??????. destruct (without_end s'); try done; [by left|intros; lia|by apply HQ]. }
  apply runs_bind, (s_deref _ next); [done|]. destruct (Z.ltb_spec (MACH_PORT_INDEX n) next) as [Hlt|Hge2].
  - apply runs_bind, without_collision; [done|]. intros b s' Hs' Hb.
    destruct (without_splayed s' Hs') as (Hal & Hwf & Hc & Htot & Htab & Hsm & Hti). destruct b.
    + apply runs_ret, Hend; try done. rewrite Hsm, T6. f_equal. symmetry.
      apply without_small; [done|]. left. apply Hti. by apply Hb.
    + assert (Hnot : ~ tree_index s' (MACH_PORT_INDEX n)) by (by rewrite Hti; intros ?%Hb).
      assert (Hone : base.size (small_indices s (zlen (tab s)) next) =
        S (base.size (small_indices s' (zlen (tab s)) next))).
      { apply (small_more s' s _ _ (MACH_PORT_INDEX n)); [lia|done|].
        intros j. rewrite Hti. split; [apply Hin'|]. intros [?| ->]; [by apply Hin|by exists n, x]. }
      apply runs_bind, runs_assert; [apply Z.ltb_lt; rewrite T6; lia|].
      apply s_set_space, Hend; try done.
      * destruct Hal as [A1 A2 A3 [B1 B2 B3 B4 B5 B6 B7 B8]]. by split; [..|split].
      * change (is_tree_small s' - 1 = Z.of_nat (base.size (small_indices s' (zlen (tab s)) next))).
        rewrite Hsm, T6, Hone. lia.
  - apply runs_ret, Hend; try done; try exact without_alike.
    change (is_tree_small (without s t)) with (is_tree_small s). rewrite T6. f_equal. symmetry.
    apply without_small; [done|right; lia].
Qed.
End tentry.

(** [ipc_entry_dealloc] of an entry of the tree. *)
Lemma dealloc_tentry_runs {O : Type} (o : O) sizes s lk g l next n x (Q : unit -> world O -> Prop) :
  space_wf sizes s g l next -> is_active s = true -> is_fast (is_hash s) = false ->
  dir (is_tree s) !! n = Some x -> tn_object x = IO_NULL ->
  (∀ s', space_wf sizes s' g l next -> alike s s' -> drops_entry s l s' l n ->
     Q tt (World s' lk g o)) ->
  runs (dealloc_tentry sizes n) Q (World s lk g o).
Proof.
  intros W Ha Hf Hx Ho HQ. pose proof W as [_ _ [T1 _ T3 _ _ _ _] _].
  destruct (T3 n x Hx) as (Hsp & _). destruct (delete_spec (is_tree s) n x T1 Hx) as (t & Ed & Ht & Hdt).
  pose proof (tree_nonempty _ _ _ _ _ W n x Hx) as Hpos.
  unfold dealloc_tentry. apply runs_bind, s_of_space, runs_bind, (s_deref _ x); [done|].
  apply runs_bind, runs_assert; [by apply Z.eqb_eq|]. apply runs_bind.
  eapply s_on_tree; [exact Ed|]. apply runs_bind, runs_assert; [by apply Z.ltb_lt|].
  apply runs_bind, s_set_space. cbn [id]. rewrite (table_size _ _ _ _ _ W).
  destruct (Z.ltb_spec (MACH_PORT_INDEX n) (zlen (tab s))).
  - by apply (dealloc_in_table o sizes s g l next n x W Hf Hx Ho t Ht Hdt).
  - by apply (dealloc_above_table o sizes s g l next n x W Hf Hx Ho t Ht Hdt).
Qed.

(** * Entries that move from the tree to the table *)

(** The name that the reverse hash tables give an object. *)
Definition hash_name (s : ipc_space) (g : buckets) (obj n : Z) : Prop :=
  ∃ p, maps_to (is_hash s) g obj n p.

(** The send rights of the tree are hashed, and no other entries are. *)
Definition sends_hashed (s : ipc_space) (g : buckets) : Prop :=
  ∀ n x, dir (is_tree s) !! n = Some x ->
    IE_BITS_TYPE (tn_bits x) = MACH_PORT_TYPE_SEND <-> hash_entry n x ∈ tree_entries (is_hash s) g.

Section move.
Context {O : Type} (o : O).

(** The hash part of a move: the tree entry leaves the global table and its slot enters the
    local one. *)
Definition move_hash (obj name i : Z) (x : tnode) : kern (world O) unit :=
  on_hash (λ s g, ipc_hash_global_delete s g obj name (hash_entry name x));;
  on_hash (λ s g, t ← ipc_hash_local_insert (is_table s) (is_table_size s) obj i;
                  Some (set_is_table s t, g)).

Lemma move_hash_runs s lk g n x i e (Q : unit -> world O -> Prop) :
  table_ok (tab s) -> is_table_size (is_hash s) = zlen (tab s) -> buckets_ok g ->
  is_fast (is_hash s) = false -> is_addr (is_hash s) <> 0 -> tn_space x = is_addr (is_hash s) ->
  tn_object x <> IO_NULL -> is_tree_hash (is_hash s) = zlen (tree_entries (is_hash s) g) ->
  is_tree_hash (is_hash s) < 2 ^ 32 -> hash_entry n x ∈ tree_entries (is_hash s) g ->
  0 < i -> slot_at (tab s) i e -> ie_object e = tn_object x -> ~ hashed (tab s) i ->
  (∀ t' g', let s' := set_is_hash (set_is_table (set_is_tree_hash (is_hash s) (is_tree_hash (is_hash s) - 1)) t') s in
     table_ok t' -> same_entries (tab s) t' -> (∀ j, hashed t' j <-> hashed (tab s) j \/ j = i) ->
     buckets_ok g' -> hash_entry n x :: all_entries g' ≡ₚ all_entries g ->
     Q tt (World s' lk g' o)) ->
  runs (move_hash (tn_object x) n i x) Q (World s lk g o).
Proof.
  intros Hok Hsz Hb Hf Ha Hsp Ho Hc Hlt Hin Hi He Heo Hnh HQ.
  pose proof Hin as [_ Hall]%list_elem_of_filter.
  assert (Hpos : 0 < is_tree_hash (is_hash s)).
  { rewrite Hc. destruct (tree_entries (is_hash s) g); [by apply elem_of_nil in Hin|]. cbn. lia. }
  destruct (global_delete_spec (is_hash s) g (tn_object x) n (hash_entry n x))
    as (g' & Eg & Hb' & Hp); try done.
  apply runs_bind. eapply s_on_hash; [exact Eg|].
  destruct (local_insert_spec (tab s) (tn_object x) i Hok Ho) as (t' & Et & Hok' & Hsame & Hh); try done.
  { split; [done|]. by apply (slot_at_range _ _ _ He). }
  { by rewrite (obj_of_at _ i e). }
  eapply s_on_hash.
  - cbn [set_is_hash is_hash set_is_tree_hash is_table is_table_size]. rewrite Hsz, Et. done.
  - by apply HQ.
Qed.
End move.

Lemma same_entries_at t t' i e : same_entries t t' -> slot_at t i e ->
  ∃ ix, slot_at t' i (Entry (ie_object e) (ie_bits e) (ie_request e) ix).
Proof.
  intros Hs [Hi He]. unfold same_entries in Hs. unfold slot_at, entry_at in *.
  assert (E : (strip <$> t') !! Z.to_nat i = Some (strip e)) by (rewrite <- Hs, list_lookup_fmap, He; done).
  rewrite list_lookup_fmap in E. destruct (t' !! Z.to_nat i) as [e'|]; [|done].
  cbn in E. injection E as E1 E2 E3. exists (ie_index e'). split; [done|]. f_equal.
  destruct e'. cbn in *. congruence.
Qed.

Lemma same_entries_sym t t' : same_entries t t' -> same_entries t' t.
Proof. by unfold same_entries. Qed.

(** Tables that differ in their hash slots only. *)
Lemma chain_same t t' : same_entries t t' -> ∀ l i, chain t i l -> chain t' i l.
Proof.
  intros Hs. induction l as [|j l IH]; [done|]. intros i (-> & Hj & e & He & Hc).
  destruct (same_entries_at _ _ _ _ Hs He) as [ix Hx]. split; [done|]. split; [done|].
  eexists. split; [exact Hx|]. by apply IH.
Qed.

Lemma table_wf_same t t' l : same_entries t t' -> table_wf t l -> table_wf t' l.
Proof.
  intros Hs [W1 (h & Hh & Hc) W3 W4 W5]. split.
  - by rewrite <- (same_entries_length _ _ Hs).
  - destruct (same_entries_at _ _ _ _ Hs Hh) as [ix Hx]. eexists. split; [exact Hx|]. by eapply chain_same.
  - done.
  - intros i e He. destruct (same_entries_at _ _ _ _ (same_entries_sym _ _ Hs) He) as [ix Hx].
    by apply W4 in Hx.
  - intros i e He Hi. destruct (same_entries_at _ _ _ _ (same_entries_sym _ _ Hs) He) as [ix Hx].
    by apply W5 in Hx.
Qed.

(** ** Cutting the tree *)

Lemma make_zero i : 0 <= i < 2 ^ 24 -> MACH_PORT_MAKE i 0 = i * 2 ^ 8.
Proof. intros Hi. rewrite <- (Z.add_0_r (i * 2 ^ 8)). apply (make_name i 0 Hi). unfold gen_ok. lia. Qed.

Lemma index_cut n i : MACH_PORT_INDEX n < i <-> n < i * 2 ^ 8.
Proof. unfold MACH_PORT_INDEX. rewrite Z.shiftr_div_pow2 by lia. divlia. Qed.

Lemma pick_spec (t : name_tree) : match ipc_splay_tree_pick t with
  | Some (n, x) => (n, x) ∈ contents t | None => contents t = [] end.
Proof.
  unfold ipc_splay_tree_pick, contents. destruct (ist_root t) as [|n x tl tr]; [done|].
  unfold contents3. cbn [elems]. rewrite !elem_of_app. right. left. right. by left.
Qed.

(** The names of a tree by index: below [lo], from [lo] to [hi], from [hi] on. *)
Definition indices (P : Z -> Prop) (t : name_tree) : Prop :=
  ∀ n x, (n, x) ∈ contents t -> P (MACH_PORT_INDEX n).

Lemma split_index (t junk : name_tree) i : wf t -> 0 <= i < 2 ^ 24 ->
  ∃ big small, ipc_splay_tree_split t (MACH_PORT_MAKE i 0) junk = Some (big, small) /\
    wf big /\ wf small /\ contents t = contents small ++ contents big /\
    indices (λ j, j < i) small /\ indices (λ j, i <= j) big.
Proof.
  intros Hwf Hi. destruct (split_spec t (MACH_PORT_MAKE i 0) junk Hwf) as (big & small & E & Hb & Hs & Hc & Hlo & Hhi).
  exists big, small. do 4 (split; [done|]). rewrite make_zero in Hlo, Hhi by done.
  unfold below in Hlo. rewrite Forall_forall in Hlo, Hhi. split; intros n x Hx.
  - apply index_cut. by apply (Hlo (n, x)).
  - specialize (Hhi (n, x) Hx). cbn in Hhi. destruct (Z.lt_ge_cases (MACH_PORT_INDEX n) i) as [H|]; [|done].
    apply index_cut in H. lia.
Qed.

Lemma join_index (t small : name_tree) i : wf t -> wf small ->
  indices (λ j, j < i) small -> indices (λ j, i <= j) t ->
  ∃ t', ipc_splay_tree_join t small = Some t' /\ wf (t'.1) /\ contents t'.1 = contents small ++ contents t.
Proof.
  intros Ht Hs Hlo Hhi. destruct (join_spec t small Ht Hs) as (t1 & t2 & E & H1 & _ & Hc & _).
  - intros [n x] [m y] Hx Hy. cbn. specialize (Hlo n x Hx). specialize (Hhi m y Hy). cbn in *.
    destruct (Z.lt_ge_cases n m) as [|Hge]; [done|]. pose proof (index_mono m n Hge). lia.
  - by exists (t1, t2).
Qed.

Section refill.
Context {O : Type} (o : O) (sizes : list Z) (uninit : name_tree).

(** What a deallocation leaves alone: the flags, the place of the space and the names that
    the hash tables give. *)
Record steady (s : ipc_space) (g : buckets) (s' : ipc_space) (g' : buckets) : Prop := {
  st_active : is_active s' = is_active s;
  st_growing : is_growing s' = is_growing s;
  st_next : is_table_next s' = is_table_next s;
  st_addr : is_addr (is_hash s') = is_addr (is_hash s);
  st_fast : is_fast (is_hash s') = is_fast (is_hash s);
  st_names obj n : hash_name s' g' obj n <-> hash_name s g obj n }.

(** The hash tables after the move of the entry [x], of name [n], into slot [i]: a send right
    that was hashed, or another right. *)
Definition hash_moved (s : ipc_space) (g : buckets) (i n : Z) (x : tnode) (s' : ipc_space) (g' : buckets) : Prop :=
  (IE_BITS_TYPE (tn_bits x) = MACH_PORT_TYPE_SEND /\ (∀ j, hashed (tab s') j <-> hashed (tab s) j \/ j = i) /\
     is_tree_hash (is_hash s') = is_tree_hash (is_hash s) - 1 /\ hash_entry n x :: all_entries g' ≡ₚ all_entries g) \/
  (IE_BITS_TYPE (tn_bits x) <> MACH_PORT_TYPE_SEND /\ (∀ j, hashed (tab s') j <-> hashed (tab s) j) /\
     is_tree_hash (is_hash s') = is_tree_hash (is_hash s) /\ g' = g).

(** The slot with the entry, before the hash tables are told. *)
Definition refilled (e : ipc_entry) (x : tnode) (gn : Z) (c : bool) : ipc_entry :=
  Entry (tn_object x) (mkb gn c (tn_bits x)) (tn_request x) (ie_index e).

Section hash_move.
Context (s : ipc_space) (g : buckets) (s' : ipc_space) (g' : buckets).
Context (i : Z) (e : ipc_entry) (n : Z) (x : tnode) (gn : Z) (c : bool).
Context (Htab : table_ok (tab s)) (He : slot_at (tab s) i e) (Hr : 0 < i) (Hr2 : zlen (tab s) < 2 ^ 24).
Context (Hgn : gen_ok gn) (En : n = i * 2 ^ 8 + gn) (Hlx : low_ok (tn_bits x)).
Context (Hsp : tn_space x = is_addr (is_hash s)) (Hnh : ~ hashed (tab s) i).
Context (Hsend : IE_BITS_TYPE (tn_bits x) = MACH_PORT_TYPE_SEND <-> hash_entry n x ∈ tree_entries (is_hash s) g).
Context (F5 : is_addr (is_hash s') = is_addr (is_hash s)).
Context (Hsame : same_entries (put (tab s) i (refilled e x gn c)) (tab s')).
Context (Hok : table_ok (tab s')) (Hcase : hash_moved s g i n x s' g').

Lemma moved_length : zlen (tab s') = zlen (tab s).
Proof. rewrite <- (same_entries_length _ _ Hsame). apply put_length. Qed.

Lemma moved_slots j y : slot_at (tab s') j y ->
  (j = i /\ strip y = strip (refilled e x gn c)) \/ (j <> i /\ ∃ z, slot_at (tab s) j z /\ strip y = strip z).
Proof.
  intros Hy. destruct (same_entries_at _ _ _ _ (same_entries_sym _ _ Hsame) Hy) as [ix Hz].
  pose proof (slot_at_range _ _ _ He) as Hi. apply slot_at_put in Hz as [[-> Hz]|[Hne Hz]]; [..|done].
  - left. split; [done|]. rewrite <- Hz. done.
  - right. split; [done|]. eexists. split; [exact Hz|]. done.
Qed.

Lemma moved_entries : IE_BITS_TYPE (tn_bits x) = MACH_PORT_TYPE_SEND ->
  hash_entry n x :: all_entries g' ≡ₚ all_entries g ->
  tree_entries (is_hash s) g ≡ₚ hash_entry n x :: tree_entries (is_hash s') g'.
Proof. intros _ Hp. unfold tree_entries. rewrite F5, <- Hp. by rewrite filter_cons_True. Qed.

(** A slot of the new table and the old one, other than [i]. *)
Lemma moved_maps j obj m : j <> i -> maps_to (is_hash s') g' obj m (InTable j) <->
  hashed (tab s') j /\ ∃ z, slot_at (tab s) j z /\ ie_object z = obj /\ m = MACH_PORT_MAKE j (IE_BITS_GEN (ie_bits z)).
Proof.
  intros Hj. split.
  - intros H. pose proof H as [Hh _]. split; [done|]. pose proof (hashed_range _ _ Hok Hh) as Hjr.
    destruct (slot_at_some (tab s') j) as [y Hy]; [lia|]. apply (maps_slot s' g' obj m j y Hok Hy) in H as (_ & Hobj & Hm).
    destruct (moved_slots j y Hy) as [[? _]|(_ & z & Hz & E)]; [done|]. unfold strip in E. injection E as E1 E2 E3.
    exists z. split; [done|]. by rewrite <- E1, <- E2.
  - intros (Hh & z & Hz & Hobj & Hm). pose proof (hashed_range _ _ Hok Hh) as Hjr.
    destruct (slot_at_some (tab s') j) as [y Hy]; [lia|]. apply (maps_slot s' g' obj m j y Hok Hy).
    split; [done|]. destruct (moved_slots j y Hy) as [[? _]|(_ & z' & Hz' & E)]; [done|].
    assert (z' = z) as -> by (by eapply slot_at_fun). unfold strip in E. injection E as E1 E2 E3.
    by rewrite E1, E2.
Qed.

Lemma moved_here obj m : maps_to (is_hash s') g' obj m (InTable i) <->
  hashed (tab s') i /\ obj = tn_object x /\ m = n.
Proof.
  pose proof (slot_at_range _ _ _ He) as Hi.
  destruct (slot_at_some (tab s') i) as [y Hy]; [by rewrite moved_length|].
  rewrite (maps_slot s' g' obj m i y Hok Hy).
  destruct (moved_slots i y Hy) as [[_ E]|[? _]]; [|done]. unfold strip, refilled in E. cbn in E.
  injection E as E1 E2 E3. rewrite E1, E2.
  rewrite gen_mkb, make_name, <- En by (done || lia). intuition congruence.
Qed.

Lemma moved_names obj m : hash_name s' g' obj m <-> hash_name s g obj m.
Proof.
  assert (Hother : ∀ j, j <> i -> (hashed (tab s') j <-> hashed (tab s) j) ->
    maps_to (is_hash s') g' obj m (InTable j) <-> maps_to (is_hash s) g obj m (InTable j)).
  { intros j Hj Hh. rewrite moved_maps by done. rewrite Hh. split.
    - intros (H & z & Hz & ? & ?). by apply (maps_slot s g obj m j z Htab Hz).
    - intros H. pose proof H as [Hhj _]. split; [done|].
      pose proof (hashed_range _ _ Htab Hhj) as Hjr.
      destruct (slot_at_some (tab s) j) as [z Hz]; [lia|]. exists z. split; [done|].
      by apply (maps_slot s g obj m j z Htab Hz). }
  destruct Hcase as [(Hty & Hh & _ & Hp)|(Hty & Hh & _ & ->)].
  - pose proof (proj1 Hsend Hty) as Hin. split.
    + intros [[j|y] H].
      * destruct (decide (j = i)) as [->|Hj].
        -- apply moved_here in H as (_ & -> & ->). exists (InTree (hash_entry n x)).
           apply list_elem_of_filter in Hin as [Hys Hin']. split; [done|]. split; [|done].
           unfold is_for. cbn in *. by rewrite Hsp, !Z.eqb_refl.
        -- exists (InTable j). apply Hother in H; [done|done|]. rewrite Hh. intuition congruence.
      * exists (InTree y). destruct H as (Hy & Hf & Hm). split; [|by rewrite F5 in Hf].
        rewrite <- Hp. by right.
    + intros [[j|y] H].
      * assert (Hj : j <> i) by (intros ->; destruct H as [H _]; by destruct Hnh).
        exists (InTable j). apply Hother; [done| |done]. rewrite Hh. intuition congruence.
      * destruct H as (Hy & Hf & Hm). rewrite <- Hp in Hy. apply elem_of_cons in Hy as [->|Hy].
        -- exists (InTable i). apply moved_here. split; [rewrite Hh; by right|].
           apply is_for_space in Hf as [_ <-]. done.
        -- exists (InTree y). split; [done|]. by rewrite F5.
  - assert (Hj : ∀ j, j <> i \/ ¬ hashed (tab s') j) by (intros j; destruct (decide (j = i)) as [->|];
      [right; rewrite Hh; apply Hnh|by left]).
    split; intros [[j|y] H].
    + exists (InTable j). destruct (Hj j) as [?|Hn]; [by apply Hother|]. by destruct H.
    + exists (InTree y). cbn in *. by rewrite F5 in H.
    + exists (InTable j). destruct (Hj j) as [?|Hn]; [by apply Hother|]. destruct H as [H _]. by rewrite Hh in Hn.
    + exists (InTree y). cbn in *. by rewrite F5.
Qed.

(** The tables hold what is left outside of the table. *)
Lemma moved_names_of v : names_of s g v -> v !! n = Some x ->
  is_tree_total (is_hash s) = Z.of_nat (base.size v) ->
  is_tree_total (is_hash s') = is_tree_total (is_hash s) - 1 ->
  is_table_size (is_hash s') = zlen (tab s) -> (is_fast (is_hash s') = false) -> buckets_ok g' ->
  names_of s' g' (delete n v).
Proof.
  intros N Hx Ht F8 F9 F6 Hb. pose proof N as [[N1 N1a N1b N1c N1d N1e N1f] N3 N4 N5].
  assert (Hlen : zlen (tab s') = zlen (tab s)) by apply moved_length.
  assert (Hleft : NoDup (tree_entries (is_hash s') g') /\
    is_tree_hash (is_hash s') = zlen (tree_entries (is_hash s') g') /\
    ∀ y, y ∈ tree_entries (is_hash s') g' -> y ∈ tree_entries (is_hash s) g /\ ite_name y <> n).
  { destruct Hcase as [(Hty & _ & Hcnt & Hp)|(Hty & _ & Hcnt & Eg)].
    - pose proof (moved_entries Hty Hp) as HP. pose proof N4 as Hnd. rewrite HP in Hnd.
      apply NoDup_cons in Hnd as [Hnin Hnd]. split; [done|].
      split; [rewrite Hcnt, N1d, HP; cbn [length]; lia|].
      intros y Hy. rewrite HP. split; [by right|]. intros E. apply Hnin.
      destruct (N3 y) as (z & Hz & Ez & _); [rewrite HP; by right|].
      rewrite E, Hx in Hz. injection Hz as <-. by rewrite <- E, <- Ez.
    - assert (HP : tree_entries (is_hash s') g' = tree_entries (is_hash s) g)
        by (unfold tree_entries; by rewrite F5, Eg).
      rewrite HP, Hcnt. split; [done|]. split; [done|]. intros y Hy. split; [done|]. intros E.
      destruct (N3 y Hy) as (z & Hz & Ez & _). rewrite E, Hx in Hz. injection Hz as <-.
      rewrite E in Ez. apply Hty, Hsend. by rewrite <- Ez. }
  destruct Hleft as (C1 & C2 & C3).
  assert (HG : ∀ y, y ∈ tree_entries (is_hash s') g' ->
    ∃ z, delete n v !! ite_name y = Some z /\ y = hash_entry (ite_name y) z /\ tn_object z <> IO_NULL).
  { intros y Hy. destruct (C3 y Hy) as [Hy' Hne]. destruct (N3 y Hy') as (z & Hz & Ez & Hzo).
    exists z. split; [|done]. by apply lookup_delete_Some. }
  split; try done.
  - split; rewrite ?F5, ?F6, ?Hlen; try done. split; [|rewrite F8; lia].
    rewrite C2, F8, Ht. rewrite <- (length_fmap ite_name (tree_entries (is_hash s') g')).
    assert (Hsz : base.size v = S (base.size (delete n v))).
    { rewrite map_size_delete_Some by (by exists x). 
      assert (base.size v <> 0%nat) by (intros E0%map_size_empty_inv; by rewrite E0, lookup_empty in Hx). lia. }
    rewrite Hsz. enough (length (ite_name <$> tree_entries (is_hash s') g') <= base.size (delete n v))%nat by lia.
    rewrite <- size_dom. transitivity (base.size (list_to_set (ite_name <$> tree_entries (is_hash s') g') : gset Z)).
    + rewrite size_list_to_set; [done|]. apply NoDup_fmap_2_strong; [|done]. intros p q Hp Hq E.
      destruct (HG p Hp) as (a & Ha & -> & _), (HG q Hq) as (b & Hb2 & -> & _). cbn in *. congruence.
    + apply subseteq_size. intros m. rewrite elem_of_list_to_set. intros (p & -> & Hp)%list_elem_of_fmap.
      apply elem_of_dom. destruct (HG p Hp) as (a & Ha & _). by exists a.
  - intros obj m p m' p' Hm Hm'.
    assert (H1 : hash_name s g obj m) by (apply moved_names; by exists p).
    assert (H2 : hash_name s g obj m') by (apply moved_names; by exists p').
    destruct H1 as [q H1], H2 as [q' H2]. by eapply N5.
Qed.
End hash_move.

(** The state after the move of the entry [x], of name [n], into slot [i]. *)
Section moved.
Context (s : ipc_space) (g : buckets) (l : list Z) (next : Z) (W : space_wf sizes s g l next).
Context (i : Z) (e : ipc_entry) (g1 : Z) (low : Z).
Context (He : slot_at (tab s) i e) (Hs : slot_is e g1 true low) (Hu : used (tab s) l i).
Context (Ho : ie_object e = IO_NULL) (n : Z) (x : tnode) (Hx : dir (is_tree s) !! n = Some x).
Context (Hi : MACH_PORT_INDEX n = i) (Hsend : sends_hashed s g).

Lemma name_gen : ∃ gn, gen_ok gn /\ n = i * 2 ^ 8 + gn /\ MACH_PORT_GEN n = gn * 2 ^ 24.
Proof.
  pose proof (tr_wf _ _ (sw_tree _ _ _ _ _ W)) as Ht. pose proof (dir_name _ Ht n x Hx) as Hn.
  destruct (name_split n Hn) as (j & gn & E & Hj & Hg). exists gn. split; [done|].
  assert (j = i) as -> by (rewrite <- Hi, E; by rewrite index_of_name).
  split; [done|]. rewrite E. by apply gen_of_name.
Qed.

Lemma moved_range : 0 < i < zlen (tab s) /\ zlen (tab s) < 2 ^ 24.
Proof. destruct Hu as [? _]. pose proof (table_range _ _ _ _ _ W). lia. Qed.

Context (t : name_tree) (Ht : wf t) (Hdt : dir t = delete n (dir (is_tree s))).
Context (s' : ipc_space) (g' : buckets) (gn : Z) (c : bool).
Context (Hgn : gen_ok gn) (En : n = i * 2 ^ 8 + gn).
Context (F1 : is_active s' = is_active s) (F2 : is_growing s' = is_growing s).
Context (F3 : is_table_next s' = is_table_next s) (F4 : is_tree_small s' = is_tree_small s).
Context (F5 : is_addr (is_hash s') = is_addr (is_hash s)) (F6 : is_fast (is_hash s') = false).
Context (F6' : is_fast (is_hash s) = false) (F7 : is_tree s' = t).
Context (F8 : is_tree_total (is_hash s') = is_tree_total (is_hash s) - 1).
Context (F9 : is_table_size (is_hash s') = zlen (tab s)).
Context (Hsame : same_entries (put (tab s) i (refilled e x gn c)) (tab s')).
Context (Hc : c = true <-> tree_index s' i).
Context (Hok : table_ok (tab s')) (Hb : buckets_ok g').
Context (Hcase : hash_moved s g i n x s' g').

Lemma not_hashed_here : ~ hashed (tab s) i.
Proof. eapply null_not_hashed; done. Qed.

Lemma mv_length : zlen (tab s') = zlen (tab s).
Proof. by eapply moved_length. Qed.

Lemma mv_slots j y : slot_at (tab s') j y ->
  (j = i /\ strip y = strip (refilled e x gn c)) \/ (j <> i /\ ∃ z, slot_at (tab s) j z /\ strip y = strip z).
Proof. by eapply moved_slots. Qed.

Lemma mv_names obj m : hash_name s' g' obj m <-> hash_name s g obj m.
Proof.
  pose proof moved_range as [[H0 _] Hr2].
  destruct (tr_nodes _ _ (sw_tree _ _ _ _ _ W) n x Hx) as (Hsp & Hlx & _).
  by apply (moved_names s g s' g' i e n x gn c (space_table_ok _ _ _ _ _ W) He H0 Hr2 Hgn En Hlx Hsp
    not_hashed_here (Hsend n x Hx)).
Qed.


Lemma moved_index j : j <> i -> tree_index s' j <-> tree_index s j.
Proof.
  intros Hj. destruct (tree_index_delete s s' n x Hx) as [Hin Hin']; [by rewrite F7|].
  split; [apply Hin|]. intros [?| ->]%Hin'; [done|]. by destruct Hj.
Qed.

Lemma moved_gen m y : dir t !! m = Some y -> MACH_PORT_INDEX m = i -> MACH_PORT_GEN m <> gn * 2 ^ 24.
Proof.
  intros Hm E Hg. rewrite Hdt in Hm. apply lookup_delete_Some in Hm as [Hne Hm]. apply Hne.
  pose proof (dir_name _ (tr_wf _ _ (sw_tree _ _ _ _ _ W)) m y Hm) as Hr.
  destruct (name_split m Hr) as (j & gm & Em & _ & Hgm). rewrite Em, index_of_name in E by done.
  rewrite Em, gen_of_name in Hg by done. rewrite Em, En. lia.
Qed.







Lemma moved_wf : space_wf sizes s' g' l next.
Proof.
  pose proof moved_range as [Hr Hr2].
  pose proof W as [[W1 (k & W1' & W1'')] W2 [T1 T2 T3 T4 T5 T6 T7] W4].
  pose proof (T3 n x Hx) as (Hsp & Hlx & _).
  assert (Htot : is_tree_total (is_hash s') = Z.of_nat (base.size (dir t))).
  { rewrite F8, T2, dir_size, Hdt, map_size_delete_Some by (done || by exists x).
    assert (base.size (dir (is_tree s)) <> 0%nat).
    { intros E0%map_size_empty_inv. rewrite E0 in Hx. by rewrite lookup_empty in Hx. } lia. }
  assert (Hsub : ∀ m y, dir t !! m = Some y -> dir (is_tree s) !! m = Some y)
    by (intros m y; rewrite Hdt; by intros [_ ?]%lookup_delete_Some).
  split.
  - split; [by rewrite F3|]. exists k. rewrite F3, mv_length. done.
  - eapply table_wf_same; [exact Hsame|]. eapply table_wf_used; try done; [lia|apply Hu|].
    by apply mkb_range.
  - split; rewrite ?F7, ?F4, ?mv_length; try done.
    + by rewrite Htot, dir_size.
    + intros m y Hm%Hsub. rewrite F5. by apply T3.
    + intros j y Hy. destruct (mv_slots j y Hy) as [[-> E]|(Hj & z & Hz & E)]; injection E as _ E2 _; rewrite E2.
      * cbn. by rewrite collision_mkb.
      * rewrite (T4 j z Hz). symmetry. by apply moved_index.
    + intros m y z Hm Hz. destruct (mv_slots _ z Hz) as [[Hj E]|(Hj & w & Hw & E)]; injection E as _ E2 _; rewrite E2.
      * cbn. rewrite gen_mkb by done. intros E. by eapply (moved_gen m y).
      * eapply T5; [by apply Hsub|done].
    + rewrite T6. do 2 f_equal. symmetry. apply small_same. intros j Hj. apply moved_index. lia.
    + by rewrite F6.
  - rewrite names_wf_of, F7, Hdt. split.
    + assert (H0 : 0 < i) by lia. pose proof (proj1 (proj1 (names_wf_of _ _ _) W4)) as N.
      eapply (moved_names_of s g s' g' i e n x gn c (space_table_ok _ _ _ _ _ W) He H0 Hr2 Hgn En Hlx Hsp
        not_hashed_here (Hsend n x Hx)); try done.
      by rewrite T2, dir_size.
    + intros j Hj. split; [by apply hashed_range|].
      destruct Hcase as [(_ & Hh & _)|(_ & Hh & _)]; apply Hh in Hj; [destruct Hj as [Hj| ->]|];
        try by apply (nm_local _ _ _ W4). apply Hu.
Qed.

Lemma moved_drops : drops_entry s l s' l (i * 2 ^ 8 + g1).
Proof.
  pose proof moved_range as [Hr Hr2].
  pose proof (tr_nodes _ _ (sw_tree _ _ _ _ _ W) n x Hx) as (_ & Hlx & _).
  destruct (tree_slot _ _ _ _ _ W _ _ _ _ _ _ _ Hx He Hs Hi) as [_ Hng].
  assert (Hgne : gn <> g1).
  { intros ->. apply Hng. destruct Hs as (Eb & Hg & Hl). by rewrite Eb, gen_mkb, En, gen_of_name. }
  intros m q. unfold has_entry. split.
  - intros [(j & y & g2 & c2 & l2 & -> & [Hj Hjl] & Hy & (Eb & Hg2 & Hl2) & ->)|(y & Hy & ->)].
    + destruct (mv_slots j y Hy) as [[-> E]|(Hji & z & Hz & E)]; injection E as E1 E2 E3.
      * rewrite E2 in Eb. cbn in Eb, E1, E3.
        assert (g2 = gn /\ l2 = tn_bits x) as [-> ->]
          by (unfold mkb, gen_ok, low_ok in *; destruct c, c2; cbn [Z.b2z] in *; lia).
        split; [right; exists x; split; [by rewrite <- En|]; unfold slot_right, tree_right; by rewrite E1, E3|].
        intros E. apply Hgne. lia.
      * split; [left; exists j, z, g2, c2, l2|].
        -- split; [done|]. split; [split; [by rewrite <- mv_length|done]|]. split; [done|].
           split; [unfold slot_is; by rewrite <- E2|]. unfold slot_right. by rewrite E1, E3.
        -- intros E. apply Hji. destruct Hs as (_ & Hg & _). unfold gen_ok in *. lia.
    + rewrite F7, Hdt in Hy. apply lookup_delete_Some in Hy as [Hne Hy].
      split; [right; by exists y|]. intros ->. destruct (tree_slot _ _ _ _ _ W _ _ _ _ _ _ _ Hy He Hs) as [_ Hbad].
      { apply index_of_name, Hs. }
      apply Hbad. destruct Hs as (Eb & Hg & Hl). by rewrite Eb, gen_mkb, gen_of_name.
  - intros [[(j & y & g2 & c2 & l2 & -> & [Hj Hjl] & Hy & (Eb & Hg2 & Hl2) & ->)|(y & Hy & ->)] Hne].
    + left. assert (Hji : j <> i).
      { intros ->. assert (y = e) as -> by (by eapply slot_at_fun). destruct Hs as (Eb' & Hg & Hl).
        rewrite Eb' in Eb. apply Hne. f_equal. unfold mkb, gen_ok, low_ok in *. destruct c2; cbn [Z.b2z] in *; lia. }
      destruct (slot_at_some (tab s') j) as [z Hz]; [rewrite mv_length; lia|].
      destruct (mv_slots j z Hz) as [[? _]|(_ & w & Hw & E)]; [done|].
      assert (w = y) as -> by (by eapply slot_at_fun). injection E as E1 E2 E3.
      exists j, z, g2, c2, l2. split; [done|]. split; [split; [by rewrite mv_length|done]|].
      split; [done|]. split; [unfold slot_is; by rewrite E2|]. unfold slot_right. by rewrite E1, E3.
    + destruct (decide (m = n)) as [->|Hmn].
      * left. rewrite Hx in Hy. injection Hy as <-.
        destruct (slot_at_some (tab s') i) as [z Hz]; [rewrite mv_length; lia|].
        destruct (mv_slots i z Hz) as [[_ E]|[? _]]; [|done]. injection E as E1 E2 E3. cbn in E1, E2, E3.
        exists i, z, gn, c, (tn_bits x). split; [done|].
        split; [split; [rewrite mv_length; lia|apply Hu]|]. split; [done|].
        split; [unfold slot_is; by rewrite E2|]. unfold slot_right, tree_right. by rewrite E1, E3.
      * right. exists y. split; [|done]. rewrite F7, Hdt. by apply lookup_delete_Some.
Qed.

Lemma moved_steady : steady s g s' g'.
Proof. split; try done; [by rewrite F6, F6'|apply mv_names]. Qed.

End moved.
Lemma same_entries_put t t' i y y' : same_entries t t' -> strip y = strip y' ->
  same_entries (put t i y) (put t' i y').
Proof. unfold same_entries, put. intros E Ey. by rewrite !list_fmap_insert, E, Ey. Qed.

Lemma put_put t i y y' : put (put t i y) i y' = put t i y'.
Proof. unfold put. apply list_insert_insert_eq. Qed.

(** The space and its hash tables once the entry [x] is in slot [i], with its mark, and the
    count of the tree is down by [d]. *)
Record taken (s : ipc_space) (g : buckets) (i n : Z) (x : tnode) (y : ipc_entry) (gn : Z) (c : bool) (d : Z)
    (s2 : ipc_space) (g' : buckets) : Prop := {
  tk_active : is_active s2 = is_active s;
  tk_growing : is_growing s2 = is_growing s;
  tk_next : is_table_next s2 = is_table_next s;
  tk_small : is_tree_small s2 = is_tree_small s;
  tk_addr : is_addr (is_hash s2) = is_addr (is_hash s);
  tk_fast : is_fast (is_hash s2) = false;
  tk_total : is_tree_total (is_hash s2) = is_tree_total (is_hash s) - d;
  tk_size : is_table_size (is_hash s2) = zlen (tab s);
  tk_slots : same_entries (put (tab s) i (refilled y x gn c)) (tab s2);
  tk_table : table_ok (tab s2);
  tk_buckets : buckets_ok g';
  tk_hash : hash_moved s g i n x s2 g' }.

Section taken.
Context (s : ipc_space) (g : buckets) (i n : Z) (x : tnode) (y : ipc_entry) (gn : Z) (c : bool) (d : Z).
Context (s2 : ipc_space) (g2 : buckets) (T : taken s g i n x y gn c d s2 g2).

Lemma taken_counted : taken s g i n x y gn c (d + 1) (set_tree_total (is_tree_total (is_hash s2) - 1) s2) g2.
Proof. destruct T as [A1 A2 A3 A4 A5 A6 A7 A8 A9 B1 B2 B3]. split; try done. cbn. lia. Qed.

Lemma taken_tree t : taken s g i n x y gn c d (set_is_tree t s2) g2.
Proof. by destruct T. Qed.

Lemma taken_slot : 0 <= i < zlen (tab s) -> ∃ z, slot_at (tab s2) i z /\ strip z = strip (refilled y x gn c).
Proof.
  intros Hi. pose proof (tk_slots _ _ _ _ _ _ _ _ _ _ _ T) as Hsame.
  destruct (slot_at_some (tab s2) i) as [z Hz].
  { by rewrite <- (same_entries_length _ _ Hsame), put_length. }
  destruct (same_entries_at _ _ _ _ (same_entries_sym _ _ Hsame) Hz) as [ix Hz'].
  apply slot_at_put in Hz' as [[_ Ez]|[? _]]; [|done|done]. exists z. split; [done|].
  injection Ez as Z1 Z2 Z3. unfold strip. by rewrite Z1, Z2, Z3.
Qed.

Lemma taken_marked z c' : 0 <= i < zlen (tab s) -> slot_at (tab s2) i z ->
  strip z = strip (refilled y x gn c) ->
  taken s g i n x y gn c' d (with_tab (put (tab s2) i (with_bits (mkb gn c' (tn_bits x)) z)) s2) g2.
Proof.
  intros Hi Hz Ez. destruct T as [A1 A2 A3 A4 A5 A6 A7 A8 A9 B1 B2 B3]. injection Ez as Z1 Z2 Z3.
  split; try done; cbn.
  - rewrite <- (put_put (tab s) i (refilled y x gn c)). apply same_entries_put; [done|].
    unfold refilled, strip. cbn in *. congruence.
  - by eapply table_ok_put.
  - unfold hash_moved. cbn. assert (Hh : ∀ j, hashed (put (tab s2) i (with_bits (mkb gn c' (tn_bits x)) z)) j <-> hashed (tab s2) j)
      by (intros j; by eapply hashed_put).
    setoid_rewrite Hh. exact B3.
Qed.
End taken.

(** [ipc_entry_dealloc] of an entry that collides, after the move. *)
Section settle.
Context (s : ipc_space) (g : buckets) (l : list Z) (next : Z) (W : space_wf sizes s g l next).
Context (i : Z) (e : ipc_entry) (g1 : Z) (low : Z).
Context (He : slot_at (tab s) i e) (Hs : slot_is e g1 true low) (Hu : used (tab s) l i).
Context (Ho : ie_object e = IO_NULL) (n : Z) (x : tnode) (Hsend : sends_hashed s g).
Context (big coll small : name_tree) (Hbig : wf big) (Hcoll : wf coll) (Hsmall : wf small).
Context (Hcut : contents (is_tree s) = (contents small ++ contents coll) ++ contents big).
Context (Ilo : indices (λ j, j < i) small) (Icoll : indices (λ j, j = i) coll).
Context (Ihi : indices (λ j, i + 1 <= j) big) (Hxc : (n, x) ∈ contents coll).

Lemma cut_entry : dir (is_tree s) !! n = Some x.
Proof.
  apply dir_contents; [apply (sw_tree _ _ _ _ _ W)|]. rewrite Hcut, !elem_of_app. auto.
Qed.

(** The tree without the entry. *)
Lemma settled_tree coll' t : wf coll' -> dir coll' = delete n (dir coll) -> wf t ->
  contents t = contents small ++ contents coll' ++ contents big ->
  dir t = delete n (dir (is_tree s)).
Proof.
  intros Hc' Hd Ht Ec. pose proof (tr_wf _ _ (sw_tree _ _ _ _ _ W)) as Hwf. specialize (Icoll n x Hxc) as Hi.
  assert (Hside : ∀ m y, (m, y) ∈ contents coll' <-> m <> n /\ (m, y) ∈ contents coll).
  { intros m y. rewrite <- !dir_contents, Hd by done. rewrite lookup_delete_Some. intuition congruence. }
  apply map_eq. intros m. apply option_eq. intros y.
  rewrite lookup_delete_Some, !dir_contents, Ec, Hcut, !elem_of_app, Hside by done.
  assert (H1 : (m, y) ∈ contents small -> m <> n) by (intros H ->; specialize (Ilo n y H); cbn in *; lia).
  assert (H2 : (m, y) ∈ contents big -> m <> n) by (intros H ->; specialize (Ihi n y H); cbn in *; lia).
  intuition congruence.
Qed.

Lemma settled_index coll' s' c : indices (λ j, j = i) coll' -> wf (is_tree s') ->
  contents (is_tree s') = contents small ++ contents coll' ++ contents big ->
  (c = true <-> contents coll' <> []) -> c = true <-> tree_index s' i.
Proof.
  intros Icoll' Ht Ec ->. split.
  - intros Hne. destruct (contents coll') as [|[m y] cs] eqn:E; [done|].
    assert (Hm : (m, y) ∈ contents coll') by (rewrite E; by left).
    exists m, y. split; [|by apply (Icoll' m y)]. apply dir_contents; [done|].
    rewrite Ec, !elem_of_app. right. left. by left.
  - intros (m & y & Hm & Hmi) E. apply dir_contents in Hm; [|done]. rewrite Ec, E in Hm.
    rewrite app_nil_l in Hm. apply elem_of_app in Hm as [Hm|Hm].
    + specialize (Ilo m y Hm). cbn in *. lia.
    + specialize (Ihi m y Hm). cbn in *. lia.
Qed.

(** A final state: the parts are joined and the slot has its mark. *)
Lemma settled_end gn coll' s' g' c : gen_ok gn -> n = i * 2 ^ 8 + gn -> is_fast (is_hash s) = false ->
  wf coll' -> dir coll' = delete n (dir coll) -> indices (λ j, j = i) coll' ->
  taken s g i n x e gn c 1 s' g' -> wf (is_tree s') ->
  contents (is_tree s') = contents small ++ contents coll' ++ contents big ->
  (c = true <-> contents coll' <> []) ->
  space_wf sizes s' g' l next /\ steady s g s' g' /\ drops_entry s l s' l (i * 2 ^ 8 + g1).
Proof.
  intros Hgn En Hf Hcoll' Hd' Icoll' [A1 A2 A3 A4 A5 A6 A7 A8 A9 B1 B2 B3] Ht Ec Hc.
  pose proof cut_entry as Hx. specialize (Icoll n x Hxc) as Hi.
  pose proof (settled_tree coll' (is_tree s') Hcoll' Hd' Ht Ec) as Hdt.
  pose proof (settled_index coll' s' c Icoll' Ht Ec Hc) as Hti. split; [|split].
  - by eapply (moved_wf s g l next W i e He Hu Ho n x Hx Hi Hsend _ Ht Hdt).
  - by eapply (moved_steady s g l next W i e He Hu Ho n x Hx Hsend s' g' gn c).
  - by eapply (moved_drops s g l next W i e g1 low He Hs Hu n x Hx Hi _ Hdt s' gn c).
Qed.

Lemma settle_runs s2 g2 gn lk (Q : unit -> world O -> Prop) :
  gen_ok gn -> n = i * 2 ^ 8 + gn -> is_fast (is_hash s) = false -> is_tree s2 = big ->
  taken s g i n x e gn false 0 s2 g2 ->
  (∀ s' g', space_wf sizes s' g' l next -> steady s g s' g' ->
     drops_entry s l s' l (i * 2 ^ 8 + g1) -> Q tt (World s' lk g' o)) ->
  runs (settle_collisions i n x coll small) Q (World s2 lk g2 o).
Proof.
  intros Hgn En Hf Etree T HQ. specialize (Icoll n x Hxc) as Hi.
  pose proof (tree_nonempty _ _ _ _ _ W n x cut_entry) as Hpos.
  destruct (delete_spec coll n x Hcoll) as (coll' & Ed & Hcoll' & Hd'); [by apply dir_contents|].
  assert (Icoll' : indices (λ j, j = i) coll').
  { intros m y Hm. apply dir_contents in Hm; [|done]. rewrite Hd' in Hm.
    apply lookup_delete_Some in Hm as [_ Hm]. apply dir_contents in Hm; [|done]. by eapply Icoll. }
  assert (Hend : ∀ s' c, taken s g i n x e gn c 1 s' g2 -> wf (is_tree s') ->
    contents (is_tree s') = contents small ++ contents coll' ++ contents big ->
    (c = true <-> contents coll' <> []) -> Q tt (World s' lk g2 o)).
  { intros s' c T' Ht Ec Hc.
    by destruct (settled_end gn coll' s' g2 c Hgn En Hf Hcoll' Hd' Icoll' T' Ht Ec Hc) as (? & ? & ?); apply HQ. }
  pose proof (taken_counted _ _ _ _ _ _ _ _ _ _ _ T) as T1. rewrite Z.add_0_l in T1.
  unfold settle_collisions. apply runs_bind, (s_deref _ (x, coll')); [done|]. cbv beta iota.
  apply runs_bind, s_of_space, runs_bind, runs_assert.
  { apply Z.ltb_lt. rewrite (tk_total _ _ _ _ _ _ _ _ _ _ _ T). lia. }
  apply runs_bind, s_set_space, runs_bind. set (s3 := set_tree_total _ s2) in *.
  pose proof (pick_spec coll') as Hpick. destruct (ipc_splay_tree_pick coll') as [[m y]|].
  - assert (Hr : 0 <= i < zlen (tab s)) by (destruct Hu; lia).
    destruct (taken_slot _ _ _ _ _ _ _ _ _ _ _ T1 Hr) as (z & Hz & Ez).
    pose proof (tr_nodes _ _ (sw_tree _ _ _ _ _ W) n x cut_entry) as (_ & Hlx & _).
    assert (Ebits : ie_bits z ||| IE_BITS_COLLISION = mkb gn true (tn_bits x)).
    { injection Ez as _ -> _. by apply set_collision. }
    apply runs_bind, (s_set _ i z); [done|]. rewrite Ebits.
    destruct (join_index big coll' (i + 1) Hbig Hcoll') as ([t1 j1] & J1 & Ht1 & Hc1);
      [intros p q Hpq; specialize (Icoll' p q Hpq); cbn in *; lia|done|]. cbn [fst] in *.
    apply (s_on_tree _ tt t1); [cbn; by rewrite Etree, J1|].
    destruct (join_index t1 small i Ht1 Hsmall) as ([t2 j2] & J2 & Ht2 & Hc2); [done| |].
    { intros p q. rewrite Hc1. intros [Hpq|Hpq]%elem_of_app; [specialize (Icoll' p q Hpq)|specialize (Ihi p q Hpq)]; cbn in *; lia. }
    cbn [fst] in *. apply (s_on_tree _ tt t2); [cbn; by rewrite J2|].
    apply (Hend _ true); [by apply taken_tree, taken_tree, taken_marked with (c := false)|done| |].
    + cbn. by rewrite Hc2, Hc1.
    + split; [|done]. intros _ E. rewrite E in Hpick. by apply elem_of_nil in Hpick.
  - apply runs_ret. destruct (join_index big small i Hbig Hsmall) as ([t2 j2] & J2 & Ht2 & Hc2); [done| |].
    { intros p q Hpq. specialize (Ihi p q Hpq). cbn in *. lia. }
    cbn [fst] in *. apply (s_on_tree _ tt t2); [cbn; by rewrite Etree, J2|].
    apply (Hend _ false); [by apply taken_tree|done| |by rewrite Hpick]. cbn. by rewrite Hc2, Hpick.
Qed.
End settle.

(** [ipc_entry_dealloc] of an entry that collides. *)
Lemma refill_runs s lk g l next i e g1 low (Q : unit -> world O -> Prop) :
  space_wf sizes s g l next -> is_fast (is_hash s) = false -> slot_at (tab s) i e -> used (tab s) l i ->
  slot_is e g1 true low -> ie_object e = IO_NULL -> sends_hashed s g ->
  (∀ s' g', space_wf sizes s' g' l next -> steady s g s' g' ->
     drops_entry s l s' l (i * 2 ^ 8 + g1) -> Q tt (World s' lk g' o)) ->
  runs (refill_entry uninit i) Q (World s lk g o).
Proof.
  intros W Hf He Hu Hs Ho Hsend HQ. pose proof (moved_range s g l next W i Hu) as [Hr Hr2].
  pose proof (tr_wf _ _ (sw_tree _ _ _ _ _ W)) as Hwf. pose proof Hs as (Eb & Hg & Hl).
  (* the cuts *)
  destruct (split_index (is_tree s) uninit (i + 1) Hwf) as (big & c0 & E1 & Hbig & Hc0 & Hcs & Hlo & Hhi); [lia|].
  destruct (split_index c0 uninit i Hc0) as (coll & small & E2 & Hcoll & Hsmall & Hcs0 & Hlo0 & Hhi0); [lia|].
  rewrite Hcs0 in Hcs.
  assert (Icoll : indices (λ j, j = i) coll).
  { intros n x Hn. specialize (Hhi0 n x Hn). cbn in *. assert (Hn' : (n, x) ∈ contents c0)
      by (rewrite Hcs0, elem_of_app; by right). specialize (Hlo n x Hn'). cbn in *. lia. }
  unfold refill_entry. apply runs_bind. eapply s_on_tree; [by rewrite E1|].
  apply runs_bind, (s_deref _ (coll, small)); [done|]. cbv beta iota.
  (* the pick *)
  assert (Hne : contents coll <> []).
  { assert (Hti : tree_index s i).
    { apply (tr_collision _ _ (sw_tree _ _ _ _ _ W) i e He). by rewrite Eb, collision_mkb. }
    destruct Hti as (m & y & Hy & Hm). apply dir_contents in Hy; [|done]. rewrite Hcs in Hy.
    apply elem_of_app in Hy as [[Hy|Hy]%elem_of_app|Hy].
    - specialize (Hlo0 m y Hy). cbn in Hlo0. lia.
    - intros E. rewrite E in Hy. by apply elem_of_nil in Hy.
    - specialize (Hhi m y Hy). cbn in Hhi. lia. }
  pose proof (pick_spec coll) as Hpick. destruct (ipc_splay_tree_pick coll) as [[n x]|] eqn:Ep; [|done].
  specialize (Icoll n x Hpick) as Hi. cbn in Hi.
  assert (Hx : dir (is_tree s) !! n = Some x)
    by (apply dir_contents; [done|]; rewrite Hcs, !elem_of_app; auto).
  destruct (name_gen s g l next W i n x Hx Hi) as (gn & Hgn & En & Egn).
  pose proof (tr_nodes _ _ (sw_tree _ _ _ _ _ W) n x Hx) as (Hsp & Hlx & _).
  pose proof (tree_nonempty _ _ _ _ _ W n x Hx) as Hpos.
  pose proof (not_hashed_here s g l next W i e He Ho) as Hnh.
  pose proof (space_table_ok _ _ _ _ _ W) as Hok. pose proof (table_size _ _ _ _ _ W) as Hsz.
  apply runs_bind, (s_deref _ (n, x)); [done|]. cbv beta iota.
  apply runs_bind, runs_assert; [by apply Z.eqb_eq|]. cbv zeta.
  (* the slot *)
  set (s1 := set_is_tree big s). apply runs_bind, (s_set _ i e); [done|]. rewrite Egn, add_gen by done.
  fold (refilled e x gn false). apply runs_bind, s_of_space, runs_bind, runs_assert; [by apply Z.eqb_eq|].
  assert (Hs1 : slot_at (put (tab s) i (refilled e x gn false)) i (refilled e x gn false)) by (apply slot_at_put_eq; lia).
  assert (Hok1 : table_ok (put (tab s) i (refilled e x gn false))) by (eapply table_ok_put; [done|exact He|done|by intros ?%Hnh]).
  assert (Hh1 : ∀ j, hashed (put (tab s) i (refilled e x gn false)) j <-> hashed (tab s) j) by (intros j; by eapply hashed_put).
  pose proof (nm_ok _ _ _ (sw_names _ _ _ _ _ W)) as [N1 N2 N3 N4 N5 N6 N7].
  apply runs_bind. destruct (Z.eqb_spec (IE_BITS_TYPE (tn_bits x)) MACH_PORT_TYPE_SEND) as [Ety|Ety].
  - pose proof (proj1 (Hsend n x Hx) Ety) as Hin.
    destruct (nm_global _ _ _ (sw_names _ _ _ _ _ W) _ Hin) as (x0 & Hx0 & _ & Hxo).
    cbn in Hx0. rewrite Hx in Hx0. injection Hx0 as <-.
    apply (move_hash_runs o _ lk g n x i (refilled e x gn false)); try done.
    + cbn. by rewrite put_length.
    + cbn. lia.
    + lia.
    + cbn. by rewrite Hh1.
    + intros t' g' s' Hok' Hsame' Hh' Hb' Hp'.
      eapply (settle_runs s g l next W i e g1 low He Hs Hu Ho n x Hsend big coll small); try done.
      split; try done; [cbn; lia|]. left. split; [done|]. split; [|done]. intros j. rewrite <- Hh1. apply Hh'.
  - apply runs_ret.
    eapply (settle_runs s g l next W i e g1 low He Hs Hu Ho n x Hsend big coll small); try done.
    split; try done; [cbn; lia|]. by right.
Qed.

End refill.

End IpcEntrySpec.
