(* ===== verification/IpcEntryOps.v ===== *)
(** The operations on the entries of a space against the relation of names and entries: exact
    lookups and deallocations, with the invariant that they keep. *)

From S2P Require Import Prelude.
From S2P Require Import IpcSplay.
From S2P Require Import IpcHash.
From S2P Require Import IpcStore.
From S2P Require Import IpcEntry.
From S2P Require Import IpcEntrySpec.
Import IpcSplay.IpcSplay.
Import IpcHash.IpcHash.
Import IpcEntry.IpcEntry.
Import IpcEntrySpec.IpcEntrySpec.

Module IpcEntryOps.

(** * The reverse hash tables and the rights *)

Definition is_send (r : right) : Prop := IE_BITS_TYPE (IpcStore.ie_bits r) = MACH_PORT_TYPE_SEND.

(** The reverse hash tables give the names of the send rights. *)
Definition sends_ok (s : ipc_space) (g : buckets) (l : list Z) : Prop :=
  ∀ n r, has_entry s l n r -> is_send r <-> ∃ obj, hash_name s g obj n.

Section sends.
Context (sizes : list Z) (s : ipc_space) (g : buckets) (l : list Z) (next : Z).
Context (W : space_wf sizes s g l next) (S : sends_ok s g l).

Lemma global_name n x : dir (is_tree s) !! n = Some x ->
  (∃ obj, hash_name s g obj n) <-> hash_entry n x ∈ tree_entries (is_hash s) g.
Proof.
  intros Hx. pose proof (tr_nodes _ _ (sw_tree _ _ _ _ _ W) n x Hx) as (Hsp & _). split.
  - intros (obj & [j|e] & H).
    + assert (Hj : 0 < j < zlen (tab s))
        by (eapply hashed_range; [by eapply space_table_ok|apply H]).
      destruct (slot_at_some (tab s) j) as [y Hy]; [lia|].
      apply (maps_slot s g obj n j y (space_table_ok _ _ _ _ _ W) Hy) in H as (Hh & _ & En).
      destruct (slot_decode _ _ _ _ _ W j y Hy) as (gj & c & low & Hs). pose proof Hs as (Eb & Hg & Hl).
      pose proof (slot_at_range _ _ _ Hy) as Hr. pose proof (table_range _ _ _ _ _ W).
      rewrite Eb, gen_mkb, make_name in En by (done || lia). subst n.
      destruct (tree_slot _ _ _ _ _ W _ x j y gj c low Hx Hy Hs) as [_ Hne]; [by apply index_of_name|].
      destruct Hne. by rewrite Eb, gen_mkb, gen_of_name.
    + destruct H as (He & Hf & ->). apply is_for_space in Hf as [Hes _].
      assert (Hin : e ∈ tree_entries (is_hash s) g) by (by apply list_elem_of_filter).
      destruct (nm_global _ _ _ (sw_names _ _ _ _ _ W) e Hin) as (z & Hz & Ez & _).
      rewrite Hx in Hz. injection Hz as <-. by rewrite <- Ez.
  - intros [Hes Hin]%list_elem_of_filter. exists (tn_object x), (InTree (hash_entry n x)).
    split; [done|]. split; [|done]. unfold is_for. cbn in *. by rewrite Hes, !Z.eqb_refl.
Qed.

Lemma sends_tree : sends_hashed s g.
Proof.
  intros n x Hx. rewrite <- (global_name n x Hx).
  apply (S n (tree_right x)). right. by exists x.
Qed.

Lemma local_name i e g1 c low : slot_at (tab s) i e -> slot_is e g1 c low -> used (tab s) l i ->
  (∃ obj, hash_name s g obj (i * 2 ^ 8 + g1)) <-> hashed (tab s) i.
Proof.
  intros He Hs Hu. pose proof Hs as (Eb & Hg & Hl). pose proof (table_range _ _ _ _ _ W) as Hr.
  pose proof (space_table_ok _ _ _ _ _ W) as Hok. destruct Hu as [Hi _]. split.
  - intros (obj & [j|y] & H).
    + assert (Hj : 0 < j < zlen (tab s)) by (eapply hashed_range; [done|apply H]).
      destruct (slot_at_some (tab s) j) as [y Hy]; [lia|].
      apply (maps_slot s g obj _ j y Hok Hy) in H as (Hh & _ & En).
      destruct (slot_decode _ _ _ _ _ W j y Hy) as (gj & cj & lj & Ej & Hgj & Hlj).
      pose proof (slot_at_range _ _ _ Hy). rewrite Ej, gen_mkb, make_name in En by (done || lia).
      assert (j = i) as -> by (unfold gen_ok in *; lia). done.
    + destruct H as (Hin & Hf & En). apply is_for_space in Hf as [Hes _].
      destruct (nm_global _ _ _ (sw_names _ _ _ _ _ W) y) as (z & Hz & _); [by apply list_elem_of_filter|].
      rewrite <- En in Hz.
      destruct (tree_slot _ _ _ _ _ W _ z i e g1 c low Hz He Hs) as [_ Hne]; [by apply index_of_name|].
      destruct Hne. by rewrite Eb, gen_mkb, gen_of_name.
  - intros Hh. exists (ie_object e), (InTable i). apply (maps_slot s g _ _ i e Hok He).
    split; [done|]. split; [done|]. by rewrite Eb, gen_mkb, make_name by (done || lia).
Qed.

Lemma sends_slot i e : slot_at (tab s) i e ->
  IE_BITS_TYPE (ie_bits e) = MACH_PORT_TYPE_SEND <-> hashed (tab s) i.
Proof.
  intros He. destruct (slot_decode _ _ _ _ _ W i e He) as (g1 & c & low & Hs).
  pose proof Hs as (Eb & Hg & Hl). pose proof (slot_at_range _ _ _ He) as Hr.
  destruct (decide (i = 0 \/ i ∈ l)) as [Hun|Hus].
  - destruct (tw_unused _ _ (sw_table _ _ _ _ _ W) i e He Hun) as [Ho (g2 & Eb2 & Hg2 & Hl2)].
    rewrite Eb2, type_mkb by done. split; [done|]. intros Hh. by eapply null_not_hashed in Hh.
  - assert (Hu : used (tab s) l i) by (split; [|tauto]; destruct (decide (i = 0)); [tauto|lia]).
    rewrite <- (local_name i e g1 c low He Hs Hu), Eb, type_mkb by done.
    apply (S (i * 2 ^ 8 + g1) (slot_right e low)). left. by exists i, e, g1, c, low.
Qed.
End sends.

(** * New spaces *)

Lemma init_entries_length n i : zlen (init_entries n i) = Z.of_nat n.
Proof. revert i. induction n as [|n IH]; intros i; cbn; [done|]. specialize (IH (i + 1)). lia. Qed.

Lemma init_entries_at n : ∀ i k, 0 <= k < Z.of_nat n ->
  entry_at (init_entries n i) k = Some (Entry 0 IE_BITS_GEN_MASK (i + k + 1) 0).
Proof.
  unfold entry_at. induction n as [|n IH]; intros i k Hk; [lia|]. cbn [init_entries].
  destruct (decide (k = 0)) as [->|]; [by rewrite Z.add_0_r|].
  replace (Z.to_nat k) with (S (Z.to_nat (k - 1))) by lia. cbn [lookup list_lookup].
  rewrite IH by lia. do 2 f_equal. lia.
Qed.

Section create.
Context (sizes : list Z) (uninit : name_tree) (initial : nat) (size next addr : Z) (fast : bool).
Context (Hsize : sizes !! initial = Some size) (Hnext : sizes !! S initial = Some next).
Context (Hrange : 0 < size < 2 ^ 24) (Haddr : addr <> 0).

(** The entries of a new table. *)
Definition new_entry (i : Z) : ipc_entry :=
  Entry 0 IE_BITS_GEN_MASK (if i =? size - 1 then 0 else i + 1) 0.
Definition new_table : table :=
  put (init_entries (Z.to_nat size) 0) (size - 1) (new_entry (size - 1)).

Lemma new_length : zlen new_table = size.
Proof. unfold new_table. rewrite put_length, init_entries_length. lia. Qed.

Lemma new_slot i e : slot_at new_table i e <-> 0 <= i < size /\ e = new_entry i.
Proof.
  unfold new_table. rewrite slot_at_put by (rewrite init_entries_length; lia). unfold new_entry. split.
  - intros [[-> ->]|[Hne He]]; [split; [lia|done]|]. pose proof (slot_at_range _ _ _ He) as Hr.
    rewrite init_entries_length in Hr. destruct He as [_ He].
    rewrite init_entries_at in He by lia. injection He as <-.
    rewrite (proj2 (Z.eqb_neq _ _)) by done. split; [lia|]. f_equal.
  - intros [Hi ->]. destruct (decide (i = size - 1)) as [->|Hne]; [by left|right].
    rewrite (proj2 (Z.eqb_neq i _)) by done. split; [done|]. split; [lia|].
    by rewrite init_entries_at by lia.
Qed.

Lemma new_chain : ∀ n i, 0 <= i -> i + Z.of_nat n = size - 1 ->
  chain new_table (ie_next (new_entry i)) (seqZ (i + 1) (Z.of_nat n)).
Proof.
  induction n as [|n IH]; intros i Hi Hn.
  - cbn. by rewrite (proj2 (Z.eqb_eq _ _)) by lia.
  - rewrite seqZ_cons by lia. cbn [chain new_entry ie_request].
    rewrite (proj2 (Z.eqb_neq i _)) by lia. split; [done|]. split; [lia|].
    exists (new_entry (i + 1)). split; [apply new_slot; split; [lia|done]|].
    replace (Z.pred (Z.of_nat (S n))) with (Z.of_nat n) by lia. apply IH; lia.
Qed.

Definition new_space : ipc_space :=
  ISpace (Space addr new_table size 0 0 fast) true false (S initial) (ipc_splay_tree_init uninit) 0.
Definition new_free : list Z := seqZ 1 (size - 1).

Lemma new_table_wf : table_wf new_table new_free.
Proof.
  assert (Hg : slot_is (new_entry 0) 255 false 0) by (unfold slot_is, gen_ok, low_ok; by vm_compute).
  split.
  - by rewrite new_length.
  - exists (new_entry 0). split; [apply new_slot; split; [lia|done]|]. unfold new_free.
    replace (size - 1) with (Z.of_nat (Z.to_nat (size - 1))) by lia. apply (new_chain _ 0); lia.
  - apply NoDup_seqZ.
  - intros i e [_ ->]%new_slot. by vm_compute.
  - intros i e [_ ->]%new_slot _. split; [done|]. by exists 255.
Qed.

Lemma new_hash i : ~ hashed new_table i.
Proof.
  intros [Hi (h & Hh & Hx)]. unfold ixf in Hx. unfold slot in Hh. rewrite new_length in Hh.
  assert (H : slot_at new_table h (new_entry h)) by (by apply new_slot).
  destruct H as [_ H]. rewrite H in Hx. by cbn in Hx.
Qed.

(** A new space is well formed and empty. *)
Lemma new_space_wf g : buckets_ok g -> tree_entries (is_hash new_space) g = [] ->
  space_wf sizes new_space g new_free next /\ (∀ n r, ~ has_entry new_space new_free n r).
Proof.
  intros Hb Hg. assert (Hd : dir (is_tree new_space) = ∅) by done.
  assert (Hcoll : truth (IE_BITS_GEN_MASK &&& IE_BITS_COLLISION) = false) by done.
  split; [split|].
  - split; [done|]. exists initial. split; [done|]. cbn. by rewrite new_length.
  - apply new_table_wf.
  - split; rewrite ?Hd; try done.
    + apply wf_null.
    + intros i e [_ ->]%new_slot. cbn [new_entry ie_bits]. rewrite Hcoll. split; [done|].
      intros (n & x & Hx & _). by rewrite Hd in Hx.
  - split; rewrite ?Hg; try done.
    + split; try done; rewrite ?Hg; try done; cbn; [|by rewrite new_length].
      apply empty_table_ok; [rewrite new_length; lia|]. intros h Hh. unfold ixf, slot in *.
      rewrite new_length in Hh. assert (H : slot_at new_table h (new_entry h)) by (by apply new_slot).
      destruct H as [_ H]. by rewrite H.
    + intros i Hi. by apply new_hash in Hi.
    + intros e He. by apply elem_of_nil in He.
    + constructor.
    + intros o n [i|e] n' p'; [intros [Hi _]; by apply new_hash in Hi|].
      intros (He & [Hf _]%is_for_space & _). exfalso. apply (not_elem_of_nil e). rewrite <- Hg.
      by apply list_elem_of_filter.
  - intros n r [(i & e & g1 & c & low & _ & [Hi Hn] & _)|(x & Hx & _)]; [|by rewrite Hd in Hx].
    cbn [new_space is_hash is_table] in Hi. rewrite new_length in Hi. apply Hn, elem_of_seqZ. lia.
Qed.

Lemma create_eq : ipc_space_create sizes uninit initial (Some (addr, fast)) true =
  Some (KERN_SUCCESS, Some new_space).
Proof.
  unfold ipc_space_create. cbn [negb]. rewrite Hsize. cbn [mbind option_bind].
  rewrite wrap_small by (unfold in_range; lia). rewrite init_entries_at by lia. cbn [mbind option_bind].
  do 2 f_equal. unfold new_space, new_table, put, new_entry, with_request. cbn.
  by rewrite Z.eqb_refl.
Qed.
End create.

(** * Deallocation *)

Lemma drops_sends s g l s' g' l' n : sends_ok s g l -> steady s g s' g' -> drops_entry s l s' l' n ->
  sends_ok s' g' l'.
Proof.
  intros S [_ _ _ _ _ Hn] Hd m r [Hm _]%Hd. rewrite (S m r Hm). by setoid_rewrite Hn.
Qed.

Lemma kept_steady s g s' : kept s s' -> steady s g s' g.
Proof. intros [A1 A2 A3 A4 A5 A6 A7 A8 A9 A10 A11]. split; try done. intros obj n. unfold hash_name. by setoid_rewrite A11. Qed.

Lemma alike_steady s g s' : alike s s' -> steady s g s' g.
Proof. intros [A1 A2 A3 [B1 B2 B3 B4 B5 B6 B7 B8]]. split; try done. intros obj n. unfold hash_name. by setoid_rewrite B8. Qed.

Section dealloc.
Context {O : Type} (o : O) (sizes : list Z) (uninit : name_tree).

(** [ipc_entry_dealloc] of an entry of the table. *)
Lemma dealloc_slot_runs s lk g l next n r (Q : unit -> world O -> Prop) :
  space_wf sizes s g l next -> sends_ok s g l -> is_active s = true -> in_slot (tab s) l n r ->
  IpcStore.ie_object r = IO_NULL -> IpcStore.ie_request r = 0 ->
  (∀ s' g' l', space_wf sizes s' g' l' next -> steady s g s' g' -> drops_entry s l s' l' n ->
     Q tt (World s' lk g' o)) ->
  runs (ipc_entry_dealloc sizes uninit n (PTable (MACH_PORT_INDEX n))) Q (World s lk g o).
Proof.
  intros W S Ha (i & e & g1 & c & low & -> & Hu & He & Hs & ->) Ho Hr HQ. cbn in Ho, Hr.
  pose proof Hs as (Eb & Hg & Hl). pose proof Hu as [Hi _]. rewrite index_of_name by done.
  unfold ipc_entry_dealloc. apply runs_bind, s_of_space, runs_bind, runs_assert; [done|].
  apply runs_bind. unfold entry_object. apply runs_bind, (s_read i e); [done|]. apply runs_ret.
  cbv beta iota. apply runs_bind, runs_assert; [by apply Z.eqb_eq|].
  apply runs_bind, runs_assert; [by apply Z.eqb_eq|]. cbv beta zeta. rewrite index_of_name by done.
  cbn [id]. rewrite (table_size _ _ _ _ _ W), Z.eqb_refl, (proj2 (Z.ltb_lt i _)) by lia. cbn [negb orb].
  apply runs_bind, (s_read i e); [done|]. rewrite Eb, gen_mkb, gen_of_name, collision_mkb by done.
  apply runs_bind, runs_assert; [apply Z.eqb_refl|].
  assert (Hfree : c = false -> runs (free_entry i) Q (World s lk g o)).
  { intros ->. apply (free_entry_runs o sizes s lk g l next i e g1 low); try done.
    intros s' W' K D. eapply HQ; [done|by apply kept_steady|done]. }
  destruct (is_fast (is_hash s)) eqn:Hf.
  - assert (c = false) as ->; [|by apply runs_bind, runs_assert, Hfree].
    destruct c; [|done]. exfalso. assert (Ht : tree_index s i).
    { apply (tr_collision _ _ (sw_tree _ _ _ _ _ W) i e He). by rewrite Eb, collision_mkb. }
    destruct Ht as (m & x & Hx & _). apply dir_contents in Hx; [|apply (sw_tree _ _ _ _ _ W)].
    rewrite (tr_fast _ _ (sw_tree _ _ _ _ _ W) Hf) in Hx. by apply elem_of_nil in Hx.
  - destruct c; [|by apply Hfree].
    apply (refill_runs o sizes uninit s lk g l next i e g1 low); try done; [by eapply sends_tree|].
    intros s' g' W' St D. by eapply HQ.
Qed.

Lemma entry_dealloc_runs s lk g l next n p r (Q : unit -> world O -> Prop) :
  space_wf sizes s g l next -> sends_ok s g l -> is_active s = true -> pointee s l n p r ->
  IpcStore.ie_object r = IO_NULL -> IpcStore.ie_request r = 0 ->
  (∀ s' g' l', space_wf sizes s' g' l' next -> sends_ok s' g' l' -> steady s g s' g' ->
     drops_entry s l s' l' n -> Q tt (World s' lk g' o)) ->
  runs (ipc_entry_dealloc sizes uninit n p) Q (World s lk g o).
Proof.
  intros W S Ha Hp Ho Hr HQ. destruct p as [i|m]; destruct Hp as [-> Hp].
  - eapply dealloc_slot_runs; try done. intros s' g' l' W' St D. eapply HQ; try done. by eapply drops_sends.
  - destruct Hp as (x & Hx & ->). cbn in Ho, Hr.
    unfold ipc_entry_dealloc. apply runs_bind, s_of_space, runs_bind, runs_assert; [done|].
    apply runs_bind. unfold entry_object. apply runs_bind, (s_deref _ x); [done|]. apply runs_ret.
    cbv beta iota. apply runs_bind, runs_assert; [by apply Z.eqb_eq|].
    apply runs_bind, runs_assert; [by apply Z.eqb_eq|]. cbn [id].
    destruct (is_fast (is_hash s)) eqn:Hf.
    { apply dir_contents in Hx; [|apply (sw_tree _ _ _ _ _ W)].
      rewrite (tr_fast _ _ (sw_tree _ _ _ _ _ W) Hf) in Hx. by apply elem_of_nil in Hx. }
    apply (dealloc_tentry_runs o sizes s lk g l next n x); try done. intros s' W' A D.
    pose proof (alike_steady s g s' A) as St. eapply HQ; try done. by eapply drops_sends.
Qed.
End dealloc.

End IpcEntryOps.
