(* ===== verification/IpcEntryGrow.v ===== *)
(** Growing the entry table of a space: between the old table and the new one the space has the
    names of the table, of the slots that a tree entry has moved into and of the tree
    ([grow_wf]); at the end it is well formed again, with the same names. *)

From stdpp Require Import sorting.
From S2P Require Import Prelude.
From S2P Require Import IpcSplay.
From S2P Require Import IpcHash.
From S2P Require Import IpcTable.
From S2P Require Import IpcStore.
From S2P Require Import IpcEntry.
From S2P Require Import IpcEntrySpec.
From S2P Require Import IpcEntryOps.
Import IpcSplay.IpcSplay.
Import IpcHash.IpcHash.
Import IpcTable.IpcTable.
Import IpcEntry.IpcEntry.
Import IpcEntrySpec.IpcEntrySpec.
Import IpcEntryOps.IpcEntryOps.

Module IpcEntryGrow.

(** * A table that grows *)

(** A slot that holds no entry. *)
Definition fresh_slot (t : table) (i : Z) : Prop :=
  0 < i /\ ∃ e gi, slot_at t i e /\ ie_object e = IO_NULL /\ slot_is e gi false 0.

(** The space while its table grows: [l] is the old free list, [F] the slots of the new part
    that are free, [v] the entries that are outside of the table; the collision marks tell
    of the names [past]. *)
Record grow_wf (s : ipc_space) (g : buckets) (l F : list Z) (v : gmap Z tnode) (past : Z -> Prop) : Prop := {
  gw_table : table_wf (tab s) l;
  gw_fresh i : i ∈ F -> (i ∉ l) /\ fresh_slot (tab s) i;
  gw_total : is_tree_total (is_hash s) = Z.of_nat (base.size v);
  gw_nodes n x : v !! n = Some x -> in_range 32 n /\ tn_space x = is_addr (is_hash s) /\
    low_ok (tn_bits x) /\ 0 < MACH_PORT_INDEX n /\ n <> MACH_PORT_LARGEST;
  gw_marks i e : slot_at (tab s) i e -> truth (ie_bits e &&& IE_BITS_COLLISION) = true <->
    ∃ n x, v !! n = Some x /\ MACH_PORT_INDEX n = i /\ past n;
  gw_gens n x e : v !! n = Some x -> MACH_PORT_INDEX n ∉ F -> slot_at (tab s) (MACH_PORT_INDEX n) e ->
    IE_BITS_GEN (ie_bits e) <> MACH_PORT_GEN n;
  gw_names : names_of s g v;
  gw_local i : hashed (tab s) i -> used (tab s) (l ++ F) i }.

(** The entries of the space in the meantime. *)
Definition has_now (s : ipc_space) (l F : list Z) (v : gmap Z tnode) (n : Z) (r : right) : Prop :=
  in_slot (tab s) (l ++ F) n r \/ ∃ x, v !! n = Some x /\ r = tree_right x.

(** What stays as it is. *)
Record grows (s : ipc_space) (g : buckets) (s' : ipc_space) (g' : buckets) : Prop := {
  gr_active : is_active s' = is_active s;
  gr_growing : is_growing s' = is_growing s;
  gr_addr : is_addr (is_hash s') = is_addr (is_hash s);
  gr_fast : is_fast (is_hash s') = is_fast (is_hash s);
  gr_names obj n : hash_name s' g' obj n <-> hash_name s g obj n }.

Lemma grows_refl s g : grows s g s g.
Proof. done. Qed.
Lemma grows_trans s1 g1 s2 g2 s3 g3 : grows s1 g1 s2 g2 -> grows s2 g2 s3 g3 -> grows s1 g1 s3 g3.
Proof.
  intros [A1 A2 A3 A4 A5] [B1 B2 B3 B4 B5]. split; try congruence. intros. by rewrite B5, A5.
Qed.

Section step.
Context (s : ipc_space) (g : buckets) (l F : list Z) (v : gmap Z tnode) (past : Z -> Prop).
Context (G : grow_wf s g l F v past).
Context (n : Z) (x : tnode) (Hx : v !! n = Some x).
Context (i : Z) (Hi : MACH_PORT_INDEX n = i) (e : ipc_entry) (He : slot_at (tab s) i e).

Lemma gw_name : ∃ gn, gen_ok gn /\ n = i * 2 ^ 8 + gn /\ MACH_PORT_GEN n = gn * 2 ^ 24.
Proof.
  destruct (gw_nodes _ _ _ _ _ _ G n x Hx) as (Hn & _).
  destruct (name_split n Hn) as (j & gn & E & Hj & Hg). exists gn. split; [done|].
  assert (j = i) as -> by (rewrite <- Hi, E; by rewrite index_of_name).
  split; [done|]. rewrite E. by apply gen_of_name.
Qed.

Lemma gw_slot : ∃ g1 c low, slot_is e g1 c low.
Proof.
  pose proof (tw_bits _ _ (gw_table _ _ _ _ _ _ G) i e He) as H.
  apply mkb_split in H as (g1 & c & low & ? & ? & ?). by exists g1, c, low.
Qed.

(** The entry collides: the slot is marked. *)
Lemma mark_step : i ∉ F -> i ∉ l -> let s' := with_tab (put (tab s) i (with_bits (ie_bits e ||| IE_BITS_COLLISION) e)) s in
  grow_wf s' g l F v (λ m, past m \/ m = n) /\ grows s g s' g /\
  (∀ m r, has_now s' l F v m r <-> has_now s l F v m r).
Proof.
  intros HiF Hil. destruct gw_slot as (g1 & c & low & Hs). pose proof Hs as (Eb & Hg & Hl).
  rewrite Eb, set_collision by done. cbn zeta. set (e' := with_bits (mkb g1 true low) e).
  destruct (gw_nodes _ _ _ _ _ _ G n x Hx) as (_ & _ & _ & Hpos & _). rewrite Hi in Hpos.
  pose proof (slot_at_range _ _ _ He) as Hr.
  destruct G as [G1 G2 G3 G4 G5 G6 [[N1 N1a N1b N1c N1d N1e N1f] N2 N3 N4] G8].
  assert (M : mild s i e e') by (split; [done..|]; intros _; cbn; by rewrite Eb, !gen_mkb).
  pose proof (write_kept s i e e' N1 M) as [K1 K2 K3 K4 K5 K6 K7 K8 K9 K10 K11].
  split; [|split].
  - split; cbn; try done.
    + eapply table_wf_used; try done; [lia|]. by apply mkb_range.
    + intros j Hj. destruct (G2 j Hj) as (? & ? & y & gy & Hy & ?). split; [done|]. split; [done|].
      exists y, gy. split; [|done]. apply slot_at_put_ne; [done| |done]. intros ->. done.
    + intros j y [[-> ->]|[Hne Hy]]%slot_at_put; [| |done].
      * cbn. rewrite collision_mkb by done. split; [|done]. intros _. exists n, x. auto.
      * rewrite (G5 j y Hy). split; intros (m & z & Hm & Hmj & Hp); exists m, z; [auto|].
        split; [done|]. split; [done|]. destruct Hp as [?| ->]; [done|]. congruence.
    + intros m z y Hm HmF [[Hmi ->]|[Hne Hy]]%slot_at_put; [| |done].
      * cbn. rewrite gen_mkb by done. rewrite <- (gen_mkb g1 c low), <- Eb by done.
        apply (G6 m z e); [done..|]. by rewrite Hmi.
      * by apply (G6 m z).
    + split; try done.
      * split; try done; cbn; [|by rewrite put_length]. by eapply table_ok_put.
      * intros ? ? ? ? ?. rewrite !K11. apply N4.
    + intros j. rewrite (hashed_put _ _ _ e) by done. unfold used. rewrite put_length. apply G8.
  - split; try done. intros obj m. unfold hash_name. by setoid_rewrite K11.
  - intros m r. unfold has_now. cbn. unfold e'. by rewrite (in_slot_mark _ _ _ _ g1 c).
Qed.
End step.

Lemma in_slot_list t l l' n r : (∀ i, i ∈ l' <-> i ∈ l) -> in_slot t l' n r <-> in_slot t l n r.
Proof.
  intros H. unfold in_slot, used. split; intros (i & e & g1 & c & low & E & [Hi Hl] & ?);
    exists i, e, g1, c, low; (split; [done|]); (split; [split; [done|]; by rewrite H in *|done]).
Qed.

(** The entry moves into its slot. *)
Section take.
Context (s : ipc_space) (g : buckets) (l F : list Z) (v : gmap Z tnode) (past : Z -> Prop).
Context (G : grow_wf s g l F v past).
Context (n : Z) (x : tnode) (Hx : v !! n = Some x) (i : Z) (Hi : MACH_PORT_INDEX n = i).
Context (e : ipc_entry) (He : slot_at (tab s) i e) (HiF : i ∈ F).
Context (gn : Z) (Hgn : gen_ok gn) (En : n = i * 2 ^ 8 + gn).
Context (Hsend : IE_BITS_TYPE (tn_bits x) = MACH_PORT_TYPE_SEND <-> hash_entry n x ∈ tree_entries (is_hash s) g).
Context (s' : ipc_space) (g' : buckets).
Context (F1 : is_active s' = is_active s) (F2 : is_growing s' = is_growing s).
Context (F5 : is_addr (is_hash s') = is_addr (is_hash s)) (F6 : is_fast (is_hash s') = false).
Context (F6' : is_fast (is_hash s) = false).
Context (F8 : is_tree_total (is_hash s') = is_tree_total (is_hash s) - 1).
Context (F9 : is_table_size (is_hash s') = zlen (tab s)).
Context (Hsame : same_entries (put (tab s) i (refilled e x gn false)) (tab s')).
Context (Hok : table_ok (tab s')) (Hb : buckets_ok g') (Hcase : hash_moved s g i n x s' g').

Lemma take_slots j y : slot_at (tab s') j y ->
  (j = i /\ strip y = strip (refilled e x gn false)) \/ (j <> i /\ ∃ z, slot_at (tab s) j z /\ strip y = strip z).
Proof. by eapply moved_slots. Qed.

Lemma take_slots' j z : slot_at (tab s) j z -> j <> i -> ∃ y, slot_at (tab s') j y /\ strip y = strip z.
Proof.
  intros Hz Hj. pose proof (slot_at_range _ _ _ Hz) as Hr.
  destruct (slot_at_some (tab s') j) as [y Hy].
  { rewrite <- (same_entries_length _ _ Hsame). by rewrite put_length. }
  destruct (take_slots j y Hy) as [[? _]|(_ & z' & Hz' & E)]; [done|].
  assert (z' = z) as -> by (by eapply slot_at_fun). by exists y.
Qed.

Lemma take_used j : used (tab s') (l ++ filter (λ j, j <> i) F) j <-> used (tab s) (l ++ F) j \/ j = i.
Proof.
  destruct (gw_fresh _ _ _ _ _ _ G i HiF) as (Hil & Hpos & _). pose proof (slot_at_range _ _ _ He) as Hr.
  unfold used. rewrite !elem_of_app, list_elem_of_filter.
  rewrite <- (same_entries_length _ _ Hsame), put_length.
  destruct (decide (j = i)) as [->|Hj]; [tauto|]. intuition congruence.
Qed.

Lemma take_free_slot : ¬ hashed (tab s) i /\ ie_object e = IO_NULL /\ ∃ gi, slot_is e gi false 0.
Proof.
  destruct (gw_fresh _ _ _ _ _ _ G i HiF) as (Hil & Hpos & y & gi & Hy & Ho & Hs).
  assert (y = e) as -> by (by eapply slot_at_fun). split; [|split; [done|by exists gi]].
  intros Hh. destruct (gw_local _ _ _ _ _ _ G i Hh) as [_ Hn]. apply Hn. rewrite elem_of_app. by right.
Qed.

Lemma take_wf_now : grow_wf s' g' l (filter (λ j, j <> i) F) (delete n v) (λ m, past m \/ m = n).
Proof.
  destruct (gw_nodes _ _ _ _ _ _ G n x Hx) as (_ & Hsp & Hlx & Hpos & _). rewrite Hi in Hpos.
  destruct take_free_slot as (Hnh & Ho & gi & Hs). pose proof Hs as (Eb & Hgi & Hl0).
  destruct (gw_fresh _ _ _ _ _ _ G i HiF) as (Hil & _). pose proof (slot_at_range _ _ _ He) as Hr.
  pose proof (tw_size _ _ (gw_table _ _ _ _ _ _ G)) as Hsz.
  assert (Hlen : zlen (tab s') = zlen (tab s)) by (by rewrite <- (same_entries_length _ _ Hsame), put_length).
  destruct G as [G1 G2 G3 G4 G5 G6 G7 G8].
  assert (Hno : ∀ m y, v !! m = Some y -> MACH_PORT_INDEX m = i -> past m -> False).
  { intros m y Hm Hmi Hp. assert (Hc : truth (ie_bits e &&& IE_BITS_COLLISION) = true)
      by (apply (G5 i e He); by exists m, y). by rewrite Eb, collision_mkb in Hc. }
  split.
  - eapply table_wf_same; [exact Hsame|]. eapply table_wf_used; try done; [lia|]. by apply mkb_range.
  - intros j [Hji Hj]%list_elem_of_filter. destruct (G2 j Hj) as (Hjl & Hjp & z & gz & Hz & Hzo & Hzs).
    split; [done|]. split; [done|]. destruct (take_slots' j z Hz Hji) as (y & Hy & E). injection E as E1 E2 E3.
    exists y, gz. unfold slot_is. by rewrite E1, E2.
  - rewrite F8, G3, map_size_delete_Some by (by exists x).
    assert (base.size v <> 0%nat) by (intros E0%map_size_empty_inv; by rewrite E0, lookup_empty in Hx). lia.
  - intros m y [_ Hm]%lookup_delete_Some. rewrite F5. by apply G4.
  - intros j y Hy. destruct (take_slots j y Hy) as [[-> E]|(Hji & z & Hz & E)]; injection E as _ E2 _; rewrite E2.
    + cbn. rewrite collision_mkb by done. split; [done|]. intros (m & z & [Hmn Hm]%lookup_delete_Some & Hmi & Hp).
      exfalso. destruct Hp as [Hp| ->]; [by eapply Hno|done].
    + rewrite (G5 j z Hz). split; intros (m & w & Hm & Hmj & Hp).
      * exists m, w. split; [apply lookup_delete_Some; split; [congruence|done]|auto].
      * apply lookup_delete_Some in Hm as [Hmn Hm]. exists m, w. destruct Hp as [?| ->]; done.
  - intros m y z [Hmn Hm]%lookup_delete_Some HmF Hz. rewrite list_elem_of_filter in HmF.
    destruct (take_slots _ z Hz) as [[Hmi E]|(Hmi & w & Hw & E)]; injection E as _ E2 _; rewrite E2.
    + cbn. rewrite gen_mkb by done. intros E. apply Hmn.
      destruct (gw_name s g l F v past (Build_grow_wf _ _ _ _ _ _ G1 G2 G3 G4 G5 G6 G7 G8) m y Hm i Hmi)
        as (gm & Hgm & -> & E'). rewrite E' in E. rewrite En. lia.
    + eapply G6; [done| |done]. intros HF. by apply HmF.
  - eapply (moved_names_of s g s' g' i e n x gn false (space_table _ _ (no_ok _ _ _ G7)) He Hpos); try done. lia.
  - intros j Hj. apply take_used. destruct Hcase as [(_ & Hh & _)|(_ & Hh & _)]; apply Hh in Hj; [|by left; apply G8].
    destruct Hj as [Hj| ->]; [left; by apply G8|by right].
Qed.

Lemma take_grows : grows s g s' g'.
Proof.
  destruct (gw_nodes _ _ _ _ _ _ G n x Hx) as (_ & Hsp & Hlx & Hpos & _). rewrite Hi in Hpos.
  destruct take_free_slot as (Hnh & Ho & gi & Hs).
  pose proof (tw_size _ _ (gw_table _ _ _ _ _ _ G)) as Hsz.
  split; try done; [by rewrite F6, F6'|]. intros obj m.
  eapply (moved_names s g s' g' i e n x gn false (space_table _ _ (no_ok _ _ _ (gw_names _ _ _ _ _ _ G))) He Hpos); try done. lia.
Qed.

Lemma take_has m r : has_now s' l (filter (λ j, j <> i) F) (delete n v) m r <-> has_now s l F v m r.
Proof.
  destruct (gw_nodes _ _ _ _ _ _ G n x Hx) as (_ & Hsp & Hlx & Hpos & _). unfold has_now. split.
  - intros [(j & y & g2 & c2 & l2 & -> & Hu & Hy & (Eb & Hg2 & Hl2) & ->)|(y & [_ Hy]%lookup_delete_Some & ->)];
      [|right; by exists y].
    destruct (take_slots j y Hy) as [[-> E]|(Hji & z & Hz & E)]; injection E as E1 E2 E3.
    + right. exists x. rewrite E2 in Eb. cbn in Eb.
      assert (g2 = gn /\ l2 = tn_bits x) as [-> ->]
        by (unfold mkb, gen_ok, low_ok in *; destruct c2; cbn [Z.b2z] in *; lia).
      rewrite <- En. split; [done|]. unfold slot_right, tree_right. by rewrite E1, E3.
    + left. exists j, z, g2, c2, l2. apply take_used in Hu as [Hu|?]; [|done]. rewrite E2 in Eb.
      split; [done|]. split; [done|]. split; [done|]. split; [done|]. unfold slot_right. by rewrite E1, E3.
  - intros [(j & y & g2 & c2 & l2 & -> & Hu & Hy & (Eb & Hg2 & Hl2) & ->)|(y & Hy & ->)].
    + left. assert (Hji : j <> i) by (intros ->; destruct Hu as [_ Hn]; apply Hn; rewrite elem_of_app; by right).
      destruct (take_slots' j y Hy Hji) as (z & Hz & E). injection E as E1 E2 E3.
      exists j, z, g2, c2, l2. split; [done|]. split; [apply take_used; by left|]. split; [done|].
      split; [unfold slot_is; by rewrite E2|]. unfold slot_right. by rewrite E1, E3.
    + destruct (decide (m = n)) as [->|Hmn]; [left|right; exists y; split; [by apply lookup_delete_Some|done]].
      rewrite Hx in Hy. injection Hy as <-. destruct (slot_at_some (tab s') i) as [z Hz].
      { rewrite <- (same_entries_length _ _ Hsame), put_length. by apply (slot_at_range _ _ _ He). }
      destruct (take_slots i z Hz) as [[_ E]|[? _]]; [|done]. injection E as E1 E2 E3. cbn in E1, E2, E3.
      exists i, z, gn, false, (tn_bits x). split; [done|]. split; [apply take_used; by right|]. split; [done|].
      split; [by unfold slot_is; rewrite E2|]. unfold slot_right, tree_right. by rewrite E1, E3.
Qed.
End take.

(** * The new table *)

Section widen.
Context (t : table) (size : Z) (Hsize : zlen t <= size).

Lemma widened_length : zlen (widened size t) = size.
Proof. unfold widened. rewrite length_app, length_fmap, length_replicate. lia. Qed.

Lemma widened_at i e : slot_at (widened size t) i e <->
  (∃ y, slot_at t i y /\ e = strip y) \/ (zlen t <= i < size /\ e = null_entry).
Proof.
  unfold slot_at, entry_at, widened. rewrite lookup_app. rewrite list_lookup_fmap.
  destruct (t !! Z.to_nat i) as [y|] eqn:Ey; cbn.
  - apply lookup_lt_Some in Ey as Hlt. split.
    + intros [Hi [= <-]]. left. by exists y.
    + intros [(z & [Hi [= <-]] & ->)|[Hi _]]; [done|lia].
  - apply lookup_ge_None in Ey as Hge. rewrite length_fmap. split.
    + intros [Hi He]. apply lookup_replicate in He as [-> Hlt]. right. split; [lia|done].
    + intros [(z & [_ Hz] & _)|[Hi ->]]; [done|]. split; [lia|]. apply lookup_replicate. split; [done|lia].
Qed.

Lemma widened_hash h : ixf (widened size t) h = 0.
Proof.
  unfold ixf. destruct (entry_at (widened size t) h) as [e|] eqn:E; [|done]. cbn.
  assert (H : slot_at (widened size t) (Z.max 0 h) e).
  { split; [lia|]. unfold entry_at in *. by replace (Z.to_nat (Z.max 0 h)) with (Z.to_nat h) by lia. }
  by apply widened_at in H as [(y & _ & ->)|[_ ->]].
Qed.

Lemma widened_ok : 0 < size < 2 ^ 32 -> table_ok (widened size t).
Proof. intros H. apply empty_table_ok; [by rewrite widened_length|]. intros h _. apply widened_hash. Qed.

Lemma widened_not_hashed j : ¬ hashed (widened size t) j.
Proof. intros [Hj (h & _ & Hx)]. by rewrite widened_hash in Hx. Qed.

Lemma widened_chain : ∀ l i, chain t i l -> chain (widened size t) i l.
Proof.
  induction l as [|j l IH]; [done|]. intros i (-> & Hj & e & He & Hc). split; [done|]. split; [done|].
  exists (strip e). split; [|by apply IH]. apply widened_at. left. by exists e.
Qed.

Lemma widened_wf l : size < 2 ^ 24 -> table_wf t l -> table_wf (widened size t) l.
Proof.
  intros Hlt [W1 (h & Hh & Hc) W3 W4 W5]. split.
  - rewrite widened_length. lia.
  - exists (strip h). split; [apply widened_at; left; by exists h|]. by apply widened_chain.
  - done.
  - intros i e [(y & Hy & ->)|[_ ->]]%widened_at; [by apply (W4 i y)|done].
  - intros i e [(y & Hy & ->)|[Hi ->]]%widened_at Hun; [by apply (W5 i y)|].
    exfalso. destruct Hun as [->|Hun]; [lia|].
    pose proof (free_range t l (Build_table_wf _ _ W1 (ex_intro _ h (conj Hh Hc)) W3 W4 W5) i Hun). lia.
Qed.
End widen.

Section rehash.
Context {O : Type} (o : O).

Definition sends_at (t : table) (j : Z) : Prop :=
  ∃ e, slot_at t j e /\ IE_BITS_TYPE (ie_bits e) = MACH_PORT_TYPE_SEND.

Lemma sends_at_same t t' j : same_entries t t' -> sends_at t j <-> sends_at t' j.
Proof.
  intros H. split; intros (e & He & Hs);
    [destruct (same_entries_at _ _ _ _ H He) as [ix Hx]
    |destruct (same_entries_at _ _ _ _ (same_entries_sym _ _ H) He) as [ix Hx]]; by eexists.
Qed.

Lemma rehash_runs lk g (Q : unit -> world O -> Prop) : ∀ n i s,
  table_ok (tab s) -> is_table_size (is_hash s) = zlen (tab s) -> 0 <= i -> i + Z.of_nat n <= zlen (tab s) ->
  (∀ j e, slot_at (tab s) j e -> IE_BITS_TYPE (ie_bits e) = MACH_PORT_TYPE_SEND -> ie_object e <> IO_NULL /\ 0 < j) ->
  (∀ j, hashed (tab s) j -> j < i) ->
  (∀ t', table_ok t' -> same_entries (tab s) t' ->
     (∀ j, hashed t' j <-> hashed (tab s) j \/ (i <= j < i + Z.of_nat n /\ sends_at (tab s) j)) ->
     Q tt (World (with_tab t' s) lk g o)) ->
  runs (rehash n i) Q (World s lk g o).
Proof.
  induction n as [|n IH]; intros i s Hok Hsz Hi Hle Hsend Hlow HQ.
  - cbn [rehash]. apply runs_ret. replace s with (with_tab (tab s) s) by (by destruct s as [[] ? ? ? ? ?]).
    apply HQ; [done..|]. intros j. split; [by left|]. intros [?|[? _]]; [done|lia].
  - cbn [rehash]. destruct (slot_at_some (tab s) i) as [e He]; [lia|].
    apply runs_bind, (s_read i e); [done|]. apply runs_bind.
    destruct (Z.eqb_spec (IE_BITS_TYPE (ie_bits e)) MACH_PORT_TYPE_SEND) as [Ety|Ety].
    + destruct (Hsend i e He Ety) as [Ho Hpos].
      destruct (local_insert_spec (tab s) (ie_object e) i Hok Ho) as (t' & Et & Hok' & Hsame & Hh);
        [lia|by rewrite (obj_of_at _ i e)|intros Hh%Hlow; lia|].
      eapply s_on_hash; [by rewrite Hsz, Et|].
      pose proof (same_entries_length _ _ Hsame) as Hlen.
      change (runs (rehash n (i + 1)) Q (World (with_tab t' s) lk g o)). apply IH; cbn; rewrite <- ?Hlen; try done.
      * lia.
      * lia.
      * intros j y Hy Hty. destruct (same_entries_at _ _ _ _ (same_entries_sym _ _ Hsame) Hy) as [ix Hx].
        exact (Hsend _ _ Hx Hty).
      * intros j [Hj%Hlow| ->]%Hh; lia.
      * intros t2 Hok2 Hsame2 Hh2. apply (HQ t2); [done|by eapply same_entries_trans|].
        intros j. rewrite Hh2, Hh. rewrite <- (sends_at_same _ _ j Hsame). split.
        -- intros [[?| ->]|[? ?]]; [by left|right|right; split; [lia|done]]. split; [lia|by exists e].
        -- intros [?|[Hj ?]]; [auto|]. destruct (decide (j = i)); [auto|]. right. split; [lia|done].
    + apply runs_ret, IH; try done; [lia|lia|intros j Hj%Hlow; lia|]. intros t2 Hok2 Hsame2 Hh2.
      apply HQ; [done..|]. intros j. rewrite Hh2. split; (intros [?|[Hj Hs]]; [by left|right]); [split; [lia|done]|].
      split; [|done]. destruct (decide (j = i)) as [->|]; [|lia]. destruct Hs as (y & Hy & Hs).
      assert (y = e) as -> by (by eapply slot_at_fun). done.
Qed.
End rehash.

(** ** The start: the new part is free and every tree entry is outside of the table *)

Section start.
Context (sizes : list Z) (s : ipc_space) (g : buckets) (l : list Z) (next : Z).
Context (W : space_wf sizes s g l next) (S : sends_ok s g l).
Context (size : Z) (Hsize : zlen (tab s) < size < 2 ^ 24) (t : table).
Context (Hok : table_ok t) (Hsame : same_entries (widened size (tab s)) t).
Context (Hh : ∀ j, hashed t j <-> 0 <= j < zlen (tab s) /\ sends_at (widened size (tab s)) j).
Context (s1 : ipc_space) (nits : nat).
Context (E1 : s1 = with_tab t (set_is_table_next nits (set_table (widened size (tab s)) size s))).

Lemma start_length : zlen t = size.
Proof. rewrite <- (same_entries_length _ _ Hsame). apply widened_length. lia. Qed.

Lemma start_slots j y : slot_at t j y ->
  (∃ z, slot_at (tab s) j z /\ strip y = strip z) \/ (zlen (tab s) <= j < size /\ strip y = null_entry).
Proof.
  intros Hy. destruct (same_entries_at _ _ _ _ (same_entries_sym _ _ Hsame) Hy) as [ix Hx].
  apply widened_at in Hx as [(z & Hz & E)|[Hj E]]; [left|right].
  - exists z. split; [done|]. injection E as E2 E3 E4 _. unfold strip. congruence.
  - split; [done|]. injection E as E2 E3 E4 _. unfold strip, null_entry. congruence.
Qed.

Lemma start_slots' j z : slot_at (tab s) j z -> ∃ y, slot_at t j y /\ strip y = strip z.
Proof.
  intros Hz. assert (Hw : slot_at (widened size (tab s)) j (strip z)).
  { apply widened_at. left. by exists z. }
  destruct (same_entries_at _ _ _ _ Hsame Hw) as [ix Hx]. by eexists.
Qed.

Lemma start_hashed j : hashed t j <-> hashed (tab s) j.
Proof.
  rewrite Hh. split.
  - intros [Hj (e & He & Hty)]. apply widened_at in He as [(y & Hy & ->)|[? _]]; [|lia].
    by apply (sends_slot sizes s g l next W S j y Hy).
  - intros Hj. pose proof (hashed_range _ _ (space_table_ok _ _ _ _ _ W) Hj) as Hr.
    split; [lia|]. destruct (slot_at_some (tab s) j) as [y Hy]; [lia|]. exists (strip y).
    split; [apply widened_at; left; by exists y|]. by apply (sends_slot sizes s g l next W S j y Hy).
Qed.

Lemma start_names obj n : hash_name s1 g obj n <-> hash_name s g obj n.
Proof.
  pose proof (space_table_ok _ _ _ _ _ W) as Hok0.
  assert (H : ∀ p, maps_to (is_hash s1) g obj n p <-> maps_to (is_hash s) g obj n p);
    [|unfold hash_name; by setoid_rewrite H].
  intros [j|y]; [|by rewrite E1]. assert (Ht : tab s1 = t) by by rewrite E1.
  split; intros H; pose proof H as [Hj _]; cbn in Hj.
  - rewrite Ht in Hj. assert (Hj' : hashed (tab s) j) by by apply start_hashed.
    pose proof (hashed_range _ _ Hok0 Hj') as Hr. destruct (slot_at_some (tab s) j) as [z Hz]; [lia|].
    destruct (start_slots' j z Hz) as (y & Hy & E). apply (maps_slot s1 g obj n j y) in H; [|by rewrite Ht..].
    apply (maps_slot s g obj n j z Hok0 Hz). destruct H as (_ & H1 & H2). injection E as E2 E3 E4.
    by rewrite <- E2, <- E3.
  - pose proof (hashed_range _ _ Hok0 Hj) as Hr. destruct (slot_at_some (tab s) j) as [z Hz]; [lia|].
    destruct (start_slots' j z Hz) as (y & Hy & E). apply (maps_slot s g obj n j z Hok0 Hz) in H.
    apply (maps_slot s1 g obj n j y); [by rewrite Ht..|]. destruct H as (_ & H1 & H2). injection E as E2 E3 E4.
    rewrite Ht, E2, E3. split; [by apply start_hashed|done].
Qed.

Definition new_part : list Z := seqZ (zlen (tab s)) (size - zlen (tab s)).

Lemma start_used j : used t (l ++ new_part) j <-> used (tab s) l j.
Proof.
  unfold used, new_part. rewrite start_length, elem_of_app, elem_of_seqZ.
  assert (Hl : j ∈ l -> 0 < j < zlen (tab s)) by apply (free_range _ _ (sw_table _ _ _ _ _ W)).
  split; intros [Hj Hn].
  - split; [|tauto]. destruct (Z.lt_ge_cases j (zlen (tab s))) as [|Hge]; [lia|]. destruct Hn. right. lia.
  - split; [lia|]. intros [?|?]; [done|lia].
Qed.

Lemma start_wf : grow_wf s1 g l new_part (dir (is_tree s)) (λ n, MACH_PORT_INDEX n < zlen (tab s)).
Proof.
  assert (Ht : tab s1 = t) by by rewrite E1.
  pose proof W as [_ W2 [T1 T2 T3 T4 T5 T6 T7] W4]. apply names_wf_of in W4 as [[N1 N2 N3 N4] N5].
  pose proof N1 as [P1 P2 P3 P4 P5 P6 P7].
  split; rewrite ?Ht.
  - eapply table_wf_same; [exact Hsame|]. apply widened_wf; [lia..|done].
  - intros j Hj. apply elem_of_seqZ in Hj. pose proof (tw_size _ _ W2) as Hpos. split.
    { intros Hl. pose proof (free_range _ _ W2 j Hl). lia. }
    destruct (slot_at_some t j) as [y Hy]; [rewrite start_length; lia|]. split; [lia|].
    exists y, 0. destruct (start_slots j y Hy) as [(z & Hz & _)|[_ E]]; [pose proof (slot_at_range _ _ _ Hz); lia|].
    injection E as E2 E3 E4. split; [done|]. split; [done|]. split; [done|]. unfold gen_ok, low_ok. lia.
  - rewrite E1. cbn. by rewrite T2, dir_size.
  - intros n x Hx. split; [by eapply dir_name|]. rewrite E1. cbn. by apply T3.
  - intros j y Hy. destruct (start_slots j y Hy) as [(z & Hz & E)|[Hj E]]; injection E as _ E3 _; rewrite E3.
    + rewrite (T4 j z Hz). pose proof (slot_at_range _ _ _ Hz). split.
      * intros (n & x & Hx & Hn). exists n, x. split; [done|]. split; [done|]. lia.
      * intros (n & x & Hx & Hn & _). by exists n, x.
    + split; [done|]. intros (n & x & Hx & Hn & Hp). lia.
  - intros n x y Hx HF Hy. destruct (start_slots _ y Hy) as [(z & Hz & E)|[Hj E]]; [|].
    + injection E as _ E3 _. rewrite E3. by eapply T5.
    + destruct HF. apply elem_of_seqZ. lia.
  - split.
    + rewrite E1 in *. split; cbn; try done. by rewrite start_length.
    + rewrite E1. apply N2.
    + by rewrite E1.
    + intros o n p n' p' H1 H2.
      assert (H3 : hash_name s g o n) by (apply start_names; by exists p).
      assert (H4 : hash_name s g o n') by (apply start_names; by exists p').
      destruct H3 as [q H3], H4 as [q' H4]. by eapply N4.
  - intros j Hj%start_hashed. apply start_used. by apply N5.
Qed.

Lemma start_grows : grows s g s1 g.
Proof. split; [by rewrite E1..|apply start_names]. Qed.

Lemma start_has n r : has_now s1 l new_part (dir (is_tree s)) n r <-> has_entry s l n r.
Proof.
  assert (Ht : tab s1 = t) by by rewrite E1. unfold has_now, has_entry, in_tree. rewrite Ht.
  assert (H : in_slot t (l ++ new_part) n r <-> in_slot (tab s) l n r); [|by rewrite H].
  split; intros (j & y & g1 & c & low & -> & Hu & Hy & (Eb & Hg & Hl) & ->).
  - apply start_used in Hu. destruct (start_slots j y Hy) as [(z & Hz & E)|[Hj _]]; [|destruct Hu; lia].
    injection E as E2 E3 E4. exists j, z, g1, c, low. split; [done|]. split; [done|]. split; [done|].
    split; [unfold slot_is; by rewrite <- E3|]. unfold slot_right. by rewrite E2, E4.
  - destruct (start_slots' j y Hy) as (z & Hz & E). injection E as E2 E3 E4.
    exists j, z, g1, c, low. split; [done|]. split; [by apply start_used|]. split; [done|].
    split; [unfold slot_is; by rewrite E3|]. unfold slot_right. by rewrite E2, E4.
Qed.

(** The new slots are still zero. *)
Lemma start_zero j y : slot_at t j y -> j ∈ new_part -> ie_bits y = 0.
Proof.
  intros Hy Hj. apply elem_of_seqZ in Hj.
  destruct (start_slots j y Hy) as [(z & Hz & _)|[_ E]]; [pose proof (slot_at_range _ _ _ Hz); lia|].
  by injection E.
Qed.
End start.

(** * Moving entries of the tree into the table *)

Definition sends_now (s : ipc_space) (g : buckets) (l F : list Z) (v : gmap Z tnode) : Prop :=
  ∀ n r, has_now s l F v n r -> is_send r <-> ∃ obj, hash_name s g obj n.

Lemma sends_now_step s g l F v s' g' F' v' : sends_now s g l F v -> grows s g s' g' ->
  (∀ n r, has_now s' l F' v' n r <-> has_now s l F v n r) -> sends_now s' g' l F' v'.
Proof. intros S [_ _ _ _ Hn] Hh n r Hr%Hh. rewrite (S n r Hr). by setoid_rewrite Hn. Qed.

Lemma sends_outside s g l F v past n x : grow_wf s g l F v past -> sends_now s g l F v -> v !! n = Some x ->
  IE_BITS_TYPE (tn_bits x) = MACH_PORT_TYPE_SEND <-> hash_entry n x ∈ tree_entries (is_hash s) g.
Proof.
  intros G S Hx. destruct (gw_nodes _ _ _ _ _ _ G n x Hx) as (Hn & Hsp & _).
  pose proof (gw_names _ _ _ _ _ _ G) as [[N1 _ _ _ _ _ _] N2 _ _].
  assert (H : is_send (tree_right x) <-> ∃ obj, hash_name s g obj n) by (apply S; right; by exists x).
  unfold is_send in H. cbn in H. rewrite H. split.
  - intros (obj & [j|e] & Hm).
    + assert (Hj : hashed (tab s) j) by apply Hm. pose proof (hashed_range _ _ N1 Hj) as Hr.
      destruct (slot_at_some (tab s) j) as [y Hy]; [lia|].
      apply (maps_slot s g obj n j y N1 Hy) in Hm as (_ & _ & En).
      destruct (gw_slot s g l F v past G j y Hy) as (gj & c & low & Hs). pose proof Hs as (Eb & Hg & Hl).
      pose proof (tw_size _ _ (gw_table _ _ _ _ _ _ G)). rewrite Eb, gen_mkb, make_name in En by (done || lia).
      assert (Hix : MACH_PORT_INDEX n = j) by (rewrite En; by apply index_of_name).
      destruct (gw_local _ _ _ _ _ _ G j Hj) as [_ HjF].
      destruct (gw_gens _ _ _ _ _ _ G n x y Hx); rewrite ?Hix; [|done|].
      * intros HF. apply HjF, elem_of_app. by right.
      * by rewrite Eb, gen_mkb, En, gen_of_name.
    + destruct Hm as (He & [Hes _]%is_for_space & ->).
      assert (Hin : e ∈ tree_entries (is_hash s) g) by (by apply list_elem_of_filter).
      destruct (N2 e Hin) as (z & Hz & Ez & _). rewrite Hx in Hz. injection Hz as <-. by rewrite <- Ez.
  - intros [Hes Hin]%list_elem_of_filter. exists (tn_object x), (InTree (hash_entry n x)).
    split; [done|]. split; [|done]. unfold is_for. cbn in *. by rewrite Hes, !Z.eqb_refl.
Qed.

(** The loop has kept the entries [kept] of the part of the tree and has [p] to go; [R] are the
    entries of the other parts. *)
Record moving (osize : Z) (R kept p : list (Z * tnode)) (s : ipc_space) (g : buckets) (l F : list Z)
    (v : gmap Z tnode) (past : Z -> Prop) : Prop := {
  mo_wf : grow_wf s g l F v past;
  mo_fast : is_fast (is_hash s) = false;
  mo_size : is_table_size (is_hash s) = zlen (tab s);
  mo_sends : sends_now s g l F v;
  mo_dir n x : v !! n = Some x <-> (n, x) ∈ R ++ kept ++ p;
  mo_others n x : (n, x) ∈ R -> ~ (osize <= MACH_PORT_INDEX n < zlen (tab s));
  mo_part n x : (n, x) ∈ kept ++ p -> osize <= MACH_PORT_INDEX n < zlen (tab s);
  mo_typed n x : (n, x) ∈ p -> IE_BITS_TYPE (tn_bits x) <> 0;
  mo_past n x : (n, x) ∈ kept -> past n;
  mo_new j : osize <= j -> (j ∉ l);
  mo_free j : j ∈ F -> osize <= j;
  mo_slots j y : osize <= j -> slot_at (tab s) j y ->
    (j ∈ F /\ ie_bits y = 0) \/ ((j ∉ F) /\ IE_BITS_TYPE (ie_bits y) <> 0);
  mo_below n : MACH_PORT_INDEX n < osize -> past n }.

(** What the moves leave alone. *)
Record framed (s s' : ipc_space) : Prop := {
  fr_tree : is_tree s' = is_tree s;
  fr_small : is_tree_small s' = is_tree_small s;
  fr_next : is_table_next s' = is_table_next s;
  fr_size : zlen (tab s') = zlen (tab s) }.

Lemma framed_trans s1 s2 s3 : framed s1 s2 -> framed s2 s3 -> framed s1 s3.
Proof. intros [] []. split; congruence. Qed.

Section moves.
Context (osize : Z) (R : list (Z * tnode)) (l : list Z).

Lemma moving_in kept n x p s g F v past : moving osize R kept ((n, x) :: p) s g l F v past ->
  v !! n = Some x /\ osize <= MACH_PORT_INDEX n < zlen (tab s) /\ IE_BITS_TYPE (tn_bits x) <> 0.
Proof.
  intros M. split; [|split].
  - apply (mo_dir _ _ _ _ _ _ _ _ _ _ M). rewrite !elem_of_app. right. right. by left.
  - apply (mo_part _ _ _ _ _ _ _ _ _ _ M n x). rewrite elem_of_app. right. by left.
  - apply (mo_typed _ _ _ _ _ _ _ _ _ _ M n x). by left.
Qed.

Lemma moving_mark kept n x p s g F v past y : moving osize R kept ((n, x) :: p) s g l F v past ->
  slot_at (tab s) (MACH_PORT_INDEX n) y -> IE_BITS_TYPE (ie_bits y) <> 0 ->
  let s' := with_tab (put (tab s) (MACH_PORT_INDEX n) (with_bits (ie_bits y ||| IE_BITS_COLLISION) y)) s in
  IE_BITS_GEN (ie_bits y) <> MACH_PORT_GEN n /\
  moving osize R (kept ++ [(n, x)]) p s' g l F v (λ m, past m \/ m = n) /\
  grows s g s' g /\ framed s s' /\ (∀ m r, has_now s' l F v m r <-> has_now s l F v m r).
Proof.
  intros M Hy Hty. destruct (moving_in _ _ _ _ _ _ _ _ _ M) as (Hx & Hr & _).
  destruct M as [M1 M2 M3 M4 M5 M6 M7 M8 M9 M10 M11 M12 M13].
  destruct (M12 _ y (proj1 Hr) Hy) as [[_ E]|[HF _]]; [by rewrite E in Hty|].
  destruct (mark_step s g l F v past M1 n x Hx _ eq_refl y Hy HF (M10 _ (proj1 Hr))) as (G & Gr & Hh).
  cbn zeta. split; [by eapply (gw_gens _ _ _ _ _ _ M1 n x)|]. split; [|split; [done|split; [|done]]].
  2: { split; try done. cbn. by rewrite put_length. }
  split; try done.
  - cbn. by rewrite put_length.
  - by eapply sends_now_step.
  - intros m z. rewrite M5. by rewrite <- !app_assoc.
  - cbn. rewrite put_length. done.
  - cbn. rewrite put_length. intros m z. rewrite <- app_assoc. apply M7.
  - intros m z Hm. apply (M8 m z). by right.
  - intros m z [Hm|Hm]%elem_of_app; [left; by eapply M9|right].
    apply list_elem_of_singleton in Hm. by injection Hm.
  - intros j z Hj. cbn. intros [[-> ->]|[Hne Hz]]%slot_at_put; [| |by eapply slot_at_range].
    + right. split; [done|]. cbn. destruct (gw_slot s g l F v past M1 _ y Hy) as (g1 & c & low & Eb & Hg & Hl).
      rewrite Eb in Hty |- *. rewrite set_collision by done. by rewrite type_mkb in *.
    + by apply M12.
  - intros m Hm. left. by apply M13.
Qed.

(** The move of an entry: its slot, the hash tables and the number of tree entries. *)
Section move_entry.
Context {O : Type} (o : O) (kept : list (Z * tnode)) (n : Z) (x : tnode) (p : list (Z * tnode)).
Context (s : ipc_space) (g : buckets) (F : list Z) (v : gmap Z tnode) (past : Z -> Prop) (y : ipc_entry).
Context (M : moving osize R kept ((n, x) :: p) s g l F v past) (Hnd : NoDup ((kept ++ (n, x) :: p).*1)).
Context (Hy : slot_at (tab s) (MACH_PORT_INDEX n) y) (Hty : IE_BITS_TYPE (ie_bits y) = 0).

Lemma parts_delete m z : delete n v !! m = Some z <-> (m, z) ∈ R ++ kept ++ p.
Proof.
  destruct (moving_in _ _ _ _ _ _ _ _ _ M) as (Hx & _).
  rewrite lookup_delete_Some, (mo_dir _ _ _ _ _ _ _ _ _ _ M), !elem_of_app, elem_of_cons. split.
  - intros [Hmn [?|[?|[[= ? ?]|?]]]]; auto. by destruct Hmn.
  - rewrite fmap_app, fmap_cons in Hnd. apply NoDup_app in Hnd as (_ & Hd1 & [Hd2 _]%NoDup_cons). intros Hm.
    split; [|tauto]. intros <-. destruct Hm as [Hm|[Hm|Hm]].
    + pose proof (mo_others _ _ _ _ _ _ _ _ _ _ M n z Hm) as Hout. apply Hout.
      apply (mo_part _ _ _ _ _ _ _ _ _ _ M n x). rewrite elem_of_app. right. by left.
    + apply (Hd1 n); [by apply (list_elem_of_fmap_2 fst _ (n, z))|by left].
    + apply Hd2. by apply (list_elem_of_fmap_2 fst _ (n, z)).
Qed.

(** One entry fewer to move. *)
Lemma taken_moves gn s2 g' : gen_ok gn -> n = MACH_PORT_INDEX n * 2 ^ 8 + gn ->
  is_tree s2 = is_tree s -> taken s g (MACH_PORT_INDEX n) n x y gn false 0 s2 g' ->
  let s3 := set_tree_total (is_tree_total (is_hash s2) - 1) s2 in
  ∃ F', moving osize R kept p s3 g' l F' (delete n v) (λ m, past m \/ m = n) /\ grows s g s3 g' /\ framed s s3 /\
    (∀ m r, has_now s3 l F' (delete n v) m r <-> has_now s l F v m r).
Proof.
  intros Hgn En Etree T s3. pose proof (taken_counted _ _ _ _ _ _ _ _ _ _ _ T) as T1. rewrite Z.add_0_l in T1. fold s3 in T1.
  destruct T1 as [A1 A2 A7 A6 A3 A4 A8 A9 Hsame Hok Hb Hcase3].
  destruct (moving_in _ _ _ _ _ _ _ _ _ M) as (Hx & Hr & Htx). pose proof M as [M1 M2 M3 M4 M5 M6 M7 M8 M9 M10 M11 M12 M13].
  destruct (M12 _ y (proj1 Hr) Hy) as [[HF Hb0]|[_ ?]]; [|done].
  pose proof (sends_outside s g l F v past n x M1 M4 Hx) as Hsend.
  assert (Hlen : zlen (tab s3) = zlen (tab s)) by (by rewrite <- (same_entries_length _ _ Hsame), put_length).
  pose proof (take_wf_now s g l F v past M1 n x Hx _ eq_refl y Hy HF gn Hgn En Hsend s3 g' A3 A4 A8 A9 Hsame Hok Hb Hcase3) as G.
  pose proof (take_grows s g l F v past M1 n x Hx _ eq_refl y Hy HF gn Hgn En Hsend s3 g' A1 A2 A3 A4 M2 Hsame Hok Hcase3) as Gr.
  pose proof (take_has s g l F v past M1 n x Hx _ y Hy HF gn Hgn En Hsend s3 Hsame) as Hh.
  exists (filter (λ j, j <> MACH_PORT_INDEX n) F). split; [|by split; [|split]]. split; try done.
  - by rewrite Hlen.
  - by eapply sends_now_step.
  - apply parts_delete.
  - rewrite Hlen. done.
  - rewrite Hlen. intros m z Hm. apply (M7 m z). rewrite elem_of_app in Hm |- *. destruct Hm; [by left|right; by right].
  - intros m z Hm. apply (M8 m z). by right.
  - intros m z Hm. left. by eapply M9.
  - intros j [_ Hj]%list_elem_of_filter. by apply M11.
  - intros j z Hj Hz. rewrite list_elem_of_filter.
    destruct (take_slots s x _ y Hy gn s3 Hsame j z Hz) as [[-> E]|(Hne & w & Hw & E)]; injection E as E1 E2 E3; rewrite E2.
    + right. split; [tauto|]. destruct (gw_nodes _ _ _ _ _ _ M1 n x Hx) as (_ & _ & Hlx & _). cbn. by rewrite type_mkb.
    + destruct (M12 j w Hj Hw) as [[? ?]|[? ?]]; [left|right]; tauto.
  - intros m Hm. left. by apply M13.
Qed.

Lemma move_entry_runs lk (Q : unit -> world O -> Prop) :
  (∀ s' g' F' v' past', moving osize R kept p s' g' l F' v' past' -> grows s g s' g' -> framed s s' ->
     (∀ m r, has_now s' l F' v' m r <-> has_now s l F v m r) -> Q tt (World s' lk g' o)) ->
  runs (move_entry n x) Q (World (with_tab (put (tab s) (MACH_PORT_INDEX n)
    (Entry (tn_object x) (tn_bits x ||| MACH_PORT_GEN n) (tn_request x) (ie_index y))) s) lk g o).
Proof.
  intros HQ. destruct (moving_in _ _ _ _ _ _ _ _ _ M) as (Hx & Hr & Htx). set (i := MACH_PORT_INDEX n) in *.
  pose proof M as [M1 M2 M3 M4 _ _ _ _ _ _ _ M12 _].
  destruct (M12 i y (proj1 Hr) Hy) as [[HF Hb0]|[_ ?]]; [|done].
  destruct (gw_name s g l F v past M1 n x Hx i eq_refl) as (gn & Hgn & En & Egn).
  destruct (gw_nodes _ _ _ _ _ _ M1 n x Hx) as (_ & Hsp & Hlx & Hpos & _). fold i in Hpos.
  destruct (take_free_slot s g l F v past M1 i y Hy HF) as (Hnh & Ho & _).
  pose proof (sends_outside s g l F v past n x M1 M4 Hx) as Hsend.
  pose proof (gw_names _ _ _ _ _ _ M1) as [[N1 N1a N1b N1c N1d N1e N1f] N2 N3 N4].
  rewrite Egn, add_gen by done. change (Entry (tn_object x) (mkb gn false (tn_bits x)) (tn_request x) (ie_index y))
    with (refilled y x gn false). set (s1 := with_tab (put (tab s) i (refilled y x gn false)) s).
  assert (Htot : 0 < is_tree_total (is_hash s)).
  { rewrite (gw_total _ _ _ _ _ _ M1). assert (base.size v <> 0%nat); [|lia].
    intros E0%map_size_empty_inv. by rewrite E0, lookup_empty in Hx. }
  assert (Hend : ∀ s2 g', is_tree s2 = is_tree s -> taken s g i n x y gn false 0 s2 g' ->
    runs (set_space (λ s, set_tree_total (u32 (is_tree_total (is_hash s) - 1)) s)) Q (World s2 lk g' o)).
  { intros s2 g' Et T. apply s_set_space.
    rewrite wrap_small by (rewrite (tk_total _ _ _ _ _ _ _ _ _ _ _ T); unfold in_range; lia).
    destruct (taken_moves gn s2 g' Hgn En Et T) as (F' & M' & Gr & Fr & Hh). by eapply HQ. }
  unfold move_entry. fold i. apply runs_bind.
  assert (Hok1 : table_ok (tab s1)) by (eapply table_ok_put; [exact N1|exact Hy|done|by intros ?%Hnh]).
  assert (Hh1 : ∀ j, hashed (tab s1) j <-> hashed (tab s) j) by (intros j; by eapply hashed_put).
  destruct (Z.eqb_spec (IE_BITS_TYPE (tn_bits x)) MACH_PORT_TYPE_SEND) as [Ety|Ety].
  - pose proof (proj1 Hsend Ety) as Hin. destruct (N2 _ Hin) as (x0 & Hx0 & _ & Hxo).
    cbn in Hx0. rewrite Hx in Hx0. injection Hx0 as <-.
    apply (move_hash_runs o s1 lk g n x i (refilled y x gn false)); try done.
    + cbn. by rewrite put_length.
    + cbn. lia.
    + apply slot_at_put_eq. lia.
    + by rewrite Hh1.
    + intros t' g' s' Hok' Hsame' Hh' Hb' Hp'. apply Hend; [done|]. split; try done; [cbn; lia|].
      left. split; [done|]. split; [|done]. intros j. rewrite <- Hh1. apply Hh'.
  - apply runs_ret, Hend; [done|]. split; try done; [cbn; lia|]. by right.
Qed.
End move_entry.

Section move_entries.
Context {O : Type} (o : O).

(** The loop. *)
Lemma move_entries_runs size lk (Q : tree (E := tnode) -> world O -> Prop) : ∀ p fuel kept t s g F v past,
  stands t kept p -> (length p < fuel)%nat -> zlen (tab s) = size ->
  moving osize R kept p s g l F v past ->
  (∀ root kept' s' g' F' v' past', stands (Done root) kept' [] -> elems root = kept' ->
     moving osize R kept' [] s' g' l F' v' past' -> grows s g s' g' -> framed s s' ->
     (∀ m r, has_now s' l F' v' m r <-> has_now s l F v m r) -> Q root (World s' lk g' o)) ->
  runs (move_entries fuel osize size t) Q (World s lk g o).
Proof.
  induction p as [|[n x] p IH]; intros [|fuel] kept t s g F v past Hst Hf Hsz M HQ; try (simpl in Hf; lia).
  - destruct (stands_done t kept Hst) as (root & -> & He). cbn [move_entries]. apply runs_ret.
    by eapply HQ.
  - destruct (stands_at t kept n x p Hst) as (tl & tr & fs & -> & Hnext).
    destruct (moving_in _ _ _ _ _ _ _ _ _ M) as (Hx & Hr & Htx).
    destruct (gw_nodes _ _ _ _ _ _ (mo_wf _ _ _ _ _ _ _ _ _ _ M) n x Hx) as (_ & Hsp & _).
    cbn [move_entries]. apply runs_bind, s_of_space, runs_bind, runs_assert; [by apply Z.eqb_eq|].
    apply runs_bind, runs_assert; [apply andb_true_intro; split; [apply Z.leb_le|apply Z.ltb_lt]; lia|].
    destruct (slot_at_some (tab s) (MACH_PORT_INDEX n)) as [y Hy].
    { pose proof (gw_nodes _ _ _ _ _ _ (mo_wf _ _ _ _ _ _ _ _ _ _ M) n x Hx) as (_ & _ & _ & ? & _). lia. }
    apply runs_bind, (s_read _ y); [done|].
    destruct (truth (IE_BITS_TYPE (ie_bits y))) eqn:Ety.
    + apply truth_true in Ety.
      destruct (moving_mark _ _ _ _ _ _ _ _ _ y M Hy Ety) as (Hg & M' & Gr & Fr & Hh).
      apply runs_bind, runs_assert; [by apply negb_true_iff, Z.eqb_neq|].
      apply runs_bind, (s_set _ _ y); [done|].
      destruct (Hnext false) as (t' & Et & Hst'). apply runs_bind, (s_deref _ t'); [done|].
      eapply (IH fuel _ t' _ g F v _ Hst'); [simpl in Hf; lia|by rewrite (fr_size _ _ Fr)|exact M'|].
      intros root kept' s' g' F' v' past' Hd He M2 Gr2 Fr2 Hh2.
      eapply HQ; [done|done|exact M2|by eapply grows_trans|by eapply framed_trans|].
      intros m r. by rewrite Hh2.
    + apply truth_false in Ety.
      apply runs_bind, runs_assert; [by apply negb_true_iff, Z.eqb_neq|].
      apply runs_bind, (s_write _ y); [done|]. apply runs_bind.
      destruct Hst as (_ & _ & _ & Hsorted & _).
      eapply (move_entry_runs o kept n x p s g F v past y); [done| |done|done|].
      { by apply sorted_NoDup. }
      intros s' g' F' v' past' M' Gr Fr Hh.
      destruct (Hnext true) as (t' & Et & Hst'). rewrite app_nil_r in Hst'. apply runs_bind, (s_deref _ t'); [done|].
      eapply (IH fuel _ t' _ g' F' v' _ Hst'); [simpl in Hf; lia|by rewrite (fr_size _ _ Fr)|exact M'|].
      intros root kept' s2 g2 F2 v2 past2 Hd He M2 Gr2 Fr2 Hh2.
      eapply HQ; [done|done|exact M2|by eapply grows_trans|by eapply framed_trans|].
      intros m r. by rewrite Hh2.
Qed.
End move_entries.
End moves.

(** * Counting the indices of a part of the tree *)

Definition index_set (p : list (Z * tnode)) : gset Z := list_to_set (MACH_PORT_INDEX <$> p.*1).

Lemma elem_index_set p j : j ∈ index_set p <-> ∃ n x, (n, x) ∈ p /\ MACH_PORT_INDEX n = j.
Proof.
  unfold index_set. rewrite elem_of_list_to_set. split.
  - intros (n & -> & ([m x] & -> & H)%list_elem_of_fmap)%list_elem_of_fmap. by exists m, x.
  - intros (n & x & H & <-). apply list_elem_of_fmap_2. by apply (list_elem_of_fmap_2 fst _ (n, x)).
Qed.

Lemma set_cons_same (j : Z) (A : gset Z) : ({[j]} ∪ A) ∖ {[j]} = A ∖ {[j]}.
Proof. apply set_eq. intros i. rewrite !elem_of_difference, elem_of_union, elem_of_singleton. tauto. Qed.

Lemma size_cons_other (j k : Z) (A : gset Z) : j <> k -> k ∉ A ->
  base.size (({[j]} ∪ A) ∖ {[k]}) = S (base.size (A ∖ {[j]})).
Proof.
  intros Hjk Hk. assert (({[j]} ∪ A) ∖ {[k]} = {[j]} ∪ A ∖ {[j]}) as ->.
  { apply set_eq. intros i. rewrite !elem_of_union, !elem_of_difference, elem_of_union, !elem_of_singleton.
    destruct (decide (i = j)) as [->|]; [tauto|]. split; [tauto|]. intros [?|[? _]]; [done|]. split; [auto|congruence]. }
  rewrite size_union, size_singleton; [done|]. apply disjoint_singleton_l. rewrite elem_of_difference, elem_of_singleton. tauto.
Qed.

Lemma index_set_cons n x p : index_set ((n, x) :: p) = {[MACH_PORT_INDEX n]} ∪ index_set p.
Proof. done. Qed.

Lemma count_small_spec : ∀ p fuel no idx (t : traversal (E := tnode)) v, stands t v p -> (length p < fuel)%nat ->
  (∀ n x, (n, x) ∈ p -> idx <= MACH_PORT_INDEX n) -> 0 <= no -> no + zlen p < 2 ^ 32 ->
  ∃ root, count_small fuel no idx t = Some (no + Z.of_nat (base.size (index_set p ∖ {[idx]})), root) /\
    stands (Done root) (v ++ p) [] /\ elems root = v ++ p.
Proof.
  induction p as [|[n x] p IH]; intros [|fuel] no idx t v Hst Hf Hlow Hno Hmax; try (simpl in Hf; lia).
  - destruct (stands_done t v Hst) as (root & -> & He). exists root. rewrite app_nil_r. split; [|done].
    cbn [count_small]. do 2 f_equal.
    change (index_set []) with (∅ : gset Z). rewrite (subseteq_empty_difference_L ∅), size_empty by done. lia.
  - destruct (stands_at t v n x p Hst) as (tl & tr & fs & -> & Hnext).
    destruct (Hnext false) as (t' & Et & Hst'). cbn [count_small]. rewrite Et. cbn [mbind option_bind].
    assert (Hge : ∀ m y, (m, y) ∈ p -> MACH_PORT_INDEX n <= MACH_PORT_INDEX m).
    { intros m y Hm. apply index_mono. destruct Hst as (_ & _ & _ & Hs & _). unfold sorted in Hs.
      rewrite fmap_app in Hs. apply StronglySorted_app in Hs as (_ & _ & Hs). cbn in Hs.
      apply StronglySorted_cons in Hs as [Hs _]. rewrite Forall_forall in Hs.
      apply Z.lt_le_incl, (Hs m). by apply (list_elem_of_fmap_2 fst _ (m, y)). }
    rewrite index_set_cons. specialize (Hlow n x) as Hn. simpl length in Hf, Hmax.
    replace (v ++ (n, x) :: p) with ((v ++ [(n, x)]) ++ p) by (by rewrite <- app_assoc).
    destruct (Z.eqb_spec (MACH_PORT_INDEX n) idx) as [<-|Hne]; cbn [negb].
    + destruct (IH fuel no (MACH_PORT_INDEX n) t' _ Hst') as (root & -> & Hr); [lia|done|done|lia|].
      exists root. split; [|done]. by rewrite set_cons_same.
    + rewrite wrap_small by (unfold in_range; lia).
      destruct (IH fuel (no + 1) (MACH_PORT_INDEX n) t' _ Hst') as (root & -> & Hr); [lia|done|lia|lia|].
      exists root. split; [|done]. do 2 f_equal.
      assert (Hidx : idx ∉ index_set p).
      { intros (m & y & Hm & E)%elem_index_set. specialize (Hge m y Hm). assert (idx <= MACH_PORT_INDEX n) by (apply Hn; by left). lia. }
      rewrite size_cons_other by done. lia.
Qed.

Lemma index_set_bound p lo hi : (∀ n x, (n, x) ∈ p -> lo <= MACH_PORT_INDEX n < hi) -> lo <= hi ->
  Z.of_nat (base.size (index_set p)) <= hi - lo.
Proof.
  intros H Hle. assert (Hsub : index_set p ⊆ list_to_set (seqZ lo (hi - lo))).
  { intros j (n & x & Hn & <-)%elem_index_set. apply elem_of_list_to_set, elem_of_seqZ.
    specialize (H n x Hn). lia. }
  apply subseteq_size in Hsub. rewrite size_list_to_set, length_seqZ in Hsub by apply NoDup_seqZ. lia.
Qed.

Lemma index_set_length p : (base.size (index_set p) <= length p)%nat.
Proof.
  induction p as [|[n x] p IH]; [done|]. rewrite index_set_cons.
  rewrite size_union_alt, size_singleton. simpl. 
  assert (base.size (index_set p ∖ {[MACH_PORT_INDEX n]}) <= base.size (index_set p))%nat by (apply subseteq_size, subseteq_difference_l; done). lia.
Qed.

(** * The work on the tree *)

Lemma grow_wf_past s g l F v (P P' : Z -> Prop) : grow_wf s g l F v P ->
  (∀ n x, v !! n = Some x -> MACH_PORT_INDEX n < zlen (tab s) -> P n <-> P' n) -> grow_wf s g l F v P'.
Proof.
  intros [G1 G2 G3 G4 G5 G6 G7 G8] H. split; try done. intros i e He. rewrite (G5 i e He).
  pose proof (slot_at_range _ _ _ He) as Hi.
  split; intros (n & x & Hx & Hn & Hp); exists n, x; (split; [done|]); (split; [done|]);
    apply (H n x Hx); [lia|done|lia|done].
Qed.

Lemma grow_wf_hash s s' g l F v P : is_hash s' = is_hash s -> grow_wf s g l F v P -> grow_wf s' g l F v P.
Proof.
  intros E [G1 G2 G3 G4 G5 G6 [N1 N2 N3 N4] G8]. split; rewrite ?E; try done. by split; rewrite ?E.
Qed.

Lemma small_empty s a b : dir (is_tree s) = ∅ -> small_indices s a b = ∅.
Proof.
  intros H. apply set_eq. intros j. rewrite elem_small. split; [|by intros ?%elem_of_empty].
  intros [_ (n & x & Hx & _)]. by rewrite H, lookup_empty in Hx.
Qed.

(** The space when the tree is done and the new slots are not yet on the free list. *)
Record ready (nsize : Z) (s : ipc_space) (g : buckets) (l F : list Z) : Prop := {
  rd_wf : grow_wf s g l F (dir (is_tree s)) (λ _, True);
  rd_tree : wf (is_tree s);
  rd_small : is_tree_small s = Z.of_nat (base.size (small_indices s (zlen (tab s)) nsize));
  rd_size : is_table_size (is_hash s) = zlen (tab s);
  rd_fast : is_fast (is_hash s) = true -> contents (is_tree s) = [];
  rd_sends : sends_now s g l F (dir (is_tree s)) }.

(** The slots that are free are the ones that are zero. *)
Record settled (osize nsize : Z) (s : ipc_space) (g : buckets) (l F : list Z) : Prop := {
  se_ready : ready nsize s g l F;
  se_new j : osize <= j -> (j ∉ l);
  se_free j : j ∈ F -> osize <= j;
  se_slots j y : osize <= j -> slot_at (tab s) j y ->
    (j ∈ F /\ ie_bits y = 0) \/ ((j ∉ F) /\ IE_BITS_TYPE (ie_bits y) <> 0) }.

Section grow_tree.
Context {O : Type} (o : O) (uninit : name_tree) (osize nsize : Z) (l : list Z).
Context (s : ipc_space) (g : buckets) (F : list Z).
Context (Hosize : 0 < osize < zlen (tab s)) (Hsize : zlen (tab s) <= nsize < 2 ^ 24).
Context (Hwf : wf (is_tree s)).
Context (G : grow_wf s g l F (dir (is_tree s)) (λ n, MACH_PORT_INDEX n < osize)).
Context (Hfast : is_fast (is_hash s) = false) (Htsize : is_table_size (is_hash s) = zlen (tab s)).
Context (Hsends : sends_now s g l F (dir (is_tree s))).
Context (Htyped : ∀ n x, dir (is_tree s) !! n = Some x -> IE_BITS_TYPE (tn_bits x) <> 0).
Context (Hnew : ∀ j, osize <= j -> (j ∉ l)) (Hfree : ∀ j, j ∈ F -> osize <= j).
Context (Hslots : ∀ j y, osize <= j -> slot_at (tab s) j y ->
  (j ∈ F /\ ie_bits y = 0) \/ ((j ∉ F) /\ IE_BITS_TYPE (ie_bits y) <> 0)).

(** The four parts of the tree. *)
Context (ignore move small big : name_tree) (Wi : wf ignore) (Wm : wf move) (Ws : wf small) (Wb : wf big).
Context (Hcut : contents (is_tree s) = (contents ignore ++ contents move) ++ contents small ++ contents big).
Context (Ii : indices (λ j, j < osize) ignore) (Im : indices (λ j, osize <= j < zlen (tab s)) move).
Context (Is : indices (λ j, zlen (tab s) <= j < nsize) small) (Ib : indices (λ j, nsize <= j) big).

Definition parts : list (Z * tnode) := contents ignore ++ contents small ++ contents big.

Lemma moving_start : moving osize parts [] (contents move) (set_is_tree big s) g l F (dir (is_tree s))
  (λ n, MACH_PORT_INDEX n < osize).
Proof.
  split; try done.
  - by apply (grow_wf_hash s).
  - intros n x. rewrite dir_contents, Hcut by done. unfold parts. rewrite !elem_of_app, elem_of_nil. tauto.
  - intros n x. unfold parts. rewrite !elem_of_app. cbn.
    intros [H|[H|H]]; [specialize (Ii n x H)|specialize (Is n x H)|specialize (Ib n x H)]; cbn in *; lia.
  - intros n x H. apply (Htyped n x). apply dir_contents; [done|]. rewrite Hcut, !elem_of_app. auto.
  - by intros n x H%elem_of_nil.
Qed.

Section after.
Context (kept : list (Z * tnode)) (s' : ipc_space) (g' : buckets) (F' : list Z) (v' : gmap Z tnode) (past' : Z -> Prop).
Context (M : moving osize parts kept [] s' g' l F' v' past') (Hlen : zlen (tab s') = zlen (tab s)).

Lemma after_dir (t : name_tree) : wf t -> contents t = contents ignore ++ kept ++ contents small ++ contents big ->
  dir t = v'.
Proof.
  intros Wt Hc. apply map_eq. intros n. apply option_eq. intros x.
  rewrite dir_contents, (mo_dir _ _ _ _ _ _ _ _ _ _ M), Hc by done. unfold parts.
  rewrite !elem_of_app, elem_of_nil. tauto.
Qed.

Lemma after_count : zlen (contents small) <= Z.of_nat (base.size v').
Proof.
  apply Nat2Z.inj_le. rewrite <- size_dom, <- (length_fmap fst (contents small)).
  rewrite <- (size_list_to_set (C := gset Z)) by (apply sorted_NoDup, Ws).
  apply subseteq_size. intros n. rewrite elem_of_list_to_set. intros ([m x] & -> & H)%list_elem_of_fmap.
  apply elem_of_dom. exists x. apply (mo_dir _ _ _ _ _ _ _ _ _ _ M). unfold parts. rewrite !elem_of_app. auto.
Qed.

Lemma after_small (t : name_tree) : wf t ->
  contents t = contents ignore ++ kept ++ contents small ++ contents big ->
  small_indices (set_is_tree t s') (zlen (tab s')) nsize = index_set (contents small).
Proof.
  intros Wt Hc. apply set_eq. intros j. rewrite elem_small, elem_index_set, Hlen. split.
  - intros [Hj (n & x & Hx & Hn)]. exists n, x. split; [|done]. cbn in Hx.
    apply dir_contents in Hx; [|done]. rewrite Hc, !elem_of_app in Hx.
    destruct Hx as [Hx|[Hx|[Hx|Hx]]]; [specialize (Ii n x Hx)| |done|specialize (Ib n x Hx)]; cbn in *; [lia| |lia].
    assert (Hk : osize <= MACH_PORT_INDEX n < zlen (tab s')).
    { apply (mo_part _ _ _ _ _ _ _ _ _ _ M n x). rewrite elem_of_app. by left. }
    rewrite Hlen in Hk. lia.
  - intros (n & x & Hx & Hn). specialize (Is n x Hx). cbn in Is. split; [lia|]. exists n, x. split; [|done].
    cbn. apply dir_contents; [done|]. rewrite Hc, !elem_of_app. auto.
Qed.

Lemma after_settled (t : name_tree) z : wf t ->
  contents t = contents ignore ++ kept ++ contents small ++ contents big ->
  z = Z.of_nat (base.size (index_set (contents small))) ->
  settled osize nsize (set_is_tree_small z (set_is_tree t s')) g' l F'.
Proof.
  intros Wt Hc ->. pose proof (after_dir t Wt Hc) as Hd.
  pose proof M as [M1 M2 M3 M4 M5 M6 M7 M8 M9 M10 M11 M12 M13].
  split; try done; split; cbn [set_is_tree_small set_is_tree is_tree]; rewrite ?Hd; try done.
  - apply (grow_wf_hash s'); [done|]. apply (grow_wf_past _ _ _ _ _ past'); [done|]. intros n x Hx Hlt. split; [done|]. intros _.
    apply M5 in Hx. unfold parts in Hx. rewrite !elem_of_app, elem_of_nil in Hx.
    destruct Hx as [[Hx|[Hx|Hx]]|[Hx|[]]].
    + apply M13. by apply (Ii n x).
    + specialize (Is n x Hx). cbn in *. lia.
    + specialize (Ib n x Hx). cbn in *. lia.
    + by eapply M9.
  - cbn. by rewrite <- (after_small t Wt Hc).
  - cbn. congruence.
Qed.
End after.
End grow_tree.

Section grow_tree_runs.
Context {O : Type} (o : O) (uninit : name_tree) (osize nsize : Z) (l : list Z).

(** The tree is cut at the three sizes. *)
Lemma cut_runs {R : Type} s size lk g (k : name_tree -> name_tree -> name_tree -> kern (world O) R)
    (Q : R -> world O -> Prop) : wf (is_tree s) -> 0 < osize < size -> size <= nsize < 2 ^ 24 ->
  (∀ big small move ignore, wf big -> wf small -> wf move -> wf ignore ->
     contents (is_tree s) = (contents ignore ++ contents move) ++ contents small ++ contents big ->
     indices (λ j, j < osize) ignore -> indices (λ j, osize <= j < size) move ->
     indices (λ j, size <= j < nsize) small -> indices (λ j, nsize <= j) big ->
     runs (k small move ignore) Q (World (set_is_tree big s) lk g o)) ->
  runs (small ← on_tree (λ t, '(t, small) ← ipc_splay_tree_split t (MACH_PORT_MAKE nsize 0) uninit; Some (small, t));
        '(small, move) ← deref (λ _, ipc_splay_tree_split small (MACH_PORT_MAKE size 0) uninit);
        '(move, ignore) ← deref (λ _, ipc_splay_tree_split move (MACH_PORT_MAKE osize 0) uninit);
        k small move ignore) Q (World s lk g o).
Proof.
  intros Hwf Hosize Hsize HQ.
  destruct (split_index (is_tree s) uninit nsize Hwf) as (big & t1 & E1 & Wb & W1 & C1 & I1 & Ib); [lia|].
  destruct (split_index t1 uninit size W1) as (small & t2 & E2 & Ws & W2 & C2 & I2 & Is); [lia|].
  destruct (split_index t2 uninit osize W2) as (move & ignore & E3 & Wm & Wi & C3 & Ii & Im); [lia|].
  apply runs_bind. eapply s_on_tree; [by rewrite E1|].
  apply runs_bind, (s_deref _ (small, t2)); [done|]. cbv beta iota.
  apply runs_bind, (s_deref _ (move, ignore)); [done|]. cbv beta iota.
  apply (HQ big small move ignore); try done.
  - by rewrite C1, C2, C3, <- !app_assoc.
  - intros n x H. specialize (Im n x H). assert (Hin : (n, x) ∈ contents t2) by (rewrite C3, elem_of_app; by right).
    specialize (I2 n x Hin). cbn in *. lia.
  - intros n x H. specialize (Is n x H). assert (Hin : (n, x) ∈ contents t1) by (rewrite C2, elem_of_app; by right).
    specialize (I1 n x Hin). cbn in *. lia.
Qed.

(** The parts are joined again. *)
Lemma joins_run big small move ignore size s lk g (Q : unit -> world O -> Prop) :
  wf big -> wf small -> wf move -> wf ignore -> is_tree s = big -> 0 < osize < size -> size <= nsize < 2 ^ 24 ->
  indices (λ j, j < osize) ignore -> indices (λ j, osize <= j < size) move ->
  indices (λ j, size <= j < nsize) small -> indices (λ j, nsize <= j) big ->
  (∀ t, wf t -> contents t = contents ignore ++ contents move ++ contents small ++ contents big ->
     Q tt (World (set_is_tree t s) lk g o)) ->
  runs (on_tree (λ t, '(t, _) ← ipc_splay_tree_join t small; Some (tt, t));;
        on_tree (λ t, '(t, _) ← ipc_splay_tree_join t move; Some (tt, t));;
        on_tree (λ t, '(t, _) ← ipc_splay_tree_join t ignore; Some (tt, t))) Q (World s lk g o).
Proof.
  intros Wb Ws Wm Wi Es Hosize Hsize Ii Im Is Ib HQ.
  destruct (join_index big small nsize Wb Ws) as ([u1 j1] & J1 & Wu1 & Cu1); [|done|].
  { intros n x H. specialize (Is n x H). cbn in *. lia. }
  cbn [fst] in *. apply runs_bind, (s_on_tree _ tt u1); [by rewrite Es, J1|].
  destruct (join_index u1 move size Wu1 Wm) as ([u2 j2] & J2 & Wu2 & Cu2).
  { intros n x H. specialize (Im n x H). cbn in *. lia. }
  { intros n x. rewrite Cu1. intros [H|H]%elem_of_app; [specialize (Is n x H)|specialize (Ib n x H)]; cbn in *; lia. }
  cbn [fst] in *. apply runs_bind, (s_on_tree _ tt u2); [cbn; by rewrite J2|].
  destruct (join_index u2 ignore osize Wu2 Wi Ii) as ([u3 j3] & J3 & Wu3 & Cu3).
  { intros n x. rewrite Cu2, Cu1. intros [H|[H|H]%elem_of_app]%elem_of_app;
      [specialize (Im n x H)|specialize (Is n x H)|specialize (Ib n x H)]; cbn in *; lia. }
  cbn [fst] in *. apply (s_on_tree _ tt u3); [cbn; by rewrite J3|]. apply HQ; [done|]. by rewrite Cu3, Cu2, Cu1.
Qed.

(** The small entries are counted: their indices, all of them positive. *)
Lemma count_runs {R : Type} small size total w (k : Z * tree (E := tnode) -> kern (world O) R)
    (Q : R -> world O -> Prop) : wf small -> indices (λ j, size <= j < nsize) small -> 0 < size ->
  zlen (contents small) <= total -> total < 2 ^ 32 ->
  (∀ root, let small' := ipc_splay_traverse_finish small root in
     let nosmall := Z.of_nat (base.size (index_set (contents small))) in
     wf small' -> contents small' = contents small -> nosmall <= total ->
     runs (k (nosmall, root)) Q w) ->
  runs (t ← deref (λ _, ipc_splay_traverse_start small);
        r ← deref (λ _, count_small (S (length (contents small))) 0 0 t); k r) Q w.
Proof.
  intros Ws Is Hsize Hcnt Htot HQ. destruct (stands_start small Ws) as (ts & Es & Ss).
  destruct (count_small_spec (contents small) (S (length (contents small))) 0 0 ts [] Ss)
    as (root & Ec & Sd & He); [lia| |lia|lia|].
  { intros n x H. specialize (Is n x H). cbn in *. lia. }
  assert (H0 : index_set (contents small) ∖ {[0]} = index_set (contents small)).
  { apply set_eq. intros j. rewrite elem_of_difference, elem_of_singleton, elem_index_set. split; [tauto|].
    intros (n & x & H & Hn). split; [by exists n, x|]. intros ->. specialize (Is n x H). cbn in *. lia. }
  rewrite H0, Z.add_0_l in Ec. destruct Sd as (_ & _ & _ & Hsorted & Hnames).
  rewrite app_nil_l in He. rewrite app_nil_r, app_nil_l in Hsorted, Hnames.
  apply runs_bind, (s_deref _ ts); [done|]. apply runs_bind; destruct w; (eapply s_deref; [exact Ec|]).
  destruct (finish_spec small root) as [W C]; [by rewrite He..|]. rewrite He in C.
  apply HQ; [done|done|]. pose proof (index_set_length (contents small)). lia.
Qed.

Lemma grow_tree_runs s lk g F (Q : unit -> world O -> Prop) :
  0 < osize < zlen (tab s) -> zlen (tab s) <= nsize < 2 ^ 24 -> wf (is_tree s) ->
  grow_wf s g l F (dir (is_tree s)) (λ n, MACH_PORT_INDEX n < osize) ->
  is_fast (is_hash s) = false -> is_table_size (is_hash s) = zlen (tab s) ->
  sends_now s g l F (dir (is_tree s)) ->
  (∀ n x, dir (is_tree s) !! n = Some x -> IE_BITS_TYPE (tn_bits x) <> 0) ->
  (∀ j, osize <= j -> (j ∉ l)) -> (∀ j, j ∈ F -> osize <= j) ->
  (∀ j y, osize <= j -> slot_at (tab s) j y ->
     (j ∈ F /\ ie_bits y = 0) \/ ((j ∉ F) /\ IE_BITS_TYPE (ie_bits y) <> 0)) ->
  (∀ s' g' F', settled osize nsize s' g' l F' -> grows s g s' g' ->
     is_table_next s' = is_table_next s -> zlen (tab s') = zlen (tab s) ->
     (∀ n r, has_now s' l F' (dir (is_tree s')) n r <-> has_now s l F (dir (is_tree s)) n r) ->
     Q tt (World s' lk g' o)) ->
  runs (grow_tree uninit osize (zlen (tab s)) nsize) Q (World s lk g o).
Proof.
  intros Hosize Hsize Hwf G Hfast Htsize Hsends Htyped Hnew Hfree Hslots HQ.
  set (size := zlen (tab s)) in *. unfold grow_tree.
  apply (cut_runs s size); [done..|]. intros big small move ignore Wb Ws Wm Wi Hcut Ii Im Is Ib.
  (* the moves *)
  destruct (stands_start move Wm) as (tm & Em & Sm). apply runs_bind, (s_deref _ tm); [done|].
  pose proof (moving_start osize nsize l s g F Hosize Hsize Hwf G Hfast Htsize Hsends Htyped Hnew Hfree Hslots
    ignore move small big Hcut Ii Im Is Ib) as M0.
  apply runs_bind. eapply (move_entries_runs osize _ l o size lk _ (contents move) _ [] tm _ g F _ _ Sm); [lia|done|exact M0|].
  intros root kept s1 g1 F1 v1 past1 Hd He M Gr Fr Hh. cbv zeta.
  assert (Hlen : zlen (tab s1) = zlen (tab s)) by apply (fr_size _ _ Fr).
  destruct Hd as (_ & _ & _ & Hsorted & Hnames). rewrite app_nil_r in Hsorted, Hnames.
  destruct (finish_spec move root) as [Wk Ck]; [by rewrite He..|]. rewrite He in Ck.
  (* the count *)
  pose proof (after_count osize l ignore small big Ws kept s1 g1 F1 v1 past1 M) as Hcnt.
  pose proof (gw_names _ _ _ _ _ _ (mo_wf _ _ _ _ _ _ _ _ _ _ M)) as [[_ _ _ _ _ Hroom _] _ _ _].
  pose proof (gw_total _ _ _ _ _ _ (mo_wf _ _ _ _ _ _ _ _ _ _ M)) as Htot.
  apply (count_runs small size (is_tree_total (is_hash s1))); [done|done|lia|lia|apply Hroom|].
  intros root2 small' nosmall Wsm Csm Hno. cbv beta iota zeta. fold small'.
  apply runs_bind, s_of_space, runs_bind, runs_assert.
  { rewrite wrap_small by (unfold in_range; lia). apply Z.leb_le. apply index_set_bound; [|lia].
    intros n x H. by apply (Is n x). }
  apply runs_bind, runs_assert; [by apply Z.leb_le|]. apply runs_bind, s_set_space.
  (* the joins *)
  apply (joins_run big small' (ipc_splay_traverse_finish move root) ignore size); try done.
  - exact (fr_tree _ _ Fr).
  - intros n x H. rewrite Ck in H. unfold size. rewrite <- Hlen.
    apply (mo_part _ _ _ _ _ _ _ _ _ _ M n x). rewrite elem_of_app. by left.
  - intros n x H. rewrite Csm in H. by apply (Is n x).
  - intros t Wt Ct. rewrite Csm, Ck in Ct.
    pose proof (after_dir osize nsize l s Hosize Hsize ignore small big kept s1 g1 F1 v1 past1 M t Wt Ct) as Hdir.
    apply (HQ (set_is_tree_small nosmall (set_is_tree t s1)) g1 F1).
    + by eapply (after_settled osize nsize l s Hosize Hsize ignore small big Ii Is Ib kept s1 g1 F1 v1 past1 M Hlen t).
    + destruct Gr. by split.
    + apply (fr_next _ _ Fr).
    + done.
    + intros n r. cbn [set_is_tree_small set_is_tree is_tree]. rewrite Hdir. apply Hh.
Qed.
End grow_tree_runs.

(** * The new slots join the free list *)

Lemma fresh_step nsize s g l F j e gi f : ready nsize s g l F -> j ∈ F -> slot_at (tab s) j e -> gen_ok gi ->
  let s' := with_tab (put (tab s) j (with_next f (with_bits (mkb gi false 0) e))) s in
  ready nsize s' g l F /\ grows s g s' g /\
  (∀ n r, has_now s' l F (dir (is_tree s')) n r <-> has_now s l F (dir (is_tree s)) n r).
Proof.
  intros [G R2 R3 R4 R5 R6] HF He Hgi. set (e' := with_next f (with_bits (mkb gi false 0) e)). cbn zeta.
  pose proof (slot_at_range _ _ _ He) as Hr.
  destruct (gw_fresh _ _ _ _ _ _ G j HF) as (Hjl & Hpos & y & gy & Hy & Ho & Hs).
  assert (y = e) as -> by (by eapply slot_at_fun). destruct Hs as (Eb & Hgy & Hl0).
  assert (Hnh : ¬ hashed (tab s) j).
  { intros Hh. destruct (gw_local _ _ _ _ _ _ G j Hh) as [_ Hn]. apply Hn. rewrite elem_of_app. by right. }
  assert (M : mild s j e e') by (split; [done..|]; by intros ?%Hnh).
  destruct G as [G1 G2 G3 G4 G5 G6 [[N1 N1a N1b N1c N1d N1e N1f] N2 N3 N4] G8].
  pose proof (write_kept s j e e' N1 M) as [K1 K2 K3 K4 K5 K6 K7 K8 K9 K10 K11].
  assert (Gr : grows s g (with_tab (put (tab s) j e') s) g)
    by (split; try done; intros obj m; unfold hash_name; by setoid_rewrite K11).
  assert (Hh : ∀ n r, has_now (with_tab (put (tab s) j e') s) l F (dir (is_tree s)) n r <->
    has_now s l F (dir (is_tree s)) n r).
  { intros n r. unfold has_now. cbn. rewrite (in_slot_put _ _ _ e) by done.
    assert (Hu : ¬ used (tab s) (l ++ F) j) by (intros [_ Hn]; apply Hn; rewrite elem_of_app; by right).
    split; (intros [H|H]; [left|by right]).
    - destruct H as [(? & ? & ? & _ & ? & _)|[_ ?]]; done.
    - right. split; [|done]. intros E. destruct H as (i & x & g2 & c2 & l2 & -> & Hui & _ & Hsx & _).
      rewrite index_of_name in E by apply Hsx. by subst i. }
  split; [|done]. split; cbn [with_tab set_is_hash is_tree]; try done.
  - split; cbn; try done.
    + eapply table_wf_used; try done; [lia|]. cbn. by apply mkb_range.
    + intros i Hi. destruct (G2 i Hi) as (? & ? & z & gz & Hz & ?). split; [done|]. split; [done|].
      destruct (decide (i = j)) as [->|Hne].
      * exists e', gi. split; [by apply slot_at_put_eq|]. split; done.
      * exists z, gz. split; [by apply slot_at_put_ne|done].
    + intros i z [[-> ->]|[Hne Hz]]%slot_at_put; [|by apply G5|done].
      cbn. rewrite collision_mkb by done. pose proof (G5 j e He) as H. rewrite Eb, collision_mkb in H by done. done.
    + intros n x z Hn Hni [[Hnj ->]|[Hne Hz]]%slot_at_put; [by rewrite Hnj in Hni|by apply (G6 n x z)|done].
    + split; try done.
      * split; try done; cbn; [|by rewrite put_length]. by eapply table_ok_put.
      * intros ? ? ? ? ?. rewrite !K11. apply N4.
    + intros i. rewrite (hashed_put _ _ _ e) by done. unfold used. rewrite put_length. apply G8.
  - cbn. rewrite put_length. done.
  - cbn. by rewrite put_length.
  - by eapply sends_now_step.
Qed.

Lemma ready_wf sizes nsize s g l F L f h :
  ready nsize s g l F -> next_ok sizes s nsize -> slot_at (tab s) 0 h -> chain (tab s) f (L ++ l) ->
  NoDup (L ++ l) -> (∀ j, j ∈ L <-> j ∈ F) ->
  let s' := with_tab (put (tab s) 0 (with_next f h)) s in
  space_wf sizes s' g (L ++ l) nsize /\ grows s g s' g /\
  (∀ n r, has_entry s' (L ++ l) n r <-> has_now s l F (dir (is_tree s)) n r).
Proof.
  intros [G R2 R3 R4 R5 R6] [H1 (k & H2 & H3)] Hh Hc Hnd HL. cbn zeta.
  pose proof (slot_at_range _ _ _ Hh) as Hr.
  destruct G as [G1 G2 G3 G4 G5 G6 [[N1 N1a N1b N1c N1d N1e N1f] N2 N3 N4] G8].
  assert (Hlist : ∀ j, j ∈ L ++ l <-> j ∈ l ++ F) by (intros j; rewrite !elem_of_app, HL; tauto).
  assert (Hnh : ¬ hashed (tab s) 0) by (intros [? _]%G8; lia).
  assert (M : mild s 0 h (with_next f h)) by (split; [done..|]; by intros ?%Hnh).
  pose proof (write_kept s 0 h _ N1 M) as [K1 K2 K3 K4 K5 K6 K7 K8 K9 K10 K11].
  split; [|split].
  - split.
    + split; [done|]. exists k. cbn. by rewrite put_length.
    + apply (table_wf_head _ _ G1); try done. intros i e Hi He. apply Hlist, elem_of_app in Hi as [Hi|Hi].
      * by apply (unused_slot _ _ _ _ G1 Hi He).
      * destruct (G2 i Hi) as (_ & _ & y & gy & Hy & ? & ?). assert (y = e) as -> by (by eapply slot_at_fun).
        split; [done|]. by exists gy.
    + split; cbn; try done.
      * by rewrite G3, dir_size.
      * intros n x Hx. by destruct (G4 n x Hx).
      * intros i e [[-> ->]|[Hne He]]%slot_at_put; [..|done].
        -- cbn. rewrite (G5 0 h Hh). split; [intros (n & x & ? & ? & _)|intros (n & x & ? & ?)]; by exists n, x.
        -- rewrite (G5 i e He). split; [intros (n & x & ? & ? & _)|intros (n & x & ? & ?)]; by exists n, x.
      * intros n x e Hx He. destruct (decide (MACH_PORT_INDEX n ∈ F)) as [HF|HF].
        -- destruct (G2 _ HF) as (_ & Hp & y & gy & Hy & _ & Hs). exfalso.
           assert (Hcl : truth (ie_bits y &&& IE_BITS_COLLISION) = true) by (apply (G5 _ y Hy); by exists n, x).
           destruct Hs as (Eb & Hgy & Hl). by rewrite Eb, collision_mkb in Hcl.
        -- apply slot_at_put in He as [[Hi ->]|[Hne He]]; [|by apply (G6 n x e)|done].
           apply (G6 n x h); [done..|]. by rewrite Hi.
      * by rewrite put_length.
    + apply names_wf_of. split.
      * split; try done.
        -- split; try done; cbn; [|by rewrite put_length]. by eapply table_ok_put.
        -- intros ? ? ? ? ?. rewrite !K11. apply N4.
      * intros i. cbn. rewrite (hashed_put _ _ _ h) by done. unfold used. rewrite put_length, Hlist. apply G8.
  - split; try done. intros obj m. unfold hash_name. by setoid_rewrite K11.
  - intros n r. unfold has_entry, has_now, in_tree. cbn.
    rewrite (in_slot_list (put _ _ _) (l ++ F) (L ++ l)) by done.
    assert (H : in_slot (put (tab s) 0 (with_next f h)) (l ++ F) n r <-> in_slot (tab s) (l ++ F) n r); [|by rewrite H].
    rewrite (in_slot_put _ _ _ h) by done. split.
    + intros [(? & ? & ? & _ & [? _] & _)|[_ ?]]; [lia|done].
    + intros H. right. split; [|done]. intros E. destruct H as (i & x & g2 & c2 & l2 & -> & [Hui _] & _ & Hsx & _).
      rewrite index_of_name in E by apply Hsx. lia.
Qed.

Section install.
Context {O : Type} (o : O) (sizes : list Z) (uninit : name_tree).

Lemma add_free_runs nsize osize g l F lk (Q : unit -> world O -> Prop) : ∀ n s f L,
  ready nsize s g l F -> next_ok sizes s nsize -> 0 < osize -> osize + Z.of_nat n <= zlen (tab s) ->
  (∀ j y, osize <= j < osize + Z.of_nat n -> slot_at (tab s) j y ->
     (j ∈ F /\ ie_bits y = 0) \/ ((j ∉ F) /\ ie_bits y <> 0)) ->
  (∀ j, j ∈ F -> osize <= j) -> chain (tab s) f (L ++ l) -> NoDup (L ++ l) ->
  (∀ j, j ∈ L <-> j ∈ F /\ osize + Z.of_nat n <= j) ->
  (∀ s' l', space_wf sizes s' g l' nsize -> grows s g s' g -> framed s s' ->
     (∀ n r, has_entry s' l' n r <-> has_now s l F (dir (is_tree s)) n r) -> Q tt (World s' lk g o)) ->
  runs (add_free n osize f) Q (World s lk g o).
Proof.
  induction n as [|n IH]; intros s f L R Hnext Hos Hn Hslots Hfree Hc Hnd HL HQ.
  - cbn [add_free]. pose proof (rd_wf _ _ _ _ _ R) as G.
    destruct (slot_at_some (tab s) 0) as [h Hh]; [lia|]. apply (s_set _ 0 h); [done|].
    destruct (ready_wf sizes nsize s g l F L f h) as (W & Gr & Hhas); try done.
    { intros j. rewrite HL. split; [tauto|]. intros Hj. split; [done|]. specialize (Hfree j Hj). lia. }
    eapply HQ; [exact W|done|split; try done; cbn; by rewrite put_length|done].
  - cbn [add_free]. cbv zeta. set (i := osize + Z.of_nat n) in *.
    destruct (slot_at_some (tab s) i) as [y Hy]; [lia|].
    apply runs_bind, (s_read i y); [done|].
    destruct (Hslots i y) as [[HF Hb]|[HF Hb]]; [lia|done| |].
    + rewrite Hb. cbn [Z.eqb]. apply runs_bind, (s_write i y); [done|].
      assert (Hg : gen_ok 255) by (unfold gen_ok; lia).
      destruct (fresh_step nsize s g l F i y 255 f R HF Hy Hg) as (R' & Gr & Hhas).
      change (mkb 255 false 0) with IE_BITS_GEN_MASK in *.
      set (s1 := with_tab (put (tab s) i (with_next f (with_bits IE_BITS_GEN_MASK y))) s) in *.
      assert (Hlen : zlen (tab s1) = zlen (tab s)) by (cbn; by rewrite put_length).
      assert (HiL : i ∉ L ++ l).
      { rewrite elem_of_app, HL. intros [[_ ?]|Hl]; [lia|].
        by destruct (gw_fresh _ _ _ _ _ _ (rd_wf _ _ _ _ _ R) i HF). }
      apply (IH s1 i (i :: L)); try done.
      * destruct Hnext as [H1 (k & H2 & H3)]. split; [done|]. exists k. by rewrite Hlen.
      * rewrite Hlen. lia.
      * intros j z Hj. cbn. intros [[-> ->]|[Hne Hz]]%slot_at_put; [lia| |lia]. apply Hslots; [lia|done].
      * split; [done|]. split; [lia|]. eexists. split; [apply slot_at_put_eq; lia|]. cbn.
        apply chain_put; [lia|done..].
      * cbn [app]. by apply NoDup_cons.
      * intros j. rewrite elem_of_cons, HL. split; [intros [->|[? ?]]; split; try done; lia|].
        intros [Hj ?]. destruct (decide (j = i)); [auto|right]. split; [done|lia].
      * intros s' l' W Gr2 Fr2 Hhas2. eapply HQ; [exact W|by eapply grows_trans| |].
        -- eapply framed_trans; [|exact Fr2]. by split.
        -- intros m r. by rewrite Hhas2, Hhas.
    + rewrite (proj2 (Z.eqb_neq _ 0)) by done. apply (IH s f L); try done.
      * lia.
      * intros j z Hj Hz. apply Hslots; [lia|done].
      * intros j. rewrite HL. split; intros [Hj ?]; (split; [done|]); [lia|].
        destruct (decide (j = i)) as [->|]; [done|lia].
Qed.

(** The names of the space have types. *)
Definition typed (s : ipc_space) (l : list Z) : Prop :=
  ∀ n r, has_entry s l n r -> IE_BITS_TYPE (IpcStore.ie_bits r) <> 0.

(** What growing keeps, but for the size. *)
Record grown (s : ipc_space) (g : buckets) (l : list Z) (s' : ipc_space) (g' : buckets) (l' : list Z) : Prop := {
  gn_grows : grows s g s' g';
  gn_has n r : has_entry s' l' n r <-> has_entry s l n r }.

(** The old entries are in the reverse hash table of the wider table. *)
Lemma start_rehash s lk g l next size nits (Q : unit -> world O -> Prop) :
  space_wf sizes s g l next -> sends_ok s g l -> zlen (tab s) < size < 2 ^ 24 ->
  let s1 := set_is_table_next nits (set_table (widened size (tab s)) size s) in
  (∀ t, table_ok t -> same_entries (widened size (tab s)) t ->
     (∀ j, hashed t j <-> 0 <= j < zlen (tab s) /\ sends_at (widened size (tab s)) j) ->
     Q tt (World (with_tab t s1) lk g o)) ->
  runs (rehash (Z.to_nat (zlen (tab s))) 0) Q (World s1 lk g o).
Proof.
  intros W S Hsize s1 HQ. pose proof (table_range _ _ _ _ _ W) as Hos.
  assert (Hw : zlen (widened size (tab s)) = size) by (apply widened_length; lia).
  apply rehash_runs; cbn [s1 set_is_table_next set_table set_is_hash is_hash is_table is_table_size];
    rewrite ?Hw; try lia.
  - apply widened_ok; lia.
  - intros j e [(y & Hy & ->)|[_ ->]]%widened_at Hty; [|done]. cbn in Hty.
    apply (sends_slot sizes s g l next W S j y Hy) in Hty.
    pose proof (hashed_range _ _ (space_table_ok _ _ _ _ _ W) Hty). split; [|lia]. cbn. intros Ho.
    by eapply null_not_hashed in Hty.
  - intros j Hj. by apply widened_not_hashed in Hj.
  - intros t Hok Hsame Hh. apply HQ; [done..|]. intros j. rewrite Hh.
    split; [intros [Hj|[Hj Hs]]; [by apply widened_not_hashed in Hj|]|intros [Hj Hs]; right]; (split; [lia|done]).
Qed.

(** The work on the tree of the space that has its wider table, if the tree has entries. *)
Lemma start_settles s lk g l next size nits nsize t (Q : unit -> world O -> Prop) :
  space_wf sizes s g l next -> sends_ok s g l -> typed s l ->
  zlen (tab s) < size < 2 ^ 24 -> size <= nsize < 2 ^ 24 ->
  table_ok t -> same_entries (widened size (tab s)) t ->
  (∀ j, hashed t j <-> 0 <= j < zlen (tab s) /\ sends_at (widened size (tab s)) j) ->
  let s2 := with_tab t (set_is_table_next nits (set_table (widened size (tab s)) size s)) in
  (∀ s3 g3 F3, settled (zlen (tab s)) nsize s3 g3 l F3 -> grows s g s3 g3 ->
     is_table_next s3 = nits -> zlen (tab s3) = size ->
     (∀ n r, has_now s3 l F3 (dir (is_tree s3)) n r <-> has_entry s l n r) -> Q tt (World s3 lk g3 o)) ->
  runs (if 0 <? is_tree_total (is_hash s2) then grow_tree uninit (zlen (tab s)) size nsize else mret tt)
    Q (World s2 lk g o).
Proof.
  intros W S Ty Hsize Hnsize Hok Hsame Hh s2 HQ. pose proof (table_range _ _ _ _ _ W) as Hos.
  pose proof (sw_tree _ _ _ _ _ W) as [T1 T2 T3 T4 T5 T6 T7].
  pose proof (start_wf sizes s g l next W S size Hsize t Hok Hsame Hh s2 _ eq_refl) as G.
  pose proof (start_grows sizes s g l next W S size t Hok Hsame Hh s2 _ eq_refl) as Gr.
  pose proof (start_has sizes s g l next W size Hsize t Hsame s2 _ eq_refl) as Hhas.
  pose proof (start_length s size Hsize t Hsame) as Hlen. set (F := new_part s size) in *.
  assert (Hsends : sends_now s2 g l F (dir (is_tree s))).
  { intros n r Hr%Hhas. rewrite (S n r Hr). destruct Gr as [_ _ _ _ Hn]. by setoid_rewrite Hn. }
  assert (Hnew : ∀ j, zlen (tab s) <= j -> (j ∉ l)).
  { intros j Hj Hl. pose proof (free_range _ _ (sw_table _ _ _ _ _ W) j Hl). lia. }
  assert (HF : ∀ j, j ∈ F <-> zlen (tab s) <= j < size) by (intros j; unfold F, new_part; rewrite elem_of_seqZ; lia).
  assert (Hslots : ∀ j y, zlen (tab s) <= j -> slot_at t j y ->
    (j ∈ F /\ ie_bits y = 0) \/ ((j ∉ F) /\ IE_BITS_TYPE (ie_bits y) <> 0)).
  { intros j y Hj Hy. left. assert (HjF : j ∈ F) by (apply HF; pose proof (slot_at_range _ _ _ Hy); lia).
    split; [done|]. eapply (start_zero s size t Hsame j y); done. }
  destruct (Z.ltb_spec 0 (is_tree_total (is_hash s2))) as [Hpos|Hz]; cbn in *.
  - assert (Hfast : is_fast (is_hash s) = false).
    { destruct (is_fast (is_hash s)) eqn:Hf; [|done]. rewrite T2, (T7 eq_refl) in Hpos. by cbn in Hpos. }
    replace size with (zlen (tab s2)) by done.
    apply (grow_tree_runs o uninit (zlen (tab s)) nsize l s2 lk g F); cbn; rewrite ?Hlen; try done; try lia.
    + intros n x Hx. apply (Ty n (tree_right x)). right. by exists x.
    + intros j [Hj _]%HF. done.
    + intros s3 g3 F3 Se Gr3 Hnx Hl3 Hhas3. apply (HQ s3 g3 F3); try done; [by eapply grows_trans|].
      intros n r. by rewrite Hhas3, Hhas.
  - apply runs_ret. assert (Hc0 : contents (is_tree s) = []) by (rewrite T2 in Hz; destruct (contents (is_tree s)); [done|cbn in Hz; lia]).
    assert (Hd0 : dir (is_tree s) = ∅) by (unfold dir; by rewrite Hc0).
    apply (HQ s2 g F); try done. split; [split| | |]; try done.
    + apply (grow_wf_past _ _ _ _ _ _ _ G). intros n x Hx. by rewrite Hd0, lookup_empty in Hx.
    + change (is_tree_small s2) with (is_tree_small s). by rewrite T6, !small_empty.
    + intros j [Hj _]%HF. done.
Qed.

(** The unused slots of the settled table join the free list. *)
Lemma settled_fill osize nsize size nits s lk g l F (Q : unit -> world O -> Prop) :
  settled osize nsize s g l F -> is_table_next s = Datatypes.S nits -> sizes !! nits = Some size ->
  sizes !! Datatypes.S nits = Some nsize -> zlen (tab s) = size -> 0 < osize < size ->
  (∀ s' l', space_wf sizes s' g l' nsize -> grows s g s' g -> framed s s' ->
     (∀ n r, has_entry s' l' n r <-> has_now s l F (dir (is_tree s)) n r) -> Q tt (World s' lk g o)) ->
  runs (head ← table_read 0; add_free (Z.to_nat (size - osize)) osize (ie_next head)) Q (World s lk g o).
Proof.
  intros [R Hn Hf Hs] Hnx Hs1 Hs2 Hlen Hos HQ.
  destruct (tw_head _ _ (gw_table _ _ _ _ _ _ (rd_wf _ _ _ _ _ R))) as (h & Hh0 & Hc).
  apply runs_bind, (s_read 0 h); [done|].
  apply (add_free_runs nsize osize g l F lk Q _ s _ []); try done.
  - split; [by rewrite Hnx|]. exists nits. split; [done|]. by rewrite Hlen.
  - lia.
  - lia.
  - intros j y [Hj _] Hy. destruct (Hs j y Hj Hy) as [?|[? Ht]]; [by left|right]. split; [done|].
    intros E. by rewrite E in Ht.
  - apply (tw_nodup _ _ (gw_table _ _ _ _ _ _ (rd_wf _ _ _ _ _ R))).
  - intros j. split; [by intros ?%elem_of_nil|]. intros [Hj Hge]. exfalso.
    destruct (gw_fresh _ _ _ _ _ _ (rd_wf _ _ _ _ _ R) j Hj) as (_ & _ & y & _ & Hy & _).
    pose proof (slot_at_range _ _ _ Hy). lia.
Qed.

Lemma install_table_runs s lk g l next size nits nsize (Q : unit -> world O -> Prop) :
  space_wf sizes s g l next -> sends_ok s g l -> typed s l ->
  zlen (tab s) < size < 2 ^ 24 -> size <= nsize < 2 ^ 24 ->
  sizes !! nits = Some size -> sizes !! S nits = Some nsize ->
  (∀ s' g' l', space_wf sizes s' g' l' nsize -> grown s g l s' g' l' ->
     is_table_next s' = S nits -> zlen (tab s') = size -> Q tt (World s' lk g' o)) ->
  runs (install_table uninit (zlen (tab s)) size nsize (S nits)) Q (World s lk g o).
Proof.
  intros W S Ty Hsize Hnsize Hs1 Hs2 HQ. pose proof (table_range _ _ _ _ _ W) as Hos.
  unfold install_table. apply runs_bind, s_of_space, runs_bind, s_set_space, runs_bind, s_set_space.
  apply runs_bind, (start_rehash s lk g l next size); [done..|]. intros t Hok Hsame Hh. set (s2 := with_tab t _).
  apply runs_bind, s_of_space, runs_bind, runs_assert.
  { change (negb (is_fast (is_hash s)) || (is_tree_total (is_hash s) =? 0) = true).
    pose proof (sw_tree _ _ _ _ _ W) as [_ T2 _ _ _ _ T7].
    destruct (is_fast (is_hash s)) eqn:Hf; [|done]. apply Z.eqb_eq. by rewrite T2, (T7 eq_refl). }
  apply runs_bind, (start_settles s lk g l next size (Datatypes.S nits) nsize t); try done.
  intros s3 g3 F3 Se Gr3 Hnx Hl3 Hhas3.
  apply (settled_fill (zlen (tab s)) nsize size nits s3 lk g3 l F3); try done; [lia|].
  intros s4 l4 W4 Gr4 Fr4 Hhas4. eapply HQ; [exact W4| | |].
  - split; [by eapply grows_trans|]. intros n r. by rewrite Hhas4, Hhas3.
  - by rewrite (fr_next _ _ Fr4), Hnx.
  - by rewrite (fr_size _ _ Fr4).
Qed.
End install.

End IpcEntryGrow.
