(* ===== verification/IpcEntryAlloc.v ===== *)
(** Allocations of entries while other threads work on the space: growing, [ipc_entry_alloc] and
    [ipc_entry_alloc_name] end, and what they return is an entry of the space. *)

From S2P Require Import Prelude.
From S2P Require Import IpcSplay.
From S2P Require Import IpcHash.
From S2P Require Import IpcTable.
From S2P Require Import IpcStore.
From S2P Require Import IpcEntry.
From S2P Require Import IpcEntrySpec.
From S2P Require Import IpcEntryOps.
From S2P Require Import IpcEntryGrow.
Import IpcSplay.IpcSplay.
Import IpcHash.IpcHash.
Import IpcTable.IpcTable.
Import IpcEntry.IpcEntry.
Import IpcEntrySpec.IpcEntrySpec.
Import IpcEntryOps.IpcEntryOps.
Import IpcEntryGrow.IpcEntryGrow.

Module IpcEntryAlloc.

(** * The invariant while the lock is free *)

Record space_inv (sizes : list Z) (s : ipc_space) (g : buckets) (l : list Z) (next : Z) : Prop := {
  si_wf : space_wf sizes s g l next;
  si_sends : sends_ok s g l;
  si_typed : typed s l }.

Definition same_names (s : ipc_space) (l : list Z) (s' : ipc_space) (l' : list Z) : Prop :=
  ∀ n r, has_entry s' l' n r <-> has_entry s l n r.

(** The fields that the invariant is about. *)
Record same_fields (s s' : ipc_space) : Prop := {
  sf_hash : is_hash s' = is_hash s;
  sf_next : is_table_next s' = is_table_next s;
  sf_tree : is_tree s' = is_tree s;
  sf_small : is_tree_small s' = is_tree_small s }.

Lemma same_fields_inv sizes s s' g l next : same_fields s s' ->
  space_inv sizes s g l next -> space_inv sizes s' g l next /\ same_names s l s' l.
Proof.
  intros [E1 E2 E3 E4] [[W1 W2 [T1 T2 T3 T4 T5 T6 T7] [N1 N2 N3 N4 N5]] S T].
  assert (H : same_names s l s' l) by (intros n r; unfold has_entry, in_tree; by rewrite E1, E3).
  split; [|done]. split.
  - split.
    + unfold next_ok. by rewrite E1, E2.
    + by rewrite E1.
    + split; unfold tree_index, small_indices; rewrite ?E1, ?E3, ?E4; try done.
    + split; rewrite ?E1, ?E3; done.
  - intros n r Hr%H. rewrite (S n r Hr). unfold hash_name. by rewrite E1.
  - intros n r Hr%H. by apply (T n r).
Qed.

Lemma grown_inv sizes s g l s' g' l' next next' : grown s g l s' g' l' -> space_wf sizes s' g' l' next' ->
  space_inv sizes s g l next -> space_inv sizes s' g' l' next'.
Proof.
  intros [[_ _ _ _ Hn] Hh] W' [W S T]. split; [done| |].
  - intros n r Hr%Hh. rewrite (S n r Hr). by setoid_rewrite Hn.
  - intros n r Hr%Hh. by apply (T n r).
Qed.

(** * Other threads *)

(** What other threads do when the lock is free: [R] tells what they do to the entries, and
    holds when they do nothing to them.  They keep the invariant of a live space, leave a dead
    one dead, do not shrink the table, and do not grow it while this thread does.  A thread that
    sleeps on a growing space wakes up when the table has grown or an attempt to grow it has
    failed; [patience] bounds the number of such failures. *)
Class Environment {O : Type} (sizes : list Z) (others : pause -> world O -> world O)
    (R : ipc_space -> list Z -> ipc_space -> list Z -> Prop) (patience : O -> nat) : Prop := {
  en_same s l s' l' : same_names s l s' l' -> R s l s' l';
  en_trans s1 l1 s2 l2 s3 l3 : R s1 l1 s2 l2 -> R s2 l2 s3 l3 -> R s1 l1 s3 l3;
  en_dead why s g o s' lk g' o' : others why (World s false g o) = World s' lk g' o' ->
    is_active s = false -> is_active s' = false;
  en_step why s g l next o s' lk g' o' : others why (World s false g o) = World s' lk g' o' ->
    space_inv sizes s g l next -> is_active s' = true ->
    is_fast (is_hash s') = is_fast (is_hash s) /\
    (is_table_next s <= is_table_next s')%nat /\ (patience o' <= patience o)%nat /\
    ∃ l' next', space_inv sizes s' g' l' next' /\ R s l s' l';
  en_growing s g l next o s' lk g' o' : others Growing (World s false g o) = World s' lk g' o' ->
    space_inv sizes s g l next -> is_growing s = true -> is_active s' = true ->
    is_table_next s' = is_table_next s;
  en_sleep s g l next o s' lk g' o' : others Sleeping (World s false g o) = World s' lk g' o' ->
    space_inv sizes s g l next -> is_growing s = true -> is_active s' = true ->
    (is_table_next s < is_table_next s')%nat \/ (patience o' < patience o)%nat }.

Section alloc.
Context {O : Type} (others : pause -> world O -> world O).
Context (table_alloc : world O -> bool) (ite_alloc : world O -> option Z).
Context (sizes : list Z) `{!EntrySizes sizes} (uninit : name_tree).
Context (R : ipc_space -> list Z -> ipc_space -> list Z -> Prop) (patience : O -> nat).
Context `{!Environment sizes others R patience}.

(** The space, held, after others ran: if it is alive it has the invariant. *)
Definition held (s0 : ipc_space) (l0 : list Z) (o0 : O) (s : ipc_space) (g : buckets) (o : O) : Prop :=
  is_active s = true -> is_fast (is_hash s) = is_fast (is_hash s0) /\
    (is_table_next s0 <= is_table_next s)%nat /\ (patience o <= patience o0)%nat /\
    ∃ l next, space_inv sizes s g l next /\ R s0 l0 s l.

(** The table has grown, or the patience. *)
Definition progress (s0 : ipc_space) (o0 : O) (s : ipc_space) (o : O) : Prop :=
  is_active s = true -> (is_table_next s0 < is_table_next s)%nat \/ (patience o < patience o0)%nat.

(** The number of passes that are enough for a loop that grows the table. *)
Definition passes (b : nat) (s : ipc_space) (o : O) : Prop :=
  (length sizes + patience o <= b + is_table_next s)%nat.

Lemma held_trans s0 l0 o0 s l o s' g' o' : is_fast (is_hash s) = is_fast (is_hash s0) ->
  (is_table_next s0 <= is_table_next s)%nat -> (patience o <= patience o0)%nat -> R s0 l0 s l ->
  held s l o s' g' o' -> held s0 l0 o0 s' g' o'.
Proof.
  intros Hf Hi Hp HR H Ha. destruct (H Ha) as (A1 & A2 & A3 & l' & next & I & R').
  split; [by rewrite A1|]. split; [lia|]. split; [lia|]. exists l', next. split; [done|]. by eapply en_trans.
Qed.

Lemma held_passes s0 l0 o0 b s g o : held s0 l0 o0 s g o -> progress s0 o0 s o -> passes (S b) s0 o0 ->
  is_active s = true -> passes b s o.
Proof. intros H P Hb Ha. destruct (H Ha) as (_ & ? & ? & _). destruct (P Ha); unfold passes in *; lia. Qed.

(** Taking the lock. *)
Lemma lock_runs why s g l next o (Q : unit -> world O -> Prop) : space_inv sizes s g l next ->
  (∀ s' g' o', held s l o s' g' o' -> (why = Sleeping -> is_growing s = true -> progress s o s' o') ->
     Q tt (World s' true g' o')) ->
  runs (is_write_lock others why) Q (World s false g o).
Proof.
  intros I HQ. apply s_lock. intros s' lk' g' o' E. apply HQ.
  - intros Ha. exact (en_step _ _ _ _ _ _ _ _ _ _ E I Ha).
  - intros -> Hg Ha. exact (en_sleep _ _ _ _ _ _ _ _ _ E I Hg Ha).
Qed.

Lemma next_its s next : next_ok sizes s next -> ∃ k, is_table_next s = S k /\ sizes !! k = Some (zlen (tab s)) /\
  sizes !! S k = Some next.
Proof. intros [H1 (k & H2 & H3)]. exists k. by rewrite <- H2. Qed.

Lemma passes_more b s o : passes b s o -> passes (S b) s o.
Proof. unfold passes. lia. Qed.

Lemma passes_pos s g l next o b : space_inv sizes s g l next -> passes b s o -> (0 < b)%nat.
Proof.
  intros I H. destruct (next_its s next (sw_next _ _ _ _ _ (si_wf _ _ _ _ _ I))) as (k & Hk & _ & Hk2).
  apply lookup_lt_Some in Hk2. unfold passes in H. lia.
Qed.

(** ** [ipc_entry_grow_table] without a target *)

Lemma grow_runs : ∀ fuel s g l next o (Q : Z -> world O -> Prop),
  space_inv sizes s g l next -> is_active s = true -> passes fuel s o ->
  (∀ s' g' o', held s l o s' g' o' -> progress s o s' o' -> Q KERN_SUCCESS (World s' true g' o')) ->
  (∀ s' g' o', Q KERN_RESOURCE_SHORTAGE (World s' false g' o')) ->
  (zlen (tab s) = next -> Q KERN_NO_SPACE (World s false g o)) ->
  runs (ipc_entry_grow_table others table_alloc sizes uninit fuel ITS_SIZE_NONE) Q (World s true g o).
Proof.
  induction fuel as [|fuel IH]; intros s g l next o Q I Ha Hfuel Hok Hshort Hfull.
  { pose proof (passes_pos _ _ _ _ _ _ I Hfuel). lia. }
  pose proof (si_wf _ _ _ _ _ I) as W. pose proof (sw_next _ _ _ _ _ W) as Hnext.
  destruct (next_its s next Hnext) as (k & Hk & Hk1 & Hk2).
  pose proof (es_range _ _ Hk2) as Hr2. pose proof (es_le _ _ _ Hk1 Hk2) as Hle.
  cbn [ipc_entry_grow_table]. apply runs_bind, s_of_space, runs_bind, runs_assert; [done|]. cbn [id].
  destruct (is_growing s) eqn:Hgr.
  { apply runs_bind. unfold is_write_sleep. apply runs_bind, s_unlock, (lock_runs Sleeping s g l next o); [done|].
    intros s' g' o' H P. apply runs_ret, Hok; [done|]. by apply P. }
  rewrite Hk. cbn [orb andb negb].
  apply runs_bind, (s_deref _ next); [done|]. apply runs_bind, (s_deref _ (zlen (tab s))); [done|].
  change (negb (ITS_SIZE_NONE =? ITS_SIZE_NONE)) with false. cbn [andb].
  apply runs_bind, runs_ret. destruct (Z.eqb_spec (zlen (tab s)) next) as [Efull|Hne].
  { apply runs_bind, s_unlock, runs_ret. by apply Hfull. }
  destruct (es_more _ _ _ Hk1 Hk2) as [nsize Hk3]; [lia|].
  pose proof (es_le _ _ _ Hk2 Hk3) as Hle2. pose proof (es_range _ _ Hk3) as Hr3.
  apply runs_bind, (s_deref _ next); [done|]. apply runs_bind, (s_deref _ nsize); [done|].
  apply runs_bind, runs_assert; [apply andb_true_intro; split; [apply Z.ltb_lt|apply Z.leb_le]; lia|].
  apply runs_bind, s_set_space, runs_bind, s_unlock, runs_bind, runs_gets.
  set (s1 := set_is_growing true s).
  destruct (same_fields_inv sizes s s1 g l next) as [I1 Hn1]; [done..|].
  apply runs_bind, s_lock. intros s2 lk2 g2 o2 E2. apply runs_bind, s_set_space.
  destruct (negb (table_alloc _)); [by apply runs_bind, s_unlock, runs_ret, Hshort|].
  apply runs_bind, s_of_space. cbn [set_is_growing is_active].
  destruct (is_active s2) eqn:Ha2; cbn [negb].
  2: { apply runs_bind, s_unlock, runs_bind, s_lock. intros s3 lk3 g3 o3 E3.
       apply runs_ret, Hok; intros Ha3; by rewrite (en_dead _ _ _ _ _ _ _ _ E3) in Ha3. }
  destruct (en_step _ _ _ _ _ _ _ _ _ _ E2 I1 Ha2) as (Hf2 & _ & Hp2 & l2 & next2 & I2 & R2).
  pose proof (en_growing _ _ _ _ _ _ _ _ _ E2 I1 eq_refl Ha2) as Hsame.
  cbn [s1 set_is_growing is_table_next is_growing is_hash] in *.
  set (s3 := set_is_growing false s2).
  destruct (same_fields_inv sizes s2 s3 g2 l2 next2) as [I3 Hn3]; [done..|].
  pose proof (si_wf _ _ _ _ _ I3) as W3.
  destruct (next_its s3 next2 (sw_next _ _ _ _ _ W3)) as (k' & Hk' & Hk1' & Hk2').
  assert (Hkk : k' = k) by (cbn [s3 set_is_growing is_table_next] in Hk'; congruence). subst k'.
  assert (Hlen : zlen (tab s3) = zlen (tab s)) by congruence.
  apply runs_bind, s_of_space, runs_bind, runs_assert.
  { change ((is_table_next s3 =? S k)%nat || false = true). by rewrite Hk', Nat.eqb_refl. }
  apply runs_bind, runs_assert.
  { apply Z.eqb_eq. change (is_table_size (is_hash s3) = zlen (tab s)). by rewrite (table_size _ _ _ _ _ W3). }
  apply runs_bind. rewrite <- Hlen.
  apply (install_table_runs o2 sizes uninit s3 true g2 l2 next2 next (S k) nsize);
    [apply I3|apply I3|apply I3|lia|lia|done|done|].
  intros s4 g4 l4 W4 Gn4 Hnx4 Hl4. pose proof (grown_inv _ _ _ _ _ _ _ _ _ Gn4 W4 I3) as I4.
  assert (R4 : R s l s4 l4).
  { eapply en_trans; [by apply en_same, Hn1|]. eapply en_trans; [exact R2|].
    eapply en_trans; [by apply en_same, Hn3|]. apply en_same. intros n r. apply (gn_has _ _ _ _ _ _ Gn4). }
  assert (Hf4 : is_fast (is_hash s4) = is_fast (is_hash s)) by (by rewrite (gr_fast _ _ _ _ (gn_grows _ _ _ _ _ _ Gn4))).
  apply runs_bind, s_unlock, runs_bind. apply (lock_runs Locking s4 g4 l4 nsize o2); [done|].
  intros s5 g5 o5 H5 _. apply runs_bind, s_of_space. cbn [id].
  assert (H5' : held s l o s5 g5 o5) by (eapply held_trans; [done|lia|exact Hp2|done|done]).
  assert (P5 : progress s o s5 o5) by (intros Ha5; destruct (H5 Ha5) as (_ & ? & _); lia).
  destruct (is_active s5) eqn:Ha5; cbn [negb orb]; [|by apply runs_ret, Hok].
  destruct (Nat.eqb_spec (is_table_next s5) (S (S k))) as [E5|]; cbn [negb]; [|by apply runs_ret, Hok].
  destruct (H5' Ha5) as (A1 & A2 & A3 & l5 & next5 & I5 & R5).
  destruct (_ && _) eqn:Eagain; [|by apply runs_ret, Hok].
  apply (IH s5 g5 l5 next5 o5); [done|done|by apply (held_passes s l o _ _ g5 _ H5')| | |].
  - intros s6 g6 o6 H6 P6. apply Hok; [by eapply held_trans; [..|exact H6]|].
    intros Ha6. destruct (H6 Ha6) as (_ & ? & ? & _). lia.
  - done.
  - intros Hfull5. exfalso. apply andb_true_iff in Eagain as [Hsm _]. apply Z.ltb_lt in Hsm.
    pose proof (tr_small _ _ (sw_tree _ _ _ _ _ (si_wf _ _ _ _ _ I5))) as Es.
    assert (E0 : small_indices s5 (zlen (tab s5)) next5 = ∅).
    { apply set_eq. intros j. rewrite elem_small. split; [intros [? _]; lia|by intros ?%elem_of_empty]. }
    rewrite E0, size_empty in Es. lia.
Qed.

(** ** Steps of [ipc_entry_alloc_name] *)

Lemma find_previous_spec t l1 : ∀ fuel i f l2, chain t i (l1 ++ f :: l2) -> NoDup (l1 ++ f :: l2) ->
  (length l1 < fuel)%nat -> ∀ p h, slot_at t p h -> ie_next h = i ->
  find_previous fuel t p f = Some (default p (last l1)).
Proof.
  induction l1 as [|j l1 IH]; intros [|fuel] i f l2 Hc Hnd Hf p h [Hp Hh] Hi; try (simpl in Hf; lia).
  - cbn [find_previous]. rewrite (proj2 (Z.leb_le 0 p)), Hh by done. cbn [mbind option_bind].
    destruct Hc as (-> & _). by rewrite Hi, Z.eqb_refl.
  - cbn [find_previous]. rewrite (proj2 (Z.leb_le 0 p)), Hh by done. cbn [mbind option_bind].
    destruct Hc as (-> & Hj & e & He & Hc). cbn [app] in Hnd. apply NoDup_cons in Hnd as [Hn Hnd].
    rewrite (proj2 (Z.eqb_neq _ _)).
    + rewrite Hi. rewrite (IH fuel _ f l2 Hc Hnd ltac:(simpl in Hf; lia) j e He eq_refl).
      f_equal. destruct l1 as [|k l1]; [done|]. rewrite !last_cons_cons. by destruct (last (k :: l1)) eqn:E; [|apply last_None in E].
    + rewrite Hi. intros ->. apply Hn. rewrite elem_of_app. right. by left.
Qed.

Section name.
Context (n : Z) (Hn : in_range 32 n) (Hpos : 0 < MACH_PORT_INDEX n) (Hlarge : n <> MACH_PORT_LARGEST).

Lemma take_free_runs s lk g l next o (Q : unit -> world O -> Prop) :
  space_wf sizes s g l next -> MACH_PORT_INDEX n ∈ l ->
  (∀ s' l', space_wf sizes s' g l' next -> kept s s' -> adds_entry s l s' l' n new_right ->
     pointee s' l' n (PTable (MACH_PORT_INDEX n)) new_right -> Q tt (World s' lk g o)) ->
  runs (take_free (MACH_PORT_INDEX n) (MACH_PORT_GEN n)) Q (World s lk g o).
Proof.
  intros W Hl HQ. destruct (name_split n Hn) as (f & gn & En & Hf & Hgn).
  assert (Hi : MACH_PORT_INDEX n = f) by (rewrite En; by apply index_of_name).
  assert (Hg : MACH_PORT_GEN n = mkb gn false 0) by (rewrite En, gen_of_name by done; unfold mkb; cbn [Z.b2z]; lia).
  rewrite Hi, Hg in *. apply list_elem_of_split in Hl as (l1 & l2 & ->).
  pose proof (taken_range _ _ _ _ _ _ _ W) as Hr. destruct (slot_at_some (tab s) f) as [e He]; [lia|].
  destruct (unlink_wf _ _ _ _ _ _ _ W e He) as (hp & Hp & Hpf & Hne & W1 & K1).
  destruct (take_wf _ _ _ _ _ _ _ W e He hp gn Hp Hne Hgn W1 K1) as (He1 & W2 & K2 & Hadd & He2 & Hpt).
  destruct (taken_unused _ _ _ _ _ _ _ W e He) as [Ho _].
  destruct (tw_head _ _ (sw_table _ _ _ _ _ W)) as (h & Hh & Hc).
  pose proof (tw_nodup _ _ (sw_table _ _ _ _ _ W)) as Hnd.
  assert (Hlen : (length l1 < length (tab s))%nat).
  { pose proof (chain_pos _ _ _ Hc) as Hall.
    assert (Hle : (length (l1 ++ f :: l2) <= length (seqZ 0 (zlen (tab s))))%nat).
    { apply submseteq_length, NoDup_submseteq; [done|]. intros j Hj. rewrite Forall_forall in Hall.
      apply elem_of_seqZ. specialize (Hall j Hj). lia. }
    rewrite length_app, length_seqZ in Hle. simpl in Hle. lia. }
  unfold take_free. apply runs_bind, s_of_space.
  apply runs_bind, (s_deref _ (before l1)); [by eapply find_previous_spec|].
  apply runs_bind, (s_read f e); [done|]. apply runs_bind, (s_set _ _ hp); [done|].
  apply runs_bind, (s_set _ f e); [exact He1|].
  apply runs_bind, (s_read f (with_request 0 (with_bits (mkb gn false 0) e))); [exact He2|].
  apply runs_assert; [by apply Z.eqb_eq|]. rewrite <- En in Hadd, Hpt. by eapply HQ.
Qed.

(** The slot of the name is not for it: it is beyond the table or another name has it. *)
Definition slot_taken (s : ipc_space) (l : list Z) : Prop :=
  zlen (tab s) <= MACH_PORT_INDEX n \/
  ∃ e g1 c low, slot_at (tab s) (MACH_PORT_INDEX n) e /\ slot_is e g1 c low /\ used (tab s) l (MACH_PORT_INDEX n) /\
    g1 * 2 ^ 24 <> MACH_PORT_GEN n.

Lemma alloc_in_table_runs s lk g l next o (fresh : bool) (Q : option eptr -> world O -> Prop) :
  space_inv sizes s g l next ->
  (fresh = false -> is_fast (is_hash s) = false /\ ∀ r, ~ has_entry s l n r) ->
  (∀ r, pointee s l n (PTable (MACH_PORT_INDEX n)) r ->
     Q (Some (PTable (MACH_PORT_INDEX n))) (World s lk g o)) ->
  (∀ s' l', space_wf sizes s' g l' next -> kept s s' -> adds_entry s l s' l' n new_right ->
     pointee s' l' n (PTable (MACH_PORT_INDEX n)) new_right ->
     Q (Some (PTable (MACH_PORT_INDEX n))) (World s' lk g o)) ->
  (slot_taken s l -> Q None (World s lk g o)) ->
  runs (alloc_in_table n fresh) Q (World s lk g o).
Proof.
  intros [W S T] Hfresh Hfound Hnew Htaken.
  destruct (name_split n Hn) as (f & gn & En & Hf & Hgn).
  assert (Hi : MACH_PORT_INDEX n = f) by (rewrite En; by apply index_of_name).
  unfold alloc_in_table. apply runs_bind, s_of_space. rewrite (table_size _ _ _ _ _ W).
  destruct (Z.ltb_spec (MACH_PORT_INDEX n) (zlen (tab s))) as [Hlt|Hge]; cbn [negb].
  2: { apply runs_ret, Htaken. by left. }
  destruct (slot_at_some (tab s) (MACH_PORT_INDEX n)) as [e He]; [lia|].
  apply runs_bind, (s_read _ e); [done|]. rewrite (proj2 (Z.eqb_neq (MACH_PORT_INDEX n) 0)) by lia.
  destruct (slot_decode _ _ _ _ _ W _ e He) as (g1 & c & low & Hs). pose proof Hs as (Eb & Hg1 & Hl).
  destruct (truth (IE_BITS_TYPE (ie_bits e))) eqn:Ety.
  - apply truth_true in Ety.
    assert (Hu : used (tab s) l (MACH_PORT_INDEX n)).
    { split; [lia|]. intros Hin. destruct (unused_slot _ _ _ _ (sw_table _ _ _ _ _ W) Hin He) as [_ (g2 & Eb2 & Hg2 & Hl2)].
      by rewrite Eb2, type_mkb in Ety. }
    rewrite Eb, gen_mkb by done. destruct (Z.eqb_spec (g1 * 2 ^ 24) (MACH_PORT_GEN n)) as [Eg|Eg].
    + assert (Hin : in_slot (tab s) l n (slot_right e low)).
      { exists (MACH_PORT_INDEX n), e, g1, c, low. split; [|done]. rewrite En in Eg.
        rewrite gen_of_name in Eg by done. rewrite Hi, En. lia. }
      apply runs_bind, runs_assert.
      { destruct fresh; [done|]. destruct (Hfresh eq_refl) as [_ Hno]. destruct (Hno (slot_right e low)). by left. }
      apply runs_ret. by apply (Hfound (slot_right e low)).
    + apply runs_ret, Htaken. right. by exists e, g1, c, low.
  - apply truth_false in Ety.
    assert (Hin : MACH_PORT_INDEX n ∈ l).
    { destruct (decide (MACH_PORT_INDEX n ∈ l)) as [|Hnl]; [done|]. exfalso.
      apply (T (MACH_PORT_INDEX n * 2 ^ 8 + g1) (slot_right e low)).
      - left. exists (MACH_PORT_INDEX n), e, g1, c, low. split; [done|]. split; [split; [lia|done]|done].
      - cbn. by rewrite Eb, type_mkb in Ety. }
    apply runs_bind, (take_free_runs s lk g l next o); [done..|]. intros s' l' W' K Hadd Hp.
    apply runs_bind, runs_assert.
    { destruct fresh; [by rewrite orb_true_r|]. by destruct (Hfresh eq_refl) as [-> _]. }
    apply runs_ret. by apply (Hnew s' l').
Qed.
End name.

Lemma small_bound s a b : a <= b -> Z.of_nat (base.size (small_indices s a b)) <= b - a.
Proof.
  intros Hab. assert (Hle : (base.size (small_indices s a b) <= length (seqZ a (b - a)))%nat).
  { rewrite <- (size_list_to_set (C := gset Z)) by apply NoDup_seqZ. apply subseteq_size. intros j [Hj _]%elem_small.
    apply elem_of_list_to_set, elem_of_seqZ. lia. }
  rewrite length_seqZ in Hle. lia.
Qed.

(** The tree has room: its names are 32-bit numbers and 0 is none of them. *)
Lemma names_room (d : gmap Z tnode) : (∀ m x, d !! m = Some x -> 0 < m < 2 ^ 32) ->
  Z.of_nat (base.size d) < 2 ^ 32.
Proof.
  intros H. assert (Hle : (base.size (dom d) <= length (seqZ 1 (2 ^ 32 - 1)))%nat).
  { rewrite <- (size_list_to_set (C := gset Z)) by apply NoDup_seqZ. apply subseteq_size. intros m [x Hm]%elem_of_dom.
    apply elem_of_list_to_set, elem_of_seqZ. specialize (H m x Hm). lia. }
  rewrite size_dom, length_seqZ in Hle. lia.
Qed.

Section insert.
Context (n : Z) (Hn : in_range 32 n) (Hpos : 0 < MACH_PORT_INDEX n) (Hlarge : n <> MACH_PORT_LARGEST).
Context (s : ipc_space) (g : buckets) (l : list Z) (next : Z) (W : space_wf sizes s g l next).
Context (Hfast : is_fast (is_hash s) = false) (Hno : ∀ r, ~ has_entry s l n r) (Htaken : slot_taken n s l).
Context (tentry : Z).

Definition new_node : tnode := TNode tentry (is_addr (is_hash s)) IO_NULL 0 0.

Lemma insert_none : dir (is_tree s) !! n = None.
Proof.
  destruct (dir (is_tree s) !! n) as [x|] eqn:E; [|done]. destruct (Hno (tree_right x)). right. by exists x.
Qed.

Lemma insert_index s' j : dir (is_tree s') = <[n := new_node]> (dir (is_tree s)) ->
  tree_index s' j <-> tree_index s j \/ j = MACH_PORT_INDEX n.
Proof.
  intros Hd. unfold tree_index. rewrite Hd. split.
  - intros (m & x & Hm & <-). apply lookup_insert_Some in Hm as [[<- _]|[_ Hm]]; [by right|left; by exists m, x].
  - intros [(m & x & Hm & <-)| ->].
    + exists m, x. split; [|done]. apply lookup_insert_Some. right. split; [|done].
      intros <-. by rewrite insert_none in Hm.
    + exists n, new_node. split; [apply lookup_insert_eq|done].
Qed.

Lemma insert_end s' : alike s s' -> wf (is_tree s') -> dir (is_tree s') = <[n := new_node]> (dir (is_tree s)) ->
  is_tree_total (is_hash s') = is_tree_total (is_hash s) + 1 ->
  remarked s l s' (MACH_PORT_INDEX n) ->
  (tab s' = tab s -> zlen (tab s) <= MACH_PORT_INDEX n \/ tree_index s (MACH_PORT_INDEX n)) ->
  is_tree_small s' = Z.of_nat (base.size (small_indices s' (zlen (tab s)) next)) ->
  space_wf sizes s' g l next /\ adds_entry s l s' l n new_right /\ pointee s' l n (PTree n) new_right.
Proof.
  intros Hal Hwf Hd Htot Htab Hout Hsm.
  pose proof (sw_tree _ _ _ _ _ W) as [T1 T2 T3 T4 T5 T6 T7].
  assert (Hcount : is_tree_total (is_hash s') = Z.of_nat (base.size (dir (is_tree s')))).
  { rewrite Htot, T2, dir_size, Hd, map_size_insert_None by (done || apply insert_none). lia. }
  assert (Hnode : ∀ m x, dir (is_tree s') !! m = Some x ->
    tn_space x = is_addr (is_hash s) /\ low_ok (tn_bits x) /\ 0 < MACH_PORT_INDEX m /\ m <> MACH_PORT_LARGEST).
  { intros m x. rewrite Hd. intros [[<- <-]|[_ Hm]]%lookup_insert_Some; [|by apply T3].
    split; [done|]. split; [unfold low_ok; cbn; lia|]. done. }
  assert (Hnew : in_tree s' n new_right) by (exists new_node; split; [rewrite Hd; apply lookup_insert_eq|done]).
  destruct (tree_change_wf sizes s g l next W s' Hal Hwf) with (i := MACH_PORT_INDEX n) as [W' Hsl]; try done.
  - by rewrite Hcount, dir_size.
  - rewrite Hcount. apply names_room. intros m x Hm. pose proof (dir_name _ Hwf m x Hm) as Hr.
    destruct (Hnode m x Hm) as (_ & _ & Hmi & _). split; [|apply Hr].
    destruct (Z.lt_ge_cases 0 m) as [|Hle]; [done|]. pose proof (index_mono m 0 Hle) as H0. change (MACH_PORT_INDEX 0) with 0 in H0. lia.
  - intros j Hj. rewrite (insert_index s' j Hd). intuition congruence.
  - intros E Hlt. destruct (Hout E) as [?|Hti]; [lia|]. rewrite (insert_index s' _ Hd). tauto.
  - intros m x e. rewrite Hd. intros [[<- <-]|[_ Hm]]%lookup_insert_Some He; [|by apply (T5 m x e)].
    destruct Htaken as [Hge|(y & g1 & c & low & Hy & (Eb & Hg & Hl) & _ & Hne)].
    + pose proof (slot_at_range _ _ _ He). lia.
    + assert (y = e) as -> by (by eapply slot_at_fun). by rewrite Eb, gen_mkb.
  - intros e x He Hx. rewrite Hd. apply lookup_insert_Some. right. split; [|done].
    intros E. by rewrite <- E, insert_none in Hx.
  - split; [done|]. split; [|done]. split; [done|]. split; [done|].
    intros m q. unfold has_entry. rewrite Hsl. split.
    + intros [H|(x & Hx & ->)]; [left; by left|]. rewrite Hd in Hx.
      apply lookup_insert_Some in Hx as [[<- <-]|[_ Hx]]; [by right|left; right; by exists x].
    + intros [[H|(x & Hx & ->)]|[-> ->]]; [by left|right|by right]. exists x. split; [|done].
      rewrite Hd. apply lookup_insert_Some. right. split; [|done]. intros E. by rewrite <- E, insert_none in Hx.
Qed.

Lemma insert_room : 0 <= is_tree_total (is_hash s) /\ is_tree_total (is_hash s) + 1 < 2 ^ 32.
Proof.
  pose proof (sw_tree _ _ _ _ _ W) as [T1 T2 T3 _ _ _ _]. rewrite T2, dir_size by done. split; [lia|].
  assert (E : base.size (<[n := new_node]> (dir (is_tree s))) = S (base.size (dir (is_tree s))))
    by (by rewrite map_size_insert_None by apply insert_none).
  enough (Z.of_nat (base.size (<[n := new_node]> (dir (is_tree s)))) < 2 ^ 32) by lia.
  apply names_room. intros m x Hm. assert (Hm' : in_range 32 m /\ 0 < MACH_PORT_INDEX m).
  { apply lookup_insert_Some in Hm as [[<- _]|[_ Hm]]; [done|]. split; [by eapply dir_name|]. by apply (T3 m x). }
  destruct Hm' as [Hr Hmi]. split; [|apply Hr]. destruct (Z.lt_ge_cases 0 m) as [|Hle]; [done|].
  pose proof (index_mono m 0 Hle) as H0. change (MACH_PORT_INDEX 0) with 0 in H0. lia.
Qed.

(** The space while its count already has the new entry. *)
Definition counted : ipc_space := set_tree_total (is_tree_total (is_hash s) + 1) s.

Lemma counted_alike : alike s counted.
Proof. pose proof (space_table_ok _ _ _ _ _ W). done. Qed.

Context {lk : bool} {o : O} (Q : unit -> world O -> Prop) (Ha : is_active s = true).
Context (HQ : ∀ s', space_wf sizes s' g l next -> alike s s' -> adds_entry s l s' l n new_right ->
  pointee s' l n (PTree n) new_right -> Q tt (World s' lk g o)).

(** The insertion itself, once the marks and the count of small indices are up to date. *)
Lemma insert_last s2 : alike s s2 -> wf (is_tree s2) -> dir (is_tree s2) = dir (is_tree s) ->
  is_tree_total (is_hash s2) = is_tree_total (is_hash s) + 1 ->
  (∀ s', dir (is_tree s') = <[n := new_node]> (dir (is_tree s)) -> is_hash s' = is_hash s2 ->
     is_tree_small s' = is_tree_small s2 ->
     remarked s l s' (MACH_PORT_INDEX n) /\
     (tab s' = tab s -> zlen (tab s) <= MACH_PORT_INDEX n \/ tree_index s (MACH_PORT_INDEX n)) /\
     is_tree_small s' = Z.of_nat (base.size (small_indices s' (zlen (tab s)) next))) ->
  runs (on_tree (λ t, t ← ipc_splay_tree_insert t n new_node; Some (tt, t))) Q (World s2 lk g o).
Proof.
  intros Hal Hwf Hd Htot Hside.
  destruct (insert_spec (is_tree s2) n new_node Hwf Hn) as (t & Et & Ht & Hdt); [rewrite Hd; apply insert_none|].
  eapply s_on_tree; [by rewrite Et|]. rewrite Hd in Hdt.
  destruct (Hside (set_is_tree t s2) Hdt eq_refl eq_refl) as (A1 & A2 & A3).
  assert (Hal' : alike s (set_is_tree t s2)).
  { destruct Hal as [B1 B2 B3 [C1 C2 C3 C4 C5 C6 C7 C8]]. by split. }
  destruct (insert_end (set_is_tree t s2) Hal' Ht Hdt Htot A1 A2 A3) as (W' & Hadd & Hp). by apply HQ.
Qed.

Lemma insert_small s' : dir (is_tree s') = <[n := new_node]> (dir (is_tree s)) ->
  tree_index s (MACH_PORT_INDEX n) \/ ~ zlen (tab s) <= MACH_PORT_INDEX n < next ->
  Z.of_nat (base.size (small_indices s' (zlen (tab s)) next)) = is_tree_small s.
Proof.
  intros Hd Hout. rewrite (tr_small _ _ (sw_tree _ _ _ _ _ W)). do 2 f_equal. apply small_same. intros j Hj.
  rewrite (insert_index s' j Hd). split; [|by left]. intros [?| ->]; [done|tauto].
Qed.

(** The new entry's index has a slot in the table: the slot is marked. *)
Lemma insert_in_table : MACH_PORT_INDEX n < zlen (tab s) ->
  runs (table_set (MACH_PORT_INDEX n) (λ e, with_bits (ie_bits e ||| IE_BITS_COLLISION) e);;
        on_tree (λ t, t ← ipc_splay_tree_insert t n new_node; Some (tt, t))) Q (World counted lk g o).
Proof.
  intros Hlt. pose proof (sw_tree _ _ _ _ _ W) as [T1 _ _ T4 _ _ _]. pose proof (space_table_ok _ _ _ _ _ W) as Hok.
  destruct Htaken as [?|(e & g1 & c & low & He & Hs & Hu & _)]; [lia|]. pose proof Hs as (Eb & Hg & Hl).
  apply runs_bind, (s_set _ _ e); [done|]. cbn [counted set_tree_total set_is_hash is_hash is_table].
  rewrite Eb, set_collision by done. apply insert_last; try done.
  - split; try done. apply (bits_same_hash s (MACH_PORT_INDEX n) e (mkb g1 true low)); try done; [|by right].
    by rewrite Eb, !gen_mkb.
  - intros s' Hd Hh Hsm. rewrite Hh, Hsm. split; [|split].
    + right. exists e, g1, c, true, low. rewrite Hh. do 4 (split; [done|]). split; [|done].
      intros _. apply (insert_index s' _ Hd). by right.
    + intros E. right. apply (T4 _ e He). assert (Ee : with_bits (mkb g1 true low) e = e).
      { eapply (slot_at_fun (tab s)); [|exact He]. rewrite <- E at 1. apply slot_at_put_eq. lia. }
      by rewrite <- Ee; cbn; rewrite collision_mkb.
    + rewrite insert_small; [done|done|right; lia].
Qed.

(** The new entry's index will have one when the table grows. *)
Lemma insert_near : zlen (tab s) <= MACH_PORT_INDEX n < next ->
  runs ((collides ← ipc_entry_tree_collision n;
         if (collides : bool) then mret tt
         else set_space (λ s, set_is_tree_small (u32 (is_tree_small s + 1)) s));;
        on_tree (λ t, t ← ipc_splay_tree_insert t n new_node; Some (tt, t))) Q (World counted lk g o).
Proof.
  intros Hlt. pose proof (sw_tree _ _ _ _ _ W) as [T1 T2 T3 T4 T5 T6 T7].
  apply runs_bind, runs_bind, (collision_runs o n counted); try done.
  { intros m y Hy. by destruct (T3 m y Hy) as (_ & _ & ? & ?). }
  intros b s2 (t & -> & Ht & Hc) Hb. assert (Hdt : dir t = dir (is_tree s)) by (unfold dir; by rewrite Hc).
  assert (Hal2 : alike s (set_is_tree t counted)).
  { destruct counted_alike as [B1 B2 B3 [C1 C2 C3 C4 C5 C6 C7 C8]]. by split. }
  destruct b.
  - apply runs_ret, (insert_last (set_is_tree t counted)); try done. intros s' Hd Hh Hsm.
    split; [left; by rewrite Hh|]. split; [intros _; left; lia|].
    rewrite Hsm, insert_small; [done|done|left; by apply Hb].
  - apply s_set_space. cbn [set_is_tree set_is_tree_small counted set_tree_total set_is_hash is_tree_small].
    assert (Hsr : 0 <= is_tree_small s < 2 ^ 24).
    { rewrite T6. split; [lia|]. pose proof (small_bound s (zlen (tab s)) next) as Hb2.
      destruct (next_its s next (sw_next _ _ _ _ _ W)) as (k & Hk & Hk1 & Hk2).
      pose proof (es_range _ _ Hk2). pose proof (es_le _ _ _ Hk1 Hk2). lia. }
    rewrite wrap_small by (unfold in_range; lia).
    apply (insert_last (set_is_tree_small (is_tree_small s + 1) (set_is_tree t counted))); try done.
    intros s' Hd Hh Hsm. split; [left; by rewrite Hh|]. split; [intros _; left; lia|].
    rewrite Hsm, (small_more s s' _ _ (MACH_PORT_INDEX n)); [cbn; lia|lia| |by intros j; apply insert_index].
    intros Ht2. assert (false = true) by (by apply Hb). done.
Qed.

Lemma insert_tentry_runs : runs (insert_tentry n tentry next) Q (World s lk g o).
Proof.
  destruct insert_room as [Hr1 Hr2]. unfold insert_tentry.
  apply runs_bind, s_set_space. rewrite wrap_small by (unfold in_range; lia). fold counted.
  apply runs_bind, s_of_space. cbn [counted set_tree_total set_is_hash is_hash is_table_size is_addr].
  rewrite (table_size _ _ _ _ _ W). fold counted new_node.
  destruct (Z.ltb_spec (MACH_PORT_INDEX n) (zlen (tab s))) as [Hlt|Hge]; [by apply insert_in_table|].
  destruct (Z.ltb_spec (MACH_PORT_INDEX n) next) as [Hlt2|Hge2]; [by apply insert_near|].
  pose proof (sw_tree _ _ _ _ _ W) as [T1 _ _ _ _ _ _].
  apply runs_bind, runs_ret, (insert_last counted); try done. intros s' Hd Hh Hsm.
  split; [left; by rewrite Hh|]. split; [intros _; left; lia|]. rewrite Hsm, insert_small; [done|done|right; lia].
Qed.
End insert.

(** The tree splayed differently is the same space. *)
Lemma splayed_inv s s' g l next : splayed s s' -> space_inv sizes s g l next ->
  space_inv sizes s' g l next /\ same_names s l s' l.
Proof.
  intros Hs [W S T]. destruct (splayed_wf _ _ _ _ _ W s' Hs) as (W' & Hn & _ & Eh).
  split; [|exact Hn]. split; [done| |].
  - intros m r Hr%Hn. rewrite (S m r Hr). unfold hash_name. by rewrite Eh.
  - intros m r Hr%Hn. by apply (T m r).
Qed.

End alloc.

End IpcEntryAlloc.
