(* ===== verification/IpcEntryMain.v ===== *)
(** What the routines on entries promise their callers: a new space has the invariant, lookups
    find exactly the entries of a space, an entry that is deallocated is the only one to go,
    and allocations end whatever other threads do to the space meanwhile. *)

From S2P Require Import Prelude.
From S2P Require Import IpcSplay.
From S2P Require Import IpcHash.
From S2P Require Import IpcTable.
From S2P Require Import IpcStore.
From S2P Require Import IpcEntry.
From S2P Require Import IpcEntrySpec.
From S2P Require Import IpcEntryOps.
From S2P Require Import IpcEntryGrow.
From S2P Require Import IpcEntryAlloc.
Import IpcSplay.IpcSplay.
Import IpcHash.IpcHash.
Import IpcTable.IpcTable.
Import IpcEntry.IpcEntry.
Import IpcEntrySpec.IpcEntrySpec.
Import IpcEntryOps.IpcEntryOps.
Import IpcEntryGrow.IpcEntryGrow.
Import IpcEntryAlloc.IpcEntryAlloc.

Module IpcEntryMain.

(** * New spaces *)

Lemma no_entries_inv sizes s g l next : space_wf sizes s g l next -> (∀ n r, ~ has_entry s l n r) ->
  space_inv sizes s g l next.
Proof. intros W H. split; [done| |]; intros n r Hr; by destruct (H n r). Qed.

(** A space without entries, with a table of the given size and everything but slot 0 free. *)
Record is_new (sizes : list Z) (size next addr : Z) (g : buckets) (s : ipc_space) : Prop := {
  in_active : is_active s = true;
  in_growing : is_growing s = false;
  in_addr : is_addr (is_hash s) = addr;
  in_size : zlen (tab s) = size;
  in_inv : space_inv sizes s g (seqZ 1 (size - 1)) next;
  in_empty n r : ~ has_entry s (seqZ 1 (size - 1)) n r }.

(** C32 (type): [ipc_space_create] with a size of the array of table sizes: without memory for
    the space or its table it is [KERN_RESOURCE_SHORTAGE]; otherwise the new space is active,
    satisfies the whole invariant of spaces, whatever the memory of its tree and of [is_fast]
    held, has no entry, and its free list holds every index of the table but 0. *)
Theorem space_create_correct sizes uninit initial size next addr fast g
    (Hsize : sizes !! initial = Some size) (Hnext : sizes !! S initial = Some next)
    (Hrange : 0 < size < 2 ^ 24) (Haddr : addr <> 0) (Hg : buckets_ok g)
    (Hempty : ∀ e, e ∈ all_entries g -> ite_space e <> addr) :
  ipc_space_create sizes uninit initial None true = Some (KERN_RESOURCE_SHORTAGE, None) /\
  ipc_space_create sizes uninit initial (Some (addr, fast)) false = Some (KERN_RESOURCE_SHORTAGE, None) /\
  ∃ s, ipc_space_create sizes uninit initial (Some (addr, fast)) true = Some (KERN_SUCCESS, Some s) /\
    is_new sizes size next addr g s.
Proof.
  split; [done|]. split; [done|]. exists (new_space uninit initial size addr fast).
  assert (Hte : tree_entries (is_hash (new_space uninit initial size addr fast)) g = []).
  { apply elem_of_nil_inv. intros e [He Hin]%list_elem_of_filter. by apply (Hempty e Hin). }
  destruct (new_space_wf sizes uninit initial size next addr fast Hsize Hnext Hrange Haddr g Hg Hte) as [W Hno].
  rewrite (create_eq sizes uninit initial size addr fast) by done.
  split; [done|]. split; [done..|by apply new_length|by apply no_entries_inv|done].
Qed.

(** What the memory of a tree may hold. *)
Definition junk_tree : name_tree := Splay 7 ITE_NULL [] [].

(** A space as [ipc_space_create] makes it in the 32-bit kernel: 16 entries. *)
Definition first_space : ipc_space := new_space junk_tree 0 16 0x8000 false.
Definition first_free : list Z := seqZ 1 15.
Definition no_names : buckets := [[]].

Lemma no_names_ok : buckets_ok no_names.
Proof.
  split; [by exists 0|]. intros [|b] l e E He; [|done]. injection E as <-. by apply elem_of_nil in He.
Qed.

Lemma space_create_correct_witness : i386_entries !! 0%nat = Some 16 /\ ∃ s,
  ipc_space_create i386_entries junk_tree 0 (Some (0x8000, false)) true = Some (KERN_SUCCESS, Some s) /\
  is_new i386_entries 16 32 0x8000 no_names s.
Proof.
  destruct (space_create_correct i386_entries junk_tree 0 16 32 0x8000 false no_names
    ltac:(vm_compute; reflexivity) ltac:(vm_compute; reflexivity) ltac:(lia) ltac:(lia) no_names_ok
    ltac:(intros e He; by apply elem_of_nil in He)) as (_ & _ & s & E & I).
  split; [by vm_compute|]. exact (ex_intro _ s (conj E I)).
Defined.

(** A space with a dead name in slot 1 and a name of the same index in the tree. *)
Definition after_run {A} (m : kern (world ()) A) (s : ipc_space) : ipc_space :=
  match m (World s true no_names tt) with Some (_, w) => w_space w | None => s end.
Definition taken_space : ipc_space := after_run ipc_entry_get first_space.
Definition dead_right : ipc_entry := Entry IO_NULL 0x03100001 0 0.
Definition named_space : ipc_space := with_tab (put (tab taken_space) 1 dead_right) taken_space.
Definition busy_space : ipc_space := after_run (insert_tentry 0x107 0x9000 32) named_space.
Definition busy_free : list Z := seqZ 2 14.

Lemma runs_after {A} (m : kern (world ()) A) s (P : ipc_space -> Prop) :
  runs m (λ _ w, P (w_space w)) (World s true no_names tt) -> P (after_run m s).
Proof. unfold runs, after_run. by destruct (m _) as [[a w]|]. Qed.

(** A well-formed space with the given entries, none of them of an object. *)
Definition holds (s : ipc_space) (l : list Z) (P : Z -> right -> Prop) : Prop :=
  space_wf i386_entries s no_names l 32 /\ (∀ n r, has_entry s l n r <-> P n r) /\
  ∀ obj n, ~ hash_name s no_names obj n.

Lemma first_holds : holds first_space first_free (λ _ _, False).
Proof.
  destruct (new_space_wf i386_entries junk_tree 0 16 32 0x8000 false ltac:(vm_compute; reflexivity)
    ltac:(vm_compute; reflexivity) ltac:(lia) ltac:(lia) no_names no_names_ok eq_refl) as [W Hno].
  split; [exact W|]. split; [intros n r; split; [apply Hno|done]|].
  intros obj n [[i|e] H].
  - destruct H as [Hi _]. by apply new_hash in Hi.
  - destruct H as (He & _). by apply elem_of_nil in He.
Qed.

Lemma taken_holds : holds taken_space busy_free (λ n r, n = 0x103 /\ r = new_right).
Proof.
  destruct first_holds as (W & Hno & Hh).
  apply (runs_after ipc_entry_get first_space (λ s, holds s busy_free _)).
  apply (get_runs tt i386_entries first_space true no_names first_free 32); [done..| |].
  - by intros ?%(f_equal length).
  - intros f l' e g0 s' El He Hs n W' K (_ & _ & Hadd) _.
    assert (Hf : f = 1 /\ l' = busy_free) by (vm_compute in El; by injection El as <- <-). destruct Hf as [-> ->].
    assert (Hg : n = 0x103).
    { unfold n. enough (g0 = 255) as -> by done. destruct He as [_ He]. vm_compute in He. injection He as <-.
      destruct Hs as (Eb & _ & _). unfold mkb in Eb. cbn in Eb. lia. }
    split; [done|]. split.
    + intros m r. rewrite Hadd, Hg, Hno. tauto.
    + intros obj m (q & Hq). apply (Hh obj m). exists q. by apply (kp_maps _ _ K).
Qed.

Lemma named_holds : holds named_space busy_free (λ n r, n = 0x103 /\ r = IpcStore.Entry IO_NULL 0x00100001 0).
Proof.
  destruct taken_holds as (W & Hn & Hh).
  assert (He : slot_at (tab taken_space) 1 (Entry 0 0x03000000 0 0)) by (by vm_compute).
  assert (Hu : used (tab taken_space) busy_free 1) by (split; [by vm_compute|]; intros [? _]%elem_of_seqZ; lia).
  assert (M : mild taken_space 1 (Entry 0 0x03000000 0 0) dead_right) by (by split).
  pose proof (write_kept _ _ _ _ (space_table_ok _ _ _ _ _ W) M) as K. split; [|split].
  - apply (write_wf i386_entries _ _ busy_free 32 W 1 (Entry 0 0x03000000 0 0)); [done..| |].
    + apply (table_wf_used _ _ (sw_table _ _ _ _ _ W) 1 _ dead_right He); [done|apply Hu|by vm_compute].
    + apply (nm_local _ _ _ (sw_names _ _ _ _ _ W)).
  - intros n r. unfold has_entry. cbn [named_space]. unfold named_space, with_tab. cbn [set_is_hash is_hash is_table set_is_table].
    rewrite (in_slot_put _ _ _ _ _ _ _ He). split.
    + intros [[(g & c & low & -> & _ & Hs & ->)|[Hi H]]|H].
      * assert (Hgl : g = 3 /\ low = 0x00100001).
        { destruct Hs as (Eb & Hg & Hl). unfold mkb, gen_ok, low_ok in *. cbn in Eb. destruct c; cbn [Z.b2z] in Eb; lia. }
        by destruct Hgl as [-> ->].
      * assert (Hh' : has_entry taken_space busy_free n r) by (by left). by apply Hn in Hh' as [-> _].
      * assert (Hh' : has_entry taken_space busy_free n r) by (by right). apply Hn in Hh' as [-> _].
        destruct H as (x & Hx & _). by vm_compute in Hx.
    + intros [-> ->]. left. left. exists 3, false, 0x00100001. split; [done|]. split; [done|].
      split; [|done]. unfold slot_is, gen_ok, low_ok. by vm_compute.
  - intros obj m (q & Hq). apply (Hh obj m). exists q. by apply (kp_maps _ _ K).
Qed.

Lemma busy_holds : holds busy_space busy_free (λ n r,
  (n = 0x103 /\ r = IpcStore.Entry IO_NULL 0x00100001 0) \/ (n = 0x107 /\ r = new_right)).
Proof.
  destruct named_holds as (W & Hn & Hh).
  apply (runs_after (insert_tentry 0x107 0x9000 32) named_space (λ s, holds s busy_free _)).
  apply (insert_tentry_runs i386_entries 0x107 ltac:(by vm_compute) ltac:(by vm_compute) ltac:(by vm_compute)
    named_space no_names busy_free 32 W); [by vm_compute| | |by vm_compute|].
  - intros r [? _]%Hn. lia.
  - right. exists dead_right, 3, false, 0x00100001. split; [by vm_compute|]. split; [|split].
    + unfold slot_is, gen_ok, low_ok. by vm_compute.
    + split; [by vm_compute|]. by intros [H _]%elem_of_seqZ.
    + by vm_compute.
  - intros s' W' A (_ & _ & Hadd) _. split; [done|]. split.
    + intros n r. by rewrite Hadd, Hn.
    + intros obj n (p & Hp)%(st_names _ _ _ _ (alike_steady _ _ _ A)). apply (Hh obj n). by exists p.
Qed.

Lemma holds_sends s l P : holds s l P -> (∀ n r, P n r -> ~ is_send r) -> sends_ok s no_names l.
Proof. intros (W & Hn & Hh) HP n r Hr%Hn. split; [by intros ?%(HP n r Hr)|intros [obj ?]; by destruct (Hh obj n)]. Qed.

(** * Lookups *)

Lemma found_splayed s s' l n p : splayed s s' -> (∀ m r, has_entry s' l m r <-> has_entry s l m r) ->
  found s l n p -> found s' l n p.
Proof.
  intros (t & -> & Ht & Hc) Hn. destruct p as [p|]; [|by intros H r Hr%Hn; apply H].
  intros (r & Hp & Hr). exists r. split; [|done]. destruct p as [i|m]; [done|].
  destruct Hp as (-> & x & Hx & ->). split; [done|]. exists x. split; [|done].
  cbn. unfold dir in *. by rewrite Hc.
Qed.

(** What a lookup returns and leaves. *)
Definition looked_up {O : Type} (o : O) sizes s lk g l next n (p : option eptr) (w : world O) : Prop :=
  ∃ s', w = World s' lk g o /\ space_wf sizes s' g l next /\ same_names s l s' l /\
    is_hash s' = is_hash s /\ found s' l n p.

(** [ipc_entry_lookup] in a live well-formed space fails no assertion and finds
    exactly the entry of the name, in the table or in the tree: it returns a pointer to an entry
    of that name with a type, or null when the space has no such entry.  The tree is splayed;
    the names, their entries and the invariant stay. *)
Theorem entry_lookup_correct {O : Type} (o : O) sizes s lk g l next n
    (W : space_wf sizes s g l next) (Ha : is_active s = true) (Hn : in_range 32 n)
    (Hfast : is_fast (is_hash s) = true -> MACH_PORT_INDEX n < zlen (tab s)) :
  runs (ipc_entry_lookup n) (looked_up o sizes s lk g l next n) (World s lk g o).
Proof.
  apply (lookup_runs o sizes s lk g l next n); [done..|]. intros p s' Hs Hp.
  destruct (splayed_wf _ _ _ _ _ W s' Hs) as (W' & Hn' & _ & Eh). exists s'.
  split; [done|]. split; [done|]. split; [exact Hn'|]. split; [done|]. by apply (found_splayed s).
Qed.

Lemma entry_lookup_correct_witness :
  fst <$> ipc_entry_lookup 0x103 (World busy_space true no_names tt) = Some (Some (PTable 1)) /\
  runs (ipc_entry_lookup 0x103) (looked_up tt i386_entries busy_space true no_names busy_free 32 0x103)
    (World busy_space true no_names tt).
Proof.
  split; [by vm_compute|]. destruct busy_holds as (W & _).
  apply (entry_lookup_correct tt i386_entries busy_space true no_names busy_free 32 0x103 W);
    vm_compute; [done|by split|done].
Defined.

(** * Deallocation *)

(** The space without the name, and otherwise the same entries. *)
Definition without {O : Type} (o : O) sizes s lk g l next n (w : world O) : Prop :=
  ∃ s' g' l', w = World s' lk g' o /\ space_wf sizes s' g' l' next /\ sends_ok s' g' l' /\
    steady s g s' g' /\ drops_entry s l s' l' n.

(** C13 (invariant): [ipc_entry_dealloc] of an entry without object and request, in the table or
    in the tree: no assertion fails, the space stays well formed, its names for objects stay
    consistent with the hash tables, and the entry is the only one to go; every other name keeps
    its entry, also one that moves from the tree into the freed slot. *)
Theorem entry_dealloc_correct {O : Type} (o : O) sizes uninit s lk g l next n p r
    (W : space_wf sizes s g l next) (S : sends_ok s g l) (Ha : is_active s = true)
    (Hp : pointee s l n p r) (Hobj : IpcStore.ie_object r = IO_NULL) (Hreq : IpcStore.ie_request r = 0) :
  runs (ipc_entry_dealloc sizes uninit n p)
    (λ _ w, without o sizes s lk g l next n w) (World s lk g o).
Proof.
  apply (entry_dealloc_runs o sizes uninit s lk g l next n p r); [done..|].
  intros s' g' l' W' S' St D. by exists s', g', l'.
Qed.

Lemma entry_dealloc_correct_witness :
  entry_at (tab (after_run (ipc_entry_dealloc i386_entries junk_tree 0x103 (PTable 1)) busy_space)) 1 =
    Some (Entry IO_NULL 0x07000000 0 0) /\
  runs (ipc_entry_dealloc i386_entries junk_tree 0x103 (PTable 1))
    (λ _ w, without tt i386_entries busy_space true no_names busy_free 32 0x103 w) (World busy_space true no_names tt).
Proof.
  split; [by vm_compute|]. pose proof busy_holds as H. destruct H as (W & Hn & Hh).
  apply (entry_dealloc_correct tt i386_entries junk_tree busy_space true no_names busy_free 32 0x103 (PTable 1)
    (IpcStore.Entry IO_NULL 0x00100001 0) W).
  - apply (holds_sends _ _ _ (conj W (conj Hn Hh))). intros n r [[_ ->]|[_ ->]]; by vm_compute.
  - by vm_compute.
  - split; [by vm_compute|]. exists 1, (Entry IO_NULL 0x03900001 0 0), 3, true, 0x00100001.
    split; [done|]. split; [split; [by vm_compute|by intros [H _]%elem_of_seqZ]|].
    split; [by vm_compute|]. split; [|done]. unfold slot_is, gen_ok, low_ok. by vm_compute.
  - done.
  - done.
Defined.

(** * Growing and allocating among other threads *)

(** Other threads that leave the entries alone but try to grow the table, and fail, as often as
    [w_other] says; a thread that sleeps on the space after that is woken as the space dies. *)
Definition growers (why : pause) (w : world nat) : world nat :=
  let 'World s lk g k := w in
  match why, k with
  | Growing, _ => w
  | Locking, _ => World (set_is_growing (0 <? k)%nat s) lk g k
  | Sleeping, S k => World (set_is_growing (0 <? k)%nat s) lk g k
  | Sleeping, 0%nat => World (ISpace (is_hash s) false false (is_table_next s) (is_tree s) (is_tree_small s)) lk g 0%nat
  end.

#[export] Instance growers_environment sizes : Environment sizes growers same_names id.
Proof.
  assert (Hsame : ∀ s g l next b, space_inv sizes s g l next ->
    ∃ l' next', space_inv sizes (set_is_growing b s) g l' next' /\ same_names s l (set_is_growing b s) l').
  { intros s g l next b I. exists l, next. by apply same_fields_inv. }
  split.
  - done.
  - intros s1 l1 s2 l2 s3 l3 H1 H2 n r. by rewrite (H2 n r), (H1 n r).
  - intros [] s g [|k] s' lk g' k' E Ha; by injection E as <- _ _ _.
  - intros why s g l next k s' lk g' k' E I Ha'.
    destruct why, k as [|k]; injection E as <- _ <- <-; try done;
      (do 2 (split; [done|])); (split; [cbn; lia|]); try (by apply (Hsame s g l next));
      exists l, next; (split; [done|]); by intros n r.
  - intros s g l next k s' lk g' k' E _ _ _. by injection E as <- _ _ _.
  - intros s g l next [|k] s' lk g' k' E _ _ Ha; injection E as <- _ _ <-; [done|]. right. cbn. lia.
Qed.

(** [named_space] has the whole invariant. *)
Lemma named_inv : space_inv i386_entries named_space no_names busy_free 32.
Proof.
  pose proof named_holds as H. destruct H as (W & Hn & Hh). split; [done| |].
  - apply (holds_sends _ _ _ (conj W (conj Hn Hh))). intros n r [_ ->]; by vm_compute.
  - intros n r [_ ->]%Hn. by vm_compute.
Qed.

Section environment.
Context {O : Type} (others : pause -> world O -> world O).
Context (table_alloc : world O -> bool) (ite_alloc : world O -> option Z).
Context (sizes : list Z) `{!EntrySizes sizes} (uninit : name_tree).
Context (R : ipc_space -> list Z -> ipc_space -> list Z -> Prop) (patience : O -> nat).
Context `{!Environment sizes others R patience}.

(** ** [ipc_entry_alloc] *)

(** What an allocation returns: with the lock, an entry that the space did not have just
    before; without it, an error. *)
Definition allocated (s0 : ipc_space) (l0 : list Z) (kr n : Z) (w : world O) : Prop :=
  (kr = KERN_SUCCESS /\ w_locked w = true /\ ∃ s1 g1 l1 next l', R s0 l0 s1 l1 /\ space_inv sizes s1 g1 l1 next /\
     w_buckets w = g1 /\ is_active (w_space w) = true /\ space_wf sizes (w_space w) g1 l' next /\
     adds_entry s1 l1 (w_space w) l' n new_right /\ pointee (w_space w) l' n (PTable (MACH_PORT_INDEX n)) new_right) \/
  (kr <> KERN_SUCCESS /\ w_locked w = false /\ n = 0 /\
     (kr = KERN_NO_SPACE \/ kr = KERN_RESOURCE_SHORTAGE \/ (kr = KERN_INVALID_TASK /\ is_active (w_space w) = false))).

Lemma alloc_loop_runs s0 l0 o0 : ∀ b s g o,
  held sizes R patience s0 l0 o0 s g o -> (is_active s = true -> passes sizes patience b s o) ->
  runs (alloc_loop others table_alloc sizes uninit (S b))
    (λ '(kr, n) w, allocated s0 l0 kr n w) (World s true g o).
Proof.
  induction b as [|b IH]; intros s g o Hheld Hfuel; cbn [alloc_loop].
  all: apply runs_bind, s_of_space; destruct (is_active s) eqn:Ha; cbn [negb];
    [|apply runs_bind, s_unlock, runs_ret; right; split; [done|]; split; [done|]; split; [done|]; auto].
  { destruct (Hheld Ha) as (_ & _ & _ & l & next & I & _).
    pose proof (passes_pos sizes patience s g l next o 0 I (Hfuel eq_refl)). lia. }
  destruct (Hheld Ha) as (Hf & Hits & Hpat & l & next & I & HR). specialize (Hfuel eq_refl).
  pose proof (si_wf _ _ _ _ _ I) as W.
  apply runs_bind, (get_runs o sizes s true g l next); [done|done| |].
  - intros ->. cbn [KERN_NO_SPACE KERN_SUCCESS Z.eqb].
    apply runs_bind, (grow_runs others table_alloc sizes uninit R patience (S (S b)) s g [] next o); [done|done| | | |].
    + by apply passes_more.
    + intros s' g' o' H' P'. cbn [KERN_SUCCESS Z.eqb negb].
      apply IH; [by eapply held_trans; [..|exact H']|]. by eapply held_passes.
    + intros s' g' o'. apply runs_ret. right. split; [done|]. split; [done|]. split; [done|]. auto.
    + intros _. apply runs_ret. right. split; [done|]. split; [done|]. split; [done|]. auto.
  - intros f l' e gn s' -> He Hs n W' K Hadd Hp. cbn [KERN_SUCCESS Z.eqb]. apply runs_ret. left.
    split; [done|]. split; [done|]. exists s, g, (f :: l'), next, l'. split; [done|]. split; [done|].
    split; [done|]. split; [by rewrite <- Ha; apply (kp_active _ _ K)|]. split; [done|]. split; [done|].
    assert (En : MACH_PORT_INDEX n = f) by (apply index_of_name; unfold gen_ok; divlia). by rewrite En.
Qed.

Section alloc_name.
Context (n : Z) (Hn : in_range 32 n) (Hpos : 0 < MACH_PORT_INDEX n) (Hlarge : n <> MACH_PORT_LARGEST).
Context (Hite : ∀ w a, ite_alloc w = Some a -> a <> 0).
(** Other threads do not make the name. *)
Context (Hnew : ∀ s l s' l', R s l s' l' -> (∀ r, ~ has_entry s l n r) -> ∀ r, ~ has_entry s' l' n r).

(** What an allocation of a name returns: with the lock, the entry of the name that the space
    had, or a new one; without it, an error. *)
Definition named (s0 : ipc_space) (l0 : list Z) (kr : Z) (p : option eptr) (w : world O) : Prop :=
  (kr = KERN_SUCCESS /\ w_locked w = true /\ is_active (w_space w) = true /\
     ∃ s1 l1 next l' q r, R s0 l0 s1 l1 /\ space_inv sizes s1 (w_buckets w) l1 next /\
       space_wf sizes (w_space w) (w_buckets w) l' next /\ p = Some q /\ pointee (w_space w) l' n q r /\
       ((adds_entry s1 l1 (w_space w) l' n r /\ r = new_right) \/
        (same_names s1 l1 (w_space w) l' /\ IE_BITS_TYPE (IpcStore.ie_bits r) <> 0))) \/
  (w_locked w = false /\ p = None /\
     (kr = KERN_RESOURCE_SHORTAGE \/ (kr = KERN_FAILURE /\ is_fast (is_hash (w_space w)) = true) \/
      (kr = KERN_INVALID_TASK /\ is_active (w_space w) = false))).

Lemma taken_no_slot s g l next : space_wf sizes s g l next -> slot_taken n s l ->
  ∀ r, ~ in_slot (tab s) l n r.
Proof.
  intros W [Hge|(e & g1 & c & low & He & Hs & _ & Hne)] r Hr; [by eapply no_slot|].
  destruct (slot_names _ _ _ _ _ _ _ _ _ He Hs eq_refl Hr) as (En & _ & _).
  destruct Hs as (_ & Hg & _). apply Hne. rewrite En. by rewrite gen_of_name.
Qed.

(** The search in the tree. *)
Lemma find_tentry_runs s lk g l next o (Q : option tnode -> world O -> Prop) :
  space_wf sizes s g l next -> (∀ s', splayed s s' -> Q (dir (is_tree s) !! n) (World s' lk g o)) ->
  runs (if 0 <? is_tree_total (is_hash s) then on_tree (λ t, ipc_splay_tree_lookup t n) else mret None)
    Q (World s lk g o).
Proof.
  intros W HQ. pose proof (sw_tree _ _ _ _ _ W) as T. destruct (Z.ltb_spec 0 (is_tree_total (is_hash s))) as [|H0].
  - by apply s_tree_find; [apply T|].
  - apply runs_ret. rewrite <- (tree_empty _ _ _ _ _ W) with (n := n).
    + apply HQ. by eapply splayed_refl.
    + pose proof (tr_total _ _ T). lia.
Qed.

Lemma alloc_name_loop_runs sb lb : ∀ fuel s0 l0 o0 s g o tentry,
  held sizes R patience s0 l0 o0 s g o -> R sb lb s0 l0 ->
  (tentry <> 0 -> is_fast (is_hash s0) = false /\ ∀ r, ~ has_entry s0 l0 n r) -> (0 < fuel)%nat ->
  (is_active s = true ->
     length sizes + patience o + (if (tentry =? 0)%Z then 1 else 0) < fuel + is_table_next s)%nat ->
  runs (alloc_name_loop others table_alloc ite_alloc sizes uninit fuel n tentry)
    (λ '(kr, p) w, named sb lb kr p w) (World s true g o).
Proof.
  induction fuel as [|fuel IH]; intros s0 l0 o0 s g o tentry Hheld Hb Hten Hf0 Hfuel; [lia|].
  cbn [alloc_name_loop]. apply runs_bind, s_of_space. cbn [id].
  destruct (is_active s) eqn:Ha; cbn [negb].
  2: { apply runs_bind, s_unlock, runs_ret. right. split; [done|]. split; [done|]. auto. }
  destruct (Hheld Ha) as (Hf & _ & _ & l & next & I & HR). pose proof (si_wf _ _ _ _ _ I) as W.
  specialize (Hfuel eq_refl).
  assert (HRb : R sb lb s l) by (by eapply en_trans).
  assert (Hten' : tentry <> 0 -> is_fast (is_hash s) = false /\ ∀ r, ~ has_entry s l n r).
  { intros Ht. destruct (Hten Ht) as [Hf1 Hno]. split; [by rewrite Hf|]. by apply (Hnew s0 l0). }
  destruct (next_its sizes s next (sw_next _ _ _ _ _ W)) as (k & Hk & Hk1 & Hk2).
  pose proof (lookup_lt_Some _ _ _ Hk2) as Hlen. pose proof (es_range _ _ Hk2) as Hr2.
  pose proof (es_le _ _ _ Hk1 Hk2) as Hle.
  assert (Hdone : ∀ s' l' q r, space_wf sizes s' g l' next -> is_active s' = true -> pointee s' l' n q r ->
    (adds_entry s l s' l' n r /\ r = new_right) \/ (same_names s l s' l' /\ IE_BITS_TYPE (IpcStore.ie_bits r) <> 0) ->
    named sb lb KERN_SUCCESS (Some q) (World s' true g o)).
  { intros s' l' q r W' Ha' Hq Hcase. left. split; [done|]. split; [done|]. split; [done|]. by exists s, l, next, l', q, r. }
  apply runs_bind, (alloc_in_table_runs sizes n Hn Hpos s true g l next o); [done| | | |].
  { intros E. apply Hten'. by apply Z.eqb_neq. }
  { intros r Hp. apply runs_ret, (Hdone s l _ r); [done..|]. right. split; [by intros m q|].
    apply (si_typed _ _ _ _ _ I n r). by apply pointee_has in Hp. }
  { intros s' l' W' K Hadd Hp. apply runs_ret, (Hdone s' l' _ new_right); [done| |done|by left].
    by rewrite (kp_active _ _ K). }
  intros Htaken. destruct (is_fast (is_hash s)) eqn:Hfast.
  { apply runs_bind, s_unlock, runs_bind, runs_assert.
    - destruct (Z.eqb_spec tentry 0) as [|Ht]; [done|]. by destruct (Hten' Ht).
    - apply runs_ret. right. split; [done|]. split; [done|]. auto. }
  apply runs_bind, (find_tentry_runs s true g l next o); [done|]. intros s' Hs'.
  destruct (splayed_inv sizes s s' g l next Hs' I) as [I' Hn'].
  destruct Hs' as (t & -> & Ht & Hc). set (s' := set_is_tree t s) in *.
  pose proof (si_wf _ _ _ _ _ I') as W'.
  destruct (dir (is_tree s) !! n) as [x|] eqn:Ex.
  { destruct (tr_nodes _ _ (sw_tree _ _ _ _ _ W) n x Ex) as (Hsp & _).
    assert (Hx : has_entry s l n (tree_right x)) by (right; by exists x).
    pose proof (si_typed _ _ _ _ _ I n _ Hx) as Hty.
    apply runs_bind, runs_assert; [by apply Z.eqb_eq|].
    apply runs_bind, runs_assert; [by apply truth_true|]. apply runs_ret.
    apply (Hdone s' l (PTree n) (tree_right x)); [done..| |by right].
    split; [done|]. exists x. split; [|done]. cbn. unfold dir in *. by rewrite Hc. }
  assert (Hno : ∀ r, ~ has_entry s' l n r).
  { intros r [Hr|(x & Hx & _)]%Hn'; [by eapply taken_no_slot|]. by rewrite Ex in Hx. }
  assert (HR' : R sb lb s' l) by (eapply en_trans; [exact HRb|by apply en_same]).
  apply runs_bind, (s_deref _ next); [by rewrite Hk in *|].
  rewrite (table_size _ _ _ _ _ W).
  destruct (_ && _ && _) eqn:Egrow.
  - apply andb_true_iff in Egrow as [[Hge%Z.leb_le Hlt%Z.ltb_lt]%andb_true_iff _].
    apply runs_bind, (grow_runs others table_alloc sizes uninit R patience (S fuel) s' g l next o); [done|done| | | |].
    + unfold passes. cbn. lia.
    + intros s2 g2 o2 H2 P2. apply runs_bind, runs_assert; [done|]. cbn [KERN_SUCCESS Z.eqb negb].
      apply (IH s' l o); [done|done|by intros _|lia|].
      intros Ha2. destruct (H2 Ha2) as (_ & A1 & A2 & _), (P2 Ha2) as [P|P]; cbn in *; lia.
    + intros s2 g2 o2. apply runs_bind, runs_assert; [done|]. apply runs_ret. right. auto.
    + cbn. intros E. lia.
  - destruct (Z.eqb_spec tentry 0) as [->|Hne]; cbn [negb].
    + apply runs_bind, s_unlock, runs_bind, runs_gets.
      destruct (ite_alloc _) as [a|] eqn:Ea; [|by apply runs_ret; right; auto].
      pose proof (Hite _ _ Ea) as Ha0.
      apply runs_bind, (lock_runs others sizes R patience Locking s' g l next o); [done|]. intros s2 g2 o2 H2 _.
      apply (IH s' l o); [done|done|done|lia|].
      intros Ha2. destruct (H2 Ha2) as (_ & A1 & A2 & _). rewrite (proj2 (Z.eqb_neq a 0)) by done. cbn in *. lia.
    + apply runs_bind, (insert_tentry_runs sizes n Hn Hpos Hlarge s' g l next W' Hfast Hno Htaken tentry); [done|].
      intros s2 W2 A2 Hadd Hp. apply runs_ret. left. split; [done|]. split; [done|].
      split; [exact (eq_trans (al_active _ _ A2) Ha)|].
      exists s', l, next, l, (PTree n), new_right. do 5 (split; [done|]). by left.
Qed.
End alloc_name.

(** ** What they promise *)

(** What growing returns: with the lock and a table of a later size, or without it. *)
Definition grown_or_not (s : ipc_space) (g : buckets) (l : list Z) (next : Z) (o : O) (kr : Z) (w : world O) : Prop :=
  (kr = KERN_SUCCESS /\ w_locked w = true /\
     held sizes R patience s l o (w_space w) (w_buckets w) (w_other w) /\
     progress patience s o (w_space w) (w_other w)) \/
  (kr = KERN_RESOURCE_SHORTAGE /\ w_locked w = false) \/
  (kr = KERN_NO_SPACE /\ w = World s false g o /\ zlen (tab s) = next).

(** C10 (safety): [ipc_entry_grow_table] without a target, while other threads use the space
    whenever its lock is free, also to grow the same table: it ends with no failed assertion.
    When it grew the table or found it growing it returns with the lock, and a space that is
    still alive has the invariant and a table of a later size, or another thread's attempt to
    grow it has failed meanwhile; what happened to its entries is what other threads did.
    Without memory, or at the largest size, it returns without the lock. *)
Theorem grow_table_keeps fuel s g l next o
    (I : space_inv sizes s g l next) (Ha : is_active s = true) (Hfuel : (length sizes + patience o <= fuel)%nat) :
  runs (ipc_entry_grow_table others table_alloc sizes uninit fuel ITS_SIZE_NONE)
    (grown_or_not s g l next o) (World s true g o).
Proof.
  apply (grow_runs others table_alloc sizes uninit R patience fuel s g l next o);
    [done|done|unfold passes; lia|by left|by right; left|by right; right].
Qed.

(** C33 (termination): [ipc_entry_alloc] always ends: each pass of its loop returns, sees a
    larger table or another thread's failure to grow it, so as many passes as there are table
    sizes and such failures are enough.  It returns with the
    lock and a fresh name whose entry is new, no other entry having changed since the last time
    other threads could run, or without the lock and the error the header of the routine names. *)
Theorem entry_alloc_ends fuel s g l next o
    (I : space_inv sizes s g l next) (Hfuel : (length sizes + patience o <= fuel)%nat) :
  runs (ipc_entry_alloc others table_alloc sizes uninit (S fuel))
    (λ '(kr, n) w, allocated s l kr n w) (World s false g o).
Proof.
  unfold ipc_entry_alloc.
  apply runs_bind, (lock_runs others sizes R patience Locking s g l next o); [done|]. intros s' g' o' H _.
  apply (alloc_loop_runs s l o); [done|]. intros Ha. destruct (H Ha) as (_ & _ & ? & _). unfold passes. lia.
Qed.

(** [ipc_entry_alloc_name] of a name with an index other than 0, that no other
    thread makes meanwhile, ends with no failed assertion: with the lock and the entry of the
    name, the one the space has, with a type, or a new one in the slot of the index or in the
    tree, and no other entry changed; or without the lock and an error, [KERN_FAILURE] only
    for a fast space. *)
Theorem entry_alloc_name_correct fuel n s g l next o
    (Hvalid : MACH_PORT_VALID n = true) (Hn : in_range 32 n) (Hindex : 0 < MACH_PORT_INDEX n)
    (Hite : ∀ w a, ite_alloc w = Some a -> a <> 0)
    (Hnew : ∀ s l s' l', R s l s' l' -> (∀ r, ~ has_entry s l n r) -> ∀ r, ~ has_entry s' l' n r)
    (I : space_inv sizes s g l next) (Hfuel : (length sizes + patience o < fuel)%nat) :
  runs (ipc_entry_alloc_name others table_alloc ite_alloc sizes uninit fuel n)
    (λ '(kr, p) w, named n s l kr p w) (World s false g o).
Proof.
  unfold ipc_entry_alloc_name.
  assert (Hlarge : n <> MACH_PORT_LARGEST).
  { intros ->. unfold MACH_PORT_VALID in Hvalid. by rewrite Z.eqb_refl, andb_false_r in Hvalid. }
  apply runs_bind, runs_assert; [done|].
  apply runs_bind, (lock_runs others sizes R patience Locking s g l next o); [done|]. intros s' g' o' H _.
  apply (alloc_name_loop_runs n Hn Hindex Hlarge Hite Hnew s l fuel s l o); [done|by apply en_same|done|lia|].
  intros Ha. destruct (H Ha) as (_ & ? & ? & l1 & next' & I' & _).
  destruct (next_its sizes s' next' (sw_next _ _ _ _ _ (si_wf _ _ _ _ _ I'))) as (k & Hk & _).
  cbn. lia.
Qed.
End environment.

(** The theorems with two failing attempts of others to grow the table. *)
Lemma grow_table_keeps_witness :
  runs (ipc_entry_grow_table growers (λ _, true) i386_entries junk_tree (length i386_entries + 2) ITS_SIZE_NONE)
    (grown_or_not i386_entries same_names id named_space no_names busy_free 32 2%nat)
    (World named_space true no_names 2%nat).
Proof.
  apply (grow_table_keeps growers (λ _, true) i386_entries junk_tree same_names id
    (length i386_entries + 2) named_space no_names busy_free 32 2%nat named_inv); [by vm_compute|apply le_n].
Defined.

Lemma entry_alloc_ends_witness :
  runs (ipc_entry_alloc growers (λ _, true) i386_entries junk_tree (S (length i386_entries + 2)))
    (λ '(kr, n) w, allocated i386_entries same_names named_space busy_free kr n w)
    (World named_space false no_names 2%nat).
Proof.
  apply (entry_alloc_ends growers (λ _, true) i386_entries junk_tree same_names id
    (length i386_entries + 2) named_space no_names busy_free 32 2%nat named_inv). apply le_n.
Defined.

Lemma entry_alloc_name_correct_witness :
  runs (ipc_entry_alloc_name growers (λ _, true) (λ _, Some 0x9000) i386_entries junk_tree
      (S (length i386_entries + 2)) 0x107)
    (λ '(kr, p) w, named i386_entries same_names 0x107 named_space busy_free kr p w)
    (World named_space false no_names 2%nat).
Proof.
  apply (entry_alloc_name_correct growers (λ _, true) (λ _, Some 0x9000) i386_entries junk_tree same_names id
    (S (length i386_entries + 2)) 0x107 named_space no_names busy_free 32 2%nat);
    [by vm_compute|by vm_compute|by vm_compute|by intros _ a [= <-]| |apply named_inv|apply le_n].
  intros s l s' l' H Hno r Hr. by apply (Hno r), H.
Defined.

(** * What goes wrong *)

(** A call that reports success and leaves the space unlocked. *)
Definition succeeds_unlocked {O : Type} (m : kern (world O) Z) (w : world O) : Prop :=
  runs m (λ kr w, kr = KERN_SUCCESS /\ w_locked w = false) w.

(** [task_set_port_space] with a size that the table already has releases the lock
    twice: [ipc_entry_grow_table] releases it in that case although its header promises it held
    after [KERN_SUCCESS], and [task_set_port_space] releases it again. *)
Theorem set_port_space_unlocks_twice {O : Type} (others : pause -> world O -> world O) table_alloc sizes uninit
    fuel table_entries s g o s1 lk1 g1 o1 its osize size
    (Hother : others Locking (World s false g o) = World s1 lk1 g1 o1) (Ha : is_active s1 = true)
    (Hg : is_growing s1 = false) (Hits : is_table_next s1 = S its)
    (Hold : sizes !! its = Some osize) (Hnext : sizes !! S its = Some size)
    (Hsize : u32 table_entries <= osize) (Hnone : u32 table_entries <> ITS_SIZE_NONE) :
  succeeds_unlocked (is_write_lock others Locking;;
    ipc_entry_grow_table others table_alloc sizes uninit (S fuel) (u32 table_entries)) (World s false g o) /\
  task_set_port_space others table_alloc sizes uninit (S fuel) table_entries (World s false g o) = None.
Proof.
  assert (E : (is_write_lock others Locking;;
      ipc_entry_grow_table others table_alloc sizes uninit (S fuel) (u32 table_entries)) (World s false g o) =
    Some (KERN_SUCCESS, World s1 false g1 o1)).
  { unfold is_write_lock, mbind, kern_bind, gets, assert_, modify. cbn [w_locked negb]. rewrite Hother.
    cbn [w_space w_buckets w_other ipc_entry_grow_table].
    unfold of_space, deref, is_write_unlock, gets, modify, assert_, mbind, kern_bind, mret, kern_ret. cbn [w_space id].
    rewrite Ha, Hg, Hits, Hold, Hnext. rewrite (proj2 (Z.eqb_neq _ _) Hnone), (proj2 (Z.leb_le _ _) Hsize).
    done. }
  split; [unfold succeeds_unlocked, runs; by rewrite E|].
  unfold task_set_port_space.
  unfold mbind, kern_bind in E |- *. destruct (is_write_lock others Locking _) as [[? w]|] eqn:El; [|done].
  rewrite E. done.
Qed.

Lemma set_port_space_unlocks_twice_witness :
  task_set_port_space (λ _ (w : world ()), w) (λ _, true) i386_entries junk_tree 1 16 (World first_space false no_names tt) = None.
Proof.
  apply (set_port_space_unlocks_twice (λ _ (w : world ()), w) (λ _, true) i386_entries junk_tree 0 16 first_space no_names tt
    first_space false no_names tt 0 16 32); first [done|by vm_compute].
Defined.

(** Slot 0 has the generation mask, which [ipc_entry_alloc_name] asserts it has not: a name
    with index 0 fails the assertion in every new space. *)
Example alloc_name_slot_zero fuel :
  ipc_entry_alloc_name (λ _ (w : world ()), w) (λ _, true) (λ _, Some 0x9000) i386_entries junk_tree (S fuel) 0x42
    (World first_space false no_names tt) = None.
Proof. by vm_compute. Qed.

End IpcEntryMain.
