(* ===== verification/Lockf.v ===== *)
(** Advisory byte-range locks, bsd/kern/kern_lockf.c: the list of the locks of a file, the
    overlap cases, setting, clearing and testing locks, blocking with deadlock detection, and
    waking.

    A lock is a node in a heap; the list of a file is linked through [lf_next], and a request
    that waits is off the list, its [lf_next] is the lock that blocks it and it is in the queue
    [lf_blkhd] of that lock.  An access through a null or freed pointer stops the machine.
    What other threads do while a request sleeps, the memory allocator and the threads of a
    process are parameters. *)

From S2P Require Import Prelude.

Module Lockf.

(** [s64] is the value of [z] in an [off_t]. *)
Definition s64 (z : Z) : Z := u64 (z + 2 ^ 63) - 2 ^ 63.
Definition OFF_MAX : Z := 2 ^ 63 - 1.

Definition EINTR : Z := 4.
Definition EDEADLK : Z := 11.
Definition EINVAL : Z := 22.
Definition EAGAIN : Z := 35.
Definition ENOLCK : Z := 77.
Definition EOVERFLOW : Z := 84.

(** Lock types and flags bsd/sys/fcntl.h, lines 259 to 268. *)
Definition F_RDLCK : Z := 1.
Definition F_UNLCK : Z := 2.
Definition F_WRLCK : Z := 3.
Definition F_WAIT : Z := 0x010.
Definition F_FLOCK : Z := 0x020.
Definition F_POSIX : Z := 0x040.
Definition F_WAKE1_SAFE : Z := 0x100.
Definition F_GETLK : Z := 7.
Definition F_SETLK : Z := 8.
Definition SEEK_SET : Z := 0.
Definition SEEK_CUR : Z := 1.
Definition SEEK_END : Z := 2.

(** [lockf] (bsd/sys/lockf.h, 87-98): pointers are numbers, null is 0; [lf_head] and [lf_vnode]
    are of the one file of the model; the queue [lf_blkhd] lists the requests that it links
    through their [lf_block]. *)
Record lockf := Lock {
  lf_flags : Z; lf_type : Z; lf_start : Z; lf_end : Z; lf_id : Z; lf_next : Z; lf_blkhd : list Z }.

#[global] Instance lockf_eq_dec : EqDecision lockf.
Proof. solve_decision. Defined.

Definition set_lf_flags v k := Lock v (lf_type k) (lf_start k) (lf_end k) (lf_id k) (lf_next k) (lf_blkhd k).
Definition set_lf_type v k := Lock (lf_flags k) v (lf_start k) (lf_end k) (lf_id k) (lf_next k) (lf_blkhd k).
Definition set_lf_start v k := Lock (lf_flags k) (lf_type k) v (lf_end k) (lf_id k) (lf_next k) (lf_blkhd k).
Definition set_lf_end v k := Lock (lf_flags k) (lf_type k) (lf_start k) v (lf_id k) (lf_next k) (lf_blkhd k).
Definition set_lf_next v k := Lock (lf_flags k) (lf_type k) (lf_start k) (lf_end k) (lf_id k) v (lf_blkhd k).
Definition set_lf_blkhd v k := Lock (lf_flags k) (lf_type k) (lf_start k) (lf_end k) (lf_id k) (lf_next k) v.

(** The file, the heap of locks, the requests that were woken, in order, and the rest. *)
Record files {O : Type} := Files {
  v_lockf : Z; heap : gmap Z lockf; woken : list Z; other : O }.
Arguments files : clear implicits.
Arguments Files {O}.

(** The [overlap_t] of the search (bsd/kern/kern_lockf.c, 118-125). *)
Inductive overlap_t :=
  | OVERLAP_NONE
  | OVERLAP_EQUALS_LOCK
  | OVERLAP_CONTAINS_LOCK
  | OVERLAP_CONTAINED_BY_LOCK
  | OVERLAP_STARTS_BEFORE_LOCK
  | OVERLAP_ENDS_AFTER_LOCK.

#[global] Instance overlap_t_eq_dec : EqDecision overlap_t.
Proof. solve_decision. Defined.

(** Which locks a search looks at: the tests of [SELF] and [OTHERS]. *)
Inductive check_t := SELF | OTHERS.

(** A [struct lockf **]: the head of the list or the link of a lock. *)
Inductive place := Head | NextOf (p : Z).

(** The request of a user and what is reported to him (bsd/sys/fcntl.h, 345-351). *)
Record flock := Flock { l_start : Z; l_len : Z; l_pid : Z; l_type : Z; l_whence : Z }.

Section locks.
Context {O : Type}.

Abbreviation K := (kern (files O)).

(** [MALLOC]; the threads of a process, for each the channel it sleeps on in this code;
    [msleep] on a request, with what others do meanwhile, and its error. *)
Context (malloc : files O -> option Z).
Context (p_uthlist : files O -> Z -> list (option Z)).
Context (msleep : Z -> files O -> Z * files O).
Context (proc_pid : Z -> Z).

Definition set_v_lockf v (s : files O) := Files v (heap s) (woken s) (other s).
Definition set_heap v (s : files O) := Files (v_lockf s) v (woken s) (other s).
Definition set_woken v (s : files O) := Files (v_lockf s) (heap s) v (other s).

Definition load (p : Z) : K lockf := deref (λ s, heap s !! p).
Definition store (p : Z) (f : lockf -> lockf) : K unit :=
  k ← load p; modify (λ s, set_heap (<[p := f k]> (heap s)) s).
Definition FREE (p : Z) : K unit := _ ← load p; modify (λ s, set_heap (delete p (heap s)) s).

Definition read_place (pl : place) : K Z :=
  match pl with Head => gets v_lockf | NextOf p => k ← load p; mret (lf_next k) end.
Definition write_place (pl : place) (v : Z) : K unit :=
  match pl with Head => modify (set_v_lockf v) | NextOf p => store p (set_lf_next v) end.

(** The number of steps that is enough to walk the list. *)
Definition steps : K nat := gets (λ s, S (base.size (heap s))).

(** [lf_findoverlap], the case of one lock that is looked at; none when the two do not
    overlap (bsd/kern/kern_lockf.c, 940-977). *)
Definition overlap_case (lf : lockf) (start end_ : Z) : option overlap_t :=
  if (negb (lf_end lf =? -1) && (lf_end lf <? start)) || (negb (end_ =? -1) && (end_ <? lf_start lf))
  then Some OVERLAP_NONE
  else if (lf_start lf =? start) && (lf_end lf =? end_) then Some OVERLAP_EQUALS_LOCK
  else if (lf_start lf <=? start) && negb (end_ =? -1) && ((end_ <=? lf_end lf) || (lf_end lf =? -1))
  then Some OVERLAP_CONTAINS_LOCK
  else if (start <=? lf_start lf)
          && ((end_ =? -1) || (negb (lf_end lf =? -1) && (lf_end lf <=? end_)))
  then Some OVERLAP_CONTAINED_BY_LOCK
  else if (lf_start lf <? start) && ((start <=? lf_end lf) || (lf_end lf =? -1))
  then Some OVERLAP_STARTS_BEFORE_LOCK
  else if (start <? lf_start lf) && negb (end_ =? -1) && ((end_ <? lf_end lf) || (lf_end lf =? -1))
  then Some OVERLAP_ENDS_AFTER_LOCK
  else None.

(** The locks a search passes over (bsd/kern/kern_lockf.c, 927-932). *)
Definition passed_over (type : check_t) (lf lock : lockf) : bool :=
  match type with
  | SELF => negb (lf_id lf =? lf_id lock)
  | OTHERS => lf_id lf =? lf_id lock
  end.

(** [lf_findoverlap], the loop: the case, [*prev] and [*overlap]
    (bsd/kern/kern_lockf.c, 926-979). *)
Fixpoint findoverlap_loop (fuel : nat) (lf : Z) (lock : lockf) (type : check_t) (prev : place)
    : K (overlap_t * place * Z) :=
  match fuel with
  | 0%nat => panic
  | S fuel =>
      if lf =? 0 then mret (OVERLAP_NONE, prev, lf)
      else
        k ← load lf;
        if passed_over type k lock then findoverlap_loop fuel (lf_next k) lock type (NextOf lf)
        else
          c ← deref (λ _, overlap_case k (lf_start lock) (lf_end lock));
          match c with
          | OVERLAP_NONE =>
              if (match type with SELF => true | OTHERS => false end)
                 && negb (lf_end lock =? -1) && (lf_end lock <? lf_start k)
              then mret (OVERLAP_NONE, prev, lf)
              else findoverlap_loop fuel (lf_next k) lock type (NextOf lf)
          | c => mret (c, prev, lf)
          end
  end.

(** [lf_findoverlap] (bsd/kern/kern_lockf.c, 911-980). *)
Definition lf_findoverlap (lf lock : Z) (type : check_t) (prev : place) : K (overlap_t * place * Z) :=
  lock ← load lock;
  n ← steps;
  findoverlap_loop n lf lock type prev.

(** [lf_getblock], the loop (bsd/kern/kern_lockf.c, 851-863). *)
Fixpoint getblock_loop (fuel : nat) (lf lock : Z) (prev : place) : K Z :=
  match fuel with
  | 0%nat => panic
  | S fuel =>
      '(ovcase, prev, overlap) ← lf_findoverlap lf lock OTHERS prev;
      match ovcase with
      | OVERLAP_NONE => mret 0
      | _ =>
          k ← load lock;
          o ← load overlap;
          if (lf_type k =? F_WRLCK) || (lf_type o =? F_WRLCK) then mret overlap
          else getblock_loop fuel (lf_next o) lock prev
      end
  end.

(** [lf_getblock] (bsd/kern/kern_lockf.c, 844-864). *)
Definition lf_getblock (lock : Z) : K Z :=
  lf ← gets v_lockf;
  n ← steps;
  getblock_loop n lf lock Head.

(** [lf_split] (bsd/kern/kern_lockf.c, 1006-1050). *)
Definition lf_split (lock1 lock2 : Z) : K Z :=
  k1 ← load lock1;
  k2 ← load lock2;
  if lf_start k1 =? lf_start k2 then
    store lock1 (set_lf_start (s64 (lf_end k2 + 1)));;
    store lock2 (set_lf_next lock1);;
    mret 0
  else if lf_end k1 =? lf_end k2 then
    store lock1 (set_lf_end (s64 (lf_start k2 - 1)));;
    store lock2 (set_lf_next (lf_next k1));;
    store lock1 (set_lf_next lock2);;
    mret 0
  else
    new ← gets malloc;
    match new with
    | None => mret ENOLCK
    | Some splitlock =>
        modify (λ s, set_heap (<[splitlock := k1]> (heap s)) s);;
        store splitlock (set_lf_start (s64 (lf_end k2 + 1)));;
        store splitlock (set_lf_blkhd []);;
        store lock1 (set_lf_end (s64 (lf_start k2 - 1)));;
        store splitlock (set_lf_next (lf_next k1));;
        store lock2 (set_lf_next splitlock);;
        store lock1 (set_lf_next lock2);;
        mret 0
    end.

(** [TAILQ_FOREACH] that sets [lf_next]. *)
Fixpoint set_nexts (l : list Z) (v : Z) : K unit :=
  match l with
  | [] => mret tt
  | t :: l => store t (set_lf_next v);; set_nexts l v
  end.

(** [wakeup] of a request. *)
Definition wakeup (p : Z) : K unit := modify (λ s, set_woken (woken s ++ [p]) s).

(** [lf_wakelock], the loop (bsd/kern/kern_lockf.c, 1080-1109); it ends after the requests that
    are in the queue. *)
Fixpoint wake_loop (n : nat) (listhead : Z) (wake_all : bool) : K unit :=
  match n with
  | 0%nat => mret tt
  | S n =>
      k ← load listhead;
      match lf_blkhd k with
      | [] => mret tt
      | wakelock :: rest =>
          store listhead (set_lf_blkhd rest);;
          store wakelock (set_lf_next 0);;
          if wake_all then wakeup wakelock;; wake_loop n listhead wake_all
          else
            match rest with
            | [] => wakeup wakelock
            | _ =>
                w ← load wakelock;
                store wakelock (set_lf_blkhd (lf_blkhd w ++ rest));;
                store listhead (set_lf_blkhd []);;
                set_nexts (lf_blkhd w ++ rest) wakelock;;
                wakeup wakelock
            end
      end
  end.

(** [lf_wakelock] (bsd/kern/kern_lockf.c, 1071-1110). *)
Definition lf_wakelock (listhead : Z) (force_all : bool) : K unit :=
  k ← load listhead;
  wake_loop (length (lf_blkhd k)) listhead
    (negb (negb force_all && truth (lf_flags k &&& F_WAKE1_SAFE))).

(** [lf_coelesce_adjacent], the loop (bsd/kern/kern_lockf.c, 317-353). *)
Fixpoint coelesce_loop (fuel : nat) (lf : place) (lock : Z) : K unit :=
  match fuel with
  | 0%nat => panic
  | S fuel =>
      adjacent ← read_place lf;
      if adjacent =? 0 then mret tt
      else
        k ← load adjacent;
        l ← load lock;
        if (adjacent =? lock) || negb (lf_id k =? lf_id l) || negb (lf_type k =? lf_type l)
        then coelesce_loop fuel (NextOf adjacent) lock
        else if negb (lf_end k =? -1) && (s64 (lf_end k + 1) =? lf_start l) then
          store lock (set_lf_start (lf_start k));;
          write_place lf lock;;
          FREE adjacent;;
          coelesce_loop fuel (NextOf lock) lock
        else if negb (lf_end l =? -1) && (s64 (lf_end l + 1) =? lf_start k) then
          store lock (set_lf_end (lf_end k));;
          store lock (set_lf_next (lf_next k));;
          FREE adjacent;;
          coelesce_loop fuel (NextOf lock) lock
        else coelesce_loop fuel (NextOf adjacent) lock
  end.

(** [lf_coelesce_adjacent] (bsd/kern/kern_lockf.c, 312-354). *)
Definition lf_coelesce_adjacent (lock : Z) : K unit :=
  n ← steps;
  coelesce_loop n Head lock.

(** [lf_clearlock], the loop (bsd/kern/kern_lockf.c, 724-770). *)
Fixpoint clear_loop (fuel : nat) (lf unlock : Z) (prev : place) : K Z :=
  match fuel with
  | 0%nat => panic
  | S fuel =>
      '(ovcase, prev, overlap) ← lf_findoverlap lf unlock SELF prev;
      match ovcase with
      | OVERLAP_NONE => mret 0
      | _ =>
          lf_wakelock overlap false;;
          o ← load overlap;
          u ← load unlock;
          match ovcase with
          | OVERLAP_NONE => panic
          | OVERLAP_EQUALS_LOCK =>
              write_place prev (lf_next o);; FREE overlap;; mret 0
          | OVERLAP_CONTAINS_LOCK =>
              if lf_start o =? lf_start u then
                store overlap (set_lf_start (s64 (lf_end u + 1)));; mret 0
              else
                error ← lf_split overlap unlock;
                if negb (error =? 0) then mret ENOLCK
                else
                  u ← load unlock;
                  store overlap (set_lf_next (lf_next u));; mret 0
          | OVERLAP_CONTAINED_BY_LOCK =>
              write_place prev (lf_next o);; FREE overlap;;
              clear_loop fuel (lf_next o) unlock prev
          | OVERLAP_STARTS_BEFORE_LOCK =>
              store overlap (set_lf_end (s64 (lf_start u - 1)));;
              clear_loop fuel (lf_next o) unlock (NextOf overlap)
          | OVERLAP_ENDS_AFTER_LOCK =>
              store overlap (set_lf_start (s64 (lf_end u + 1)));; mret 0
          end
      end
  end.

(** [lf_clearlock] (bsd/kern/kern_lockf.c, 707-776). *)
Definition lf_clearlock (unlock : Z) : K Z :=
  lf ← gets v_lockf;
  if lf =? 0 then mret 0
  else n ← steps; clear_loop n lf unlock Head.

(** ** Blocking *)

Definition maxlockdepth : nat := 50.

(** [lf_setlock], the search behind one thread: whether it waits for a lock of [id], and the
    depth reached (bsd/kern/kern_lockf.c, 445-483). *)
Fixpoint thread_waits_for (fuel : nat) (uu_wchan id : Z) (depth : nat) : K (bool * nat) :=
  match fuel with
  | 0%nat => panic
  | S fuel =>
      if (depth <? maxlockdepth)%nat then
        w ← load uu_wchan;
        let waitblock := lf_next w in
        if waitblock =? 0 then mret (false, S depth)
        else
          b ← load waitblock;
          if negb (truth (lf_flags b &&& F_POSIX)) then mret (false, S depth)
          else if lf_id b =? id then mret (true, S depth)
          else thread_waits_for fuel uu_wchan id (S depth)
      else mret (false, S depth)
  end.

(** [lf_setlock], the search for a deadlock over the threads of the process that holds the
    blocking lock (bsd/kern/kern_lockf.c, 436-484). *)
Fixpoint deadlock_loop (threads : list (option Z)) (id : Z) (depth : nat) : K bool :=
  match threads with
  | [] => mret false
  | None :: threads => deadlock_loop threads id depth
  | Some uu_wchan :: threads =>
      '(found, depth) ← thread_waits_for (S maxlockdepth) uu_wchan id depth;
      if (found : bool) then mret true else deadlock_loop threads id depth
  end.

(** [lf_setlock], a request takes the place in the queue of [block]
    (bsd/kern/kern_lockf.c, 506-510). *)
Definition enqueue (lock block : Z) : K unit :=
  store lock (set_lf_next block);;
  store block (λ b, set_lf_blkhd (lf_blkhd b ++ [lock]) b);;
  l ← load lock;
  if negb (truth (lf_flags l &&& F_FLOCK))
  then store block (λ b, set_lf_flags (Z.ldiff (lf_flags b) F_WAKE1_SAFE) b)
  else mret tt.

(** [lf_setlock], after the sleep the requests queued on this one move to the lock that blocks
    it now (bsd/kern/kern_lockf.c, 520-529). *)
Definition requeue (lock : Z) : K unit :=
  l ← load lock;
  match lf_blkhd l with
  | [] => mret tt
  | waiters =>
      block ← lf_getblock lock;
      if block =? 0 then mret tt
      else
        set_nexts waiters block;;
        store block (λ b, set_lf_blkhd (lf_blkhd b ++ waiters) b);;
        store lock (set_lf_blkhd [])
  end.

(** [lf_setlock], a request gives up after the sleep (bsd/kern/kern_lockf.c, 539-546). *)
Definition abandon (lock : Z) : K unit :=
  l ← load lock;
  (if negb (lf_next l =? 0) then
     store (lf_next l) (λ b, set_lf_blkhd (filter (λ w, w <> lock) (lf_blkhd b)) b);;
     store lock (set_lf_next 0)
   else mret tt);;
  l ← load lock;
  (match lf_blkhd l with [] => mret tt | _ => lf_wakelock lock true end);;
  FREE lock.

(** [lf_setlock], the loop while another lock blocks the request: an error, or none when
    nothing blocks it (bsd/kern/kern_lockf.c, 407-549). *)
Fixpoint block_loop (fuel : nat) (lock : Z) : K (option Z) :=
  match fuel with
  | 0%nat => panic
  | S fuel =>
      block ← lf_getblock lock;
      if block =? 0 then mret None
      else
        l ← load lock;
        if negb (truth (lf_flags l &&& F_WAIT)) then FREE lock;; mret (Some EAGAIN)
        else
          b ← load block;
          deadlock ← (if truth (lf_flags l &&& F_POSIX) && truth (lf_flags b &&& F_POSIX) then
                        threads ← gets (λ s, p_uthlist s (lf_id b));
                        deadlock_loop threads (lf_id l) 0
                      else mret false);
          if (deadlock : bool) then FREE lock;; mret (Some EDEADLK)
          else
            error ← (if truth (lf_flags l &&& F_FLOCK) && (lf_type l =? F_WRLCK) then
                       store lock (set_lf_type F_UNLCK);;
                       error ← lf_clearlock lock;
                       if negb (error =? 0) then FREE lock;; mret error
                       else store lock (set_lf_type F_WRLCK);; mret 0
                     else mret 0);
            if negb (error =? 0) then mret (Some error)
            else
              enqueue lock block;;
              error ← (λ s, Some (msleep lock s));
              requeue lock;;
              if negb (error =? 0) then abandon lock;; mret (Some error)
              else block_loop fuel lock
  end.

(** ** Setting a lock *)

(** [lf_setlock], the queue of [overlap] moves to [lock] (bsd/kern/kern_lockf.c, 631-638). *)
Definition take_queue (overlap lock : Z) : K unit :=
  o ← load overlap;
  store overlap (set_lf_blkhd []);;
  store lock (λ l, set_lf_blkhd (lf_blkhd l ++ lf_blkhd o) l);;
  set_nexts (lf_blkhd o) lock.

(** [lf_setlock], the loop over the locks of the owner that overlap: an error, or the lock that
    is on the list in the end (bsd/kern/kern_lockf.c, 558-678). *)
Fixpoint link_loop (fuel : nat) (lock block : Z) (prev : place) (needtolink : bool) : K (Z + Z) :=
  match fuel with
  | 0%nat => panic
  | S fuel =>
      '(ovcase, prev, overlap) ← lf_findoverlap block lock SELF prev;
      match ovcase with
      | OVERLAP_NONE =>
          (if needtolink then write_place prev lock;; store lock (set_lf_next overlap) else mret tt);;
          mret (inr lock)
      | _ =>
          o ← load overlap;
          l ← load lock;
          let block := lf_next o in
          match ovcase with
          | OVERLAP_NONE => panic
          | OVERLAP_EQUALS_LOCK =>
              (if (lf_type l =? F_RDLCK) && (lf_type o =? F_WRLCK) then lf_wakelock overlap true else mret tt);;
              store overlap (set_lf_type (lf_type l));;
              FREE lock;;
              mret (inr overlap)
          | OVERLAP_CONTAINS_LOCK =>
              if lf_type o =? lf_type l then FREE lock;; mret (inr overlap)
              else
                error ← (if lf_start o =? lf_start l then
                           write_place prev lock;;
                           store lock (set_lf_next overlap);;
                           store overlap (set_lf_start (s64 (lf_end l + 1)));;
                           mret 0
                         else lf_split overlap lock);
                if negb (error =? 0) then FREE lock;; mret (inl ENOLCK)
                else lf_wakelock overlap true;; mret (inr lock)
          | OVERLAP_CONTAINED_BY_LOCK =>
              (if (lf_type l =? F_RDLCK) && (lf_type o =? F_WRLCK) then lf_wakelock overlap true
               else take_queue overlap lock);;
              prev ← (if needtolink then
                        write_place prev lock;;
                        store lock (set_lf_next block);;
                        mret (NextOf lock)
                      else write_place prev block;; mret prev);
              FREE overlap;;
              link_loop fuel lock block prev false
          | OVERLAP_STARTS_BEFORE_LOCK =>
              store lock (set_lf_next block);;
              store overlap (set_lf_next lock);;
              store overlap (set_lf_end (s64 (lf_start l - 1)));;
              lf_wakelock overlap true;;
              link_loop fuel lock block (NextOf lock) false
          | OVERLAP_ENDS_AFTER_LOCK =>
              (if needtolink then write_place prev lock;; store lock (set_lf_next overlap) else mret tt);;
              store overlap (set_lf_start (s64 (lf_end l + 1)));;
              lf_wakelock overlap true;;
              mret (inr lock)
          end
      end
  end.

(** [lf_setlock] (bsd/kern/kern_lockf.c, 379-688). *)
Definition lf_setlock (fuel : nat) (lock : Z) : K Z :=
  blocked ← block_loop fuel lock;
  match blocked with
  | Some error => mret error
  | None =>
      block ← gets v_lockf;
      n ← steps;
      linked ← link_loop n lock block Head true;
      match linked with
      | inl error => mret error
      | inr lock => lf_coelesce_adjacent lock;; mret 0
      end
  end.

(** [lf_getlock] (bsd/kern/kern_lockf.c, 800-826). *)
Definition lf_getlock (lock : Z) (fl : flock) : K flock :=
  block ← lf_getblock lock;
  if block =? 0 then mret (Flock (l_start fl) (l_len fl) (l_pid fl) F_UNLCK (l_whence fl))
  else
    b ← load block;
    mret (Flock (lf_start b)
      (if lf_end b =? -1 then 0 else s64 (lf_end b - lf_start b + 1))
      (if truth (lf_flags b &&& F_POSIX) then proc_pid (lf_id b) else -1)
      (lf_type b) SEEK_SET).

(** ** Requests *)

(** [lf_advlock], the first and last byte of a request, given the answer of [vnode_size]
    (bsd/kern/kern_lockf.c, 189-248). *)
Definition lock_range (vnode_size : Z + Z) (fl : flock) : Z + Z * Z :=
  let from start :=
    if start <? 0 then inl EINVAL
    else if l_len fl <? 0 then
      if start =? 0 then inl EINVAL
      else
        let start' := s64 (start + l_len fl) in
        if start' <? 0 then inl EINVAL else inr (start', s64 (start - 1))
    else if l_len fl =? 0 then inr (start, -1)
    else
      let oadd := s64 (l_len fl - 1) in
      if s64 (OFF_MAX - start) <? oadd then inl EOVERFLOW else inr (start, s64 (start + oadd)) in
  if (l_whence fl =? SEEK_SET) || (l_whence fl =? SEEK_CUR) then from (l_start fl)
  else if l_whence fl =? SEEK_END then
    match vnode_size with
    | inl error => inl error
    | inr size =>
        if (OFF_MAX <? u64 size) || ((0 <? l_start fl) && (u64 (OFF_MAX - l_start fl) <? u64 size))
        then inl EOVERFLOW
        else from (s64 (size + l_start fl))
    end
  else inl EINVAL.

(** [lf_advlock] (bsd/kern/kern_lockf.c, 161-296). *)
Definition lf_advlock (fuel : nat) (vnode_size : Z + Z) (a_id a_op a_flags : Z) (fl : flock)
    : K (Z * flock) :=
  head ← gets v_lockf;
  if (head =? 0) && negb (a_op =? F_SETLK) then
    mret (0, Flock (l_start fl) (l_len fl) (l_pid fl) F_UNLCK (l_whence fl))
  else
    match lock_range vnode_size fl with
    | inl error => mret (error, fl)
    | inr (start, end_) =>
        new ← gets malloc;
        match new with
        | None => mret (ENOLCK, fl)
        | Some lock =>
            let flags := if truth (a_flags &&& F_FLOCK) then a_flags ||| F_WAKE1_SAFE else a_flags in
            modify (λ s, set_heap (<[lock := Lock flags (l_type fl) start end_ a_id 0 []]> (heap s)) s);;
            if a_op =? F_SETLK then error ← lf_setlock fuel lock; mret (error, fl)
            else if a_op =? F_UNLCK then error ← lf_clearlock lock; FREE lock;; mret (error, fl)
            else if a_op =? F_GETLK then fl ← lf_getlock lock fl; FREE lock;; mret (0, fl)
            else FREE lock;; mret (EINVAL, fl)
        end
    end.
End locks.

End Lockf.
