(* ===== verification/LockfSpec.v ===== *)
(** The list of the locks of a file as a sequence of ranges: what the searches find, and what
    clearing, setting and coalescing make of the sequence, with the queues of the requests that
    wait. *)

From S2P Require Import Prelude.
From S2P Require Import Lockf.
Import Lockf.Lockf.

Module LockfSpec.

(** * Ranges *)

Definition covers (k : lockf) (b : Z) : Prop := lf_start k <= b /\ (lf_end k = -1 \/ b <= lf_end k).

(** A range whose end, if any, is not the last offset: one more is an offset too. *)
Definition range_ok (k : lockf) : Prop :=
  0 <= lf_start k <= OFF_MAX /\ (lf_end k = -1 \/ lf_start k <= lf_end k < OFF_MAX).

(** What of a lock matters to others: its owner, type and range. *)
Definition core (k : lockf) : lockf := Lock 0 (lf_type k) (lf_start k) (lf_end k) (lf_id k) 0 [].

Lemma s64_small z : - 2 ^ 63 <= z < 2 ^ 63 -> s64 z = z.
Proof. intros. unfold s64. rewrite wrap_small by (unfold in_range; lia). lia. Qed.

(** Two locks of an owner are in the order of their ranges. *)
Definition before (p q : lockf) : Prop :=
  lf_id p = lf_id q -> lf_end p <> -1 /\ lf_end p < lf_start q.

Abbreviation ordered := (StronglySorted before).

Lemma ordered_app A B : ordered (A ++ B) <->
  ordered A /\ ordered B /\ ∀ p q, p ∈ A -> q ∈ B -> before p q.
Proof.
  induction A as [|a A IH]; cbn.
  - split; [intros H; split; [constructor|split; [done|by intros ? ? ?%elem_of_nil]]|tauto].
  - split.
    + intros H. inversion H as [|? ? H1 H2]; subst. apply IH in H1 as (H3 & H4 & H5).
      apply Forall_app in H2 as [H6 H7]. rewrite Forall_forall in H7.
      split; [by constructor|]. split; [done|]. intros p q [->|Hp]%elem_of_cons Hq; auto.
    + intros (H1 & H2 & H3). inversion H1; subst. constructor.
      * apply IH. split; [done|]. split; [done|]. intros p q Hp. apply H3. by right.
      * apply Forall_app. split; [done|]. apply Forall_forall. intros q Hq. apply H3; [by left|done].
Qed.

Lemma ordered_cons a B : ordered (a :: B) <-> ordered B /\ ∀ q, q ∈ B -> before a q.
Proof.
  change (a :: B) with ([a] ++ B). rewrite ordered_app. split.
  - intros (_ & H1 & H2). split; [done|]. intros q. apply H2. by left.
  - intros [H1 H2]. split; [by repeat constructor|]. split; [done|].
    intros p q ->%list_elem_of_singleton. apply H2.
Qed.

(** * The list in the heap *)

(** The locks linked from the pointer [p] on to [q]: pointers and cores. *)
Fixpoint rep (h : gmap Z lockf) (p : Z) (A : list (Z * lockf)) (q : Z) : Prop :=
  match A with
  | [] => p = q
  | (x, r) :: A => p = x /\ x <> 0 /\ ∃ k, h !! x = Some k /\ core k = r /\ rep h (lf_next k) A q
  end.

(** The place that points behind the locks [A]. *)
Definition place_of (A : list (Z * lockf)) : place :=
  match last A with None => Head | Some (x, _) => NextOf x end.

(** The first pointer of the locks [B] at the end of a list. *)
Definition first (B : list (Z * lockf)) : Z := match B with [] => 0 | (x, _) :: _ => x end.

Lemma rep_app h A B : ∀ p q, rep h p (A ++ B) q <-> ∃ m, rep h p A m /\ rep h m B q.
Proof.
  induction A as [|[x r] A IH]; intros p q; cbn.
  - split; [by exists p|by intros (m & -> & ?)].
  - setoid_rewrite IH. split.
    + intros (-> & Hx & k & Hk & Hr & m & H1 & H2). exists m. split; [|done]. do 2 (split; [done|]). by exists k.
    + intros (m & (-> & Hx & k & Hk & Hr & H1) & H2). do 2 (split; [done|]). exists k. do 2 (split; [done|]). by exists m.
Qed.

Lemma rep_first h p B : rep h p B 0 -> p = first B.
Proof. destruct B as [|[x r] B]; cbn; [done|tauto]. Qed.

Lemma rep_same h h' A : (∀ x, x ∈ A.*1 -> h' !! x = h !! x) -> ∀ p q, rep h p A q -> rep h' p A q.
Proof.
  induction A as [|[x r] A IH]; intros Hh p q; cbn; [done|].
  intros (-> & Hx & k & Hk & Hr & H). do 2 (split; [done|]). exists k.
  rewrite Hh by (by left). do 2 (split; [done|]). apply IH; [|done]. intros y Hy. apply Hh. by right.
Qed.

(** A heap that differs in the queues, and in the links of other locks. *)
Lemma rep_core h h' A : (∀ x k, x ∈ A.*1 -> h !! x = Some k ->
  ∃ k', h' !! x = Some k' /\ core k' = core k /\ lf_next k' = lf_next k) -> ∀ p q, rep h p A q -> rep h' p A q.
Proof.
  induction A as [|[x r] A IH]; intros Hh p q; cbn; [done|].
  intros (-> & Hx & k & Hk & Hr & H). do 2 (split; [done|]).
  destruct (Hh x k ltac:(by left) Hk) as (k' & Hk' & Hc & En). exists k'. rewrite Hc, En.
  do 2 (split; [done|]). apply IH; [|done]. intros y k0 Hy. apply Hh. by right.
Qed.

Lemma rep_in h p A q x r : rep h p A q -> (x, r) ∈ A -> x <> 0 /\ ∃ k, h !! x = Some k /\ core k = r.
Proof.
  revert p. induction A as [|[y r'] A IH]; intros p; [by intros _ ?%elem_of_nil|].
  intros (-> & Hy & k & Hk & Hr & H) [E|Hin]%elem_of_cons; [|by eapply IH].
  injection E as -> ->. split; [done|]. by exists k.
Qed.

Lemma rep_no_null h p A q : rep h p A q -> 0 ∉ A.*1.
Proof. intros H [[x r] [E Hin]]%list_elem_of_fmap. cbn in E. subst. by destruct (rep_in _ _ _ _ _ _ H Hin). Qed.

Lemma rep_last h p A x r q : rep h p (A ++ [(x, r)]) q ->
  ∃ k, rep h p A x /\ x <> 0 /\ h !! x = Some k /\ core k = r /\ lf_next k = q.
Proof. rewrite rep_app. intros (m & H1 & -> & Hx & k & Hk & Hr & Hq). by exists k. Qed.

Lemma rep_link h p A q q' : NoDup A.*1 -> rep h p A q -> A <> [] ->
  ∃ x k, place_of A = NextOf x /\ h !! x = Some k /\ x ∈ A.*1 /\ rep (<[x := set_lf_next q' k]> h) p A q'.
Proof.
  intros Hnd H Hne. destruct (exists_last Hne) as (A' & [x r] & ->).
  apply rep_last in H as (k & H & Hx & Hk & Hr & _).
  rewrite fmap_app in Hnd. apply NoDup_app in Hnd as (_ & Hno & _).
  exists x, k. split; [unfold place_of; by rewrite last_snoc|]. split; [done|].
  split; [rewrite fmap_app; apply elem_of_app; right; by left|].
  apply rep_app. exists x. split.
  - eapply rep_same; [|exact H]. intros y Hy. rewrite lookup_insert_ne; [done|]. intros <-.
    apply (Hno x Hy). by left.
  - do 2 (split; [done|]). exists (set_lf_next q' k). by rewrite lookup_insert_eq.
Qed.

Lemma rep_size h p A q : NoDup A.*1 -> rep h p A q -> (length A <= base.size h)%nat.
Proof.
  intros Hnd H. rewrite <- (length_fmap fst), <- size_dom.
  rewrite <- (size_list_to_set (C := gset Z)) by done. apply subseteq_size.
  intros x [[y r] [-> Hin]]%elem_of_list_to_set%list_elem_of_fmap.
  destruct (rep_in _ _ _ _ _ _ H Hin) as (_ & k & Hk & _). by apply elem_of_dom.
Qed.

Lemma place_of_snoc A x r : place_of (A ++ [(x, r)]) = NextOf x.
Proof. unfold place_of. by rewrite last_snoc. Qed.

(** * Queues *)

Definition waits (h : gmap Z lockf) (w : Z) : Prop := ∃ x k, h !! x = Some k /\ w ∈ lf_blkhd k.

(** The requests that wait are in the heap, but not among [L]. *)
Definition queue_ok (h : gmap Z lockf) (L : list Z) : Prop := ∀ w, waits h w -> (w ∉ L) /\ is_Some (h !! w).

(** A heap that differs from another in the queues, and in the links of locks outside [L]. *)
Record requeued (L : list Z) (h h' : gmap Z lockf) : Prop := {
  rq_dom x : is_Some (h' !! x) <-> is_Some (h !! x);
  rq_core x k : h !! x = Some k -> ∃ k', h' !! x = Some k' /\ core k' = core k /\
    (x ∈ L -> lf_next k' = lf_next k);
  rq_waits w : waits h' w -> waits h w }.

Lemma requeued_refl L h : requeued L h h.
Proof. split; [done| |done]. intros x k Hk. by exists k. Qed.

Lemma requeued_trans L h1 h2 h3 : requeued L h1 h2 -> requeued L h2 h3 -> requeued L h1 h3.
Proof.
  intros [A1 A2 A3] [B1 B2 B3]. split.
  - intros x. by rewrite B1.
  - intros x k (k1 & H1 & C1 & N1)%A2. destruct (B2 x k1 H1) as (k2 & H2 & C2 & N2).
    exists k2. split; [done|]. split; [by rewrite C2|]. intros Hx. by rewrite N2, N1.
  - auto.
Qed.

Lemma requeued_queue_ok L L' h h' : requeued L h h' -> queue_ok h L' -> queue_ok h' L'.
Proof. intros [A1 _ A3] H w [Hw Hd]%A3%H. split; [done|]. by apply A1. Qed.

Lemma requeued_rep L h h' A p q : requeued L h h' -> (∀ x, x ∈ A.*1 -> x ∈ L) -> rep h p A q -> rep h' p A q.
Proof.
  intros [_ A2 _] Hin. apply rep_core. intros x k Hx Hk. destruct (A2 x k Hk) as (k' & ? & ? & En).
  exists k'. auto.
Qed.

(** A change of the queue of one lock, or of the link of a lock outside [L]. *)
Lemma requeued_insert L h x k k' : h !! x = Some k -> core k' = core k ->
  (x ∈ L -> lf_next k' = lf_next k) -> (∀ w, w ∈ lf_blkhd k' -> waits h w) -> requeued L h (<[x := k']> h).
Proof.
  intros Hk Hc Hn Hw. split.
  - intros y. destruct (decide (y = x)) as [->|]; [by rewrite lookup_insert_eq, Hk|by rewrite lookup_insert_ne].
  - intros y ky Hy. destruct (decide (y = x)) as [->|].
    + rewrite Hk in Hy. injection Hy as <-. exists k'. by rewrite lookup_insert_eq.
    + exists ky. by rewrite lookup_insert_ne.
  - intros w (y & ky & Hy & Hin). apply lookup_insert_Some in Hy as [[<- <-]|[_ Hy]]; [auto|by exists y, ky].
Qed.

Section runs.
Context {O : Type}.
Context (malloc : files O -> option Z) (p_uthlist : files O -> Z -> list (option Z)).
Context (msleep : Z -> files O -> Z * files O) (proc_pid : Z -> Z).

Lemma r_load p k (Q : lockf -> files O -> Prop) s : heap s !! p = Some k -> Q k s -> runs (load p) Q s.
Proof. intros. by apply (runs_deref (λ s, heap s !! p) k). Qed.

Lemma r_store p f k (Q : unit -> files O -> Prop) s : heap s !! p = Some k ->
  Q tt (set_heap (<[p := f k]> (heap s)) s) -> runs (store p f) Q s.
Proof. intros. apply runs_bind, (r_load p k); [done|]. by apply runs_modify. Qed.

Lemma r_free p k (Q : unit -> files O -> Prop) s : heap s !! p = Some k ->
  Q tt (set_heap (delete p (heap s)) s) -> runs (FREE p) Q s.
Proof. intros. apply runs_bind, (r_load p k); [done|]. by apply runs_modify. Qed.

(** ** The search *)

Definition skipped (type : check_t) (c r : lockf) : Prop :=
  passed_over type r c = true \/
  (overlap_case r (lf_start c) (lf_end c) = Some OVERLAP_NONE /\
   (type = SELF -> lf_end c = -1 \/ lf_start r <= lf_end c)).

(** What the search stands at. *)
Definition search_ends (type : check_t) (c : lockf) (oc : overlap_t) (B : list (Z * lockf)) : Prop :=
  match oc with
  | OVERLAP_NONE => B = [] \/ (type = SELF /\ ∃ x r B', B = (x, r) :: B' /\ lf_id r = lf_id c /\
      lf_end c <> -1 /\ lf_end c < lf_start r)
  | _ => ∃ x r B', B = (x, r) :: B' /\ passed_over type r c = false /\
      overlap_case r (lf_start c) (lf_end c) = Some oc
  end.

Lemma findoverlap_loop_runs type lock s (Q : overlap_t * place * Z -> files O -> Prop) : ∀ B A fuel p,
  rep (heap s) p B 0 -> (length B < fuel)%nat ->
  (∀ x r, (x, r) ∈ B -> passed_over type r lock = false -> is_Some (overlap_case r (lf_start lock) (lf_end lock))) ->
  (∀ oc B1 B2, B = B1 ++ B2 -> Forall (skipped type lock) B1.*2 -> search_ends type lock oc B2 ->
     Q (oc, place_of (A ++ B1), first B2) s) ->
  runs (findoverlap_loop fuel p lock type (place_of A)) Q s.
Proof.
  induction B as [|[x r] B IH]; intros A [|fuel] p Hrep Hf Hc HQ; cbn in Hf; try lia; cbn [findoverlap_loop].
  - cbn in Hrep. subst p. cbn [Z.eqb]. apply runs_ret. rewrite <- (app_nil_r A).
    apply (HQ _ [] []); [done|constructor|by left].
  - destruct Hrep as (-> & Hx & k & Hk & <- & Hrep). rewrite (proj2 (Z.eqb_neq x 0)) by done.
    apply runs_bind, (r_load x k); [done|].
    assert (Hgo : skipped type lock (core k) -> runs (findoverlap_loop fuel (lf_next k) lock type (NextOf x)) Q s).
    { intros Hs. rewrite <- (place_of_snoc A x (core k)). apply IH; [done|lia| |].
      - intros y r' Hin. apply (Hc y). by right.
      - intros oc B1 B2 -> HB1 He. rewrite <- app_assoc. cbn [app].
        apply (HQ oc ((x, core k) :: B1) B2); [done|by constructor|done]. }
    destruct (passed_over type k lock) eqn:Ep; [apply Hgo; by left|].
    destruct (Hc x (core k) ltac:(by left) Ep) as [oc Eoc]. pose proof Eoc as Eoc'.
    change (overlap_case k (lf_start lock) (lf_end lock) = Some oc) in Eoc'.
    apply runs_bind, (runs_deref _ oc); [done|].
    assert (Hstop : oc <> OVERLAP_NONE -> Q (oc, place_of A, x) s).
    { intros Hne. rewrite <- (app_nil_r A). apply (HQ oc [] ((x, core k) :: B)); [done|constructor|].
      destruct oc; try done; by exists x, (core k), B. }
    destruct oc; try (by apply runs_ret, Hstop). destruct (_ && _ && _) eqn:Ecut.
    + apply runs_ret. rewrite <- (app_nil_r A). apply (HQ _ [] ((x, core k) :: B)); [done|constructor|].
      right. apply andb_true_iff in Ecut as [[Et En]%andb_true_iff El]. destruct type; [|done].
      split; [done|]. exists x, (core k), B. split; [done|]. apply negb_false_iff, Z.eqb_eq in Ep. cbn.
      split; [done|]. split; [by apply Z.eqb_neq, negb_true_iff|by apply Z.ltb_lt].
    + apply Hgo. right. split; [done|]. intros ->. cbn [core lf_start].
      destruct (Z.eqb_spec (lf_end lock) (-1)); [by left|right]. cbn in Ecut. by apply Z.ltb_ge.
Qed.

Lemma findoverlap_runs type lp lock s (Q : overlap_t * place * Z -> files O -> Prop) A B p :
  heap s !! lp = Some lock -> NoDup B.*1 ->
  rep (heap s) p B 0 ->
  (∀ x r, (x, r) ∈ B -> passed_over type r lock = false -> is_Some (overlap_case r (lf_start lock) (lf_end lock))) ->
  (∀ oc B1 B2, B = B1 ++ B2 -> Forall (skipped type lock) B1.*2 -> search_ends type lock oc B2 ->
     Q (oc, place_of (A ++ B1), first B2) s) ->
  runs (lf_findoverlap p lp type (place_of A)) Q s.
Proof.
  intros Hl Hnd Hrep Hc HQ. apply runs_bind, (r_load lp lock); [done|]. apply runs_bind, runs_gets.
  pose proof (rep_size _ _ _ _ Hnd Hrep).
  apply (findoverlap_loop_runs type lock s Q B A); [done|lia|done|done].
Qed.

End runs.

Lemma search_hit type c oc B : search_ends type c oc B -> oc <> OVERLAP_NONE ->
  ∃ x r B', B = (x, r) :: B' /\ passed_over type r c = false /\ overlap_case r (lf_start c) (lf_end c) = Some oc.
Proof. by destruct oc. Qed.

(** ** The cases *)

Definition case_spec (k c : lockf) (oc : overlap_t) : Prop :=
  match oc with
  | OVERLAP_NONE => (lf_end k <> -1 /\ lf_end k < lf_start c) \/ (lf_end c <> -1 /\ lf_end c < lf_start k)
  | OVERLAP_EQUALS_LOCK => lf_start k = lf_start c /\ lf_end k = lf_end c
  | OVERLAP_CONTAINS_LOCK => lf_start k <= lf_start c /\ lf_end c <> -1 /\
      (lf_end k = -1 \/ lf_end c <= lf_end k) /\ (lf_start k = lf_start c -> lf_end k <> lf_end c)
  | OVERLAP_CONTAINED_BY_LOCK => lf_start c <= lf_start k /\
      (lf_end c = -1 \/ (lf_end k <> -1 /\ lf_end k <= lf_end c))
  | OVERLAP_STARTS_BEFORE_LOCK => lf_start k < lf_start c /\ (lf_end k = -1 \/ lf_start c <= lf_end k) /\
      (lf_end c = -1 \/ (lf_end k <> -1 /\ lf_end k < lf_end c))
  | OVERLAP_ENDS_AFTER_LOCK => lf_start c < lf_start k /\ lf_end c <> -1 /\ lf_start k <= lf_end c /\
      (lf_end k = -1 \/ lf_end c < lf_end k)
  end.

(** Two valid ranges are in exactly one case, the one that [lf_findoverlap] gives. *)
Lemma overlap_case_spec k c : range_ok k -> range_ok c ->
  ∃ oc, overlap_case k (lf_start c) (lf_end c) = Some oc /\ case_spec k c oc.
Proof.
  intros [H1 H2] [H3 H4]. unfold overlap_case, OFF_MAX in *.
  repeat match goal with |- context [if ?b then _ else _] => destruct b eqn:?; [eexists; split; [done|]; cbn; lia|] end.
  exfalso. lia.
Qed.


Definition overlaps (c r : lockf) : Prop := ∃ b, 0 <= b /\ covers c b /\ covers r b.
(** The lock [r] keeps a request for [c] from being granted. *)
Definition conflict (c r : lockf) : Prop :=
  lf_id r <> lf_id c /\ (lf_type c = F_WRLCK \/ lf_type r = F_WRLCK) /\ overlaps c r.

Lemma case_overlaps k c oc : range_ok k -> range_ok c -> case_spec k c oc -> overlaps c k <-> oc <> OVERLAP_NONE.
Proof.
  intros [H1 H2] [H3 H4] Hs. unfold overlaps, covers. split.
  - intros (b & Hb & Hc & Hk) ->. cbn in Hs. lia.
  - intros Hne. exists (Z.max (lf_start c) (lf_start k)). destruct oc; cbn in Hs; try done; lia.
Qed.

Lemma skipped_self c r : range_ok r -> range_ok c -> skipped SELF c r ->
  lf_id r <> lf_id c \/ (lf_end r <> -1 /\ lf_end r < lf_start c).
Proof.
  intros Hr Hc [Hp|[Ho Hs]]; [left; cbn in Hp; lia|right].
  destruct (overlap_case_spec r c Hr Hc) as (oc & Eo & Hspec). rewrite Ho in Eo. injection Eo as <-.
  cbn in Hspec. specialize (Hs eq_refl). lia.
Qed.

Lemma skipped_others c r : range_ok r -> range_ok c -> skipped OTHERS c r -> ~ conflict c r.
Proof.
  intros Hr Hc [Hp|[Ho _]] (Hi & _ & Hov); [cbn in Hp; lia|].
  destruct (overlap_case_spec r c Hr Hc) as (oc & Eo & Hspec). rewrite Ho in Eo. injection Eo as <-.
  by apply (case_overlaps r c OVERLAP_NONE Hr Hc Hspec) in Hov.
Qed.

Abbreviation rows_ok A := (Forall range_ok A.*2).

Lemma rows_case (A : list (Z * lockf)) lock type : rows_ok A -> range_ok lock ->
  ∀ x r, (x, r) ∈ A -> passed_over type r lock = false -> is_Some (overlap_case r (lf_start lock) (lf_end lock)).
Proof.
  intros Hok Hl x r Hin _. rewrite Forall_fmap, Forall_forall in Hok. specialize (Hok _ Hin). cbn in Hok.
  destruct (overlap_case_spec r lock Hok Hl) as (oc & -> & _). by exists oc.
Qed.

(** ** Blocking locks *)

Section getblock.
Context {O : Type} (s : files O) (lp : Z) (lock : lockf).
Context (Hlock : heap s !! lp = Some lock) (Hrange : range_ok lock).

Lemma getblock_loop_runs (Q : Z -> files O -> Prop) : ∀ fuel B A p,
  rep (heap s) p B 0 -> NoDup B.*1 -> rows_ok B -> (length B < fuel)%nat ->
  (∀ B1 x r B2, B = B1 ++ (x, r) :: B2 -> conflict lock r -> Forall (λ p, ~ conflict lock p.2) B1 -> Q x s) ->
  (Forall (λ p, ~ conflict lock p.2) B -> Q 0 s) ->
  runs (getblock_loop fuel p lp (place_of A)) Q s.
Proof.
  induction fuel as [|fuel IH]; intros B A p Hrep Hnd Hok Hf Hfound Hnone; [lia|]. cbn [getblock_loop].
  apply runs_bind, (findoverlap_runs OTHERS lp lock s _ A B); [done..|by apply rows_case|].
  intros oc B1 B2 -> HB1 He. rewrite fmap_app in Hok. apply Forall_app in Hok as [Hok1 Hok2].
  assert (Hskip : Forall (λ p, ~ conflict lock p.2) B1).
  { rewrite Forall_fmap in HB1, Hok1. rewrite Forall_forall in *. intros q Hq.
    apply skipped_others; [by apply Hok1|done|by apply HB1]. }
  destruct (decide (oc = OVERLAP_NONE)) as [->|Hne].
  { cbn in He. destruct He as [->|[? _]]; [|done]. rewrite app_nil_r in Hnone. by apply runs_ret, Hnone. }
  destruct (search_hit _ _ _ _ He Hne) as (x & r & B' & -> & Hp & Ho).
  apply Forall_cons in Hok2 as [Hr Hok2].
  destruct (overlap_case_spec r lock Hr Hrange) as (oc' & Eo & Hspec). rewrite Ho in Eo. injection Eo as <-.
  apply rep_app in Hrep as (m & _ & -> & Hx & k & Hk & Hkr & Hrep).
  assert (Hgo : runs (k ← load lp; o ← load x;
     if (lf_type k =? F_WRLCK) || (lf_type o =? F_WRLCK) then mret x
     else getblock_loop fuel (lf_next o) lp (place_of (A ++ B1))) Q s).
  { apply runs_bind, (r_load lp lock); [done|]. apply runs_bind, (r_load x k); [done|].
    replace (lf_type k) with (lf_type r) by (by rewrite <- Hkr).
    destruct (_ || _) eqn:Ety.
    - apply runs_ret, (Hfound B1 x r B'); [done| |done]. split; [cbn in Hp; lia|].
      split; [lia|by eapply case_overlaps].
    - assert (Hthis : ~ conflict lock r) by (intros (_ & Hw & _); lia).
      rewrite length_app in Hf. cbn in Hf.
      rewrite fmap_app in Hnd. apply NoDup_app in Hnd as (_ & _ & Hnd). apply NoDup_cons in Hnd as [_ Hnd].
      apply (IH B'); [done..|lia| |].
      + intros B3 y q B4 -> Hq HB3. apply (Hfound (B1 ++ (x, r) :: B3) y q B4); [by rewrite <- app_assoc|done|].
        apply Forall_app. split; [done|]. by constructor.
      + intros HB'. apply Hnone, Forall_app. split; [done|]. by constructor. }
  destruct oc; [done|exact Hgo..].
Qed.

(** [lf_getblock] returns the first lock that conflicts, or null when there is none. *)
Lemma getblock_runs A (Q : Z -> files O -> Prop) : rep (heap s) (v_lockf s) A 0 -> NoDup A.*1 -> rows_ok A ->
  (∀ A1 x r A2, A = A1 ++ (x, r) :: A2 -> conflict lock r -> Forall (λ p, ~ conflict lock p.2) A1 -> Q x s) ->
  (Forall (λ p, ~ conflict lock p.2) A -> Q 0 s) ->
  runs (lf_getblock lp) Q s.
Proof.
  intros Hrep Hnd Hok Hfound Hnone. apply runs_bind, runs_gets, runs_bind, runs_gets.
  pose proof (rep_size _ _ _ _ Hnd Hrep). apply (getblock_loop_runs Q _ A []); [done..|lia|done|done].
Qed.
End getblock.

(** ** Waking *)

(** A step that only wakes the requests [ws] and changes queues. *)
Record woke {O : Type} (L : list Z) (ws : list Z) (s s' : files O) : Prop := {
  wk_head : v_lockf s' = v_lockf s;
  wk_other : other s' = other s;
  wk_heap : requeued L (heap s) (heap s');
  wk_woken : woken s' = woken s ++ ws }.

Section wake.
Context {O : Type} (L : list Z).

Lemma woke_refl (s : files O) : woke L [] s s.
Proof. split; [done..|apply requeued_refl|by rewrite app_nil_r]. Qed.

Lemma woke_trans ws1 ws2 (s1 s2 s3 : files O) : woke L ws1 s1 s2 -> woke L ws2 s2 s3 -> woke L (ws1 ++ ws2) s1 s3.
Proof.
  intros [A1 A2 A3 A4] [B1 B2 B3 B4]. split; [congruence..|by eapply requeued_trans|].
  by rewrite B4, A4, app_assoc.
Qed.

Lemma woke_insert s x k k' : heap s !! x = Some k -> core k' = core k -> (x ∈ L -> lf_next k' = lf_next k) ->
  (∀ w, w ∈ lf_blkhd k' -> waits (heap s) w) -> woke L [] s (set_heap (<[x := k']> (heap s)) s : files O).
Proof. intros. split; [done..|by eapply requeued_insert|cbn; by rewrite app_nil_r]. Qed.

Lemma set_nexts_runs v l : ∀ (s : files O) (Q : unit -> files O -> Prop),
  (∀ t, t ∈ l -> (t ∉ L) /\ is_Some (heap s !! t)) ->
  (∀ s', woke L [] s s' -> (∀ x k, heap s !! x = Some k -> ∃ k', heap s' !! x = Some k' /\
     lf_blkhd k' = lf_blkhd k) -> Q tt s') ->
  runs (set_nexts l v) Q s.
Proof.
  induction l as [|t l IH]; intros s Q Hl HQ; cbn [set_nexts].
  - apply runs_ret, HQ; [apply woke_refl|]. intros x k Hk. by exists k.
  - destruct (Hl t ltac:(by left)) as [Ht [k Hk]]. apply runs_bind, (r_store t _ k); [done|].
    set (s1 := set_heap _ s).
    assert (W1 : woke L [] s s1) by (apply (woke_insert s t k); [done|done|done|intros w Hw; by exists t, k]).
    apply IH.
    + intros u Hu. destruct (Hl u ltac:(by right)) as [? Hd]. split; [done|]. by apply (rq_dom _ _ _ (wk_heap _ _ _ _ W1)).
    + intros s' W' Hb. apply HQ; [by apply (woke_trans [] [] s s1 s')|].
      intros x kx Hx. destruct (decide (x = t)) as [->|].
      * rewrite Hk in Hx. injection Hx as <-. destruct (Hb t (set_lf_next v k)) as (k' & ? & E); [apply lookup_insert_eq|].
        by exists k'.
      * apply (Hb x kx). cbn. by rewrite lookup_insert_ne.
Qed.

(** The requests that [lf_wakelock] wakes. *)
Definition woken_by (force_all : bool) (k : lockf) : list Z :=
  if negb (negb force_all && truth (lf_flags k &&& F_WAKE1_SAFE)) then lf_blkhd k else take 1 (lf_blkhd k).

Lemma wake_loop_runs p : p ∈ L -> ∀ n k (wake_all : bool) (s : files O) (Q : unit -> files O -> Prop),
  n = length (lf_blkhd k) -> heap s !! p = Some k -> queue_ok (heap s) L ->
  (∀ s' k', woke L (if wake_all then lf_blkhd k else take 1 (lf_blkhd k)) s s' ->
     heap s' !! p = Some k' -> lf_blkhd k' = [] -> Q tt s') ->
  runs (wake_loop n p wake_all) Q s.
Proof.
  intros Hp. induction n as [|n IH]; intros k wake_all s Q Hn Hk Hq HQ; cbn [wake_loop].
  { destruct (lf_blkhd k) eqn:E; [|done]. apply runs_ret, (HQ s k); [|done|done]. destruct wake_all; apply woke_refl. }
  apply runs_bind, (r_load p k); [done|]. destruct (lf_blkhd k) as [|w rest] eqn:E; [done|].
  assert (Hw : waits (heap s) w) by (exists p, k; split; [done|rewrite E; by left]).
  destruct (Hq w Hw) as [Hwl [kw Hkw]]. assert (Hwp : w <> p) by (by intros ->).
  apply runs_bind, (r_store p _ k); [done|]. set (s1 := set_heap _ s).
  assert (W1 : woke L [] s s1).
  { apply (woke_insert s p k); [done..|]. intros u Hu. exists p, k. split; [done|]. rewrite E. by right. }
  apply runs_bind, (r_store w _ kw); [cbn; by rewrite lookup_insert_ne|]. set (s2 := set_heap _ s1).
  assert (W2 : woke L [] s1 s2).
  { apply (woke_insert s1 w kw); [cbn; by rewrite lookup_insert_ne|done|done|].
    intros u Hu. exists w, kw. cbn. by rewrite lookup_insert_ne. }
  pose proof (woke_trans [] [] s s1 s2 W1 W2) as W12. pose proof (requeued_queue_ok _ _ _ _ (wk_heap _ _ _ _ W12) Hq) as Hq2.
  assert (Hp2 : heap s2 !! p = Some (set_lf_blkhd rest k)) by (cbn; by rewrite lookup_insert_ne, lookup_insert_eq).
  assert (Hw2 : heap s2 !! w = Some (set_lf_next 0 kw)) by (cbn; by rewrite lookup_insert_eq).
  assert (Wake : ∀ s3 : files O, woke L [] s2 s3 -> woke L [w] s (set_woken (woken s3 ++ [w]) s3)).
  { intros s3 [B1 B2 B3 B4]. destruct W12 as [C1 C2 C3 C4]. split; cbn; [congruence..| |].
    - by eapply requeued_trans.
    - rewrite B4, C4, !app_nil_r. done. }
  destruct wake_all.
  - apply runs_bind, runs_modify. apply (IH (set_lf_blkhd rest k)); [cbn in Hn |- *; lia|done|done|].
    intros s' k' W' Hk' Hb. apply (HQ s' k'); [|done|done].
    change (w :: rest) with ([w] ++ rest). eapply woke_trans; [|exact W']. apply Wake, woke_refl.
  - destruct rest as [|t rest].
    + apply runs_modify, (HQ _ (set_lf_blkhd [] k)); [apply Wake, woke_refl|exact Hp2|done].
    + apply runs_bind, (r_load w (set_lf_next 0 kw)); [done|]. cbn [set_lf_next lf_blkhd].
      apply runs_bind, (r_store w _ (set_lf_next 0 kw)); [done|].
      set (s3 := set_heap _ s2).
      assert (W3 : woke L [] s2 s3).
      { apply (woke_insert s2 w _ _ Hw2); [done|done|]. cbn [set_lf_blkhd lf_blkhd]. intros u [Hu|Hu]%elem_of_app.
        - exists w, (set_lf_next 0 kw). by split.
        - exists p, (set_lf_blkhd (t :: rest) k). by split. }
      assert (Hp3 : heap s3 !! p = Some (set_lf_blkhd (t :: rest) k)) by (cbn; by rewrite lookup_insert_ne).
      apply runs_bind, (r_store p _ (set_lf_blkhd (t :: rest) k)); [done|]. set (s4 := set_heap _ s3).
      assert (W4 : woke L [] s3 s4).
      { apply (woke_insert s3 p _ _ Hp3); [done|done|]. intros u Hu. by apply elem_of_nil in Hu. }
      pose proof (woke_trans [] [] _ _ _ W3 W4) as W34.
      apply runs_bind, set_nexts_runs.
      { intros u Hu. assert (Hwu : waits (heap s) u).
        { apply elem_of_app in Hu as [Hu|Hu]; [by exists w, kw|]. exists p, k. split; [done|]. rewrite E. by right. }
        destruct (Hq u Hwu) as [? Hd]. split; [done|]. apply (rq_dom _ _ _ (wk_heap _ _ _ _ W34)).
        by apply (rq_dom _ _ _ (wk_heap _ _ _ _ W12)). }
      intros s5 W5 Hb5. destruct (Hb5 p (set_lf_blkhd [] (set_lf_blkhd (t :: rest) k))) as (k5 & Hk5 & Eb5).
      { cbn. by rewrite lookup_insert_eq. }
      apply runs_modify, (HQ _ k5); [|done|done]. apply Wake. by apply (woke_trans [] [] s2 s4 s5).
Qed.

Lemma wakelock_runs p k force_all (s : files O) (Q : unit -> files O -> Prop) :
  p ∈ L -> heap s !! p = Some k -> queue_ok (heap s) L ->
  (∀ s' k', woke L (woken_by force_all k) s s' -> heap s' !! p = Some k' -> lf_blkhd k' = [] -> Q tt s') ->
  runs (lf_wakelock p force_all) Q s.
Proof.
  intros Hp Hk Hq HQ. apply runs_bind, (r_load p k); [done|].
  by apply (wake_loop_runs p Hp _ k).
Qed.
End wake.

(** * Cutting a range out of the locks of an owner *)

(** What is left of the lock [r] without the range of [c], on either side. *)
Definition below (c r : lockf) : list lockf :=
  if lf_start r <? lf_start c then [set_lf_end (lf_start c - 1) r] else [].
Definition above (c r : lockf) : list lockf :=
  if negb (lf_end c =? -1) && ((lf_end r =? -1) || (lf_end c <? lf_end r))
  then [set_lf_start (lf_end c + 1) r] else [].
Definition remains (c r : lockf) : list lockf := below c r ++ above c r.
Definition cut (c r : lockf) : list lockf :=
  if passed_over SELF r c then [r]
  else match overlap_case r (lf_start c) (lf_end c) with
       | Some OVERLAP_NONE => [r]
       | _ => remains c r
       end.

Section cut.
Context (c : lockf) (Hc : range_ok c).

Lemma cut_other r : lf_id r <> lf_id c -> cut c r = [r].
Proof. intros H. unfold cut. cbn. by rewrite (proj2 (Z.eqb_neq _ _)) by done. Qed.

Lemma cut_case r oc : lf_id r = lf_id c -> overlap_case r (lf_start c) (lf_end c) = Some oc ->
  cut c r = match oc with OVERLAP_NONE => [r] | _ => remains c r end.
Proof. intros H E. unfold cut. cbn. by rewrite H, Z.eqb_refl, E. Qed.

Lemma cut_below r : range_ok r -> lf_id r <> lf_id c \/ (lf_end r <> -1 /\ lf_end r < lf_start c) -> cut c r = [r].
Proof.
  intros Hr [H|H]; [by apply cut_other|]. destruct (decide (lf_id r = lf_id c)) as [E|]; [|by apply cut_other].
  destruct (overlap_case_spec r c Hr Hc) as (oc & Eo & Hs). rewrite (cut_case r oc E Eo).
  destruct Hr, Hc. destruct oc; cbn in Hs; try done; lia.
Qed.

Lemma cut_above r : range_ok r -> lf_id r <> lf_id c \/ (lf_end c <> -1 /\ lf_end c < lf_start r) -> cut c r = [r].
Proof.
  intros Hr [H|H]; [by apply cut_other|]. destruct (decide (lf_id r = lf_id c)) as [E|]; [|by apply cut_other].
  destruct (overlap_case_spec r c Hr Hc) as (oc & Eo & Hs). rewrite (cut_case r oc E Eo).
  destruct Hr, Hc. destruct oc; cbn in Hs; try done; lia.
Qed.

Lemma cut_all R : Forall range_ok R -> (∀ r, r ∈ R -> cut c r = [r]) -> mbind (cut c) R = R.
Proof.
  induction R as [|r R IH]; intros Hok HR; [done|]. apply Forall_cons in Hok as [Hr Hok].
  cbn. rewrite (HR r) by (by left). cbn. f_equal. apply IH; [done|]. intros q Hq. apply HR. by right.
Qed.

(** The locks behind one that reaches the end of the range, or is behind it. *)
Lemma cut_rest r R : Forall range_ok R -> ordered (r :: R) -> lf_id r = lf_id c ->
  (lf_end c <> -1 /\ lf_end c < lf_start r /\ range_ok r) \/ lf_end r = -1 \/ (lf_end c <> -1 /\ lf_end c <= lf_end r) ->
  mbind (cut c) R = R.
Proof.
  intros Hok [_ Ho]%ordered_cons Hi Hcase. apply cut_all; [done|]. intros q Hq. rewrite Forall_forall in Hok.
  apply cut_above; [by apply Hok|]. destruct (decide (lf_id q = lf_id c)); [right|by left].
  destruct (Ho q Hq) as [H1 H2]; [congruence|]. unfold range_ok in *. lia.
Qed.

(** What is left of a lock that overlaps covers what was covered outside the range. *)
Lemma remains_covers r b : range_ok r -> 0 <= b -> (lf_end c = -1 \/ lf_start r <= lf_end c) ->
  (lf_end r = -1 \/ lf_start c <= lf_end r) ->
  (∃ q, q ∈ remains c r /\ covers q b) <-> covers r b /\ ~ covers c b.
Proof.
  intros [Hr1 Hr2] Hb H1 H2. destruct Hc as [Hc1 Hc2]. unfold remains, below, above, covers. unfold OFF_MAX in *. split.
  - intros (p & Hp & H). apply elem_of_app in Hp as [Hp|Hp];
      (destruct (_ : bool) eqn:E in Hp; [|by apply elem_of_nil in Hp]);
      apply list_elem_of_singleton in Hp as ->; cbn in H; lia.
  - intros [H3 H4]. destruct (Z.lt_ge_cases b (lf_start c)) as [Hlt|Hge].
    + exists (set_lf_end (lf_start c - 1) r). rewrite (proj2 (Z.ltb_lt _ _)) by lia. split; [by left|]. cbn. lia.
    + exists (set_lf_start (lf_end c + 1) r). split; [|cbn; lia]. apply elem_of_app. right.
      assert (E : negb (lf_end c =? -1) && ((lf_end r =? -1) || (lf_end c <? lf_end r)) = true) by lia.
      rewrite E. by left.
Qed.

Lemma cut_covers r b : range_ok r -> 0 <= b ->
  (∃ q, q ∈ cut c r /\ covers q b) <-> covers r b /\ ~ (lf_id r = lf_id c /\ covers c b).
Proof.
  intros Hr Hb. destruct (decide (lf_id r = lf_id c)) as [Ei|Ei].
  2:{ rewrite cut_other by done. split.
      - intros (q & ->%list_elem_of_singleton & H). tauto.
      - intros [H _]. exists r. split; [by left|done]. }
  destruct (overlap_case_spec r c Hr Hc) as (oc & Eo & Hs). rewrite (cut_case r oc Ei Eo).
  destruct (decide (oc = OVERLAP_NONE)) as [->|Hne].
  - cbn in Hs. unfold covers, range_ok in *. split.
    + intros (q & ->%list_elem_of_singleton & H). split; [done|]. lia.
    + intros [H _]. exists r. split; [by left|done].
  - assert (E : (∃ q, q ∈ remains c r /\ covers q b) <-> covers r b /\ ~ covers c b).
    { apply remains_covers; [done..| |]; destruct Hr, Hc, oc; cbn in Hs; try done; lia. }
    destruct oc; try done; rewrite E; tauto.
Qed.

(** The pieces keep owner and type, are valid, and lie within the lock. *)
Lemma cut_piece r q : range_ok r -> q ∈ cut c r ->
  range_ok q /\ lf_id q = lf_id r /\ lf_type q = lf_type r /\ lf_start r <= lf_start q /\
  (lf_end r = -1 \/ (lf_end q <> -1 /\ lf_end q <= lf_end r)).
Proof.
  intros Hr Hq. assert (Hown : q = r -> range_ok q /\ lf_id q = lf_id r /\ lf_type q = lf_type r /\
    lf_start r <= lf_start q /\ (lf_end r = -1 \/ (lf_end q <> -1 /\ lf_end q <= lf_end r))).
  { intros ->. do 3 (split; [done|]). unfold range_ok in *. lia. }
  destruct (decide (lf_id r = lf_id c)) as [Ei|Ei].
  2:{ rewrite cut_other in Hq by done. apply Hown. by apply list_elem_of_singleton in Hq. }
  destruct (overlap_case_spec r c Hr Hc) as (oc & Eo & Hs). rewrite (cut_case r oc Ei Eo) in Hq.
  destruct (decide (oc = OVERLAP_NONE)) as [->|Hne]; [apply Hown; by apply list_elem_of_singleton in Hq|].
  assert (Hq' : q ∈ remains c r) by (destruct oc; done). clear Hq Hown Eo.
  unfold remains, below, above in Hq'; apply elem_of_app in Hq' as [Hq|Hq]; (destruct (_ : bool) eqn:E in Hq; [|by apply elem_of_nil in Hq]);
    apply list_elem_of_singleton in Hq as ->; unfold range_ok in *; cbn;
    destruct oc; cbn in Hs; try done; (split; [lia|]); (split; [done|]); (split; [done|]); lia.
Qed.

Lemma cut_rows_ok R : Forall range_ok R -> Forall range_ok (mbind (cut c) R).
Proof.
  rewrite !Forall_forall. intros H q (r & Hq & Hr)%list_elem_of_bind. by apply (cut_piece r q); [apply H|].
Qed.

(** Where the pieces of a lock begin and end. *)
Lemma cut_shape r q : q ∈ cut c r ->
  (lf_start q = lf_start r /\ (lf_end q = lf_end r \/ lf_end q = lf_start c - 1)) \/
  (lf_start q = lf_end c + 1 /\ lf_end c <> -1 /\ lf_end q = lf_end r).
Proof.
  assert (H1 : q = r -> lf_start q = lf_start r /\ (lf_end q = lf_end r \/ lf_end q = lf_start c - 1)) by (intros ->; auto).
  assert (H2 : q ∈ remains c r -> (lf_start q = lf_start r /\ (lf_end q = lf_end r \/ lf_end q = lf_start c - 1)) \/
    (lf_start q = lf_end c + 1 /\ lf_end c <> -1 /\ lf_end q = lf_end r)).
  { unfold remains, below, above. destruct (_ <? _); destruct (_ && _) eqn:E; cbn [app]; rewrite ?elem_of_cons, elem_of_nil;
      intros Hq; decompose [or] Hq; try done; subst; cbn; lia. }
  unfold cut. destruct (passed_over _ _ _); [intros ->%list_elem_of_singleton; auto|].
  destruct (overlap_case _ _ _) as [[]|]; try (intros ->%list_elem_of_singleton; auto); exact H2.
Qed.

(** The pieces of one lock are in order. *)
Lemma cut_ordered_one r : range_ok r -> ordered (cut c r).
Proof.
  intros Hr. unfold cut.
  assert (H1 : ordered [r]) by (by repeat constructor).
  assert (H2 : ordered (remains c r)).
  { unfold remains, below, above. destruct (_ <? _) eqn:E1; destruct (_ && _) eqn:E2; cbn; [|by repeat constructor..].
    apply ordered_cons. split; [by repeat constructor|].
    intros q ->%list_elem_of_singleton _. cbn. unfold range_ok in *. lia. }
  destruct (passed_over _ _ _); [done|]. by destruct (overlap_case _ _ _) as [[]|].
Qed.

Lemma cut_ordered R : Forall range_ok R -> ordered R -> ordered (mbind (cut c) R).
Proof.
  induction R as [|r R IH]; intros Hok Ho; [constructor|].
  apply Forall_cons in Hok as [Hr Hok]. apply ordered_cons in Ho as [Ho Hb].
  cbn. apply ordered_app. split; [by apply cut_ordered_one|]. split; [by apply IH|].
  intros p q Hp (r' & Hq & Hr')%list_elem_of_bind Ei. rewrite Forall_forall in Hok.
  destruct (cut_piece r p Hr Hp) as (? & E1 & _ & ? & ?).
  destruct (cut_piece r' q (Hok _ Hr') Hq) as (? & E2 & _ & ? & ?).
  destruct (Hb r' Hr') as [? ?]; [congruence|]. lia.
Qed.
End cut.

(** * Coalescing *)

(** Byte [b] is locked for [id] with a lock of type [t]. *)
Definition locked (R : list lockf) (id t b : Z) : Prop :=
  ∃ r, r ∈ R /\ lf_id r = id /\ lf_type r = t /\ covers r b.

(** The locks [p] and [q] are of one owner and type, and [q] starts where [p] ends. *)
Definition meets (p q : lockf) : Prop :=
  lf_id p = lf_id q /\ lf_type p = lf_type q /\ lf_end p <> -1 /\ lf_end p + 1 = lf_start q.

(** There is nothing to join for [id]. *)
Definition apart (id : Z) (R : list lockf) : Prop :=
  ∀ p q, p ∈ R -> q ∈ R -> lf_id q = id -> ~ meets p q.

(** Some locks of [id] were joined: the bytes locked for [id] are the same; of the locks of
    others none is new, but some may be lost.  Nothing changes when there is nothing to join. *)
Record coalesced (id : Z) (R R' : list lockf) : Prop := {
  co_own t b : 0 <= b -> locked R' id t b <-> locked R id t b;
  co_others : filter (λ r, lf_id r <> id) R' `sublist_of` filter (λ r, lf_id r <> id) R;
  co_rows : Forall range_ok R';
  co_ordered : ordered R';
  co_idle : apart id R -> R' = R }.

Lemma coalesced_trans id R1 R2 R3 : coalesced id R1 R2 -> coalesced id R2 R3 -> coalesced id R1 R3.
Proof.
  intros [A1 A2 _ _ A5] [B1 B2 B3 B4 B5]. split; [|by etrans|done..|].
  - intros t b Hb. by rewrite B1, A1.
  - intros Ha. pose proof (A5 Ha) as ->. auto.
Qed.

Lemma coalesced_refl id R : Forall range_ok R -> ordered R -> coalesced id R R.
Proof. by split. Qed.

Lemma locked_app R1 R2 id t b : locked (R1 ++ R2) id t b <-> locked R1 id t b \/ locked R2 id t b.
Proof.
  unfold locked. split.
  - intros (r & [Hr|Hr]%elem_of_app & H); [left|right]; by exists r.
  - intros [(r & Hr & H)|(r & Hr & H)]; exists r; (split; [apply elem_of_app; auto|done]).
Qed.

Lemma locked_cons r R id t b : locked (r :: R) id t b <-> (lf_id r = id /\ lf_type r = t /\ covers r b) \/ locked R id t b.
Proof.
  change (r :: R) with ([r] ++ R). rewrite locked_app. apply or_iff_compat_r. unfold locked. split.
  - by intros (q & ->%list_elem_of_singleton & H).
  - intros H. exists r. split; [by left|done].
Qed.

Lemma not_locked M id t b : (∀ r, r ∈ M -> lf_id r <> id) -> ~ locked M id t b.
Proof. intros H (r & Hr & Hi & _). by apply (H r Hr). Qed.

(** Between two locks of an owner that meet there is none of his. *)
Lemma none_between A p M q S : Forall range_ok (A ++ p :: M ++ q :: S) -> ordered (A ++ p :: M ++ q :: S) ->
  lf_id p = lf_id q -> lf_end p + 1 = lf_start q -> ∀ r, r ∈ M -> lf_id r <> lf_id q.
Proof.
  intros Hok (_ & Ho & _)%ordered_app Hi He r Hr Hir. apply ordered_cons in Ho as [Ho Hp].
  apply ordered_app in Ho as (_ & _ & Hq).
  destruct (Hp r) as [H1 H2]; [apply elem_of_app; by left|congruence|].
  destruct (Hq r q Hr ltac:(by left) Hir) as [H3 H4].
  rewrite Forall_forall in Hok. specialize (Hok r). destruct Hok as [H5 H6]; [|lia].
  apply elem_of_app; right; right; apply elem_of_app; by left.
Qed.

Lemma merge_coalesced A p M q S c : Forall range_ok (A ++ p :: M ++ q :: S) -> ordered (A ++ p :: M ++ q :: S) ->
  lf_id p = lf_id q -> lf_type p = lf_type q -> lf_end p <> -1 -> lf_end p + 1 = lf_start q ->
  lf_id c = lf_id q -> lf_type c = lf_type q -> lf_start c = lf_start p -> lf_end c = lf_end q ->
  coalesced (lf_id q) (A ++ p :: M ++ q :: S) (A ++ c :: S).
Proof.
  intros Hok Hord Hi Ht Hne He Ci Ct Cs Ce. pose proof (none_between _ _ _ _ _ Hok Hord Hi He) as HM.
  apply Forall_app in Hok as [HokA Hok]. apply Forall_cons in Hok as [Hp Hok].
  apply Forall_app in Hok as [_ Hok]. apply Forall_cons in Hok as [Hq HokS].
  apply ordered_app in Hord as (HoA & Hord & HAo). apply ordered_cons in Hord as [Hord Hop].
  apply ordered_app in Hord as (_ & Hord & _). apply ordered_cons in Hord as [HoS Hoq].
  split.
  - intros t b Hb. rewrite !locked_app, !locked_cons, locked_app, locked_cons. unfold covers. rewrite Ci, Ct, Cs, Ce, Hi, Ht.
    pose proof (not_locked M (lf_id q) t b HM).
    assert (E : lf_start p <= b /\ (lf_end q = -1 \/ b <= lf_end q) <->
      (lf_start p <= b /\ (lf_end p = -1 \/ b <= lf_end p)) \/ (lf_start q <= b /\ (lf_end q = -1 \/ b <= lf_end q)))
      by (unfold range_ok in *; lia).
    rewrite E. tauto.
  - rewrite !filter_app. apply sublist_app; [done|]. rewrite !filter_cons, filter_app, filter_cons.
    rewrite decide_False by (intros H; by apply H). rewrite decide_False by (intros H; by apply H).
    rewrite decide_False by (intros H; by apply H). by apply sublist_inserts_l.
  - apply Forall_app. split; [done|]. apply Forall_cons. split; [|done]. unfold range_ok in *. lia.
  - apply ordered_app. split; [done|]. split.
    + apply ordered_cons. split; [done|]. intros r Hr Hir. rewrite Ce. apply (Hoq r Hr). congruence.
    + intros r r' Hr [->|Hr']%elem_of_cons Hir.
      * rewrite Cs. apply (HAo r p Hr); [by left|congruence].
      * apply (HAo r r' Hr); [|done]. right. apply elem_of_app. right. by right.
  - intros Ha. exfalso. apply (Ha p q); [| |done|by split_and!]; apply elem_of_app; right; [by left|right].
    apply elem_of_app. right. by left.
Qed.

End LockfSpec.
