(* ===== verification/LockfList.v ===== *)
(** The list of the locks of a file under the operations that relink it: clearing, setting and
    coalescing, each with the sequence of ranges that it leaves. *)

From S2P Require Import Prelude.
From S2P Require Import Lockf.
From S2P Require Import LockfSpec.
Import Lockf.Lockf LockfSpec.LockfSpec.

Module LockfList.

Abbreviation rows := (list (Z * lockf)).

(** The file has the locks [L] on its list; the nodes [N] are not on it, but held. *)
Record view {O : Type} (o : O) (N L : rows) (s : files O) : Prop := {
  vw_rep : rep (heap s) (v_lockf s) L 0;
  vw_held : ∀ x r, (x, r) ∈ N -> x <> 0 /\ ∃ k, heap s !! x = Some k /\ core k = r;
  vw_nodup : NoDup (N ++ L).*1;
  vw_queue : queue_ok (heap s) (N ++ L).*1;
  vw_other : other s = o }.

Section view.
Context {O : Type} (o : O).
Context (malloc : files O -> option Z).

Implicit Types (s : files O) (N L A B : rows).

Lemma view_listed N A x r B s : view o N (A ++ (x, r) :: B) s ->
  x <> 0 /\ ∃ k, heap s !! x = Some k /\ core k = r /\ lf_next k = first B.
Proof.
  intros [H _ _ _ _]. apply rep_app in H as (m & _ & -> & Hx & k & Hk & Hr & H).
  split; [done|]. exists k. do 2 (split; [done|]). by apply (rep_first _ _ _ H).
Qed.

Lemma view_first N A B s : view o N (A ++ B) s -> rep (heap s) (v_lockf s) A (first B) /\ rep (heap s) (first B) B 0.
Proof.
  intros [H _ _ _ _]. apply rep_app in H as (m & H1 & H2). by rewrite <- (rep_first _ _ _ H2).
Qed.

Lemma view_perm N N' L s : N ≡ₚ N' -> view o N L s -> view o N' L s.
Proof.
  intros HP [H1 H2 H3 H4 H5]. assert (HP' : (N ++ L).*1 ≡ₚ (N' ++ L).*1) by (by rewrite HP). split; [done| | | |done].
  - intros x r Hx. apply H2. by rewrite HP.
  - by rewrite <- HP'.
  - intros w Hw. destruct (H4 w Hw) as [Hn Hd]. split; [|done]. by rewrite <- HP'.
Qed.

(** Steps that only change queues, and the links of nodes that are not on the list. *)
Lemma view_requeued N L s s' : view o N L s -> requeued L.*1 (heap s) (heap s') -> v_lockf s' = v_lockf s ->
  other s' = other s -> view o N L s'.
Proof.
  intros [H1 H2 H3 H4 H5] Hq Hh Ho. split; [| |done| |congruence].
  - rewrite Hh. by eapply requeued_rep.
  - intros x r Hx. destruct (H2 x r Hx) as (? & k & Hk & Hr). split; [done|].
    destruct (rq_core _ _ _ Hq x k Hk) as (k' & Hk' & Hc & _). exists k'. by rewrite Hc.
  - by eapply requeued_queue_ok.
Qed.

Lemma requeued_less (L L' : list Z) h h' : (∀ x, x ∈ L' -> x ∈ L) -> requeued L h h' -> requeued L' h h'.
Proof. intros HL [A1 A2 A3]. split; [done| |done]. intros x k Hk. destruct (A2 x k Hk) as (k' & ? & ? & ?). exists k'. auto. Qed.

Lemma view_woke N L ws s s' : view o N L s -> woke (N ++ L).*1 ws s s' -> view o N L s'.
Proof.
  intros Hv [H1 H2 H3 _]. eapply view_requeued; [done| |done|done]. eapply requeued_less; [|done].
  intros x Hx. rewrite fmap_app. apply elem_of_app. by right.
Qed.

(** A queued request moves, or a held node is linked elsewhere. *)
Lemma view_insert N L s x k k' : view o N L s -> heap s !! x = Some k -> core k' = core k ->
  (x ∈ L.*1 -> lf_next k' = lf_next k) -> (∀ w, w ∈ lf_blkhd k' -> waits (heap s) w) ->
  view o N L (set_heap (<[x := k']> (heap s)) s).
Proof. intros Hv Hk Hc Hn Hw. eapply view_requeued; [done|by eapply requeued_insert|done|done]. Qed.

Lemma waits_insert h x k' w : (∀ u, u ∈ lf_blkhd k' -> waits h u) -> waits (<[x := k']> h) w -> waits h w.
Proof. intros Hk (y & ky & [[<- <-]|[_ Hy]]%lookup_insert_Some & Hin); [auto|by exists y, ky]. Qed.

Lemma queue_ok_insert h x k' (L : list Z) : is_Some (h !! x) -> (∀ u, u ∈ lf_blkhd k' -> waits h u) -> queue_ok h L ->
  queue_ok (<[x := k']> h) L.
Proof.
  intros Hd Hk Hq w Hw. destruct (Hq w) as [Hn Hs]; [by eapply waits_insert|]. split; [done|].
  destruct (decide (w = x)) as [->|]; [by rewrite lookup_insert_eq|by rewrite lookup_insert_ne].
Qed.

(** The range or type of a lock on the list changes. *)
Lemma view_row N A x r B s k k' : view o N (A ++ (x, r) :: B) s -> heap s !! x = Some k ->
  lf_next k' = lf_next k -> (∀ w, w ∈ lf_blkhd k' -> waits (heap s) w) ->
  view o N (A ++ (x, core k') :: B) (set_heap (<[x := k']> (heap s)) s).
Proof.
  intros Hv Hk Hn Hw. pose proof Hv as [_ H2 H3 H4 H5].
  assert (E : (N ++ A ++ (x, core k') :: B).*1 = (N ++ A ++ (x, r) :: B).*1) by (by rewrite !fmap_app).
  destruct (view_listed _ _ _ _ _ _ Hv) as (Hx & k0 & Hk0 & Hr & Hf). rewrite Hk in Hk0. injection Hk0 as <-.
  destruct (view_first _ _ _ _ Hv) as [HA HB]. cbn [first] in HA, HB.
  pose proof H3 as H3'. rewrite !fmap_app in H3'. apply NoDup_app in H3' as (_ & HN & H3').
  apply NoDup_app in H3' as (_ & HAx & H3'). cbn in H3'. apply NoDup_cons in H3' as [HxB _].
  split; [| |by rewrite E|rewrite E; by apply queue_ok_insert|done].
  - apply rep_app. exists x. split.
    + eapply rep_same; [|exact HA]. intros y Hy. cbn. rewrite lookup_insert_ne; [done|]. intros <-. apply (HAx _ Hy). by left.
    + do 2 (split; [done|]). exists k'. cbn [heap set_heap]. rewrite lookup_insert_eq. do 2 (split; [done|]).
      destruct HB as (_ & _ & k1 & Hk1 & _ & HB). rewrite Hk in Hk1. injection Hk1 as <-. rewrite Hn.
      eapply rep_same; [|exact HB]. intros y Hy. rewrite lookup_insert_ne; [done|]. by intros <-.
  - intros y ry Hy. destruct (H2 y ry Hy) as (? & ky & Hky & Hry). split; [done|]. exists ky.
    cbn. rewrite lookup_insert_ne; [done|]. intros <-. apply (HN x); [by apply (list_elem_of_fmap_2 fst _ _ Hy)|].
    apply elem_of_app. right. by left.
Qed.

Lemma nodup_held (x : Z) (r : lockf) N L : NoDup (((x, r) :: N) ++ L).*1 -> (x ∉ N.*1) /\ (x ∉ L.*1) /\ NoDup (N ++ L).*1.
Proof.
  cbn [app]. rewrite fmap_cons, NoDup_cons. cbn [fst]. rewrite fmap_app, not_elem_of_app. tauto.
Qed.

(** The range or type of a held lock changes. *)
Lemma view_held N x r L s k k' : view o ((x, r) :: N) L s -> heap s !! x = Some k ->
  (∀ w, w ∈ lf_blkhd k' -> waits (heap s) w) ->
  view o ((x, core k') :: N) L (set_heap (<[x := k']> (heap s)) s).
Proof.
  intros [H1 H2 H3 H4 H5] Hk Hw. destruct (nodup_held _ _ _ _ H3) as (HxN & HxL & H3').
  split; [| |done|by apply queue_ok_insert|done].
  - eapply rep_same; [|exact H1]. intros y Hy. cbn. rewrite lookup_insert_ne; [done|]. by intros <-.
  - intros y ry [E|Hy]%elem_of_cons; cbn.
    + injection E as -> ->. split; [by apply (H2 x r); left|]. exists k'. by rewrite lookup_insert_eq.
    + destruct (H2 y ry ltac:(by right)) as (? & ky & Hky & Hry). split; [done|]. exists ky.
      rewrite lookup_insert_ne; [done|]. intros <-. apply HxN. by apply (list_elem_of_fmap_2 fst _ _ Hy).
Qed.

(** A held lock is freed. *)
Lemma view_free N x r L s : view o ((x, r) :: N) L s -> view o N L (set_heap (delete x (heap s)) s).
Proof.
  intros [H1 H2 H3 H4 H5]. destruct (nodup_held _ _ _ _ H3) as (HxN & HxL & H3').
  split; [| |done| |done].
  - eapply rep_same; [|exact H1]. intros y Hy. cbn. rewrite lookup_delete_ne; [done|]. by intros <-.
  - intros y ry Hy; cbn. destruct (H2 y ry ltac:(by right)) as (? & ky & Hky & Hry). split; [done|]. exists ky.
    rewrite lookup_delete_ne; [done|]. intros <-. apply HxN. by apply (list_elem_of_fmap_2 fst _ _ Hy).
  - cbn [heap set_heap]. intros w (y & ky & [Hne Hy]%lookup_delete_Some & Hin). destruct (H4 w) as [Hn Hs]; [by exists y, ky|].
    cbn [app] in Hn. rewrite fmap_cons, not_elem_of_cons in Hn. destruct Hn as [Hwx Hn]. split; [done|]. cbn. by rewrite lookup_delete_ne.
Qed.

(** A new lock is allocated. *)
Lemma view_malloc N L s x k : view o N L s -> x <> 0 -> heap s !! x = None -> (∀ w, w ∈ lf_blkhd k -> waits (heap s) w) ->
  view o ((x, core k) :: N) L (set_heap (<[x := k]> (heap s)) s).
Proof.
  intros [H1 H2 H3 H4 H5] Hx Hf Hw.
  assert (HxN : x ∉ (N ++ L).*1).
  { intros [[y r] [E Hin]]%list_elem_of_fmap. cbn in E. subst y. apply elem_of_app in Hin as [Hin|Hin].
    - destruct (H2 _ _ Hin) as (_ & ? & ? & _). congruence.
    - destruct (rep_in _ _ _ _ _ _ H1 Hin) as (_ & ? & ? & _). congruence. }
  split; [| |by apply NoDup_cons| |done].
  - eapply rep_same; [|exact H1]. intros y Hy. cbn. rewrite lookup_insert_ne; [done|]. intros <-. apply HxN.
    rewrite fmap_app. apply elem_of_app. by right.
  - intros y ry [E|Hy]%elem_of_cons; cbn.
    + injection E as -> ->. split; [done|]. exists k. by rewrite lookup_insert_eq.
    + destruct (H2 y ry Hy) as (? & ky & Hky & Hry). split; [done|]. exists ky.
      rewrite lookup_insert_ne; [done|]. intros <-. congruence.
  - intros w Hww. apply waits_insert in Hww; [|done]. destruct (H4 w Hww) as [Hn [kw Hs]]. split.
    + cbn. rewrite not_elem_of_cons. split; [intros ->; congruence|done].
    + cbn. rewrite lookup_insert_ne; [done|]. intros <-. congruence.
Qed.

(** ** Relinking *)

Lemma write_place_runs A q q' s (Q : unit -> files O -> Prop) : NoDup A.*1 -> rep (heap s) (v_lockf s) A q ->
  (∀ s', rep (heap s') (v_lockf s') A q' -> requeued [] (heap s) (heap s') ->
     (∀ x, x ∉ A.*1 -> heap s' !! x = heap s !! x) -> other s' = other s -> Q tt s') ->
  runs (write_place (place_of A) q') Q s.
Proof.
  intros Hnd Hrep HQ. destruct (decide (A = [])) as [->|Hne].
  - apply runs_modify, HQ; [done|apply requeued_refl|done|done].
  - destruct (rep_link (heap s) (v_lockf s) A q q' Hnd Hrep Hne) as (x & k & -> & Hk & Hx & Hrep').
    apply (r_store x _ k); [done|]. apply HQ; [done| | |done].
    + apply (requeued_insert [] _ x k); [done|done|by intros ?%elem_of_nil|]. intros w Hw. by exists x, k.
    + intros y Hy. cbn. rewrite lookup_insert_ne; [done|]. by intros <-.
Qed.

Lemma nodup_mid (N A B : rows) : NoDup (N ++ A ++ B).*1 ->
  NoDup A.*1 /\ (∀ x, x ∈ B.*1 -> x ∉ A.*1) /\ (∀ x, x ∈ N.*1 -> (x ∉ A.*1) /\ (x ∉ B.*1)).
Proof.
  rewrite !fmap_app. intros (_ & H1 & H2)%NoDup_app. apply NoDup_app in H2 as (H2 & H3 & _). split; [done|]. split.
  - intros x Hx HA. by apply (H3 x).
  - intros x Hx. specialize (H1 x Hx). by rewrite not_elem_of_app in H1.
Qed.

Lemma held_same N (h h' : gmap Z lockf) : (∀ x r, (x, r) ∈ N -> x <> 0 /\ ∃ k, h !! x = Some k /\ core k = r) ->
  requeued [] h h' -> (∀ x r, (x, r) ∈ N -> x <> 0 /\ ∃ k, h' !! x = Some k /\ core k = r).
Proof.
  intros H [_ Hq _] x r Hin. destruct (H x r Hin) as (? & k & Hk & Hr). split; [done|].
  destruct (Hq x k Hk) as (k' & Hk' & Hc & _). exists k'. by rewrite Hc.
Qed.

(** The held locks [D], linked from [d] on to the end of the list, take the place of the
    locks [C]. *)
Lemma view_relink N A C D d B s (Q : unit -> files O -> Prop) : view o (D ++ N) (A ++ C ++ B) s ->
  rep (heap s) d D (first B) ->
  (∀ s', view o (C ++ N) (A ++ D ++ B) s' -> (∀ x, x ∉ A.*1 -> heap s' !! x = heap s !! x) -> Q tt s') ->
  runs (write_place (place_of A) d) Q s.
Proof.
  intros Hv HD HQ. pose proof Hv as [_ H2 H3 H4 H5]. destruct (view_first _ _ _ _ Hv) as [HA HCB].
  destruct (nodup_mid (D ++ N) A (C ++ B)) as (HnA & HBA & HN); [done|].
  assert (HP : ((D ++ N) ++ A ++ C ++ B).*1 ≡ₚ ((C ++ N) ++ A ++ D ++ B).*1) by (apply fmap_Permutation; solve_Permutation).
  eapply write_place_runs; [exact HnA|exact HA|]. intros s' HA' Hq Hs Ho. apply HQ; [|done].
  apply rep_app in HCB as (m & HC & HB). pose proof (rep_first _ _ _ HB) as Em. subst m.
  split; [| |by rewrite <- HP| |congruence].
  - apply rep_app. exists d. split; [done|]. apply rep_app. exists (first B). split.
    + eapply rep_same; [|exact HD]. intros x Hx. apply Hs, HN. rewrite fmap_app. apply elem_of_app. by left.
    + eapply rep_same; [|exact HB]. intros x Hx. apply Hs, HBA. rewrite fmap_app. apply elem_of_app. by right.
  - apply (held_same (C ++ N) (heap s)); [|done]. intros x r [Hx|Hx]%elem_of_app.
    + by apply (rep_in _ _ _ _ _ _ HC).
    + apply H2, elem_of_app. by right.
  - eapply requeued_queue_ok; [done|]. intros w Hw. rewrite <- HP. by apply H4.
Qed.

(** The locks [C] leave the list. *)
Lemma view_splice N A C B s (Q : unit -> files O -> Prop) : view o N (A ++ C ++ B) s ->
  (∀ s', view o (C ++ N) (A ++ B) s' -> (∀ x, x ∉ A.*1 -> heap s' !! x = heap s !! x) -> Q tt s') ->
  runs (write_place (place_of A) (first B)) Q s.
Proof. intros Hv HQ. by apply (view_relink N A C [] (first B) B). Qed.

Lemma write_store_comm pl x k q v s (Q : unit -> files O -> Prop) : heap s !! x = Some k -> pl <> NextOf x ->
  runs (store x (set_lf_next q)) (λ _, runs (write_place pl v) Q) s ->
  runs (write_place pl v) (λ _, runs (store x (set_lf_next q)) Q) s.
Proof.
  intros Hk Hpl. destruct pl as [|y]; unfold write_place, store, load, runs, deref, modify, mbind, kern_bind;
    rewrite Hk; cbn; [by rewrite Hk|].
  assert (y <> x) by congruence. rewrite lookup_insert_ne by done. destruct (heap s !! y) as [ky|]; cbn; [|done].
  rewrite lookup_insert_ne, Hk by done. cbn. rewrite insert_insert_ne by done. done.
Qed.

Lemma place_of_in A x : place_of A = NextOf x -> x ∈ A.*1.
Proof.
  unfold place_of. destruct (last A) as [[y r]|] eqn:E; [|done]. intros [= ->].
  apply last_Some in E as [A' ->]. rewrite fmap_app. apply elem_of_app. right. by left.
Qed.

(** A held lock is linked in place of the locks [C], its link first or the place first. *)
Lemma view_link_rev N A C x r B s (Q : unit -> files O -> Prop) : view o ((x, r) :: N) (A ++ C ++ B) s ->
  (∀ s', view o (C ++ N) (A ++ (x, r) :: B) s' -> Q tt s') ->
  runs (store x (set_lf_next (first B))) (λ _, runs (write_place (place_of A) x) Q) s.
Proof.
  intros Hv HQ. destruct (vw_held _ _ _ _ Hv x r ltac:(by left)) as (Hx & k & Hk & <-).
  apply (r_store x _ k); [done|].
  eapply (view_relink N A C [(x, core k)] x B); [| |auto].
  2:{ do 2 (split; [done|]). exists (set_lf_next (first B) k). cbn. by rewrite lookup_insert_eq. }
  eapply view_insert; [done..| |].
  - intros Hin. exfalso. by destruct (nodup_held _ _ _ _ (vw_nodup _ _ _ _ Hv)) as (_ & ? & _).
  - intros w Hw. by exists x, k.
Qed.

Lemma view_link N A C x r B s (Q : unit -> files O -> Prop) : view o ((x, r) :: N) (A ++ C ++ B) s ->
  (∀ s', view o (C ++ N) (A ++ (x, r) :: B) s' -> Q tt s') ->
  runs (write_place (place_of A) x) (λ _, runs (store x (set_lf_next (first B))) Q) s.
Proof.
  intros Hv HQ. destruct (vw_held _ _ _ _ Hv x r ltac:(by left)) as (Hx & k & Hk & Hr).
  apply (write_store_comm _ x k); [done| |by apply (view_link_rev N A C x r B)].
  intros E%place_of_in. destruct (nodup_held _ _ _ _ (vw_nodup _ _ _ _ Hv)) as (_ & H & _).
  apply H. rewrite fmap_app. apply elem_of_app. by left.
Qed.

(** A lock on the list has its range changed. *)
Lemma r_row N A x r B s f (Q : unit -> files O -> Prop) : view o N (A ++ (x, r) :: B) s ->
  (∀ k, core (f k) = f (core k)) -> (∀ k, lf_next (f k) = lf_next k) -> (∀ k, lf_blkhd (f k) = lf_blkhd k) ->
  (∀ s', view o N (A ++ (x, f r) :: B) s' -> Q tt s') -> runs (store x f) Q s.
Proof.
  intros Hv Hc Hn Hb HQ. destruct (view_listed _ _ _ _ _ _ Hv) as (_ & k & Hk & <- & _).
  apply (r_store x _ k); [done|]. apply HQ. rewrite <- Hc. eapply view_row; [done..|].
  intros w. rewrite Hb. intros Hw. by exists x, k.
Qed.

Lemma r_held N x r L s f (Q : unit -> files O -> Prop) : view o ((x, r) :: N) L s ->
  (∀ k, core (f k) = f (core k)) -> (∀ k, lf_blkhd (f k) = lf_blkhd k) ->
  (∀ s', view o ((x, f r) :: N) L s' -> Q tt s') -> runs (store x f) Q s.
Proof.
  intros Hv Hc Hb HQ. destruct (vw_held _ _ _ _ Hv x r ltac:(by left)) as (_ & k & Hk & <-).
  apply (r_store x _ k); [done|]. apply HQ. rewrite <- Hc. eapply view_held; [done..|].
  intros w. rewrite Hb. intros Hw. by exists x, k.
Qed.

Lemma r_held_link N x r L q s (Q : unit -> files O -> Prop) : view o N L s -> (x, r) ∈ N ->
  (∀ s' k, view o N L s' -> heap s !! x = Some k -> heap s' = <[x := set_lf_next q k]> (heap s) -> Q tt s') ->
  runs (store x (set_lf_next q)) Q s.
Proof.
  intros Hv Hin HQ. destruct (vw_held _ _ _ _ Hv x r Hin) as (_ & k & Hk & _).
  apply (r_store x _ k); [done|]. apply (HQ _ k); [|done|done].
  eapply view_insert; [done..| |intros w Hw; by exists x, k].
  intros Hx. exfalso. pose proof (vw_nodup _ _ _ _ Hv) as H. rewrite fmap_app in H. apply NoDup_app in H as (_ & H & _).
  apply (H x); [by apply (list_elem_of_fmap_2 fst _ _ Hin)|done].
Qed.

Lemma r_free_held N x r L s (Q : unit -> files O -> Prop) : view o ((x, r) :: N) L s ->
  (∀ s', view o N L s' -> Q tt s') -> runs (FREE x) Q s.
Proof.
  intros Hv HQ. destruct (vw_held _ _ _ _ Hv x r ltac:(by left)) as (_ & k & Hk & _).
  apply (r_free x k); [done|]. eapply HQ, view_free, Hv.
Qed.

Lemma r_wake N A x r B force_all s (Q : unit -> files O -> Prop) : view o N (A ++ (x, r) :: B) s ->
  (∀ s', view o N (A ++ (x, r) :: B) s' -> Q tt s') -> runs (lf_wakelock x force_all) Q s.
Proof.
  intros Hv HQ. destruct (view_listed _ _ _ _ _ _ Hv) as (_ & k & Hk & _ & _).
  eapply (wakelock_runs (N ++ A ++ (x, r) :: B).*1 x k); [|done|by apply (vw_queue _ _ _ _ Hv)|].
  - rewrite !fmap_app. apply elem_of_app. right. apply elem_of_app. right. by left.
  - intros s' k' W _ _. eapply HQ, view_woke; done.
Qed.

Context (Hmalloc : ∀ s p, malloc s = Some p -> p <> 0 /\ heap s !! p = None).

(** [lf_split] of a lock that reaches further on both sides, or ends with the range. *)
Lemma split_runs N A x r B lp c s (Q : Z -> files O -> Prop) :
  view o ((lp, c) :: N) (A ++ (x, r) :: B) s -> range_ok r -> range_ok c ->
  case_spec r c OVERLAP_CONTAINS_LOCK -> lf_start r <> lf_start c ->
  (∀ s' R, view o N (A ++ (x, set_lf_end (lf_start c - 1) r) :: (lp, c) :: R ++ B) s' -> R.*2 = above c r -> Q 0 s') ->
  (∀ s', malloc s = None -> view o ((lp, c) :: N) (A ++ (x, r) :: B) s' -> Q ENOLCK s') ->
  runs (lf_split malloc x lp) Q s.
Proof.
  intros Hv Hr Hc Hcase Hne H0 Herr. cbn in Hcase. unfold range_ok, OFF_MAX in Hr, Hc.
  destruct (vw_held _ _ _ _ Hv lp c ltac:(by left)) as (_ & u & Hu & Hcu).
  destruct (view_listed _ _ _ _ _ _ Hv) as (_ & k & Hk & Hkr & Hn).
  apply runs_bind, (r_load x k); [done|]. apply runs_bind, (r_load lp u); [done|].
  replace (lf_start k) with (lf_start r) by (by rewrite <- Hkr). replace (lf_end k) with (lf_end r) by (by rewrite <- Hkr).
  replace (lf_start u) with (lf_start c) by (by rewrite <- Hcu). replace (lf_end u) with (lf_end c) by (by rewrite <- Hcu).
  rewrite (proj2 (Z.eqb_neq _ _)) by done. rewrite !s64_small by lia. destruct (Z.eqb_spec (lf_end r) (lf_end c)) as [Ee|Ee].
  - apply runs_bind. eapply (r_row _ A x r B _ (set_lf_end (lf_start c - 1)) _ Hv); [done..|]. intros s1 Hv1.
    apply runs_bind. rewrite Hn.
    change (A ++ (x, set_lf_end (lf_start c - 1) r) :: B) with (A ++ [(x, set_lf_end (lf_start c - 1) r)] ++ B) in Hv1.
    rewrite app_assoc in Hv1.
    eapply runs_weaken; [eapply (view_link_rev N _ [] lp c B _ (λ _ s2, Q 0 s2) Hv1)|].
    + intros s2 Hv2. apply (H0 s2 []); [by rewrite <- app_assoc in Hv2|]. unfold above. by rewrite Ee, Z.ltb_irrefl, orb_false_r, andb_negb_l.
    + intros [] s2 H. apply runs_bind. rewrite place_of_snoc in H. eapply runs_weaken; [exact H|]. by intros [] s3 ?.
  - apply runs_bind, runs_gets. destruct (malloc s) as [y|] eqn:Em; [|by apply runs_ret, Herr].
    destruct (Hmalloc s y Em) as [Hy Hf]. apply runs_bind, runs_modify.
    pose proof (view_malloc _ _ s y k Hv Hy Hf) as Hv1. specialize (Hv1 ltac:(intros w Hw; by exists x, k)). rewrite Hkr in Hv1.
    set (s1 := set_heap _ s) in *.
    apply runs_bind. eapply (r_held _ y r _ _ (set_lf_start (lf_end c + 1)) _ Hv1); [done..|]. intros s2 Hv2.
    apply runs_bind. destruct (vw_held _ _ _ _ Hv2 y _ ltac:(by left)) as (_ & ky & Hky & Hcy).
    apply (r_store y _ ky); [done|]. 
    pose proof (view_held _ _ _ _ _ _ (set_lf_blkhd [] ky) Hv2 Hky ltac:(intros w ?%elem_of_nil; done)) as Hv3.
    change (core (set_lf_blkhd [] ky)) with (core ky) in Hv3. rewrite Hcy in Hv3. clear Hky.
    set (s3 := set_heap _ s2) in *. clearbody s3.
    apply runs_bind. eapply (r_row _ A x r B _ (set_lf_end (lf_start c - 1)) _ Hv3); [done..|]. intros s4 Hv4.
    rewrite Hn.
    apply runs_bind, (r_held_link _ y (set_lf_start (lf_end c + 1) r) _ _ _ _ Hv4); [by left|]. intros s5 ky' Hv5 Hky' E5.
    apply runs_bind, (r_held_link _ lp c _ _ _ _ Hv5); [by right; left|]. intros s6 kl Hv6 Hkl E6.
    destruct (vw_held _ _ _ _ Hv5 y _ ltac:(by left)) as (_ & k5 & Hk5 & Hc5).
    assert (Hyl : lp <> y).
    { intros <-. destruct (nodup_held _ _ _ _ (vw_nodup _ _ _ _ Hv4)) as (H & _). apply H. by left. }
    assert (En5 : lf_next k5 = first B) by (rewrite E5, lookup_insert_eq in Hk5; by injection Hk5 as <-).
    destruct (vw_held _ _ _ _ Hv5 lp c ltac:(by right; left)) as (Hlp & kl' & Hkl' & Hcl).
    rewrite Hkl in Hkl'. injection Hkl' as <-.
    apply runs_bind. change (store x (set_lf_next lp)) with (write_place (O := O) (NextOf x) lp).
    rewrite <- (place_of_snoc A x (set_lf_end (lf_start c - 1) r)).
    eapply (view_relink N _ [] [(lp, c); (y, set_lf_start (lf_end c + 1) r)] lp B).
    + rewrite <- app_assoc. eapply view_perm; [|exact Hv6]. solve_Permutation.
    + cbn. do 2 (split; [done|]). exists (set_lf_next y kl). rewrite E6, lookup_insert_eq. do 3 (split; [done|]).
      split; [done|]. exists k5. by rewrite lookup_insert_ne.
    + intros s7 Hv7 _. apply runs_ret, (H0 s7 [(y, set_lf_start (lf_end c + 1) r)]).
      * by rewrite <- app_assoc in Hv7.
      * unfold above. assert (E : negb (lf_end c =? -1) && ((lf_end r =? -1) || (lf_end c <? lf_end r)) = true) by lia.
        by rewrite E.
Qed.

(** ** Clearing *)

(** What the search of an owner for its own locks stands at. *)
Definition found (c : lockf) (oc : overlap_t) (B : rows) : Prop :=
  match oc with
  | OVERLAP_NONE => ∀ q, q ∈ B.*2 -> before c q
  | _ => ∃ x r B', B = (x, r) :: B' /\ lf_id r = lf_id c /\ range_ok r /\ case_spec r c oc
  end.

Lemma found_hit c oc B : found c oc B -> oc <> OVERLAP_NONE ->
  ∃ x r B', B = (x, r) :: B' /\ lf_id r = lf_id c /\ range_ok r /\ case_spec r c oc.
Proof. by destruct oc. Qed.

Lemma view_search N A B lp u c s (Q : overlap_t * place * Z -> files O -> Prop) : view o N (A ++ B) s ->
  heap s !! lp = Some u -> core u = c -> range_ok c -> rows_ok B -> ordered B.*2 ->
  (∀ oc B1 B2, B = B1 ++ B2 -> (∀ r, r ∈ B1.*2 -> before r c) -> found c oc B2 ->
     Q (oc, place_of (A ++ B1), first B2) s) ->
  runs (lf_findoverlap (first B) lp SELF (place_of A)) Q s.
Proof.
  intros Hv Hu <- Hc Hok Ho HQ. destruct (view_first _ _ _ _ Hv) as [_ HB].
  assert (Hu' : range_ok u) by exact Hc. pose proof (vw_nodup _ _ _ _ Hv) as Hnd.
  rewrite !fmap_app in Hnd. apply NoDup_app in Hnd as (_ & _ & Hnd). apply NoDup_app in Hnd as (_ & _ & Hnd).
  apply (findoverlap_runs SELF lp u s _ A B); [done..|by apply rows_case|].
  intros oc B1 B2 -> HB1 He. rewrite fmap_app in Hok, Ho. apply Forall_app in Hok as [Hok1 Hok2].
  apply ordered_app in Ho as (_ & Ho & _). apply HQ; [done| |].
  - intros r Hr Hi. rewrite Forall_forall in HB1, Hok1.
    destruct (skipped_self u r (Hok1 r Hr) Hu' (HB1 r Hr)) as [H|H]; [done|exact H].
  - destruct (decide (oc = OVERLAP_NONE)) as [->|Hne].
    + destruct He as [->|(_ & x & r & B' & -> & Hi & H1 & H2)]; [by intros q Hq%elem_of_nil|].
      cbn [fmap list_fmap snd] in Ho, Hok2 |- *. apply Forall_cons in Hok2 as [Hr Hok2]. apply ordered_cons in Ho as [_ Ho].
      intros q [->|Hq]%elem_of_cons Hiq; [done|]. cbn in Hiq. destruct (Ho q Hq) as [H3 H4]; [congruence|].
      cbn. destruct Hr. lia.
    + destruct (search_hit _ _ _ _ He Hne) as (x & r & B' & -> & Hp & Eo).
      apply Forall_cons in Hok2 as [Hr _]. destruct (overlap_case_spec r u Hr Hu') as (oc' & Eo' & Hs).
      rewrite Eo in Eo'. injection Eo' as <-.
      assert (H : ∃ x0 r0 B'0, (x, r) :: B' = (x0, r0) :: B'0 /\ lf_id r0 = lf_id (core u) /\ range_ok r0 /\ case_spec r0 (core u) oc).
      { exists x, r, B'. split; [done|]. split; [cbn in Hp; cbn; lia|]. by split. }
      by destruct oc.
Qed.

Lemma cut_left c R : range_ok c -> Forall range_ok R -> (∀ r, r ∈ R -> before r c) -> mbind (cut c) R = R.
Proof.
  intros Hc Hok HR. apply (cut_all c R Hok). intros r Hr. rewrite Forall_forall in Hok.
  apply (cut_below c Hc); [by apply Hok|]. destruct (decide (lf_id r = lf_id c)); [right; by apply HR|by left].
Qed.

Lemma cut_right c R : range_ok c -> Forall range_ok R -> (∀ r, r ∈ R -> before c r) -> mbind (cut c) R = R.
Proof.
  intros Hc Hok HR. apply (cut_all c R Hok). intros r Hr. rewrite Forall_forall in Hok.
  apply (cut_above c Hc); [by apply Hok|]. destruct (decide (lf_id r = lf_id c)); [right; by apply HR|by left].
Qed.

Lemma cut_hit c r oc : range_ok r -> range_ok c -> lf_id r = lf_id c -> case_spec r c oc -> oc <> OVERLAP_NONE ->
  cut c r = remains c r.
Proof.
  intros Hr Hc Hi Hs Hne. destruct (overlap_case_spec r c Hr Hc) as (oc' & Eo & Hs').
  rewrite (cut_case c r oc' Hi Eo). destruct oc'; try done. exfalso.
  apply (case_overlaps r c oc Hr Hc Hs) in Hne. by apply (case_overlaps r c _ Hr Hc Hs') in Hne.
Qed.

(** The pieces of a lock in each case. *)
Lemma case_pieces r c oc : range_ok r -> range_ok c -> case_spec r c oc ->
  below c r = match oc with
              | OVERLAP_STARTS_BEFORE_LOCK => [set_lf_end (lf_start c - 1) r]
              | OVERLAP_CONTAINS_LOCK => if lf_start r =? lf_start c then [] else [set_lf_end (lf_start c - 1) r]
              | OVERLAP_NONE => below c r
              | _ => [] end /\
  above c r = match oc with
              | OVERLAP_ENDS_AFTER_LOCK => [set_lf_start (lf_end c + 1) r]
              | OVERLAP_CONTAINS_LOCK => if lf_start r =? lf_start c then [set_lf_start (lf_end c + 1) r] else above c r
              | OVERLAP_NONE => above c r
              | _ => [] end.
Proof.
  intros [Hr1 Hr2] [Hc1 Hc2] Hs. unfold below, above. split.
  - destruct (_ <? _) eqn:E; destruct oc; cbn in Hs; try done; try lia.
    + destruct (Z.eqb_spec (lf_start r) (lf_start c)); [lia|done].
    + destruct (Z.eqb_spec (lf_start r) (lf_start c)); [done|lia].
  - destruct (_ && _) eqn:E; destruct oc; cbn in Hs; try done; try lia.
    + by destruct (lf_start r =? lf_start c).
    + destruct (Z.eqb_spec (lf_start r) (lf_start c)) as [E1|]; [|done]. destruct Hs as (_ & H1 & H2 & H3). specialize (H3 E1). lia.
Qed.

(** The contents of a list of rows, up to the grouping of its parts. *)
Ltac solve_rows := rewrite ?fmap_app; cbn; rewrite ?fmap_app, <- ?app_assoc; done.

(** Behind a lock that starts within the range no lock of the owner starts before it. *)
Definition inside (c : lockf) (B : rows) : Prop := ∀ q, q ∈ B.*2 -> lf_id q = lf_id c -> lf_start c < lf_start q.

(** The search of an owner for its own locks passes [B1] and stops at [r], before [B']. *)
Record hit (c : lockf) (oc : overlap_t) (B1 : rows) (r : lockf) (B' : rows) : Prop := {
  ht_some : oc <> OVERLAP_NONE;
  ht_left : ∀ q, q ∈ B1.*2 -> before q c;
  ht_left_ok : rows_ok B1;
  ht_owner : lf_id r = lf_id c;
  ht_range : range_ok r;
  ht_case : case_spec r c oc;
  ht_ok : rows_ok B';
  ht_order : ordered (r :: B'.*2) }.

Section hit.
Context (c : lockf) (Hc : range_ok c) (oc : overlap_t) (B1 : rows) (r : lockf) (B' : rows).
Context (H : hit c oc B1 r B').

Lemma hit_cut x : mbind (cut c) (B1 ++ (x, r) :: B').*2 = B1.*2 ++ remains c r ++ mbind (cut c) B'.*2.
Proof.
  destruct H. rewrite fmap_app, bind_app, cut_left by done. cbn. by rewrite (cut_hit c r oc).
Qed.

Lemma hit_ordered : ordered B'.*2.
Proof. destruct H as [_ _ _ _ _ _ _ Ho]. by apply ordered_cons in Ho as [? _]. Qed.

Lemma hit_behind q : q ∈ B'.*2 -> lf_id q = lf_id c -> lf_end r <> -1 /\ lf_end r < lf_start q.
Proof.
  destruct H as [_ _ _ Hi _ _ _ Ho]. apply ordered_cons in Ho as [_ Ho]. intros Hq Hiq.
  apply Ho; [done|]. congruence.
Qed.

Lemma hit_inside : inside c B'.
Proof.
  intros q Hq Hiq. pose proof (hit_behind q Hq Hiq). destruct H as [Hne _ _ _ Hr Hs _ _].
  unfold range_ok in *. destruct oc; cbn in Hs; [done|lia..].
Qed.

(** The range ends no later than [r]. *)
Lemma hit_last : lf_end r = -1 \/ (lf_end c <> -1 /\ lf_end c <= lf_end r) ->
  mbind (cut c) B'.*2 = B'.*2 /\ ∀ q, q ∈ B'.*2 -> before c q.
Proof.
  intros He. split; [destruct H; by apply (cut_rest c Hc r); auto|].
  intros q Hq Hi. pose proof (hit_behind q Hq (eq_sym Hi)). lia.
Qed.
End hit.

Lemma search_hits N A B lp u c s (Q : overlap_t * place * Z -> files O -> Prop) : view o N (A ++ B) s ->
  heap s !! lp = Some u -> core u = c -> range_ok c -> rows_ok B -> ordered B.*2 ->
  (∀ B1 B2, B = B1 ++ B2 -> (∀ q, q ∈ B1.*2 -> before q c) -> (∀ q, q ∈ B2.*2 -> before c q) ->
     mbind (cut c) B.*2 = B.*2 -> Q (OVERLAP_NONE, place_of (A ++ B1), first B2) s) ->
  (∀ oc B1 x r B', B = B1 ++ (x, r) :: B' -> hit c oc B1 r B' -> Q (oc, place_of (A ++ B1), x) s) ->
  runs (lf_findoverlap (first B) lp SELF (place_of A)) Q s.
Proof.
  intros Hv Hu Hcu Hc Hok Hord HN HH. apply (view_search _ A B lp u c s _ Hv Hu Hcu Hc Hok Hord).
  intros oc B1 B2 -> Hleft Hfound. rewrite fmap_app in Hok, Hord.
  apply Forall_app in Hok as [Hok1 Hok2]. apply ordered_app in Hord as (_ & Hord & _).
  destruct (decide (oc = OVERLAP_NONE)) as [->|Hne].
  - apply HN; [done..|]. by rewrite fmap_app, bind_app, cut_left, cut_right by done.
  - destruct (found_hit _ _ _ Hfound Hne) as (x & r & B' & -> & Hi & Hr & Hs).
    cbn in Hok2. apply Forall_cons in Hok2 as [_ Hok2]. by apply (HH oc B1 x r B').
Qed.

(** Loading a lock on the list and the lock it is compared with. *)
Lemma load_pair {R : Type} N A x r B lp u c s (f : lockf -> lockf -> kern (files O) R) (Q : R -> files O -> Prop) :
  view o N (A ++ (x, r) :: B) s -> heap s !! lp = Some u -> core u = c ->
  (∀ k u, core k = r -> core u = c -> lf_next k = first B -> runs (f k u) Q s) ->
  runs (k ← load x; u ← load lp; f k u) Q s.
Proof.
  intros Hv Hu Hcu HQ. destruct (view_listed _ _ _ _ _ _ Hv) as (_ & k & Hk & Hkr & Hn).
  apply runs_bind, (r_load x k); [done|]. apply runs_bind, (r_load lp u); [done|]. by apply HQ.
Qed.

(** Taking a lock off the list and freeing it. *)
Lemma drop_row {R : Type} N A x r B s (k : kern (files O) R) (Q : R -> files O -> Prop) : view o N (A ++ (x, r) :: B) s ->
  (∀ s', view o N (A ++ B) s' -> runs k Q s') -> runs (write_place (place_of A) (first B);; FREE x;; k) Q s.
Proof.
  intros Hv Hk. apply runs_bind, (view_splice _ A [(x, r)] B s _ Hv). intros s1 Hv1 _.
  apply runs_bind, (r_free_held _ x r _ s1 _ Hv1). exact Hk.
Qed.

(** The held lock goes on the list, in front of [B] and in place of [C]. *)
Lemma replace_row {R : Type} N A C lp c B s (k : kern (files O) R) (Q : R -> files O -> Prop) :
  view o ((lp, c) :: N) (A ++ C ++ B) s -> (∀ s', view o (C ++ N) (A ++ (lp, c) :: B) s' -> runs k Q s') ->
  runs (write_place (place_of A) lp;; store lp (set_lf_next (first B));; k) Q s.
Proof.
  intros Hv Hk. apply runs_bind. eapply runs_weaken.
  - apply (view_link N A C lp c B s (λ _ s', view o (C ++ N) (A ++ (lp, c) :: B) s')); [exact Hv|done].
  - intros [] s1 H. apply runs_bind. eapply runs_weaken; [exact H|]. intros [] s2. apply Hk.
Qed.

Lemma insert_row_rev {R : Type} N A lp c B s (k : kern (files O) R) (Q : R -> files O -> Prop) :
  view o ((lp, c) :: N) (A ++ B) s -> (∀ s', view o N (A ++ (lp, c) :: B) s' -> runs k Q s') ->
  runs (store lp (set_lf_next (first B));; write_place (place_of A) lp;; k) Q s.
Proof.
  intros Hv Hk. apply runs_bind. eapply runs_weaken.
  - apply (view_link_rev N A [] lp c B s (λ _ s', view o N (A ++ (lp, c) :: B) s')); [exact Hv|done].
  - intros [] s1 H. apply runs_bind. eapply runs_weaken; [exact H|]. intros [] s2. apply Hk.
Qed.

Lemma insert_row_end N A lp c B s (Q : unit -> files O -> Prop) : view o ((lp, c) :: N) (A ++ B) s ->
  (∀ s', view o N (A ++ (lp, c) :: B) s' -> Q tt s') ->
  runs (write_place (place_of A) lp;; store lp (set_lf_next (first B))) Q s.
Proof. intros Hv HQ. by apply runs_bind, (view_link N A [] lp c B s). Qed.

(** A row behind another one is another record. *)
Lemma other_listed N A p c B x r C s : view o N (A ++ (p, c) :: B ++ (x, r) :: C) s -> x <> p.
Proof.
  intros Hv ->. pose proof (vw_nodup _ _ _ _ Hv) as Hnd. rewrite !fmap_app in Hnd.
  apply NoDup_app in Hnd as (_ & _ & Hnd). apply NoDup_app in Hnd as (_ & _ & Hnd).
  cbn in Hnd. apply NoDup_cons in Hnd as [Hn _]. apply Hn. rewrite fmap_app. apply elem_of_app. right. by left.
Qed.

(** A lock on the list is cut, at its start or at its end. *)
Lemma cut_start N A x r B e s (Q : unit -> files O -> Prop) : view o N (A ++ (x, r) :: B) s -> 0 <= e < OFF_MAX ->
  (∀ s', view o N (A ++ (x, set_lf_start (e + 1) r) :: B) s' -> Q tt s') ->
  runs (store x (set_lf_start (s64 (e + 1)))) Q s.
Proof. intros Hv He HQ. unfold OFF_MAX in He. rewrite s64_small by lia. by apply (r_row _ _ _ _ _ _ _ _ Hv). Qed.

Lemma cut_end N A x r B e s (Q : unit -> files O -> Prop) : view o N (A ++ (x, r) :: B) s -> 0 <= e <= OFF_MAX ->
  (∀ s', view o N (A ++ (x, set_lf_end (e - 1) r) :: B) s' -> Q tt s') ->
  runs (store x (set_lf_end (s64 (e - 1)))) Q s.
Proof. intros Hv He HQ. unfold OFF_MAX in He. rewrite s64_small by lia. by apply (r_row _ _ _ _ _ _ _ _ Hv). Qed.

Lemma core_fields k r : core k = r -> lf_start k = lf_start r /\ lf_end k = lf_end r /\ lf_type k = lf_type r.
Proof. by intros <-. Qed.

Lemma row_app (A : rows) p B : A ++ p :: B = (A ++ [p]) ++ B.
Proof. by rewrite <- app_assoc. Qed.

(** [lf_clearlock] of the middle of a lock: the range's own record is taken off again. *)
Lemma clear_split N A x r B lp c s (Q : Z -> files O -> Prop) :
  view o ((lp, c) :: N) (A ++ (x, r) :: B) s -> range_ok r -> range_ok c ->
  case_spec r c OVERLAP_CONTAINS_LOCK -> lf_start r <> lf_start c ->
  (∀ s' R, view o ((lp, c) :: N) (A ++ (x, set_lf_end (lf_start c - 1) r) :: R ++ B) s' -> R.*2 = above c r -> Q 0 s') ->
  (malloc s = None -> ∀ s', view o ((lp, c) :: N) (A ++ (x, r) :: B) s' -> Q ENOLCK s') ->
  runs (error ← lf_split malloc x lp;
        if negb (error =? 0) then mret ENOLCK
        else u ← load lp; store x (set_lf_next (lf_next u));; mret 0) Q s.
Proof.
  intros Hv Hr Hc Hs Es H0 Herr. apply runs_bind, (split_runs N A x r B lp c s _ Hv Hr Hc Hs Es).
  - intros s1 R Hv1 HR. cbn [Z.eqb negb]. rewrite row_app in Hv1.
    destruct (view_listed _ _ lp c (R ++ B) _ Hv1) as (_ & kl & Hkl & _ & Hnl).
    apply runs_bind, (r_load lp kl); [done|]. rewrite Hnl. apply runs_bind.
    change (store x (set_lf_next (first (R ++ B)))) with (write_place (O := O) (NextOf x) (first (R ++ B))).
    rewrite <- (place_of_snoc A x (set_lf_end (lf_start c - 1) r)).
    apply (view_splice _ _ [(lp, c)] (R ++ B) s1 _ Hv1). intros s2 Hv2 _.
    apply runs_ret, (H0 s2 R); [by rewrite <- app_assoc in Hv2|done].
  - intros s1 Hm Hv1. by apply runs_ret, Herr.
Qed.

(** What each round of [lf_clearlock] starts with once it has found a lock. *)
Lemma clear_open {R : Type} N A x r B lp c s (f : lockf -> lockf -> kern (files O) R) (Q : R -> files O -> Prop) :
  view o ((lp, c) :: N) (A ++ (x, r) :: B) s ->
  (∀ s' k u, view o ((lp, c) :: N) (A ++ (x, r) :: B) s' -> core k = r -> core u = c -> lf_next k = first B ->
     runs (f k u) Q s') ->
  runs (lf_wakelock x false;; k ← load x; u ← load lp; f k u) Q s.
Proof.
  intros Hv Hf. apply runs_bind. eapply r_wake; [exact Hv|]. intros s1 Hv1.
  destruct (vw_held _ _ _ _ Hv1 lp c ltac:(by left)) as (_ & u & Hu & Hcu).
  apply (load_pair _ _ _ _ _ _ u c s1 _ _ Hv1 Hu Hcu). intros k u' Hk Hu' Hn. by apply Hf.
Qed.

Lemma clear_loop_runs N lp c : range_ok c -> ∀ fuel A B s (Q : Z -> files O -> Prop),
  view o ((lp, c) :: N) (A ++ B) s -> rows_ok B -> ordered B.*2 -> (length B < fuel)%nat ->
  (∀ s' L', view o ((lp, c) :: N) L' s' -> L'.*2 = A.*2 ++ mbind (cut c) B.*2 -> Q 0 s') ->
  (~ inside c B -> (∃ s0, malloc s0 = None) -> ∀ s', view o ((lp, c) :: N) (A ++ B) s' -> Q ENOLCK s') ->
  runs (clear_loop malloc fuel (first B) lp (place_of A)) Q s.
Proof.
  intros Hc. induction fuel as [|fuel IH]; intros A B s Q Hv Hok Hord Hf H0 Herr; [lia|]. cbn [clear_loop].
  destruct (vw_held _ _ _ _ Hv lp c ltac:(by left)) as (_ & u & Hu & Hcu).
  apply runs_bind, (search_hits _ A B lp u c s _ Hv Hu Hcu Hc Hok Hord); clear u Hu Hcu.
  { intros B1 B2 -> _ _ E. apply runs_ret, (H0 s _ Hv). by rewrite fmap_app, E. }
  intros oc B1 x r B' -> Hh. rewrite (hit_cut c Hc oc B1 r B' Hh) in H0. rewrite app_assoc in Hv, Herr.
  pose proof (hit_inside c Hc oc B1 r B' Hh) as Hin. pose proof (hit_last c Hc oc B1 r B' Hh) as Hrest.
  pose proof (hit_ordered c oc B1 r B' Hh) as Hord'. destruct Hh as [Hne _ _ Ho Hr Hs Hok' _].
  assert (Hlen : (length B' < fuel)%nat) by (rewrite length_app in Hf; cbn in Hf; lia).
  unfold remains in H0.
  set (A' := A ++ B1) in *.
  assert (Hend : ∀ s' L', view o ((lp, c) :: N) L' s' ->
    L'.*2 = A'.*2 ++ below c r ++ above c r ++ mbind (cut c) B'.*2 -> Q 0 s').
  { intros s' L' Hv' HL. apply (H0 s' L' Hv'). rewrite HL. unfold A'. by rewrite fmap_app, <- !app_assoc. }
  clear H0. destruct (case_pieces r c oc Hr Hc Hs) as [Hbel Habv]. rewrite Hbel in Hend.
  pose proof Hc as [Hc1 Hc2]. unfold range_ok in Hr.
  destruct oc; [done|..]; (eapply clear_open; [exact Hv|]; clear s Hv; intros s k u Hv Hk Hu Hn);
    destruct (core_fields _ _ Hk) as (Ek & _), (core_fields _ _ Hu) as (Es & Ee & _); rewrite ?Hn, ?Ek, ?Es, ?Ee;
    cbn in Hs.
  - (* equal *)
    apply (drop_row _ A' x r B' s _ _ Hv). intros s1 Hv1. apply runs_ret, (Hend s1 _ Hv1).
    rewrite Habv, (proj1 (Hrest ltac:(lia))). solve_rows.
  - (* contains *)
    destruct (Z.eqb_spec (lf_start r) (lf_start c)) as [E|E].
    + apply runs_bind. apply (cut_start _ A' x r B' _ s _ Hv); [lia|]. intros s1 Hv1. apply runs_ret, (Hend s1 _ Hv1).
      rewrite Habv, (proj1 (Hrest ltac:(lia))). solve_rows.
    + apply (clear_split N A' x r B' lp c s _ Hv); try done.
      * intros s1 R Hv1 HR. apply (Hend s1 _ Hv1). rewrite <- HR, (proj1 (Hrest ltac:(lia))). solve_rows.
      * intros Hm s1 Hv1. apply Herr; [|by exists s|done]. intros Hi.
        specialize (Hi r ltac:(rewrite fmap_app; apply elem_of_app; right; by left) Ho). lia.
  - (* contained *)
    apply (drop_row _ A' x r B' s _ _ Hv). intros s1 Hv1. apply (IH A' B' s1 Q Hv1 Hok' Hord' Hlen); [|done].
    intros s2 L' Hv2 HL. apply (Hend s2 L' Hv2). by rewrite HL, Habv.
  - (* starts before *)
    apply runs_bind. apply (cut_end _ A' x r B' _ s _ Hv); [lia|]. intros s1 Hv1. rewrite row_app in Hv1.
    rewrite <- (place_of_snoc A' x (set_lf_end (lf_start c - 1) r)).
    apply (IH _ B' s1 Q Hv1 Hok' Hord' Hlen); [|done].
    intros s2 L' Hv2 HL. apply (Hend s2 L' Hv2). rewrite HL, Habv. solve_rows.
  - (* ends after *)
    apply runs_bind. apply (cut_start _ A' x r B' _ s _ Hv); [lia|]. intros s1 Hv1. apply runs_ret, (Hend s1 _ Hv1).
    rewrite Habv, (proj1 (Hrest ltac:(lia))). solve_rows.
Qed.

Lemma clearlock_runs N lp c L s (Q : Z -> files O -> Prop) : view o ((lp, c) :: N) L s ->
  range_ok c -> rows_ok L -> ordered L.*2 ->
  (∀ s' L', view o ((lp, c) :: N) L' s' -> L'.*2 = mbind (cut c) L.*2 -> Q 0 s') ->
  ((∃ s0, malloc s0 = None) -> ∀ s', view o ((lp, c) :: N) L s' -> Q ENOLCK s') ->
  runs (lf_clearlock malloc lp) Q s.
Proof.
  intros Hv Hc Hok Hord H0 Herr. apply runs_bind, runs_gets.
  pose proof (rep_first _ _ _ (vw_rep _ _ _ _ Hv)) as Hf. destruct (Z.eqb_spec (v_lockf s) 0) as [E|E].
  - apply runs_ret, (H0 s L Hv). destruct L as [|[x r] L]; [done|]. cbn in Hf.
    destruct (view_listed N [] x r L s) as [Hx _]; [|by subst].
    destruct Hv as [H1 H2 H3 H4 H5]. split; [done| | | |done].
    + intros y ry Hy. apply H2. by right.
    + by destruct (nodup_held _ _ _ _ H3) as (_ & _ & ?).
    + intros w Hw. destruct (H4 w Hw) as [Hn ?]. split; [|done]. cbn [app] in Hn. rewrite fmap_cons, not_elem_of_cons in Hn. tauto.
  - apply runs_bind, runs_gets. rewrite Hf.
    destruct (nodup_held _ _ _ _ (vw_nodup _ _ _ _ Hv)) as (_ & _ & Hnd). rewrite fmap_app in Hnd. apply NoDup_app in Hnd as (_ & _ & Hnd).
    pose proof (rep_size _ _ _ _ Hnd (vw_rep _ _ _ _ Hv)).
    apply (clear_loop_runs N lp c Hc _ [] L); [done..|lia|done|auto].
Qed.

(** ** Setting *)

Lemma r_take_queue N L x lp s (Q : unit -> files O -> Prop) : view o N L s -> is_Some (heap s !! x) ->
  is_Some (heap s !! lp) -> x <> lp -> (∀ s', view o N L s' -> Q tt s') -> runs (take_queue x lp) Q s.
Proof.
  intros Hv [kx Hx] [kl Hl] Hne HQ. apply runs_bind, (r_load x kx); [done|].
  apply runs_bind, (r_store x _ kx); [done|]. apply runs_bind, (r_store lp _ kl); [cbn; by rewrite lookup_insert_ne|].
  set (s1 := set_heap _ _).
  assert (W : woke (N ++ L).*1 [] s s1).
  { split; [done|done| |cbn; by rewrite app_nil_r]. cbn. rewrite insert_insert_ne by done.
    eapply requeued_trans; [apply (requeued_insert _ _ lp kl (set_lf_blkhd (lf_blkhd kl ++ lf_blkhd kx) kl))|]; [done..| |].
    - intros w [Hw|Hw]%elem_of_app; [by exists lp, kl|by exists x, kx].
    - apply (requeued_insert _ _ x kx); [by rewrite lookup_insert_ne|done..|]. by intros w ?%elem_of_nil. }
  pose proof (vw_queue _ _ _ _ Hv) as Hq.
  apply (set_nexts_runs (N ++ L).*1).
  - intros t Ht. destruct (Hq t) as [? Hd]; [by exists x, kx|]. split; [done|].
    by apply (rq_dom _ _ _ (wk_heap _ _ _ _ W)).
  - intros s' W' _. eapply HQ, view_woke; [exact Hv|]. by apply (woke_trans _ [] [] s s1 s').
Qed.

(** Locks of the owner that start within the range are cut to what is above it. *)
Lemma inside_above c B : range_ok c -> rows_ok B -> inside c B -> ∀ q, q ∈ mbind (cut c) B.*2 -> before c q.
Proof.
  intros Hc Hok Hin q (r & Hq & Hr)%list_elem_of_bind Hi. rewrite Forall_forall in Hok. specialize (Hok r Hr).
  destruct (cut_piece c Hc r q Hok Hq) as (Hrq & E1 & _ & H1 & _). specialize (Hin r Hr ltac:(congruence)).
  destruct (cut_covers c Hc r (lf_start q) Hok) as [H _]; [destruct Hrq; lia|].
  destruct H as [_ H]; [exists q; split; [done|]; destruct Hrq; unfold covers; lia|].
  unfold covers in H. destruct (decide (lf_end c = -1)); [|split; [done|]]; destruct (decide (lf_start q <= lf_end c)); try lia;
    exfalso; apply H; (split; [congruence|lia]).
Qed.

(** A piece of [lf_setlock]: the lock takes what another one covered, or its waiters. *)
Lemma r_absorb (b : bool) N A x r B lp s (Q : unit -> files O -> Prop) : view o N (A ++ (x, r) :: B) s ->
  is_Some (heap s !! lp) -> x <> lp -> (∀ s', view o N (A ++ (x, r) :: B) s' -> Q tt s') ->
  runs (if b then lf_wakelock x true else take_queue x lp) Q s.
Proof.
  intros Hv Hl Hne HQ. destruct b; [by apply (r_wake N A x r B true s)|].
  destruct (view_listed _ _ _ _ _ _ Hv) as (_ & k & Hk & _). apply (r_take_queue _ _ x lp s _ Hv); [by exists k|done..].
Qed.

(** The loop of [lf_setlock] once the lock is on the list, behind [P] and before [M]. *)
Lemma link_linked_runs N lp c P : range_ok c -> ∀ fuel M B s (Q : Z + Z -> files O -> Prop),
  view o N ((P ++ (lp, c) :: M) ++ B) s -> rows_ok B -> ordered B.*2 -> inside c B -> (length B < fuel)%nat ->
  (∀ s' S, view o N (P ++ (lp, c) :: S) s' -> S.*2 = M.*2 ++ mbind (cut c) B.*2 -> Q (inr lp) s') ->
  runs (link_loop malloc fuel lp (first B) (place_of (P ++ (lp, c) :: M)) false) Q s.
Proof.
  intros Hc. induction fuel as [|fuel IH]; intros M B s Q Hv Hok Hord Hins Hf H0; [lia|]. cbn [link_loop].
  pose proof Hv as Hv'. rewrite <- app_assoc in Hv'. destruct (view_listed _ _ _ _ _ _ Hv') as (_ & u & Hu & Hcu & _).
  apply runs_bind, (search_hits _ _ B lp u c s _ Hv Hu Hcu Hc Hok Hord).
  { intros B1 B2 -> _ _ E. apply runs_bind, runs_ret, runs_ret, (H0 s (M ++ B1 ++ B2)); [by rewrite <- app_assoc in Hv|].
    by rewrite fmap_app, E. }
  intros oc B1 x r B' -> Hh. rewrite (hit_cut c Hc oc B1 r B' Hh) in H0.
  pose proof (hit_inside c Hc oc B1 r B' Hh) as Hin. pose proof (hit_last c Hc oc B1 r B' Hh) as Hrest.
  pose proof (hit_ordered c oc B1 r B' Hh) as Hord'. destruct Hh as [Hne _ _ Ho Hr Hs Hok' _].
  assert (Hlen : (length B' < fuel)%nat) by (rewrite length_app in Hf; cbn in Hf; lia).
  assert (Hgt : lf_start c < lf_start r) by (apply Hins; [rewrite fmap_app; apply elem_of_app; right; by left|done]).
  destruct (case_pieces r c oc Hr Hc Hs) as [Hbel Habv]. unfold remains in H0.
  replace ((P ++ (lp, c) :: M) ++ B1 ++ (x, r) :: B') with ((P ++ (lp, c) :: M ++ B1) ++ (x, r) :: B') in Hv
    by (by rewrite <- !app_assoc; cbn; rewrite <- app_assoc).
  replace ((P ++ (lp, c) :: M) ++ B1) with (P ++ (lp, c) :: M ++ B1) by (by rewrite <- !app_assoc).
  assert (Hxl : x <> lp) by (apply (other_listed N P lp c (M ++ B1) x r B' s); by rewrite <- app_assoc in Hv).
  pose proof Hc as [Hc1 Hc2]. unfold range_ok in Hr.
  destruct oc; [done|..]; cbn in Hs; try (exfalso; lia);
    (apply (load_pair _ _ _ _ _ _ u c s _ _ Hv Hu Hcu); intros k u' Hk Hu' Hn;
     destruct (core_fields _ _ Hu') as (_ & Ee & _); rewrite ?Hn, ?Ee).
  - (* contained *)
    apply runs_bind. eapply (r_absorb _ N (P ++ (lp, c) :: M ++ B1) x r B' lp s); [done|by exists u|done|].
    clear s Hv Hv' Hu. intros s Hv. apply runs_bind, runs_bind.
    apply (view_splice N _ [(x, r)] B' s _ Hv). intros s1 Hv1 _. apply runs_ret.
    apply runs_bind, (r_free_held N x r _ s1 _ Hv1). clear s Hv s1 Hv1. intros s Hv.
    apply (IH (M ++ B1) B' s Q Hv Hok' Hord' Hin Hlen). intros s2 S Hv2 HS. apply (H0 s2 S Hv2).
    rewrite HS, Hbel, Habv. solve_rows.
  - (* ends after *)
    apply runs_bind, runs_ret, runs_bind. apply (cut_start N _ x r B' _ s _ Hv); [lia|].
    clear s Hv Hv' Hu. intros s Hv. apply runs_bind. eapply r_wake; [exact Hv|]. clear s Hv. intros s Hv.
    apply runs_ret, (H0 s ((M ++ B1) ++ (x, set_lf_start (lf_end c + 1) r) :: B')); [by rewrite <- app_assoc in Hv|].
    rewrite Hbel, Habv, (proj1 (Hrest ltac:(lia))). solve_rows.
Qed.

(** ** The first lock [lf_setlock] finds, in each of the cases *)
Section link_hit.
Context (N : rows) (lp : Z) (c : lockf) (Hc : range_ok c) (A : rows) (x : Z) (r : lockf) (B' : rows).
Context (Q : Z + Z -> files O -> Prop).
Context (H0 : ∀ s' P y S, view o N (P ++ (y, c) :: S) s' ->
  P.*2 ++ S.*2 = mbind (cut c) (A ++ (x, r) :: B').*2 ->
  (∀ q, q ∈ P.*2 -> before q c) -> (∀ q, q ∈ S.*2 -> before c q) -> Q (inr y) s').
Context (s : files O) (Hv : view o ((lp, c) :: N) (A ++ (x, r) :: B') s).
Context (k u : lockf) (Hk : core k = r) (Hu : core u = c).

(** What is on the list in the end, below and above the lock. *)
Lemma linked_rows oc s' y L R : hit c oc A r B' -> view o N ((A ++ L) ++ (y, c) :: R) s' ->
  L.*2 = below c r -> R.*2 = above c r ++ mbind (cut c) B'.*2 ->
  (∀ q, q ∈ mbind (cut c) B'.*2 -> before c q) -> Q (inr y) s'.
Proof.
  intros Hh Hv' HL HR Hbef. pose proof Hc as [Hc1 Hc2].
  apply (H0 s' (A ++ L) y R Hv').
  - rewrite (hit_cut c Hc oc A r B' Hh), fmap_app, HL, HR. unfold remains. by rewrite <- !app_assoc.
  - intros q. rewrite fmap_app, HL. intros [Hq|Hq]%elem_of_app; [by apply (ht_left _ _ _ _ _ Hh)|].
    unfold below in Hq. destruct (_ <? _) eqn:E; [|by apply elem_of_nil in Hq]. destruct (ht_range _ _ _ _ _ Hh) as [Hr _].
    apply list_elem_of_singleton in Hq as ->. intros _. cbn. lia.
  - intros q. rewrite HR. intros [Hq|Hq]%elem_of_app; [|by apply Hbef].
    unfold above in Hq. destruct (_ && _) eqn:E; [|by apply elem_of_nil in Hq].
    apply list_elem_of_singleton in Hq as ->. intros _. cbn. lia.
Qed.

Lemma link_equal : hit c OVERLAP_EQUALS_LOCK A r B' ->
  runs ((if (lf_type u =? F_RDLCK) && (lf_type k =? F_WRLCK) then lf_wakelock x true else mret tt);;
        store x (set_lf_type (lf_type u));; FREE lp;; mret (inr x)) Q s.
Proof.
  intros Hh. pose proof (hit_last c Hc _ A r B' Hh) as Hlast. destruct (core_fields _ _ Hu) as (_ & _ & ->).
  pose proof Hh as [_ _ _ Ho Hr Hs _ _]. destruct (case_pieces r c _ Hr Hc Hs) as [Hbel Habv]. cbn in Hs.
  assert (Er : set_lf_type (lf_type c) r = c).
  { rewrite <- Hk, <- Hu. rewrite <- Hk, <- Hu in Hs, Ho. cbn in Hs, Ho. unfold core, set_lf_type. cbn.
    destruct Hs as [-> ->]. by rewrite Ho. }
  destruct Hlast as [Hrest Hbef]; [lia|]. apply runs_bind.
  assert (Hend : ∀ s' : files O, view o ((lp, c) :: N) (A ++ (x, r) :: B') s' ->
    runs (store x (set_lf_type (lf_type c)) ≫= λ _, FREE lp ≫= λ _, mret (inr x)) Q s').
  { intros s1 Hv1. apply runs_bind. eapply (r_row _ A x r B' _ (set_lf_type (lf_type c)) _ Hv1); [done..|].
    intros s2 Hv2. apply runs_bind, (r_free_held _ _ _ _ _ _ Hv2). intros s3 Hv3. rewrite Er in Hv3.
    apply runs_ret, (linked_rows _ s3 x [] B' Hh); rewrite ?app_nil_r, ?Hrest, ?Habv; done. }
  destruct (_ && _); [|by apply runs_ret, Hend]. eapply r_wake; [exact Hv|]. intros s1 Hv1. by apply Hend.
Qed.

Context (Hsame : lf_type r = lf_type c -> ∀ s', view o N (A ++ (x, r) :: B') s' -> Q (inr x) s').
Context (Herr : (∃ s0, malloc s0 = None) -> ∀ s', view o N (A ++ (x, r) :: B') s' -> Q (inl ENOLCK) s').

Lemma link_contains : hit c OVERLAP_CONTAINS_LOCK A r B' ->
  runs (if lf_type k =? lf_type u then FREE lp;; mret (inr x)
        else
          error ← (if lf_start k =? lf_start u then
                     write_place (place_of A) lp;; store lp (set_lf_next x);;
                     store x (set_lf_start (s64 (lf_end u + 1)));; mret 0
                   else lf_split malloc x lp);
          if negb (error =? 0) then FREE lp;; mret (inl ENOLCK)
          else lf_wakelock x true;; mret (inr lp)) Q s.
Proof.
  intros Hh. pose proof (hit_last c Hc _ A r B' Hh) as Hlast.
  destruct (core_fields _ _ Hu) as (-> & -> & ->), (core_fields _ _ Hk) as (-> & _ & ->).
  pose proof Hh as [_ _ _ Ho Hr Hs _ _]. destruct (case_pieces r c _ Hr Hc Hs) as [Hbel Habv].
  pose proof Hs as Hs'. cbn in Hs. pose proof Hc as [Hc1 Hc2]. unfold range_ok in Hr.
  destruct Hlast as [Hrest Hbef]; [lia|].
  destruct (Z.eqb_spec (lf_type r) (lf_type c)) as [Et|Et].
  { apply runs_bind, (r_free_held _ _ _ _ _ _ Hv). intros s1 Hv1. by apply runs_ret, Hsame. }
  apply runs_bind. destruct (Z.eqb_spec (lf_start r) (lf_start c)) as [Es|Es].
  - apply (replace_row _ A [] lp c ((x, r) :: B') s _ _ Hv). intros s1 Hv1. rewrite row_app in Hv1.
    apply runs_bind, (cut_start _ _ x r B' _ _ _ Hv1); [lia|]. intros s2 Hv2. apply runs_ret. cbn [Z.eqb negb].
    apply runs_bind. eapply r_wake; [exact Hv2|]. intros s3 Hv3. rewrite <- row_app in Hv3.
    apply runs_ret, (linked_rows _ s3 lp [] ((x, set_lf_start (lf_end c + 1) r) :: B') Hh);
      rewrite ?app_nil_r, ?Hrest, ?Habv; done.
  - apply (split_runs N A x r B' lp c s _ Hv); try done.
    + intros s1 R Hv1 HR. cbn [Z.eqb negb]. apply runs_bind. eapply r_wake; [exact Hv1|]. intros s2 Hv2.
      rewrite row_app in Hv2.
      apply runs_ret, (linked_rows _ s2 lp [(x, set_lf_end (lf_start c - 1) r)] (R ++ B') Hh); try done.
      * by rewrite fmap_app, HR, Hrest.
      * by rewrite Hrest.
    + intros s1 Hm Hv1. cbn [Z.eqb negb ENOLCK]. apply runs_bind, (r_free_held _ _ _ _ _ _ Hv1). intros s2 Hv2.
      apply runs_ret, Herr; [by exists s|done].
Qed.

Lemma link_ends_after : hit c OVERLAP_ENDS_AFTER_LOCK A r B' ->
  runs ((write_place (place_of A) lp;; store lp (set_lf_next x));;
        store x (set_lf_start (s64 (lf_end u + 1)));; lf_wakelock x true;; mret (inr lp)) Q s.
Proof.
  intros Hh. pose proof (hit_last c Hc _ A r B' Hh) as Hlast. destruct (core_fields _ _ Hu) as (_ & -> & _).
  pose proof Hh as [_ _ _ Ho Hr Hs _ _]. destruct (case_pieces r c _ Hr Hc Hs) as [Hbel Habv]. cbn in Hs.
  pose proof Hc as [Hc1 Hc2]. unfold range_ok in Hr. destruct Hlast as [Hrest Hbef]; [lia|].
  apply runs_bind, (insert_row_end _ A lp c ((x, r) :: B') s _ Hv). intros s1 Hv1. rewrite row_app in Hv1.
  apply runs_bind, (cut_start _ _ x r B' _ _ _ Hv1); [lia|]. intros s2 Hv2.
  apply runs_bind. eapply r_wake; [exact Hv2|]. intros s3 Hv3. rewrite <- row_app in Hv3.
  apply runs_ret, (linked_rows _ s3 lp [] ((x, set_lf_start (lf_end c + 1) r) :: B') Hh);
    rewrite ?app_nil_r, ?Hrest, ?Habv; done.
Qed.

Context (fuel : nat) (Hfuel : (length B' < fuel)%nat).

(** The rest of the loop once the lock is on the list in front of [B']. *)
Lemma link_rest oc s' L : hit c oc A r B' -> L.*2 = below c r -> above c r = [] ->
  view o N ((A ++ L) ++ (lp, c) :: B') s' ->
  runs (link_loop malloc fuel lp (first B') (NextOf lp) false) Q s'.
Proof.
  intros Hh HL Habv Hv'. pose proof (hit_inside c Hc _ A r B' Hh) as Hin. rewrite row_app in Hv'.
  rewrite <- (place_of_snoc (A ++ L) lp c).
  apply (link_linked_runs N lp c (A ++ L) Hc fuel [] B' s' Q); try done.
  - by destruct Hh.
  - by apply (hit_ordered c oc A r B').
  - intros s3 S Hv3 HS. apply (linked_rows oc s3 lp L S Hh); try done; [by rewrite Habv|].
    apply inside_above; [done|by destruct Hh|done].
Qed.

Lemma link_contained : hit c OVERLAP_CONTAINED_BY_LOCK A r B' -> is_Some (heap s !! lp) -> x <> lp ->
  lf_next k = first B' ->
  runs ((if (lf_type u =? F_RDLCK) && (lf_type k =? F_WRLCK) then lf_wakelock x true else take_queue x lp);;
        prev ← (write_place (place_of A) lp;; store lp (set_lf_next (lf_next k));; mret (NextOf lp));
        FREE x;; link_loop malloc fuel lp (lf_next k) prev false) Q s.
Proof.
  intros Hh Hl Hxl ->. pose proof Hh as [_ _ _ Ho Hr Hs _ _]. destruct (case_pieces r c _ Hr Hc Hs) as [Hbel Habv].
  apply runs_bind. eapply (r_absorb _ _ A x r B' lp s); [exact Hv|done..|]. intros s1 Hv1.
  apply runs_bind, (replace_row N A [(x, r)] lp c B' s1 _ _ Hv1). intros s2 Hv2. apply runs_ret.
  apply runs_bind, (r_free_held _ _ _ _ _ _ Hv2). intros s3 Hv3.
  apply (link_rest _ s3 [] Hh); [by rewrite Hbel|done|by rewrite app_nil_r].
Qed.

Lemma link_starts_before : hit c OVERLAP_STARTS_BEFORE_LOCK A r B' -> lf_next k = first B' ->
  runs (store lp (set_lf_next (lf_next k));; store x (set_lf_next lp);;
        store x (set_lf_end (s64 (lf_start u - 1)));; lf_wakelock x true;;
        link_loop malloc fuel lp (lf_next k) (NextOf lp) false) Q s.
Proof.
  intros Hh ->. destruct (core_fields _ _ Hu) as (-> & _ & _).
  pose proof Hh as [_ _ _ Ho Hr Hs _ _]. destruct (case_pieces r c _ Hr Hc Hs) as [Hbel Habv]. cbn in Hs.
  pose proof Hc as [Hc1 Hc2]. pose proof Hv as Hv'. rewrite row_app in Hv'.
  change (store x (set_lf_next lp)) with (write_place (O := O) (NextOf x) lp). rewrite <- (place_of_snoc A x r).
  apply (insert_row_rev _ (A ++ [(x, r)]) lp c B' s _ _ Hv'). intros s1 Hv1. rewrite <- row_app in Hv1.
  apply runs_bind, (cut_end _ A x r ((lp, c) :: B') _ _ _ Hv1); [lia|]. intros s2 Hv2.
  apply runs_bind. eapply r_wake; [exact Hv2|]. intros s3 Hv3. rewrite row_app in Hv3.
  by apply (link_rest _ s3 [(x, set_lf_end (lf_start c - 1) r)] Hh).
Qed.
End link_hit.

(** The loop of [lf_setlock] on the whole list, with the lock held. *)
Lemma link_loop_runs N lp c L fuel s (Q : Z + Z -> files O -> Prop) : range_ok c ->
  view o ((lp, c) :: N) L s -> rows_ok L -> ordered L.*2 -> (length L < fuel)%nat ->
  (∀ s' P x S, view o N (P ++ (x, c) :: S) s' -> P.*2 ++ S.*2 = mbind (cut c) L.*2 ->
     (∀ r, r ∈ P.*2 -> before r c) -> (∀ r, r ∈ S.*2 -> before c r) -> Q (inr x) s') ->
  (∀ s' P x r S, view o N L s' -> L = P ++ (x, r) :: S -> lf_id r = lf_id c -> lf_type r = lf_type c ->
     case_spec r c OVERLAP_CONTAINS_LOCK -> Q (inr x) s') ->
  ((∃ s0, malloc s0 = None) -> ∀ s', view o N L s' -> Q (inl ENOLCK) s') ->
  runs (link_loop malloc fuel lp (first L) Head true) Q s.
Proof.
  intros Hc Hv Hok Hord Hf H0 Hsame Herr. destruct fuel as [|fuel]; [lia|]. cbn [link_loop].
  destruct (vw_held _ _ _ _ Hv lp c ltac:(by left)) as (_ & u & Hu & Hcu). change Head with (place_of []).
  apply runs_bind, (search_hits _ [] L lp u c s _ Hv Hu Hcu Hc Hok Hord).
  { intros A B -> HA HB E. apply runs_bind, (insert_row_end _ A lp c B s _ Hv). intros s1 Hv1.
    apply runs_ret, (H0 s1 A lp B); [done| |done..]. by rewrite E, fmap_app. }
  intros oc A x r B' -> Hh. cbn [app].
  assert (Hlen : (length B' < fuel)%nat) by (rewrite length_app in Hf; cbn in Hf; lia).
  assert (Hxl : x <> lp).
  { intros ->. destruct (nodup_held _ _ _ _ (vw_nodup _ _ _ _ Hv)) as (_ & Hnd & _). apply Hnd.
    rewrite fmap_app. apply elem_of_app. right. by left. }
  destruct oc; [by destruct Hh|..]; (apply (load_pair _ _ _ _ _ _ u c s _ _ Hv Hu Hcu); intros k u' Hk Hu' Hn).
  - by apply (link_equal N lp c Hc A x r B' Q H0 s Hv k u').
  - apply (link_contains N lp c Hc A x r B' Q H0 s Hv k u'); try done. intros Et s1 Hv1.
    destruct Hh. by apply (Hsame s1 A x r B').
  - by apply (link_contained N lp c Hc A x r B' Q H0 s Hv k u').
  - by apply (link_starts_before N lp c Hc A x r B' Q H0 s Hv k u').
  - by apply (link_ends_after N lp c Hc A x r B' Q H0 s Hv u').
Qed.

(** ** Coalescing *)

Lemma view_forget N M L s : view o (M ++ N) L s -> view o N L s.
Proof.
  intros [H1 H2 H3 H4 H5]. rewrite <- app_assoc, fmap_app in H3. split; [done| | | |done].
  - intros x r Hx. apply H2, elem_of_app. by right.
  - by apply NoDup_app in H3 as (_ & _ & H3).
  - intros w Hw. destruct (H4 w Hw) as [Hn ?]. split; [|done]. rewrite <- app_assoc, fmap_app, not_elem_of_app in Hn. tauto.
Qed.

Lemma r_place N A B s (Q : Z -> files O -> Prop) : view o N (A ++ B) s -> Q (first B) s ->
  runs (read_place (place_of A)) Q s.
Proof.
  intros Hv HQ. unfold place_of. destruct (last A) as [[x r]|] eqn:E.
  - apply last_Some in E as [A' ->]. rewrite <- app_assoc in Hv.
    destruct (view_listed _ _ _ _ _ _ Hv) as (_ & k & Hk & _ & Hn). apply runs_bind, (r_load x k); [done|].
    apply runs_ret. by rewrite Hn.
  - apply last_None in E as ->. apply runs_gets. by rewrite (rep_first _ _ _ (vw_rep _ _ _ _ Hv)).
Qed.

(** The locks [C] behind [x] leave the list; [z] of them is freed. *)
Lemma r_absorb_next N A x c C M z r B s (Q : unit -> files O -> Prop) : view o N (A ++ (x, c) :: C ++ B) s ->
  C ≡ₚ (z, r) :: M -> (∀ s', view o N (A ++ (x, c) :: B) s' -> Q tt s') ->
  runs (store x (set_lf_next (first B))) (λ _, runs (FREE z) Q) s.
Proof.
  intros Hv HC HQ. change (A ++ (x, c) :: C ++ B) with (A ++ [(x, c)] ++ C ++ B) in Hv. rewrite app_assoc in Hv.
  change (store x (set_lf_next (first B))) with (write_place (O := O) (NextOf x) (first B)).
  rewrite <- (place_of_snoc A x c). apply (view_splice N _ C B s _ Hv). intros s1 Hv1 _.
  assert (Hv2 : view o ((z, r) :: (M ++ N)) ((A ++ [(x, c)]) ++ B) s1).
  { eapply view_perm; [|exact Hv1]. by rewrite HC. }
  apply (r_free_held _ _ _ _ _ _ Hv2). intros s2 Hv3. apply HQ. rewrite <- app_assoc in Hv3. by eapply view_forget.
Qed.

Lemma rows_mid A x c M z r S :
  (A ++ (x, c) :: M ++ (z, r) :: S).*2 = A.*2 ++ c :: M.*2 ++ r :: S.*2.
Proof. by rewrite fmap_app, fmap_cons, fmap_app. Qed.

(** The loop of [lf_coelesce_adjacent] behind the lock [x]. *)
Lemma coelesce_right N x A : ∀ fuel S M c s (Q : unit -> files O -> Prop),
  view o N (A ++ (x, c) :: M ++ S) s -> rows_ok (A ++ (x, c) :: M ++ S) -> ordered (A ++ (x, c) :: M ++ S).*2 ->
  (length S < fuel)%nat ->
  (∀ s' L', view o N L' s' -> coalesced (lf_id c) (A ++ (x, c) :: M ++ S).*2 L'.*2 -> Q tt s') ->
  runs (coelesce_loop fuel (place_of (A ++ (x, c) :: M)) x) Q s.
Proof.
  induction fuel as [|fuel IH]; intros S M c s Q Hv Hok Hord Hf HQ; [lia|]. cbn [coelesce_loop].
  apply runs_bind. eapply (r_place N _ S); [by rewrite <- app_assoc|].
  destruct S as [|[z r] S]; [by apply runs_ret, (HQ s _ Hv), coalesced_refl|]. cbn [first].
  replace (A ++ (x, c) :: M ++ (z, r) :: S) with ((A ++ (x, c) :: M) ++ (z, r) :: S) in Hv by (by rewrite <- app_assoc).
  destruct (view_listed _ _ _ _ _ _ Hv) as (Hz & kz & Hkz & Hrz & Hnz).
  pose proof (vw_nodup _ _ _ _ Hv) as Hnd. rewrite fmap_app in Hnd. apply NoDup_app in Hnd as (_ & _ & Hnd).
  rewrite <- app_assoc in Hv. cbn [app] in Hv. destruct (view_listed _ _ _ _ _ _ Hv) as (Hx & kx & Hkx & Hrx & _).
  assert (Hzx : z <> x).
  { intros ->. rewrite fmap_app in Hnd. apply NoDup_app in Hnd as (_ & Hnd & _).
    apply (Hnd x); [rewrite fmap_app; apply elem_of_app; right; by left|by left]. }
  rewrite (proj2 (Z.eqb_neq z 0) Hz).
  apply runs_bind, (r_load z kz); [done|]. apply runs_bind, (r_load x kx); [done|].
  rewrite (proj2 (Z.eqb_neq z x) Hzx). cbn [orb].
  replace (lf_id kz) with (lf_id r) by (by rewrite <- Hrz). replace (lf_type kz) with (lf_type r) by (by rewrite <- Hrz).
  replace (lf_start kz) with (lf_start r) by (by rewrite <- Hrz). replace (lf_end kz) with (lf_end r) by (by rewrite <- Hrz).
  replace (lf_id kx) with (lf_id c) by (by rewrite <- Hrx). replace (lf_type kx) with (lf_type c) by (by rewrite <- Hrx).
  replace (lf_start kx) with (lf_start c) by (by rewrite <- Hrx). replace (lf_end kx) with (lf_end c) by (by rewrite <- Hrx).
  assert (Hgo : runs (coelesce_loop fuel (NextOf z) x) Q s).
  { rewrite <- (place_of_snoc (A ++ (x, c) :: M) z r), <- app_assoc.
    apply (IH S (M ++ [(z, r)]) c s Q); rewrite <- ?app_assoc; [done..|cbn in Hf; lia|done]. }
  destruct (_ || _) eqn:Eown; [exact Hgo|].
  assert (Hi : lf_id c = lf_id r) by lia. assert (Ht : lf_type c = lf_type r) by lia. clear Eown.
  pose proof Hok as Hok'. pose proof Hord as Hord'. rewrite fmap_app in Hok', Hord'.
  apply Forall_app in Hok' as [_ Hok']. cbn [fmap list_fmap snd] in Hok'. apply Forall_cons in Hok' as [[Hc1 Hc2] Hok'].
  change (Forall range_ok (M ++ (z, r) :: S).*2) in Hok'. rewrite fmap_app in Hok'.
  apply Forall_app in Hok' as [_ Hok']. apply Forall_cons in Hok' as [[Hr1 Hr2] _]. cbn [snd] in Hr1, Hr2.
  apply ordered_app in Hord' as (_ & Hord' & _). apply ordered_cons in Hord' as [_ Hord'].
  destruct (Hord' r) as [H1 H2]; [apply (list_elem_of_fmap_2 snd _ (z, r)), elem_of_app; right; by left|done|].
  cbn [snd] in H1, H2. clear Hord'. unfold OFF_MAX in *.
  destruct (negb (lf_end r =? -1) && _) eqn:E1.
  { exfalso. apply andb_true_iff in E1 as [E1 E2]. rewrite s64_small in E2 by lia. lia. }
  destruct (negb (lf_end c =? -1) && _) eqn:E2; [|exact Hgo].
  apply andb_true_iff in E2 as [E2 E3]. rewrite s64_small in E3 by lia.
  apply runs_bind. eapply (r_row N A x c _ _ (set_lf_end (lf_end r)) _ Hv); [done..|]. intros s1 Hv1. rewrite Hnz.
  apply runs_bind. change (A ++ (x, set_lf_end (lf_end r) c) :: M ++ (z, r) :: S) with (A ++ (x, set_lf_end (lf_end r) c) :: M ++ [(z, r)] ++ S) in Hv1.
  rewrite (app_assoc M) in Hv1.
  assert (Hco : coalesced (lf_id c) (A ++ (x, c) :: M ++ (z, r) :: S).*2 (A ++ (x, set_lf_end (lf_end r) c) :: S).*2).
  { rewrite rows_mid in *. rewrite fmap_app, fmap_cons, Hi.
    apply (merge_coalesced A.*2 c M.*2 r S.*2 (set_lf_end (lf_end r) c)); try done; lia. }
  eapply runs_weaken; [apply (r_absorb_next N A x (set_lf_end (lf_end r) c) (M ++ [(z, r)]) M z r S s1 (λ _ s2, view o N (A ++ (x, set_lf_end (lf_end r) c) :: S) s2)); [exact Hv1|solve_Permutation|done]|].
  intros [] s2 H. apply runs_bind. eapply runs_weaken; [exact H|]. clear s2 H. intros [] s2 Hv2.
  rewrite <- (place_of_snoc A x (set_lf_end (lf_end r) c)).
  apply (IH S [] (set_lf_end (lf_end r) c) s2 Q Hv2); [by apply (co_rows _ _ _ Hco)|by apply (co_ordered _ _ _ Hco)|cbn in Hf; lia|].
  intros s3 L' Hv3 Hco'. apply (HQ s3 L' Hv3). by eapply coalesced_trans.
Qed.

(** [lf_coelesce_adjacent], the loop before the lock [x]. *)
Lemma coelesce_left N x c S : ∀ fuel B A s (Q : unit -> files O -> Prop),
  view o N (A ++ B ++ (x, c) :: S) s -> rows_ok (A ++ B ++ (x, c) :: S) -> ordered (A ++ B ++ (x, c) :: S).*2 ->
  (length B + length S + 1 < fuel)%nat ->
  (∀ s' L', view o N L' s' -> coalesced (lf_id c) (A ++ B ++ (x, c) :: S).*2 L'.*2 -> Q tt s') ->
  runs (coelesce_loop fuel (place_of A) x) Q s.
Proof.
  induction fuel as [|fuel IH]; intros B A s Q Hv Hok Hord Hf HQ; [lia|]. cbn [coelesce_loop].
  apply runs_bind, (r_place N A _ s _ Hv).
  destruct B as [|[y q] B]; cbn [app first] in *.
  - destruct (view_listed _ _ _ _ _ _ Hv) as (Hx & kx & Hkx & _ & _).
    rewrite (proj2 (Z.eqb_neq x 0) Hx). apply runs_bind, (r_load x kx); [done|]. apply runs_bind, (r_load x kx); [done|].
    rewrite Z.eqb_refl. cbn [orb]. rewrite <- (place_of_snoc A x c).
    apply (coelesce_right N x A fuel S [] c s Q); [done..|cbn in Hf; lia|done].
  - destruct (view_listed _ _ _ _ _ _ Hv) as (Hy & ky & Hky & Hry & Hny).
    pose proof Hv as Hv'. change (A ++ (y, q) :: B ++ (x, c) :: S) with (A ++ ((y, q) :: B) ++ (x, c) :: S) in Hv'. rewrite app_assoc in Hv'.
    destruct (view_listed _ _ _ _ _ _ Hv') as (Hx & kx & Hkx & Hrx & _).
    assert (Hyx : y <> x).
    { intros ->. pose proof (vw_nodup _ _ _ _ Hv') as Hnd. rewrite fmap_app in Hnd. apply NoDup_app in Hnd as (_ & _ & Hnd).
      rewrite fmap_app in Hnd. apply NoDup_app in Hnd as (_ & Hnd & _).
      apply (Hnd x); [rewrite fmap_app; apply elem_of_app; right; by left|by left]. }
    clear Hv'. rewrite (proj2 (Z.eqb_neq y 0) Hy).
    apply runs_bind, (r_load y ky); [done|]. apply runs_bind, (r_load x kx); [done|].
    rewrite (proj2 (Z.eqb_neq y x) Hyx). cbn [orb].
    replace (lf_id ky) with (lf_id q) by (by rewrite <- Hry). replace (lf_type ky) with (lf_type q) by (by rewrite <- Hry).
    replace (lf_start ky) with (lf_start q) by (by rewrite <- Hry). replace (lf_end ky) with (lf_end q) by (by rewrite <- Hry).
    replace (lf_id kx) with (lf_id c) by (by rewrite <- Hrx). replace (lf_type kx) with (lf_type c) by (by rewrite <- Hrx).
    replace (lf_start kx) with (lf_start c) by (by rewrite <- Hrx). replace (lf_end kx) with (lf_end c) by (by rewrite <- Hrx).
    assert (Hgo : runs (coelesce_loop fuel (NextOf y) x) Q s).
    { rewrite <- (place_of_snoc A y q). apply (IH B (A ++ [(y, q)]) s Q); rewrite <- ?app_assoc; [done..|cbn in Hf; lia|done]. }
    destruct (_ || _) eqn:Eown; [exact Hgo|].
    assert (Hi : lf_id q = lf_id c) by lia. assert (Ht : lf_type q = lf_type c) by lia. clear Eown.
    rewrite rows_mid in Hok, Hord. pose proof Hok as Hok'. pose proof Hord as Hord'.
    apply Forall_app in Hok' as [_ Hok']. apply Forall_cons in Hok' as [[Hq1 Hq2] Hok'].
    apply Forall_app in Hok' as [_ Hok']. apply Forall_cons in Hok' as [[Hc1 Hc2] _].
    apply ordered_app in Hord' as (_ & Hord' & _). apply ordered_cons in Hord' as [_ Hord'].
    destruct (Hord' c) as [H1 H2]; [apply elem_of_app; right; by left|done|]. clear Hord'. unfold OFF_MAX in *.
    destruct (negb (lf_end q =? -1) && _) eqn:E1.
    2:{ destruct (negb (lf_end c =? -1) && _) eqn:E2; [|exact Hgo].
        exfalso. apply andb_true_iff in E2 as [E2 E3]. rewrite s64_small in E3 by lia. lia. }
    apply andb_true_iff in E1 as [E1 E2]. rewrite s64_small in E2 by lia.
    set (c' := set_lf_start (lf_start q) c).
    assert (Hco : coalesced (lf_id c) (A ++ (y, q) :: B ++ (x, c) :: S).*2 (A ++ (x, c') :: S).*2).
    { rewrite rows_mid, fmap_app, fmap_cons. apply (merge_coalesced A.*2 q B.*2 c S.*2 c'); try done; lia. }
    change (A ++ (y, q) :: B ++ (x, c) :: S) with (A ++ ((y, q) :: B) ++ (x, c) :: S) in Hv. rewrite app_assoc in Hv.
    apply runs_bind. eapply (r_row N _ x c S _ (set_lf_start (lf_start q)) _ Hv); [done..|]. intros s1 Hv1. fold c' in Hv1.
    rewrite <- app_assoc in Hv1. apply runs_bind. change x with (first ((x, c') :: S)) at 1.
    apply (view_splice N A ((y, q) :: B) ((x, c') :: S) s1 _ Hv1). intros s2 Hv2 _.
    apply runs_bind, (r_free_held _ _ _ _ _ _ Hv2). intros s3 Hv3. apply view_forget in Hv3.
    rewrite <- (place_of_snoc A x c').
    apply (coelesce_right N x A fuel S [] c' s3 Q Hv3); [by apply (co_rows _ _ _ Hco)|by apply (co_ordered _ _ _ Hco)|cbn in Hf; lia|].
    intros s4 L' Hv4 Hco'. apply (HQ s4 L' Hv4). by eapply coalesced_trans.
Qed.

(** [lf_coelesce_adjacent] of a lock on the list. *)
Lemma coelesce_runs N P x c S s (Q : unit -> files O -> Prop) : view o N (P ++ (x, c) :: S) s ->
  rows_ok (P ++ (x, c) :: S) -> ordered (P ++ (x, c) :: S).*2 ->
  (∀ s' L', view o N L' s' -> coalesced (lf_id c) (P ++ (x, c) :: S).*2 L'.*2 -> Q tt s') ->
  runs (lf_coelesce_adjacent x) Q s.
Proof.
  intros Hv Hok Hord HQ. apply runs_bind, runs_gets.
  pose proof (vw_nodup _ _ _ _ Hv) as Hnd. rewrite fmap_app in Hnd. apply NoDup_app in Hnd as (_ & _ & Hnd).
  pose proof (rep_size _ _ _ _ Hnd (vw_rep _ _ _ _ Hv)) as Hsz. rewrite length_app in Hsz. cbn in Hsz.
  change Head with (place_of []).
  apply (coelesce_left N x c S _ P [] s Q Hv Hok Hord); [lia|done].
Qed.

End view.

End LockfList.
