(* ===== verification/LockfMain.v ===== *)
(** Advisory locks as a user sees them: bytes that are locked for an owner.  Setting a lock gives
    the owner exactly the bytes he asked for, clearing takes exactly these bytes from him, no two
    owners hold a byte when one has it exclusively; where coalescing and the last offset break
    this, and what the search for deadlocks finds. *)

From S2P Require Import Prelude.
From S2P Require Import Lockf.
From S2P Require Import LockfSpec.
From S2P Require Import LockfList.
Import Lockf.Lockf LockfSpec.LockfSpec LockfList.LockfList.

Module LockfMain.

(** * Bytes *)

(** No byte that is locked exclusively is locked for another owner. *)
Definition exclusive (R : list lockf) : Prop := ∀ id id' t b, 0 <= b ->
  locked R id F_WRLCK b -> locked R id' t b -> id = id'.

(** The bytes of the range of [c] are taken from its owner, and no others. *)
Definition cleared (c : lockf) (R R' : list lockf) : Prop := ∀ id t b, 0 <= b ->
  locked R' id t b <-> locked R id t b /\ ~ (id = lf_id c /\ covers c b).

(** Two ranges have a byte in common, or one follows the other without a gap. *)
Definition touching (p q : lockf) : Prop :=
  (lf_end p = -1 \/ lf_start q <= lf_end p + 1) /\ (lf_end q = -1 \/ lf_start p <= lf_end q + 1).

(** No two locks of the owner of [c], it included, that are of one type and touch each other have
    different ranges. *)
Definition separate (c : lockf) (R : list lockf) : Prop := ∀ p q, p ∈ c :: R -> q ∈ c :: R ->
  lf_id p = lf_id c -> lf_id q = lf_id c -> lf_type p = lf_type q -> touching p q ->
  lf_start p = lf_start q /\ lf_end p = lf_end q.

(** The owner of [c] has its bytes with its type, and the bytes outside as before; the locks of
    others are a part of what they were, in the same order, and all of it when no two locks of
    the owner are to be joined. *)
Record granted (c : lockf) (R R' : list lockf) : Prop := {
  gr_own t b : 0 <= b -> locked R' (lf_id c) t b <->
    (covers c b /\ t = lf_type c) \/ (~ covers c b /\ locked R (lf_id c) t b);
  gr_others : filter (λ r, lf_id r <> lf_id c) R' `sublist_of` filter (λ r, lf_id r <> lf_id c) R;
  gr_kept : separate c R -> filter (λ r, lf_id r <> lf_id c) R' = filter (λ r, lf_id r <> lf_id c) R }.

(** The list of a file between requests. *)
Record listed {O : Type} (o : O) (L : rows) (s : files O) : Prop := {
  li_view : view o [] L s;
  li_rows : rows_ok L;
  li_ordered : ordered L.*2;
  li_exclusive : exclusive L.*2 }.

Lemma granted_core c R R' : granted (core c) R R' -> granted c R R'.
Proof.
  intros [H1 H2 H3]. split; [exact H1|exact H2|]. intros Hs. apply H3.
  intros p q [->|Hp]%elem_of_cons [->|Hq]%elem_of_cons; cbn [core lf_id]; intros Ip Iq Ht H; [done|..].
  - apply (Hs c q); auto; [by left|by right].
  - apply (Hs p c); auto; [by right|by left].
  - apply (Hs p q); auto; by right.
Qed.

Lemma locked_cut c R id t b : range_ok c -> Forall range_ok R -> 0 <= b ->
  locked (mbind (cut c) R) id t b <-> locked R id t b /\ ~ (id = lf_id c /\ covers c b).
Proof.
  intros Hc Hok Hb. rewrite Forall_forall in Hok. unfold locked. split.
  - intros (q & (r & Hq & Hr)%list_elem_of_bind & Hi & Ht & Hcov).
    destruct (cut_piece c Hc r q (Hok r Hr) Hq) as (_ & E1 & E2 & _ & _).
    destruct (proj1 (cut_covers c Hc r b (Hok r Hr) Hb)) as [H1 H2]; [by exists q|].
    split; [|by rewrite <- Hi, E1]. exists r. by rewrite <- Hi, <- Ht, E1, E2.
  - intros [(r & Hr & Hi & Ht & Hcov) Hn].
    destruct (proj2 (cut_covers c Hc r b (Hok r Hr) Hb)) as (q & Hq & Hcq); [by rewrite Hi|].
    destruct (cut_piece c Hc r q (Hok r Hr) Hq) as (_ & E1 & E2 & _ & _).
    exists q. split; [apply list_elem_of_bind; by exists r|]. by rewrite E1, E2.
Qed.

Lemma others_cut c R : filter (λ r, lf_id r <> lf_id c) (mbind (cut c) R) = filter (λ r, lf_id r <> lf_id c) R.
Proof.
  induction R as [|r R IH]; [done|]. cbn [mbind list_bind]. rewrite filter_app.
  change (list_bind _ _ (cut c) R) with (mbind (cut c) R). rewrite IH.
  destruct (decide (lf_id r = lf_id c)) as [E|E].
  - rewrite filter_cons_False by auto. rewrite filter_none; [done|]. apply Forall_forall. intros q Hq Hn. apply Hn.
    unfold cut, remains, below, above in Hq. rewrite <- E.
    destruct (passed_over _ _ _); [by apply list_elem_of_singleton in Hq as ->|].
    destruct (overlap_case _ _ _) as [[]|]; try (by apply list_elem_of_singleton in Hq as ->);
      apply elem_of_app in Hq as [Hq|Hq]; destruct (_ : bool) in Hq; try (by apply elem_of_nil in Hq);
      by apply list_elem_of_singleton in Hq as ->.
  - rewrite cut_other by done. rewrite !(filter_cons_True (λ r, lf_id r <> lf_id c)) by done. by rewrite filter_nil.
Qed.

Lemma locked_others (P : lockf -> Prop) `{!∀ r, Decision (P r)} R id t b : (∀ r, lf_id r = id -> P r) ->
  locked (filter P R) id t b <-> locked R id t b.
Proof.
  intros HP. unfold locked. split; intros (r & Hr & Hi & Hq); exists r.
  - apply list_elem_of_filter in Hr as [_ Hr]. done.
  - split; [|done]. apply list_elem_of_filter. auto.
Qed.

Lemma granted_others c R R' id t b : granted c R R' -> id <> lf_id c -> locked R' id t b -> locked R id t b.
Proof.
  intros [_ Hsub _] Hne H. rewrite <- (locked_others (λ r, lf_id r <> lf_id c)) in H |- * by (by intros r ->).
  destruct H as (r & Hr & H). exists r. split; [|done]. by eapply elem_of_submseteq, sublist_submseteq.
Qed.

(** A grant that conflicts with nobody keeps exclusion. *)
Lemma granted_exclusive c R R' : exclusive R -> granted c R R' -> (∀ r, r ∈ R -> ~ conflict c r) -> exclusive R'.
Proof.
  intros Hex Hg Hno id1 id2 t b Hb H1 H2.
  assert (Hclash : ∀ id t, id <> lf_id c -> locked R' id t b -> covers c b ->
    (lf_type c = F_WRLCK \/ t = F_WRLCK) -> False).
  { intros id t' Hne H Hc Ht. destruct (granted_others _ _ _ _ _ _ Hg Hne H) as (r & Hr & Hi & Et & Hcr).
    apply (Hno r Hr). split; [congruence|]. split; [by rewrite Et|]. by exists b. }
  pose proof (gr_own _ _ _ Hg) as Hown.
  destruct (decide (id1 = lf_id c)) as [E1|E1], (decide (id2 = lf_id c)) as [E2|E2]; [congruence|..].
  - subst id1. apply Hown in H1 as [[H1 H1']|[H1 H1']]; [|..|done].
    + exfalso. by apply (Hclash id2 t); auto.
    + by apply (Hex _ _ t b Hb H1'), (granted_others c R R').
  - subst id2. apply Hown in H2 as [[H2 H2']|[H2 H2']]; [|..|done].
    + exfalso. apply (Hclash id1 F_WRLCK); auto.
    + apply (Hex _ _ t b Hb); [by apply (granted_others c R R')|done].
  - apply (Hex _ _ t b Hb); by apply (granted_others c R R').
Qed.

Lemma cleared_exclusive c R R' : exclusive R -> cleared c R R' -> exclusive R'.
Proof. intros Hex Hc id1 id2 t b Hb [H1 _]%Hc [H2 _]%Hc; [|done..]. by apply (Hex _ _ t b Hb). Qed.


(** * Setting a lock *)

Lemma ordered_pair R r q : ordered R -> r ∈ R -> q ∈ R -> r = q \/ before r q \/ before q r.
Proof.
  induction R as [|a R IH]; [by intros _ ?%elem_of_nil|].
  intros [Ho Ha]%ordered_cons [->|Hr]%elem_of_cons [->|Hq]%elem_of_cons; auto.
Qed.

(** An owner has at most one lock on a byte. *)
Lemma locked_once R id r t b : ordered R -> r ∈ R -> lf_id r = id -> covers r b -> locked R id t b -> t = lf_type r.
Proof.
  intros Ho Hr Hi Hc (q & Hq & Hiq & <- & Hcq). unfold covers in *.
  destruct (ordered_pair R r q Ho Hr Hq) as [->|[H|H]]; [done|..]; destruct H; try congruence; lia.
Qed.

Lemma placed_ordered P c S : ordered (P ++ S) -> (∀ r, r ∈ P -> before r c) -> (∀ r, r ∈ S -> before c r) ->
  ordered (P ++ c :: S).
Proof.
  intros (HP & HS & HPS)%ordered_app H1 H2. apply ordered_app. split; [done|]. split; [by apply ordered_cons|].
  intros p q Hp [->|Hq]%elem_of_cons; auto.
Qed.

(** The pieces that are left of the locks of the owner have nothing to be joined with. *)
Lemma placed_apart c R P S : range_ok c -> Forall range_ok R -> P ++ S = mbind (cut c) R -> separate c R ->
  apart (lf_id c) (P ++ c :: S).
Proof.
  intros Hc Hok HPS Hs p q Hp Hq Iq (Ip & Ht & Hne & He). rewrite Forall_forall in Hok.
  assert (Hin : ∀ x, x ∈ P ++ c :: S -> x = c \/ ∃ r, r ∈ R /\ x ∈ cut c r).
  { intros x Hx. assert (Hx' : x = c \/ x ∈ P ++ S) by (rewrite !elem_of_app, elem_of_cons in *; tauto).
    destruct Hx' as [->|Hx']; [by left|right]. rewrite HPS in Hx'. apply list_elem_of_bind in Hx' as (r & ? & ?). by exists r. }
  assert (Hend : ∀ r x, r ∈ R -> x ∈ cut c r -> range_ok x /\ lf_id x = lf_id r /\ lf_type x = lf_type r /\
    lf_start r <= lf_start x /\ (lf_end r = -1 \/ (lf_end x <> -1 /\ lf_end x <= lf_end r))).
  { intros r x Hr Hx. by apply (cut_piece c Hc r x); [apply Hok|]. }
  assert (Hsep : ∀ r r', r ∈ c :: R -> r' ∈ c :: R -> lf_id r = lf_id c -> lf_id r' = lf_id c -> lf_type r = lf_type r' ->
    touching r r' -> lf_start r = lf_start r' /\ lf_end r = lf_end r') by exact Hs. unfold touching in Hsep.
  destruct (Hin p Hp) as [->|(r & Hr & Hpr)], (Hin q Hq) as [->|(r' & Hr' & Hqr)]; clear Hin.
  - unfold range_ok in *. lia.
  - destruct (Hend r' q Hr' Hqr) as (Hq1 & E1 & E2 & E3 & E4). pose proof (Hok r' Hr').
    destruct (Hsep c r') as [F1 F2]; [by left|by right|congruence..|unfold range_ok in *; lia|].
    unfold range_ok in *. lia.
  - destruct (Hend r p Hr Hpr) as (Hq1 & E1 & E2 & E3 & E4). pose proof (Hok r Hr).
    destruct (Hsep r c) as [F1 F2]; [by right|by left|congruence..|unfold range_ok in *; lia|].
    destruct (proj1 (cut_covers c Hc r (lf_start p) (Hok r Hr) ltac:(unfold range_ok in *; lia))) as [_ Hn].
    { exists p. split; [done|]. unfold covers, range_ok in *. lia. }
    apply Hn. split; [congruence|]. unfold covers, range_ok in *. lia.
  - destruct (Hend r p Hr Hpr) as (Hp1 & E1 & E2 & E3 & E4), (Hend r' q Hr' Hqr) as (Hq1 & E5 & E6 & E7 & E8).
    pose proof (Hok r Hr). pose proof (Hok r' Hr').
    destruct (Hsep r r') as [F1 F2]; [by right|by right|congruence..|unfold range_ok in *; lia|].
    unfold range_ok in *.
    destruct (cut_shape c r p Hpr) as [(? & [?|?])|(? & ? & ?)], (cut_shape c r' q Hqr) as [(? & [?|?])|(? & ? & ?)]; lia.
Qed.

Lemma placed_granted c R P S R' : range_ok c -> Forall range_ok R -> P ++ S = mbind (cut c) R ->
  coalesced (lf_id c) (P ++ c :: S) R' -> granted c R R'.
Proof.
  intros Hc Hok HPS [Hown Hoth _ _ Hidle].
  assert (Hfil : filter (λ r, lf_id r <> lf_id c) (P ++ c :: S) = filter (λ r, lf_id r <> lf_id c) R)
    by (rewrite filter_app, filter_cons_False by auto; by rewrite <- filter_app, HPS, others_cut).
  split.
  - intros t b Hb. rewrite Hown by done. rewrite locked_app, locked_cons.
    assert (E : locked P (lf_id c) t b \/ locked S (lf_id c) t b <-> locked R (lf_id c) t b /\ ~ covers c b).
    { rewrite <- locked_app, HPS, locked_cut by done. tauto. }
    split.
    + intros [H|[(_ & <- & H)|H]]; [right; tauto|by left|right; tauto].
    + intros [[H ->]|[H1 H2]]; [right; by left|]. destruct (proj2 E); tauto.
  - etrans; [exact Hoth|]. by rewrite Hfil.
  - intros Hs. by rewrite (Hidle (placed_apart c R P S Hc Hok HPS Hs)).
Qed.

Lemma same_granted c R r R' : Forall range_ok R -> ordered R -> r ∈ R -> lf_id r = lf_id c -> lf_type r = lf_type c ->
  case_spec r c OVERLAP_CONTAINS_LOCK -> coalesced (lf_id c) R R' -> granted c R R'.
Proof.
  intros Hok Ho Hr Hi Ht Hs [Hown Hoth _ _ Hidle]. split; [|done|].
  2:{ intros Hsep. rewrite Hidle; [done|]. intros p q Hp Hq Iq (Ip & Et & Hne & He).
      rewrite Forall_forall in Hok. pose proof (Hok p Hp). pose proof (Hok q Hq). unfold touching, range_ok in *.
      destruct (Hsep p q) as [F1 F2]; [by right|by right|congruence..|unfold touching; lia|]. lia. }
  intros t b Hb. rewrite Hown by done.
  assert (D : covers c b \/ ~ covers c b) by (unfold covers; lia).
  assert (Hcr : covers c b -> covers r b) by (cbn in Hs; unfold covers; lia). split.
  - intros H. destruct D as [D|D]; [left|by right]. split; [done|].
    rewrite <- Ht. apply (locked_once R (lf_id c) r t b Ho Hr Hi); auto.
  - intros [[H ->]|[_ H]]; [|done]. exists r. auto.
Qed.


(** ** Ranges of requests *)

Definition off_t (z : Z) : Prop := - 2 ^ 63 <= z < 2 ^ 63.

(** The offset a request counts from, and whether its bytes are offsets of a file. *)
Definition base_of (size : Z) (fl : flock) : Z := (if l_whence fl =? SEEK_END then size else 0) + l_start fl.
Definition range_fits (size : Z) (fl : flock) : Prop :=
  (l_whence fl = SEEK_SET \/ l_whence fl = SEEK_CUR \/ l_whence fl = SEEK_END) /\
  0 <= base_of size fl <= OFF_MAX /\ 0 <= base_of size fl + Z.min 0 (l_len fl) /\
  base_of size fl + l_len fl - 1 <= OFF_MAX.

(** The range that a request names. *)
Definition range_of (size : Z) (fl : flock) : Z * Z :=
  if l_len fl <? 0 then (base_of size fl + l_len fl, base_of size fl - 1)
  else (base_of size fl, if l_len fl =? 0 then -1 else base_of size fl + l_len fl - 1).

Lemma lock_range_runs size fl : 0 <= size <= OFF_MAX -> off_t (l_start fl) -> off_t (l_len fl) ->
  match lock_range (inr size) fl with
  | inr r => range_fits size fl /\ r = range_of size fl
  | inl e => ~ range_fits size fl /\ (e = EINVAL \/ e = EOVERFLOW)
  end.
Proof.
  unfold off_t, OFF_MAX. intros Hs H1 H2.
  unfold lock_range, range_fits, range_of, base_of, SEEK_SET, SEEK_CUR, SEEK_END, OFF_MAX.
  assert (E : u64 size = size) by (apply wrap_small; unfold in_range; lia). rewrite E.
  destruct (_ || _) eqn:E1; [|destruct (Z.eqb_spec (l_whence fl) 2) as [E2|E2]].
  - assert (E2 : (l_whence fl =? 2) = false) by lia. rewrite E2.
    destruct (Z.ltb_spec (l_start fl) 0); [split; [lia|by left]|].
    destruct (Z.ltb_spec (l_len fl) 0).
    + destruct (Z.eqb_spec (l_start fl) 0); [split; [lia|by left]|]. rewrite !s64_small by lia.
      destruct (Z.ltb_spec (l_start fl + l_len fl) 0); [split; [lia|by left]|]. split; [lia|]. f_equal; lia.
    + destruct (Z.eqb_spec (l_len fl) 0); [split; [lia|done]|].
      rewrite (s64_small (l_len fl - 1)), (s64_small (2 ^ 63 - 1 - l_start fl)) by lia.
      destruct (Z.ltb_spec (2 ^ 63 - 1 - l_start fl) (l_len fl - 1)); [split; [lia|by right]|].
      rewrite s64_small by lia. split; [lia|]. f_equal; lia.
  - clear E1. destruct (_ || _) eqn:E3.
    { cbv beta iota. split; [|by right]. intros F. destruct (Z.leb_spec (l_start fl) 0); [lia|].
      assert (E4 : u64 (2 ^ 63 - 1 - l_start fl) = 2 ^ 63 - 1 - l_start fl) by (apply wrap_small; unfold in_range; lia). rewrite E4 in E3. lia. }
    assert (Hb : size + l_start fl <= 2 ^ 63 - 1).
    { destruct (Z.leb_spec (l_start fl) 0); [lia|].
      assert (E4 : u64 (2 ^ 63 - 1 - l_start fl) = 2 ^ 63 - 1 - l_start fl) by (apply wrap_small; unfold in_range; lia). rewrite E4 in E3. lia. }
    rewrite (s64_small (size + l_start fl)) by lia. set (b := size + l_start fl) in *.
    destruct (Z.ltb_spec b 0); [split; [lia|by left]|].
    destruct (Z.ltb_spec (l_len fl) 0).
    + destruct (Z.eqb_spec b 0); [split; [lia|by left]|]. rewrite !s64_small by lia.
      destruct (Z.ltb_spec (b + l_len fl) 0); [split; [lia|by left]|]. split; [lia|done].
    + destruct (Z.eqb_spec (l_len fl) 0); [split; [lia|done]|].
      rewrite (s64_small (l_len fl - 1)), (s64_small (2 ^ 63 - 1 - b)) by lia.
      destruct (Z.ltb_spec (2 ^ 63 - 1 - b) (l_len fl - 1)); [split; [lia|by right]|].
      rewrite s64_small by lia. split; [lia|]. f_equal; lia.
  - split; [lia|by left].
Qed.

(** The lock of a request that is allowed to be in the list: its range does not end with the
    last offset. *)
Definition request_lock (a_id a_flags : Z) (size : Z) (fl : flock) : lockf :=
  Lock (if truth (a_flags &&& F_FLOCK) then a_flags ||| F_WAKE1_SAFE else a_flags) (l_type fl)
    (range_of size fl).1 (range_of size fl).2 a_id 0 [].

Lemma request_range a_id a_flags size fl : range_fits size fl -> (range_of size fl).2 <> OFF_MAX ->
  range_ok (request_lock a_id a_flags size fl).
Proof.
  unfold request_lock, range_ok, range_fits, range_of. intros (_ & H1 & H2 & H3) H4. cbn [lf_start lf_end].
  destruct (Z.ltb_spec (l_len fl) 0); [|destruct (Z.eqb_spec (l_len fl) 0)]; cbn [fst snd] in *; lia.
Qed.

Lemma request_nowait a_id a_flags size fl : truth (a_flags &&& F_WAIT) = false ->
  truth (lf_flags (request_lock a_id a_flags size fl) &&& F_WAIT) = false.
Proof.
  intros H. cbn. destruct (truth (a_flags &&& F_FLOCK)); [|done]. apply truth_false in H.
  rewrite Z.land_lor_distr_l, H. done.
Qed.

Section operations.
Context {O : Type} (o : O).
Context (malloc : files O -> option Z) (p_uthlist : files O -> Z -> list (option Z)).
Context (msleep : Z -> files O -> Z * files O) (proc_pid : Z -> Z).
Context (Hmalloc : ∀ s p, malloc s = Some p -> p <> 0 /\ heap s !! p = None).

Implicit Types (s : files O) (L : rows).

(** [lf_setlock] behind the loop that waits. *)
Definition link_and_coelesce (lock : Z) : kern (files O) Z :=
  block ← gets v_lockf;
  n ← steps;
  linked ← link_loop malloc n lock block Head true;
  match linked with inl error => mret error | inr lock => lf_coelesce_adjacent lock;; mret 0 end.

Lemma link_and_coelesce_runs lp c L s (Q : Z -> files O -> Prop) : view o [(lp, c)] L s -> range_ok c ->
  rows_ok L -> ordered L.*2 ->
  (∀ s' L', view o [] L' s' -> rows_ok L' -> ordered L'.*2 -> granted c L.*2 L'.*2 -> Q 0 s') ->
  ((∃ s0, malloc s0 = None) -> ∀ s', view o [] L s' -> Q ENOLCK s') ->
  runs (link_and_coelesce lp) Q s.
Proof.
  intros Hv Hc Hok Hord H0 Herr. apply runs_bind, runs_gets, runs_bind, runs_gets.
  rewrite (rep_first _ _ _ (vw_rep _ _ _ _ Hv)). apply runs_bind.
  destruct (nodup_held _ _ _ _ (vw_nodup _ _ _ _ Hv)) as (_ & _ & Hnd). cbn [app] in Hnd.
  pose proof (rep_size _ _ _ _ Hnd (vw_rep _ _ _ _ Hv)).
  apply (link_loop_runs o malloc Hmalloc [] lp c L _ s); [done..|lia| | |].
  - intros s1 P x S Hv1 HPS HP HS.
    assert (Hok1 : rows_ok (P ++ (x, c) :: S)).
    { rewrite fmap_app, fmap_cons. cbn [snd]. pose proof (cut_rows_ok c Hc _ Hok) as H'. rewrite <- HPS in H'.
      apply Forall_app in H' as [? ?]. apply Forall_app. split; [done|]. by apply Forall_cons. }
    assert (Hord1 : ordered (P ++ (x, c) :: S).*2).
    { rewrite fmap_app, fmap_cons. apply placed_ordered; [|done..]. rewrite HPS. by apply cut_ordered. }
    apply runs_bind. eapply (coelesce_runs o [] P x c S); [done..|]. intros s2 L' Hv2 Hco. apply runs_ret.
    apply (H0 s2 L' Hv2); [by apply (co_rows _ _ _ Hco)|by apply (co_ordered _ _ _ Hco)|].
    rewrite fmap_app, fmap_cons in Hco. by eapply placed_granted.
  - intros s1 P x r S Hv1 -> Hi Ht Hs.
    apply runs_bind. eapply (coelesce_runs o [] P x r S); [done..|]. intros s2 L' Hv2 Hco. rewrite Hi in Hco. apply runs_ret.
    apply (H0 s2 L' Hv2); [by apply (co_rows _ _ _ Hco)|by apply (co_ordered _ _ _ Hco)|].
    eapply (same_granted c _ r); [done|done| |done..]. rewrite fmap_app. apply elem_of_app. right. by left.
  - intros Hm s1 Hv1. by apply runs_ret, Herr.
Qed.

(** A request that does not wait is refused when it conflicts, and else granted. *)
Lemma setlock_runs fuel lp u L s (Q : Z -> files O -> Prop) : view o [(lp, core u)] L s -> heap s !! lp = Some u ->
  range_ok u -> truth (lf_flags u &&& F_WAIT) = false -> rows_ok L -> ordered L.*2 ->
  (∀ s' L', (∀ r, r ∈ L.*2 -> ~ conflict u r) -> view o [] L' s' -> rows_ok L' -> ordered L'.*2 ->
     granted (core u) L.*2 L'.*2 -> Q 0 s') ->
  (∀ s' r, r ∈ L.*2 -> conflict u r -> view o [] L s' -> Q EAGAIN s') ->
  ((∃ s0, malloc s0 = None) -> ∀ s', view o [] L s' -> Q ENOLCK s') ->
  runs (lf_setlock malloc p_uthlist msleep (S fuel) lp) Q s.
Proof.
  intros Hv Hu Hc Hw Hok Hord H0 Hno Herr. unfold lf_setlock. cbn [block_loop].
  destruct (nodup_held _ _ _ _ (vw_nodup _ _ _ _ Hv)) as (_ & _ & Hnd). cbn [app] in Hnd.
  apply runs_bind, runs_bind, (getblock_runs s lp u Hu Hc L); [apply (vw_rep _ _ _ _ Hv)|done|done| |].
  - intros A1 x r A2 EL Hconf _. pose proof Hv as Hv'. rewrite EL in Hv'.
    destruct (view_listed _ _ _ _ _ _ _ Hv') as (Hx & _). rewrite (proj2 (Z.eqb_neq x 0) Hx).
    apply runs_bind, (r_load lp u); [done|]. rewrite Hw. cbn [negb].
    apply runs_bind, (r_free_held o [] lp (core u) L s _ Hv). intros s1 Hv1. apply runs_ret, runs_ret, (Hno s1 r); [|done..].
    rewrite EL, fmap_app. apply elem_of_app. right. by left.
  - intros Hfree. cbn [Z.eqb]. apply runs_ret.
    apply (link_and_coelesce_runs lp (core u) L s Q Hv Hc Hok Hord); [|done].
    intros s1 L1. apply H0. intros r Hr. rewrite Forall_forall in Hfree.
    apply list_elem_of_fmap in Hr as ([x r'] & -> & Hin). exact (Hfree _ Hin).
Qed.

(** ** Requests that do not wait *)

Abbreviation advlock := (lf_advlock malloc p_uthlist msleep proc_pid).

Lemma view_head L s : view o [] L s -> v_lockf s = 0 <-> L = [].
Proof.
  intros Hv. rewrite (rep_first _ _ _ (vw_rep _ _ _ _ Hv)). destruct L as [|[x r] L]; [done|].
  destruct (view_listed o [] [] x r L s Hv) as [Hx _]. done.
Qed.

(** The lock of a request is allocated and filled in. *)
Lemma new_lock L s p u : view o [] L s -> malloc s = Some p -> lf_blkhd u = [] ->
  view o [(p, core u)] L (set_heap (<[p := u]> (heap s)) s).
Proof.
  intros Hv Hm Hu. destruct (Hmalloc s p Hm) as [Hp Hf]. eapply view_malloc; [done..|].
  rewrite Hu. by intros w ?%elem_of_nil.
Qed.

Definition bad_range (size : Z) (fl : flock) (s : files O) (e : Z) (s' : files O) : Prop :=
  ~ range_fits size fl /\ (e = EINVAL \/ e = EOVERFLOW) /\ s' = s.
Definition no_memory (L : rows) (e : Z) (s' : files O) : Prop :=
  e = ENOLCK /\ (∃ s0, malloc s0 = None) /\ listed o L s'.

(** A request to set a lock: granted when it conflicts with no lock, and refused when it does. *)
Definition set_outcome (c : lockf) (L : rows) (e : Z) (s' : files O) : Prop :=
  (e = 0 /\ (∀ r, r ∈ L.*2 -> ~ conflict c r) /\ ∃ L', listed o L' s' /\ granted c L.*2 L'.*2) \/
  (e = EAGAIN /\ (∃ r, r ∈ L.*2 /\ conflict c r) /\ listed o L s') \/ no_memory L e s'.

Lemma advlock_set_runs fuel size a_id a_flags fl L s : listed o L s -> 0 <= size <= OFF_MAX ->
  off_t (l_start fl) -> off_t (l_len fl) -> (range_of size fl).2 <> OFF_MAX ->
  truth (a_flags &&& F_WAIT) = false ->
  runs (advlock (S fuel) (inr size) a_id F_SETLK a_flags fl) (λ r s', r.2 = fl /\
    ((range_fits size fl /\ set_outcome (request_lock a_id a_flags size fl) L r.1 s') \/ bad_range size fl s r.1 s')) s.
Proof.
  intros Hl Hsz Hst Hlen Hmax Hw. apply runs_bind, runs_gets. rewrite andb_false_r.
  pose proof (lock_range_runs size fl Hsz Hst Hlen) as Hr. destruct (lock_range (inr size) fl) as [e|[st en]].
  { apply runs_ret. split; [done|]. right. destruct Hr as [H1 H2]. by split. }
  destruct Hr as [Hfit Er]. apply runs_bind, runs_gets. pose proof Hl as [Hv Hok Hord Hex].
  destruct (malloc s) as [p|] eqn:Em.
  2:{ apply runs_ret. split; [done|]. left. split; [done|]. right. right. split; [done|]. split; [by exists s|done]. }
  apply runs_bind, runs_modify. cbn [Z.eqb F_SETLK Pos.eqb]. set (c := request_lock a_id a_flags size fl).
  assert (Ec : Lock (if truth (a_flags &&& F_FLOCK) then a_flags ||| F_WAKE1_SAFE else a_flags) (l_type fl) st en a_id 0 [] = c)
    by (unfold c, request_lock; by rewrite <- Er).
  rewrite Ec. apply runs_bind.
  apply (setlock_runs fuel p c L); [by apply new_lock|apply lookup_insert_eq| | |done..| | |].
  - by apply request_range.
  - by apply request_nowait.
  - intros s' L' Hno Hv' Hok' Hord' Hg%granted_core. apply runs_ret. split; [done|]. left. split; [done|]. left.
    split; [done|]. split; [done|]. exists L'. split; [|done]. split; [done..|]. by eapply granted_exclusive.
  - intros s' r Hr Hc Hv'. apply runs_ret. split; [done|]. left. split; [done|]. right. left.
    split; [done|]. split; [by exists r|]. by split.
  - intros Hm s' Hv'. apply runs_ret. split; [done|]. left. split; [done|]. right. right. split; [done|]. split; [done|]. by split.
Qed.

(** A request to clear a range. *)
Definition clear_outcome (c : lockf) (L : rows) (e : Z) (s' : files O) : Prop :=
  (e = 0 /\ ∃ L', listed o L' s' /\ cleared c L.*2 L'.*2) \/ no_memory L e s'.

Lemma advlock_clear_runs fuel size a_id a_flags fl L s : listed o L s -> 0 <= size <= OFF_MAX ->
  off_t (l_start fl) -> off_t (l_len fl) -> (range_of size fl).2 <> OFF_MAX ->
  runs (advlock fuel (inr size) a_id F_UNLCK a_flags fl) (λ r s',
    (L = [] /\ r.1 = 0 /\ s' = s) \/
    (range_fits size fl /\ clear_outcome (request_lock a_id a_flags size fl) L r.1 s') \/ bad_range size fl s r.1 s') s.
Proof.
  intros Hl Hsz Hst Hlen Hmax. apply runs_bind, runs_gets. pose proof Hl as [Hv Hok Hord Hex].
  cbn [F_UNLCK F_SETLK Z.eqb Pos.eqb negb]. rewrite andb_true_r.
  destruct (Z.eqb_spec (v_lockf s) 0) as [E0|E0]; [apply (view_head L s Hv) in E0; apply runs_ret; by left|].
  pose proof (lock_range_runs size fl Hsz Hst Hlen) as Hr. destruct (lock_range (inr size) fl) as [e|[st en]].
  { apply runs_ret. right. right. destruct Hr as [H1 H2]. by split. }
  destruct Hr as [Hfit Er]. apply runs_bind, runs_gets.
  destruct (malloc s) as [p|] eqn:Em.
  2:{ apply runs_ret. right. left. split; [done|]. right. split; [done|]. split; [by exists s|done]. }
  apply runs_bind, runs_modify. set (c := request_lock a_id a_flags size fl).
  assert (Ec : Lock (if truth (a_flags &&& F_FLOCK) then a_flags ||| F_WAKE1_SAFE else a_flags) (l_type fl) st en a_id 0 [] = c)
    by (unfold c, request_lock; by rewrite <- Er).
  rewrite Ec. assert (Hc : range_ok (core c)) by exact (request_range a_id a_flags size fl Hfit Hmax).
  apply runs_bind, (clearlock_runs o malloc Hmalloc [] p (core c) L); [by apply new_lock|done..| |].
  - intros s1 L1 Hv1 HL. apply runs_bind, (r_free_held o [] p (core c) L1 s1 _ Hv1). intros s2 Hv2. apply runs_ret.
    right. left. split; [done|]. left. split; [done|]. exists L1.
    assert (Hcl : cleared c L.*2 L1.*2) by (intros id t b Hb; rewrite HL; exact (locked_cut (core c) _ id t b Hc Hok Hb)).
    split; [|done]. split; [done| | |by eapply cleared_exclusive]; rewrite HL; [by apply cut_rows_ok|by apply cut_ordered].
  - intros Hm s1 Hv1. apply runs_bind, (r_free_held o [] p (core c) L s1 _ Hv1). intros s2 Hv2. apply runs_ret.
    right. left. split; [done|]. right. split; [done|]. split; [done|]. by split.
Qed.

(** What a query reports: the first lock of the list that conflicts, or that there is none. *)
Definition get_outcome (fl : flock) (c : lockf) (L : rows) (s : files O) (fl' : flock) : Prop :=
  ((∀ r, r ∈ L.*2 -> ~ conflict c r) /\ fl' = Flock (l_start fl) (l_len fl) (l_pid fl) F_UNLCK (l_whence fl)) \/
  (∃ L1 x r L2 k, L = L1 ++ (x, r) :: L2 /\ conflict c r /\ (∀ q, q ∈ L1.*2 -> ~ conflict c q) /\
     heap s !! x = Some k /\
     fl' = Flock (lf_start r) (if lf_end r =? -1 then 0 else lf_end r - lf_start r + 1)
       (if truth (lf_flags k &&& F_POSIX) then proc_pid (lf_id r) else -1) (lf_type r) SEEK_SET).

Lemma getlock_runs p c L fl s (Q : flock -> files O -> Prop) : view o [(p, core c)] L s -> heap s !! p = Some c ->
  range_ok c -> rows_ok L -> (∀ fl', get_outcome fl c L s fl' -> Q fl' s) -> runs (lf_getlock proc_pid p fl) Q s.
Proof.
  intros Hv Hp Hc Hok HQ.
  destruct (nodup_held _ _ _ _ (vw_nodup _ _ _ _ Hv)) as (_ & _ & Hnd). cbn [app] in Hnd.
  apply runs_bind, (getblock_runs s p c Hp Hc L); [apply (vw_rep _ _ _ _ Hv)|done|done| |].
  - intros L1 x r L2 EL Hconf Hno. pose proof Hv as Hv'. rewrite EL in Hv'.
    destruct (view_listed _ _ _ _ _ _ _ Hv') as (Hx & k & Hk & Hkr & _). rewrite (proj2 (Z.eqb_neq x 0) Hx).
    apply runs_bind, (r_load x k); [done|]. apply runs_ret, HQ. right. exists L1, x, r, L2, k.
    split; [done|]. split; [done|]. split.
    { intros q ([y q'] & -> & Hq)%list_elem_of_fmap. rewrite Forall_forall in Hno. exact (Hno _ Hq). }
    split; [done|]. assert (Hr : range_ok r).
    { rewrite EL, fmap_app in Hok. apply Forall_app in Hok as [_ Hok]. by apply Forall_cons in Hok as [Hok _]. }
    destruct Hr as [Hr1 Hr2]. unfold OFF_MAX in *. rewrite <- Hkr. rewrite <- Hkr in Hr1, Hr2. cbn in Hr1, Hr2 |- *.
    f_equal. destruct (Z.eqb_spec (lf_end k) (-1)); [done|]. apply s64_small. lia.
  - intros Hno. apply runs_ret, HQ. left. split; [|done].
    intros q ([y q'] & -> & Hq)%list_elem_of_fmap. rewrite Forall_forall in Hno. exact (Hno _ Hq).
Qed.

Lemma advlock_get_runs fuel size a_id a_flags fl L s : listed o L s -> 0 <= size <= OFF_MAX ->
  off_t (l_start fl) -> off_t (l_len fl) -> (range_of size fl).2 <> OFF_MAX ->
  runs (advlock fuel (inr size) a_id F_GETLK a_flags fl) (λ r s',
    (r.1 = 0 /\ listed o L s' /\ get_outcome fl (request_lock a_id a_flags size fl) L s r.2) \/
    (r.2 = fl /\ (bad_range size fl s r.1 s' \/ no_memory L r.1 s'))) s.
Proof.
  intros Hl Hsz Hst Hlen Hmax. apply runs_bind, runs_gets. pose proof Hl as [Hv Hok Hord Hex].
  cbn [F_GETLK F_SETLK Z.eqb Pos.eqb negb]. rewrite andb_true_r.
  destruct (Z.eqb_spec (v_lockf s) 0) as [E0|E0].
  { apply (view_head L s Hv) in E0 as ->. apply runs_ret. left. split; [done|]. split; [done|]. left.
    split; [by intros r ?%elem_of_nil|done]. }
  pose proof (lock_range_runs size fl Hsz Hst Hlen) as Hr. destruct (lock_range (inr size) fl) as [e|[st en]].
  { apply runs_ret. right. split; [done|]. left. destruct Hr as [H1 H2]. by split. }
  destruct Hr as [Hfit Er]. apply runs_bind, runs_gets.
  destruct (malloc s) as [p|] eqn:Em.
  2:{ apply runs_ret. right. split; [done|]. right. split; [done|]. split; [by exists s|done]. }
  apply runs_bind, runs_modify. set (c := request_lock a_id a_flags size fl).
  assert (Ec : Lock (if truth (a_flags &&& F_FLOCK) then a_flags ||| F_WAKE1_SAFE else a_flags) (l_type fl) st en a_id 0 [] = c)
    by (unfold c, request_lock; by rewrite <- Er).
  rewrite Ec. pose proof (request_range a_id a_flags size fl Hfit Hmax) as Hc. pose proof (new_lock L s p c Hv Em eq_refl) as Hv1.
  cbn [F_UNLCK Z.eqb Pos.eqb].
  apply runs_bind, (getlock_runs p c L fl _ _ Hv1); [apply lookup_insert_eq|done|done|].
  intros fl' Hg. apply runs_bind, (r_free_held o [] p (core c) L _ _ Hv1). intros s2 Hv2. apply runs_ret.
  left. split; [done|]. split; [by split|]. destruct Hg as [Hg|(L1 & x & r & L2 & k & EL & H1 & H2 & Hk & H3)]; [by left|right].
  exists L1, x, r, L2, k. do 3 (split; [done|]). split; [|done]. cbn in Hk. rewrite lookup_insert_ne in Hk; [done|].
  intros <-. pose proof Hv as Hv'. rewrite EL in Hv'. destruct (view_listed _ _ _ _ _ _ _ Hv') as (_ & k' & Hk' & _).
  destruct (Hmalloc s p Em). congruence.
Qed.

Lemma advlock_other_runs fuel size a_id op a_flags fl L s : listed o L s -> op <> F_SETLK -> op <> F_UNLCK ->
  op <> F_GETLK -> 0 <= size <= OFF_MAX -> off_t (l_start fl) -> off_t (l_len fl) ->
  runs (advlock fuel (inr size) a_id op a_flags fl) (λ _ s', listed o L s') s.
Proof.
  intros Hl H1 H2 H3 Hsz Hst Hlen. apply runs_bind, runs_gets. pose proof Hl as [Hv Hok Hord Hex].
  destruct (_ && _); [by apply runs_ret|].
  destruct (lock_range (inr size) fl) as [e|[st en]]; [by apply runs_ret|]. apply runs_bind, runs_gets.
  destruct (malloc s) as [p|] eqn:Em; [|by apply runs_ret]. apply runs_bind, runs_modify.
  rewrite !(proj2 (Z.eqb_neq _ _)) by done.
  set (u := Lock _ _ _ _ _ _ _). apply runs_bind, (r_free_held o [] p (core u) L _ _ (new_lock L s p u Hv Em eq_refl)).
  intros s2 Hv2. by apply runs_ret.
Qed.

(** A sequence of requests, each served before the next. *)
Record request := Request { rq_size : Z; rq_id : Z; rq_op : Z; rq_flags : Z; rq_fl : flock }.
Definition request_ok (r : request) : Prop :=
  0 <= rq_size r <= OFF_MAX /\ off_t (l_start (rq_fl r)) /\ off_t (l_len (rq_fl r)) /\
  (range_of (rq_size r) (rq_fl r)).2 <> OFF_MAX /\ truth (rq_flags r &&& F_WAIT) = false.

Definition serve_one (r : request) : kern (files O) Z :=
  '(error, _) ← advlock 1 (inr (rq_size r)) (rq_id r) (rq_op r) (rq_flags r) (rq_fl r); mret error.
Fixpoint serve (l : list request) : kern (files O) (list Z) :=
  match l with
  | [] => mret []
  | r :: l => error ← serve_one r; errors ← serve l; mret (error :: errors)
  end.

Lemma serve_one_runs r L s : listed o L s -> request_ok r -> runs (serve_one r) (λ _ s', ∃ L', listed o L' s') s.
Proof.
  intros Hl (H1 & H2 & H3 & H4 & H5). apply runs_bind.
  destruct (decide (rq_op r = F_SETLK)) as [->|N1]; [|destruct (decide (rq_op r = F_UNLCK)) as [->|N2];
    [|destruct (decide (rq_op r = F_GETLK)) as [->|N3]]]; eapply runs_weaken.
  - by apply advlock_set_runs.
  - intros [e fl'] s' (_ & [(_ & [(_ & _ & L' & H & _)|[(_ & _ & H)|(_ & _ & H)]])|(_ & _ & ->)]); apply runs_ret; eauto.
  - by apply advlock_clear_runs.
  - intros [e fl'] s' [(_ & _ & ->)|[(_ & [(_ & L' & H & _)|(_ & _ & H)])|(_ & _ & ->)]]; apply runs_ret; eauto.
  - by apply advlock_get_runs.
  - intros [e fl'] s' [(_ & H & _)|(_ & [(_ & _ & ->)|(_ & _ & H)])]; apply runs_ret; eauto.
  - by apply (advlock_other_runs 1 _ _ _ _ _ L).
  - intros [e fl'] s' H. apply runs_ret. eauto.
Qed.

(** C2 (invariant): whatever requests that do not wait come, each naming a range that does not
    end with the last offset: the machine does not stop, every request gets an answer, and
    afterwards the list is well formed, in the order of the ranges of each owner, and no byte
    that is locked exclusively is locked for another owner. *)
Theorem serve_keeps_exclusion l : ∀ L s, listed o L s -> Forall request_ok l ->
  runs (serve l) (λ errors s', length errors = length l /\ ∃ L', listed o L' s') s.
Proof.
  induction l as [|r l IH]; intros L s Hl Hr; [apply runs_ret; split; [done|by exists L]|].
  apply Forall_cons in Hr as [H1 H2]. apply runs_bind. eapply runs_weaken; [by apply (serve_one_runs r L)|].
  intros e s1 [L1 Hl1]. apply runs_bind. eapply runs_weaken; [by apply (IH L1)|].
  intros es s2 [Hlen HL]. apply runs_ret. cbn. by rewrite Hlen.
Qed.

(** C18 (functional): a request to set a lock that does not wait, on a range whose last byte is not
    the last offset there is (a lock that ends there overflows: [unlock_to_last_offset]): a range that
    is not one of a file is refused with [EINVAL] or [EOVERFLOW], one that conflicts with a lock of
    another owner with [EAGAIN], and any other is granted, unless there is no memory for the request
    or a lock that has to be split, for which the answer is [ENOLCK].  When it is granted the owner
    has the bytes of the range with the new type and his other bytes as before; nothing is added to
    the locks of others, and they keep them all when no two locks of the owner of one type touch
    (joining these may drop locks of others: [coelesce_drops_between]).  When it is not granted the
    locks that are held are as they were. *)
Theorem advlock_set fuel size a_id a_flags fl L s : listed o L s -> 0 <= size <= OFF_MAX ->
  off_t (l_start fl) -> off_t (l_len fl) -> (range_of size fl).2 <> OFF_MAX ->
  truth (a_flags &&& F_WAIT) = false ->
  runs (advlock (S fuel) (inr size) a_id F_SETLK a_flags fl) (λ r s', r.2 = fl /\
    ((range_fits size fl /\ set_outcome (request_lock a_id a_flags size fl) L r.1 s') \/ bad_range size fl s r.1 s')) s.
Proof. apply advlock_set_runs. Qed.

(** C19 (functional): a request to clear a range whose last byte is not the last offset there is (with
    which it can give every byte of the file instead: [unlock_to_last_offset]) takes from its owner
    exactly the bytes of the range, and leaves all other bytes of all owners with their locks.  A file
    without locks answers at once; a range that is not one of a file is refused and nothing changes;
    and without memory for the request, or for the second part of a lock that has to be split, the
    request fails with [ENOLCK] and the locks that are held are as they were, although requests that
    wait for them may have been woken. *)
Theorem advlock_clear fuel size a_id a_flags fl L s : listed o L s -> 0 <= size <= OFF_MAX ->
  off_t (l_start fl) -> off_t (l_len fl) -> (range_of size fl).2 <> OFF_MAX ->
  runs (advlock fuel (inr size) a_id F_UNLCK a_flags fl) (λ r s',
    (L = [] /\ r.1 = 0 /\ s' = s) \/
    (range_fits size fl /\ clear_outcome (request_lock a_id a_flags size fl) L r.1 s') \/ bad_range size fl s r.1 s') s.
Proof. apply advlock_clear_runs. Qed.

(** A query changes no lock and reports the first lock of the list that
    conflicts with the range, with its range, type and process, or that nothing does. *)
Theorem advlock_get fuel size a_id a_flags fl L s : listed o L s -> 0 <= size <= OFF_MAX ->
  off_t (l_start fl) -> off_t (l_len fl) -> (range_of size fl).2 <> OFF_MAX ->
  runs (advlock fuel (inr size) a_id F_GETLK a_flags fl) (λ r s',
    (r.1 = 0 /\ listed o L s' /\ get_outcome fl (request_lock a_id a_flags size fl) L s r.2) \/
    (r.2 = fl /\ (bad_range size fl s r.1 s' \/ no_memory L r.1 s'))) s.
Proof. apply advlock_get_runs. Qed.

(** C34 (bounds): the range of a request, for every offset, length and file size: exactly the
    requests whose bytes are offsets of a file are accepted, no sum overflows, and the first and
    last byte are those the caller named, with -1 for a request to the end of all files. *)
Theorem lock_range_exact size fl : 0 <= size <= OFF_MAX -> off_t (l_start fl) -> off_t (l_len fl) ->
  match lock_range (inr size) fl with
  | inr r => range_fits size fl /\ r = range_of size fl
  | inl e => ~ range_fits size fl /\ (e = EINVAL \/ e = EOVERFLOW)
  end.
Proof. apply lock_range_runs. Qed.

(** ** What coalescing loses *)

(** Two locks of an owner that meet, as one. *)
Definition joined (q c : lockf) : lockf := set_lf_start (lf_start q) c.

(** Coalescing a lock with one of the same owner and type that it meets drops all
    locks that are between the two in the list, whoever owns them: nobody else has a lock any
    more, although no one unlocked. *)
Theorem coelesce_drops_between N y q M x c s : view o N ((y, q) :: M ++ [(x, c)]) s ->
  range_ok q -> lf_id q = lf_id c -> lf_type q = lf_type c -> lf_end q <> -1 -> lf_end q + 1 = lf_start c ->
  runs (lf_coelesce_adjacent x) (λ _ s', view o N [(x, joined q c)] s' /\
    ∀ id t b, id <> lf_id c -> ~ locked [joined q c] id t b) s.
Proof.
  intros Hv Hq Hi Ht He Hm.
  assert (Hno : ∀ id t b, id <> lf_id c -> ~ locked [joined q c] id t b)
    by (intros id t b Hne (r & ->%list_elem_of_singleton & Hir & _); by apply Hne).
  apply runs_bind, runs_gets.
  destruct (view_listed o N [] y q _ s Hv) as (Hy & ky & Hky & Hry & _).
  pose proof (view_listed o N ((y, q) :: M) x c [] s Hv) as (Hx & kx & Hkx & Hrx & _).
  assert (Hyx : y <> x).
  { intros ->. pose proof (vw_nodup _ _ _ _ Hv) as Hnd. rewrite fmap_app in Hnd. apply NoDup_app in Hnd as (_ & _ & Hnd).
    rewrite fmap_cons in Hnd. apply NoDup_cons in Hnd as [Hnd _]. apply Hnd. cbn. rewrite fmap_app. apply elem_of_app. right. by left. }
  destruct (base.size (heap s)) as [|n] eqn:En.
  { apply map_size_empty_iff in En. by rewrite En in Hky. }
  cbn [coelesce_loop]. change Head with (place_of []). apply runs_bind, (r_place o N [] _ s _ Hv). cbn [first].
  rewrite (proj2 (Z.eqb_neq y 0) Hy). apply runs_bind, (r_load y ky); [done|]. apply runs_bind, (r_load x kx); [done|].
  rewrite (proj2 (Z.eqb_neq y x) Hyx). cbn [orb].
  replace (lf_id ky) with (lf_id q) by (by rewrite <- Hry). replace (lf_type ky) with (lf_type q) by (by rewrite <- Hry).
  replace (lf_start ky) with (lf_start q) by (by rewrite <- Hry). replace (lf_end ky) with (lf_end q) by (by rewrite <- Hry).
  replace (lf_id kx) with (lf_id c) by (by rewrite <- Hrx). replace (lf_type kx) with (lf_type c) by (by rewrite <- Hrx).
  replace (lf_start kx) with (lf_start c) by (by rewrite <- Hrx).
  rewrite Hi, Ht, !Z.eqb_refl, (proj2 (Z.eqb_neq (lf_end q) (-1)) He). cbn [negb orb andb].
  destruct Hq as [Hq1 Hq2]. unfold OFF_MAX in *. rewrite s64_small, (proj2 (Z.eqb_eq _ _) Hm) by lia.
  change ((y, q) :: M ++ [(x, c)]) with (((y, q) :: M) ++ (x, c) :: []) in Hv.
  apply runs_bind. eapply (r_row o N _ x c [] _ (set_lf_start (lf_start q)) _ Hv); [done..|]. intros s1 Hv1.
  apply runs_bind. change x with (first [(x, joined q c)]) at 1.
  apply (view_splice o N [] ((y, q) :: M) [(x, joined q c)] s1 _ Hv1). intros s2 Hv2 _.
  apply runs_bind, (r_free_held _ _ _ _ _ _ _ Hv2). intros s3 Hv3. apply view_forget in Hv3.
  change (NextOf x) with (place_of [(x, joined q c)]).
  apply runs_bind, (r_place o N [(x, joined q c)] [] s3 _ Hv3). cbn [first Z.eqb]. by apply runs_ret.
Qed.

(** ** Unlocking to the last offset *)

Lemma contains_to_end r : 0 <= lf_start r <= OFF_MAX -> lf_end r = -1 ->
  overlap_case r (lf_start r) OFF_MAX = Some OVERLAP_CONTAINS_LOCK.
Proof.
  intros H1 H2. unfold overlap_case. rewrite H2.
  destruct (_ || _) eqn:E1; [unfold OFF_MAX in *; lia|]. clear E1.
  destruct (_ && _) eqn:E2; [unfold OFF_MAX in *; lia|]. clear E2.
  destruct (_ && _) eqn:E3; [done|]. unfold OFF_MAX in *; lia.
Qed.

Lemma clear_to_end p c x r s (Q : Z -> files O -> Prop) : view o [(p, core c)] [(x, r)] s -> heap s !! p = Some c ->
  lf_id r = lf_id c -> 0 <= lf_start r <= OFF_MAX -> lf_end r = -1 -> lf_start c = lf_start r -> lf_end c = OFF_MAX ->
  (∀ s', view o [(p, core c)] [(x, set_lf_start (- 2 ^ 63) r)] s' -> Q 0 s') ->
  runs (lf_clearlock malloc p) Q s.
Proof.
  intros Hv Hp Hi Hs He Cs Ce HQ. pose proof (contains_to_end r Hs He) as Hcase. rewrite <- Cs, <- Ce in Hcase.
  destruct (view_listed o _ [] x r [] s Hv) as (Hx & _). pose proof (rep_first _ _ _ (vw_rep _ _ _ _ Hv)) as Hf. cbn [first] in Hf.
  apply runs_bind, runs_gets. rewrite Hf, (proj2 (Z.eqb_neq x 0) Hx). apply runs_bind, runs_gets. cbn [clear_loop].
  apply runs_bind, (findoverlap_runs SELF p c s _ [] [(x, r)] x Hp); [by apply NoDup_singleton| | |].
  - pose proof (vw_rep _ _ _ _ Hv) as H. by rewrite Hf in H.
  - intros y q Hin _. apply list_elem_of_singleton in Hin. injection Hin as -> ->. by exists OVERLAP_CONTAINS_LOCK.
  - intros oc B1 B2 EB Hskip Hends. destruct B1 as [|b B1].
    + cbn [app] in EB. subst B2. destruct (decide (oc = OVERLAP_NONE)) as [->|Hne].
      { destruct Hends as [?|(_ & y & q & B' & [= -> -> _] & _ & _ & H)]; [done|]. lia. }
      destruct (search_hit _ _ _ _ Hends Hne) as (y & q & B' & [= <- <- _] & _ & Hoc).
      rewrite Hcase in Hoc. injection Hoc as <-. cbn [first].
      apply runs_bind. eapply (r_wake o _ [] x r [] false s _ Hv). intros s1 Hv1.
      destruct (view_listed o _ [] x r [] s1 Hv1) as (_ & k & Hk & Hkr & _).
      destruct (vw_held _ _ _ _ Hv1 p (core c) ltac:(by left)) as (_ & u & Hu & Hcu).
      assert (Ecs : lf_start u = lf_start r) by (rewrite <- Cs; by injection Hcu).
      assert (Ece : lf_end u = OFF_MAX) by (rewrite <- Ce; by injection Hcu).
      apply runs_bind, (r_load x k); [done|]. apply runs_bind, (r_load p u); [done|].
      replace (lf_start k) with (lf_start r) by (by rewrite <- Hkr). rewrite Ecs, Ece, Z.eqb_refl.
      replace (s64 (OFF_MAX + 1)) with (- 2 ^ 63) by done.
      apply runs_bind. eapply (r_row o _ [] x r [] _ (set_lf_start (- 2 ^ 63)) _ Hv1); [done..|]. intros s2 Hv2.
      by apply runs_ret, HQ.
    + injection EB as <- EB. symmetry in EB. apply app_eq_nil in EB as [-> ->].
      apply Forall_cons in Hskip as [[Hsk|[Hsk _]] _]; [cbn in Hsk; lia|]. cbn [snd] in Hsk. congruence.
Qed.

(** An owner who has the bytes of a file from some offset on, and unlocks all of them
    by a request that ends with the last offset, is told that it worked: the new start of the
    lock overflows, and the lock covers every byte of the file. *)
Theorem unlock_to_last_offset fuel size a_flags fl x r s p : view o [] [(x, r)] s -> 0 <= size <= OFF_MAX ->
  1 <= lf_start r <= OFF_MAX -> lf_end r = -1 -> malloc s = Some p ->
  l_whence fl = SEEK_SET -> l_start fl = lf_start r -> l_len fl = OFF_MAX - lf_start r + 1 ->
  runs (advlock fuel (inr size) (lf_id r) F_UNLCK a_flags fl) (λ res s', res.1 = 0 /\
    (range_of size fl).2 = OFF_MAX /\
    ∃ r', view o [] [(x, r')] s' /\ ∀ b, 0 <= b -> locked [r'] (lf_id r) (lf_type r) b) s.
Proof.
  intros Hv Hsz Hs He Hm Hw Hst Hlen. destruct (view_listed o _ [] x r [] s Hv) as (Hx & _).
  pose proof (rep_first _ _ _ (vw_rep _ _ _ _ Hv)) as Hf. cbn [first] in Hf.
  assert (Hr : range_of size fl = (lf_start r, OFF_MAX)).
  { unfold range_of, base_of. rewrite Hw, Hst, Hlen. unfold SEEK_SET, SEEK_END, OFF_MAX in *. cbn [Z.eqb].
    rewrite (proj2 (Z.ltb_ge _ _)), (proj2 (Z.eqb_neq _ _)) by lia. f_equal. lia. }
  assert (Hfit : range_fits size fl).
  { unfold range_fits, base_of. rewrite Hw, Hst, Hlen. unfold SEEK_SET, SEEK_END, OFF_MAX in *. cbn [Z.eqb]. lia. }
  pose proof (lock_range_runs size fl Hsz) as H. unfold off_t in H. rewrite Hst, Hlen in H. unfold OFF_MAX in H at 1.
  apply runs_bind, runs_gets. rewrite Hf, (proj2 (Z.eqb_neq x 0) Hx). cbn [andb].
  destruct (lock_range (inr size) fl) as [e|[st en]]; [exfalso; apply H; [unfold OFF_MAX in *; lia..|done]|].
  destruct H as [_ E]; [unfold OFF_MAX in *; lia..|]. rewrite Hr in E. injection E as -> ->.
  apply runs_bind, runs_gets. rewrite Hm. apply runs_bind, runs_modify. cbn [F_UNLCK F_SETLK Z.eqb Pos.eqb].
  set (c := Lock _ _ _ _ _ _ _). apply runs_bind.
  apply (clear_to_end p c x r); [by apply new_lock|apply lookup_insert_eq|done|lia|done..|].
  intros s1 Hv1. apply runs_bind, (r_free_held o [] p (core c) _ s1 _ Hv1). intros s2 Hv2. apply runs_ret.
  split; [done|]. split; [by rewrite Hr|]. exists (set_lf_start (- 2 ^ 63) r). split; [done|]. intros b Hb.
  exists (set_lf_start (- 2 ^ 63) r). split; [by left|]. split; [done|]. split; [done|]. unfold covers. cbn. lia.
Qed.

(** * Deadlocks *)

(** The owner of the lock that a sleeping request waits for, when that lock is one of a process. *)
Definition blocked_by (h : gmap Z lockf) (uu_wchan : Z) : option Z :=
  w ← h !! uu_wchan;
  if lf_next w =? 0 then None
  else b ← h !! lf_next w; if truth (lf_flags b &&& F_POSIX) then Some (lf_id b) else None.

(** A thread that sleeps in this code sleeps on a request. *)
Definition sleeps_on (h : gmap Z lockf) (uu_wchan : Z) : Prop :=
  ∃ w, h !! uu_wchan = Some w /\ (lf_next w = 0 \/ is_Some (h !! lf_next w)).

Lemma thread_waits_runs id u s (Q : bool * nat -> files O -> Prop) : sleeps_on (heap s) u -> ∀ fuel depth,
  (maxlockdepth < fuel + depth)%nat -> (0 < fuel)%nat ->
  Q (if (depth <? maxlockdepth)%nat then
       match blocked_by (heap s) u with
       | None => (false, S depth)
       | Some id' => if id' =? id then (true, S depth) else (false, S maxlockdepth)
       end
     else (false, S depth)) s ->
  runs (thread_waits_for fuel u id depth) Q s.
Proof.
  intros (w & Hw & Hn) fuel. induction fuel as [|fuel IH]; intros depth Hf Hpos HQ; [lia|]. cbn [thread_waits_for].
  revert HQ. destruct (Nat.ltb_spec depth maxlockdepth) as [Hlt|]; intros HQ; [|by apply runs_ret].
  apply runs_bind, (r_load u w); [done|]. unfold blocked_by in *. rewrite Hw in HQ, IH. cbn [mbind option_bind] in HQ, IH.
  destruct (Z.eqb_spec (lf_next w) 0) as [E|E]; [by apply runs_ret|].
  destruct Hn as [?|[b Hb]]; [done|]. apply runs_bind, (r_load _ b); [done|].
  rewrite Hb in HQ, IH. cbn [mbind option_bind] in HQ, IH. destruct (truth _) eqn:Ep; [|by apply runs_ret].
  cbn [negb]. destruct (Z.eqb_spec (lf_id b) id) as [Ei|Ei]; [by apply runs_ret|].
  apply IH; [lia|lia|]. destruct (Nat.ltb_spec (S depth) maxlockdepth); [done|].
  by replace (S depth) with maxlockdepth by lia.
Qed.

Lemma deadlock_runs id s (Q : bool -> files O -> Prop) : ∀ threads depth,
  (∀ u, Some u ∈ threads -> sleeps_on (heap s) u) ->
  Q (bool_decide (head (omap (blocked_by (heap s)) (take (maxlockdepth - depth) (omap (λ t, t) threads))) = Some id)) s ->
  runs (deadlock_loop threads id depth) Q s.
Proof.
  induction threads as [|[u|] threads IH]; intros depth Hs HQ; cbn [deadlock_loop].
  - cbn in HQ. rewrite take_nil in HQ. by apply runs_ret.
  - apply runs_bind, (thread_waits_runs id u s); [apply Hs; by left|lia|lia|].
    assert (Hs' : ∀ u0, Some u0 ∈ threads -> sleeps_on (heap s) u0) by (intros; apply Hs; by right).
    cbn [omap list_omap] in HQ. destruct (Nat.ltb_spec depth maxlockdepth) as [Hlt|Hge].
    + replace (maxlockdepth - depth)%nat with (S (maxlockdepth - S depth)) in HQ by lia. cbn [take omap list_omap] in HQ.
      destruct (blocked_by (heap s) u) as [id'|]; [|by apply IH].
      cbn [head] in HQ. destruct (Z.eqb_spec id' id) as [->|Hne].
      * apply runs_ret. by rewrite bool_decide_eq_true_2 in HQ.
      * rewrite bool_decide_eq_false_2 in HQ by congruence. apply IH; [done|].
        by replace (maxlockdepth - S maxlockdepth)%nat with 0%nat by lia.
    + replace (maxlockdepth - depth)%nat with 0%nat in HQ by lia. apply IH; [done|].
      by replace (maxlockdepth - S depth)%nat with 0%nat by lia.
  - apply IH; [intros; apply Hs; by right|done].
Qed.

(** The search of [lf_setlock] finds a deadlock. *)
Definition deadlock_found (h : gmap Z lockf) (threads : list (option Z)) (id : Z) : bool :=
  bool_decide (head (omap (blocked_by h) (take maxlockdepth (omap (λ t, t) threads))) = Some id).

(** C35 (equivalence): the search for deadlocks, over the threads of the process that holds the
    blocking lock, answers for every state whether the first of the (at most 50) sleeping threads
    that waits for a lock of a process waits for one of the owner of the request: no longer
    cycle, and no later thread. *)
Theorem deadlock_search threads id s : (∀ u, Some u ∈ threads -> sleeps_on (heap s) u) ->
  runs (deadlock_loop threads id 0) (λ found s', found = deadlock_found (heap s) threads id /\ s' = s) s.
Proof. intros H. apply deadlock_runs; [done|]. by rewrite Nat.sub_0_r. Qed.

End operations.

(** * Examples *)

(** An allocator, and a file system without other threads. *)
Definition first_free (s : files ()) : option Z := Some (1 + map_fold (λ k _ m, Z.max (Z.abs k) m) 0 (heap s)).
Definition sleepless (_ : Z) (s : files ()) : Z * files () := (EINTR, s).
Definition no_threads (_ : files ()) (_ : Z) : list (option Z) := [].
Definition pid_of (id : Z) : Z := id.

Lemma bound_of_keys (h : gmap Z lockf) k : is_Some (h !! k) -> Z.abs k <= map_fold (λ k _ m, Z.max (Z.abs k) m) 0 h.
Proof.
  apply (map_fold_weak_ind (λ m (h : gmap Z lockf), is_Some (h !! k) -> Z.abs k <= m)).
  - by rewrite lookup_empty; intros [].
  - intros i x m r _ IH. destruct (decide (i = k)) as [->|Hne]; [lia|]. rewrite lookup_insert_ne by done.
    intros H%IH. lia.
Qed.

Lemma first_free_ok s p : first_free s = Some p -> p <> 0 /\ heap s !! p = None.
Proof.
  intros [= <-]. assert (H0 : 0 <= map_fold (λ k (_ : lockf) m, Z.max (Z.abs k) m) 0 (heap s)).
  { apply (map_fold_weak_ind (λ m (_ : gmap Z lockf), 0 <= m)); intros; lia. }
  split; [lia|]. destruct (heap s !! _) as [u|] eqn:E; [|done]. exfalso.
  pose proof (bound_of_keys (heap s) _ ltac:(by exists u)). lia.
Qed.

Definition no_locks : files () := Files 0 ∅ [] ().

Lemma listed_no_locks : listed () [] no_locks.
Proof.
  split; [split; try done|done|constructor|].
  - intros x r Hx%elem_of_nil. done.
  - constructor.
  - intros w (x & k & Hk & _). cbn in Hk. by rewrite lookup_empty in Hk.
  - intros id id' t b _ (r & Hr & _). by apply elem_of_nil in Hr.
Qed.

(** Owner 1 has bytes 0 to 99 exclusively, then reads 10 to 19 only; owner 2 reads 10 to 19, is
    refused bytes 15 to 29 for writing, and clears the rest. *)
Definition requests : list request :=
  [Request 0 1 F_SETLK F_POSIX (Flock 0 100 0 F_WRLCK SEEK_SET);
   Request 0 1 F_SETLK F_POSIX (Flock 10 10 0 F_RDLCK SEEK_SET);
   Request 0 2 F_SETLK F_POSIX (Flock 10 10 0 F_RDLCK SEEK_SET);
   Request 0 2 F_SETLK F_POSIX (Flock 15 15 0 F_WRLCK SEEK_SET);
   Request 0 2 F_UNLCK F_POSIX (Flock 0 0 0 F_UNLCK SEEK_SET);
   Request 0 3 F_GETLK F_POSIX (Flock 50 0 0 F_RDLCK SEEK_END);
   Request 0 3 F_SETLK F_POSIX (Flock (-1) 0 0 F_RDLCK SEEK_SET)].

Lemma requests_ok : Forall request_ok requests.
Proof. repeat constructor; try done; unfold off_t, OFF_MAX; cbn; lia. Qed.

Lemma serve_keeps_exclusion_witness : listed () [] no_locks /\ Forall request_ok requests /\
  (fst <$> serve first_free no_threads sleepless pid_of requests no_locks) = Some [0; 0; 0; EAGAIN; 0; 0; EINVAL] /\
  runs (serve first_free no_threads sleepless pid_of requests)
    (λ errors s', length errors = length requests /\ ∃ L', listed () L' s') no_locks.
Proof.
  split; [apply listed_no_locks|]. split; [apply requests_ok|]. split; [vm_compute; reflexivity|].
  eapply (serve_keeps_exclusion () first_free no_threads sleepless pid_of first_free_ok requests []);
    [apply listed_no_locks|apply requests_ok].
Defined.


(** Owner 1 reads bytes 0 to 9, owner 2 bytes 5 to 7. *)
Definition lock_a := Lock F_POSIX F_RDLCK 0 9 1 2 [].
Definition lock_b := Lock F_POSIX F_RDLCK 5 7 2 0 [].
Definition two_readers : files () := Files 1 (<[1 := lock_a]> (<[2 := lock_b]> ∅)) [] ().
Definition two_rows : rows := [(1, core lock_a); (2, core lock_b)].

Ltac decided := match goal with |- ?P => apply (bool_decide_unpack P); vm_compute; exact I end.

Lemma no_waiters (h : gmap Z lockf) L : map_Forall (λ _ k, lf_blkhd k = []) h -> queue_ok h L.
Proof. intros H w (x & k & Hk & Hw). rewrite (H x k Hk) in Hw. by apply elem_of_nil in Hw. Qed.

Lemma listed_two_readers : listed () two_rows two_readers.
Proof.
  split; [split; [| | | |done]| | |].
  - cbn. split; [done|]. split; [done|]. exists lock_a. do 2 (split; [done|]). split; [done|]. split; [done|].
    by exists lock_b.
  - by intros x r Hx%elem_of_nil.
  - decided.
  - apply no_waiters. decided.
  - do 2 (apply Forall_cons; split; [split; cbn; unfold OFF_MAX; lia|]). apply Forall_nil_2.
  - apply ordered_cons. split; [repeat constructor|]. by intros q ->%list_elem_of_singleton E.
  - intros id id' t b _ (r & Hr & _ & Ht & _). exfalso.
    apply elem_of_cons in Hr as [->|Hr]; [done|]. by apply list_elem_of_singleton in Hr as ->.
Qed.

Lemma advlock_set_witness : listed () two_rows two_readers /\
  (fst <$> (fst <$> lf_advlock first_free no_threads sleepless pid_of 1 (inr 0) 3 F_SETLK F_POSIX (Flock 7 2 0 F_WRLCK SEEK_SET) two_readers)) = Some EAGAIN /\
  runs (lf_advlock first_free no_threads sleepless pid_of 1 (inr 0) 3 F_SETLK F_POSIX (Flock 7 2 0 F_WRLCK SEEK_SET))
    (λ r s', r.2 = Flock 7 2 0 F_WRLCK SEEK_SET /\
      ((range_fits 0 (Flock 7 2 0 F_WRLCK SEEK_SET) /\
        set_outcome () first_free (request_lock 3 F_POSIX 0 (Flock 7 2 0 F_WRLCK SEEK_SET)) two_rows r.1 s') \/
       bad_range 0 (Flock 7 2 0 F_WRLCK SEEK_SET) two_readers r.1 s')) two_readers.
Proof.
  split; [apply listed_two_readers|]. split; [vm_compute; reflexivity|].
  apply (advlock_set () first_free no_threads sleepless pid_of first_free_ok 0 0 3 F_POSIX (Flock 7 2 0 F_WRLCK SEEK_SET) two_rows);
    [apply listed_two_readers|unfold OFF_MAX; lia|unfold off_t; cbn; lia..|done|done].
Defined.

Lemma advlock_clear_witness : listed () two_rows two_readers /\
  (fst <$> (fst <$> lf_advlock first_free no_threads sleepless pid_of 0 (inr 0) 1 F_UNLCK F_POSIX (Flock 3 2 0 F_UNLCK SEEK_SET) two_readers)) = Some 0 /\
  runs (lf_advlock first_free no_threads sleepless pid_of 0 (inr 0) 1 F_UNLCK F_POSIX (Flock 3 2 0 F_UNLCK SEEK_SET))
    (λ r s', (two_rows = [] /\ r.1 = 0 /\ s' = two_readers) \/
      (range_fits 0 (Flock 3 2 0 F_UNLCK SEEK_SET) /\
        clear_outcome () first_free (request_lock 1 F_POSIX 0 (Flock 3 2 0 F_UNLCK SEEK_SET)) two_rows r.1 s') \/
       bad_range 0 (Flock 3 2 0 F_UNLCK SEEK_SET) two_readers r.1 s') two_readers.
Proof.
  split; [apply listed_two_readers|]. split; [vm_compute; reflexivity|].
  apply (advlock_clear () first_free no_threads sleepless pid_of first_free_ok 0 0 1 F_POSIX (Flock 3 2 0 F_UNLCK SEEK_SET) two_rows);
    [apply listed_two_readers|unfold OFF_MAX; lia|unfold off_t; cbn; lia..|done].
Defined.

Lemma advlock_get_witness : listed () two_rows two_readers /\
  (snd <$> (fst <$> lf_advlock first_free no_threads sleepless pid_of 0 (inr 0) 3 F_GETLK F_POSIX (Flock 6 0 0 F_WRLCK SEEK_SET) two_readers))
    = Some (Flock 0 10 1 F_RDLCK SEEK_SET) /\
  runs (lf_advlock first_free no_threads sleepless pid_of 0 (inr 0) 3 F_GETLK F_POSIX (Flock 6 0 0 F_WRLCK SEEK_SET))
    (λ r s', (r.1 = 0 /\ listed () two_rows s' /\
        get_outcome pid_of (Flock 6 0 0 F_WRLCK SEEK_SET) (request_lock 3 F_POSIX 0 (Flock 6 0 0 F_WRLCK SEEK_SET)) two_rows two_readers r.2) \/
      (r.2 = Flock 6 0 0 F_WRLCK SEEK_SET /\
        (bad_range 0 (Flock 6 0 0 F_WRLCK SEEK_SET) two_readers r.1 s' \/ no_memory () first_free two_rows r.1 s'))) two_readers.
Proof.
  split; [apply listed_two_readers|]. split; [vm_compute; reflexivity|].
  apply (advlock_get () first_free no_threads sleepless pid_of first_free_ok 0 0 3 F_POSIX (Flock 6 0 0 F_WRLCK SEEK_SET) two_rows);
    [apply listed_two_readers|unfold OFF_MAX; lia|unfold off_t; cbn; lia..|done].
Defined.

Lemma lock_range_exact_witness : 0 <= 100 <= OFF_MAX /\ off_t (-20) /\ off_t (-30) /\
  lock_range (inr 100) (Flock (-20) (-30) 0 F_RDLCK SEEK_END) = inr (50, 79) /\
  match lock_range (inr 100) (Flock (-20) (-30) 0 F_RDLCK SEEK_END) with
  | inr r => range_fits 100 (Flock (-20) (-30) 0 F_RDLCK SEEK_END) /\ r = range_of 100 (Flock (-20) (-30) 0 F_RDLCK SEEK_END)
  | inl e => ~ range_fits 100 (Flock (-20) (-30) 0 F_RDLCK SEEK_END) /\ (e = EINVAL \/ e = EOVERFLOW)
  end.
Proof.
  assert (H1 : 0 <= 100 <= OFF_MAX) by (unfold OFF_MAX; lia). assert (H2 : off_t (-20) /\ off_t (-30)) by (unfold off_t; lia).
  split; [exact H1|]. split; [apply H2|]. split; [apply H2|]. split; [vm_compute; reflexivity|].
  apply (lock_range_exact 100 (Flock (-20) (-30) 0 F_RDLCK SEEK_END)); [exact H1|apply H2|apply H2].
Defined.

(** Owner 1 has just been granted bytes 10 to 19 next to his bytes 0 to 9. *)
Definition lock_c := Lock F_POSIX F_RDLCK 10 19 1 0 [].
Definition before_joining : files () :=
  Files 1 (<[1 := lock_a]> (<[2 := set_lf_next 3 lock_b]> (<[3 := lock_c]> ∅))) [] ().

Lemma coelesce_drops_between_witness :
  view () [] [(1, core lock_a); (2, core lock_b); (3, core lock_c)] before_joining /\
  runs (lf_coelesce_adjacent 3) (λ _ s', view () [] [(3, joined (core lock_a) (core lock_c))] s' /\
    ∀ id t b, id <> 1 -> ~ locked [joined (core lock_a) (core lock_c)] id t b) before_joining.
Proof.
  assert (Hv : view () [] [(1, core lock_a); (2, core lock_b); (3, core lock_c)] before_joining).
  { split; [| | | |done].
    - cbn. split; [done|]. split; [done|]. exists lock_a. do 2 (split; [done|]). split; [done|]. split; [done|].
      exists (set_lf_next 3 lock_b). do 2 (split; [done|]). split; [done|]. split; [done|]. by exists lock_c.
    - by intros x r Hx%elem_of_nil.
    - decided.
    - apply no_waiters. decided. }
  split; [exact Hv|].
  apply (coelesce_drops_between () [] 1 (core lock_a) [(2, core lock_b)] 3 (core lock_c) before_joining Hv);
    [split; cbn; unfold OFF_MAX; lia|done..].
Defined.

(** The same with requests: owner 2 still counts on his bytes 5 to 7 when owner 3 is granted all
    bytes for writing. *)
Example writer_beside_reader :
  fst <$> serve first_free no_threads sleepless pid_of
    [Request 0 1 F_SETLK F_POSIX (Flock 0 10 0 F_RDLCK SEEK_SET);
     Request 0 2 F_SETLK F_POSIX (Flock 5 3 0 F_RDLCK SEEK_SET);
     Request 0 1 F_SETLK F_POSIX (Flock 10 10 0 F_RDLCK SEEK_SET);
     Request 0 1 F_UNLCK F_POSIX (Flock 0 0 0 F_UNLCK SEEK_SET);
     Request 0 3 F_SETLK F_POSIX (Flock 0 0 0 F_WRLCK SEEK_SET)] no_locks = Some [0; 0; 0; 0; 0].
Proof. vm_compute. reflexivity. Qed.

Definition from_five := Lock F_POSIX F_WRLCK 5 (-1) 1 0 [].
Definition one_writer : files () := Files 1 (<[1 := from_five]> ∅) [] ().

Lemma unlock_to_last_offset_witness : view () [] [(1, core from_five)] one_writer /\
  runs (lf_advlock first_free no_threads sleepless pid_of 0 (inr 0) 1 F_UNLCK F_POSIX (Flock 5 (OFF_MAX - 4) 0 F_UNLCK SEEK_SET))
    (λ res s', res.1 = 0 /\ (range_of 0 (Flock 5 (OFF_MAX - 4) 0 F_UNLCK SEEK_SET)).2 = OFF_MAX /\
      ∃ r', view () [] [(1, r')] s' /\ ∀ b, 0 <= b -> locked [r'] 1 F_WRLCK b) one_writer.
Proof.
  assert (Hv : view () [] [(1, core from_five)] one_writer).
  { split; [| | | |done].
    - cbn. split; [done|]. split; [done|]. by exists from_five.
    - by intros x r Hx%elem_of_nil.
    - decided.
    - apply no_waiters. decided. }
  split; [exact Hv|].
  apply (unlock_to_last_offset () first_free no_threads sleepless pid_of first_free_ok 0 0 F_POSIX
    (Flock 5 (OFF_MAX - 4) 0 F_UNLCK SEEK_SET) 1 (core from_five) one_writer 2 Hv); try done; unfold OFF_MAX; cbn; lia.
Defined.

(** Process 1 wants a lock of process 2, which waits for one of process 3, which waits for one of
    process 1: three processes wait for each other, and none is told. *)
Definition in_a_circle : files () :=
  Files 10 (<[10 := Lock F_POSIX F_WRLCK 0 9 1 20 [31]]> (<[20 := Lock F_POSIX F_WRLCK 10 19 2 30 []]>
    (<[30 := Lock F_POSIX F_WRLCK 20 29 3 0 [23]]> (<[23 := Lock F_POSIX F_WRLCK 20 29 2 30 []]>
    (<[31 := Lock F_POSIX F_WRLCK 0 9 3 10 []]> ∅))))) [] ().

Lemma deadlock_search_witness :
  blocked_by (heap in_a_circle) 23 = Some 3 /\ blocked_by (heap in_a_circle) 31 = Some 1 /\
  deadlock_loop [Some 23] 1 0 in_a_circle = Some (false, in_a_circle) /\
  runs (deadlock_loop [Some 23] 1 0) (λ found s', found = deadlock_found (heap in_a_circle) [Some 23] 1 /\ s' = in_a_circle)
    in_a_circle.
Proof.
  split; [vm_compute; reflexivity|]. split; [vm_compute; reflexivity|]. split; [vm_compute; reflexivity|].
  apply (deadlock_search [Some 23] 1 in_a_circle). intros u Hu. apply list_elem_of_singleton in Hu. injection Hu as ->.
  exists (Lock F_POSIX F_WRLCK 20 29 2 30 []). split; [vm_compute; reflexivity|]. right. eexists. vm_compute. reflexivity.
Defined.

(** While owner 2 waits for bytes that owner 1 has, owner 1 extends his lock, and a signal then
    wakes owner 2.  The lock that owner 2 waited for has been joined to the new one and freed:
    taking the request out of its queue uses freed memory. *)
Definition extended_and_interrupted (_ : Z) (s : files ()) : Z * files () :=
  match serve first_free no_threads sleepless pid_of
    [Request 0 1 F_SETLK F_POSIX (Flock 10 10 0 F_WRLCK SEEK_SET)] s with
  | Some (_, s') => (EINTR, s')
  | None => (EINTR, s)
  end.

Example interrupted_waiter_uses_freed_lock :
  match lf_advlock first_free no_threads sleepless pid_of 1 (inr 0) 1 F_SETLK F_POSIX
    (Flock 0 10 0 F_WRLCK SEEK_SET) no_locks with
  | Some (_, s) => lf_advlock first_free no_threads extended_and_interrupted pid_of 1 (inr 0) 2 F_SETLK (F_POSIX ||| F_WAIT)
      (Flock 0 10 0 F_WRLCK SEEK_SET) s
  | None => Some ((0, Flock 0 0 0 0 0), no_locks)
  end = None.
Proof. vm_compute. reflexivity. Qed.

(** The same signal, when owner 1 did nothing meanwhile, ends the request with [EINTR]. *)
Example interrupted_waiter_leaves :
  match lf_advlock first_free no_threads sleepless pid_of 1 (inr 0) 1 F_SETLK F_POSIX
    (Flock 0 10 0 F_WRLCK SEEK_SET) no_locks with
  | Some (_, s) => (λ '(r, s'), (r.1, v_lockf s', heap s')) <$> lf_advlock first_free no_threads sleepless pid_of 1 (inr 0) 2
      F_SETLK (F_POSIX ||| F_WAIT) (Flock 0 10 0 F_WRLCK SEEK_SET) s
  | None => None
  end = Some (EINTR, 1, <[1 := Lock F_POSIX F_WRLCK 0 9 1 0 []]> ∅).
Proof. vm_compute. reflexivity. Qed.
End LockfMain.
