(* ===== verification/Volume.v ===== *)
(** The allocation bitmap of an HFS volume, bsd/hfs/hfscommon/Misc/VolumeAllocation.c: marking
    runs of blocks, testing them, searching for free ones, and the cache of free extents.

    A bitmap block is a list of 32-bit words as they are in memory, big-endian, in the buffer
    cache; a block is read before and released after its use, and using it at another time stops
    the machine.  The errors of reading are a parameter.  [calls] records the calls to the
    journal, the disk and the file system that have no answer. *)

From S2P Require Import Prelude.

Module Volume.

Definition EIO : Z := 5.
Definition dskFulErr : Z := -34.

Definition kBitsPerByte : Z := 8.
Definition kBytesPerWord : Z := 4.
Definition kBitsPerWord : Z := 32.
Definition kHighBitInWordMask : Z := 0x80000000.
Definition kAllBitsSetInWord : Z := 0xFFFFFFFF.
Definition kMaxFreeExtents : nat := 10.

Definition kHFSPlusSigWord : Z := 0x482B.
Definition HFS_METADATA_ZONE : Z := 0x00080.
Definition HFS_HAS_SPARSE_DEVICE : Z := 0x00400.
Definition HFS_SKIP_UPDATE_NEXT_ALLOCATION : Z := 0x04000.

Definition SWAP_BE32 : Z -> Z := swap32.
(** [~] of a [u_int32_t]. *)
Definition lnot32 (z : Z) : Z := Z.lxor z kAllBitsSetInWord.

Inductive call :=
  | JournalStart (block : Z)
  | JournalEnd (block : Z)
  | Bdwrite (block : Z)
  | Brelse (block : Z)
  | Discard (offset length : Z)
  | MarkInconsistent
  | VolumeNotifications.

(** A free extent (bsd/hfs/hfs_format.h, 188-191). *)
Record HFSPlusExtentDescriptor := Extent { startBlock : Z; blockCount : Z }.

#[global] Instance extent_eq_dec : EqDecision HFSPlusExtentDescriptor.
Proof. solve_decision. Defined.

(** What of [hfsmount] the allocator uses; [bitmap] holds the bitmap blocks, [held] those that
    were read and not released, [unsaved] those changed since they were last released dirty. *)
Record hfsmount := Hfs {
  vcbSigWord : Z; vcbVBMIOSize : Z; vcbVBMSt : Z;
  blockSize : Z; totalBlocks : Z; allocLimit : Z;
  hfs_flags : Z; hfs_metazone_start : Z; hfs_metazone_end : Z; jnl : bool;
  loanedBlocks : Z;
  freeBlocks : Z; nextAllocation : Z; sparseAllocation : Z; hfs_freed_block_count : Z;
  vcbFreeExtCnt : nat; vcbFreeExt : list HFSPlusExtentDescriptor;
  bitmap : gmap Z (list Z); held : list Z; unsaved : list Z; calls : list call }.

Definition set_bitmap v s := Hfs (vcbSigWord s) (vcbVBMIOSize s) (vcbVBMSt s) (blockSize s) (totalBlocks s) (allocLimit s) (hfs_flags s) (hfs_metazone_start s) (hfs_metazone_end s) (jnl s) (loanedBlocks s) (freeBlocks s) (nextAllocation s) (sparseAllocation s) (hfs_freed_block_count s) (vcbFreeExtCnt s) (vcbFreeExt s) v (held s) (unsaved s) (calls s).
Definition set_held v s := Hfs (vcbSigWord s) (vcbVBMIOSize s) (vcbVBMSt s) (blockSize s) (totalBlocks s) (allocLimit s) (hfs_flags s) (hfs_metazone_start s) (hfs_metazone_end s) (jnl s) (loanedBlocks s) (freeBlocks s) (nextAllocation s) (sparseAllocation s) (hfs_freed_block_count s) (vcbFreeExtCnt s) (vcbFreeExt s) (bitmap s) v (unsaved s) (calls s).
Definition set_unsaved v s := Hfs (vcbSigWord s) (vcbVBMIOSize s) (vcbVBMSt s) (blockSize s) (totalBlocks s) (allocLimit s) (hfs_flags s) (hfs_metazone_start s) (hfs_metazone_end s) (jnl s) (loanedBlocks s) (freeBlocks s) (nextAllocation s) (sparseAllocation s) (hfs_freed_block_count s) (vcbFreeExtCnt s) (vcbFreeExt s) (bitmap s) (held s) v (calls s).
Definition set_calls v s := Hfs (vcbSigWord s) (vcbVBMIOSize s) (vcbVBMSt s) (blockSize s) (totalBlocks s) (allocLimit s) (hfs_flags s) (hfs_metazone_start s) (hfs_metazone_end s) (jnl s) (loanedBlocks s) (freeBlocks s) (nextAllocation s) (sparseAllocation s) (hfs_freed_block_count s) (vcbFreeExtCnt s) (vcbFreeExt s) (bitmap s) (held s) (unsaved s) v.
Definition set_freeBlocks v s := Hfs (vcbSigWord s) (vcbVBMIOSize s) (vcbVBMSt s) (blockSize s) (totalBlocks s) (allocLimit s) (hfs_flags s) (hfs_metazone_start s) (hfs_metazone_end s) (jnl s) (loanedBlocks s) v (nextAllocation s) (sparseAllocation s) (hfs_freed_block_count s) (vcbFreeExtCnt s) (vcbFreeExt s) (bitmap s) (held s) (unsaved s) (calls s).
Definition set_nextAllocation v s := Hfs (vcbSigWord s) (vcbVBMIOSize s) (vcbVBMSt s) (blockSize s) (totalBlocks s) (allocLimit s) (hfs_flags s) (hfs_metazone_start s) (hfs_metazone_end s) (jnl s) (loanedBlocks s) (freeBlocks s) v (sparseAllocation s) (hfs_freed_block_count s) (vcbFreeExtCnt s) (vcbFreeExt s) (bitmap s) (held s) (unsaved s) (calls s).
Definition set_sparseAllocation v s := Hfs (vcbSigWord s) (vcbVBMIOSize s) (vcbVBMSt s) (blockSize s) (totalBlocks s) (allocLimit s) (hfs_flags s) (hfs_metazone_start s) (hfs_metazone_end s) (jnl s) (loanedBlocks s) (freeBlocks s) (nextAllocation s) v (hfs_freed_block_count s) (vcbFreeExtCnt s) (vcbFreeExt s) (bitmap s) (held s) (unsaved s) (calls s).
Definition set_hfs_freed_block_count v s := Hfs (vcbSigWord s) (vcbVBMIOSize s) (vcbVBMSt s) (blockSize s) (totalBlocks s) (allocLimit s) (hfs_flags s) (hfs_metazone_start s) (hfs_metazone_end s) (jnl s) (loanedBlocks s) (freeBlocks s) (nextAllocation s) (sparseAllocation s) v (vcbFreeExtCnt s) (vcbFreeExt s) (bitmap s) (held s) (unsaved s) (calls s).
Definition set_vcbFreeExt n v s := Hfs (vcbSigWord s) (vcbVBMIOSize s) (vcbVBMSt s) (blockSize s) (totalBlocks s) (allocLimit s) (hfs_flags s) (hfs_metazone_start s) (hfs_metazone_end s) (jnl s) (loanedBlocks s) (freeBlocks s) (nextAllocation s) (sparseAllocation s) (hfs_freed_block_count s) n v (bitmap s) (held s) (unsaved s) (calls s).

Abbreviation K := (kern hfsmount).

Definition emit (c : call) : K unit := modify (λ s, set_calls (calls s ++ [c]) s).

Section volume.
(** [buf_meta_bread]: the error of reading a block, 0 for none. *)
Context (bread : hfsmount -> Z -> Z).
(** What the file system behind a sparse device can take, after loans and limits. *)
Context (backing : hfsmount -> option Z).

(** ** Bitmap blocks *)

(** [ReadBitmapBlock]: an error, or the block, that is now held
    (bsd/hfs/hfscommon/Misc/VolumeAllocation.c, 622-664). *)
Definition ReadBitmapBlock (bit : Z) : K (Z + Z) :=
  blockSize ← gets vcbVBMIOSize;
  plus ← gets (λ s, vcbSigWord s =? kHFSPlusSigWord);
  st ← gets vcbVBMSt;
  let block := bit / u32 (blockSize * kBitsPerByte) + (if (plus : bool) then 0 else st) in
  err ← gets (λ s, bread s block);
  if negb (err =? 0) then emit (Brelse block);; mret (inl err)
  else modify (λ s, set_held (block :: held s) s);; mret (inr block).

Definition journal_modify_block_start (ref : Z) : K unit :=
  j ← gets jnl; if (j : bool) then emit (JournalStart ref) else mret tt.

(** [ReleaseBitmapBlock] (bsd/hfs/hfscommon/Misc/VolumeAllocation.c, 680-709). *)
Definition ReleaseBitmapBlock (ref : Z) (dirty : bool) : K Z :=
  h ← gets held;
  assert_ (bool_decide (ref ∈ h));;
  modify (λ s, set_held (filter (λ r, r <> ref) (held s)) s);;
  (if dirty then
     modify (λ s, set_unsaved (filter (λ r, r <> ref) (unsaved s)) s);;
     j ← gets jnl;
     emit (if (j : bool) then JournalEnd ref else Bdwrite ref)
   else emit (Brelse ref));;
  mret 0.

(** The word [i] of a held block. *)
Definition word (ref i : Z) : K Z :=
  h ← gets held;
  assert_ (bool_decide (ref ∈ h) && (0 <=? i));;
  deref (λ s, bitmap s !! ref ≫= (.!! Z.to_nat i)).
Definition set_word (ref i w : Z) : K unit :=
  _ ← word ref i;
  modify (λ s, set_unsaved (ref :: unsaved s)
    (set_bitmap (alter (<[Z.to_nat i := w]>) ref (bitmap s)) s)).

(** [NextBitmapBlock] (bsd/hfs/hfscommon/Misc/VolumeAllocation.c, 586-602). *)
Definition NextBitmapBlock (bit : Z) : K Z :=
  s ← gets id;
  mret (if negb (truth (hfs_flags s &&& HFS_METADATA_ZONE)) then bit
        else if (hfs_metazone_start s <=? bit) && (bit <=? hfs_metazone_end s)
        then u32 (hfs_metazone_end s + 1) else bit).

(** ** Runs of blocks *)

(** A word of a held block and the number of words from it to the end of the block. *)
Record position := Pos { p_ref : Z; p_index : Z; p_left : Z }.

Definition step (p : position) : position := Pos (p_ref p) (p_index p + 1) (u32 (p_left p - 1)).

(** [BlockMarkAllocated], the word of a block (bsd/hfs/hfscommon/Misc/VolumeAllocation.c, 1173-1182). *)
Definition position_of (ref startingBlock : Z) : K position :=
  size ← gets vcbVBMIOSize;
  let bitsPerBlock := u32 (size * kBitsPerByte) in
  let wordsPerBlock := size / kBytesPerWord in
  let wordIndexInBlock := (startingBlock &&& u32 (bitsPerBlock - 1)) / kBitsPerWord in
  mret (Pos ref wordIndexInBlock (u32 (wordsPerBlock - wordIndexInBlock))).

(** [BlockMarkAllocated], the bits of a run in its first word, and their number
    (bsd/hfs/hfscommon/Misc/VolumeAllocation.c, 1197-1202). *)
Definition first_mask (firstBit numBlocks : Z) : Z * Z :=
  let bitMask := Z.shiftr kAllBitsSetInWord firstBit in
  let numBits := kBitsPerWord - firstBit in
  if numBlocks <? numBits
  then (bitMask &&& lnot32 (Z.shiftr kAllBitsSetInWord (firstBit + numBlocks)), numBlocks)
  else (bitMask, numBits).

(** The walk over the words of a run that [BlockMarkAllocated], [BlockMarkFree] and
    [hfs_isallocated] have in common: [partial] is what they do with some bits of a word and
    [whole] with all of them; an answer of false ends the walk.  The block that is held at the end
    is returned. *)
Section walk.
Context (partial : Z -> Z -> Z -> K bool) (whole : Z -> Z -> K bool) (dirty : bool).

(** [BlockMarkAllocated], the next bitmap block, when the words of this one are used up
    (bsd/hfs/hfscommon/Misc/VolumeAllocation.c, 1223-1240). *)
Definition next_block (startingBlock : Z) (p : position) : K (Z + Z * position) :=
  if p_left p =? 0 then
    size ← gets vcbVBMIOSize;
    let startingBlock := u32 (startingBlock + u32 (size * kBitsPerByte)) in
    err ← ReleaseBitmapBlock (p_ref p) dirty;
    if negb (err =? 0) then mret (inl err)
    else
      r ← ReadBitmapBlock startingBlock;
      match r with
      | inl err => mret (inl err)
      | inr ref =>
          (if dirty then journal_modify_block_start ref else mret tt);;
          mret (inr (startingBlock, Pos ref 0 (size / kBytesPerWord)))
      end
  else mret (inr (startingBlock, p)).

(** [BlockMarkAllocated], whole words (bsd/hfs/hfscommon/Misc/VolumeAllocation.c, 1220-1251). *)
Fixpoint whole_words (fuel : nat) (startingBlock : Z) (p : position) (numBlocks : Z)
    : K (Z + bool * Z * position * Z) :=
  match fuel with
  | 0%nat => panic
  | S fuel =>
      if numBlocks <? kBitsPerWord then mret (inr (true, startingBlock, p, numBlocks))
      else
        r ← next_block startingBlock p;
        match r with
        | inl err => mret (inl err)
        | inr (startingBlock, p) =>
            go ← whole (p_ref p) (p_index p);
            if (go : bool) then whole_words fuel startingBlock (step p) (numBlocks - kBitsPerWord)
            else mret (inr (false, startingBlock, p, numBlocks))
        end
  end.

(** [BlockMarkAllocated], the walk (bsd/hfs/hfscommon/Misc/VolumeAllocation.c, 1173-1287). *)
Definition walk_words (ref startingBlock numBlocks : Z) : K (Z + bool * Z) :=
  p ← position_of ref startingBlock;
  let firstBit := startingBlock mod kBitsPerWord in
  '(go, p, numBlocks) ← (if negb (firstBit =? 0) then
      let '(bitMask, numBits) := first_mask firstBit numBlocks in
      go ← partial (p_ref p) (p_index p) bitMask;
      mret (go, step p, numBlocks - numBits)
    else mret (true, p, numBlocks));
  if negb go then mret (inr (false, ref))
  else
    r ← whole_words (S (Z.to_nat numBlocks)) startingBlock p numBlocks;
    match r with
    | inl err => mret (inl err)
    | inr (go, startingBlock, p, numBlocks) =>
        if negb go then mret (inr (false, p_ref p))
        else if numBlocks =? 0 then mret (inr (true, p_ref p))
        else
          let bitMask := lnot32 (Z.shiftr kAllBitsSetInWord numBlocks) in
          r ← next_block startingBlock p;
          match r with
          | inl err => mret (inl err)
          | inr (_, p) => go ← partial (p_ref p) (p_index p) bitMask; mret (inr (go, p_ref p))
          end
    end.
End walk.

(** [BlockMarkAllocated], its words (bsd/hfs/hfscommon/Misc/VolumeAllocation.c, 1208-1208). *)
Definition mark_partial (ref i bitMask : Z) : K bool :=
  w ← word ref i; set_word ref i (w ||| SWAP_BE32 bitMask);; mret true.
Definition mark_whole (ref i : Z) : K bool :=
  set_word ref i (SWAP_BE32 kAllBitsSetInWord);; mret true.

(** [BlockMarkAllocated] (bsd/hfs/hfscommon/Misc/VolumeAllocation.c, 1145-1295). *)
Definition BlockMarkAllocated (startingBlock numBlocks : Z) : K Z :=
  r ← ReadBitmapBlock startingBlock;
  match r with
  | inl err => mret err
  | inr ref =>
      journal_modify_block_start ref;;
      r ← walk_words mark_partial mark_whole true ref startingBlock numBlocks;
      match r with
      | inl err => mret err
      | inr (_, ref) => ReleaseBitmapBlock ref true;; mret 0
      end
  end.

(** [BlockMarkFree], its words (bsd/hfs/hfscommon/Misc/VolumeAllocation.c, 1388-1391). *)
Definition free_partial (ref i bitMask : Z) : K bool :=
  w ← word ref i;
  if negb (w &&& SWAP_BE32 bitMask =? SWAP_BE32 bitMask) then mret false
  else set_word ref i (w &&& SWAP_BE32 (lnot32 bitMask));; mret true.
(** [BlockMarkFree], a whole word (bsd/hfs/hfscommon/Misc/VolumeAllocation.c, 1423-1426). *)
Definition free_whole (ref i : Z) : K bool :=
  w ← word ref i;
  if negb (w =? SWAP_BE32 kAllBitsSetInWord) then mret false
  else set_word ref i 0;; mret true.

(** [BlockMarkFree] (bsd/hfs/hfscommon/Misc/VolumeAllocation.c, 1314-1489). *)
Definition BlockMarkFree (startingBlock numBlocks : Z) : K Z :=
  total ← gets totalBlocks;
  if total <? u32 (startingBlock + numBlocks) then emit MarkInconsistent;; mret EIO
  else
    size ← gets blockSize;
    let discard := Discard (u64 (startingBlock * size)) (u64 (numBlocks * size)) in
    r ← ReadBitmapBlock startingBlock;
    match r with
    | inl err => mret err
    | inr ref =>
        journal_modify_block_start ref;;
        r ← walk_words free_partial free_whole true ref startingBlock numBlocks;
        match r with
        | inl err => mret err
        | inr (go, ref) =>
            (if negb go then emit MarkInconsistent else mret tt);;
            ReleaseBitmapBlock ref true;;
            if (go : bool) then emit discard;; mret 0 else mret EIO
        end
    end.

(** [hfs_isallocated], its words (bsd/hfs/hfscommon/Misc/VolumeAllocation.c, 1953-1956). *)
Definition test_partial (ref i bitMask : Z) : K bool :=
  w ← word ref i; mret (w &&& SWAP_BE32 bitMask =? 0).
(** [hfs_isallocated], a whole word (bsd/hfs/hfscommon/Misc/VolumeAllocation.c, 1981-1984). *)
Definition test_whole (ref i : Z) : K bool := w ← word ref i; mret (w =? 0).

(** [hfs_isallocated] (bsd/hfs/hfscommon/Misc/VolumeAllocation.c, 1907-2019). *)
Definition hfs_isallocated (startingBlock numBlocks : Z) : K Z :=
  r ← ReadBitmapBlock startingBlock;
  match r with
  | inl error => mret error
  | inr ref =>
      r ← walk_words test_partial test_whole false ref startingBlock numBlocks;
      match r with
      | inl _ => mret 0
      | inr (go, ref) => ReleaseBitmapBlock ref false;; mret (if (go : bool) then 0 else 1)
      end
  end.

(** The free bits of a nibble (bsd/hfs/hfscommon/Misc/VolumeAllocation.c, 522-525). *)
Definition freebitcount : list Z := [4; 3; 3; 2; 3; 2; 2; 1; 3; 2; 2; 1; 2; 1; 1; 0].

(** A byte of a held block, as it is in memory. *)
Definition byte (ref i : Z) : K Z :=
  w ← word ref (i / kBytesPerWord); mret (Z.shiftr w (kBitsPerByte * (i mod kBytesPerWord)) &&& 0xFF).

(** [MetaZoneFreeBlocks], the loop (bsd/hfs/hfscommon/Misc/VolumeAllocation.c, 554-574). *)
Fixpoint meta_loop (fuel : nat) (bit lastbit bytesleft : Z) (buffer : option (Z * Z)) (freeblocks : Z)
    : K (option (option (Z * Z) * Z)) :=
  match fuel with
  | 0%nat => panic
  | S fuel =>
      if bit <? lastbit then
        r ← (if bytesleft =? 0 then
               (match buffer with Some (ref, _) => _ ← ReleaseBitmapBlock ref false; mret tt | None => mret tt end);;
               r ← ReadBitmapBlock bit;
               match r with
               | inl _ => mret None
               | inr ref => size ← gets vcbVBMIOSize; mret (Some ((ref, 0), size))
               end
             else match buffer with Some b => mret (Some (b, bytesleft)) | None => panic end);
        match r with
        | None => mret None
        | Some ((ref, i), bytesleft) =>
            b ← byte ref i;
            lo ← deref (λ _, freebitcount !! Z.to_nat (b &&& 0x0F));
            hi ← deref (λ _, freebitcount !! Z.to_nat (Z.shiftr b 4 &&& 0x0F));
            meta_loop fuel (u32 (bit + kBitsPerByte)) lastbit (bytesleft - 1) (Some (ref, i + 1)) (u32 (freeblocks + lo + hi))
        end
      else mret (Some (buffer, freeblocks))
  end.

(** [MetaZoneFreeBlocks] (bsd/hfs/hfscommon/Misc/VolumeAllocation.c, 529-579). *)
Definition MetaZoneFreeBlocks : K Z :=
  start ← gets hfs_metazone_start;
  lastbit ← gets hfs_metazone_end;
  let bit := if start =? 1 then 0 else start in
  r ← meta_loop (S (Z.to_nat lastbit)) bit lastbit 0 None 0;
  match r with
  | None => mret 0
  | Some (buffer, freeblocks) =>
      (match buffer with Some (ref, _) => _ ← ReleaseBitmapBlock ref false; mret tt | None => mret tt end);;
      mret freeblocks
  end.

(** ** The first free blocks *)

Definition high_bit (block : Z) : Z := Z.shiftr kHighBitInWordMask (block &&& (kBitsPerWord - 1)).

(** [BlockAllocateAny], the search (bsd/hfs/hfscommon/Misc/VolumeAllocation.c, 872-909): an error,
    with no block held, or where it stands. *)
Fixpoint any_find (fuel : nat) (useMetaZone : bool) (endingBlock block : Z) (p : position) (currentWord bitMask : Z)
    : K (Z + Z * position * Z * Z) :=
  match fuel with
  | 0%nat => panic
  | S fuel =>
      if (block <? endingBlock) && negb (currentWord &&& bitMask =? 0) then
        let block := u32 (block + 1) in
        let bitMask := Z.shiftr bitMask 1 in
        if bitMask =? 0 then
          let p := step p in
          if p_left p =? 0 then
            err ← ReleaseBitmapBlock (p_ref p) false;
            if negb (err =? 0) then mret (inl err)
            else
              block ← (if useMetaZone then mret block else NextBitmapBlock block);
              if endingBlock <=? block then mret (inl dskFulErr)
              else
                r ← ReadBitmapBlock block;
                match r with
                | inl err => mret (inl err)
                | inr ref =>
                    size ← gets vcbVBMIOSize;
                    let p := Pos ref 0 (size / kBytesPerWord) in
                    w ← word ref 0;
                    any_find fuel useMetaZone endingBlock block p (SWAP_BE32 w) kHighBitInWordMask
                end
          else
            w ← word (p_ref p) (p_index p);
            any_find fuel useMetaZone endingBlock block p (SWAP_BE32 w) kHighBitInWordMask
        else any_find fuel useMetaZone endingBlock block p currentWord bitMask
      else mret (inr (block, p, currentWord, bitMask))
  end.

(** [BlockAllocateAny], allocating from the block found (bsd/hfs/hfscommon/Misc/VolumeAllocation.c,
    938-989): an error, or the block behind the last one, with the block of the bitmap that is
    held. *)
Fixpoint any_mark (fuel : nat) (useMetaZone : bool) (endingBlock block : Z) (p : position) (currentWord bitMask : Z)
    : K (Z + Z * option Z) :=
  let finish block currentWord :=
    set_word (p_ref p) (p_index p) (SWAP_BE32 currentWord);; mret (inr (block, Some (p_ref p))) in
  match fuel with
  | 0%nat => panic
  | S fuel =>
      if currentWord &&& bitMask =? 0 then
        let currentWord := currentWord ||| bitMask in
        let block := u32 (block + 1) in
        if block =? endingBlock then finish block currentWord
        else
          let bitMask := Z.shiftr bitMask 1 in
          if bitMask =? 0 then
            set_word (p_ref p) (p_index p) (SWAP_BE32 currentWord);;
            let p := step p in
            if p_left p =? 0 then
              err ← ReleaseBitmapBlock (p_ref p) true;
              if negb (err =? 0) then mret (inl err)
              else
                nextBlock ← (if useMetaZone then mret block else NextBitmapBlock block);
                if negb (nextBlock =? block) then mret (inr (block, None))
                else
                  r ← ReadBitmapBlock block;
                  match r with
                  | inl err => mret (inl err)
                  | inr ref =>
                      journal_modify_block_start ref;;
                      size ← gets vcbVBMIOSize;
                      w ← word ref 0;
                      any_mark fuel useMetaZone endingBlock block (Pos ref 0 (size / kBytesPerWord))
                        (SWAP_BE32 w) kHighBitInWordMask
                  end
            else
              w ← word (p_ref p) (p_index p);
              any_mark fuel useMetaZone endingBlock block p (SWAP_BE32 w) kHighBitInWordMask
          else any_mark fuel useMetaZone endingBlock block p currentWord bitMask
      else finish block currentWord
  end.

(** [BlockAllocateAny], the start of a search outside of the metadata zone; none when the range
    has no block outside (bsd/hfs/hfscommon/Misc/VolumeAllocation.c, 829-838). *)
Definition outside_zone (useMetaZone : bool) (startingBlock endingBlock : Z) : K (option Z) :=
  s ← gets id;
  if negb useMetaZone && truth (hfs_flags s &&& HFS_METADATA_ZONE) && (startingBlock <=? hfs_metazone_end s) then
    if u32 (hfs_metazone_end s + 2) <? endingBlock then mret (Some (u32 (hfs_metazone_end s + 1))) else mret None
  else mret (Some startingBlock).

(** [BlockAllocateAny]: the error, the first block and the number of blocks
    (bsd/hfs/hfscommon/Misc/VolumeAllocation.c, 800-1008). *)
Definition BlockAllocateAny (startingBlock endingBlock maxBlocks : Z) (useMetaZone : bool) : K (Z * Z * Z) :=
  start ← outside_zone useMetaZone startingBlock endingBlock;
  match start with
  | None => mret (dskFulErr, 0, 0)
  | Some startingBlock =>
      let maxBlocks := if u32 (endingBlock - startingBlock) <? maxBlocks then u32 (endingBlock - startingBlock) else maxBlocks in
      r ← ReadBitmapBlock startingBlock;
      match r with
      | inl err => mret (err, 0, 0)
      | inr ref =>
          p ← position_of ref startingBlock;
          w ← word (p_ref p) (p_index p);
          r ← any_find (S (Z.to_nat endingBlock)) useMetaZone endingBlock startingBlock p (SWAP_BE32 w) (high_bit startingBlock);
          match r with
          | inl err => mret (err, 0, 0)
          | inr (block, p, currentWord, bitMask) =>
              if endingBlock <=? block then ReleaseBitmapBlock (p_ref p) false;; mret (dskFulErr, 0, 0)
              else
                let endingBlock := if block <? u32 (endingBlock - maxBlocks) then u32 (block + maxBlocks) else endingBlock in
                journal_modify_block_start (p_ref p);;
                r ← any_mark (S (Z.to_nat endingBlock)) useMetaZone endingBlock block p currentWord bitMask;
                match r with
                | inl err => mret (err, 0, 0)
                | inr (last, held) =>
                    let actualNumBlocks := u32 (last - block) in
                    limit ← gets allocLimit;
                    assert_ (u32 (block + actualNumBlocks) <=? limit);;
                    (match held with Some ref => _ ← ReleaseBitmapBlock ref true; mret tt | None => mret tt end);;
                    mret (0, block, actualNumBlocks)
                end
          end
      end
  end.

(** ** The cache of free extents *)

Definition ext (i : nat) : K HFSPlusExtentDescriptor := deref (λ s, vcbFreeExt s !! i).
Definition set_ext (i : nat) (e : HFSPlusExtentDescriptor) : K unit :=
  _ ← ext i; modify (λ s, set_vcbFreeExt (vcbFreeExtCnt s) (<[i := e]> (vcbFreeExt s)) s).
Definition set_cnt (n : nat) : K unit := modify (λ s, set_vcbFreeExt n (vcbFreeExt s) s).

(** The order of the cache: by start on a sparse device, else by decreasing size; whether a new
    extent comes before [e]. *)
Definition comes_before (sparse : bool) (new e : HFSPlusExtentDescriptor) : bool :=
  if sparse then startBlock new <? startBlock e else blockCount e <? blockCount new.

(** [BlockDeallocate] and [BlockFindContiguous], extents move down to make place for a new one;
    the first also keeps [sparseAllocation] at the smallest start it sees
    (bsd/hfs/hfscommon/Misc/VolumeAllocation.c, 471-478). *)
Fixpoint bubble_down (sparse update : bool) (new : HFSPlusExtentDescriptor) (tempWord : nat) : K nat :=
  match tempWord with
  | 0%nat => mret 0%nat
  | S n =>
      e ← ext n;
      if comes_before sparse new e then
        set_ext tempWord e;;
        (if update then modify (λ s, if startBlock e <? sparseAllocation s then set_sparseAllocation (startBlock e) s else s)
         else mret tt);;
        bubble_down sparse update new n
      else mret tempWord
  end.

(** [BlockDeallocate] and [BlockFindContiguous], a free extent is added to the cache; whether it
    was (bsd/hfs/hfscommon/Misc/VolumeAllocation.c, 462-508). *)
Definition add_extent (update : bool) (new : HFSPlusExtentDescriptor) : K bool :=
  sparse ← gets (λ s, truth (hfs_flags s &&& HFS_HAS_SPARSE_DEVICE));
  cnt ← gets vcbFreeExtCnt;
  tempWord ← (if (cnt =? kMaxFreeExtents)%nat then
                e ← ext (kMaxFreeExtents - 1)%nat;
                mret (if comes_before sparse new e then (cnt - 1)%nat else cnt)
              else mret cnt);
  if (tempWord <? kMaxFreeExtents)%nat then
    tempWord ← bubble_down sparse update new tempWord;
    set_ext tempWord new;;
    (if (cnt <? kMaxFreeExtents)%nat then set_cnt (S cnt) else mret tt);;
    mret true
  else mret false.

(** [BlockAllocate] and [BlockFindContiguous], whether a run overlaps a cached extent
    (bsd/hfs/hfscommon/Misc/VolumeAllocation.c, 370-374). *)
Definition overlaps_extent (first count : Z) (e : HFSPlusExtentDescriptor) : bool :=
  let start := startBlock e in
  let end_ := u32 (start + blockCount e) in
  ((start <=? first) && (first <? end_)) || ((start <? u32 (first + count)) && (first <? start)).

(** The cached extents move up over the place [j] (bsd/hfs/hfscommon/Misc/VolumeAllocation.c, 376-378). *)
Fixpoint shift_up (n j : nat) : K unit :=
  match n with
  | 0%nat => mret tt
  | S n => e ← ext (S j); set_ext j e;; shift_up n (S j)
  end.

(** [BlockAllocate], extents that overlap the run allocated leave the cache
    (bsd/hfs/hfscommon/Misc/VolumeAllocation.c, 367-386). *)
Fixpoint forget_extents (fuel : nat) (i : nat) (first count : Z) : K unit :=
  match fuel with
  | 0%nat => panic
  | S fuel =>
      cnt ← gets vcbFreeExtCnt;
      if (i <? cnt)%nat then
        e ← ext i;
        if overlaps_extent first count e then
          shift_up (cnt - 1 - i)%nat i;;
          set_cnt (cnt - 1)%nat;;
          forget_extents fuel i first count
        else forget_extents fuel (S i) first count
      else mret tt
  end.

(** [BlockAllocateKnown], larger extents move up (bsd/hfs/hfscommon/Misc/VolumeAllocation.c, 1076-1087);
    the index behind them. *)
Fixpoint bubble_up (n i : nat) (newBlockCount : Z) : K nat :=
  match n with
  | 0%nat => mret i
  | S n =>
      e ← ext i;
      if newBlockCount <? blockCount e then set_ext (i - 1)%nat e;; bubble_up n (S i) newBlockCount
      else mret i
  end.

(** [BlockAllocateKnown], the first extent loses its first blocks
    (bsd/hfs/hfscommon/Misc/VolumeAllocation.c, 1053-1103). *)
Definition use_first (newStartBlock newBlockCount : Z) : K unit :=
  cnt ← gets vcbFreeExtCnt;
  sparse ← gets (λ s, truth (hfs_flags s &&& HFS_HAS_SPARSE_DEVICE));
  if (sparse : bool) then
    set_ext 0 (Extent newStartBlock newBlockCount);;
    if newBlockCount =? 0 then shift_up (cnt - 1)%nat 0;; set_cnt (cnt - 1)%nat else mret tt
  else
    i ← bubble_up (cnt - 1)%nat 1 newBlockCount;
    if newBlockCount =? 0 then set_cnt (cnt - 1)%nat
    else set_ext (i - 1)%nat (Extent newStartBlock newBlockCount).

(** [BlockAllocateKnown]: the error, the first block and the number of blocks
    (bsd/hfs/hfscommon/Misc/VolumeAllocation.c, 1032-1125). *)
Definition BlockAllocateKnown (maxBlocks : Z) : K (Z * Z * Z) :=
  cnt ← gets vcbFreeExtCnt;
  if (cnt =? 0)%nat then mret (dskFulErr, 0, 0)
  else
    e ← ext 0;
    if blockCount e =? 0 then mret (dskFulErr, 0, 0)
    else
      let foundBlocks := if maxBlocks <? blockCount e then maxBlocks else blockCount e in
      use_first (u32 (startBlock e + foundBlocks)) (blockCount e - foundBlocks);;
      limit ← gets allocLimit;
      if limit <? u32 (startBlock e + foundBlocks) then emit MarkInconsistent;; mret (EIO, 0, 0)
      else
        err ← BlockMarkAllocated (startBlock e) foundBlocks;
        mret (err, startBlock e, foundBlocks).

(** ** Contiguous free blocks *)

(** [BlockFindContiguous], over the used bits of a word (bsd/hfs/hfscommon/Misc/VolumeAllocation.c, 1607-1611). *)
Fixpoint skip_used (n : nat) (tempWord bitMask currentBlock : Z) : Z * Z :=
  match n with
  | 0%nat => (bitMask, currentBlock)
  | S n => if truth (tempWord &&& bitMask) then skip_used n tempWord (Z.shiftr bitMask 1) (u32 (currentBlock + 1))
           else (bitMask, currentBlock)
  end.

(** [BlockFindContiguous], over the free bits of a word (bsd/hfs/hfscommon/Misc/VolumeAllocation.c, 1693-1697). *)
Fixpoint skip_free (n : nat) (tempWord bitMask currentBlock : Z) : Z * Z :=
  match n with
  | 0%nat => (bitMask, currentBlock)
  | S n => if truth bitMask && negb (truth (tempWord &&& bitMask))
           then skip_free n tempWord (Z.shiftr bitMask 1) (u32 (currentBlock + 1))
           else (bitMask, currentBlock)
  end.

(** [BlockFindContiguous], the search for a word with a free bit: an error; or the block and the
    position, none when the search ends behind the metadata zone
    (bsd/hfs/hfscommon/Misc/VolumeAllocation.c, 1625-1669). *)
Fixpoint find_free_word (fuel : nat) (useMetaZone : bool) (stopBlock currentBlock : Z) (p : position)
    : K (Z + Z * option position) :=
  match fuel with
  | 0%nat => panic
  | S fuel =>
      if currentBlock <? stopBlock then
        r ← (if p_left p =? 0 then
               err ← ReleaseBitmapBlock (p_ref p) false;
               if negb (err =? 0) then mret (inl err)
               else
                 currentBlock ← (if useMetaZone then mret currentBlock else NextBitmapBlock currentBlock);
                 if negb useMetaZone && (stopBlock <=? currentBlock) then mret (inr (currentBlock, None))
                 else
                   r ← ReadBitmapBlock currentBlock;
                   match r with
                   | inl err => mret (inl err)
                   | inr ref => size ← gets vcbVBMIOSize; mret (inr (currentBlock, Some (Pos ref 0 (size / kBytesPerWord))))
                   end
             else mret (inr (currentBlock, Some p)));
        match r with
        | inr (currentBlock, Some p) =>
            w ← word (p_ref p) (p_index p);
            let tempWord := SWAP_BE32 w in
            if truth (u32 (tempWord + 1))
            then mret (inr ((skip_used 32 tempWord kHighBitInWordMask currentBlock).2, Some p))
            else find_free_word fuel useMetaZone stopBlock (u32 (currentBlock + kBitsPerWord)) (step p)
        | r => mret r
        end
      else mret (inr (currentBlock, Some p))
  end.

(** [BlockFindContiguous], the count of free blocks in whole words: as the search; none when the
    run reaches the metadata zone (bsd/hfs/hfscommon/Misc/VolumeAllocation.c, 1711-1761). *)
Fixpoint count_free_words (fuel : nat) (useMetaZone : bool) (endingBlock maxBlocks firstBlock currentBlock : Z) (p : position)
    : K (Z + Z * option position) :=
  match fuel with
  | 0%nat => panic
  | S fuel =>
      if currentBlock <? endingBlock then
        r ← (if p_left p =? 0 then
               err ← ReleaseBitmapBlock (p_ref p) false;
               if negb (err =? 0) then mret (inl err)
               else
                 nextBlock ← (if useMetaZone then mret currentBlock else NextBitmapBlock currentBlock);
                 if negb (nextBlock =? currentBlock) then mret (inr (currentBlock, None))
                 else
                   r ← ReadBitmapBlock currentBlock;
                   match r with
                   | inl err => mret (inl err)
                   | inr ref => size ← gets vcbVBMIOSize; mret (inr (currentBlock, Some (Pos ref 0 (size / kBytesPerWord))))
                   end
             else mret (inr (currentBlock, Some p)));
        match r with
        | inr (currentBlock, Some p) =>
            w ← word (p_ref p) (p_index p);
            let tempWord := SWAP_BE32 w in
            if truth tempWord
            then mret (inr ((skip_free 32 tempWord kHighBitInWordMask currentBlock).2, Some p))
            else
              let currentBlock := u32 (currentBlock + kBitsPerWord) in
              if maxBlocks <=? u32 (currentBlock - firstBlock) then mret (inr (currentBlock, Some (step p)))
              else count_free_words fuel useMetaZone endingBlock maxBlocks firstBlock currentBlock (step p)
        | r => mret r
        end
      else mret (inr (currentBlock, Some p))
  end.

(** [BlockFindContiguous], the next free block (bsd/hfs/hfscommon/Misc/VolumeAllocation.c, 1602-1669). *)
Definition next_free (useMetaZone : bool) (stopBlock currentBlock : Z) (p : position) : K (Z + Z * option position) :=
  let bit := currentBlock &&& (kBitsPerWord - 1) in
  let words := find_free_word (S (Z.to_nat stopBlock)) useMetaZone stopBlock in
  if truth bit then
    w ← word (p_ref p) (p_index p);
    let '(bitMask, currentBlock) := skip_used 32 (SWAP_BE32 w) (Z.shiftr kHighBitInWordMask bit) currentBlock in
    if truth bitMask then mret (inr (currentBlock, Some p)) else words currentBlock (step p)
  else words currentBlock p.

(** [BlockFindContiguous], the end of a free run (bsd/hfs/hfscommon/Misc/VolumeAllocation.c, 1688-1761). *)
Definition end_of_free (useMetaZone : bool) (endingBlock maxBlocks firstBlock : Z) (p : position) : K (Z + Z * option position) :=
  let bit := firstBlock &&& (kBitsPerWord - 1) in
  let words := count_free_words (S (Z.to_nat endingBlock)) useMetaZone endingBlock maxBlocks firstBlock in
  if truth bit then
    w ← word (p_ref p) (p_index p);
    let '(bitMask, currentBlock) := skip_free 32 (SWAP_BE32 w) (Z.shiftr kHighBitInWordMask bit) firstBlock in
    if truth bitMask then mret (inr (currentBlock, Some p)) else words currentBlock (step p)
  else words firstBlock p.

(** [BlockFindContiguous], whether a run overlaps one of the cached extents from the last [n] of
    them (bsd/hfs/hfscommon/Misc/VolumeAllocation.c, 1780-1793). *)
Fixpoint overlaps_cached (n j : nat) (first count : Z) : K bool :=
  match n with
  | 0%nat => mret false
  | S n => e ← ext j; if overlaps_extent first count e then mret true else overlaps_cached n (S j) first count
  end.

(** [BlockFindContiguous], the loop, with the start of the run before this one: an error or the run
    found, whether extents were added to the cache, and the
    block held (bsd/hfs/hfscommon/Misc/VolumeAllocation.c, 1591-1844). *)
Fixpoint find_loop (fuel : nat) (useMetaZone : bool) (endingBlock minBlocks maxBlocks : Z) (firstBlock currentBlock : Z) (p : position)
    (updated : bool) : K ((Z + Z * Z) * bool * option Z) :=
  match fuel with
  | 0%nat => panic
  | S fuel =>
      let stopBlock := u32 (endingBlock - minBlocks + 1) in
      r ← next_free useMetaZone stopBlock currentBlock p;
      match r with
      | inl err => mret (inl err, updated, None)
      | inr (currentBlock, None) => mret (inr (firstBlock, 0), updated, None)
      | inr (currentBlock, Some p) =>
          if stopBlock <=? currentBlock then mret (inr (firstBlock, 0), updated, Some (p_ref p))
          else
            let firstBlock := currentBlock in
            r ← end_of_free useMetaZone endingBlock maxBlocks firstBlock p;
            match r with
            | inl err => mret (inl err, updated, None)
            | inr (currentBlock, None) => mret (inr (firstBlock, 0), updated, None)
            | inr (currentBlock, Some p) =>
                let currentBlock := if endingBlock <? currentBlock then endingBlock else currentBlock in
                let foundBlocks := u32 (currentBlock - firstBlock) in
                let foundBlocks := if maxBlocks <? foundBlocks then maxBlocks else foundBlocks in
                if minBlocks <=? foundBlocks then mret (inr (firstBlock, foundBlocks), updated, Some (p_ref p))
                else
                  cnt ← gets vcbFreeExtCnt;
                  overlap ← overlaps_cached cnt 0 firstBlock foundBlocks;
                  added ← (if (overlap : bool) then mret false else add_extent false (Extent firstBlock foundBlocks));
                  let updated := updated || added in
                  if currentBlock <? stopBlock
                  then find_loop fuel useMetaZone endingBlock minBlocks maxBlocks firstBlock currentBlock p updated
                  else mret (inr (firstBlock, foundBlocks), updated, Some (p_ref p))
            end
      end
  end.

(** [BlockFindContiguous], on a sparse device the allocation pointers move down to the smallest
    cached start (bsd/hfs/hfscommon/Misc/VolumeAllocation.c, 1871-1890). *)
Definition lower_pointers (updated : bool) : K unit :=
  s ← gets id;
  if updated && truth (hfs_flags s &&& HFS_HAS_SPARSE_DEVICE) then
    let min_start := foldr (λ e m, Z.min (startBlock e) m) (totalBlocks s) (take (vcbFreeExtCnt s) (vcbFreeExt s)) in
    if negb (min_start =? totalBlocks s) then
      modify (λ s, if min_start <? nextAllocation s then set_nextAllocation min_start s else s);;
      modify (λ s, if min_start <? sparseAllocation s then set_sparseAllocation min_start s else s)
    else mret tt
  else mret tt.

(** [BlockFindContiguous]: the error, the first block and the number of blocks
    (bsd/hfs/hfscommon/Misc/VolumeAllocation.c, 1519-1898). *)
Definition BlockFindContiguous (startingBlock endingBlock minBlocks maxBlocks : Z) (useMetaZone : bool) : K (Z * Z * Z) :=
  start ← outside_zone useMetaZone startingBlock endingBlock;
  match start with
  | None => mret (dskFulErr, 0, 0)
  | Some startingBlock =>
      if u32 (endingBlock - startingBlock) <? minBlocks then mret (dskFulErr, 0, 0)
      else
        currentBlock ← (if useMetaZone then mret startingBlock else NextBitmapBlock startingBlock);
        r ← ReadBitmapBlock currentBlock;
        match r with
        | inl err => mret (err, 0, 0)
        | inr ref =>
            size ← gets vcbVBMIOSize;
            let wordsPerBlock := size / kBytesPerWord in
            let index := (currentBlock / kBitsPerWord) &&& u32 (wordsPerBlock - 1) in
            '(r, updated, held) ← find_loop (S (Z.to_nat endingBlock)) useMetaZone endingBlock minBlocks maxBlocks
              0 currentBlock (Pos ref index (u32 (wordsPerBlock - index))) false;
            limit ← gets allocLimit;
            r ← (match r with
                 | inl err => mret (err, 0, 0)
                 | inr (firstBlock, foundBlocks) =>
                     if foundBlocks <? minBlocks then mret (dskFulErr, 0, 0)
                     else assert_ (u32 (firstBlock + foundBlocks) <=? limit);; mret (0, firstBlock, foundBlocks)
                 end);
            lower_pointers updated;;
            (match held with Some ref => _ ← ReleaseBitmapBlock ref false; mret tt | None => mret tt end);;
            mret r
        end
  end.

(** [BlockAllocateContig] (bsd/hfs/hfscommon/Misc/VolumeAllocation.c, 734-776). *)
Definition BlockAllocateContig (startingBlock minBlocks maxBlocks : Z) (useMetaZone : bool) : K (Z * Z * Z) :=
  limit ← gets allocLimit;
  r ← BlockFindContiguous startingBlock limit minBlocks maxBlocks useMetaZone;
  r ← (if (r.1.1 =? dskFulErr) && negb (startingBlock =? 0)
       then BlockFindContiguous 1 startingBlock minBlocks maxBlocks useMetaZone else mret r);
  let '(err, first, count) := r in
  if err =? 0 then err ← BlockMarkAllocated first count; mret (err, first, count) else mret r.

(** ** Allocating and deallocating *)

(** [hfs_freeblks], without the reserve; the backing file system of a sparse device answers how
    many blocks it can take (bsd/hfs/hfs_vfsutils.c, 1487-1564). *)
Definition hfs_freeblks : K Z :=
  s ← gets id;
  let freeblks := if loanedBlocks s <? freeBlocks s then freeBlocks s - loanedBlocks s else 0 in
  mret (if truth (hfs_flags s &&& HFS_HAS_SPARSE_DEVICE) then
          match backing s with Some vfreeblks => Z.min vfreeblks freeblks | None => freeblks end
        else freeblks).

(** [HFS_UPDATE_NEXT_ALLOCATION] (bsd/hfs/hfs.h, 400-404). *)
Definition HFS_UPDATE_NEXT_ALLOCATION (new_nextAllocation : Z) : K unit :=
  modify (λ s, if truth (hfs_flags s &&& HFS_SKIP_UPDATE_NEXT_ALLOCATION) then s
               else set_nextAllocation new_nextAllocation s).

Definition outside_metazone (s : hfsmount) (block : Z) : bool :=
  (block <? hfs_metazone_start s) || (hfs_metazone_end s <? block).

(** [BlockAllocate], the bookkeeping after an allocation
    (bsd/hfs/hfscommon/Misc/VolumeAllocation.c, 337-398). *)
Definition account_allocation (updateAllocPtr : bool) (first count : Z) : K unit :=
  modify (λ s, if (vcbFreeExtCnt s =? 0)%nat && (hfs_freed_block_count s =? 0)
               then set_sparseAllocation first s else s);;
  modify (λ s, set_hfs_freed_block_count
    (if count <? hfs_freed_block_count s then hfs_freed_block_count s - count else 0) s);;
  s ← gets id;
  (if updateAllocPtr && outside_metazone s first then HFS_UPDATE_NEXT_ALLOCATION first else mret tt);;
  forget_extents (S (vcbFreeExtCnt s)) 0 first count;;
  modify (λ s, set_freeBlocks (u32 (freeBlocks s - count)) s);;
  emit VolumeNotifications.

(** [BlockAllocate]: the error, the first block and the number of blocks
    (bsd/hfs/hfscommon/Misc/VolumeAllocation.c, 233-401). *)
Definition BlockAllocate (startingBlock minBlocks maxBlocks : Z) (forceContiguous useMetaZone : bool) : K (Z * Z * Z) :=
  free ← hfs_freeblks;
  '((err, first, count), updateAllocPtr) ← (
    if (free =? 0) || (forceContiguous && (free <? minBlocks)) then mret ((dskFulErr, 0, 0), false)
    else
      let minBlocks := Z.min minBlocks free in
      let maxBlocks := Z.min maxBlocks free in
      s ← gets id;
      let hint := if startingBlock =? 0 then
                    if truth (hfs_flags s &&& HFS_HAS_SPARSE_DEVICE) then sparseAllocation s else nextAllocation s
                  else startingBlock in
      let start := if allocLimit s <=? hint then 0 else hint in
      if forceContiguous then
        r ← BlockAllocateContig start minBlocks maxBlocks useMetaZone;
        mret (r, (startingBlock =? 0) || ((r.1.1 =? 0) && (start <? r.1.2) && outside_metazone s r.1.2))
      else
        r ← BlockAllocateKnown maxBlocks;
        r ← (if r.1.1 =? dskFulErr then BlockAllocateAny start (allocLimit s) maxBlocks useMetaZone else mret r);
        r ← (if r.1.1 =? dskFulErr then BlockAllocateAny 1 start maxBlocks useMetaZone else mret r);
        mret (r, startingBlock =? 0));
  (if negb (count =? 0) then account_allocation updateAllocPtr first count else mret tt);;
  mret (err, first, count).

(** [BlockDeallocate] (bsd/hfs/hfscommon/Misc/VolumeAllocation.c, 425-519). *)
Definition BlockDeallocate (firstBlock numBlocks : Z) : K Z :=
  if numBlocks =? 0 then mret 0
  else
    err ← BlockMarkFree firstBlock numBlocks;
    if negb (err =? 0) then mret err
    else
      modify (λ s, set_freeBlocks (u32 (freeBlocks s + numBlocks)) s);;
      modify (λ s, set_hfs_freed_block_count (u32 (hfs_freed_block_count s + numBlocks)) s);;
      modify (λ s, if firstBlock <? sparseAllocation s then set_sparseAllocation firstBlock s else s);;
      s ← gets id;
      (if nextAllocation s =? u32 (firstBlock + numBlocks)
       then HFS_UPDATE_NEXT_ALLOCATION (u32 (nextAllocation s - numBlocks)) else mret tt);;
      _ ← add_extent true (Extent firstBlock numBlocks);
      emit VolumeNotifications;;
      mret 0.

End volume.

End Volume.
