(* ===== verification/VolumeSpec.v ===== *)
(** The allocation bitmap as a function from blocks to bits, and the walks over it: marking,
    freeing and testing runs of blocks bit by bit. *)

From S2P Require Import Prelude.
From S2P Require Import Volume.
From coqutil Require Import Z.bitblast.
Import Volume.Volume.

Module VolumeSpec.

(** * Words *)

Lemma swap32_lor z : swap32 z =
  Z.lor (Z.shiftl (Z.land z 255) 24) (Z.lor (Z.shiftl (Z.land (Z.shiftr z 8) 255) 16)
    (Z.lor (Z.shiftl (Z.land (Z.shiftr z 16) 255) 8) (Z.land (Z.shiftr z 24) 255))).
Proof.
  change 255 with (Z.ones 8). unfold swap32.
  rewrite !Z.or_to_plus by Z.bitblast.
  rewrite !Z.shiftr_div_pow2, !Z.shiftl_mul_pow2, !Z.land_ones by lia. lia.
Qed.
Lemma swap32_testbit z i : 0 <= i < 32 -> Z.testbit (swap32 z) i = Z.testbit z (8 * (3 - i / 8) + i mod 8).
Proof.
  intros Hi. rewrite swap32_lor. change 255 with (Z.ones 8).
  rewrite !Z.lor_spec. 
  assert (Hc : i / 8 = 0 \/ i / 8 = 1 \/ i / 8 = 2 \/ i / 8 = 3) by (Z.to_euclidean_division_equations; lia).
  pose proof (Z.div_mod i 8 ltac:(lia)) as E. pose proof (Z.mod_pos_bound i 8 ltac:(lia)).
  destruct Hc as [Hc|[Hc|[Hc|Hc]]]; rewrite Hc in *;
  rewrite ?Z.shiftl_spec, ?Z.land_spec, ?Z.shiftr_spec, ?Z.testbit_ones_nonneg by lia;
  rewrite ?Z.shiftl_spec_low by lia.
  all: repeat match goal with |- context [Z.testbit (Z.shiftl _ ?k) ?n] => first [rewrite (Z.shiftl_spec_low _ k n) by lia | rewrite (Z.shiftl_spec _ k n) by lia] end.
  all: repeat match goal with |- context [Z.testbit ?x ?k] => rewrite (Z.testbit_neg_r x k) by lia end.
  all: rewrite ?Z.shiftr_spec, ?Z.testbit_ones_nonneg by lia.
  all: repeat match goal with |- context [?a <? ?b] => first [rewrite (proj2 (Z.ltb_lt a b)) by lia | rewrite (proj2 (Z.ltb_ge a b)) by lia] end.
  all: rewrite ?andb_false_r, ?andb_true_r, ?orb_false_r, ?orb_false_l; f_equal; lia.
Qed.

(** Two words with the same 32 bits. *)
Lemma word_bits_inj a b : in_range 32 a -> in_range 32 b ->
  (∀ j, 0 <= j < 32 -> Z.testbit a (31 - j) = Z.testbit b (31 - j)) -> a = b.
Proof.
  intros Ha Hb H. apply Z.bits_inj'. intros n Hn. destruct (Z.lt_ge_cases n 32).
  - replace n with (31 - (31 - n)) by lia. apply H. lia.
  - rewrite !(Z.bits_above_log2) ; [done|unfold in_range in *; lia|..|unfold in_range in *; lia|].
    all: unfold in_range in *; destruct (decide (a = 0)) as [->|], (decide (b = 0)) as [->|]; cbn; try lia;
      apply Z.lt_le_trans with 32; try lia; apply Z.log2_lt_pow2; lia.
Qed.

Lemma swap32_bits a b : (∀ i, 0 <= i < 32 -> Z.testbit a i = Z.testbit b i) -> swap32 a = swap32 b.
Proof.
  intros H. apply word_bits_inj; [apply swap32_range..|]. intros j Hj. rewrite !swap32_testbit by lia.
  apply H. Z.to_euclidean_division_equations; lia.
Qed.

Lemma SWAP_BE32_involutive w : in_range 32 w -> SWAP_BE32 (SWAP_BE32 w) = w.
Proof. apply swap32_involutive. Qed.

(** ** Masks: the bits [lo] up to [hi] of a word, counted from the high end *)

Definition masks (mask lo hi : Z) : Prop :=
  in_range 32 mask /\ ∀ j, 0 <= j < 32 -> Z.testbit mask (31 - j) = (lo <=? j) && (j <? hi).

Lemma kAll_ones : kAllBitsSetInWord = Z.ones 32.
Proof. done. Qed.

Lemma lnot32_testbit z i : 0 <= i < 32 -> Z.testbit (lnot32 z) i = negb (Z.testbit z i).
Proof.
  intros. unfold lnot32. rewrite kAll_ones, Z.lxor_spec, Z.testbit_ones_nonneg by lia.
  rewrite (proj2 (Z.ltb_lt i 32)) by lia. by rewrite xorb_true_r.
Qed.

Lemma in_range_bits z : 0 <= z -> (∀ i, 32 <= i -> Z.testbit z i = false) -> in_range 32 z.
Proof.
  intros Hz H. unfold in_range. split; [done|]. destruct (Z.lt_ge_cases z (2 ^ 32)); [done|].
  exfalso. pose proof (Z.log2_le_pow2 z 32 ltac:(lia)) as [H1 _]. specialize (H1 ltac:(lia)).
  specialize (H (Z.log2 z) H1). by rewrite Z.bit_log2 in H by lia.
Qed.

Lemma in_range_above z i : in_range 32 z -> 32 <= i -> Z.testbit z i = false.
Proof.
  intros [H1 H2] Hi. destruct (decide (z = 0)) as [->|]; [apply Z.testbit_0_l|].
  apply Z.bits_above_log2; [done|]. apply Z.lt_le_trans with 32; [|done]. apply Z.log2_lt_pow2; lia.
Qed.

Lemma in_range_lor a b : in_range 32 a -> in_range 32 b -> in_range 32 (a ||| b).
Proof.
  intros Ha Hb. apply in_range_bits; [apply Z.lor_nonneg; split; [apply Ha|apply Hb]|]. intros i Hi.
  by rewrite Z.lor_spec, !in_range_above.
Qed.

Lemma in_range_land a b : in_range 32 a -> 0 <= b -> in_range 32 (a &&& b).
Proof.
  intros Ha Hb. apply in_range_bits; [apply Z.land_nonneg; left; apply Ha|]. intros i Hi.
  by rewrite Z.land_spec, in_range_above.
Qed.

Lemma in_range_lnot32 a : in_range 32 a -> in_range 32 (lnot32 a).
Proof.
  intros Ha. apply in_range_bits; [apply Z.lxor_nonneg; split; intros _; [done|apply Ha]|]. intros i Hi.
  unfold lnot32. rewrite Z.lxor_spec, in_range_above, kAll_ones by done. by rewrite Z.ones_spec_high by lia.
Qed.

Lemma ones_shifted k i : 0 <= k -> 0 <= i -> Z.testbit (Z.shiftr kAllBitsSetInWord k) i = (i + k <? 32).
Proof. intros. rewrite kAll_ones, Z.shiftr_spec, Z.testbit_ones_nonneg by lia. done. Qed.

Lemma ones_shifted_range k : 0 <= k -> in_range 32 (Z.shiftr kAllBitsSetInWord k).
Proof.
  intros. apply in_range_bits; [by apply Z.shiftr_nonneg|]. intros i Hi. rewrite ones_shifted by lia. lia.
Qed.

Lemma masks_all : masks kAllBitsSetInWord 0 32.
Proof.
  split; [done|]. intros j Hj. rewrite <- (Z.shiftr_0_r kAllBitsSetInWord), ones_shifted by lia. lia.
Qed.

Lemma masks_low n : 0 <= n <= 32 -> masks (lnot32 (Z.shiftr kAllBitsSetInWord n)) 0 n.
Proof.
  intros Hn. split; [apply in_range_lnot32, ones_shifted_range; lia|]. intros j Hj.
  rewrite lnot32_testbit, ones_shifted by lia. lia.
Qed.

(** The mask of a run in its first word. *)
Lemma masks_first firstBit numBlocks : 0 <= firstBit < 32 -> 0 <= numBlocks ->
  masks (first_mask firstBit numBlocks).1 firstBit (Z.min 32 (firstBit + numBlocks)) /\ (first_mask firstBit numBlocks).2 = Z.min (32 - firstBit) numBlocks.
Proof.
  intros H1 H2. unfold first_mask, kBitsPerWord. destruct (Z.ltb_spec numBlocks (32 - firstBit)); cbn [fst snd].
  - split; [|lia]. split.
    + apply in_range_land; [apply ones_shifted_range; lia|]. apply in_range_lnot32, ones_shifted_range. lia.
    + intros j Hj. rewrite Z.land_spec, lnot32_testbit, !ones_shifted by lia. lia.
  - split; [|lia]. split; [apply ones_shifted_range; lia|]. intros j Hj. rewrite ones_shifted by lia. lia.
Qed.

(** Swapping commutes with the bit operations of the walks. *)
Lemma swap32_swap_testbit b i : in_range 32 b -> 0 <= i < 32 ->
  Z.testbit (swap32 b) (8 * (3 - i / 8) + i mod 8) = Z.testbit b i.
Proof.
  intros Hb Hi. rewrite <- (swap32_involutive b Hb) at 2. rewrite (swap32_testbit (swap32 b)) by done. done.
Qed.

Lemma swap32_lor_swap a b : in_range 32 a -> in_range 32 b -> SWAP_BE32 (a ||| SWAP_BE32 b) = SWAP_BE32 a ||| b.
Proof.
  intros Ha Hb. apply word_bits_inj; [apply swap32_range|apply in_range_lor; [apply swap32_range|done]|].
  intros j Hj. unfold SWAP_BE32.
  by rewrite swap32_testbit, !Z.lor_spec, (swap32_testbit a), swap32_swap_testbit by (done || lia).
Qed.

Lemma swap32_land_swap a b : in_range 32 a -> in_range 32 b -> SWAP_BE32 (a &&& SWAP_BE32 b) = SWAP_BE32 a &&& b.
Proof.
  intros Ha Hb. apply word_bits_inj; [apply swap32_range|apply in_range_land; [apply swap32_range|apply Hb]|].
  intros j Hj. unfold SWAP_BE32.
  by rewrite swap32_testbit, !Z.land_spec, (swap32_testbit a), swap32_swap_testbit by (done || lia).
Qed.

Lemma swap32_inj a b : in_range 32 a -> in_range 32 b -> SWAP_BE32 a = SWAP_BE32 b -> a = b.
Proof. intros Ha Hb H. by rewrite <- (SWAP_BE32_involutive a), <- (SWAP_BE32_involutive b), H. Qed.

(** * The bitmap as bits *)

Definition wpb (s : hfsmount) : Z := vcbVBMIOSize s / 4.
Definition base (s : hfsmount) : Z := if vcbSigWord s =? kHFSPlusSigWord then 0 else vcbVBMSt s.

(** The bitmap block and the place in it of the word [q] of the bitmap. *)
Definition block_of (s : hfsmount) (q : Z) : Z := q / wpb s + base s.
Definition index_of (s : hfsmount) (q : Z) : Z := q mod wpb s.

Definition word_at (s : hfsmount) (q : Z) : option Z :=
  bitmap s !! block_of s q ≫= (.!! Z.to_nat (index_of s q)).
(** The bit of a block: set when the block is in use. *)
Definition bit (s : hfsmount) (b : Z) : bool :=
  match word_at s (b / 32) with Some w => Z.testbit (SWAP_BE32 w) (31 - b mod 32) | None => false end.

(** Bitmap blocks are a power of two in size, and there are [nb] of them. *)
Class geometry (s : hfsmount) (nb : Z) : Prop := {
  geo_size : ∃ k, 2 <= k <= 28 /\ vcbVBMIOSize s = 2 ^ k;
  geo_blocks : 0 <= nb /\ 32 * (wpb s * nb) <= 2 ^ 32 }.

(** The bitmap covers [nb] blocks of words. *)
Definition bitmap_ok (s : hfsmount) (nb : Z) : Prop :=
  ∀ q, 0 <= q < wpb s * nb -> ∃ ws, bitmap s !! block_of s q = Some ws /\
    zlen ws = wpb s /\ Forall (in_range 32) ws.

(** States that differ in the bitmap, the buffers and the calls only. *)
Definition agree (s0 s : hfsmount) : Prop :=
  ∃ m h u c, s = set_calls c (set_unsaved u (set_held h (set_bitmap m s0))).

Lemma agree_refl s : agree s s.
Proof. exists (bitmap s), (held s), (unsaved s), (calls s). by destruct s. Qed.
Lemma agree_bitmap s0 s v : agree s0 s -> agree s0 (set_bitmap v s).
Proof. intros (m & h & u & c & ->). exists v, h, u, c. by destruct s0. Qed.
Lemma agree_held s0 s v : agree s0 s -> agree s0 (set_held v s).
Proof. intros (m & h & u & c & ->). exists m, v, u, c. by destruct s0. Qed.
Lemma agree_unsaved s0 s v : agree s0 s -> agree s0 (set_unsaved v s).
Proof. intros (m & h & u & c & ->). exists m, h, v, c. by destruct s0. Qed.
Lemma agree_calls s0 s v : agree s0 s -> agree s0 (set_calls v s).
Proof. intros (m & h & u & c & ->). exists m, h, u, v. by destruct s0. Qed.
#[local] Hint Resolve agree_refl agree_bitmap agree_held agree_unsaved agree_calls : core.

Lemma agree_size s0 s : agree s0 s -> vcbVBMIOSize s = vcbVBMIOSize s0.
Proof. by intros (m & h & u & c & ->). Qed.
Lemma agree_base s0 s : agree s0 s -> base s = base s0.
Proof. by intros (m & h & u & c & ->). Qed.
Lemma agree_wpb s0 s : agree s0 s -> wpb s = wpb s0.
Proof. unfold wpb. by intros ->%agree_size. Qed.
Lemma agree_block_of s0 s q : agree s0 s -> block_of s q = block_of s0 q.
Proof. intros Ha. unfold block_of. by rewrite (agree_wpb _ _ Ha), (agree_base _ _ Ha). Qed.
Lemma agree_index_of s0 s q : agree s0 s -> index_of s q = index_of s0 q.
Proof. intros Ha. unfold index_of. by rewrite (agree_wpb _ _ Ha). Qed.

Section view.
Context (s0 : hfsmount) (nb : Z) (Hg : geometry s0 nb).

Abbreviation N := (32 * (wpb s0 * nb)).

(** The bitmap is [f], the blocks [h] are held, and the changes not saved, which only a walk that
    saves them has ([d]), are in those. *)
Record view (f : Z -> bool) (h : list Z) (d : bool) (s : hfsmount) : Prop := View {
  view_agree : agree s0 s;
  view_ok : bitmap_ok s nb;
  view_bits : ∀ b, 0 <= b < N -> bit s b = f b;
  view_held : held s = h;
  view_unsaved : Forall (λ r, d = true /\ r ∈ h) (unsaved s) }.

Lemma size_facts : ∃ k, 2 <= k <= 28 /\ vcbVBMIOSize s0 = 2 ^ k /\ wpb s0 = 2 ^ (k - 2) /\
  1 <= wpb s0 /\ vcbVBMIOSize s0 = 4 * wpb s0 /\ 32 * wpb s0 <= 2 ^ 31.
Proof.
  destruct (@geo_size _ _ Hg) as (k & Hk & E). exists k. unfold wpb. rewrite E.
  assert (E2 : 2 ^ k = 2 ^ (k - 2) * 4) by (change 4 with (2 ^ 2); rewrite <- Z.pow_add_r by lia; f_equal; lia).
  pose proof (Z.pow_pos_nonneg 2 (k - 2)). rewrite E2, Z.div_mul by lia.
  assert (2 ^ (k - 2) <= 2 ^ 26) by (apply Z.pow_le_mono_r; lia). lia.
Qed.

Lemma wpb_pos : 1 <= wpb s0.
Proof. destruct size_facts as (k & ? & ? & ? & ? & ? & ?). done. Qed.
Lemma size_wpb : vcbVBMIOSize s0 = 4 * wpb s0.
Proof. destruct size_facts as (k & ? & ? & ? & ? & ? & ?). done. Qed.
Lemma bpb_bound : 32 * wpb s0 <= 2 ^ 31.
Proof. destruct size_facts as (k & ? & ? & ? & ? & ? & ?). done. Qed.

Lemma view_ext f g h d s : view f h d s -> (∀ b, 0 <= b < N -> f b = g b) -> view g h d s.
Proof. intros [] H. split; try done. intros b Hb. rewrite <- H by done. auto. Qed.

(** ** Words of a held block *)

Lemma view_word_at f h d s q : view f h d s -> word_at s q = bitmap s !! block_of s0 q ≫= (.!! Z.to_nat (index_of s0 q)).
Proof. intros [Ha _ _ _ _]. unfold word_at. by rewrite (agree_block_of _ _ _ Ha), (agree_index_of _ _ _ Ha). Qed.

Lemma view_lookup f h d s q : view f h d s -> 0 <= q < wpb s0 * nb -> ∃ ws w,
  bitmap s !! block_of s0 q = Some ws /\ ws !! Z.to_nat (index_of s0 q) = Some w /\
  zlen ws = wpb s0 /\ Forall (in_range 32) ws /\ in_range 32 w.
Proof.
  intros [Ha Hok _ _ _] Hq. rewrite <- (agree_wpb _ _ Ha) in Hq. destruct (Hok q Hq) as (ws & E & El & Hws).
  rewrite (agree_wpb _ _ Ha) in El. rewrite (agree_block_of _ _ _ Ha) in E.
  pose proof wpb_pos. pose proof (Z.mod_pos_bound q (wpb s0)).
  destruct (lookup_lt_is_Some_2 ws (Z.to_nat (index_of s0 q))) as [w Hw]; [unfold index_of; lia|].
  exists ws, w. split_and!; try done. by eapply Forall_lookup_1.
Qed.

Lemma index_nonneg q : 0 <= index_of s0 q.
Proof. pose proof wpb_pos. apply Z.mod_pos_bound. lia. Qed.

Lemma bit_of_word s q j : 0 <= j < 32 ->
  bit s (32 * q + j) = match word_at s q with Some w => Z.testbit (SWAP_BE32 w) (31 - j) | None => false end.
Proof.
  intros. unfold bit. replace ((32 * q + j) / 32) with q by (Z.to_euclidean_division_equations; lia).
  by replace ((32 * q + j) mod 32) with j by (Z.to_euclidean_division_equations; lia).
Qed.

Lemma view_word f d s q Q :
  view f [block_of s0 q] d s -> 0 <= q < wpb s0 * nb ->
  (∀ w, in_range 32 w -> (∀ j, 0 <= j < 32 -> Z.testbit (SWAP_BE32 w) (31 - j) = f (32 * q + j)) -> Q w s) ->
  runs (word (block_of s0 q) (index_of s0 q)) Q s.
Proof.
  intros Hv Hq HQ. destruct (view_lookup _ _ _ _ q Hv Hq) as (ws & w & E & Ew & _ & _ & Hw).
  unfold word. runs_steps. rewrite (view_held _ _ _ _ Hv). apply runs_assert.
  { rewrite bool_decide_true by constructor. pose proof (index_nonneg q). lia. }
  assert (E2 : word_at s q = Some w) by (rewrite (view_word_at _ _ _ _ _ Hv), E; exact Ew).
  apply runs_deref with w; [by rewrite E|]. apply HQ; [done|]. intros j Hj.
  rewrite <- (view_bits _ _ _ _ Hv), bit_of_word by lia. by rewrite E2.
Qed.

Lemma word_numbers q q' : 0 <= q -> 0 <= q' -> block_of s0 q = block_of s0 q' -> index_of s0 q = index_of s0 q' -> q = q'.
Proof.
  unfold block_of, index_of. intros Hq Hq' E1 E2. pose proof wpb_pos.
  rewrite (Z.div_mod q (wpb s0)), (Z.div_mod q' (wpb s0)) by lia. rewrite E2. replace (q / wpb s0) with (q' / wpb s0) by lia. done.
Qed.

Lemma bits_of_words b : 0 <= b < N -> 0 <= b / 32 < wpb s0 * nb /\ 0 <= b mod 32 < 32 /\ b = 32 * (b / 32) + b mod 32.
Proof. intros. Z.to_euclidean_division_equations. lia. Qed.

Lemma view_set_word f g d s q w Q :
  view f [block_of s0 q] d s -> 0 <= q < wpb s0 * nb -> in_range 32 w ->
  (∀ j, 0 <= j < 32 -> Z.testbit (SWAP_BE32 w) (31 - j) = g (32 * q + j)) ->
  (∀ b, 0 <= b < N -> b / 32 <> q -> g b = f b) ->
  (∀ s', view g [block_of s0 q] true s' -> Q tt s') ->
  runs (set_word (block_of s0 q) (index_of s0 q) w) Q s.
Proof.
  intros Hv Hq Hw Hin Hout HQ. unfold set_word. runs_steps.
  apply (view_word f d s q); [done..|]. intros w0 _ _. runs_steps. apply HQ. clear HQ Q w0.
  destruct (view_lookup _ _ _ _ q Hv Hq) as (ws & w0 & E & Ew & El & Hws & _).
  pose proof Hv as [Ha Hok Hb Hh Hu]. pose proof wpb_pos. pose proof (index_nonneg q).
  set (s' := set_unsaved _ _). assert (Ha' : agree s0 s') by (apply agree_unsaved, agree_bitmap, Ha).
  assert (Hlen : (Z.to_nat (index_of s0 q) < length ws)%nat)
    by (unfold index_of; pose proof (Z.mod_pos_bound q (wpb s0)); lia).
  assert (Hbm : bitmap s' !! block_of s0 q = Some (<[Z.to_nat (index_of s0 q) := w]> ws))
    by (cbn; by rewrite lookup_alter_eq, E).
  assert (Hne : ∀ r, r <> block_of s0 q -> bitmap s' !! r = bitmap s !! r) by (intros r ?; cbn; by rewrite lookup_alter_ne).
  split; [done| | |done|].
  - intros q' Hq'. rewrite (agree_wpb _ _ Ha'), (agree_block_of _ _ _ Ha') in *.
    destruct (decide (block_of s0 q' = block_of s0 q)) as [->|?].
    + rewrite Hbm. eexists. split; [done|]. rewrite length_insert. split; [done|]. by apply Forall_insert.
    + rewrite Hne by done. rewrite <- (agree_wpb _ _ Ha), <- (agree_block_of _ _ _ Ha) in *. by apply Hok.
  - intros b Hbr. destruct (bits_of_words b Hbr) as (Hb1 & Hb2 & Hb3). rewrite Hb3 at 1. rewrite bit_of_word by done.
    unfold word_at. rewrite (agree_block_of _ _ _ Ha'), (agree_index_of _ _ _ Ha').
    destruct (decide (b / 32 = q)) as [Eq|Hq'].
    + rewrite Eq, Hbm. cbn [option_bind mbind]. rewrite list_lookup_insert_eq by done. rewrite Hin by done. f_equal. lia.
    + rewrite Hout, <- Hb by done. rewrite Hb3 at 3. rewrite bit_of_word, (view_word_at _ _ _ _ _ Hv) by done.
      destruct (decide (block_of s0 (b / 32) = block_of s0 q)) as [Er|?]; [|by rewrite Hne].
      rewrite Er, Hbm, E. cbn [option_bind mbind]. rewrite list_lookup_insert_ne; [done|]. intros Ei. apply Hq'.
      apply word_numbers; [lia..|done|]. pose proof (index_nonneg (b / 32)). lia.
  - cbn. constructor; [split; [done|constructor]|]. eapply Forall_impl; [done|]. cbn. tauto.
Qed.

(** ** Reading and releasing bitmap blocks *)

Lemma view_dirty f h d s : view f h d s -> view f h true s.
Proof. intros []. split; try done. eapply Forall_impl; [done|]. cbn. tauto. Qed.

Lemma view_calls f h d s c : view f h d s -> view f h d (set_calls c s).
Proof. intros []. split; try done. by apply agree_calls. Qed.

Lemma view_emit f h d s c Q : view f h d s -> (∀ s', view f h d s' -> Q tt s') -> runs (emit c) Q s.
Proof. intros Hv HQ. unfold emit. runs_steps. by apply HQ, view_calls. Qed.

Lemma view_journal f h d s ref Q : view f h d s -> (∀ s', view f h d s' -> Q tt s') ->
  runs (journal_modify_block_start ref) Q s.
Proof.
  intros Hv HQ. unfold journal_modify_block_start. runs_steps. destruct (jnl s); [by eapply view_emit|by apply HQ].
Qed.

Lemma view_release f ref d s Q : view f [ref] d s -> (∀ s', view f [] d s' -> Q 0 s') ->
  runs (ReleaseBitmapBlock ref d) Q s.
Proof.
  intros Hv HQ. pose proof Hv as [Ha Hok Hb Hh Hu]. unfold ReleaseBitmapBlock. runs_steps. rewrite Hh.
  apply runs_assert; [apply bool_decide_eq_true; constructor|]. runs_steps. rewrite Hh.
  rewrite (filter_none _ [ref]) by (repeat constructor; tauto).
  destruct d; runs_steps; cbn [unsaved set_held].
  - rewrite (filter_none _ (unsaved s)).
    + eapply (view_emit f [] true); [|intros s' ?; runs_steps; by apply HQ].
      split; [by apply agree_unsaved, agree_held|done..|constructor].
    + eapply Forall_impl; [done|]. cbn. intros r [_ Hr]. apply list_elem_of_singleton in Hr. tauto.
  - eapply (view_emit f [] false); [|intros s' ?; runs_steps; by apply HQ].
    split; [by apply agree_held|done..|]. eapply Forall_impl; [done|]. cbn. by intros ? [? _].
Qed.

(** A block of the bitmap by the number of one of the blocks it describes. *)
Lemma block_of_bit b : 0 <= b -> b / u32 (vcbVBMIOSize s0 * kBitsPerByte) = b / 32 / wpb s0.
Proof.
  intros. pose proof wpb_pos. pose proof bpb_bound. rewrite size_wpb. unfold kBitsPerByte.
  rewrite wrap_small by (unfold in_range; lia). rewrite Z.div_div by lia. f_equal. lia.
Qed.

Context (bread : hfsmount -> Z -> Z).

(** An error of reading some bitmap block. *)
Definition read_error (err : Z) : Prop := err <> 0 /\ ∃ s block, bread s block = err.

Lemma view_read f d s b Q : view f [] d s -> 0 <= b ->
  (∀ err s', read_error err -> view f [] d s' -> Q (inl err) s') ->
  (∀ s', view f [block_of s0 (b / 32)] d s' -> Q (inr (block_of s0 (b / 32))) s') ->
  runs (ReadBitmapBlock bread b) Q s.
Proof.
  intros Hv Hb HE HQ. unfold ReadBitmapBlock. runs_steps. pose proof Hv as [Ha Hok Hbt Hh Hu].
  change (if vcbSigWord s =? kHFSPlusSigWord then 0 else vcbVBMSt s) with (base s).
  rewrite (agree_base _ _ Ha), (agree_size _ _ Ha), block_of_bit by done. change (_ + base s0) with (block_of s0 (b / 32)).
  destruct (Z.eqb_spec (bread s (block_of s0 (b / 32))) 0) as [E0|Hne]; cbn [negb].
  - runs_steps. apply HQ. rewrite Hh. split; [by apply agree_held|done..|]. cbn. eapply Forall_impl; [done|].
    cbn. intros r [? []%not_elem_of_nil].
  - runs_steps. eapply view_emit; [done|]. intros s' Hv'. runs_steps. apply HE; [|done]. split; [done|eauto].
Qed.

End view.

End VolumeSpec.
