(* ===== verification/VolumeWalk.v ===== *)
(** The walk over the words of a run of blocks: for an operation on the bits of a word, what the
    walk leaves of the bitmap, and the operations of the three routines that walk. *)

From S2P Require Import Prelude.
From S2P Require Import Volume.
From S2P Require Import VolumeSpec.
Import Volume.Volume VolumeSpec.VolumeSpec.

Module VolumeWalk.

(** * Runs of bits *)

(** The bits of a run become [new] of what they were. *)
Definition changed (new : bool -> bool) (f : Z -> bool) (start n : Z) (b : Z) : bool :=
  if (start <=? b) && (b <? start + n) then new (f b) else f b.

(** All the bits of a run are as [good] wants them. *)
Definition all_good (good : bool -> bool) (f : Z -> bool) (start n : Z) : Prop :=
  ∀ b, start <= b < start + n -> good (f b) = true.

Section runs_of_bits.
Context (good new : bool -> bool) (f : Z -> bool) (start : Z).

Lemma changed_0 b : changed new f start 0 b = f b.
Proof. unfold changed. destruct (Z.leb_spec start b), (Z.ltb_spec b (start + 0)); try done; lia. Qed.

Lemma changed_app k m b : 0 <= k -> 0 <= m ->
  changed new (changed new f start k) (start + k) m b = changed new f start (k + m) b.
Proof.
  intros. unfold changed. destruct (Z.leb_spec start b), (Z.ltb_spec b (start + k)), (Z.leb_spec (start + k) b),
    (Z.ltb_spec b (start + k + m)), (Z.ltb_spec b (start + (k + m))); try done; lia.
Qed.

Lemma changed_after k b : start + k <= b -> changed new f start k b = f b.
Proof. intros. unfold changed. rewrite (proj2 (Z.ltb_ge b (start + k))) by lia. by rewrite andb_false_r. Qed.

Lemma all_good_0 : all_good good f start 0.
Proof. intros b Hb. lia. Qed.

Lemma all_good_after k m : 0 <= k -> 
  all_good good (changed new f start k) (start + k) m <-> all_good good f (start + k) m.
Proof.
  intros. split; intros H' b Hb; specialize (H' b Hb); revert H'; by rewrite changed_after by lia.
Qed.

Lemma all_good_app k m : all_good good f start k -> all_good good f (start + k) m -> all_good good f start (k + m).
Proof. intros H1 H2 b Hb. destruct (Z.lt_ge_cases b (start + k)); [apply H1|apply H2]; lia. Qed.
End runs_of_bits.

Section walk.
Context (s0 : hfsmount) (nb : Z) (Hg : geometry s0 nb) (bread : hfsmount -> Z -> Z).

Abbreviation W := (wpb s0 * nb).

(** ** Positions *)

(** [p] is at the word [q] of the bitmap; with no words left it is still in the block before. *)
Definition at_word (p : position) (q : Z) : Prop :=
  (p_ref p = block_of s0 q /\ p_index p = index_of s0 q /\ p_left p = wpb s0 - index_of s0 q) \/
  (p_left p = 0 /\ index_of s0 q = 0 /\ p_ref p = block_of s0 (q - 1)).

Lemma index_bound q : 0 <= index_of s0 q < wpb s0.
Proof. pose proof (wpb_pos s0 nb Hg). apply Z.mod_pos_bound. lia. Qed.

(** The word behind [q] is in the same block, or starts the next. *)
Lemma word_succ q : 0 <= q ->
  (block_of s0 (q + 1) = block_of s0 q /\ index_of s0 (q + 1) = index_of s0 q + 1) \/
  (index_of s0 q = wpb s0 - 1 /\ index_of s0 (q + 1) = 0).
Proof.
  intros Hq. pose proof (wpb_pos s0 nb Hg). unfold block_of, index_of.
  pose proof (Z.div_mod q (wpb s0) ltac:(lia)). pose proof (Z.mod_pos_bound q (wpb s0) ltac:(lia)).
  destruct (Z.eq_dec (q mod wpb s0) (wpb s0 - 1)) as [E|?]; [right|left].
  - split; [done|]. apply Z.mod_divide; [lia|]. exists (q / wpb s0 + 1). nia.
  - rewrite <- (Z.div_unique (q + 1) (wpb s0) (q / wpb s0) (q mod wpb s0 + 1)) by lia.
    rewrite <- (Z.mod_unique (q + 1) (wpb s0) (q / wpb s0) (q mod wpb s0 + 1)) by lia. lia.
Qed.

Lemma step_at p q : 0 <= q -> at_word p q -> 0 < p_left p -> at_word (step p) (q + 1) /\ p_ref (step p) = block_of s0 q.
Proof.
  intros Hq [(E1 & E2 & E3)|(? & _)] Hl; [|lia]. split; [|done]. pose proof (index_bound q).
  pose proof (bpb_bound s0 nb Hg). unfold step, at_word. cbn. rewrite wrap_small by (unfold in_range; lia).
  destruct (word_succ q Hq) as [[-> ->]|[? ->]]; [left|right]; [lia|].
  replace (q + 1 - 1) with q by lia. lia.
Qed.

(** The block in [startingBlock] goes with the bitmap block of a position. *)
Definition goes_with (startingBlock : Z) (p : position) : Prop :=
  0 <= startingBlock < 32 * W /\ p_ref p = block_of s0 (startingBlock / 32).

Lemma next_block_numbers sb q : 0 <= sb < 32 * W -> 0 <= q < W -> index_of s0 q = 0 ->
  block_of s0 (sb / 32) = block_of s0 (q - 1) ->
  0 <= sb + 32 * wpb s0 < 32 * W /\ block_of s0 ((sb + 32 * wpb s0) / 32) = block_of s0 q.
Proof.
  pose proof (wpb_pos s0 nb Hg). unfold block_of, index_of. intros Hsb Hq Hi E.
  assert (E2 : sb / 32 / wpb s0 = q / wpb s0 - 1).
  { replace (sb / 32 / wpb s0) with ((q - 1) / wpb s0) by lia. symmetry.
    apply (Z.div_unique _ _ _ (wpb s0 - 1)); [lia|]. pose proof (Z.div_mod q (wpb s0)). lia. }
  replace ((sb + 32 * wpb s0) / 32) with (sb / 32 + 1 * wpb s0) by (Z.to_euclidean_division_equations; lia).
  rewrite Z.div_add by lia. split; [|lia]. split; [lia|].
  assert (q / wpb s0 < nb) by (apply Z.div_lt_upper_bound; lia).
  assert (sb / 32 < (q / wpb s0) * wpb s0).
  { pose proof (Z.div_mod (sb / 32) (wpb s0)). pose proof (Z.mod_pos_bound (sb / 32) (wpb s0)). nia. }
  pose proof (Z.div_mod sb 32). pose proof (Z.mod_pos_bound sb 32). nia.
Qed.

Lemma position_of_at f d s b Q : view s0 nb f [block_of s0 (b / 32)] d s -> 0 <= b ->
  (∀ p, at_word p (b / 32) -> 0 < p_left p -> p_ref p = block_of s0 (b / 32) -> Q p s) ->
  runs (position_of (block_of s0 (b / 32)) b) Q s.
Proof.
  intros Hv Hb HQ. unfold position_of. runs_steps. rewrite (agree_size _ _ (view_agree _ _ _ _ _ _ Hv)).
  destruct (size_facts s0 nb Hg) as (k & Hk & Es & Ew & Hw & Es' & Hb31).
  assert (Ei : (b &&& u32 (u32 (vcbVBMIOSize s0 * kBitsPerByte) - 1)) / kBitsPerWord = index_of s0 (b / 32)).
  { unfold kBitsPerByte, kBitsPerWord. rewrite (wrap_small 32 (vcbVBMIOSize s0 * 8)) by (unfold in_range; lia).
    rewrite wrap_small by (unfold in_range; lia).
    replace (vcbVBMIOSize s0 * 8 - 1) with (Z.ones (k + 3))
      by (rewrite Z.ones_equiv, Z.pow_add_r, Es by lia; lia).
    rewrite land_ones_mod by lia. unfold index_of.
    replace (2 ^ (k + 3)) with (32 * wpb s0) by (rewrite Ew, Z.mul_comm; change 32 with (2 ^ 5); rewrite <- Z.pow_add_r by lia; f_equal; lia).
    rewrite Z.rem_mul_r by lia. pose proof (Z.mod_pos_bound b 32). rewrite Z.mul_comm, Z.div_add by lia.
    rewrite Z.div_small by lia. done. }
  rewrite Ei. replace (vcbVBMIOSize s0 / kBytesPerWord) with (wpb s0) by done.
  pose proof (index_bound (b / 32)). rewrite wrap_small by (unfold in_range; lia).
  apply HQ; cbn; [|lia|done]. left. done.
Qed.

Lemma next_block_spec f d s sb p q Q :
  view s0 nb f [p_ref p] d s -> at_word p q -> 0 <= q < W -> goes_with sb p ->
  (∀ err s', read_error bread err -> view s0 nb f [] d s' -> Q (inl err) s') ->
  (∀ sb p s', at_word p q -> 0 < p_left p -> goes_with sb p -> view s0 nb f [p_ref p] d s' -> Q (inr (sb, p)) s') ->
  runs (next_block bread d sb p) Q s.
Proof.
  intros Hv Hp Hq [Hsb Er] HE HQ. unfold next_block. pose proof (index_bound q).
  destruct (Z.eqb_spec (p_left p) 0) as [El|Hl].
  - destruct Hp as [(_ & _ & El2)|(_ & Ei & Er2)]; [lia|]. runs_steps.
    rewrite (agree_size _ _ (view_agree _ _ _ _ _ _ Hv)). eapply view_release; [done|]. intros s1 Hv1. cbn [negb Z.eqb].
    destruct (next_block_numbers sb q) as [Hsb2 Eb2]; [done..|congruence|].
    assert (Esz : u32 (sb + u32 (vcbVBMIOSize s0 * kBitsPerByte)) = sb + 32 * wpb s0).
    { pose proof (bpb_bound s0 nb Hg). pose proof (@geo_blocks _ _ Hg). pose proof (wpb_pos s0 nb Hg).
      rewrite (size_wpb s0 nb Hg). unfold kBitsPerByte. rewrite (wrap_small 32 (_ * 8)) by (unfold in_range; lia).
      rewrite wrap_small by (unfold in_range; lia). lia. }
    rewrite Esz. runs_steps. eapply view_read; [done|done|lia|..].
    + intros err s2 He Hv2. runs_steps. by apply HE.
    + intros s2 Hv2. rewrite Eb2 in *. runs_steps.
      assert (Hend : ∀ s3, view s0 nb f [block_of s0 q] d s3 ->
        Q (inr (sb + 32 * wpb s0, Pos (block_of s0 q) 0 (vcbVBMIOSize s0 / kBytesPerWord))) s3).
      { intros s3 Hv3. change (vcbVBMIOSize s0 / kBytesPerWord) with (wpb s0).
        pose proof (wpb_pos s0 nb Hg). apply HQ; [left; cbn; lia|cbn; lia|split; [done|cbn; congruence]|done]. }
      destruct d; [eapply view_journal; [done|]; intros s3 Hv3|]; runs_steps; auto.
  - runs_steps. apply HQ; [done| |done|done]. destruct Hp as [(_ & _ & ->)|(? & _)]; lia.
Qed.

(** ** Operations on the bits of a word *)

(** [partial] and [whole] ask the bits of a word for [good]; when they all are, they become [new]. *)
Class WordOp (partial : Z -> Z -> Z -> K bool) (whole : Z -> Z -> K bool) (d : bool) (good new : bool -> bool) : Prop := {
  op_partial f s q m lo hi Q :
    view s0 nb f [block_of s0 q] d s -> 0 <= q < W -> masks m lo hi -> 0 <= lo <= hi -> hi <= 32 ->
    (∀ s', all_good good f (32 * q + lo) (hi - lo) ->
      view s0 nb (changed new f (32 * q + lo) (hi - lo)) [block_of s0 q] d s' -> Q true s') ->
    (∀ s', ~ all_good good f (32 * q + lo) (hi - lo) -> view s0 nb f [block_of s0 q] d s' -> Q false s') ->
    runs (partial (block_of s0 q) (index_of s0 q) m) Q s;
  op_whole f s q Q :
    view s0 nb f [block_of s0 q] d s -> 0 <= q < W ->
    (∀ s', all_good good f (32 * q) 32 -> view s0 nb (changed new f (32 * q) 32) [block_of s0 q] d s' -> Q true s') ->
    (∀ s', ~ all_good good f (32 * q) 32 -> view s0 nb f [block_of s0 q] d s' -> Q false s') ->
    runs (whole (block_of s0 q) (index_of s0 q)) Q s }.

Section walk_op.
Context (partial : Z -> Z -> Z -> K bool) (whole : Z -> Z -> K bool) (d : bool) (good new : bool -> bool).
Context {Hop : WordOp partial whole d good new}.
Context (f : Z -> bool) (start n : Z) (Hrun : 0 <= start /\ 0 <= n /\ start + n <= 32 * W /\ start < 32 * W).

(** The first [k] blocks of the run are done. *)
Definition reached (k : Z) (h : list Z) (s : hfsmount) : Prop :=
  0 <= k <= n /\ all_good good f start k /\ view s0 nb (changed new f start k) h d s.

(** The walk was stopped by a bit behind the first [k]. *)
Definition stopped (k : Z) (h : list Z) (s : hfsmount) : Prop :=
  reached k h s /\ ∃ m, k + m <= n /\ ~ all_good good f (start + k) m.

(** What the walk answers. *)
Definition walked (r : Z + bool * Z) (s : hfsmount) : Prop :=
  match r with
  | inl err => read_error bread err /\ ∃ k, reached k [] s
  | inr (true, ref) => reached n [ref] s
  | inr (false, ref) => ∃ k, stopped k [ref] s
  end.

Lemma reached_more k m h s : reached k h s -> 0 <= m -> k + m <= n -> all_good good f (start + k) m ->
  ∀ h' s', view s0 nb (changed new (changed new f start k) (start + k) m) h' d s' -> reached (k + m) h' s'.
Proof.
  intros (Hk & Hall & _) Hm Hn Hg' h' s' Hv. split; [lia|]. split; [by apply all_good_app|].
  eapply view_ext; [done|]. intros b _. apply changed_app; lia.
Qed.

Lemma reached_at k h s h' s' : reached k h s -> view s0 nb (changed new f start k) h' d s' -> reached k h' s'.
Proof. intros (? & ? & _) ?. unfold reached. auto. Qed.

Lemma whole_step p q k s Q : p_ref p = block_of s0 q -> p_index p = index_of s0 q -> start + k = 32 * q ->
  reached k [p_ref p] s -> k + 32 <= n ->
  (∀ s', reached (k + 32) [p_ref p] s' -> Q true s') -> (∀ s', stopped k [p_ref p] s' -> Q false s') ->
  runs (whole (p_ref p) (p_index p)) Q s.
Proof.
  intros Er Ei Ek Hd Hn HT HF. rewrite Er, Ei in *. destruct (Hd) as (Hk & Hall & Hv).
  eapply (op_whole (partial := partial)); [done|lia|..]; intros s' Ha Hv'; rewrite <- Ek, all_good_after in Ha by lia.
  - apply HT. eapply (reached_more k 32); [done|lia|lia|done|]. by rewrite Ek.
  - apply HF. split; [by eapply reached_at|]. by exists 32.
Qed.

Lemma partial_step p q k lo m mask s Q : p_ref p = block_of s0 q -> p_index p = index_of s0 q ->
  start + k = 32 * q + lo -> masks mask lo (lo + m) -> 0 <= lo -> 0 <= m -> lo + m <= 32 ->
  reached k [p_ref p] s -> k + m <= n -> 0 <= q < W ->
  (∀ s', reached (k + m) [p_ref p] s' -> Q true s') -> (∀ s', stopped k [p_ref p] s' -> Q false s') ->
  runs (partial (p_ref p) (p_index p) mask) Q s.
Proof.
  intros Er Ei Ek Hm Hlo Hm0 Hhi Hd Hn Hq HT HF. rewrite Er, Ei in *. destruct (Hd) as (Hk & Hall & Hv).
  eapply (op_partial (whole := whole)); [done|done|done|lia|lia|..]; intros s' Ha Hv'; rewrite <- Ek in *;
    replace (lo + m - lo) with m in * by lia; rewrite all_good_after in Ha by lia.
  - apply HT. by eapply (reached_more k m).
  - apply HF. split; [by eapply reached_at|]. by exists m.
Qed.

(** Whole words, from the word [q] on. *)
Lemma whole_words_spec fuel : ∀ sb p q left s Q, (Z.to_nat left < fuel)%nat -> 0 <= left ->
  at_word p q -> 0 <= q -> goes_with sb p -> reached (n - left) [p_ref p] s -> start + (n - left) = 32 * q ->
  (∀ err s', walked (inl err) s' -> Q (inl err) s') ->
  (∀ sb p left s', stopped (n - left) [p_ref p] s' -> Q (inr (false, sb, p, left)) s') ->
  (∀ sb p q left s', 0 <= left < 32 -> at_word p q -> 0 <= q -> goes_with sb p -> reached (n - left) [p_ref p] s' ->
    start + (n - left) = 32 * q -> Q (inr (true, sb, p, left)) s') ->
  runs (whole_words bread whole d fuel sb p left) Q s.
Proof.
  induction fuel as [|fuel IH]; intros sb p q left s Q Hf Hl Hp Hq Hsb Hd Ek HE HF HT; [lia|]. cbn [whole_words].
  unfold kBitsPerWord. destruct (Z.ltb_spec left 32); [runs_steps; by eapply HT|].
  runs_step. destruct (Hd) as (Hk & Hall & Hv). eapply next_block_spec; [done|done|lia|done|..].
  - intros err s1 He Hv1. runs_steps. apply HE. split; [done|]. by exists (n - left).
  - clear sb p Hp Hsb Hd Hv s. intros sb p s1 Hp Hpl Hsb Hv1. runs_steps.
    destruct Hp as [(Er & Ei & El)|(? & _)]; [|lia].
    eapply (whole_step _ q (n - left)); [done|done|done|by eapply reached_at|lia|..]; intros s2 Hd2; runs_steps.
    + destruct (step_at p q) as [Hp' Er']; [done|by left|done|]. eapply (IH _ _ (q + 1)); try done; try lia.
      replace (n - (left - 32)) with (n - left + 32) by lia. done.
    + by apply HF.
Qed.

(** The bits left after the whole words. *)
Lemma last_word_spec sb p q left s Q : 0 <= left < 32 -> at_word p q -> 0 <= q -> goes_with sb p ->
  reached (n - left) [p_ref p] s -> start + (n - left) = 32 * q -> 0 < left ->
  (∀ err s', walked (inl err) s' -> Q (inl err) s') ->
  (∀ r s', walked (inr r) s' -> Q (inr r) s') ->
  runs (r ← next_block bread d sb p;
        match r with
        | inl err => mret (inl err)
        | inr (_, p) => go ← partial (p_ref p) (p_index p) (lnot32 (Z.shiftr kAllBitsSetInWord left)); mret (inr (go, p_ref p))
        end) Q s.
Proof.
  intros Hl Hp Hq Hsb Hd Ek Hpos HE HQ. runs_step. destruct (Hd) as (Hk & Hall & Hv).
  eapply next_block_spec; [done|done|lia|done|..].
  - intros err s1 He Hv1. runs_steps. apply HE. split; [done|]. exists (n - left). by eapply reached_at.
  - clear sb p Hp Hsb Hd Hv s. intros sb p s1 Hp Hpl Hsb Hv1. runs_steps. destruct Hp as [(Er & Ei & El)|(? & _)]; [|lia].
    eapply (partial_step _ q (n - left) 0 left); [done|done|lia|apply masks_low; lia|lia|lia|lia| |lia|lia|..].
    + split; [lia|]. split; [done|exact Hv1].
    + intros s2 Hd2. runs_steps. apply (HQ (true, _)). by replace (n - left + left) with n in Hd2 by lia.
    + intros s2 Hd2. runs_steps. apply (HQ (false, _)). by exists (n - left).
Qed.

(** The walk answers as [walked] says, and it always answers. *)
Lemma walk_words_spec s : view s0 nb f [block_of s0 (start / 32)] d s ->
  runs (walk_words bread partial whole d (block_of s0 (start / 32)) start n) walked s.
Proof.
  intros Hv. unfold walk_words. runs_step. eapply position_of_at; [done|lia|]. intros p Hp Hpl Hpr. cbv zeta.
  assert (Hsb : goes_with start p) by (split; [lia|done]).
  assert (H0 : reached 0 [p_ref p] s).
  { split; [lia|]. split; [apply all_good_0|]. rewrite Hpr. eapply view_ext; [done|]. intros b _. by rewrite changed_0. }
  pose proof (Z.div_mod start 32 ltac:(lia)) as Ediv. pose proof (Z.mod_pos_bound start 32 ltac:(lia)) as Hmod.
  assert (Hrest : ∀ sb p q left s, 0 <= left -> at_word p q -> 0 <= q -> goes_with sb p ->
    reached (n - left) [p_ref p] s -> start + (n - left) = 32 * q ->
    runs (r ← whole_words bread whole d (S (Z.to_nat left)) sb p left;
      match r with
      | inl err => mret (inl err)
      | inr (go, startingBlock, p, numBlocks) =>
        if negb go then mret (inr (false, p_ref p))
        else if numBlocks =? 0 then mret (inr (true, p_ref p))
        else
          r ← next_block bread d startingBlock p;
          match r with
          | inl err => mret (inl err)
          | inr (_, p) => go ← partial (p_ref p) (p_index p) (lnot32 (Z.shiftr kAllBitsSetInWord numBlocks)); mret (inr (go, p_ref p))
          end
      end) walked s).
  { clear p Hp Hpl Hpr Hsb H0 s Hv. intros sb p q left s Hl Hp Hq Hsb Hd Ek. runs_step.
    eapply whole_words_spec; [lia|done..| | |].
    - intros err s1 He. by runs_steps.
    - intros sb1 p1 left1 s1 Hst. runs_steps. by eexists.
    - clear sb p q left s Hl Hp Hq Hsb Hd Ek. intros sb p q left s Hl Hp Hq Hsb Hd Ek. cbn [negb].
      destruct (Z.eqb_spec left 0) as [->|]; [runs_steps; cbn; by rewrite Z.sub_0_r in Hd|].
      eapply last_word_spec; try done. lia. }
  runs_step. destruct (Z.eqb_spec (start mod kBitsPerWord) 0) as [E0|Hne]; cbn [negb]; unfold kBitsPerWord in *.
  - runs_steps. apply (Hrest _ _ (start / 32)); try done; try lia. by rewrite Z.sub_diag.
  - destruct (masks_first (start mod 32) n) as [Hm En]; [lia..|].
    destruct (first_mask (start mod 32) n) as [bitMask numBits]. cbn [fst snd] in *. subst numBits.
    destruct Hp as [(Er & Ei & El)|(? & _)]; [|lia]. runs_steps.
    eapply (partial_step _ (start / 32) 0 (start mod 32) (Z.min (32 - start mod 32) n)); [done|done|lia| |lia|lia|lia|done|lia|lia|..].
    + by replace (start mod 32 + Z.min (32 - start mod 32) n) with (Z.min 32 (start mod 32 + n)) by lia.
    + intros s1 Hd1. runs_steps. cbn [negb].
      destruct (step_at p (start / 32)) as [Hp' Er']; [lia|by left|done|].
      destruct (Z.le_gt_cases (32 - start mod 32) n).
      * rewrite Z.min_l in * by lia. apply (Hrest _ _ (start / 32 + 1)); try done; try lia.
        by replace (n - (n - (32 - start mod 32))) with (0 + (32 - start mod 32)) by lia.
      * rewrite Z.min_r in * by lia. rewrite Z.sub_diag. cbn [Z.to_nat whole_words]. runs_steps. cbn. exact Hd1.
    + intros s1 Hd1. runs_steps. cbn [negb]. runs_steps. cbn. rewrite <- Hpr. by eexists.
Qed.
End walk_op.

(** ** The operations of the three walks *)

(** A word masked as the operation on some of its bits masks it. *)
Lemma masked_bit (w m : Z) (j : Z) : in_range 32 w -> in_range 32 m -> 0 <= j < 32 ->
  Z.testbit (SWAP_BE32 (w &&& SWAP_BE32 m)) (31 - j) = Z.testbit (SWAP_BE32 w) (31 - j) && Z.testbit m (31 - j).
Proof. intros. by rewrite swap32_land_swap, Z.land_spec. Qed.

Lemma changed_in_word new f q lo hi j : 0 <= j < 32 ->
  changed new f (32 * q + lo) (hi - lo) (32 * q + j) = if (lo <=? j) && (j <? hi) then new (f (32 * q + j)) else f (32 * q + j).
Proof.
  intros. unfold changed. destruct (Z.leb_spec (32 * q + lo) (32 * q + j)), (Z.ltb_spec (32 * q + j) (32 * q + lo + (hi - lo))),
    (Z.leb_spec lo j), (Z.ltb_spec j hi); try done; lia.
Qed.

Lemma changed_other_word new f q lo hi b : 0 <= lo -> hi <= 32 -> b / 32 <> q ->
  changed new f (32 * q + lo) (hi - lo) b = f b.
Proof.
  intros Hlo Hhi Hne. unfold changed. destruct (Z.leb_spec (32 * q + lo) b), (Z.ltb_spec b (32 * q + lo + (hi - lo))); try done.
  exfalso. apply Hne. symmetry. apply (Z.div_unique b 32 q (b - 32 * q)); lia.
Qed.

(** What the masked bits of a word say of the run. *)
Lemma masked_zero f q w m lo hi : in_range 32 w -> masks m lo hi -> 0 <= lo -> hi <= 32 ->
  (∀ j, 0 <= j < 32 -> Z.testbit (SWAP_BE32 w) (31 - j) = f (32 * q + j)) ->
  w &&& SWAP_BE32 m = 0 <-> all_good negb f (32 * q + lo) (hi - lo).
Proof.
  intros Hw [Hm Hbits] Hlo Hhi Hf. split.
  - intros E b Hb. set (j := b - 32 * q). assert (Hj : 0 <= j < 32) by (unfold j; lia).
    pose proof (masked_bit w m j Hw Hm Hj) as E2. rewrite E, Hbits, Hf in E2 by done.
    rewrite (proj2 (Z.leb_le lo j)), (proj2 (Z.ltb_lt j hi)) in E2 by (unfold j; lia).
    change (SWAP_BE32 0) with 0 in E2. rewrite Z.testbit_0_l, andb_true_r in E2. replace b with (32 * q + j) by (unfold j; lia).
    by rewrite <- E2.
  - intros Ha. apply swap32_inj; [apply in_range_land; [done|apply swap32_range]|by split|].
    apply word_bits_inj; [apply swap32_range..|]. intros j Hj. rewrite masked_bit, Hbits, Hf by done.
    change (SWAP_BE32 0) with 0. rewrite Z.testbit_0_l. destruct (Z.leb_spec lo j), (Z.ltb_spec j hi); rewrite ?andb_false_r; try done.
    cbn. rewrite andb_true_r. apply negb_true_iff, Ha. lia.
Qed.

Lemma masked_ones f q w m lo hi : in_range 32 w -> masks m lo hi -> 0 <= lo -> hi <= 32 ->
  (∀ j, 0 <= j < 32 -> Z.testbit (SWAP_BE32 w) (31 - j) = f (32 * q + j)) ->
  w &&& SWAP_BE32 m = SWAP_BE32 m <-> all_good id f (32 * q + lo) (hi - lo).
Proof.
  intros Hw [Hm Hbits] Hlo Hhi Hf. split.
  - intros E b Hb. set (j := b - 32 * q). assert (Hj : 0 <= j < 32) by (unfold j; lia).
    pose proof (masked_bit w m j Hw Hm Hj) as E2. rewrite E, SWAP_BE32_involutive, Hbits, Hf in E2 by done.
    rewrite (proj2 (Z.leb_le lo j)), (proj2 (Z.ltb_lt j hi)) in E2 by (unfold j; lia).
    rewrite !andb_true_r in E2. replace b with (32 * q + j) by (unfold j; lia). by rewrite <- E2.
  - intros Ha. apply swap32_inj; [apply in_range_land; [done|apply swap32_range]|apply swap32_range|].
    apply word_bits_inj; [apply swap32_range..|]. intros j Hj. rewrite masked_bit, SWAP_BE32_involutive, Hbits, Hf by done.
    destruct (Z.leb_spec lo j), (Z.ltb_spec j hi); rewrite ?andb_false_r; try done.
    cbn. rewrite andb_true_r. apply (Ha (32 * q + j)). lia.
Qed.

Lemma partial_all w : in_range 32 w -> w &&& SWAP_BE32 kAllBitsSetInWord = w.
Proof.
  intros. change (SWAP_BE32 kAllBitsSetInWord) with (Z.ones 32). rewrite land_ones_mod by lia. by apply Z.mod_small.
Qed.

#[export] Instance mark_op : WordOp mark_partial mark_whole true (λ _, true) (λ _, true).
Proof.
  split.
  - intros f s q m lo hi Q Hv Hq [Hm Hbits] Hlo Hhi HT _. unfold mark_partial. runs_step.
    eapply view_word; [done..|]. intros w Hw Hf. runs_step.
    eapply (view_set_word _ _ Hg _ (changed (λ _, true) f (32 * q + lo) (hi - lo))); [done|done| | | |].
    + apply in_range_lor; [done|apply swap32_range].
    + intros j Hj. rewrite swap32_lor_swap, Z.lor_spec, Hf, Hbits, changed_in_word by done.
      destruct (_ && _); [by rewrite orb_true_r|by rewrite orb_false_r].
    + intros b _ Hb. apply changed_other_word; [lia|lia|done].
    + intros s' Hv'. runs_steps. apply HT; [by intros ? ?|done].
  - intros f s q Q Hv Hq HT _. unfold mark_whole. runs_step.
    eapply (view_set_word _ _ Hg _ (changed (λ _, true) f (32 * q + 0) (32 - 0))); [done|done|apply swap32_range| | |].
    + intros j Hj. rewrite changed_in_word, SWAP_BE32_involutive by done. rewrite (proj2 masks_all j Hj). by destruct (_ && _) eqn:E; [|lia].
    + intros b _ Hb. apply changed_other_word; [lia|lia|done].
    + intros s' Hv'. runs_steps. apply HT; [by intros ? ?|]. by rewrite Z.add_0_r in Hv'.
Qed.

#[export] Instance free_op : WordOp free_partial free_whole true id (λ _, false).
Proof.
  split.
  - intros f s q m lo hi Q Hv Hq Hm Hlo Hhi HT HF. unfold free_partial. runs_step.
    eapply view_word; [done..|]. intros w Hw Hf. pose proof (masked_ones f q w m lo hi Hw Hm ltac:(lia) ltac:(lia) Hf) as Hones.
    destruct (Z.eqb_spec (w &&& SWAP_BE32 m) (SWAP_BE32 m)) as [E|Hne]; cbn [negb]; [|runs_steps; apply HF; [by rewrite <- Hones|done]].
    destruct Hm as [Hm Hbits]. runs_step.
    eapply (view_set_word _ _ Hg _ (changed (λ _, false) f (32 * q + lo) (hi - lo))); [done|done| | | |].
    + apply in_range_land; [done|apply swap32_range].
    + intros j Hj. rewrite masked_bit, Hf, lnot32_testbit, Hbits, changed_in_word by (done || lia || by apply in_range_lnot32).
      destruct ((lo <=? j) && (j <? hi)); [by rewrite andb_false_r|by rewrite andb_true_r].
    + intros b _ Hb. apply changed_other_word; [lia|lia|done].
    + intros s' Hv'. runs_steps. apply HT; [by apply Hones|done].
  - intros f s q Q Hv Hq HT HF. unfold free_whole. runs_step.
    eapply view_word; [done..|]. intros w Hw Hf.
    pose proof (masked_ones f q w kAllBitsSetInWord 0 32 Hw masks_all ltac:(lia) ltac:(lia) Hf) as Hones.
    rewrite partial_all, Z.add_0_r in Hones by done.
    destruct (Z.eqb_spec w (SWAP_BE32 kAllBitsSetInWord)) as [E|Hne]; cbn [negb]; [|runs_steps; apply HF; [by rewrite <- Hones|done]].
    runs_step. eapply (view_set_word _ _ Hg _ (changed (λ _, false) f (32 * q + 0) (32 - 0))); [done|done|by split| | |].
    + intros j Hj. rewrite changed_in_word by done. change (SWAP_BE32 0) with 0. rewrite Z.testbit_0_l.
      by destruct (_ && _) eqn:E2; [|lia].
    + intros b _ Hb. apply changed_other_word; [lia|lia|done].
    + intros s' Hv'. runs_steps. apply HT; [by apply Hones|]. by rewrite Z.add_0_r in Hv'.
Qed.

#[export] Instance test_op : WordOp test_partial test_whole false negb id.
Proof.
  assert (Hid : ∀ f a n b, changed id f a n b = f b) by (intros; unfold changed; by destruct (_ && _)).
  split.
  - intros f s q m lo hi Q Hv Hq Hm Hlo Hhi HT HF. unfold test_partial. runs_step.
    eapply view_word; [done..|]. intros w Hw Hf. pose proof (masked_zero f q w m lo hi Hw Hm ltac:(lia) ltac:(lia) Hf) as Hz.
    runs_steps. destruct (Z.eqb_spec (w &&& SWAP_BE32 m) 0) as [E|Hne].
    + apply HT; [by apply Hz|]. eapply view_ext; [done|]. intros b _. by rewrite Hid.
    + apply HF; [by rewrite <- Hz|done].
  - intros f s q Q Hv Hq HT HF. unfold test_whole. runs_step.
    eapply view_word; [done..|]. intros w Hw Hf.
    pose proof (masked_zero f q w kAllBitsSetInWord 0 32 Hw masks_all ltac:(lia) ltac:(lia) Hf) as Hz.
    rewrite partial_all, Z.add_0_r in Hz by done.
    runs_steps. destruct (Z.eqb_spec w 0) as [E|Hne].
    + apply HT; [by apply Hz|]. eapply view_ext; [done|]. intros b _. by rewrite Hid.
    + apply HF; [by rewrite <- Hz|done].
Qed.

End walk.

End VolumeWalk.
