(* ===== verification/VolumeRuns.v ===== *)
(** Marking, freeing and testing a run of blocks: what they answer, and what they leave of the
    bitmap. *)

From S2P Require Import Prelude.
From S2P Require Import Volume.
From S2P Require Import VolumeSpec.
From S2P Require Import VolumeWalk.
Import Volume.Volume VolumeSpec.VolumeSpec VolumeWalk.VolumeWalk.

Module VolumeRuns.

(** The volume between two operations: no bitmap block is held, no change is not saved. *)
Record quiet (nb : Z) (s : hfsmount) : Prop := Quiet {
  quiet_geometry : geometry s nb;
  quiet_bitmap : bitmap_ok s nb;
  quiet_held : held s = [];
  quiet_unsaved : unsaved s = [] }.

(** The bitmap is [g] where it has blocks. *)
Definition bitmap_is (nb : Z) (s : hfsmount) (g : Z -> bool) : Prop :=
  ∀ b, 0 <= b < 32 * (wpb s * nb) -> bit s b = g b.

(** A run of blocks of the bitmap. *)
Definition in_bitmap (nb : Z) (s : hfsmount) (start n : Z) : Prop :=
  0 <= start < 32 * (wpb s * nb) /\ 0 <= n /\ start + n <= 32 * (wpb s * nb).

Lemma view_of_quiet nb s : quiet nb s -> view s nb (bit s) [] false s.
Proof. intros [Hg Hb Hh Hu]. split; [apply agree_refl|done|done|done|]. by rewrite Hu. Qed.

Lemma agree_geometry s0 s nb : agree s0 s -> geometry s0 nb -> geometry s nb.
Proof. intros Ha [Hs Hb]. split; [by rewrite (agree_size _ _ Ha)|by rewrite (agree_wpb _ _ Ha)]. Qed.

Lemma quiet_of_view s0 nb f d s : geometry s0 nb -> view s0 nb f [] d s ->
  quiet nb s /\ agree s0 s /\ bitmap_is nb s f.
Proof.
  intros Hg [Ha Hb Hbits Hh Hu]. split; [split; try done|split; [done|]].
  - by eapply agree_geometry.
  - destruct (unsaved s) as [|r u]; [done|]. apply Forall_cons_1 in Hu as [[_ []%not_elem_of_nil] _].
  - intros b Hb'. rewrite (agree_wpb _ _ Ha) in Hb'. by apply Hbits.
Qed.

Lemma view_idle s0 nb f d d' s : view s0 nb f [] d s -> view s0 nb f [] d' s.
Proof. intros []. split; try done. eapply Forall_impl; [done|]. cbn. by intros r [_ []%not_elem_of_nil]. Qed.

Section runs_of_blocks.
Context (s0 : hfsmount) (nb : Z) (Hg : geometry s0 nb) (bread : hfsmount -> Z -> Z).
Context (f : Z -> bool) (start n : Z) (Hrun : 0 <= start /\ 0 <= n /\ start + n <= 32 * (wpb s0 * nb) /\ start < 32 * (wpb s0 * nb)).

Abbreviation after new k := (view s0 nb (changed new f start k) [] false).

Lemma mark_view s Q : view s0 nb f [] false s ->
  (∀ s', after (λ _, true) n s' -> Q 0 s') ->
  (∀ err k s', read_error bread err -> 0 <= k <= n -> after (λ _, true) k s' -> Q err s') ->
  runs (BlockMarkAllocated bread start n) Q s.
Proof.
  intros Hv H0 HE. unfold BlockMarkAllocated. runs_step. eapply (view_read s0 nb Hg bread f true); [by eapply view_idle|lia|..].
  - intros err s1 He Hv1. runs_steps. eapply (HE err 0); [done|lia|]. eapply view_ext; [by eapply view_idle|].
    intros b _. by rewrite changed_0.
  - intros s1 Hv1. runs_step. eapply view_journal; [done|]. intros s2 Hv2. runs_step.
    eapply runs_weaken; [by apply (walk_words_spec s0 nb Hg bread _ _ true (λ _, true) (λ _, true) f start n Hrun)|].
    intros [err|[[|] ref]] s3.
    + intros (He & k & Hk & _ & Hv3). runs_steps. eapply HE; [done|done|by eapply view_idle].
    + intros (_ & _ & Hv3). runs_step. eapply view_release; [done|]. intros s4 Hv4. runs_steps. apply H0. by eapply view_idle.
    + intros (k & (Hk & _ & _) & m & _ & []). by intros b _.
Qed.

(** The run has a bit that is not as [good] wants it. *)
Abbreviation some_bad good := (~ all_good good f start n).

Lemma stopped_some_bad good new d k h s : stopped s0 nb d good new f start n k h s -> some_bad good.
Proof. intros ((Hk & _ & _) & m & Hm & Hn) Ha. apply Hn. intros b Hb. apply Ha. lia. Qed.

Lemma free_view s Q : view s0 nb f [] false s -> start + n <= totalBlocks s0 ->
  (∀ s', all_good id f start n -> after (λ _, false) n s' -> Q 0 s') ->
  (∀ k s', some_bad id -> 0 <= k <= n -> all_good id f start k -> after (λ _, false) k s' -> Q EIO s') ->
  (∀ err k s', read_error bread err -> 0 <= k <= n -> all_good id f start k -> after (λ _, false) k s' -> Q err s') ->
  runs (BlockMarkFree bread start n) Q s.
Proof.
  intros Hv Ht H0 HF HE. unfold BlockMarkFree. runs_steps.
  assert (Et : totalBlocks s = totalBlocks s0) by (by destruct (view_agree _ _ _ _ _ _ Hv) as (m & h & u & c & ->)).
  pose proof (@geo_blocks _ _ Hg). destruct (Z.ltb_spec (totalBlocks s) (u32 (start + n))) as [Hlt|_].
  { exfalso. pose proof (Z.mod_le (start + n) (2 ^ 32)). unfold wrap in Hlt. lia. }
  runs_steps. eapply (view_read s0 nb Hg bread f true); [by eapply view_idle|lia|..].
  - intros err s1 He Hv1. runs_steps. eapply (HE err 0); [done|lia|apply all_good_0|]. eapply view_ext; [by eapply view_idle|].
    intros b _. by rewrite changed_0.
  - intros s1 Hv1. runs_step. eapply view_journal; [done|]. intros s2 Hv2. runs_step.
    eapply runs_weaken; [by apply (walk_words_spec s0 nb Hg bread _ _ true id (λ _, false) f start n Hrun)|].
    intros [err|[[|] ref]] s3.
    + intros (He & k & Hk & Ha & Hv3). runs_steps. eapply HE; [done|done|done|by eapply view_idle].
    + intros (_ & Ha & Hv3). cbn [negb]. runs_steps. eapply view_release; [done|]. intros s4 Hv4. runs_step.
      eapply view_emit; [done|]. intros s5 Hv5. runs_steps. apply H0; [done|by eapply view_idle].
    + intros (k & Hst). pose proof (stopped_some_bad _ _ _ _ _ _ Hst) as Hbad. destruct Hst as ((Hk & Ha & Hv3) & _).
      cbn [negb]. runs_step. eapply view_emit; [done|]. intros s4 Hv4. runs_step.
      eapply view_release; [done|]. intros s5 Hv5. runs_steps. eapply HF; [done|done|done|by eapply view_idle].
Qed.

Lemma test_view s Q : view s0 nb f [] false s ->
  (∀ s', all_good negb f start n -> view s0 nb f [] false s' -> Q 0 s') ->
  (∀ s', some_bad negb -> view s0 nb f [] false s' -> Q 1 s') ->
  (∀ err s', read_error bread err -> view s0 nb f [] false s' -> Q err s' /\ Q 0 s') ->
  runs (hfs_isallocated bread start n) Q s.
Proof.
  assert (Hid : ∀ k h s, view s0 nb (changed id f start k) h false s -> view s0 nb f h false s).
  { intros k h s1 Hv1. eapply view_ext; [done|]. intros b _. unfold changed. by destruct (_ && _). }
  intros Hv H0 H1 HE. unfold hfs_isallocated. runs_step. eapply view_read; [done|by eapply view_idle|lia|..].
  - intros err s1 He Hv1. runs_steps. by eapply (HE err).
  - intros s1 Hv1. runs_step.
    eapply runs_weaken; [by apply (walk_words_spec s0 nb Hg bread _ _ false negb id f start n Hrun)|].
    intros [err|[[|] ref]] s2.
    + intros (He & k & Hk & Ha & Hv3). runs_steps. eapply HE; [done|by eapply view_idle, Hid].
    + intros (_ & Ha & Hv3). runs_step. eapply view_release; [done|]. intros s4 Hv4. runs_steps. apply H0; [done|by eapply Hid].
    + intros (k & Hst). pose proof (stopped_some_bad _ _ _ _ _ _ Hst) as Hbad. destruct Hst as ((Hk & Ha & Hv3) & _).
      runs_step. eapply view_release; [done|]. intros s4 Hv4. runs_steps. apply H1; [done|by eapply Hid].
Qed.
End runs_of_blocks.

(** ** A small volume *)

(** Bitmap blocks of one word, 60 blocks of which 0 to 7 and 40 to 43 are in use. *)
Definition sample : hfsmount :=
  Hfs kHFSPlusSigWord 4 0 4096 60 60 0 0 0 false 0 48 0 0 0 0 (replicate kMaxFreeExtents (Extent 0 0))
    (<[0 := [0x000000FF]]> (<[1 := [0x0000F000]]> ∅)) [] [] [].

Lemma sample_quiet : quiet 2 sample.
Proof.
  split; [split| |done|done].
  - by exists 2.
  - by vm_compute.
  - intros q Hq. change (wpb sample) with 1 in *. assert (q = 0 \/ q = 1) as [-> | ->] by lia.
    + exists [0x000000FF]. split; [done|]. split; [done|]. by repeat constructor.
    + exists [0x0000F000]. split; [done|]. split; [done|]. by repeat constructor.
Defined.

(** The bits of the sample. *)
Example sample_bits : filter (λ b, bit sample b = true) (seqZ 0 64) = [0; 1; 2; 3; 4; 5; 6; 7; 40; 41; 42; 43].
Proof. by vm_compute. Qed.

(** ** What the routines promise *)

Section promises.
Context (bread : hfsmount -> Z -> Z) (nb : Z) (s : hfsmount) (Hq : quiet nb s).

Lemma promise_view f s' : view s nb f [] false s' -> quiet nb s' /\ agree s s' /\ bitmap_is nb s' f.
Proof. apply quiet_of_view, Hq. Qed.

(** Marking a run sets its bits and no others, or stops with an error of reading behind a part. *)
Lemma mark_allocated_exact start n : in_bitmap nb s start n ->
  runs (BlockMarkAllocated bread start n) (λ err s', quiet nb s' /\ agree s s' /\
    ∃ k, 0 <= k <= n /\ bitmap_is nb s' (changed (λ _, true) (bit s) start k) /\
      ((err = 0 /\ k = n) \/ read_error bread err)) s.
Proof.
  intros (H1 & H2 & H3). eapply (mark_view s nb (quiet_geometry _ _ Hq)); [lia|by apply view_of_quiet|..].
  - intros s' (A1 & A2 & A3)%promise_view. split_and!; try done. exists n. split; [lia|]. split; [done|by left].
  - intros err k s' He Hk (A1 & A2 & A3)%promise_view. split_and!; try done. exists k. split; [done|]. split; [done|by right].
Qed.

(** C36 (error): freeing a run of blocks clears exactly the bits of the run and answers 0 when all
    of them were set; when one was clear it answers EIO, with a part of the run before that bit
    cleared already; an error of reading a bitmap block is passed on, again with a part cleared.
    All other bits stay, and every bitmap block is released with its changes saved. *)
Theorem mark_free_exact start n : in_bitmap nb s start n -> start + n <= totalBlocks s ->
  runs (BlockMarkFree bread start n) (λ err s', quiet nb s' /\ agree s s' /\
    ∃ k, 0 <= k <= n /\ all_good id (bit s) start k /\ bitmap_is nb s' (changed (λ _, false) (bit s) start k) /\
      ((err = 0 /\ k = n) \/ (err = EIO /\ ~ all_good id (bit s) start n) \/ read_error bread err)) s.
Proof.
  intros (H1 & H2 & H3) Ht. eapply (free_view s nb (quiet_geometry _ _ Hq)); [lia|by apply view_of_quiet|done|..].
  - intros s' Ha (A1 & A2 & A3)%promise_view. split_and!; try done. exists n. split; [lia|]. split; [done|]. split; [done|by left].
  - intros k s' Hbad Hk Ha (A1 & A2 & A3)%promise_view. split_and!; try done. exists k. split; [done|]. split; [done|]. split; [done|by right; left].
  - intros err k s' He Hk Ha (A1 & A2 & A3)%promise_view. split_and!; try done. exists k. split; [done|]. split; [done|]. split; [done|by right; right].
Qed.

(** The word-by-word test of a run equals the test of its bits one by one: it
    answers 1 when one of them is set and 0 when none is, changes nothing and releases every
    bitmap block; only when a bitmap block cannot be read is the answer the error or 0. *)
Theorem isallocated_exact start n : in_bitmap nb s start n ->
  runs (hfs_isallocated bread start n) (λ r s', quiet nb s' /\ agree s s' /\ bitmap_is nb s' (bit s) /\
    ((r = 0 /\ all_good negb (bit s) start n) \/ (r = 1 /\ ~ all_good negb (bit s) start n) \/
     ∃ err, read_error bread err /\ (r = err \/ r = 0))) s.
Proof.
  intros (H1 & H2 & H3). eapply (test_view s nb (quiet_geometry _ _ Hq)); [lia|by apply view_of_quiet|..].
  - intros s' Ha (A1 & A2 & A3)%promise_view. split_and!; try done. by left.
  - intros s' Ha (A1 & A2 & A3)%promise_view. split_and!; try done. by right; left.
  - intros err s' He (A1 & A2 & A3)%promise_view. split; (split_and!; [done..|right; right; exists err; by split; [|auto]]).
Qed.
End promises.

(** Blocks 40 to 43 are freed; then freeing 38 to 43 stops at once. *)
Lemma mark_free_exact_witness : quiet 2 sample /\ in_bitmap 2 sample 40 4 /\ 40 + 4 <= totalBlocks sample /\
  runs (BlockMarkFree (λ _ _, 0) 40 4) (λ err s', quiet 2 s' /\ agree sample s' /\
    ∃ k, 0 <= k <= 4 /\ all_good id (bit sample) 40 k /\ bitmap_is 2 s' (changed (λ _, false) (bit sample) 40 k) /\
      ((err = 0 /\ k = 4) \/ (err = EIO /\ ~ all_good id (bit sample) 40 4) \/ read_error (λ _ _, 0) err)) sample.
Proof.
  assert (Hb : in_bitmap 2 sample 40 4) by (unfold in_bitmap; vm_compute; repeat split; congruence).
  split; [exact sample_quiet|]. split; [exact Hb|]. split; [vm_compute; congruence|].
  apply (mark_free_exact (λ _ _, 0) 2 sample sample_quiet 40 4 Hb). vm_compute. congruence.
Defined.

Lemma isallocated_exact_witness : quiet 2 sample /\ in_bitmap 2 sample 20 30 /\
  runs (hfs_isallocated (λ _ _, 0) 20 30) (λ r s', quiet 2 s' /\ agree sample s' /\ bitmap_is 2 s' (bit sample) /\
    ((r = 0 /\ all_good negb (bit sample) 20 30) \/ (r = 1 /\ ~ all_good negb (bit sample) 20 30) \/
     ∃ err, read_error (λ _ _, 0) err /\ (r = err \/ r = 0))) sample.
Proof.
  assert (Hb : in_bitmap 2 sample 20 30) by (unfold in_bitmap; vm_compute; repeat split; congruence).
  split; [exact sample_quiet|]. split; [exact Hb|]. exact (isallocated_exact (λ _ _, 0) 2 sample sample_quiet 20 30 Hb).
Defined.

(** The answer of a computation. *)
Definition answer {A} (m : K A) (s : hfsmount) : option A := fst <$> m s.

Example isallocated_across_blocks : answer (hfs_isallocated (λ _ _, 0) 20 30) sample = Some 1.
Proof. by vm_compute. Qed.

(** The second bitmap block cannot be read: blocks that are in use are reported free. *)
Example isallocated_hides_error :
  answer (hfs_isallocated (λ _ b, if b =? 1 then 5 else 0) 20 30) sample = Some 0 /\ bit sample 40 = true.
Proof. by vm_compute. Qed.

(** Freeing 20 to 41 where 32 to 39 are free already: EIO, and 20 to 31 are free. *)
Example mark_free_prefix : 
  match BlockMarkFree (λ _ _, 0) 20 22 (set_bitmap (<[0 := [0xFFFFFFFF]]> (bitmap sample)) sample) with
  | Some (err, s') => err = EIO /\ bit s' 20 = false /\ bit s' 31 = false /\ freeBlocks s' = 48 /\ calls s' <> []
  | None => False
  end.
Proof. by vm_compute. Qed.

(** The sum of the check on the range wraps: a run far behind the end of the volume is not
    refused, and its bitmap block is asked for. *)
Example mark_free_sum_wraps :
  totalBlocks sample < (2 ^ 32 - 8) + 8 /\
  answer (BlockMarkFree (λ _ b, if b <? 2 then 0 else 22) (2 ^ 32 - 8) 8) sample = Some 22.
Proof. by vm_compute. Qed.

End VolumeRuns.
