(* ===== verification/VolumeAny.v ===== *)
(** [BlockAllocateAny]: the first free block of a range is found, and the free blocks from it on
    are marked. *)

From S2P Require Import Prelude.
From S2P Require Import Volume.
From S2P Require Import VolumeSpec.
From S2P Require Import VolumeWalk.
From S2P Require Import VolumeRuns.
Import Volume.Volume VolumeSpec.VolumeSpec VolumeWalk.VolumeWalk VolumeRuns.VolumeRuns.

Module VolumeAny.

Section any.
Context (s0 : hfsmount) (nb : Z) (Hg : geometry s0 nb) (bread : hfsmount -> Z -> Z).

Abbreviation W := (wpb s0 * nb).

(** ** One word at a time *)

(** [bitMask] selects the bit of a block in its word. *)
Definition selects (bitMask block : Z) : Prop := bitMask = 2 ^ (31 - block mod 32).

Lemma high_bit_selects block : selects (high_bit block) block.
Proof.
  unfold selects, high_bit, kHighBitInWordMask. change (kBitsPerWord - 1) with (Z.ones 5). rewrite land_ones_mod by lia.
  change (2 ^ 5) with 32. pose proof (Z.mod_pos_bound block 32 ltac:(lia)). change 2147483648 with (2 ^ 31).
  rewrite Z.shiftr_div_pow2, <- Z.pow_sub_r by lia. done.
Qed.

Lemma first_selects q : selects kHighBitInWordMask (32 * q).
Proof. unfold selects. rewrite Z.mul_comm, Z.mod_mul by lia. done. Qed.

(** The next block is in the same word, or the first of the next. *)
Lemma selects_next bitMask block : 0 <= block -> selects bitMask block ->
  (Z.shiftr bitMask 1 <> 0 /\ selects (Z.shiftr bitMask 1) (block + 1) /\ (block + 1) / 32 = block / 32) \/
  (Z.shiftr bitMask 1 = 0 /\ block + 1 = 32 * (block / 32 + 1)).
Proof.
  unfold selects. intros Hb ->. pose proof (Z.mod_pos_bound block 32 ltac:(lia)). pose proof (Z.div_mod block 32 ltac:(lia)).
  destruct (Z.eq_dec (block mod 32) 31) as [E|Hne].
  - right. rewrite E. split; [done|lia].
  - left. rewrite Z.shiftr_div_pow2, <- Z.pow_sub_r by lia. pose proof (Z.pow_pos_nonneg 2 (31 - block mod 32 - 1)).
    split; [lia|]. rewrite <- (Z.mod_unique (block + 1) 32 (block / 32) (block mod 32 + 1)) by lia.
    split; [f_equal; lia|]. symmetry. apply (Z.div_unique _ _ _ (block mod 32 + 1)); lia.
Qed.

(** A word as the bits of [g]. *)
Definition holds_bits (w : Z) (g : Z -> bool) (q : Z) : Prop :=
  in_range 32 w /\ ∀ j, 0 <= j < 32 -> Z.testbit w (31 - j) = g (32 * q + j).

Lemma selected_bit w g bitMask block : holds_bits w g (block / 32) -> selects bitMask block ->
  (w &&& bitMask =? 0) = negb (g block).
Proof.
  intros [Hw Hb] ->. pose proof (Z.mod_pos_bound block 32 ltac:(lia)). pose proof (Z.div_mod block 32 ltac:(lia)) as E.
  pose proof (truth_land_bit w (31 - block mod 32) ltac:(lia)) as Ht. rewrite Hb, <- E in Ht by done.
  unfold truth in Ht. by rewrite <- Ht, negb_involutive.
Qed.

Lemma holds_bits_ext w g g' q : holds_bits w g q -> (∀ j, 0 <= j < 32 -> g (32 * q + j) = g' (32 * q + j)) -> holds_bits w g' q.
Proof. intros [Hw Hb] E. split; [done|]. intros j Hj. by rewrite <- E, Hb. Qed.

(** The bit of a block is set in its word. *)
Lemma holds_bits_set w f first k bitMask : holds_bits w (changed (λ _, true) f first k) ((first + k) / 32) -> 0 <= k ->
  selects bitMask (first + k) -> holds_bits (w ||| bitMask) (changed (λ _, true) f first (k + 1)) ((first + k) / 32).
Proof.
  intros [Hw Hb] Hk ->. set (b := first + k) in *.
  pose proof (Z.mod_pos_bound b 32 ltac:(lia)). pose proof (Z.div_mod b 32 ltac:(lia)) as E. split.
  - apply in_range_lor; [done|]. split; [apply Z.pow_nonneg; lia|]. apply Z.pow_lt_mono_r; lia.
  - intros j Hj. rewrite Z.lor_spec, Hb, Z.pow2_bits_eqb by lia. unfold changed.
    destruct (Z.leb_spec first (32 * (b / 32) + j)), (Z.ltb_spec (32 * (b / 32) + j) (first + k)),
      (Z.ltb_spec (32 * (b / 32) + j) (first + (k + 1))), (Z.eqb_spec (31 - b mod 32) (31 - j));
      cbn; rewrite ?orb_true_r, ?orb_false_r; try done; unfold b in *; lia.
Qed.

Lemma word_in_bitmap q : 0 <= q < W -> index_of s0 q + 1 < wpb s0 -> q + 1 < W.
Proof.
  pose proof (wpb_pos s0 nb Hg). intros Hq Hi. destruct (Z.eq_dec (q + 1) W) as [E|]; [|lia]. exfalso.
  assert (Em : index_of s0 q = wpb s0 - 1); [|lia]. unfold index_of. symmetry. apply (Z.mod_unique _ _ (nb - 1)); lia.
Qed.

(** The word of a position as bits. *)
Lemma read_word f d s p q Q : view s0 nb f [p_ref p] d s -> at_word s0 p q -> 0 < p_left p -> 0 <= q < W ->
  (∀ w, holds_bits (SWAP_BE32 w) f q -> Q w s) -> runs (word (p_ref p) (p_index p)) Q s.
Proof.
  intros Hv [(Er & Ei & El)|(? & _)] Hl Hq HQ; [|lia]. rewrite Er, Ei in *.
  eapply view_word; [done..|]. intros w Hw Hb. apply HQ. split; [apply swap32_range|done].
Qed.

(** Writing the bits of a word makes the bitmap what they say. *)
Lemma write_word f g d s p q w Q : view s0 nb f [p_ref p] d s -> at_word s0 p q -> 0 < p_left p -> 0 <= q < W ->
  holds_bits w g q -> (∀ b, b / 32 <> q -> g b = f b) ->
  (∀ s', view s0 nb g [p_ref p] true s' -> Q tt s') -> runs (set_word (p_ref p) (p_index p) (SWAP_BE32 w)) Q s.
Proof.
  intros Hv [(Er & Ei & El)|(? & _)] Hl Hq [Hw Hb] Ho HQ; [|lia]. rewrite Er, Ei in *.
  eapply (view_set_word _ _ Hg); [done|done|apply swap32_range| |by intros; apply Ho|done].
  intros j Hj. rewrite SWAP_BE32_involutive by done. by apply Hb.
Qed.

(** The first word of a bitmap block. *)
Lemma first_word_at q : index_of s0 q = 0 -> at_word s0 (Pos (block_of s0 q) 0 (vcbVBMIOSize s0 / kBytesPerWord)) q /\
  0 < p_left (Pos (block_of s0 q) 0 (vcbVBMIOSize s0 / kBytesPerWord)).
Proof.
  intros E. change (vcbVBMIOSize s0 / kBytesPerWord) with (wpb s0). pose proof (wpb_pos s0 nb Hg). split; [left|]; cbn; lia.
Qed.

(** The next word, in the same block or in the next one. *)
Lemma step_in_block p q : at_word s0 p q -> 0 < p_left p -> 0 <= q < W -> p_left (step p) <> 0 ->
  at_word s0 (step p) (q + 1) /\ 0 < p_left (step p) /\ q + 1 < W.
Proof.
  intros Hp Hpl Hq Hl. destruct (step_at s0 nb Hg p q) as [Hp' _]; [lia|done|done|].
  destruct (Hp') as [(E1 & E2 & E3)|(? & _)]; [|lia]. pose proof (index_bound s0 nb Hg (q + 1)).
  split_and!; [done|lia|]. destruct Hp as [(F1 & F2 & F3)|(? & _)]; [|lia].
  apply word_in_bitmap; [done|]. cbn in E2. lia.
Qed.

Lemma step_out_of_block p q : at_word s0 p q -> 0 < p_left p -> 0 <= q -> p_left (step p) = 0 -> index_of s0 (q + 1) = 0.
Proof.
  intros Hp Hpl Hq Hl. destruct (step_at s0 nb Hg p q) as [[(E1 & E2 & E3)|(_ & E & _)] _]; [done..| |done].
  pose proof (index_bound s0 nb Hg (q + 1)). lia.
Qed.

(** ** Outside of the metadata zone *)

(** No block of the zone is met from [block] on. *)
Definition avoids_zone (useMetaZone : bool) (block : Z) : Prop :=
  useMetaZone = true \/ truth (hfs_flags s0 &&& HFS_METADATA_ZONE) = false \/ hfs_metazone_end s0 < block.

Lemma avoids_zone_le useMetaZone b b' : avoids_zone useMetaZone b -> b <= b' -> avoids_zone useMetaZone b'.
Proof. intros [?|[?|?]] Hb; [by left|by right; left|]. right. right. lia. Qed.

Lemma next_bitmap_block (useMetaZone : bool) block s Q : agree s0 s -> avoids_zone useMetaZone block -> Q block s ->
  runs (if useMetaZone then mret block else NextBitmapBlock block) Q s.
Proof.
  intros (m & h & u & c & ->) Ha HQ. destruct useMetaZone; [done|]. destruct Ha as [?|Ha]; [done|].
  unfold NextBitmapBlock. runs_steps. cbn. destruct Ha as [-> | Ha]; [done|].
  rewrite (proj2 (Z.leb_gt _ _) Ha), andb_false_r. by destruct (negb _).
Qed.

Lemma outside_zone_spec useMetaZone start ending s Q : agree s0 s -> hfs_metazone_end s0 + 2 < 2 ^ 32 ->
  0 <= hfs_metazone_end s0 ->
  (∀ start', start <= start' -> avoids_zone useMetaZone start' ->
    start' = start \/ hfs_metazone_end s0 < start' < ending ->
    (∀ b, avoids_zone useMetaZone b -> start <= b -> start' <= b) -> Q (Some start') s) ->
  ((∀ b, avoids_zone useMetaZone b -> b + 1 < ending -> b < start) -> Q None s) ->
  runs (outside_zone useMetaZone start ending) Q s.
Proof.
  intros (m & h & u & c & ->) Hz Hz0 HS HN. unfold outside_zone. runs_steps. cbn.
  destruct useMetaZone; cbn; [runs_steps; apply HS; [lia|by left|by left|lia]|].
  destruct (truth _) eqn:Et; cbn; [|runs_steps; apply HS; [lia|by right; left|by left|lia]].
  destruct (Z.leb_spec start (hfs_metazone_end s0)); [|runs_steps; apply HS; [lia|by right; right|by left|lia]].
  rewrite !wrap_small by (unfold in_range; lia).
  assert (Hav : ∀ b, avoids_zone false b -> hfs_metazone_end s0 < b).
  { intros b [?|[?|?]]; [done|congruence|done]. }
  destruct (Z.ltb_spec (hfs_metazone_end s0 + 2) ending); runs_steps.
  - apply HS; [lia|right; right; lia|right; lia|]. intros b ?%Hav _. lia.
  - apply HN. intros b ?%Hav Hb. lia.
Qed.

(** ** The search *)

(** Where the search stands: at a block, its word read. *)
Definition found_at (f : Z -> bool) (d : bool) (block : Z) (p : position) (currentWord bitMask : Z) (s : hfsmount) : Prop :=
  view s0 nb f [p_ref p] d s /\ at_word s0 p (block / 32) /\ 0 < p_left p /\ 0 <= block /\ block / 32 < W /\
  holds_bits currentWord f (block / 32) /\ selects bitMask block.

Lemma block_word b : 0 <= b < 32 * W -> 0 <= b / 32 < W.
Proof. intros. split; [apply Z.div_pos|apply Z.div_lt_upper_bound]; lia. Qed.

Lemma any_find_spec f useMetaZone ending start fuel : ∀ block p currentWord bitMask s Q,
  (Z.to_nat (ending - block) < fuel)%nat -> ending <= 32 * W -> ending < 2 ^ 32 ->
  found_at f false block p currentWord bitMask s -> avoids_zone useMetaZone block -> start <= block ->
  (∀ b, start <= b < block -> b < ending -> f b = true) ->
  (∀ s', view s0 nb f [] false s' -> (∀ b, start <= b < ending -> f b = true) -> Q (inl dskFulErr) s') ->
  (∀ err s', read_error bread err -> view s0 nb f [] false s' -> Q (inl err) s') ->
  (∀ block p currentWord bitMask s', found_at f false block p currentWord bitMask s' -> avoids_zone useMetaZone block ->
    start <= block -> (∀ b, start <= b < block -> b < ending -> f b = true) -> ending <= block \/ f block = false ->
    Q (inr (block, p, currentWord, bitMask)) s') ->
  runs (any_find bread fuel useMetaZone ending block p currentWord bitMask) Q s.
Proof.
  induction fuel as [|fuel IH]; intros block p currentWord bitMask s Q Hf Hend HW Hat Hz Hsb Hset HD HE HQ; [lia|].
  cbn [any_find]. destruct (Hat) as (Hv & Hp & Hpl & Hb & Hbw & Hc & Hm).
  rewrite (selected_bit _ _ _ _ Hc Hm). destruct (Z.ltb_spec block ending) as [Hlt|Hge];
    [|cbn [andb]; runs_steps; apply HQ; [done..|by left]].
  destruct (f block) eqn:Efb; cbn [andb negb]; [|runs_steps; apply HQ; [done..|by right]].
  assert (Hset' : ∀ b, start <= b < block + 1 -> b < ending -> f b = true).
  { intros b Hb' Hbe. destruct (Z.eq_dec b block) as [->|]; [done|]. apply Hset; lia. }
  rewrite (wrap_small 32 (block + 1)) by (unfold in_range; lia).
  pose proof (avoids_zone_le _ _ (block + 1) Hz ltac:(lia)) as Hz'.
  destruct (selects_next _ _ Hb Hm) as [(Hm1 & Hm2 & Eq)|(-> & Eq)].
  { rewrite (proj2 (Z.eqb_neq _ _) Hm1). eapply (IH (block + 1)); try done; try lia.
    unfold found_at. rewrite Eq. by split_and!; try lia. }
  cbn [Z.eqb]. assert (Eq' : (block + 1) / 32 = block / 32 + 1) by (rewrite Eq, Z.mul_comm, Z.div_mul; lia).
  pose proof (block_word block ltac:(lia)) as Hbw'.
  destruct (Z.eqb_spec (p_left (step p)) 0) as [El|Hl].
  - pose proof (step_out_of_block _ _ Hp Hpl ltac:(lia) El) as Ei.
    runs_step. eapply view_release; [done|]. intros s1 Hv1. cbn [negb Z.eqb]. runs_step.
    eapply (next_bitmap_block useMetaZone); [apply (view_agree _ _ _ _ _ _ Hv1)|done|].
    destruct (Z.leb_spec ending (block + 1)); [runs_steps; apply HD; [done|intros; apply Hset'; lia]|].
    runs_step. eapply view_read; [done|done|lia|..].
    + intros err s2 He Hv2. runs_steps. by apply HE.
    + intros s2 Hv2. rewrite Eq' in *. runs_steps. rewrite (agree_size _ _ (view_agree _ _ _ _ _ _ Hv2)).
      destruct (first_word_at _ Ei) as [Hp2 Hpl2]. pose proof (block_word (block + 1) ltac:(lia)).
      eapply (read_word f _ _ (Pos (block_of s0 (block / 32 + 1)) 0 (vcbVBMIOSize s0 / kBytesPerWord))); [exact Hv2|exact Hp2|exact Hpl2|lia|]. intros w Hw.
      eapply (IH (block + 1)); try done; try lia. unfold found_at. rewrite Eq'. split_and!; try done; try lia.
      rewrite Eq. apply first_selects.
  - runs_step. destruct (step_in_block _ _ Hp Hpl Hbw' Hl) as (Hp' & Hpos & Hw).
    eapply (read_word _ _ _ (step p)); [exact Hv|done|done|lia|]. intros w Hw'.
    eapply (IH (block + 1)); try done; try lia. unfold found_at. rewrite Eq'. split_and!; try done; try lia.
    rewrite Eq. apply first_selects.
Qed.

(** ** Marking from the block found *)

Section mark.
Context (f : Z -> bool) (useMetaZone : bool) (first ending : Z).
Context (Hend : ending <= 32 * W) (Hend32 : ending < 2 ^ 32) (Hfirst : 0 <= first).

Abbreviation marked k := (changed (λ _, true) f first k).

(** The blocks from [first] to [block] are marked, but in the word of [block], which is still to
    be written. *)
Definition pending (block : Z) (p : position) (currentWord bitMask : Z) (s : hfsmount) : Prop :=
  (∃ g, view s0 nb g [p_ref p] true s /\ ∀ b, b / 32 <> block / 32 -> marked (block - first) b = g b) /\
  at_word s0 p (block / 32) /\ 0 < p_left p /\ first <= block < ending /\ 
  holds_bits currentWord (marked (block - first)) (block / 32) /\ selects bitMask block /\
  all_good negb f first (block - first) /\ avoids_zone useMetaZone block.

(** The block can be marked as well. *)
Lemma pending_mark block p currentWord bitMask s : pending block p currentWord bitMask s -> f block = false ->
  holds_bits (currentWord ||| bitMask) (marked (block + 1 - first)) (block / 32) /\
  all_good negb f first (block + 1 - first) /\
  ∃ g, view s0 nb g [p_ref p] true s /\ ∀ b, b / 32 <> block / 32 -> marked (block + 1 - first) b = g b.
Proof.
  intros ((g & Hv & Hg') & Hp & Hpl & Hb & Hc & Hm & Ha & _) Ef. replace (block + 1 - first) with (block - first + 1) by lia.
  split_and!.
  - pose proof (holds_bits_set currentWord f first (block - first) bitMask) as H.
    replace (first + (block - first)) with block in H by lia. apply H; [done|lia|done].
  - apply all_good_app; [done|]. intros b Hb'. replace b with block by lia. by rewrite Ef.
  - exists g. split; [done|]. intros b Hne. rewrite <- Hg' by done. unfold changed.
    destruct (Z.ltb_spec b (first + (block - first))), (Z.ltb_spec b (first + (block - first + 1))); try done; try lia.
    exfalso. apply Hne. f_equal. lia.
Qed.

(** A word that is written. *)
Lemma write_pending m q p w s Q : (∃ g, view s0 nb g [p_ref p] true s /\ ∀ b, b / 32 <> q -> marked m b = g b) ->
  at_word s0 p q -> 0 < p_left p -> 0 <= q < W -> holds_bits w (marked m) q ->
  (∀ s', view s0 nb (marked m) [p_ref p] true s' -> Q tt s') ->
  runs (set_word (p_ref p) (p_index p) (SWAP_BE32 w)) Q s.
Proof. intros (g & Hv & Hg') Hp Hpl Hq Hc HQ. eapply (write_word g (marked m)); try done. Qed.

(** The run goes on at the first block of the next word. *)
Lemma pending_next block p w s : view s0 nb (marked (block - first)) [p_ref p] true s ->
  at_word s0 p (block / 32) -> 0 < p_left p -> first <= block < ending -> block = 32 * (block / 32) ->
  holds_bits (SWAP_BE32 w) (marked (block - first)) (block / 32) -> all_good negb f first (block - first) ->
  avoids_zone useMetaZone block -> pending block p (SWAP_BE32 w) kHighBitInWordMask s.
Proof.
  intros Hv Hp Hpl Hb Eb Hc Ha Hz. unfold pending. split; [by eexists|]. split_and!; try done; try lia.
  rewrite Eb. apply first_selects.
Qed.

Lemma any_mark_spec fuel : ∀ block p currentWord bitMask s Q,
  (Z.to_nat (ending - block) < fuel)%nat -> pending block p currentWord bitMask s ->
  (∀ err k s', read_error bread err -> 0 <= k -> first + k < ending -> all_good negb f first k ->
    view s0 nb (marked k) [] true s' -> Q (inl err) s') ->
  (∀ last ref s', first <= last <= ending -> all_good negb f first (last - first) -> last = ending \/ f last = true ->
    view s0 nb (marked (last - first)) [ref] true s' -> Q (inr (last, Some ref)) s') ->
  runs (any_mark bread fuel useMetaZone ending block p currentWord bitMask) Q s.
Proof.
  induction fuel as [|fuel IH]; intros block p currentWord bitMask s Q Hf Hpend HE HQ; [lia|].
  pose proof Hpend as (Hgv & Hp & Hpl & Hb & Hc & Hm & Ha & Hz). pose proof (block_word block ltac:(lia)) as Hq.
  cbn [any_mark]. rewrite (selected_bit _ _ _ _ Hc Hm), changed_after by lia.
  destruct (f block) eqn:Ef; cbn [negb].
  { runs_step. eapply write_pending; [done..|]. intros s1 Hv1. runs_steps. apply HQ; [lia|done|by right|done]. }
  destruct (pending_mark _ _ _ _ _ Hpend Ef) as (Hc' & Ha' & Hgv').
  rewrite (wrap_small 32 (block + 1)) by (unfold in_range; lia). 
  destruct (Z.eqb_spec (block + 1) ending) as [Ee|Hne].
  { runs_step. eapply write_pending; [done..|]. intros s1 Hv1. runs_steps. apply HQ; [lia|done|by left|done]. }
  pose proof (avoids_zone_le _ _ (block + 1) Hz ltac:(lia)) as Hz'.
  destruct (selects_next bitMask block ltac:(lia) Hm) as [(Hm1 & Hm2 & Eq)|(-> & Eq)].
  { rewrite (proj2 (Z.eqb_neq _ _) Hm1). eapply (IH (block + 1)); [lia| |done|done].
    unfold pending. rewrite Eq. by split_and!; try lia. }
  cbn [Z.eqb]. assert (Eq' : (block + 1) / 32 = block / 32 + 1) by (symmetry; apply (Z.div_unique _ _ _ 0); lia).
  runs_step. eapply write_pending; [done..|]. intros s1 Hv1.
  destruct (Z.eqb_spec (p_left (step p)) 0) as [El|Hl].
  - pose proof (step_out_of_block _ _ Hp Hpl ltac:(lia) El) as Ei.
    runs_step. eapply view_release; [done|]. intros s2 Hv2. cbn [negb Z.eqb]. runs_step.
    eapply (next_bitmap_block useMetaZone); [apply (view_agree _ _ _ _ _ _ Hv2)|done|]. rewrite Z.eqb_refl. cbn [negb].
    runs_step. eapply view_read; [done|done|lia|..].
    + intros err s3 He Hv3. runs_steps. apply (HE err (block + 1 - first)); [done|lia|lia|done|done].
    + intros s3 Hv3. rewrite Eq' in *. runs_step. eapply view_journal; [done|]. intros s4 Hv4. runs_steps.
      rewrite (agree_size _ _ (view_agree _ _ _ _ _ _ Hv4)). destruct (first_word_at _ Ei) as [Hp2 Hpl2].
      pose proof (block_word (block + 1) ltac:(lia)).
      eapply (read_word _ _ _ (Pos (block_of s0 (block / 32 + 1)) 0 (vcbVBMIOSize s0 / kBytesPerWord))); [exact Hv4|exact Hp2|exact Hpl2|lia|].
      intros w Hw. eapply (IH (block + 1)); [lia| |done|done]. apply pending_next; rewrite ?Eq'; try done; lia.
  - runs_step. destruct (step_in_block _ _ Hp Hpl Hq Hl) as (Hp' & Hpos & Hw).
    eapply (read_word _ _ _ (step p)); [exact Hv1|done|done|lia|]. intros w Hw'.
    eapply (IH (block + 1)); [lia| |done|done]. apply pending_next; rewrite ?Eq'; try done; lia.
Qed.
End mark.

(** ** The allocation *)

(** A run of clear blocks of a range, as [BlockAllocateAny] takes it: the first clear block, and
    as many behind it as are clear and wanted. *)
Definition first_run (f : Z -> bool) (useMetaZone : bool) (start ending max first count : Z) : Prop :=
  start <= first /\ avoids_zone useMetaZone first /\
  (∀ b, avoids_zone useMetaZone b -> start <= b < first -> f b = true) /\
  0 < count <= max /\ first + count <= ending /\ all_good negb f first count /\
  (count = max \/ first + count = ending \/ f (first + count) = true).

Lemma allocate_any f useMetaZone start ending max s Q :
  view s0 nb f [] false s -> 0 <= start < 32 * W -> 0 <= ending <= 32 * W -> ending <= allocLimit s0 ->
  allocLimit s0 < 2 ^ 32 -> 0 <= hfs_metazone_end s0 -> hfs_metazone_end s0 + 2 < 2 ^ 32 -> 0 < max ->
  (∀ first count s', first_run f useMetaZone start ending max first count ->
    view s0 nb (changed (λ _, true) f first count) [] false s' -> Q (0, first, count) s') ->
  (∀ s', view s0 nb f [] false s' -> (∀ b, avoids_zone useMetaZone b -> start <= b -> b + 1 < ending -> f b = true) ->
    Q (dskFulErr, 0, 0) s') ->
  (∀ err first k s', read_error bread err -> start <= first -> 0 <= k -> first + k <= Z.max start ending ->
    all_good negb f first k -> view s0 nb (changed (λ _, true) f first k) [] false s' -> Q (err, 0, 0) s') ->
  runs (BlockAllocateAny bread start ending max useMetaZone) Q s.
Proof.
  intros Hv Hs He Hl Hl32 Hz0 Hz Hmax H0 HD HE. pose proof (@geo_blocks _ _ Hg) as [_ Hgeo].
  assert (HE0 : ∀ err s', read_error bread err -> view s0 nb f [] false s' -> Q (err, 0, 0) s').
  { intros err s' Herr Hv'. eapply (HE err start 0); [done|lia|lia|lia|apply all_good_0|]. eapply view_ext; [done|].
    intros b _. by rewrite changed_0. }
  unfold BlockAllocateAny. runs_step. eapply outside_zone_spec; [apply (view_agree _ _ _ _ _ _ Hv)|done|done| |].
  2: { intros HN. runs_steps. apply HD; [done|]. intros b Hb Hsb Hbe. specialize (HN b Hb Hbe). lia. }
  intros start' Hs' Hav Hcase Hfst. runs_steps. set (m := (if u32 (ending - start') <? max then u32 (ending - start') else max)).
  assert (Hm : start' <= ending -> m = Z.min max (ending - start')).
  { intros. unfold m. rewrite wrap_small by (unfold in_range; lia). destruct (Z.ltb_spec (ending - start') max); lia. }
  clearbody m. assert (Hs2 : 0 <= start' < 32 * W) by lia. eapply view_read; [done|done|lia|..].
  { intros err s1 Herr Hv1. runs_steps. auto. }
  intros s1 Hv1. runs_step. eapply position_of_at; [done|done|lia|]. intros p Hp Hpl Hpr. runs_step.
  rewrite <- Hpr in Hv1. pose proof (block_word _ Hs2). eapply read_word; [done|done|done|lia|]. intros w Hw. runs_step.
  eapply (any_find_spec f useMetaZone ending start'); [lia|lia|lia| |done|lia|intros; lia|..].
  { unfold found_at. split_and!; try done; try lia. apply high_bit_selects. }
  { intros s2 Hv2 Hall. runs_steps. apply HD; [done|]. intros b Hb Hsb Hbe. apply Hall. pose proof (Hfst b Hb Hsb). lia. }
  { intros err s2 Herr Hv2. runs_steps. auto. }
  clear p Hp Hpl Hpr Hw w Hv1 s1 Hv s. intros block p cw mask s1 (Hv & Hp & Hpl & Hb & Hbw & Hc & Hm2) Hbz Hsb Hset Hstop.
  runs_steps. destruct (Z.leb_spec ending block) as [Hge|Hlt].
  { runs_step. eapply view_release; [done|]. intros s2 Hv2. runs_steps. apply HD; [done|]. intros b Hb2 Hsb2 Hbe.
    pose proof (Hfst b Hb2 Hsb2). apply Hset; lia. }
  destruct Hstop as [?|Efb]; [lia|].
  set (ending' := (if block <? u32 (ending - m) then u32 (block + m) else ending)).
  specialize (Hm ltac:(lia)).
  assert (Hend' : block < ending' <= ending /\ ending' - block <= max /\ (ending' = ending \/ ending' - block = max)).
  { unfold ending'. rewrite (wrap_small 32 (ending - m)) by (unfold in_range; lia).
    destruct (Z.ltb_spec block (ending - m)); [|lia]. rewrite wrap_small by (unfold in_range; lia). lia. }
  clearbody ending'. runs_step. eapply view_journal; [done|]. intros s2 Hv2. apply view_dirty in Hv2. runs_step.
  eapply (any_mark_spec f useMetaZone block ending'); [lia|lia|lia|lia|..].
  { unfold pending. rewrite Z.sub_diag. split; [exists f; split; [done|intros; by rewrite changed_0]|].
    split_and!; try done; try lia; [|apply all_good_0]. eapply holds_bits_ext; [done|]. intros. by rewrite changed_0. }
  { intros err k s3 Herr Hk Hk2 Ha Hv3. runs_steps. eapply (HE err block k); [done|lia|lia|lia|done|by eapply view_idle]. }
  intros last ref s3 Hlast Ha Hmx Hv3. runs_steps. rewrite !(wrap_small 32 (last - block)) by (unfold in_range; lia).
  assert (Hpos : block < last). { destruct (Z.eq_dec last block) as [->|]; [|lia]. destruct Hmx; [lia|congruence]. }
  apply runs_assert.
  { rewrite wrap_small by (unfold in_range; lia). destruct (view_agree _ _ _ _ _ _ Hv3) as (? & ? & ? & ? & ->). cbn. lia. }
  runs_steps. eapply view_release; [done|]. intros s4 Hv4. runs_steps. apply H0; [|by eapply view_idle].
  unfold first_run. replace (block + (last - block)) with last by lia. split_and!; try done; try lia.
  - intros b Hb2 Hsb2. apply Hset; [|lia]. pose proof (Hfst b Hb2). lia.
  - destruct Hmx as [->|?]; [|by right; right]. destruct Hend' as (_ & _ & [->| <-]); [right; by left|by left].
Qed.

End any.

(** ** What [BlockAllocateAny] promises *)

Section promise.
Context (bread : hfsmount -> Z -> Z) (nb : Z) (s : hfsmount) (Hq : quiet nb s).
Context (Hz0 : 0 <= hfs_metazone_end s) (Hz : hfs_metazone_end s + 2 < 2 ^ 32) (Hl : allocLimit s < 2 ^ 32).

(** [BlockAllocateAny] takes the first free block of its range, outside of the
    metadata zone unless that may be used, and marks it and the free blocks behind it, as many as
    are wanted and no others; it answers "disk full" and changes nothing when no block of the range
    is free (but for its last, when the zone ends right before it); an error of reading may leave
    the first blocks of a free run marked.  The bitmap blocks are released with their changes
    saved. *)
Theorem allocate_any_first start ending max useMetaZone :
  0 <= start < 32 * (wpb s * nb) -> 0 <= ending <= 32 * (wpb s * nb) -> ending <= allocLimit s -> 0 < max ->
  runs (BlockAllocateAny bread start ending max useMetaZone) (λ r s',
    let '(err, first, count) := r in quiet nb s' /\ agree s s' /\
    ((err = 0 /\ first_run s (bit s) useMetaZone start ending max first count /\
        bitmap_is nb s' (changed (λ _, true) (bit s) first count)) \/
     (err = dskFulErr /\ count = 0 /\ bitmap_is nb s' (bit s) /\
        ∀ b, avoids_zone s useMetaZone b -> start <= b -> b + 1 < ending -> bit s b = true) \/
     (read_error bread err /\ count = 0 /\ ∃ a k, all_good negb (bit s) a k /\
        bitmap_is nb s' (changed (λ _, true) (bit s) a k)))) s.
Proof.
  intros H1 H2 H3 H4. pose proof (quiet_geometry _ _ Hq) as Hg.
  eapply (allocate_any s nb Hg); [by apply view_of_quiet|done..| | |].
  - intros first count s' Hr (A1 & A2 & A3)%quiet_of_view; [|done]. split_and!; try done. by left.
  - intros s' (A1 & A2 & A3)%quiet_of_view Hall; [|done]. split_and!; try done. by right; left.
  - intros err first k s' He _ _ _ Ha (A1 & A2 & A3)%quiet_of_view; [|done]. split_and!; try done. right; right.
    split; [done|]. split; [done|]. by exists first, k.
Qed.
End promise.

(** From block 4 on the sample has 8 to 39 free: 36 blocks are wanted, 32 are taken. *)
Lemma allocate_any_first_witness : quiet 2 sample /\
  answer (BlockAllocateAny (λ _ _, 0) 4 60 36 false) sample = Some (0, 8, 32) /\
  runs (BlockAllocateAny (λ _ _, 0) 4 60 36 false) (λ r s',
    let '(err, first, count) := r in quiet 2 s' /\ agree sample s' /\
    ((err = 0 /\ first_run sample (bit sample) false 4 60 36 first count /\
        bitmap_is 2 s' (changed (λ _, true) (bit sample) first count)) \/
     (err = dskFulErr /\ count = 0 /\ bitmap_is 2 s' (bit sample) /\
        ∀ b, avoids_zone sample false b -> 4 <= b -> b + 1 < 60 -> bit sample b = true) \/
     (read_error (λ _ _, 0) err /\ count = 0 /\ ∃ a k, all_good negb (bit sample) a k /\
        bitmap_is 2 s' (changed (λ _, true) (bit sample) a k)))) sample.
Proof.
  split; [exact sample_quiet|]. split; [by vm_compute|].
  apply (allocate_any_first (λ _ _, 0) 2 sample sample_quiet); vm_compute; repeat split; congruence.
Defined.

(** The second bitmap block cannot be read: 24 to 31 are marked, and nothing is reported allocated. *)
Example allocate_any_leaves_marked :
  match BlockAllocateAny (λ _ b, if b =? 1 then 5 else 0) 24 60 16 false sample with
  | Some (r, s') => r = (5, 0, 0) /\ bit s' 24 = true /\ bit s' 31 = true /\ freeBlocks s' = 48
  | None => False
  end.
Proof. by vm_compute. Qed.

End VolumeAny.
