(* ===== verification/VolumeCache.v ===== *)
(** The cache of free extents: an array of at most ten, of which the first are in use.  Adding,
    forgetting and using extents as operations on a list, and the order they keep. *)

From stdpp Require Import sorting.
From S2P Require Import Prelude.
From S2P Require Import Volume.
Import Volume.Volume.

Module VolumeCache.

(** The extents in use. *)
Definition cache (s : hfsmount) : list HFSPlusExtentDescriptor := take (vcbFreeExtCnt s) (vcbFreeExt s).
(** The array has its ten places. *)
Definition cache_ok (s : hfsmount) : Prop := length (vcbFreeExt s) = kMaxFreeExtents /\ (vcbFreeExtCnt s <= kMaxFreeExtents)%nat.

Definition sparse (s : hfsmount) : bool := truth (hfs_flags s &&& HFS_HAS_SPARSE_DEVICE).

(** [s] with another cache. *)
Definition with_cache (n : nat) (v : list HFSPlusExtentDescriptor) (s : hfsmount) : hfsmount := set_vcbFreeExt n v s.

Lemma with_cache_same s : with_cache (vcbFreeExtCnt s) (vcbFreeExt s) s = s.
Proof. by destruct s. Qed.
Lemma with_cache_twice n v n' v' s : with_cache n v (with_cache n' v' s) = with_cache n v s.
Proof. by destruct s. Qed.

(** ** Single places *)

Lemma runs_ext i e s Q : vcbFreeExt s !! i = Some e -> Q e s -> runs (ext i) Q s.
Proof. intros Hi HQ. by apply runs_deref with e. Qed.

Lemma runs_set_ext i e e0 s Q : vcbFreeExt s !! i = Some e0 ->
  Q tt (with_cache (vcbFreeExtCnt s) (<[i := e]> (vcbFreeExt s)) s) -> runs (set_ext i e) Q s.
Proof. intros Hi HQ. unfold set_ext. runs_step. eapply runs_ext; [done|]. by runs_step. Qed.

Lemma runs_set_cnt n s Q : Q tt (with_cache n (vcbFreeExt s) s) -> runs (set_cnt n) Q s.
Proof. done. Qed.

Lemma insert_mid {A} (pre : list A) x y suf : <[length pre := y]> (pre ++ x :: suf) = pre ++ y :: suf.
Proof. rewrite insert_app_r_alt, Nat.sub_diag by lia. done. Qed.

Lemma lookup_mid {A} (pre : list A) x suf : (pre ++ x :: suf) !! length pre = Some x.
Proof. by rewrite lookup_app_r, Nat.sub_diag by lia. Qed.

Lemma cons_middle_next {A} (pre : list A) x y suf : pre ++ x :: y :: suf = (pre ++ [x]) ++ y :: suf.
Proof. by rewrite <- app_assoc. Qed.
Lemma length_snoc {A} (pre : list A) x : length (pre ++ [x]) = S (length pre).
Proof. rewrite length_app. cbn. lia. Qed.

Lemma insert_mid_next {A} (pre : list A) x y z suf : <[S (length pre) := z]> (pre ++ x :: y :: suf) = pre ++ x :: z :: suf.
Proof. by rewrite !cons_middle_next, <- (length_snoc pre x), insert_mid. Qed.
Lemma lookup_mid_next {A} (pre : list A) x y suf : (pre ++ x :: y :: suf) !! S (length pre) = Some y.
Proof. by rewrite cons_middle_next, <- (length_snoc pre x), lookup_mid. Qed.

(** Arithmetic on the lengths of lists. *)
Ltac lengths := cbn [length] in *; rewrite ?length_app in *; cbn [length] in *; rewrite ?length_app in *; cbn [length] in *; lia.

(** ** Moving extents *)

(** Up: the places from [j] on take the extents behind them. *)
Lemma shift_up_spec mid : ∀ pre x suf s Q, vcbFreeExt s = pre ++ x :: mid ++ suf ->
  (∀ y, Q tt (with_cache (vcbFreeExtCnt s) (pre ++ mid ++ y :: suf) s)) ->
  runs (shift_up (length mid) (length pre)) Q s.
Proof.
  induction mid as [|e mid IH]; intros pre x suf s Q E HQ; cbn [length shift_up].
  - runs_step. specialize (HQ x). cbn [app] in *. rewrite <- E, with_cache_same in HQ. done.
  - runs_step. apply runs_ext with e.
    { rewrite E. apply lookup_mid_next. }
    runs_step. eapply runs_set_ext; [rewrite E; apply lookup_mid|]. rewrite E, insert_mid.
    rewrite <- (length_snoc pre e).
    apply (IH _ e suf); [cbn; by rewrite <- app_assoc|]. intros y. rewrite with_cache_twice. cbn.
    specialize (HQ y). by rewrite <- app_assoc.
Qed.

(** [sparseAllocation] becomes [v]: it may be lowered to the start of one of the extents [l]. *)
Definition lowered (update : bool) (l : list HFSPlusExtentDescriptor) (s : hfsmount) (v : Z) : Prop :=
  v = sparseAllocation s \/ (update = true /\ v < sparseAllocation s /\ v ∈ (startBlock <$> l)).

Lemma lowered_mono update l l' s v : lowered update l s v -> l ⊆ l' -> lowered update l' s v.
Proof.
  intros [?|(? & ? & (e & -> & He)%list_elem_of_fmap)] Hl; [by left|]. right. split_and!; try done.
  apply list_elem_of_fmap. eauto.
Qed.

(** Down: those the new one comes before, from the end on; the place for it. *)
Lemma bubble_down_spec (update : bool) new mid : ∀ pre y suf s Q,
  vcbFreeExt s = pre ++ mid ++ y :: suf -> Forall (λ e, comes_before (sparse s) new e = true) mid ->
  (∀ e, last pre = Some e -> comes_before (sparse s) new e = false) ->
  (∀ z v, lowered update mid s v ->
    Q (length pre) (set_sparseAllocation v (with_cache (vcbFreeExtCnt s) (pre ++ z :: mid ++ suf) s))) ->
  runs (bubble_down (sparse s) update new (length (pre ++ mid))) Q s.
Proof.
  induction mid as [|e mid IH] using rev_ind; intros pre y suf s Q E Hmid Hpre HQ.
  - rewrite app_nil_r. destruct pre as [|e pre _] using rev_ind.
    + cbn [length app bubble_down]. runs_step. specialize (HQ y (sparseAllocation s) ltac:(by left)). cbn in *.
      rewrite <- E in HQ. replace (set_sparseAllocation _ _) with s in HQ by (by destruct s). done.
    + rewrite length_app. cbn [length]. rewrite Nat.add_comm. cbn [Nat.add bubble_down]. runs_step.
      apply runs_ext with e; [rewrite E, <- app_assoc; apply lookup_mid|].
      rewrite (Hpre e) by apply last_snoc. runs_step.
      specialize (HQ y (sparseAllocation s) ltac:(by left)). cbn [app] in *. rewrite <- E in HQ.
      rewrite length_app, Nat.add_comm in HQ. replace (set_sparseAllocation _ _) with s in HQ by (by destruct s). done.
  - rewrite (assoc_L (++)), length_app. cbn [length]. rewrite Nat.add_comm. cbn [Nat.add bubble_down]. runs_step.
    assert (E2 : vcbFreeExt s = (pre ++ mid) ++ e :: y :: suf) by (rewrite E, <- !app_assoc; done).
    apply runs_ext with e; [rewrite E2; apply lookup_mid|]. apply Forall_app in Hmid as [Hmid [He _]%Forall_cons_1]. cbn beta in He.
    rewrite He. runs_step. eapply runs_set_ext.
    { rewrite E2. apply lookup_mid_next. }
    set (s1 := with_cache _ _ s).
    assert (E1 : vcbFreeExt s1 = pre ++ mid ++ e :: e :: suf).
    { cbn. by rewrite E2, insert_mid_next, <- app_assoc. }
    assert (Hrec : ∀ v, v = sparseAllocation s \/ (update = true /\ v < sparseAllocation s /\ v = startBlock e) ->
      runs (bubble_down (sparse s) update new (length (pre ++ mid))) Q (set_sparseAllocation v s1)).
    { intros v Hv. apply (IH pre e (e :: suf) (set_sparseAllocation v s1)); [done|done|done|].
      intros z v' Hv'. specialize (HQ z v'). rewrite <- app_assoc in HQ. cbn in HQ.
      assert (Hv2 : lowered update (mid ++ [e]) s v').
      { destruct Hv' as [-> |(Hu & Hlt & Hin)]; cbn in *.
        - destruct Hv as [->|(Hu & Hlt & ->)]; [by left|right]. split_and!; [done|done|]. rewrite fmap_app. set_solver.
        - right. rewrite fmap_app. split_and!; [done|destruct Hv as [->|(_ & ? & _)]; lia|apply elem_of_app; by left]. }
      specialize (HQ Hv2). by destruct s. }
    runs_step. destruct update; runs_steps; [|destruct s; apply Hrec; by left].
    destruct (Z.ltb_spec (startBlock e) (sparseAllocation s1)) as [Hlt|]; [apply Hrec; by right|].
    specialize (Hrec (sparseAllocation s) ltac:(by left)). by destruct s.
Qed.

(** ** Adding an extent *)

(** The list with a new extent before the last extents it comes before. *)
Fixpoint placed (sp : bool) (new : HFSPlusExtentDescriptor) (l : list HFSPlusExtentDescriptor) : list HFSPlusExtentDescriptor :=
  match l with
  | [] => [new]
  | e :: l' => if forallb (comes_before sp new) l then new :: l else e :: placed sp new l'
  end.

Lemma placed_split sp new pre mid : Forall (λ e, comes_before sp new e = true) mid ->
  (∀ e, last pre = Some e -> comes_before sp new e = false) -> placed sp new (pre ++ mid) = pre ++ new :: mid.
Proof.
  intros Hmid. induction pre as [|e pre IH]; intros Hlast.
  - cbn [app]. destruct mid as [|e mid]; [done|]. unfold placed. fold placed. 
    rewrite (proj2 (forallb_forall _ _)); [done|]. intros x Hx. rewrite Forall_forall in Hmid. apply Hmid, list_elem_of_In, Hx.
  - cbn [app placed]. destruct (forallb _ (e :: pre ++ mid)) eqn:E.
    + exfalso. rewrite forallb_forall in E. destruct (last (e :: pre)) as [e'|] eqn:El; [|by apply last_None in El].
      specialize (Hlast e' eq_refl). rewrite E in Hlast; [done|]. apply last_Some in El as [l El]. rewrite app_comm_cons, El.
      apply list_elem_of_In. set_solver.
    + f_equal. apply IH. intros e' He'. apply Hlast. cbn. destruct pre; [done|]. by rewrite last_cons_cons.
Qed.

Lemma split_at_place sp new l : ∃ pre mid, l = pre ++ mid /\
  Forall (λ e, comes_before sp new e = true) mid /\ (∀ e, last pre = Some e -> comes_before sp new e = false).
Proof.
  induction l as [|e l (pre & mid & -> & Hmid & Hlast)] using rev_ind; [by exists [], []|].
  destruct (comes_before sp new e) eqn:E.
  - exists pre, (mid ++ [e]). rewrite app_assoc. split_and!; [done| |done]. apply Forall_app. by split; [|constructor].
  - exists ((pre ++ mid) ++ [e]), []. rewrite app_nil_r. split_and!; [done|done|]. intros e'. rewrite last_snoc. by intros [= <-].
Qed.

Lemma split_array s : cache_ok s -> ∃ tail, vcbFreeExt s = cache s ++ tail /\ length (cache s) = vcbFreeExtCnt s /\
  length (cache s ++ tail) = kMaxFreeExtents.
Proof.
  intros [E1 E2]. exists (drop (vcbFreeExtCnt s) (vcbFreeExt s)). unfold cache. rewrite take_drop, length_take.
  split_and!; [done|lia|done].
Qed.

(** The state after the cache was changed to [l]. *)
Definition cache_becomes (l : list HFSPlusExtentDescriptor) (s s' : hfsmount) : Prop :=
  ∃ n v, s' = with_cache n v s /\ cache s' = l /\ cache_ok s'.

(** As [cache_becomes], and [sparseAllocation] may be lowered when [update]. *)
Definition cache_becomes_low (update : bool) (l : list HFSPlusExtentDescriptor) (s s' : hfsmount) : Prop :=
  ∃ v, lowered update (cache s) s v /\
    cache_becomes l (set_sparseAllocation v s) s'.

Lemma cache_becomes_same s : cache_ok s -> cache_becomes (cache s) s s.
Proof. intros H. exists (vcbFreeExtCnt s), (vcbFreeExt s). by rewrite with_cache_same. Qed.

Lemma sparse_same s : set_sparseAllocation (sparseAllocation s) s = s.
Proof. by destruct s. Qed.

(** The place for the new extent is made and filled. *)
Lemma bubble_down_fills {B} (update : bool) new pre mid y suf n s (k : unit -> K B) Q : cache_ok s ->
  vcbFreeExt s = pre ++ mid ++ y :: suf -> Forall (λ e, comes_before (sparse s) new e = true) mid ->
  (∀ e, last pre = Some e -> comes_before (sparse s) new e = false) ->
  n = length (pre ++ mid) ->
  (∀ v, lowered update mid s v ->
    runs (k tt) Q (with_cache (vcbFreeExtCnt s) (pre ++ new :: mid ++ suf) (set_sparseAllocation v s))) ->
  runs (bubble_down (sparse s) update new n) (λ i s', runs (set_ext i new ≫= k) Q s') s.
Proof.
  intros [Hlen _] E Hmid Hlast -> HQ. eapply bubble_down_spec; [done..|]. intros z v Hv.
  runs_step. eapply runs_set_ext; [apply lookup_mid|]. specialize (HQ v Hv). cbn. rewrite insert_mid. by destruct s.
Qed.

Lemma full_cache_is s : cache_ok s -> (vcbFreeExtCnt s = kMaxFreeExtents)%nat -> vcbFreeExt s = cache s.
Proof. intros [E1 E2] E. unfold cache. rewrite take_ge; [done|lia]. Qed.

(** A full cache: the last extent is dropped, or the new one does not come in. *)
Lemma add_to_full (update : bool) new s Q : cache_ok s -> (vcbFreeExtCnt s = kMaxFreeExtents)%nat ->
  (∀ added s', cache_becomes_low update (take kMaxFreeExtents (placed (sparse s) new (cache s))) s s' -> Q added s') ->
  runs (add_extent update new) Q s.
Proof.
  intros Hok E10 HQ. pose proof (full_cache_is s Hok E10) as Ea. pose proof Hok as [Hlen _].
  destruct (split_at_place (sparse s) new (cache s)) as (pre & mid & Ec & Hmid & Hlast).
  rewrite Ec, placed_split in HQ by done. rewrite Ec in Ea. rewrite Ea in Hlen.
  unfold add_extent. unfold kMaxFreeExtents in *. runs_steps. change (truth (hfs_flags s &&& HFS_HAS_SPARSE_DEVICE)) with (sparse s).
  rewrite E10. cbn [Nat.eqb]. runs_step. destruct mid as [|e mid _] using rev_ind.
  - rewrite app_nil_r in *. destruct pre as [|e pre _] using rev_ind; [done|]. rewrite length_snoc in Hlen. injection Hlen as Hlen.
    apply runs_ext with e; [rewrite Ea; cbn [Nat.sub]; rewrite <- Hlen; apply lookup_mid|].
    rewrite (Hlast e) by apply last_snoc. runs_steps. cbn [Nat.ltb Nat.leb]. runs_step.
    apply HQ. exists (sparseAllocation s). split; [by left|]. rewrite sparse_same.
    rewrite take_app_le, take_ge by (rewrite length_snoc, ?Hlen; done). rewrite <- Ec. by apply cache_becomes_same.
  - apply Forall_app in Hmid as [Hmid [He _]%Forall_cons_1]. cbn beta in He.
    rewrite app_assoc, length_snoc in Hlen. rewrite app_assoc in Ea. injection Hlen as Hlen.
    apply runs_ext with e; [rewrite Ea; cbn [Nat.sub]; rewrite <- Hlen; apply lookup_mid|].
    rewrite He. runs_steps. cbn [Nat.ltb Nat.leb Nat.sub]. runs_step.
    eapply bubble_down_fills; [done|by rewrite Ea, <- app_assoc|done|done|done|]. intros v Hv. runs_steps.
    apply HQ. exists v. split; [eapply lowered_mono; [done|]; rewrite Ec; set_solver|]. eexists _, _. split; [done|]. cbn [cache]. unfold cache, cache_ok. cbn.
    rewrite length_app in Hlen. rewrite app_nil_r, E10. unfold kMaxFreeExtents. split; [|rewrite length_app; cbn; lia].
    rewrite take_ge by (rewrite length_app; cbn; lia). symmetry.
    replace (pre ++ new :: mid ++ [e]) with ((pre ++ new :: mid) ++ [e]) by (by rewrite <- app_assoc).
    rewrite take_app_le, take_ge by (rewrite length_app; cbn; lia). done.
Qed.

Lemma add_extent_spec (update : bool) new s Q : cache_ok s ->
  (∀ added s', cache_becomes_low update (take kMaxFreeExtents (placed (sparse s) new (cache s))) s s' -> Q added s') ->
  runs (add_extent update new) Q s.
Proof.
  intros Hok HQ. destruct (Nat.eq_dec (vcbFreeExtCnt s) kMaxFreeExtents) as [E10|Hne]; [by apply add_to_full|].
  pose proof Hok as [Hlen Hcnt]. destruct (split_array s Hok) as (tail & Ea & El & Et).
  destruct (split_at_place (sparse s) new (cache s)) as (pre & mid & Ec & Hmid & Hlast).
  rewrite Ec, placed_split in HQ by done. rewrite Ec in Ea, El, Et.
  destruct tail as [|y tail]; [rewrite app_nil_r in Et; lia|]. rewrite !length_app in Et. rewrite length_app in El. cbn in Et.
  unfold add_extent. runs_steps. change (truth (hfs_flags s &&& HFS_HAS_SPARSE_DEVICE)) with (sparse s).
  rewrite (proj2 (Nat.eqb_neq _ _) Hne). runs_steps. rewrite (proj2 (Nat.ltb_lt _ _)) by lia. runs_step.
  eapply bubble_down_fills; [done|by rewrite Ea, <- app_assoc|done|done|by rewrite length_app|]. intros v Hv. runs_steps.
  apply HQ. exists v. split; [eapply lowered_mono; [done|]; rewrite Ec; set_solver|]. eexists _, _. rewrite with_cache_twice. split; [done|]. unfold cache, cache_ok. cbn.
  assert (Etk : (length (pre ++ new :: mid) = S (vcbFreeExtCnt s))) by (rewrite length_app; cbn; lia).
  replace (pre ++ new :: mid ++ tail) with ((pre ++ new :: mid) ++ tail) by (by rewrite <- app_assoc).
  unfold kMaxFreeExtents in *. cbn [app]. rewrite (take_ge (pre ++ new :: mid) 10) by lia. rewrite <- Etk, take_app_length. split; [done|].
  rewrite length_app. lia.
Qed.

(** ** Forgetting the extents that overlap a run *)

Definition clear_of (first count : Z) (e : HFSPlusExtentDescriptor) : Prop := overlaps_extent first count e = false.

#[global] Instance clear_of_dec first count e : Decision (clear_of first count e).
Proof. unfold clear_of. apply _. Defined.

Lemma forget_loop first count fuel : ∀ keep rest tail s Q, vcbFreeExt s = keep ++ rest ++ tail ->
  vcbFreeExtCnt s = (length keep + length rest)%nat -> cache_ok s -> (length rest < fuel)%nat ->
  (∀ s', cache_becomes (keep ++ filter (clear_of first count) rest) s s' -> Q tt s') ->
  runs (forget_extents fuel (length keep) first count) Q s.
Proof.
  induction fuel as [|fuel IH]; intros keep rest tail s Q E Ec Hok Hf HQ; [lia|]. cbn [forget_extents]. runs_steps.
  destruct rest as [|e rest]; cbn [length] in *.
  - rewrite (proj2 (Nat.ltb_ge _ _)) by lia. runs_step. apply HQ. rewrite app_nil_r.
    replace keep with (cache s); [by apply cache_becomes_same|]. unfold cache. rewrite E, Ec, Nat.add_0_r. apply take_app_length.
  - rewrite (proj2 (Nat.ltb_lt _ _)) by lia. runs_step. cbn [app] in E. apply runs_ext with e; [rewrite E; apply lookup_mid|].
    destruct (overlaps_extent first count e) eqn:Eo.
    + runs_step. replace (vcbFreeExtCnt s - 1 - length keep)%nat with (length rest) by lia.
      eapply shift_up_spec; [done|]. intros y. runs_step. apply runs_set_cnt. rewrite with_cache_twice.
      rewrite filter_cons_False in HQ by (unfold clear_of; congruence).
      apply (IH keep rest (y :: tail)); [done|cbn; lia| |lia|].
      * destruct Hok as [Hl _]. rewrite E in Hl. unfold cache_ok. cbn. lengths.
      * intros s' (n & v & -> & Hc & Ho). apply HQ. exists n, v. by rewrite with_cache_twice in *.
    + rewrite filter_cons_True in HQ by done. rewrite <- (length_snoc keep e).
      apply (IH (keep ++ [e]) rest tail); [by rewrite <- app_assoc|rewrite length_snoc; lia|done|lia|].
      by rewrite <- app_assoc.
Qed.

Lemma forget_extents_spec first count s Q : cache_ok s ->
  (∀ s', cache_becomes (filter (clear_of first count) (cache s)) s s' -> Q tt s') ->
  runs (forget_extents (S (vcbFreeExtCnt s)) 0 first count) Q s.
Proof.
  intros Hok HQ. destruct (split_array s Hok) as (tail & Ea & El & Et).
  apply (forget_loop _ _ _ [] (cache s) tail); [done|by rewrite El|done|lia|done].
Qed.

(** ** Whether a run overlaps a cached extent *)

Lemma overlaps_loop first count rest : ∀ keep tail s Q, vcbFreeExt s = keep ++ rest ++ tail ->
  Q (existsb (overlaps_extent first count) rest) s -> runs (overlaps_cached (length rest) (length keep) first count) Q s.
Proof.
  induction rest as [|e rest IH]; intros keep tail s Q E HQ; cbn [length overlaps_cached]; [by runs_step|].
  runs_step. apply runs_ext with e; [rewrite E; apply lookup_mid|]. cbn [existsb] in HQ.
  destruct (overlaps_extent first count e); [by runs_step|]. rewrite <- (length_snoc keep e).
  apply (IH _ tail); [by rewrite E, <- app_assoc|done].
Qed.

Lemma overlaps_cached_spec first count s Q : cache_ok s ->
  Q (existsb (overlaps_extent first count) (cache s)) s -> runs (overlaps_cached (vcbFreeExtCnt s) 0 first count) Q s.
Proof.
  intros Hok HQ. destruct (split_array s Hok) as (tail & Ea & El & Et). rewrite <- El.
  by apply (overlaps_loop _ _ _ [] tail).
Qed.

(** ** Using the first extent *)

(** The remainder of the first extent behind the larger ones. *)
Fixpoint sunk (new : HFSPlusExtentDescriptor) (l : list HFSPlusExtentDescriptor) : list HFSPlusExtentDescriptor :=
  match l with
  | [] => [new]
  | e :: l' => if blockCount new <? blockCount e then e :: sunk new l' else new :: l
  end.

(** What the cache is when its first extent is reduced to [new]. *)
Definition reduced (sp : bool) (new : HFSPlusExtentDescriptor) (rest : list HFSPlusExtentDescriptor) : list HFSPlusExtentDescriptor :=
  if blockCount new =? 0 then rest else if sp then new :: rest else sunk new rest.

Lemma bubble_up_spec new big : ∀ pre x small s Q, vcbFreeExt s = pre ++ x :: big ++ small ->
  Forall (λ e, blockCount new < blockCount e) big ->
  ∀ n, (length big <= n)%nat -> (∀ e, head (take (n - length big) small) = Some e -> blockCount e <= blockCount new) ->
  (n - length big <= length small)%nat ->
  (∀ y, Q (length pre + S (length big))%nat (with_cache (vcbFreeExtCnt s) (pre ++ big ++ y :: small) s)) ->
  runs (bubble_up n (S (length pre)) (blockCount new)) Q s.
Proof.
  induction big as [|e big IH]; intros pre x small s Q E Hbig n Hn Hhead Hlen HQ; cbn [length] in *.
  - specialize (HQ x). cbn [app] in *. rewrite <- E, with_cache_same, Nat.add_1_r in HQ.
    destruct n as [|n]; cbn [bubble_up]; [by runs_step|]. runs_step. cbn in Hlen.
    destruct small as [|e small]; [cbn in *; lia|]. apply runs_ext with e; [rewrite E; apply lookup_mid_next|].
    specialize (Hhead e eq_refl). rewrite (proj2 (Z.ltb_ge _ _)) by done. by runs_step.
  - destruct n as [|n]; [lia|]. cbn [bubble_up]. runs_step. cbn [app] in *. apply Forall_cons_1 in Hbig as [He Hbig].
    apply runs_ext with e; [rewrite E; apply lookup_mid_next|]. rewrite (proj2 (Z.ltb_lt _ _)) by done. runs_step.
    replace (S (length pre) - 1)%nat with (length pre) by lia.
    eapply runs_set_ext; [rewrite E; apply lookup_mid|]. rewrite E, insert_mid, <- (length_snoc pre e).
    apply (IH (pre ++ [e]) e small); [cbn; by rewrite <- app_assoc|done|lia|exact Hhead|lia|].
    intros y. specialize (HQ y). rewrite with_cache_twice, <- app_assoc, length_snoc. cbn.
    by rewrite Nat.add_succ_r in HQ.
Qed.

Lemma split_at_sunk new l : ∃ big small, l = big ++ small /\ Forall (λ e, blockCount new < blockCount e) big /\
  (∀ e, head small = Some e -> blockCount e <= blockCount new) /\ sunk new l = big ++ new :: small.
Proof.
  induction l as [|e l (big & small & -> & Hb & Hs & E)]; [by exists [], []|]. cbn [sunk].
  destruct (Z.ltb_spec (blockCount new) (blockCount e)).
  - exists (e :: big), small. rewrite E. split_and!; try done. by constructor.
  - exists [], (e :: big ++ small). split_and!; try done. by intros ? [= <-].
Qed.

Lemma use_first_spec new e rest s Q : cache_ok s -> cache s = e :: rest -> Forall (λ e, 0 < blockCount e) rest ->
  (∀ s', cache_becomes (reduced (sparse s) new rest) s s' -> Q tt s') ->
  runs (use_first (startBlock new) (blockCount new)) Q s.
Proof.
  intros Hok Ec Hpos HQ. destruct (split_array s Hok) as (tail & Ea & El & Et). rewrite Ec in Ea, El, Et. cbn in El.
  pose proof Hok as [Hlen Hcnt]. rewrite Ea in Hlen.
  unfold use_first. runs_steps. change (truth (hfs_flags s &&& HFS_HAS_SPARSE_DEVICE)) with (sparse s).
  replace (Extent (startBlock new) (blockCount new)) with new by (by destruct new). unfold reduced in HQ.
  replace (vcbFreeExtCnt s - 1)%nat with (length rest) by lia.
  destruct (sparse s).
  - runs_step. eapply runs_set_ext; [by rewrite Ea|]. rewrite Ea. cbn [app list_insert insert].
    destruct (blockCount new =? 0).
    + runs_step. apply (shift_up_spec rest [] new tail); [done|]. intros y. 
      apply runs_set_cnt. rewrite !with_cache_twice. cbn. apply HQ. eexists _, _. split; [done|]. unfold cache, cache_ok. cbn.
      rewrite take_app_length. split; [done|]. lengths.
    + runs_step. apply HQ. eexists _, _. split; [done|]. unfold cache, cache_ok. cbn. rewrite <- El. cbn.
      rewrite take_app_length. split; [done|]. cbn in *. lia.
  - destruct (split_at_sunk new rest) as (big & small & -> & Hbig & Hsmall & Es). rewrite Es in HQ.
    rewrite length_app in *. cbn [app] in *. runs_step.
    eapply (bubble_up_spec new big [] e (small ++ tail)); [by rewrite Ea, <- app_assoc|done|lia| | |].
    + replace (length big + length small - length big)%nat with (length small) by lia. rewrite take_app_length. done.
    + rewrite length_app. lia.
    + intros y. cbn [app length Nat.add]. destruct (Z.eqb_spec (blockCount new) 0) as [E0|Hne].
      * apply runs_set_cnt. rewrite with_cache_twice. apply HQ. eexists _, _. split; [done|].
        assert (small = []) as ->.
        { destruct small as [|e' small]; [done|]. specialize (Hsmall e' eq_refl). apply Forall_app in Hpos as [_ [? _]%Forall_cons_1]. lia. }
        unfold cache, cache_ok. cbn. rewrite app_nil_r, Nat.add_0_r, take_app_length. split; [done|].
        lengths.
      * replace (S (length big) - 1)%nat with (length big) by lia. eapply runs_set_ext; [apply lookup_mid|].
        rewrite with_cache_twice. cbn. rewrite insert_mid. apply HQ. eexists _, _. split; [done|]. unfold cache, cache_ok. cbn.
        rewrite app_comm_cons, app_assoc. replace (vcbFreeExtCnt s) with (length (big ++ new :: small)) by (rewrite length_app; cbn; lia).
        rewrite take_app_length. split; [done|]. lengths.
Qed.

(** ** The order of the cache *)

(** By start on a sparse device, else the larger first. *)
Definition not_after (sp : bool) (a b : HFSPlusExtentDescriptor) : Prop := comes_before sp b a = false.
Definition ordered (sp : bool) : list HFSPlusExtentDescriptor -> Prop := StronglySorted (not_after sp).

Lemma placed_in_order sp new l : ordered sp l -> ordered sp (placed sp new l).
Proof.
  intros Hl. destruct (split_at_place sp new l) as (pre & mid & -> & Hmid & Hlast). rewrite placed_split by done.
  unfold ordered in *. pose proof (StronglySorted_app_1_l _ _ _ Hl) as Hpre. pose proof (StronglySorted_app_1_r _ _ _ Hl) as Hm.
  assert (Hnew : ∀ e, e ∈ pre -> comes_before sp new e = false).
  { intros e He. destruct pre as [|x pre _] using rev_ind; [by apply not_elem_of_nil in He|].
    specialize (Hlast x ltac:(by apply last_snoc)). apply elem_of_app in He as [He|He%list_elem_of_singleton]; [|by subst].
    pose proof (StronglySorted_app_1_elem_of (not_after sp) pre [x] e x Hpre He ltac:(by left)) as Hx.
    unfold not_after, comes_before in *. destruct sp; lia. }
  apply StronglySorted_app_2; [|done|].
  - intros a b Ha [->|Hb]%elem_of_cons; [by apply Hnew|]. by eapply (StronglySorted_app_1_elem_of (not_after sp) pre mid).
  - constructor; [done|]. eapply Forall_impl; [exact Hmid|]. intros e He. unfold not_after, comes_before in *. destruct sp; lia.
Qed.

Lemma ordered_take sp n l : ordered sp l -> ordered sp (take n l).
Proof. intros H. rewrite <- (take_drop n l) in H. by eapply StronglySorted_app_1_l. Qed.

Lemma ordered_filter sp (P : HFSPlusExtentDescriptor -> Prop) `{!∀ e, Decision (P e)} l : ordered sp l -> ordered sp (filter P l).
Proof.
  induction 1 as [|e l Hl IH He]; [constructor|]. rewrite filter_cons. destruct (decide (P e)); [|done].
  constructor; [done|]. apply Forall_forall. intros x [_ Hx]%list_elem_of_filter. rewrite Forall_forall in He. by apply He.
Qed.

Lemma sunk_ordered new l : ordered false l -> ordered false (sunk new l).
Proof.
  intros Hl. destruct (split_at_sunk new l) as (big & small & -> & Hbig & Hsmall & ->). unfold ordered in *.
  pose proof (StronglySorted_app_1_r _ _ _ Hl) as Hs. rewrite Forall_forall in Hbig.
  assert (Hsm : ∀ e, e ∈ small -> blockCount e <= blockCount new).
  { intros e He. destruct small as [|x small]; [by apply not_elem_of_nil in He|]. specialize (Hsmall x eq_refl).
    apply elem_of_cons in He as [->|He]; [done|]. apply StronglySorted_inv in Hs as [_ Hx]. rewrite Forall_forall in Hx.
    specialize (Hx e He). unfold not_after, comes_before in Hx. lia. }
  apply StronglySorted_app_2; [|by eapply StronglySorted_app_1_l|].
  - intros a b Ha [->|Hb]%elem_of_cons; unfold not_after, comes_before.
    + specialize (Hbig a Ha). lia.
    + specialize (Hbig a Ha). specialize (Hsm b Hb). lia.
  - constructor; [done|]. apply Forall_forall. intros e He. specialize (Hsm e He). unfold not_after, comes_before. lia.
Qed.

Lemma placed_perm sp new l : placed sp new l ≡ₚ new :: l.
Proof.
  induction l as [|e l IH]; [done|]. cbn [placed]. destruct (forallb _ _); [done|].
  rewrite IH. apply Permutation_swap.
Qed.

Lemma sunk_perm new l : sunk new l ≡ₚ new :: l.
Proof.
  induction l as [|e l IH]; [done|]. cbn [sunk]. destruct (_ <? _); [|done]. rewrite IH. apply Permutation_swap.
Qed.

Definition in_order (s : hfsmount) : Prop := cache_ok s /\ ordered (sparse s) (cache s).

Lemma in_order_becomes l s s' : cache_becomes l s s' -> ordered (sparse s) l -> in_order s' /\ cache s' = l.
Proof. intros (n & v & -> & <- & Hok) Ho. split; [by split|done]. Qed.

(** The cache of free extents keeps its order, by start on a sparse device and
    with the larger extents first otherwise: adding an extent keeps the first ten of the old ones
    and the new one, in order; forgetting the extents that overlap a run removes these and no
    others; and when the first extent is used in part, what remains of it moves behind the larger
    ones.  None of them leaves the array. *)
Theorem cache_keeps_order s : cache_ok s -> ordered (sparse s) (cache s) ->
  (∀ update new, runs (add_extent update new) (λ _ s', in_order s' /\
    ∃ l, l ≡ₚ new :: cache s /\ ordered (sparse s) l /\ cache s' = take kMaxFreeExtents l) s) /\
  (∀ first count, runs (forget_extents (S (vcbFreeExtCnt s)) 0 first count) (λ _ s', in_order s' /\
    cache s' = filter (clear_of first count) (cache s)) s) /\
  (∀ e rest new, cache s = e :: rest -> sparse s = false -> Forall (λ e, 0 < blockCount e) rest ->
    runs (use_first (startBlock new) (blockCount new)) (λ _ s', in_order s' /\
      cache s' ≡ₚ if blockCount new =? 0 then rest else new :: rest) s).
Proof.
  intros Hok Ho. split_and!.
  - intros update new. apply add_extent_spec; [done|]. intros _ s' (v & _ & Hb).
    destruct (in_order_becomes _ _ _ Hb) as [Hi Hc]; [by apply ordered_take, placed_in_order|]. split; [done|].
    exists (placed (sparse s) new (cache s)). split; [apply placed_perm|]. split; [by apply placed_in_order|done].
  - intros first count. apply forget_extents_spec; [done|]. intros s' Hb.
    destruct (in_order_becomes _ _ _ Hb) as [Hi Hc]; [by apply ordered_filter|]. done.
  - intros e rest new Ec Hsp Hpos. eapply (use_first_spec new); [done|done|done|]. rewrite Hsp. intros s' Hb.
    rewrite Ec, Hsp in Ho. apply StronglySorted_inv in Ho as [Ho _].
    unfold reduced in Hb. destruct (blockCount new =? 0).
    + destruct (in_order_becomes _ _ _ Hb) as [Hi Hc]; [by rewrite Hsp|]. split; [done|by rewrite Hc].
    + destruct (in_order_becomes _ _ _ Hb) as [Hi Hc]; [rewrite Hsp; by apply sunk_ordered|].
      split; [done|]. rewrite Hc. apply sunk_perm.
Qed.

(** A full cache of a volume that is not sparse, with extents of 20, 18, ... and 2 blocks. *)
Definition full_sample : hfsmount :=
  Hfs kHFSPlusSigWord 4 0 4096 1024 1024 0 0 0 false 0 0 0 0 0 kMaxFreeExtents
    ((λ i, Extent (100 * i) (20 - 2 * i)) <$> seqZ 0 10) ∅ [] [] [].

Lemma full_sample_order : cache_ok full_sample /\ ordered (sparse full_sample) (cache full_sample).
Proof.
  split; [by vm_compute; auto|]. change (sparse full_sample) with false. change (cache full_sample) with ((λ i, Extent (100 * i) (20 - 2 * i)) <$> seqZ 0 10).
  vm_compute. repeat constructor.
Defined.

(** An extent of 7 blocks takes the place of the one of 2. *)
Lemma cache_keeps_order_witness :
  runs (add_extent true (Extent 2000 7)) (λ _ s', in_order s' /\
    ∃ l, l ≡ₚ Extent 2000 7 :: cache full_sample /\ ordered (sparse full_sample) l /\ cache s' = take kMaxFreeExtents l) full_sample /\
  match add_extent true (Extent 2000 7) full_sample with
  | Some (_, s') => blockCount <$> cache s' = [20; 18; 16; 14; 12; 10; 8; 7; 6; 4]
  | None => False
  end.
Proof.
  split; [|by vm_compute]. destruct full_sample_order as [Hok Ho].
  exact (proj1 (cache_keeps_order full_sample Hok Ho) true (Extent 2000 7)).
Defined.

End VolumeCache.
