(* ===== verification/VolumeContig.v ===== *)
(** [BlockFindContiguous]: the first run of free blocks that is long enough, and the shorter runs
    that are put into the cache of free extents on the way. *)

From S2P Require Import Prelude.
From S2P Require Import Volume.
From S2P Require Import VolumeSpec.
From S2P Require Import VolumeWalk.
From S2P Require Import VolumeRuns.
From S2P Require Import VolumeAny.
From S2P Require Import VolumeCache.
Import Volume.Volume VolumeSpec.VolumeSpec VolumeWalk.VolumeWalk VolumeRuns.VolumeRuns VolumeAny.VolumeAny VolumeCache.VolumeCache.

Module VolumeContig.

(** All the blocks from [a] up to [b] have the bit [v]. *)
Definition all_are (v : bool) (f : Z -> bool) (a b : Z) : Prop := ∀ x, a <= x < b -> f x = v.

Lemma all_are_nil v f a : all_are v f a a.
Proof. intros x Hx. lia. Qed.
Lemma all_are_snoc v f a b : all_are v f a b -> f b = v -> all_are v f a (b + 1).
Proof. intros H Hb x Hx. destruct (Z.eq_dec x b) as [->|]; [done|]. apply H. lia. Qed.
Lemma all_are_app v f a b c : all_are v f a b -> all_are v f b c -> all_are v f a c.
Proof. intros H1 H2 x Hx. destruct (Z.lt_ge_cases x b); [apply H1|apply H2]; lia. Qed.

(** ** In a word *)

(** Over the bits [v] of the word [q] from [a] on: to a block [c] that is not, or to the end. *)
Definition skipped (v : bool) (f : Z -> bool) (q a : Z) (r : Z * Z) : Prop :=
  let '(bitMask, c) := r in
  a <= c /\ all_are v f a c /\
  ((bitMask <> 0 /\ c / 32 = q /\ f c = negb v) \/ (bitMask = 0 /\ c = 32 * (q + 1))).

(** Where the loop stands. *)
Definition skipping (q bitMask c : Z) : Prop :=
  (selects bitMask c /\ c / 32 = q) \/ (bitMask = 0 /\ c = 32 * (q + 1)).

Lemma selects_pos bitMask c : selects bitMask c -> bitMask <> 0.
Proof. intros ->. pose proof (Z.mod_pos_bound c 32). pose proof (Z.pow_pos_nonneg 2 (31 - c mod 32)). lia. Qed.

Lemma skipping_next q bitMask c : 0 <= c -> selects bitMask c -> c / 32 = q -> skipping q (Z.shiftr bitMask 1) (c + 1).
Proof.
  intros Hc Hs Hq. destruct (selects_next _ _ Hc Hs) as [(H1 & H2 & H3)|(-> & E)]; [left|right]; split; try done; try lia.
Qed.

Lemma skipping_more q bitMask c n : 0 <= c -> selects bitMask c -> c / 32 = q -> 32 * (q + 1) - c <= Z.of_nat n -> (n <> 0)%nat.
Proof. intros Hc Hs Hq Hn ->. pose proof (Z.div_mod c 32). pose proof (Z.mod_pos_bound c 32). lia. Qed.

Section word.
Context (w q : Z) (f : Z -> bool) (Hq : 0 <= q /\ 32 * (q + 1) < 2 ^ 32) (Hw : holds_bits w f q).

Lemma selected_truth bitMask c : selects bitMask c -> c / 32 = q -> truth (w &&& bitMask) = f c.
Proof. intros Hs <-. pose proof (selected_bit _ _ _ _ Hw Hs) as E. unfold truth. by rewrite E, negb_involutive. Qed.

Lemma skip_used_spec n : ∀ bitMask c, 0 <= c -> skipping q bitMask c -> 32 * (q + 1) - c <= Z.of_nat n ->
  skipped true f q c (skip_used n w bitMask c).
Proof.
  induction n as [|n IH]; intros bitMask c Hc [[Hs Ec]|[-> ->]] Hn.
  - by destruct (skipping_more _ _ _ _ Hc Hs Ec Hn).
  - cbn. split; [lia|]. split; [apply all_are_nil|by right].
  - cbn [skip_used]. rewrite (selected_truth _ _ Hs Ec). destruct (f c) eqn:Ef.
    + assert (c < 32 * (q + 1)) by (pose proof (Z.div_mod c 32); pose proof (Z.mod_pos_bound c 32); lia).
      rewrite wrap_small by (unfold in_range; lia).
      specialize (IH (Z.shiftr bitMask 1) (c + 1) ltac:(lia) (skipping_next _ _ _ Hc Hs Ec) ltac:(lia)).
      destruct (skip_used _ _ _ _) as [m' c']. destruct IH as (H1 & H2 & H3). split; [lia|]. split; [|done].
      eapply all_are_app; [|done]. apply all_are_snoc; [apply all_are_nil|done].
    + split; [lia|]. split; [apply all_are_nil|left]. split; [by eapply selects_pos|done].
  - cbn [skip_used]. rewrite Z.land_0_r. cbn. split; [lia|]. split; [apply all_are_nil|by right].
Qed.

Lemma skip_free_spec n : ∀ bitMask c, 0 <= c -> skipping q bitMask c -> 32 * (q + 1) - c <= Z.of_nat n ->
  skipped false f q c (skip_free n w bitMask c).
Proof.
  induction n as [|n IH]; intros bitMask c Hc [[Hs Ec]|[-> ->]] Hn.
  - by destruct (skipping_more _ _ _ _ Hc Hs Ec Hn).
  - cbn. split; [lia|]. split; [apply all_are_nil|by right].
  - cbn [skip_free]. rewrite (selected_truth _ _ Hs Ec), (proj2 (truth_true _) (selects_pos _ _ Hs)).
    destruct (f c) eqn:Ef; cbn [andb negb].
    + split; [lia|]. split; [apply all_are_nil|left]. split; [by eapply selects_pos|done].
    + assert (c < 32 * (q + 1)) by (pose proof (Z.div_mod c 32); pose proof (Z.mod_pos_bound c 32); lia).
      rewrite wrap_small by (unfold in_range; lia).
      specialize (IH (Z.shiftr bitMask 1) (c + 1) ltac:(lia) (skipping_next _ _ _ Hc Hs Ec) ltac:(lia)).
      destruct (skip_free _ _ _ _) as [m' c']. destruct IH as (H1 & H2 & H3). split; [lia|]. split; [|done].
      eapply all_are_app; [|done]. apply all_are_snoc; [apply all_are_nil|done].
  - cbn. split; [lia|]. split; [apply all_are_nil|by right].
Qed.

(** A word that is not full has a free block, one that is not 0 a used one. *)
Lemma word_all_used : truth (u32 (w + 1)) = false -> all_are true f (32 * q) (32 * (q + 1)).
Proof.
  intros E%truth_false x Hx. destruct Hw as [Hr Hb].
  assert (w = Z.ones 32) as ->. { unfold in_range in Hr. unfold wrap in E. change (Z.ones 32) with (2 ^ 32 - 1).
    destruct (Z.eq_dec w (2 ^ 32 - 1)); [done|]. rewrite Z.mod_small in E; lia. }
  specialize (Hb (x - 32 * q) ltac:(lia)). replace (32 * q + (x - 32 * q)) with x in Hb by lia. rewrite <- Hb.
  apply Z.ones_spec_low. lia.
Qed.

Lemma word_all_free : truth w = false -> all_are false f (32 * q) (32 * (q + 1)).
Proof.
  intros ->%truth_false x Hx. destruct Hw as [Hr Hb].
  specialize (Hb (x - 32 * q) ltac:(lia)). replace (32 * q + (x - 32 * q)) with x in Hb by lia. rewrite <- Hb. apply Z.testbit_0_l.
Qed.

Lemma word_some_free : truth (u32 (w + 1)) = true -> ~ all_are true f (32 * q) (32 * (q + 1)).
Proof.
  intros E%truth_true Ha. apply E. destruct Hw as [Hr Hb]. assert (w = Z.ones 32) as ->; [|done].
  apply word_bits_inj; [done|done|]. intros j Hj. rewrite Hb by done. rewrite Z.ones_spec_low by lia. apply Ha. lia.
Qed.

Lemma word_some_used : truth w = true -> ~ all_are false f (32 * q) (32 * (q + 1)).
Proof.
  intros E%truth_true Ha. apply E. destruct Hw as [Hr Hb]. 
  apply word_bits_inj; [done|done|]. intros j Hj. rewrite Hb by done. rewrite Z.testbit_0_l. apply Ha. lia.
Qed.

Lemma skipping_first : skipping q kHighBitInWordMask (32 * q).
Proof. left. split; [apply first_selects|]. symmetry. apply (Z.div_unique _ _ _ 0); lia. Qed.
End word.

(** ** Across words *)

Section search.
Context (s0 : hfsmount) (nb : Z) (Hg : geometry s0 nb) (bread : hfsmount -> Z -> Z).
Context (f : Z -> bool) (useMetaZone : bool) (Hsmall : 32 * (wpb s0 * nb) < 2 ^ 32).

Abbreviation W := (wpb s0 * nb).
Abbreviation looks_at p := (view s0 nb f [p_ref p] false).

(** At the first block of a word. *)
Definition at_start (p : position) (c : Z) : Prop := at_word s0 p (c / 32) /\ c = 32 * (c / 32).
(** In a word that was read. *)
Definition in_word (p : position) (c : Z) : Prop := at_word s0 p (c / 32) /\ 0 < p_left p /\ c < 32 * W.

(** Reading the bitmap block of a word, when those of the last are used up. *)
Lemma refill {B} (c : Z) p s (k : Z -> K (Z + B)) Q : looks_at p s -> avoids_zone s0 useMetaZone c ->
  (∀ s', view s0 nb f [] false s' -> runs (k c) Q s') ->
  runs (err ← ReleaseBitmapBlock (p_ref p) false;
        if negb (err =? 0) then mret (inl err)
        else c ← (if useMetaZone then mret c else NextBitmapBlock c); k c) Q s.
Proof.
  intros Hv Hz HQ. runs_step. eapply view_release; [done|]. intros s1 Hv1. cbn [negb Z.eqb]. runs_step.
  eapply (next_bitmap_block s0 useMetaZone); [apply (view_agree _ _ _ _ _ _ Hv1)|done|by apply HQ].
Qed.

Lemma read_first c s Q : view s0 nb f [] false s -> 0 <= c < 32 * W -> index_of s0 (c / 32) = 0 ->
  (∀ err s', read_error bread err -> view s0 nb f [] false s' -> Q (inl err) s') ->
  (∀ p s', in_word p c -> looks_at p s' -> Q (inr (c, Some p)) s') ->
  runs (r ← ReadBitmapBlock bread c;
        match r with
        | inl err => mret (inl err)
        | inr ref => size ← gets vcbVBMIOSize; mret (inr (c, Some (Pos ref 0 (size / kBytesPerWord))))
        end) Q s.
Proof.
  intros Hv Hc Hi HE HQ. runs_step. eapply view_read; [done|done|lia|..].
  - intros err s1 He Hv1. runs_steps. by apply HE.
  - intros s1 Hv1. runs_steps. rewrite (agree_size _ _ (view_agree _ _ _ _ _ _ Hv1)).
    destruct (first_word_at s0 nb Hg _ Hi) as [Hp Hpl]. apply HQ; [|done]. by split_and!; try lia.
Qed.

(** A position with no word left is at the first of a bitmap block. *)
Lemma at_start_left p c : at_start p c -> (p_left p = 0 -> index_of s0 (c / 32) = 0) /\ (p_left p <> 0 -> 0 < p_left p).
Proof.
  intros [[(E1 & E2 & E3)|(E & Ei & _)] _]; [|by split; [|lia]].
  pose proof (index_bound s0 nb Hg (c / 32)). split; lia.
Qed.

(** The first blocks of the next word. *)
Lemma step_start p c : in_word p c -> 0 <= c -> at_start (step p) (32 * (c / 32 + 1)) /\ p_ref (step p) = p_ref p.
Proof.
  intros (Hp & Hpl & Hc) H0. assert (E : 32 * (c / 32 + 1) / 32 = c / 32 + 1) by (symmetry; apply (Z.div_unique _ _ _ 0); lia).
  destruct (step_at s0 nb Hg p (c / 32)) as [Hp' _]; [apply Z.div_pos; lia|done|done|].
  split; [|done]. unfold at_start. by rewrite E.
Qed.

Lemma in_word_bits p c d s Q : view s0 nb f [p_ref p] d s -> in_word p c -> 0 <= c ->
  (∀ w, holds_bits (SWAP_BE32 w) f (c / 32) -> Q w s) -> runs (word (p_ref p) (p_index p)) Q s.
Proof.
  intros Hv (Hp & Hpl & Hc) H0 HQ. eapply (read_word s0 nb Hg); [done|done|done| |done].
  split; [apply Z.div_pos; lia|apply Z.div_lt_upper_bound; lia].
Qed.

Lemma word_range c : 0 <= c < 32 * W -> 0 <= c / 32 /\ 32 * (c / 32 + 1) <= 32 * W /\ 32 * (c / 32 + 1) < 2 ^ 32.
Proof. intros. assert (c / 32 < W) by (apply Z.div_lt_upper_bound; lia). pose proof (Z.div_pos c 32). lia. Qed.

Lemma in_word_same p c c' : in_word p c -> 0 <= c -> c' / 32 = c / 32 -> in_word p c'.
Proof.
  intros (Hp & Hpl & Hc) H0 E. unfold in_word. rewrite E. split_and!; [done|done|].
  pose proof (word_range c ltac:(lia)). pose proof (Z.div_mod c' 32). pose proof (Z.mod_pos_bound c' 32). lia.
Qed.

(** *** The next free block *)

(** The search goes from [a] to [c]: at a free block, or not before [stop]. *)
Definition found_free (stop a : Z) (c : Z) (p : position) : Prop :=
  a <= c /\ all_are true f a c /\ ((f c = false /\ in_word p c) \/ stop <= c).

Lemma find_free_word_spec stop fuel : ∀ c p s Q, (Z.to_nat (stop - c) < fuel)%nat -> 0 <= c -> stop <= 32 * W ->
  looks_at p s -> at_start p c -> avoids_zone s0 useMetaZone c ->
  (∀ err s', read_error bread err -> view s0 nb f [] false s' -> Q (inl err) s') ->
  (∀ c' p' s', found_free stop c c' p' -> looks_at p' s' -> Q (inr (c', Some p')) s') ->
  runs (find_free_word bread fuel useMetaZone stop c p) Q s.
Proof.
  induction fuel as [|fuel IH]; intros c p s Q Hf Hc Hstop Hv Hp Hz HE HQ; [lia|]. cbn [find_free_word].
  destruct (Z.ltb_spec c stop) as [Hlt|Hge].
  2: { runs_step. apply HQ; [|done]. split; [lia|]. split; [apply all_are_nil|by right]. }
  pose proof (at_start_left _ _ Hp) as [Hl0 Hl1]. pose proof (proj2 Hp) as Ec.
  assert (Hword : ∀ p s, looks_at p s -> in_word p c ->
    runs (w ← word (p_ref p) (p_index p);
          let tempWord := SWAP_BE32 w in
          if truth (u32 (tempWord + 1)) then mret (inr ((skip_used 32 tempWord kHighBitInWordMask c).2, Some p))
          else find_free_word bread fuel useMetaZone stop (u32 (c + kBitsPerWord)) (step p)) Q s).
  { clear p s Hv Hp Hl0 Hl1. intros p s Hv Hp. runs_step. eapply in_word_bits; [done|done|done|]. intros w Hw. cbv zeta.
    pose proof (word_range c ltac:(lia)) as Hr. pose proof Ec as Eq. set (q := c / 32) in *.
    destruct (truth _) eqn:Et.
    - pose proof (skip_used_spec _ q f ltac:(lia) Hw 32 kHighBitInWordMask c Hc ltac:(rewrite Eq; apply skipping_first; lia) ltac:(lia)) as Hs.
      runs_step. destruct (skip_used _ _ _ _) as [m' c']. cbn [snd]. destruct Hs as (H1 & H2 & H3). apply HQ; [|done].
      split; [lia|]. split; [done|left]. destruct H3 as [(_ & E3 & E4)|(_ & E3)].
      + split; [done|]. by eapply in_word_same.
      + exfalso. eapply word_some_free; [done|done|]. by rewrite <- E3, <- Eq.
    - pose proof (word_all_used _ q f Hw Et) as Hall. unfold kBitsPerWord. rewrite wrap_small by (unfold in_range; lia).
      destruct (step_start p c Hp Hc) as [Hp' Er]. replace (c + 32) with (32 * (c / 32 + 1)) by (fold q; lia).
      eapply (IH _ (step p)); [|lia|done|by rewrite Er|done| |done|].
      + fold q. lia.
      + eapply avoids_zone_le; [done|fold q; lia].
      + fold q. intros c' p' s' (H1 & H2 & H3). apply HQ. split; [lia|]. split; [|done].
        eapply all_are_app; [|done]. by rewrite Eq. }
  destruct (Z.eqb_spec (p_left p) 0) as [El|Hne].
  - runs_step. apply (refill c p s (λ c, if negb useMetaZone && (stop <=? c) then mret (inr (c, None)) else _)); [done|done|].
    intros s1 Hv1. rewrite (proj2 (Z.leb_gt _ _)), andb_false_r by done.
    eapply read_first; [done|lia|by apply Hl0|..].
    + intros err s2 He Hv2. runs_steps. by apply HE.
    + intros p2 s2 Hp2 Hv2. by apply Hword.
  - do 2 runs_step. apply (Hword p); [done|]. split_and!; [apply Hp|by apply Hl1|lia].
Qed.


(** Where a search may start: at the first block of a word, or in a word that was read. *)
Definition stands (p : position) (c : Z) : Prop := at_start p c \/ (c mod 32 <> 0 /\ in_word p c).

Lemma in_word_stands p c : in_word p c -> stands p c.
Proof.
  intros Hp. destruct (Z.eq_dec (c mod 32) 0) as [E|]; [left|by right]. split; [apply Hp|].
  pose proof (Z.div_mod c 32). lia.
Qed.

Lemma bit_in_word c : c &&& (kBitsPerWord - 1) = c mod 32.
Proof. change (kBitsPerWord - 1) with (Z.ones 5). by rewrite land_ones_mod. Qed.

Lemma at_start_mod p c : at_start p c -> c mod 32 = 0.
Proof. intros [_ E]. pose proof (Z.div_mod c 32). lia. Qed.

(** In the middle of a word: what is left of it. *)
Lemma skipping_middle c : 0 <= c -> skipping (c / 32) (Z.shiftr kHighBitInWordMask (c mod 32)) c.
Proof. intros. left. split; [|done]. rewrite <- bit_in_word. apply high_bit_selects. Qed.

Lemma to_word_end c : 0 <= c -> 32 * (c / 32 + 1) - c <= Z.of_nat 32.
Proof. intros. pose proof (Z.div_mod c 32 ltac:(lia)). pose proof (Z.mod_pos_bound c 32 ltac:(lia)). lia. Qed.

Lemma next_free_spec stop c p s Q : 0 <= c -> stop <= 32 * W ->
  looks_at p s -> stands p c -> avoids_zone s0 useMetaZone c ->
  (∀ err s', read_error bread err -> view s0 nb f [] false s' -> Q (inl err) s') ->
  (∀ c' p' s', found_free stop c c' p' -> looks_at p' s' -> Q (inr (c', Some p')) s') ->
  runs (next_free bread useMetaZone stop c p) Q s.
Proof.
  intros Hc Hstop Hv Hp Hz HE HQ. unfold next_free. rewrite bit_in_word. destruct Hp as [Hp|[Hne Hp]].
  - rewrite (at_start_mod _ _ Hp). cbn [truth negb Z.eqb]. by apply find_free_word_spec; try lia.
  - rewrite (proj2 (truth_true _) Hne). runs_step. eapply in_word_bits; [done|done|done|]. intros w Hw.
    pose proof (word_range c ltac:(destruct Hp as (_ & _ & ?); lia)) as Hr.
    pose proof (skip_used_spec _ (c / 32) f ltac:(lia) Hw 32 _ c Hc (skipping_middle c Hc) (to_word_end c Hc)) as Hs.
    destruct (skip_used _ _ _ _) as [m' c']. destruct Hs as (H1 & H2 & [(H3 & H4 & H5)|[-> ->]]).
    + rewrite (proj2 (truth_true _) H3). runs_step. apply HQ; [|done]. split; [done|]. split; [done|left].
      split; [done|by eapply in_word_same].
    + cbn [truth negb Z.eqb]. destruct (step_start p c Hp Hc) as [Hp' Er].
      eapply find_free_word_spec; [lia|lia|done|by rewrite Er|done|eapply avoids_zone_le; [done|lia]|done|].
      intros c' p' s' (H3 & H4 & H5). apply HQ. split; [lia|]. split; [by eapply all_are_app|done].
Qed.

(** *** The end of a free run *)

(** The run goes from [a] to [c]: to a used block, or far enough. *)
Definition free_until (ending max first a : Z) (c : Z) (p : position) : Prop :=
  a <= c <= 32 * W /\ all_are false f a c /\
  ((f c = true /\ in_word p c) \/ (at_start p c /\ (max <= c - first \/ ending <= c))).

Lemma count_free_words_spec ending max first fuel : ∀ c p s Q, (Z.to_nat (ending - c) < fuel)%nat -> 0 <= first <= c ->
  ending <= 32 * W -> c <= 32 * W -> looks_at p s -> at_start p c -> avoids_zone s0 useMetaZone c ->
  (∀ err s', read_error bread err -> view s0 nb f [] false s' -> Q (inl err) s') ->
  (∀ c' p' s', free_until ending max first c c' p' -> looks_at p' s' -> Q (inr (c', Some p')) s') ->
  runs (count_free_words bread fuel useMetaZone ending max first c p) Q s.
Proof.
  induction fuel as [|fuel IH]; intros c p s Q Hf Hc Hend HcW Hv Hp Hz HE HQ; [lia|]. cbn [count_free_words].
  destruct (Z.ltb_spec c ending) as [Hlt|Hge].
  2: { runs_step. apply HQ; [|done]. split; [lia|]. split; [apply all_are_nil|right]. split; [done|by right]. }
  pose proof (at_start_left _ _ Hp) as [Hl0 Hl1]. pose proof (proj2 Hp) as Ec.
  assert (Hword : ∀ p s, looks_at p s -> in_word p c ->
    runs (w ← word (p_ref p) (p_index p);
          let tempWord := SWAP_BE32 w in
          if truth tempWord then mret (inr ((skip_free 32 tempWord kHighBitInWordMask c).2, Some p))
          else
            let currentBlock := u32 (c + kBitsPerWord) in
            if max <=? u32 (currentBlock - first) then mret (inr (currentBlock, Some (step p)))
            else count_free_words bread fuel useMetaZone ending max first currentBlock (step p)) Q s).
  { clear p s Hv Hp Hl0 Hl1. intros p s Hv Hp. runs_step. eapply in_word_bits; [done|done|lia|]. intros w Hw. cbv zeta.
    pose proof (word_range c ltac:(lia)) as Hr. pose proof Ec as Eq. set (q := c / 32) in *.
    destruct (truth _) eqn:Et.
    - pose proof (skip_free_spec _ q f ltac:(lia) Hw 32 kHighBitInWordMask c ltac:(lia) ltac:(rewrite Eq; apply skipping_first; lia) ltac:(lia)) as Hs.
      runs_step. destruct (skip_free _ _ _ _) as [m' c']. cbn [snd]. destruct Hs as (H1 & H2 & H3).
      destruct H3 as [(_ & E3 & E4)|(_ & E3)].
      + assert (Hp' : in_word p c') by (eapply in_word_same; [done|lia|done]). apply HQ; [|done].
        split; [destruct Hp' as (_ & _ & ?); lia|]. split; [done|by left].
      + exfalso. eapply word_some_used; [done|done|]. by rewrite <- E3, <- Eq.
    - pose proof (word_all_free _ q f Hw Et) as Hall. unfold kBitsPerWord. rewrite (wrap_small 32 (c + 32)) by (unfold in_range; lia).
      rewrite wrap_small by (unfold in_range; lia).
      destruct (step_start p c Hp ltac:(lia)) as [Hp' Er]. replace (c + 32) with (32 * (c / 32 + 1)) by (fold q; lia).
      assert (Hall' : all_are false f c (32 * (c / 32 + 1))) by (fold q; by rewrite Eq at 1).
      destruct (Z.leb_spec max (32 * (c / 32 + 1) - first)).
      + runs_step. apply HQ; [|by rewrite Er]. split; [fold q; lia|]. split; [done|right]. split; [done|by left].
      + eapply (IH _ (step p)); [fold q; lia|fold q; lia|done|fold q; lia|by rewrite Er|done| |done|].
        * eapply avoids_zone_le; [done|fold q; lia].
        * intros c' p' s' (H1 & H2 & H3). apply HQ. split; [fold q in H1; lia|]. split; [by eapply all_are_app|done]. }
  destruct (Z.eqb_spec (p_left p) 0) as [El|Hne].
  - runs_step. apply (refill c p s (λ nextBlock, if negb (nextBlock =? c) then mret (inr (c, None)) else _)); [done|done|].
    intros s1 Hv1. rewrite Z.eqb_refl. cbn [negb].
    eapply read_first; [done|lia|by apply Hl0|..].
    + intros err s2 He Hv2. runs_steps. by apply HE.
    + intros p2 s2 Hp2 Hv2. by apply Hword.
  - do 2 runs_step. apply (Hword p); [done|]. split_and!; [apply Hp|by apply Hl1|lia].
Qed.

Lemma end_of_free_spec ending max first p s Q : 0 <= first -> ending <= 32 * W ->
  looks_at p s -> in_word p first -> avoids_zone s0 useMetaZone first ->
  (∀ err s', read_error bread err -> view s0 nb f [] false s' -> Q (inl err) s') ->
  (∀ c' p' s', free_until ending max first first c' p' -> looks_at p' s' -> Q (inr (c', Some p')) s') ->
  runs (end_of_free bread useMetaZone ending max first p) Q s.
Proof.
  intros Hc Hend Hv Hp Hz HE HQ. unfold end_of_free. rewrite bit_in_word. pose proof Hp as (_ & _ & HcW).
  destruct (in_word_stands _ _ Hp) as [Hp0|[Hne _]].
  - rewrite (at_start_mod _ _ Hp0). cbn [truth negb Z.eqb]. by apply count_free_words_spec; try lia.
  - rewrite (proj2 (truth_true _) Hne). runs_step. eapply in_word_bits; [done|done|done|]. intros w Hw.
    pose proof (word_range first ltac:(lia)) as Hr.
    pose proof (skip_free_spec _ (first / 32) f ltac:(lia) Hw 32 _ first Hc (skipping_middle first Hc) (to_word_end first Hc)) as Hs.
    destruct (skip_free _ _ _ _) as [m' c']. destruct Hs as (H1 & H2 & [(H3 & H4 & H5)|[-> ->]]).
    + rewrite (proj2 (truth_true _) H3). runs_step. assert (Hp' : in_word p c') by by eapply in_word_same.
      apply HQ; [|done]. split; [destruct Hp' as (_ & _ & ?); lia|]. split; [done|by left].
    + cbn [truth negb Z.eqb]. destruct (step_start p first Hp Hc) as [Hp' Er].
      eapply count_free_words_spec; [lia|lia|done|lia|by rewrite Er|done|eapply avoids_zone_le; [done|lia]|done|].
      intros c' p' s' (H3 & H4 & H5). apply HQ. split; [lia|]. split; [by eapply all_are_app|done].
Qed.
End search.

(** ** The cache on the way *)

(** A cached extent is a run of free blocks of the volume. *)
Definition cached_free (f : Z -> bool) (total : Z) (e : HFSPlusExtentDescriptor) : Prop :=
  0 < blockCount e /\ 0 <= startBlock e /\ startBlock e + blockCount e <= total /\
  all_are false f (startBlock e) (startBlock e + blockCount e).

(** The cache has such extents only. *)
Definition cache_free (f : Z -> bool) (s : hfsmount) : Prop :=
  cache_ok s /\ Forall (cached_free f (totalBlocks s)) (cache s).

Lemma placed_Forall P sp new l : P new -> Forall P l -> Forall P (take kMaxFreeExtents (placed sp new l)).
Proof. intros. apply Forall_take. rewrite placed_perm. by constructor. Qed.

Lemma agree_cache s0 s : agree s0 s -> cache s = cache s0 /\ (cache_ok s <-> cache_ok s0) /\ vcbFreeExtCnt s = vcbFreeExtCnt s0 /\
  sparse s = sparse s0 /\ sparseAllocation s = sparseAllocation s0 /\ totalBlocks s = totalBlocks s0 /\ allocLimit s = allocLimit s0.
Proof. by intros (m & h & u & c & ->). Qed.

Lemma view_with_cache s0 nb f h d s n v : view s0 nb f h d s -> view (with_cache n v s0) nb f h d (with_cache n v s).
Proof.
  intros [(m & h' & u & c & ->) Hok Hb Hh Hu]. split; [|done..]. exists m, h', u, c. by destruct s0.
Qed.

Lemma geometry_with_cache s0 nb n v : geometry s0 nb -> geometry (with_cache n v s0) nb.
Proof. intros [H1 H2]. by split. Qed.

(** A run found on the way is put into the cache, unless it overlaps an extent in it. *)
Lemma add_found_spec s0 nb f h s first found Q : view s0 nb f h false s -> cache_free f s0 ->
  cached_free f (totalBlocks s0) (Extent first found) ->
  (∀ added n v s', cache_free f (with_cache n v s0) -> view (with_cache n v s0) nb f h false s' -> Q added s') ->
  runs (overlaps_cached (vcbFreeExtCnt s) 0 first found)
    (λ overlap, runs (if (overlap : bool) then mret false else add_extent false (Extent first found)) Q) s.
Proof.
  intros Hv [Hok Hfree] Hnew HQ. destruct (agree_cache _ _ (view_agree _ _ _ _ _ _ Hv)) as (Ec & Eok & Ecnt & Esp & Esa & _).
  apply overlaps_cached_spec; [by apply Eok|]. destruct (existsb _ _).
  - runs_step. apply (HQ _ (vcbFreeExtCnt s0) (vcbFreeExt s0)); by rewrite with_cache_same.
  - apply add_extent_spec; [by apply Eok|]. rewrite Esp, Ec. intros added s' (sa & [->|[? _]] & n & v & -> & Hc & Hok'); [|done].
    rewrite sparse_same in *. apply (HQ _ n v); [|by apply view_with_cache].
    assert (Hag : agree (with_cache n v s0) (with_cache n v s)) by apply (view_agree _ _ _ _ _ _ (view_with_cache _ _ _ _ _ _ n v Hv)).
    destruct (agree_cache _ _ Hag) as (Ec' & Eok2 & _). split; [by apply Eok2|]. rewrite <- Ec', Hc. by apply placed_Forall.
Qed.

(** ** The search *)

(** No free run of [min] blocks starts between [a] and [b]. *)
Definition no_run (f : Z -> bool) (ending min a b : Z) : Prop :=
  ∀ x, a <= x < b -> x + min <= ending -> ~ all_are false f x (x + min).

Lemma no_run_app f ending min a b c : no_run f ending min a b -> no_run f ending min b c -> no_run f ending min a c.
Proof. intros H1 H2 x Hx. destruct (Z.lt_ge_cases x b); [apply H1|apply H2]; lia. Qed.

Lemma no_run_used f ending min a b : 0 < min -> all_are true f a b -> no_run f ending min a b.
Proof. intros Hm Ha x Hx _ Hf. specialize (Ha x Hx). rewrite Hf in Ha by lia. done. Qed.

Lemma no_run_short f ending min a b : f b = true -> b - a < min -> no_run f ending min a b.
Proof. intros Hb Hm x Hx _ Hf. rewrite Hf in Hb by lia. done. Qed.

Lemma no_run_end f ending min a b : ending - min + 1 <= a -> no_run f ending min a b.
Proof. intros H x Hx Hxe. lia. Qed.

Section find.
Context (bread : hfsmount -> Z -> Z) (f : Z -> bool) (useMetaZone : bool) (nb start ending min max : Z).
Context (Hmin : 0 < min <= max) (Hend : min <= ending).

(** What the loop finds: the first run that is long enough, or none. *)
Definition found_run (first found : Z) : Prop :=
  (start <= first /\ min <= found <= max /\ first + found <= ending /\ all_are false f first (first + found) /\
   no_run f ending min start first) \/
  (found < min /\ no_run f ending min start ending).

Lemma find_loop_spec fuel : ∀ s0 first0 c p updated s Q, (Z.to_nat (ending - c) < fuel)%nat ->
  geometry s0 nb -> 32 * (wpb s0 * nb) < 2 ^ 32 -> ending <= 32 * (wpb s0 * nb) -> ending <= totalBlocks s0 ->
  0 <= start <= c -> cache_free f s0 ->
  view s0 nb f [p_ref p] false s -> stands s0 nb p c -> avoids_zone s0 useMetaZone c -> no_run f ending min start c ->
  (∀ err updated n v s', read_error bread err -> view (with_cache n v s0) nb f [] false s' -> cache_free f (with_cache n v s0) ->
    Q (inl err, updated, None) s') ->
  (∀ first found updated ref n v s', found_run first found ->
    view (with_cache n v s0) nb f [ref] false s' -> cache_free f (with_cache n v s0) ->
    Q (inr (first, found), updated, Some ref) s') ->
  runs (find_loop bread fuel useMetaZone ending min max first0 c p updated) Q s.
Proof.
  induction fuel as [|fuel IH]; intros s0 first0 c p updated s Q Hf Hg HW HeW Het Hc Hcf Hv Hp Hz Hno HE HQ; [lia|]. cbn [find_loop].
  assert (HE0 : ∀ err updated s', read_error bread err -> view s0 nb f [] false s' -> Q (inl err, updated, None) s').
  { intros err up s' He Hv'. apply (HE err up (vcbFreeExtCnt s0) (vcbFreeExt s0)); by rewrite ?with_cache_same. }
  assert (HQ0 : ∀ first found updated ref s', found_run first found -> view s0 nb f [ref] false s' ->
    Q (inr (first, found), updated, Some ref) s').
  { intros first found up ref s' Hfr Hv'. apply (HQ first found up ref (vcbFreeExtCnt s0) (vcbFreeExt s0)); by rewrite ?with_cache_same. }
  rewrite (wrap_small 32 (ending - min + 1)) by (unfold in_range; lia). set (stop := ending - min + 1) in *.
  runs_step. eapply next_free_spec; [done|done|lia|lia|done|done|done|..].
  { intros err s1 He Hv1. runs_steps. by apply HE0. }
  clear p Hp Hv s. intros first p s (H1 & H2 & H3) Hv. runs_steps.
  pose proof (no_run_app _ _ _ _ _ _ Hno (no_run_used _ ending min _ _ ltac:(lia) H2)) as Hno1.
  destruct (Z.leb_spec stop first) as [Hge|Hlt].
  { runs_steps. apply HQ0; [|done]. right. split; [lia|]. eapply no_run_app; [done|]. apply no_run_end. lia. }
  destruct H3 as [[H3 Hp]|?]; [|lia]. runs_step.
  eapply end_of_free_spec; [done|done|lia|lia|done|done|eapply avoids_zone_le; [done|lia]|..].
  { intros err s1 He Hv1. runs_steps. by apply HE0. }
  intros c' p' s1 (H4 & H5 & H6) Hv1. runs_steps.
  set (cb := if ending <? c' then ending else c').
  assert (Ecb : cb = Z.min c' ending) by (unfold cb; destruct (Z.ltb_spec ending c'); lia). clearbody cb.
  rewrite (wrap_small 32 (cb - first)) by (unfold in_range; lia).
  set (found := if max <? cb - first then max else cb - first).
  assert (Ef : found = Z.min max (cb - first)) by (unfold found; destruct (Z.ltb_spec max (cb - first)); lia). clearbody found.
  destruct (Z.leb_spec min found) as [Hle|Hgt].
  { runs_steps. apply HQ0; [|done]. left. split_and!; try done; try lia. intros x Hx. apply H5. lia. }
  destruct H6 as [[H6 Hp']|[_ ?]]; [|lia].
  assert (Hpos : first < c') by (destruct (Z.eq_dec first c') as [->|]; [congruence|lia]).
  pose proof (no_run_app _ _ _ _ _ _ Hno1 (no_run_short f ending min first c' H6 ltac:(lia))) as Hno2.
  assert (Hnew : cached_free f (totalBlocks s0) (Extent first found)).
  { unfold cached_free. cbn. split_and!; try lia. intros x Hx. apply H5. lia. }
  runs_steps. eapply runs_weaken; [|intros overlap s2 Hov; runs_step; exact Hov].
  apply (add_found_spec s0 nb f [p_ref p']); [done..|]. clear s s1 Hv Hv1. intros added n v s Hcf2 Hv2.
  destruct (Z.ltb_spec cb stop) as [Hcs|Hcs].
  - replace cb with c' by lia. apply (IH (with_cache n v s0) first); try done; try lia.
    + by apply geometry_with_cache.
    + apply (in_word_stands s0), Hp'.
    + apply (avoids_zone_le s0 useMetaZone c c'); [done|lia].
  - runs_step. apply (HQ _ _ _ _ n v); [|done|done]. right. split; [lia|].
    eapply no_run_app; [done|]. apply no_run_end. lia.
Qed.
End find.

(** ** The whole search *)

(** The allocation pointers are block numbers. *)
Definition pointers_ok (s : hfsmount) : Prop :=
  in_range 32 (nextAllocation s) /\ in_range 32 (sparseAllocation s) /\ 0 <= totalBlocks s.

(** [s1] has another cache and other allocation pointers than [s0]. *)
Definition retuned (s0 s1 : hfsmount) : Prop :=
  (pointers_ok s0 -> pointers_ok s1) /\ ∃ n v a b, s1 = set_sparseAllocation b (set_nextAllocation a (with_cache n v s0)).

Lemma retuned_cache n v s : retuned s (with_cache n v s).
Proof. split; [done|]. exists n, v, (nextAllocation s), (sparseAllocation s). by destruct s. Qed.
Lemma retuned_refl s : retuned s s.
Proof. split; [done|]. exists (vcbFreeExtCnt s), (vcbFreeExt s), (nextAllocation s), (sparseAllocation s). by destruct s. Qed.
Lemma retuned_trans s1 s2 s3 : retuned s1 s2 -> retuned s2 s3 -> retuned s1 s3.
Proof.
  intros [H1 (n & v & a & b & ->)] [H2 (n' & v' & a' & b' & ->)]. split; [auto|]. exists n', v', a', b'. by destruct s1.
Qed.
Lemma retuned_pointers a b s : (pointers_ok s -> in_range 32 a /\ in_range 32 b) ->
  retuned s (set_sparseAllocation b (set_nextAllocation a s)).
Proof.
  intros H. split; [|exists (vcbFreeExtCnt s), (vcbFreeExt s), a, b; by destruct s].
  intros Hp. destruct (H Hp). destruct Hp as (_ & _ & ?). by split_and!.
Qed.

Lemma view_pointers s0 nb f h d s a b : view s0 nb f h d s ->
  view (set_sparseAllocation b (set_nextAllocation a s0)) nb f h d (set_sparseAllocation b (set_nextAllocation a s)).
Proof.
  intros [(m & h' & u & c & ->) Hok Hb Hh Hu]. split; [|done..]. exists m, h', u, c. by destruct s0.
Qed.

(** The bitmap is [f], seen from [s0] but for the cache and the allocation pointers. *)
Definition searched (s0 : hfsmount) (nb : Z) (f : Z -> bool) (h : list Z) (s : hfsmount) : Prop :=
  ∃ s1, retuned s0 s1 /\ view s1 nb f h false s /\ cache_free f s1.

Lemma smallest_start_nonneg f total l : Forall (cached_free f total) l -> 0 <= total ->
  0 <= foldr (λ e m, Z.min (startBlock e) m) total l.
Proof. intros H Ht. induction H as [|e l (_ & ? & _) _ IH]; cbn; [done|]. lia. Qed.

Lemma lower_pointers_spec updated s0 nb f h s Q : searched s0 nb f h s ->
  (∀ s', searched s0 nb f h s' -> Q tt s') -> runs (lower_pointers updated) Q s.
Proof.
  intros (s1 & Hr & Hv & Hc) HQ. unfold lower_pointers. runs_steps. cbn [id].
  assert (Hsame : Q tt s) by (apply HQ; by exists s1).
  destruct (_ && _); [|by runs_step]. destruct (negb _); [|by runs_step]. runs_steps.
  assert (Ha : agree s1 s) by apply (view_agree _ _ _ _ _ _ Hv).
  assert (Hend : ∀ a b, (pointers_ok s1 -> in_range 32 a /\ in_range 32 b) -> Q tt (set_sparseAllocation b (set_nextAllocation a s))).
  { intros a b Hab. apply HQ. eexists. split; [eapply retuned_trans; [done|by apply (retuned_pointers a b)]|]. split; [by apply view_pointers|done]. }
  set (m := foldr _ _ _).
  assert (Hm : pointers_ok s1 -> 0 <= m).
  { intros (_ & _ & ?). destruct (agree_cache _ _ Ha) as (Ec & _ & _ & _ & _ & Et & _).
    unfold m. change (take (vcbFreeExtCnt s) (vcbFreeExt s)) with (cache s). rewrite Ec, Et. eapply smallest_start_nonneg; [apply Hc|done]. }
  assert (En : nextAllocation s = nextAllocation s1 /\ sparseAllocation s = sparseAllocation s1).
  { by destruct Ha as (? & ? & ? & ? & ->). }
  destruct En as [En Es].
  destruct (Z.ltb_spec m (nextAllocation s)); cbn [sparseAllocation set_nextAllocation];
    destruct (Z.ltb_spec m (sparseAllocation s)).
  - apply Hend. intros Hp. specialize (Hm Hp). destruct Hp as (? & ? & ?). unfold in_range in *. lia.
  - assert (H3 : Q tt (set_sparseAllocation (sparseAllocation s) (set_nextAllocation m s))); [|by destruct s].
    apply Hend. intros Hp. specialize (Hm Hp). destruct Hp as (? & ? & ?). unfold in_range in *. lia.
  - assert (H3 : Q tt (set_sparseAllocation m (set_nextAllocation (nextAllocation s) s))); [|by destruct s].
    apply Hend. intros Hp. specialize (Hm Hp). destruct Hp as (? & ? & ?). unfold in_range in *. lia.
  - done.
Qed.

Section contig.
Context (s0 : hfsmount) (nb : Z) (Hg : geometry s0 nb) (bread : hfsmount -> Z -> Z) (f : Z -> bool).
Context (Hsmall : 32 * (wpb s0 * nb) < 2 ^ 32) (Hcf : cache_free f s0).
Context (Hz0 : 0 <= hfs_metazone_end s0) (Hz : hfs_metazone_end s0 + 2 < 2 ^ 32).

(** The word of the first block. *)
Lemma first_position c : 0 <= c < 32 * (wpb s0 * nb) ->
  let index := c / kBitsPerWord &&& u32 (vcbVBMIOSize s0 / kBytesPerWord - 1) in
  in_word s0 nb (Pos (block_of s0 (c / 32)) index (u32 (vcbVBMIOSize s0 / kBytesPerWord - index))) c.
Proof.
  intros Hc. cbv zeta. destruct (size_facts s0 nb Hg) as (k & Hk & Es & Ew & Hw & Es' & Hb31).
  change (vcbVBMIOSize s0 / kBytesPerWord) with (wpb s0). change kBitsPerWord with 32.
  assert (Ei : c / 32 &&& u32 (wpb s0 - 1) = index_of s0 (c / 32)).
  { rewrite wrap_small by (unfold in_range; lia). replace (wpb s0 - 1) with (Z.ones (k - 2)) by (rewrite Z.ones_equiv, Ew; lia).
    rewrite land_ones_mod by lia. unfold index_of. by rewrite Ew. }
  rewrite Ei. pose proof (index_bound s0 nb Hg (c / 32)). rewrite wrap_small by (unfold in_range; lia).
  split_and!; [left; done|cbn; lia|lia].
Qed.

Lemma find_contiguous useMetaZone start ending min max s Q :
  view s0 nb f [] false s -> 0 <= start <= ending -> ending <= 32 * (wpb s0 * nb) -> ending <= totalBlocks s0 ->
  ending <= allocLimit s0 -> 0 < min <= max ->
  (∀ first count s', start <= first -> avoids_zone s0 useMetaZone first -> min <= count <= max -> first + count <= ending ->
    all_are false f first (first + count) ->
    (∀ x, avoids_zone s0 useMetaZone x -> start <= x < first -> x + min <= ending -> ~ all_are false f x (x + min)) ->
    searched s0 nb f [] s' -> Q (0, first, count) s') ->
  (∀ s', (∀ x, avoids_zone s0 useMetaZone x -> start <= x -> x + min <= ending -> x + 1 < ending -> ~ all_are false f x (x + min)) ->
    searched s0 nb f [] s' -> Q (dskFulErr, 0, 0) s') ->
  (∀ err s', read_error bread err -> searched s0 nb f [] s' -> Q (err, 0, 0) s') ->
  runs (BlockFindContiguous bread start ending min max useMetaZone) Q s.
Proof.
  intros Hv Hs He Het Hel Hm H0 HD HE.
  assert (Hsame : ∀ h s', view s0 nb f h false s' -> searched s0 nb f h s').
  { intros h s' Hv'. exists s0. by split; [apply retuned_refl|]. }
  unfold BlockFindContiguous. runs_step. eapply outside_zone_spec; [apply (view_agree _ _ _ _ _ _ Hv)|done|done| |].
  2: { intros HN. runs_steps. apply HD; [|by apply Hsame]. intros x Hx Hsx _ Hxe. specialize (HN x Hx Hxe). lia. }
  intros start' Hs' Hav Hcase Hfst. assert (Hse : start' <= ending) by lia.
  rewrite (wrap_small 32 (ending - start')) by (unfold in_range; lia).
  destruct (Z.ltb_spec (ending - start') min) as [Hlt|Hge].
  { runs_steps. apply HD; [|by apply Hsame]. intros x Hx Hsx Hxe _. specialize (Hfst x Hx Hsx). lia. }
  runs_step. eapply (next_bitmap_block s0 useMetaZone); [apply (view_agree _ _ _ _ _ _ Hv)|done|].
  runs_step. eapply view_read; [done|done|lia|..].
  { intros err s1 Herr Hv1. runs_steps. apply HE; [done|by apply Hsame]. }
  intros s1 Hv1. runs_steps. rewrite (agree_size _ _ (view_agree _ _ _ _ _ _ Hv1)).
  pose proof (first_position start' ltac:(lia)) as Hp. cbv zeta in Hp. set (p := Pos _ _ _) in *.
  eapply (find_loop_spec bread f useMetaZone nb start' ending min max); [done|lia|lia|done|done|lia|done|lia|done|exact Hv1|by apply (in_word_stands s0)|done| | |].
  { intros x Hx. lia. }
  - intros err updated n v s2 Herr Hv2 Hc2. runs_steps. eapply lower_pointers_spec.
    { exists (with_cache n v s0). split; [apply retuned_cache|]. by split. }
    intros s3 Hv3. runs_steps. by apply HE.
  - intros first found updated ref n v s2 Hfr Hv2 Hc2. runs_steps.
    assert (Hrest : ∀ r s2, searched s0 nb f [ref] s2 -> (∀ s', searched s0 nb f [] s' -> Q r s') ->
      runs (lower_pointers updated;; _ ← (_ ← ReleaseBitmapBlock ref false; mret tt); mret r) Q s2).
    { clear s2 Hv2. intros r s2 Hv2 Hr. runs_step. eapply lower_pointers_spec; [done|]. intros s3 (s4 & Hr4 & Hv4 & Hc4).
      runs_steps. eapply view_release; [done|]. intros s5 Hv5. runs_steps. apply Hr. by exists s4. }
    assert (Hse2 : searched s0 nb f [ref] s2) by (exists (with_cache n v s0); split; [apply retuned_cache|by split]).
    destruct Hfr as [(F1 & F2 & F3 & F4 & F5)|(F1 & F2)].
    + rewrite (proj2 (Z.ltb_ge _ _)) by lia. runs_step. apply runs_assert.
      { rewrite wrap_small by (unfold in_range; lia). destruct (agree_cache _ _ (view_agree _ _ _ _ _ _ Hv2)) as (_ & _ & _ & _ & _ & _ & ->). cbn. lia. }
      runs_step. apply Hrest; [done|]. intros s' Hs2. apply H0; try done; try lia.
      * eapply avoids_zone_le; [done|lia].
      * intros x Hx Hxs Hxe. apply F5; [|done]. specialize (Hfst x Hx). lia.
    + rewrite (proj2 (Z.ltb_lt _ _)) by lia. runs_step. apply Hrest; [done|]. intros s' Hs2. apply HD; [|done].
      intros x Hx Hxs Hxe _. apply F2; [|done]. specialize (Hfst x Hx Hxs). lia.
Qed.
End contig.

(** ** What [BlockFindContiguous] promises *)

Lemma agree_of_cache_free f s1 s' : agree s1 s' -> cache_free f s1 -> cache_free f s'.
Proof.
  intros Ha [Hok Hf]. destruct (agree_cache _ _ Ha) as (Ec & Eok & _ & _ & _ & Et & _).
  split; [by apply Eok|]. by rewrite Ec, Et.
Qed.

Lemma searched_quiet nb s f s' : geometry s nb -> searched s nb f [] s' -> quiet nb s' /\ bitmap_is nb s' f /\ cache_free f s'.
Proof.
  intros Hg (s1 & [_ (n & v & a & b & ->)] & Hv & Hc).
  assert (Hg1 : geometry (set_sparseAllocation b (set_nextAllocation a (with_cache n v s))) nb) by (destruct Hg; by split).
  destruct (quiet_of_view _ nb _ _ _ Hg1 Hv) as (H1 & H2 & H3).
  split; [done|]. split; [done|]. by eapply agree_of_cache_free.
Qed.

Section promise.
Context (bread : hfsmount -> Z -> Z) (nb : Z) (s : hfsmount) (Hq : quiet nb s) (Hcf : cache_free (bit s) s).
Context (Hsmall : 32 * (wpb s * nb) < 2 ^ 32).
Context (Hz0 : 0 <= hfs_metazone_end s) (Hz : hfs_metazone_end s + 2 < 2 ^ 32).

(** C4 (equivalence): the word-by-word search for a run of free blocks finds what a search block by
    block finds: the first free run of [min] blocks in the range, outside of the metadata zone
    unless that may be used, of which it answers up to [max] blocks; it answers "disk full" exactly
    when there is none (but for a single last block right behind the zone), and fails otherwise
    only when a bitmap block cannot be read.  The bitmap is unchanged and its blocks released, and
    whatever shorter runs the search has put into the cache, all cached extents are free. *)
Theorem find_contiguous_first_fit start ending min max useMetaZone :
  0 <= start <= ending -> ending <= 32 * (wpb s * nb) -> ending <= totalBlocks s -> ending <= allocLimit s -> 0 < min <= max ->
  runs (BlockFindContiguous bread start ending min max useMetaZone) (λ r s',
    let '(err, first, count) := r in quiet nb s' /\ bitmap_is nb s' (bit s) /\ cache_free (bit s) s' /\
    ((err = 0 /\ start <= first /\ avoids_zone s useMetaZone first /\ min <= count <= max /\ first + count <= ending /\
        all_are false (bit s) first (first + count) /\
        ∀ x, avoids_zone s useMetaZone x -> start <= x < first -> x + min <= ending -> ~ all_are false (bit s) x (x + min)) \/
     (err = dskFulErr /\
        ∀ x, avoids_zone s useMetaZone x -> start <= x -> x + min <= ending -> x + 1 < ending -> ~ all_are false (bit s) x (x + min)) \/
     read_error bread err)) s.
Proof.
  intros H1 H2 H3 H4 H5. pose proof (quiet_geometry _ _ Hq) as Hg.
  eapply (find_contiguous s nb Hg bread (bit s)); try done; [by apply view_of_quiet|..].
  - intros first count s' B1 B2 B3 B4 B5 B6 (A1 & A2 & A3)%searched_quiet; [|done]. split_and!; try done. by left.
  - intros s' Hno (A1 & A2 & A3)%searched_quiet; [|done]. split_and!; try done. by right; left.
  - intros err s' He (A1 & A2 & A3)%searched_quiet; [|done]. split_and!; try done. by right; right.
Qed.
End promise.

Lemma sample_cache_free : cache_free (bit sample) sample.
Proof. split; [split; [done|vm_compute; lia]|constructor]. Defined.

(** From block 30 on, 12 to 14 blocks: 30 to 39 are too few and go into the cache, 44 to 57 are found. *)
Lemma find_contiguous_first_fit_witness : quiet 2 sample /\ cache_free (bit sample) sample /\
  match BlockFindContiguous (λ _ _, 0) 30 60 12 14 false sample with
  | Some (r, s') => r = (0, 44, 14) /\ cache s' = [Extent 30 10]
  | None => False
  end /\
  runs (BlockFindContiguous (λ _ _, 0) 30 60 12 14 false) (λ r s',
    let '(err, first, count) := r in quiet 2 s' /\ bitmap_is 2 s' (bit sample) /\ cache_free (bit sample) s' /\
    ((err = 0 /\ 30 <= first /\ avoids_zone sample false first /\ 12 <= count <= 14 /\ first + count <= 60 /\
        all_are false (bit sample) first (first + count) /\
        ∀ x, avoids_zone sample false x -> 30 <= x < first -> x + 12 <= 60 -> ~ all_are false (bit sample) x (x + 12)) \/
     (err = dskFulErr /\
        ∀ x, avoids_zone sample false x -> 30 <= x -> x + 12 <= 60 -> x + 1 < 60 -> ~ all_are false (bit sample) x (x + 12)) \/
     read_error (λ _ _, 0) err)) sample.
Proof.
  split; [exact sample_quiet|]. split; [exact sample_cache_free|]. split; [by vm_compute|].
  apply (find_contiguous_first_fit (λ _ _, 0) 2 sample sample_quiet sample_cache_free); vm_compute; repeat split; congruence.
Defined.

End VolumeContig.
