(* ===== verification/VolumeAlloc.v ===== *)
(** Allocating and deallocating blocks: the attempts of [BlockAllocate] one by one, the count of
    free blocks, and what the bookkeeping leaves. *)

From S2P Require Import Prelude.
From S2P Require Import Volume.
From S2P Require Import VolumeSpec.
From S2P Require Import VolumeWalk.
From S2P Require Import VolumeRuns.
From S2P Require Import VolumeAny.
From S2P Require Import VolumeCache.
From S2P Require Import VolumeContig.
Import Volume.Volume VolumeSpec.VolumeSpec VolumeWalk.VolumeWalk VolumeRuns.VolumeRuns VolumeAny.VolumeAny
  VolumeCache.VolumeCache VolumeContig.VolumeContig.

Module VolumeAlloc.

(** ** The number of free blocks *)

Definition count_free (f : Z -> bool) (a n : Z) : Z := zlen (filter (λ b, f b = false) (seqZ a n)).

Lemma count_free_app f a m n : 0 <= m -> 0 <= n -> count_free f a (m + n) = count_free f a m + count_free f (a + m) n.
Proof. intros. unfold count_free. rewrite seqZ_app, filter_app, length_app by lia. lia. Qed.

Lemma filter_Forall_ext {A} (P1 P2 : A -> Prop) `{!∀ x, Decision (P1 x), !∀ x, Decision (P2 x)} l :
  Forall (λ x, P1 x <-> P2 x) l -> filter P1 l = filter P2 l.
Proof. induction 1 as [|x l Hx _ IH]; [done|]. rewrite !filter_cons, IH. by destruct (decide (P1 x)), (decide (P2 x)); [|tauto..|]. Qed.

Lemma count_free_ext f g a n : (∀ b, a <= b < a + n -> f b = g b) -> count_free f a n = count_free g a n.
Proof.
  intros H. unfold count_free. f_equal. f_equal. apply filter_Forall_ext, Forall_forall. intros b Hb%elem_of_seqZ.
  by rewrite H.
Qed.

Lemma count_free_all f a n : 0 <= n -> all_are false f a (a + n) -> count_free f a n = n.
Proof.
  intros Hn H. unfold count_free. rewrite filter_all; [rewrite length_seqZ; lia|].
  apply Forall_forall. intros b Hb%elem_of_seqZ. apply H. lia.
Qed.

Lemma count_free_none f a n : all_are true f a (a + n) -> count_free f a n = 0.
Proof.
  intros H. unfold count_free. rewrite filter_none; [done|]. apply Forall_forall. intros b Hb%elem_of_seqZ.
  rewrite H by lia. done.
Qed.

Lemma count_free_bounds f a n : 0 <= n -> 0 <= count_free f a n <= n.
Proof.
  intros Hn. unfold count_free. pose proof (length_filter (λ b, f b = false) (seqZ a n)) as H. rewrite length_seqZ in H. lia.
Qed.

(** A run that changes from the bit [v] to the other. *)
Lemma count_free_changed f total start n : 0 <= start -> 0 <= n -> start + n <= total ->
  (all_are false f start (start + n) -> count_free (changed (λ _, true) f start n) 0 total = count_free f 0 total - n) /\
  (all_are true f start (start + n) -> count_free (changed (λ _, false) f start n) 0 total = count_free f 0 total + n).
Proof.
  intros Hs Hn Ht. assert (E : ∀ g, count_free g 0 total =
    count_free g 0 start + count_free g start n + count_free g (start + n) (total - (start + n))).
  { intros g. replace total with (start + n + (total - (start + n))) at 1 by lia. rewrite !count_free_app by lia. done. }
  assert (Ho : ∀ v, count_free (changed (λ _, v) f start n) 0 start = count_free f 0 start /\
    count_free (changed (λ _, v) f start n) (start + n) (total - (start + n)) = count_free f (start + n) (total - (start + n))).
  { intros v. split; apply count_free_ext; intros b Hb; unfold changed;
      destruct (Z.leb_spec start b), (Z.ltb_spec b (start + n)); try done; lia. }
  assert (Hin : ∀ v, all_are v (changed (λ _, v) f start n) start (start + n)).
  { intros v b Hb. unfold changed. destruct (Z.leb_spec start b), (Z.ltb_spec b (start + n)); try done; lia. }
  split; intros Ha; rewrite !E.
  - destruct (Ho true) as [-> ->]. rewrite (count_free_none _ start n) by apply Hin. rewrite (count_free_all f start n) by done. lia.
  - destruct (Ho false) as [-> ->]. rewrite (count_free_all _ start n) by (done || apply Hin). rewrite (count_free_none f start n) by done. lia.
Qed.

(** ** The state between operations *)

(** What the allocator never changes. *)
Definition config (s : hfsmount) := (vcbSigWord s, vcbVBMIOSize s, vcbVBMSt s, blockSize s, totalBlocks s, allocLimit s,
  hfs_flags s, hfs_metazone_start s, hfs_metazone_end s, jnl s, loanedBlocks s).

Lemma quiet_same nb s s' : config s' = config s -> bitmap s' = bitmap s -> held s' = held s -> unsaved s' = unsaved s ->
  quiet nb s -> quiet nb s' /\ (∀ b, bit s' b = bit s b).
Proof.
  intros Ec Eb Eh Eu [Hg Hok Hh Hu]. injection Ec as E1 E2 E3 _ _ _ _ _ _ _ _.
  assert (Ew : wpb s' = wpb s) by (unfold wpb; by rewrite E2).
  assert (Ebl : ∀ q, block_of s' q = block_of s q) by (intros q; unfold block_of, base; by rewrite Ew, E1, E3).
  assert (Ei : ∀ q, index_of s' q = index_of s q) by (intros q; unfold index_of; by rewrite Ew).
  split; [split|].
  - destruct Hg as [Hs Hb]. split; [by rewrite E2|by rewrite Ew].
  - intros q Hq. rewrite Ebl, Ew, Eb in *. by apply Hok.
  - by rewrite Eh.
  - by rewrite Eu.
  - intros b. unfold bit, word_at. by rewrite Ebl, Ei, Eb.
Qed.

(** The count of free blocks is right, the cache has free extents, and no block is held or
    changed and not saved. *)
Record volume_ok (nb : Z) (s : hfsmount) : Prop := VolumeOk {
  vok_quiet : quiet nb s;
  vok_bitmap : 32 * (wpb s * nb) < 2 ^ 32;
  vok_sizes : 0 <= allocLimit s <= totalBlocks s /\ totalBlocks s <= 32 * (wpb s * nb);
  vok_zone : 0 <= hfs_metazone_end s /\ hfs_metazone_end s + 2 < 2 ^ 32;
  vok_loaned : 0 <= loanedBlocks s;
  vok_free : freeBlocks s = count_free (bit s) 0 (totalBlocks s);
  vok_cache : cache_free (bit s) s;
  vok_pointers : pointers_ok s }.

(** ** The attempts *)

(** What an attempt needs: the volume with the bitmap [f]. *)
Record setup (nb : Z) (f : Z -> bool) (s : hfsmount) : Prop := Setup {
  setup_geometry : geometry s nb;
  setup_bitmap : 32 * (wpb s * nb) < 2 ^ 32;
  setup_sizes : 0 <= allocLimit s <= totalBlocks s /\ totalBlocks s <= 32 * (wpb s * nb);
  setup_zone : 0 <= hfs_metazone_end s /\ hfs_metazone_end s + 2 < 2 ^ 32;
  setup_cache : cache_free f s }.

Lemma setup_retuned nb f s s1 : setup nb f s -> retuned s s1 -> cache_free f s1 -> setup nb f s1.
Proof.
  intros [[H1 H1'] H2 H3 H4 _] [_ (n & v & a & b & ->)] Hc. by repeat (split; try done).
Qed.

(** What an attempt to allocate [min] to [max] blocks leaves: a run of free blocks is marked, or
    the bitmap is as before. *)
Definition attempted (s0 : hfsmount) (nb : Z) (f : Z -> bool) (min max : Z) (r : Z * Z * Z) (s : hfsmount) : Prop :=
  ∃ s1, retuned s0 s1 /\ cache_free f s1 /\
    ((∃ first count, r = (0, first, count) /\ 0 <= first /\ min <= count <= max /\ first + count <= allocLimit s0 /\
        all_are false f first (first + count) /\ view s1 nb (changed (λ _, true) f first count) [] false s) \/
     ((r = (dskFulErr, 0, 0) \/ r = (EIO, 0, 0)) /\ view s1 nb f [] false s)).

Lemma attempted_from s0 s1 nb f min max r s : retuned s0 s1 -> attempted s1 nb f min max r s -> attempted s0 nb f min max r s.
Proof.
  intros Hr (s2 & Hr2 & Hc & H). exists s2. split; [by eapply retuned_trans|]. split; [done|].
  destruct Hr as [_ (? & ? & ? & ? & ->)]. exact H.
Qed.

Lemma all_good_are f a n : all_good negb f a n <-> all_are false f a (a + n).
Proof. split; intros H b Hb; specialize (H b Hb); [by apply negb_true_iff|by rewrite H]. Qed.

Section attempts.
Context (bread : hfsmount -> Z -> Z) (Hread : ∀ s b, bread s b = 0) (nb : Z) (f : Z -> bool).

Lemma no_read_error err : ~ read_error bread err.
Proof. intros [H (s & b & E)]. by rewrite Hread in E. Qed.

Lemma attempt_any s0 useMetaZone start ending max s : setup nb f s0 -> view s0 nb f [] false s ->
  0 <= start < 32 * (wpb s0 * nb) -> 0 <= ending <= allocLimit s0 -> 0 < max ->
  runs (BlockAllocateAny bread start ending max useMetaZone) (attempted s0 nb f 1 max) s.
Proof.
  intros [Hg Hb [Hl Ht] [Hz1 Hz2] Hc] Hv Hs He Hm.
  eapply (allocate_any s0 nb Hg); [done|done|lia|lia|lia|done|done|done|..].
  - intros first count s' (H1 & _ & _ & H2 & H3 & H4 & _) Hv'. exists s0. split; [apply retuned_refl|]. split; [done|left].
    exists first, count. split_and!; try done; try lia. by apply all_good_are.
  - intros s' Hv' _. exists s0. split; [apply retuned_refl|]. split; [done|right]. by split; [left|].
  - intros err first k s' []%no_read_error.
Qed.

Lemma attempt_mark s0 first count min max s : setup nb f s0 -> view s0 nb f [] false s -> 0 <= first ->
  0 < count -> min <= count <= max -> first + count <= allocLimit s0 -> all_are false f first (first + count) ->
  runs (err ← BlockMarkAllocated bread first count; mret (err, first, count)) (attempted s0 nb f min max) s.
Proof.
  intros [Hg Hb [Hl Ht] [Hz1 Hz2] Hc] Hv Hf Hcnt Hm Hle Ha. runs_step.
  eapply (mark_view s0 nb Hg bread f first count); [lia|done|..].
  - intros s' Hv'. runs_steps. exists s0. split; [apply retuned_refl|]. split; [done|left].
    exists first, count. by split_and!; try lia.
  - intros err k s' []%no_read_error.
Qed.

Lemma attempt_find s0 useMetaZone start ending min max s Q : setup nb f s0 -> view s0 nb f [] false s ->
  0 <= start <= ending -> ending <= allocLimit s0 -> 0 < min <= max ->
  (∀ s1 first count s', retuned s0 s1 -> setup nb f s1 -> view s1 nb f [] false s' -> 0 <= first -> min <= count <= max ->
    first + count <= allocLimit s1 -> all_are false f first (first + count) -> Q (0, first, count) s') ->
  (∀ s1 s', retuned s0 s1 -> setup nb f s1 -> view s1 nb f [] false s' -> Q (dskFulErr, 0, 0) s') ->
  runs (BlockFindContiguous bread start ending min max useMetaZone) Q s.
Proof.
  intros Hset Hv Hs He Hm H0 HD. pose proof Hset as [Hg Hb [Hl Ht] [Hz1 Hz2] Hc].
  assert (Hlim : ∀ s1, retuned s0 s1 -> allocLimit s1 = allocLimit s0) by (by intros s1 [_ (? & ? & ? & ? & ->)]).
  eapply (find_contiguous s0 nb Hg); try done; try lia.
  - intros first count s' H1 _ H2 H3 H4 _ (s1 & Hr & Hv1 & Hc1). eapply (H0 s1); try done; try lia.
    + by eapply setup_retuned.
    + rewrite (Hlim s1) by done. lia.
  - intros s' _ (s1 & Hr & Hv1 & Hc1). eapply (HD s1); try done. by eapply setup_retuned.
  - intros err s' []%no_read_error.
Qed.

Lemma attempt_contig s0 useMetaZone start min max s : setup nb f s0 -> view s0 nb f [] false s ->
  0 <= start <= allocLimit s0 -> 0 < min <= max ->
  runs (BlockAllocateContig bread start min max useMetaZone) (attempted s0 nb f min max) s.
Proof.
  intros Hset Hv Hs Hm. unfold BlockAllocateContig.
  assert (Hlim : ∀ s1, retuned s0 s1 -> allocLimit s1 = allocLimit s0) by (by intros s1 [_ (? & ? & ? & ? & ->)]).
  runs_step. apply runs_gets. assert (El : allocLimit s = allocLimit s0).
  { by destruct (agree_cache _ _ (view_agree _ _ _ _ _ _ Hv)) as (_ & _ & _ & _ & _ & _ & ?). }
  rewrite El. runs_step.
  assert (Hmark : ∀ s1 first count s', retuned s0 s1 -> setup nb f s1 -> view s1 nb f [] false s' -> 0 <= first -> min <= count <= max ->
    first + count <= allocLimit s1 -> all_are false f first (first + count) ->
    runs (err ← BlockMarkAllocated bread first count; mret (err, first, count)) (attempted s0 nb f min max) s').
  { intros s1 first count s' Hr Hs1 Hv1 H1 H2 H3 H4. eapply runs_weaken; [eapply (attempt_mark s1); try done; lia|].
    intros r s2. by apply attempted_from. }
  assert (Hfull : ∀ s1 s', retuned s0 s1 -> setup nb f s1 -> view s1 nb f [] false s' -> attempted s0 nb f min max (dskFulErr, 0, 0) s').
  { intros s1 s' Hr Hs1 Hv1. exists s1. split; [done|]. split; [apply (setup_cache _ _ _ Hs1)|right]. by split; [left|]. }
  eapply (attempt_find s0); [done|done|lia|lia|done|..].
  - intros s1 first count s' Hr Hs1 Hv1 H1 H2 H3 H4. cbn [fst snd]. runs_steps. cbn [Z.eqb dskFulErr andb]. runs_steps. by apply (Hmark s1).
  - intros s1 s' Hr Hs1 Hv1. cbn [fst snd]. destruct (Z.eqb_spec start 0) as [->|Hne]; cbn [Z.eqb dskFulErr Pos.eqb andb negb]; [runs_steps; by apply (Hfull s1)|].
    runs_step. rewrite <- (Hlim s1) in * by done. eapply (attempt_find s1); [done|done|lia|lia|done|..].
    + intros s2 first count s3 Hr2 Hs2 Hv2 H1 H2 H3 H4. runs_steps. apply (Hmark s2); try done. by eapply retuned_trans.
    + intros s2 s3 Hr2 Hs2 Hv2. runs_steps. apply (Hfull s2); try done. by eapply retuned_trans.
Qed.

(** The first cached extent. *)
Lemma cached_part sp new e rest total : 0 <= total < 2 ^ 32 -> cached_free f total e -> Forall (cached_free f total) rest ->
  0 <= blockCount new -> startBlock e <= startBlock new -> startBlock new + blockCount new = startBlock e + blockCount e ->
  Forall (cached_free f total) (reduced sp new rest).
Proof.
  intros Ht (H1 & H2 & H3 & H4) Hrest Hn Hs He. unfold reduced. destruct (Z.eqb_spec (blockCount new) 0); [done|].
  assert (Hnew : cached_free f total new).
  { unfold cached_free. split_and!; try lia. intros x Hx. apply H4. lia. }
  destruct sp; [by constructor|]. destruct (split_at_sunk new rest) as (big & small & -> & _ & _ & ->).
  apply Forall_app in Hrest as [? ?]. apply Forall_app. split; [done|by constructor].
Qed.

Lemma attempt_known s0 max s : setup nb f s0 -> view s0 nb f [] false s -> 0 < max ->
  runs (BlockAllocateKnown bread max) (attempted s0 nb f 1 max) s.
Proof.
  intros Hset Hv Hm. pose proof Hset as [Hg Hb [Hl Ht] [Hz1 Hz2] [Hok Hfree]].
  destruct (agree_cache _ _ (view_agree _ _ _ _ _ _ Hv)) as (Ec & Eok & Ecnt & Esp & _ & Et & El).
  unfold BlockAllocateKnown. runs_steps. rewrite Ecnt.
  destruct (Nat.eqb_spec (vcbFreeExtCnt s0) 0).
  { runs_step. exists s0. split; [apply retuned_refl|]. split; [done|right]. by split; [left|]. }
  destruct (cache s0) as [|e rest] eqn:Ecache.
  { exfalso. destruct (split_array s0 Hok) as (_ & _ & Elen & _). rewrite Ecache in Elen. cbn in Elen. lia. }
  assert (He : vcbFreeExt s !! 0%nat = Some e).
  { destruct (split_array s ltac:(by apply Eok)) as (tail & -> & _). by rewrite Ec. }
  runs_step. apply runs_ext with e; [done|]. apply Forall_cons_1 in Hfree as [Hef Hrest]. pose proof Hef as (H1 & H2 & H3 & H4).
  rewrite (proj2 (Z.eqb_neq _ _)) by lia.
  set (found := if max <? blockCount e then max else blockCount e).
  assert (Hfound : 0 < found <= max /\ found <= blockCount e) by (unfold found; destruct (Z.ltb_spec max (blockCount e)); lia).
  clearbody found. rewrite !wrap_small by (unfold in_range; lia). runs_step.
  set (new := Extent (startBlock e + found) (blockCount e - found)).
  apply (use_first_spec new e rest); [by apply Eok|done| |].
  { eapply Forall_impl; [done|]. by intros ? (? & _). }
  intros s1 (n1 & v & -> & Hc & Hok1). rewrite Esp in Hc.
  assert (Hv1 : view (with_cache n1 v s0) nb f [] false (with_cache n1 v s)) by by apply view_with_cache.
  destruct (agree_cache _ _ (view_agree _ _ _ _ _ _ Hv1)) as (Ec1 & Eok1 & _).
  assert (Hcf : cache_free f (with_cache n1 v s0)).
  { split; [by apply Eok1|]. rewrite <- Ec1, Hc. apply (cached_part _ new e); try done; cbn; lia. }
  assert (Hset1 : setup nb f (with_cache n1 v s0)) by (eapply setup_retuned; [done|apply retuned_cache|done]).
  runs_steps. cbn [allocLimit with_cache set_vcbFreeExt]. rewrite El.
  destruct (Z.ltb_spec (allocLimit s0) (startBlock e + found)).
  - runs_step. eapply view_emit; [done|]. intros s2 Hv2. runs_steps. exists (with_cache n1 v s0).
    split; [apply retuned_cache|]. split; [done|right]. by split; [right|].
  - eapply runs_weaken.
    { eapply (attempt_mark (with_cache n1 v s0) (startBlock e) found 1 max); try done; try lia. intros x Hx. apply H4. lia. }
    intros r s2 Ha. eapply attempted_from; [apply retuned_cache|done].
Qed.
End attempts.

(** ** The bookkeeping *)

(** [s'] has the bitmap and the configuration of [s], and pointers as good. *)
Record kept (s s' : hfsmount) : Prop := Kept {
  kept_config : config s' = config s;
  kept_bitmap : bitmap s' = bitmap s;
  kept_held : held s' = held s;
  kept_unsaved : unsaved s' = unsaved s;
  kept_pointers : pointers_ok s -> pointers_ok s' }.

#[global] Instance kept_preorder : PreOrder kept.
Proof.
  split; [by intros s|]. intros s1 s2 s3 [A1 A2 A3 A4 A5] [B1 B2 B3 B4 B5]. split; [congruence..|auto].
Qed.

(** Nor are the cache and the count of free blocks changed. *)
Definition eased (s s' : hfsmount) : Prop :=
  kept s s' /\ vcbFreeExtCnt s' = vcbFreeExtCnt s /\ vcbFreeExt s' = vcbFreeExt s /\ freeBlocks s' = freeBlocks s.

Lemma eased_trans s1 s2 s3 : eased s1 s2 -> eased s2 s3 -> eased s1 s3.
Proof. intros (A1 & A2 & A3 & A4) (B1 & B2 & B3 & B4). split; [by etrans|]. split_and!; congruence. Qed.
Lemma eased_refl s : eased s s.
Proof. split; [reflexivity|done]. Qed.

Lemma eased_pointers a b s : (pointers_ok s -> in_range 32 a /\ in_range 32 b) ->
  eased s (set_sparseAllocation b (set_nextAllocation a s)).
Proof. intros H. split; [|done]. split; try done. intros Hp. destruct (H Hp). destruct Hp as (_ & _ & ?). by split_and!. Qed.
Lemma eased_sparse b s : (pointers_ok s -> in_range 32 b) -> eased s (set_sparseAllocation b s).
Proof. intros H. split; [|done]. split; try done. intros Hp. specialize (H Hp). destruct Hp as (? & _ & ?). by split_and!. Qed.
Lemma eased_next a s : (pointers_ok s -> in_range 32 a) -> eased s (set_nextAllocation a s).
Proof. intros H. split; [|done]. split; try done. intros Hp. specialize (H Hp). destruct Hp as (_ & ? & ?). by split_and!. Qed.
Lemma eased_freed n s : eased s (set_hfs_freed_block_count n s).
Proof. split; [|done]. by split. Qed.
Lemma eased_calls c s : eased s (set_calls c s).
Proof. split; [|done]. by split. Qed.

Lemma runs_update_next n s Q : in_range 32 n -> (∀ s', eased s s' -> Q tt s') -> runs (HFS_UPDATE_NEXT_ALLOCATION n) Q s.
Proof.
  intros Hn HQ. unfold HFS_UPDATE_NEXT_ALLOCATION. runs_step. destruct (truth _); apply HQ; [apply eased_refl|by apply eased_next].
Qed.

(** The bitmap and the pointers of [s], another cache, and [n] free blocks. *)
Definition accounted (l : list HFSPlusExtentDescriptor) (n : Z) (s s' : hfsmount) : Prop :=
  kept s s' /\ cache_ok s' /\ cache s' = l /\ freeBlocks s' = n.

Lemma eased_cache s s' : eased s s' -> cache_ok s -> cache_ok s' /\ cache s' = cache s /\ freeBlocks s' = freeBlocks s.
Proof. intros (_ & E1 & E2 & E3) [Hl Hn]. unfold cache_ok, cache. by rewrite E1, E2. Qed.

Lemma kept_cache n v s : kept s (with_cache n v s).
Proof. by split. Qed.

Lemma account_spec updateAllocPtr first count s Q : cache_ok s -> in_range 32 first ->
  (∀ s', accounted (filter (clear_of first count) (cache s)) (u32 (freeBlocks s - count)) s s' -> Q tt s') ->
  runs (account_allocation updateAllocPtr first count) Q s.
Proof.
  intros Hok Hf HQ. unfold account_allocation. runs_step. runs_step.
  match goal with |- runs _ _ ?x => set (s1 := x) end.
  assert (H1 : eased s s1) by (unfold s1; destruct (_ && _); [by apply eased_sparse|apply eased_refl]). clearbody s1.
  runs_step. runs_step.
  match goal with |- runs _ _ ?x => set (s2 := x) end.
  assert (H2 : eased s s2) by (eapply eased_trans; [done|apply eased_freed]). clearbody s2. clear H1 s1.
  runs_step. runs_step. runs_step. cbn [id].
  assert (Hrest : ∀ s3, eased s s3 ->
    runs (forget_extents (S (vcbFreeExtCnt s2)) 0 first count;;
      modify (λ s, set_freeBlocks (u32 (freeBlocks s - count)) s);; emit VolumeNotifications) Q s3).
  { intros s3 H3. destruct (eased_cache _ _ H3 Hok) as (Hok3 & Ec3 & Ef3). runs_step.
    replace (vcbFreeExtCnt s2) with (vcbFreeExtCnt s3) by (destruct H2 as (_ & -> & _), H3 as (_ & -> & _); done).
    apply forget_extents_spec; [done|]. intros s4 (n & v & -> & Hc4 & Hok4). runs_steps. unfold emit. runs_steps. apply HQ.
    split; [|split_and!; [done|cbn; by rewrite <- Ec3|cbn; by rewrite Ef3]]. etrans; [apply H3|]. by split. }
  destruct (_ && _); [|runs_step; by apply Hrest]. eapply runs_update_next; [done|]. intros s3 H3. apply Hrest. by eapply eased_trans.
Qed.

(** ** Overlaps *)

Lemma clear_of_spec f total first count e : total < 2 ^ 32 -> 0 <= first -> 0 < count -> first + count <= total -> cached_free f total e ->
  clear_of first count e -> startBlock e + blockCount e <= first \/ first + count <= startBlock e.
Proof.
  intros Ht Hf Hc Hle (H1 & H2 & H3 & _). unfold clear_of, overlaps_extent.
  rewrite !wrap_small by (unfold in_range; lia). lia.
Qed.

(** Extents that are clear of a run stay free when it is marked. *)
Lemma cache_after_mark f total first count l : total < 2 ^ 32 -> 0 <= first -> 0 < count -> first + count <= total ->
  Forall (cached_free f total) l ->
  Forall (cached_free (changed (λ _, true) f first count) total) (filter (clear_of first count) l).
Proof.
  intros Ht Hf Hc Hle Hl. apply Forall_forall. intros e [Hcl He]%list_elem_of_filter. rewrite Forall_forall in Hl.
  pose proof (Hl e He) as Hef. pose proof (clear_of_spec _ _ _ _ _ Ht Hf Hc Hle Hef Hcl).
  destruct Hef as (H1 & H2 & H3 & H4). split_and!; try done. intros x Hx. unfold changed.
  destruct (Z.leb_spec first x), (Z.ltb_spec x (first + count)); cbn; try (apply H4; lia); lia.
Qed.

(** Free extents stay free when more is freed. *)
Lemma cache_after_free f total first count l : Forall (cached_free f total) l ->
  Forall (cached_free (changed (λ _, false) f first count) total) l.
Proof.
  intros Hl. eapply Forall_impl; [done|]. intros e (H1 & H2 & H3 & H4). split_and!; try done. intros x Hx. unfold changed.
  destruct (_ && _); [done|by apply H4].
Qed.

Lemma cache_free_ext f g s : (∀ b, 0 <= b < totalBlocks s -> f b = g b) -> cache_free f s -> cache_free g s.
Proof.
  intros E [Hok Hl]. split; [done|]. eapply Forall_impl; [done|]. intros e (H1 & H2 & H3 & H4). split_and!; try done.
  intros x Hx. rewrite <- E by lia. by apply H4.
Qed.

(** ** From one consistent volume to the next *)

Lemma config_fields s s' : config s' = config s -> wpb s' = wpb s /\ totalBlocks s' = totalBlocks s /\ allocLimit s' = allocLimit s /\
  hfs_metazone_end s' = hfs_metazone_end s /\ loanedBlocks s' = loanedBlocks s.
Proof. intros [= E1 E2 E3 _ E4 E5 _ _ E6 _ E7]. unfold wpb. by rewrite E2. Qed.

Lemma config_retuned s s1 s2 : retuned s s1 -> agree s1 s2 -> config s2 = config s /\ freeBlocks s2 = freeBlocks s /\
  (pointers_ok s -> pointers_ok s2) /\ vcbFreeExtCnt s2 = vcbFreeExtCnt s1 /\ vcbFreeExt s2 = vcbFreeExt s1.
Proof. intros [Hp (n & v & a & b & ->)] (m & h & u & c & ->). split_and!; try done. Qed.

Lemma volume_ok_intro nb s s2 s' g : volume_ok nb s -> config s2 = config s -> quiet nb s2 -> bitmap_is nb s2 g ->
  kept s2 s' -> pointers_ok s2 -> cache_free g s' -> freeBlocks s' = count_free g 0 (totalBlocks s) ->
  volume_ok nb s' /\ bitmap_is nb s' g /\ config s' = config s.
Proof.
  intros [Hq Hb Hsz Hz Hln Hfr Hca Hpt] Ec2 Hq2 Hg2 [Ec Eb Eh Eu Hpp] Hp2 Hcf Hfree.
  destruct (quiet_same nb s2 s' Ec Eb Eh Eu Hq2) as [Hq' Hbits]. assert (Ecs : config s' = config s) by congruence.
  destruct (config_fields _ _ Ecs) as (Ew & Et & El & Em & Elo).
  assert (Hg' : bitmap_is nb s' g).
  { intros b Hb'. rewrite Hbits. apply Hg2. destruct (config_fields _ _ Ec2) as (Ew2 & _). by rewrite Ew2, <- Ew. }
  assert (Hgt : ∀ b, 0 <= b < totalBlocks s -> g b = bit s' b) by (intros b Hb'; symmetry; apply Hg'; rewrite Ew; lia).
  split; [|done]. split; try (rewrite ?Ew, ?Et, ?El, ?Em, ?Elo; done).
  - rewrite Hfree, Et. apply count_free_ext. intros b Hb'. by apply Hgt.
  - eapply cache_free_ext; [|done]. intros b Hb'. apply Hgt. by rewrite <- Et.
  - by apply Hpp.
Qed.

Lemma volume_setup nb s : volume_ok nb s -> setup nb (bit s) s.
Proof. intros [Hq Hb Hsz Hz Hln Hfr Hca Hpt]. split; try done. apply Hq. Qed.

(** What [BlockAllocate] promises: the run it answers was free and is marked, or nothing changes
    but the cache and the pointers. *)
Definition allocated (nb : Z) (s : hfsmount) (min max : Z) (r : Z * Z * Z) (s' : hfsmount) : Prop :=
  let '(err, first, count) := r in
  volume_ok nb s' /\ config s' = config s /\
  ((err = 0 /\ 0 <= first /\ min <= count <= max /\ first + count <= allocLimit s /\
    all_are false (bit s) first (first + count) /\ bitmap_is nb s' (changed (λ _, true) (bit s) first count) /\
    freeBlocks s' = freeBlocks s - count) \/
   ((err = dskFulErr \/ err = EIO) /\ first = 0 /\ count = 0 /\ bitmap_is nb s' (bit s) /\ freeBlocks s' = freeBlocks s)).

(** An attempt, and the bookkeeping when it allocated. *)
Lemma allocated_after nb s min max updateAllocPtr r s2 : volume_ok nb s -> 0 < min ->
  attempted s nb (bit s) min max r s2 ->
  runs ((if negb (r.2 =? 0) then account_allocation updateAllocPtr r.1.2 r.2 else mret tt);; mret r) (allocated nb s min max) s2.
Proof.
  intros Hvok Hmin (s1 & Hr & Hcf & Hcase). pose proof Hvok as [Hq Hb [Hl Ht] Hz Hln Hfr Hca Hpt].
  assert (Hg1 : geometry s1 nb) by apply (setup_geometry _ _ _ (setup_retuned _ _ _ _ (volume_setup _ _ Hvok) Hr Hcf)).
  destruct Hcase as [(first & count & -> & H0 & Hc & Hle & Ha & Hv)|[Hr' Hv]]; cbn [fst snd].
  - destruct (quiet_of_view _ _ _ _ _ Hg1 Hv) as (Hq2 & Hag & Hbits).
    destruct (config_retuned _ _ _ Hr Hag) as (Ec2 & Ef2 & Hp2 & En2 & Ev2).
    rewrite (proj2 (Z.eqb_neq count 0)) by lia. cbn [negb]. runs_step.
    assert (Hok2 : cache_ok s2) by (unfold cache_ok; rewrite En2, Ev2; apply Hcf).
    assert (Ecache : cache s2 = cache s1) by (unfold cache; by rewrite En2, Ev2).
    destruct (config_fields _ _ Ec2) as (Ew2 & Et2 & _). destruct (config_fields s s1) as (_ & Et1 & _).
    { by destruct Hr as [_ (? & ? & ? & ? & ->)]. }
    apply account_spec; [done|unfold in_range; lia|]. intros s3 (Hk & Hok3 & Hc3 & Hf3). runs_step.
    assert (Hfree : freeBlocks s3 = freeBlocks s - count /\ freeBlocks s - count = count_free (changed (λ _, true) (bit s) first count) 0 (totalBlocks s)).
    { destruct (count_free_changed (bit s) (totalBlocks s) first count) as [Hn _]; [lia..|]. rewrite Hn, Hf3, Ef2, Hfr by done.
      split; [|done]. pose proof (count_free_bounds (changed (λ _, true) (bit s) first count) 0 (totalBlocks s) ltac:(lia)) as B.
      rewrite Hn in B by done.
      apply wrap_small. pose proof (count_free_bounds (bit s) 0 (totalBlocks s) ltac:(lia)). unfold in_range. lia. }
    destruct Hfree as [Hfree1 Hfree2].
    destruct (volume_ok_intro nb s s2 s3 (changed (λ _, true) (bit s) first count)) as (Hv3 & Hb3 & Ec3); try done.
    + by apply Hp2.
    + split; [done|]. rewrite Hc3, Ecache. destruct (config_fields _ _ (kept_config _ _ Hk)) as (_ & Et3 & _).
      rewrite Et3, Et2. apply cache_after_mark; try lia. rewrite <- Et1. apply Hcf.
    + by rewrite Hfree1.
    + split; [done|]. split; [done|]. left. by split_and!; try lia.
  - assert (E : r.2 = 0 /\ r.1.2 = 0 /\ (r.1.1 = dskFulErr \/ r.1.1 = EIO)) by (destruct Hr' as [-> | ->]; cbn; tauto).
    destruct r as [[err first] count]. cbn [fst snd] in *. destruct E as (-> & -> & Herr). cbn [Z.eqb negb]. runs_steps.
    destruct (quiet_of_view _ _ _ _ _ Hg1 Hv) as (Hq2 & Hag & Hbits).
    destruct (config_retuned _ _ _ Hr Hag) as (Ec2 & Ef2 & Hp2 & En2 & Ev2).
    destruct (volume_ok_intro nb s s2 s2 (bit s)) as (Hv3 & Hb3 & Ec3); try done.
    + by apply Hp2.
    + destruct Hcf as [Hok1 Hf1]. destruct (config_fields s s1) as (_ & Et1 & _); [by destruct Hr as [_ (? & ? & ? & ? & ->)]|].
      destruct (config_fields _ _ Ec2) as (_ & Et2 & _).
      unfold cache_free, cache_ok, cache. rewrite En2, Ev2, Et2, <- Et1. by split.
    + by rewrite Ef2.
    + split; [done|]. split; [done|]. right. by split_and!.
Qed.

End VolumeAlloc.
