(* ===== verification/VolumeMain.v ===== *)
(** The allocator of a volume as a whole: allocating and deallocating keep the bitmap, the count
    of free blocks and the cache of free extents together, and undo each other. *)

From S2P Require Import Prelude.
From S2P Require Import Volume.
From S2P Require Import VolumeSpec.
From S2P Require Import VolumeWalk.
From S2P Require Import VolumeRuns.
From S2P Require Import VolumeAny.
From S2P Require Import VolumeCache.
From S2P Require Import VolumeContig.
From S2P Require Import VolumeAlloc.
Import Volume.Volume VolumeSpec.VolumeSpec VolumeWalk.VolumeWalk VolumeRuns.VolumeRuns VolumeAny.VolumeAny
  VolumeCache.VolumeCache VolumeContig.VolumeContig VolumeAlloc.VolumeAlloc.

Module VolumeMain.

Lemma attempted_mono s0 nb f min max min' max' r s : min' <= min -> max <= max' ->
  attempted s0 nb f min max r s -> attempted s0 nb f min' max' r s.
Proof.
  intros Hmin Hmax (s1 & Hr & Hc & [(first & count & H)|H]); exists s1; split_and!; try done; [left|by right].
  exists first, count. split_and!; try apply H; lia.
Qed.

Lemma attempted_none s0 nb f min max s : cache_free f s0 -> view s0 nb f [] false s -> attempted s0 nb f min max (dskFulErr, 0, 0) s.
Proof. intros Hc Hv. exists s0. split; [apply retuned_refl|]. split; [done|right]. by split; [left|]. Qed.

(** Another attempt when the volume was found full. *)
Lemma attempt_again s0 nb f min max r s (m : K (Z * Z * Z)) : setup nb f s0 -> attempted s0 nb f min max r s ->
  (∀ s1, retuned s0 s1 -> setup nb f s1 -> view s1 nb f [] false s -> runs m (attempted s1 nb f min max) s) ->
  runs (if r.1.1 =? dskFulErr then m else mret r) (attempted s0 nb f min max) s.
Proof.
  intros Hset Ha Hm. destruct (Z.eqb_spec r.1.1 dskFulErr) as [E|_]; [|by runs_step].
  destruct Ha as (s1 & Hr & Hc & [(first & count & -> & _)|[_ Hv]]); [done|].
  eapply runs_weaken; [apply (Hm s1); [done|by eapply setup_retuned|done]|].
  intros r' s'. by apply attempted_from.
Qed.

Lemma retuned_sizes s s1 : retuned s s1 -> wpb s1 = wpb s /\ allocLimit s1 = allocLimit s.
Proof. by intros [_ (? & ? & ? & ? & ->)]. Qed.

Section allocate.
Context (bread : hfsmount -> Z -> Z) (backing : hfsmount -> option Z).
Context (Hread : ∀ s b, bread s b = 0) (Hback : ∀ s v, backing s = Some v -> 0 <= v).

Lemma freeblks_spec nb s Q : volume_ok nb s -> (∀ free, 0 <= free <= freeBlocks s -> Q free s) -> runs (hfs_freeblks backing) Q s.
Proof.
  intros [Hq Hb [Hl Ht] Hz Hln Hfr Hca Hpt] HQ. unfold hfs_freeblks. runs_steps. cbn [id]. apply HQ.
  pose proof (count_free_bounds (bit s) 0 (totalBlocks s) ltac:(lia)). rewrite <- Hfr in *.
  destruct (Z.ltb_spec (loanedBlocks s) (freeBlocks s)), (truth _); try lia;
    destruct (backing s) as [v|] eqn:E; try lia; pose proof (Hback _ _ E); lia.
Qed.

Lemma allocate_spec nb s startingBlock minBlocks maxBlocks forceContiguous useMetaZone :
  volume_ok nb s -> in_range 32 startingBlock -> 0 < minBlocks <= maxBlocks ->
  runs (BlockAllocate bread backing startingBlock minBlocks maxBlocks forceContiguous useMetaZone)
    (allocated nb s (if (forceContiguous : bool) then minBlocks else 1) maxBlocks) s.
Proof.
  intros Hvok Hsb Hm. pose proof (volume_setup _ _ Hvok) as Hset. pose proof (view_of_quiet _ _ (vok_quiet _ _ Hvok)) as Hv.
  pose proof (setup_cache _ _ _ Hset) as Hcf. unfold BlockAllocate. set (low := if forceContiguous then minBlocks else 1).
  assert (Hlow : 0 < low) by (unfold low; destruct forceContiguous; lia).
  runs_step. eapply freeblks_spec; [done|]. intros free Hfree.
  assert (Hend : ∀ (m : K (Z * Z * Z * bool)), runs m (λ ru s', attempted s nb (bit s) low maxBlocks ru.1 s') s ->
    runs ('((err, first, count), updateAllocPtr) ← m;
          (if negb (count =? 0) then account_allocation updateAllocPtr first count else mret tt);; mret (err, first, count))
      (allocated nb s low maxBlocks) s).
  { intros m H. runs_step. eapply runs_weaken; [done|]. intros [[[err first] count] up] s2 Ha.
    by apply (allocated_after nb s low maxBlocks up (err, first, count)). }
  apply Hend. clear Hend. destruct (_ || _) eqn:Efull; [runs_step; by apply attempted_none|].
  apply orb_false_iff in Efull as [Hf0%Z.eqb_neq Hforce].
  pose proof (vok_free _ _ Hvok) as Efree. pose proof (vok_sizes _ _ Hvok) as [Hl Ht]. pose proof (vok_pointers _ _ Hvok) as (Hp1 & Hp2 & _).
  pose proof (count_free_bounds (bit s) 0 (totalBlocks s) ltac:(lia)) as Hcb.
  runs_step. runs_step. cbn [id].
  set (hint := if startingBlock =? 0 then _ else startingBlock).
  assert (Hh : 0 <= hint).
  { unfold hint. unfold in_range in *. destruct (_ =? 0); [|lia]. destruct (truth _); lia. }
  clearbody hint. set (start := if allocLimit s <=? hint then 0 else hint).
  assert (Hs : 0 <= start <= allocLimit s /\ (start < allocLimit s \/ start = 0)).
  { unfold start. destruct (Z.leb_spec (allocLimit s) hint); lia. }
  clearbody start. destruct Hs as [Hs Hs'].
  destruct forceContiguous; cbn [andb] in *.
  - apply Z.ltb_ge in Hforce. runs_step. eapply runs_weaken.
    { apply (attempt_contig bread Hread nb (bit s) s useMetaZone start (Z.min minBlocks free) (Z.min maxBlocks free)); [done|done|lia|lia]. }
    intros r s2 Ha. runs_step. cbn [fst]. eapply attempted_mono; [| |done]; unfold low; lia.
  - assert (HW : 1 < 32 * (wpb s * nb)) by lia.
    assert (Hmax : 0 < Z.min maxBlocks free) by lia.
    runs_step. eapply runs_weaken; [by apply (attempt_known bread Hread nb (bit s) s)|]. intros r s2 Ha. runs_step.
    eapply runs_weaken; [apply attempt_again; [done|exact Ha|]|].
    { intros s1 Hr Hs1 Hv1. apply (attempt_any bread Hread); [done|done|..]; destruct (retuned_sizes _ _ Hr) as [Ew El]; rewrite ?Ew, ?El; lia. }
    intros r2 s3 Ha2. runs_step. eapply runs_weaken; [apply attempt_again; [done|exact Ha2|]|].
    { intros s1 Hr Hs1 Hv1. apply (attempt_any bread Hread); [done|done|..]; destruct (retuned_sizes _ _ Hr) as [Ew El]; rewrite ?Ew, ?El; lia. }
    intros r3 s4 Ha3. runs_step. cbn [fst]. eapply attempted_mono; [| |done]; unfold low; lia.
Qed.
End allocate.

(** ** Deallocating *)

(** A freed run goes into the cache, and the pointers are adjusted. *)
Lemma kept_low update l s s' : Forall (λ e, 0 <= startBlock e) (cache s) -> cache_becomes_low update l s s' ->
  kept s s' /\ cache s' = l /\ cache_ok s' /\ freeBlocks s' = freeBlocks s.
Proof.
  intros Hs (v & Hv & n & w & -> & Hc & Hok). split_and!; try done. split; try done. intros (H1 & H2 & H3).
  assert (Hin : in_range 32 v); [|by split_and!].
  destruct Hv as [->|(_ & Hlt & (e & -> & He)%list_elem_of_fmap)]; [done|].
  rewrite Forall_forall in Hs. specialize (Hs e He). cbn in Hs. unfold in_range in *. lia.
Qed.

Section deallocate.
Context (bread : hfsmount -> Z -> Z).

(** What is done after a run was freed in the bitmap. *)
Lemma after_free_spec (nb : Z) g s1 first n Q :
  cache_free g s1 -> cached_free g (totalBlocks s1) (Extent first n) -> in_range 32 first -> 0 < n < 2 ^ 32 -> first + n < 2 ^ 32 ->
  0 <= freeBlocks s1 + n < 2 ^ 32 ->
  (∀ s', kept s1 s' -> cache_free g s' -> freeBlocks s' = freeBlocks s1 + n -> Q 0 s') ->
  runs (modify (λ s, set_freeBlocks (u32 (freeBlocks s + n)) s);;
        modify (λ s, set_hfs_freed_block_count (u32 (hfs_freed_block_count s + n)) s);;
        modify (λ s, if first <? sparseAllocation s then set_sparseAllocation first s else s);;
        s ← gets id;
        (if nextAllocation s =? u32 (first + n) then HFS_UPDATE_NEXT_ALLOCATION (u32 (nextAllocation s - n)) else mret tt);;
        _ ← add_extent true (Extent first n);
        emit VolumeNotifications;;
        mret 0) Q s1.
Proof.
  intros [Hok Hcf] Hnew Hf Hn Hfn Hfree HQ. do 2 runs_step.
  set (s2 := set_freeBlocks _ s1). assert (Hk2 : kept s1 s2) by by split.
  assert (Hok2 : cache_ok s2) by done. assert (Ec2 : cache s2 = cache s1) by done.
  assert (Ef2 : freeBlocks s2 = freeBlocks s1 + n) by (cbn; apply wrap_small; done). clearbody s2.
  do 4 runs_step. match goal with |- runs _ _ ?x => set (s3 := x) end.
  assert (H3 : eased s2 s3).
  { eapply eased_trans; [apply eased_freed|]. unfold s3. destruct (Z.ltb_spec first (sparseAllocation (set_hfs_freed_block_count (u32 (hfs_freed_block_count s2 + n)) s2)));
      [by apply eased_sparse|apply eased_refl]. }
  clearbody s3. do 3 runs_step. cbn [id].
  assert (Hrest : ∀ s4, eased s2 s4 -> runs (_ ← add_extent true (Extent first n); emit VolumeNotifications;; mret 0) Q s4).
  { intros s4 H4. destruct (eased_cache _ _ H4 Hok2) as (Hok4 & Ec4 & Ef4). runs_step.
    apply add_extent_spec; [done|]. intros added s5 H5.
    destruct (kept_low _ _ _ _ ltac:(rewrite Ec4, Ec2; eapply Forall_impl; [exact Hcf|]; by intros ? (_ & ? & _)) H5) as (Hk5 & Hc5 & Hok5 & Ef5).
    assert (Hk : kept s1 s5) by (etrans; [done|]; etrans; [apply H4|done]).
    runs_step. unfold emit. runs_steps. apply HQ; [etrans; [done|by split]| |cbn; congruence].
    split; [done|]. change (cache (set_calls _ s5)) with (cache s5). change (totalBlocks (set_calls _ s5)) with (totalBlocks s5).
    destruct (config_fields _ _ (kept_config _ _ Hk)) as (_ & -> & _). rewrite Hc5, Ec4, Ec2. by apply placed_Forall. }
  destruct (Z.eqb_spec (nextAllocation s3) (u32 (first + n))) as [E|_]; [|runs_step; by apply Hrest].
  apply runs_update_next; [by apply wrap_range|]. intros s4 H4. apply Hrest. by eapply eased_trans.
Qed.

Lemma deallocate_spec nb s first n Q : volume_ok nb s -> 0 <= first -> 0 <= n -> first + n <= totalBlocks s ->
  (∀ s', all_are true (bit s) first (first + n) -> volume_ok nb s' -> config s' = config s ->
    bitmap_is nb s' (changed (λ _, false) (bit s) first n) -> freeBlocks s' = freeBlocks s + n -> Q 0 s') ->
  (∀ k s', ~ all_are true (bit s) first (first + n) -> 0 <= k <= n -> all_are true (bit s) first (first + k) ->
    quiet nb s' -> bitmap_is nb s' (changed (λ _, false) (bit s) first k) -> freeBlocks s' = freeBlocks s -> Q EIO s') ->
  (∀ err k s', read_error bread err -> 0 <= k <= n -> all_are true (bit s) first (first + k) -> quiet nb s' ->
    bitmap_is nb s' (changed (λ _, false) (bit s) first k) -> freeBlocks s' = freeBlocks s -> Q err s') ->
  runs (BlockDeallocate bread first n) Q s.
Proof.
  intros Hvok Hf Hn Hle H0 HF HE. pose proof Hvok as [Hq Hb [Hl Ht] Hz Hln Hfr Hca Hpt]. pose proof (quiet_geometry _ _ Hq) as Hg.
  assert (Hgood : ∀ a k, all_good id (bit s) a k <-> all_are true (bit s) a (a + k)) by done.
  assert (Hsame : ∀ g s', view s nb g [] false s' -> quiet nb s' /\ bitmap_is nb s' g /\ freeBlocks s' = freeBlocks s).
  { intros g s' Hv'. destruct (quiet_of_view _ _ _ _ _ Hg Hv') as (H1 & Hag & H2).
    destruct (config_retuned _ _ _ (retuned_refl s) Hag) as (_ & H3 & _). done. }
  unfold BlockDeallocate. destruct (Z.eqb_spec n 0) as [->|Hne].
  { runs_step. apply H0; [intros x Hx; lia|done|done| |lia]. intros b Hb'. by rewrite changed_0. }
  runs_step. eapply (free_view s nb Hg bread (bit s) first n); [lia|by apply view_of_quiet|done|..].
  - intros s1 Ha Hv1. cbn [Z.eqb negb]. destruct (quiet_of_view _ _ _ _ _ Hg Hv1) as (Hq1 & Hag & Hbits).
    destruct (config_retuned _ _ _ (retuned_refl s) Hag) as (Ec1 & Ef1 & Hp1 & En1 & Ev1).
    destruct (config_fields _ _ Ec1) as (Ew1 & Et1 & _).
    destruct (count_free_changed (bit s) (totalBlocks s) first n) as [_ Hcnt]; [lia..|]. specialize (Hcnt Ha).
    pose proof (count_free_bounds (changed (λ _, false) (bit s) first n) 0 (totalBlocks s) ltac:(lia)) as Hcb.
    apply (after_free_spec nb (changed (λ _, false) (bit s) first n)).
    + unfold cache_free, cache_ok, cache. rewrite En1, Ev1, Et1. split; [apply Hca|]. apply cache_after_free, Hca.
    + rewrite Et1. split_and!; cbn; try lia. intros x Hx. unfold changed.
      destruct (Z.leb_spec first x), (Z.ltb_spec x (first + n)); try done; lia.
    + unfold in_range. lia.
    + lia.
    + lia.
    + lia.
    + intros s2 Hk Hc2 Hf2.
      destruct (volume_ok_intro nb s s1 s2 (changed (λ _, false) (bit s) first n)) as (Hv2 & Hb2 & Ec2); try done; [by apply Hp1|lia|].
      apply H0; try done. lia.
  - intros k s1 Hbad Hk Ha Hv1. destruct (Hsame _ _ Hv1) as (H1 & H2 & H3). cbn [EIO Z.eqb negb]. runs_step. by apply (HF k).
  - intros err k s1 Herr Hk Ha Hv1. destruct (Hsame _ _ Hv1) as (H1 & H2 & H3).
    rewrite (proj2 (Z.eqb_neq err 0)) by apply Herr. cbn [negb]. runs_step. by apply (HE err k).
Qed.
End deallocate.

(** ** What the allocator promises *)

Section promises.
Context (bread : hfsmount -> Z -> Z) (backing : hfsmount -> option Z).
Context (Hread : ∀ s b, bread s b = 0) (Hback : ∀ s v, backing s = Some v -> 0 <= v).
Context (nb : Z) (s : hfsmount) (Hvok : volume_ok nb s).

(** The volume that an operation leaves: as consistent, with the bitmap [g] and [n] free blocks. *)
Definition volume_becomes (g : Z -> bool) (n : Z) (s' : hfsmount) : Prop :=
  volume_ok nb s' /\ config s' = config s /\ bitmap_is nb s' g /\ freeBlocks s' = n.

(** C1 (invariant): when the bitmap can be read, every allocation, contiguous or not, with or
    without a preferred start, from the cache of free extents or by a search, keeps the volume
    consistent (the count of free blocks is the number of clear bits, every cached extent is free,
    no bitmap block is held or has changes not saved).  Either it succeeds with a run of blocks
    that were all free, lies below the limit and is as long as asked, marks exactly these and
    counts them; or it answers "disk full" (or EIO, for a cached extent behind the limit), and no
    block and no count has changed. *)
Theorem BlockAllocate_keeps_volume startingBlock minBlocks maxBlocks forceContiguous useMetaZone :
  in_range 32 startingBlock -> 0 < minBlocks <= maxBlocks ->
  runs (BlockAllocate bread backing startingBlock minBlocks maxBlocks forceContiguous useMetaZone) (λ r s',
    let '(err, first, count) := r in
    (err = 0 /\ 0 <= first /\ (if (forceContiguous : bool) then minBlocks else 1) <= count <= maxBlocks /\
       first + count <= allocLimit s /\ all_are false (bit s) first (first + count) /\
       volume_becomes (changed (λ _, true) (bit s) first count) (freeBlocks s - count) s') \/
    ((err = dskFulErr \/ err = EIO) /\ count = 0 /\ volume_becomes (bit s) (freeBlocks s) s')) s.
Proof.
  intros Hs Hm. eapply runs_weaken; [by apply (allocate_spec bread backing Hread Hback nb)|].
  intros [[err first] count] s' (H1 & H2 & [(A1 & A2 & A3 & A4 & A5 & A6 & A7)|(A1 & A2 & A3 & A4 & A5)]); [left|right];
    by split_and!; try apply A3.
Qed.

(** C20 (functional): when the bitmap can be read, deallocating a run of the volume whose blocks are
    all in use clears exactly their bits, counts them as free and keeps the volume consistent, the
    cache with the freed run included; when one of them is free already the answer is EIO, with a
    part of the run cleared that the count of free blocks does not have. *)
Theorem BlockDeallocate_keeps_volume firstBlock numBlocks :
  0 <= firstBlock -> 0 <= numBlocks -> firstBlock + numBlocks <= totalBlocks s ->
  runs (BlockDeallocate bread firstBlock numBlocks) (λ err s',
    (err = 0 /\ all_are true (bit s) firstBlock (firstBlock + numBlocks) /\
       volume_becomes (changed (λ _, false) (bit s) firstBlock numBlocks) (freeBlocks s + numBlocks) s') \/
    (err = EIO /\ ~ all_are true (bit s) firstBlock (firstBlock + numBlocks) /\ quiet nb s' /\ freeBlocks s' = freeBlocks s /\
       ∃ k, 0 <= k <= numBlocks /\ all_are true (bit s) firstBlock (firstBlock + k) /\
         bitmap_is nb s' (changed (λ _, false) (bit s) firstBlock k))) s.
Proof.
  intros H1 H2 H3. eapply (deallocate_spec bread nb); [done|done|done|done|..].
  - intros s' A1 A2 A3 A4 A5. left. by split_and!.
  - intros k s' A1 A2 A3 A4 A5 A6. right. split_and!; try done. exists k. by split_and!; try apply A2.
  - intros err k s' He. by destruct (no_read_error bread Hread err).
Qed.

Lemma changed_back g first count b : all_are false g first (first + count) ->
  changed (λ _, false) (changed (λ _, true) g first count) first count b = g b.
Proof.
  intros H. unfold changed. destruct (Z.leb_spec first b), (Z.ltb_spec b (first + count)); try done. cbn. symmetry. apply H. lia.
Qed.

(** C21 (roundtrip): on a consistent volume whose bitmap can be read, deallocating what was allocated
    gives the bitmap and the count of free blocks back: whatever is asked for, an allocation followed,
    when it succeeds, by the deallocation of its run ends with every bit and the count as they were,
    on a consistent volume.  (When a block of the bitmap cannot be read the count may be wrong
    afterwards: [failed_mark_counts_all].) *)
Theorem deallocate_allocated startingBlock minBlocks maxBlocks forceContiguous useMetaZone :
  in_range 32 startingBlock -> 0 < minBlocks <= maxBlocks ->
  runs ('(err, first, count) ← BlockAllocate bread backing startingBlock minBlocks maxBlocks forceContiguous useMetaZone;
        if err =? 0 then BlockDeallocate bread first count else mret err) (λ err s',
    (err = 0 \/ err = dskFulErr \/ err = EIO) /\ volume_becomes (bit s) (freeBlocks s) s') s.
Proof.
  intros Hs Hm. runs_step. eapply runs_weaken; [by apply (allocate_spec bread backing Hread Hback nb)|].
  intros [[err first] count] s' (H1 & H2 & [(-> & A2 & A3 & A4 & A5 & A6 & A7)|(A1 & A2 & -> & A4 & A5)]).
  2: { rewrite (proj2 (Z.eqb_neq err 0)) by (by destruct A1 as [-> | ->]). runs_step. split; [by right|done]. }
  cbn [Z.eqb]. pose proof (vok_sizes _ _ H1) as [Hl Ht]. pose proof (vok_sizes _ _ Hvok) as [Hl0 Ht0].
  destruct (config_fields _ _ H2) as (Ew & Et & El & _).
  assert (Hlow : 0 <= count) by (destruct forceContiguous; lia).
  assert (Hset : all_are true (bit s') first (first + count)).
  { intros b Hb. rewrite A6 by lia. unfold changed. destruct (Z.leb_spec first b), (Z.ltb_spec b (first + count)); try done; lia. }
  eapply (deallocate_spec bread nb); [done|lia|lia|lia|..].
  - intros s2 _ B1 B2 B3 B4. split; [by left|]. split_and!; [done|congruence| |lia].
    intros b Hb. rewrite B3 by done. rewrite <- (changed_back (bit s) first count b A5).
    unfold changed at 1 2. destruct (_ && _); [done|]. apply A6. by destruct (config_fields _ _ B2) as (<- & _).
  - intros k s2 Hbad. done.
  - intros err k s2 He. by destruct (no_read_error bread Hread err).
Qed.
End promises.

(** The sample is consistent. *)
Lemma sample_volume : volume_ok 2 sample.
Proof.
  split; [exact sample_quiet|by vm_compute|by vm_compute|by vm_compute|by vm_compute|by vm_compute|exact sample_cache_free|].
  by vm_compute.
Defined.

Lemma no_read_fails : ∀ (s : hfsmount) (b : Z), (λ _ _, 0) s b = 0.
Proof. done. Defined.
Lemma no_backing : ∀ (s : hfsmount) (v : Z), (λ _, None) s = Some v -> 0 <= v.
Proof. intros s v. discriminate. Defined.

(** Twelve contiguous blocks from block 30 on: 30 to 39 are too few, 44 to 55 are taken. *)
Lemma BlockAllocate_keeps_volume_witness : volume_ok 2 sample /\
  answer (BlockAllocate (λ _ _, 0) (λ _, None) 30 12 12 true false) sample = Some (0, 44, 12) /\
  runs (BlockAllocate (λ _ _, 0) (λ _, None) 30 12 12 true false) (λ r s',
    let '(err, first, count) := r in
    (err = 0 /\ 0 <= first /\ 12 <= count <= 12 /\
       first + count <= allocLimit sample /\ all_are false (bit sample) first (first + count) /\
       volume_becomes 2 sample (changed (λ _, true) (bit sample) first count) (freeBlocks sample - count) s') \/
    ((err = dskFulErr \/ err = EIO) /\ count = 0 /\ volume_becomes 2 sample (bit sample) (freeBlocks sample) s')) sample.
Proof.
  split; [exact sample_volume|]. split; [by vm_compute|].
  apply (BlockAllocate_keeps_volume (λ _ _, 0) (λ _, None) no_read_fails no_backing 2 sample sample_volume 30 12 12 true false);
    vm_compute; repeat split; congruence.
Defined.

Lemma BlockDeallocate_keeps_volume_witness : volume_ok 2 sample /\
  answer (BlockDeallocate (λ _ _, 0) 40 4) sample = Some 0 /\
  runs (BlockDeallocate (λ _ _, 0) 40 4) (λ err s',
    (err = 0 /\ all_are true (bit sample) 40 (40 + 4) /\
       volume_becomes 2 sample (changed (λ _, false) (bit sample) 40 4) (freeBlocks sample + 4) s') \/
    (err = EIO /\ ~ all_are true (bit sample) 40 (40 + 4) /\ quiet 2 s' /\ freeBlocks s' = freeBlocks sample /\
       ∃ k, 0 <= k <= 4 /\ all_are true (bit sample) 40 (40 + k) /\
         bitmap_is 2 s' (changed (λ _, false) (bit sample) 40 k))) sample.
Proof.
  split; [exact sample_volume|]. split; [by vm_compute|].
  apply (BlockDeallocate_keeps_volume (λ _ _, 0) no_read_fails 2 sample sample_volume 40 4); vm_compute; congruence.
Defined.

Lemma deallocate_allocated_witness : volume_ok 2 sample /\
  runs ('(err, first, count) ← BlockAllocate (λ _ _, 0) (λ _, None) 0 1 40 false false;
        if err =? 0 then BlockDeallocate (λ _ _, 0) first count else mret err) (λ err s',
    (err = 0 \/ err = dskFulErr \/ err = EIO) /\ volume_becomes 2 sample (bit sample) (freeBlocks sample) s') sample.
Proof.
  split; [exact sample_volume|].
  apply (deallocate_allocated (λ _ _, 0) (λ _, None) no_read_fails no_backing 2 sample sample_volume 0 1 40 false false);
    vm_compute; repeat split; congruence.
Defined.

(** A free run across the preferred start is missed: 40 to 43 are freed, so that 8 to 59 are free,
    and 30 blocks from block 34 on are refused. *)
Example contiguous_run_across_start :
  match BlockDeallocate (λ _ _, 0) 40 4 sample with
  | Some (0, s') => answer (BlockAllocate (λ _ _, 0) (λ _, None) 34 30 30 true false) s' = Some (dskFulErr, 0, 0) /\
      count_free (bit s') 8 52 = 52
  | _ => False
  end.
Proof. by vm_compute. Qed.

(** Reading fails once a bitmap block was written. *)
Definition fails_after_write (s : hfsmount) (_ : Z) : Z :=
  if existsb (λ c, match c with Bdwrite _ => true | _ => false end) (calls s) then 5 else 0.

(** Blocks 30 to 33 are free and found, but the bitmap block of the last two cannot be read when
    they are marked: the allocation fails, and still all four are taken off the count. *)
Example failed_mark_counts_all :
  match BlockAllocate fails_after_write (λ _, None) 30 4 4 true false
    (set_bitmap (<[0 := [0xFCFFFFFF]]> (bitmap sample)) sample) with
  | Some (r, s') => r = (5, 30, 4) /\ freeBlocks s' = freeBlocks sample - 4 /\ bit s' 31 = true /\ bit s' 32 = false
  | None => False
  end.
Proof. by vm_compute. Qed.

End VolumeMain.
