(* ===== verification/Utf.v ===== *)
(** The conversions between UTF-8 and UTF-16 that file systems use for names,
    bsd/vfs/vfs_utfconv.c.

    Characters and bytes are numbers.  A pointer into the input is the list of what is left of
    the input, so that a read behind the end stops the machine; a pointer into a table is an
    index.  A pointer into the output is the list of what has been written, and a store stops
    the machine when it is outside of the [buflen] bytes of the caller.  [None] is the stop. *)

From S2P Require Import Prelude.
From S2P Require Import UtfData.
Import UtfData.UtfData.

Module Utf.

(** ** Constants *)

(** [EINVAL] (bsd/sys/errno.h, 108-108). *)
Definition EINVAL : Z := 22.
(** [ENAMETOOLONG] (bsd/sys/errno.h, 177-177). *)
Definition ENAMETOOLONG : Z := 63.
(** [PATH_MAX] (bsd/sys/syslimits.h, 91-91). *)
Definition MAXPATHLEN : Z := 1024.

(** [UTF_REVERSE_ENDIAN] and the other flags (bsd/sys/utfconv.h, 41-46). *)
Definition UTF_REVERSE_ENDIAN : Z := 0x0001.
Definition UTF_NO_NULL_TERM : Z := 0x0002.
Definition UTF_DECOMPOSED : Z := 0x0004.
Definition UTF_PRECOMPOSED : Z := 0x0008.
Definition UTF_ESCAPE_ILLEGAL : Z := 0x0010.
Definition UTF_SFM_CONVERSIONS : Z := 0x0020.

(** [UNICODE_TO_UTF8_LEN] (bsd/vfs/vfs_utfconv.c, 58-59). *)
Definition UNICODE_TO_UTF8_LEN (c : Z) : Z :=
  if c <? 0x0080 then 1 else if c <? 0x0800 then 2 else if (c &&& 0xf800) =? 0xd800 then 2 else 3.

(** [UCS_ALT_NULL] (bsd/vfs/vfs_utfconv.c, 61-61). *)
Definition UCS_ALT_NULL : Z := 0x2400.

(** [SP_HALF_SHIFT] and the other constants of surrogate pairs (bsd/vfs/vfs_utfconv.c, 63-71). *)
Definition SP_HALF_SHIFT : Z := 10.
Definition SP_HALF_BASE : Z := 0x0010000.
Definition SP_HALF_MASK : Z := 0x3FF.
Definition SP_HIGH_FIRST : Z := 0xD800.
Definition SP_HIGH_LAST : Z := 0xDBFF.
Definition SP_LOW_FIRST : Z := 0xDC00.
Definition SP_LOW_LAST : Z := 0xDFFF.

Definition OSSwapInt16 (x : Z) : Z := u16 (Z.shiftl x 8) ||| Z.shiftr x 8.

(** The element of a table; a read outside of the table stops the machine. *)
Definition item (t : list Z) (i : Z) : option Z := if i <? 0 then None else t !! Z.to_nat i.

(** [a && b] of C, where [b] is a call. *)
Definition and_also (a : bool) (b : option bool) : option bool := if a then b else Some false.

(** ** Properties of characters *)

(** The two-level bitmaps of [unicode_combinable] and [unicode_decomposeable]
    (bsd/vfs/vfs_utfconv.c, 86-100). *)
Definition in_bitmap (bitmap : list Z) (character : Z) : option bool :=
  value ← item bitmap (Z.shiftr character 8 &&& 0xFF);
  if value =? 0xFF then Some true
  else if truth value then
    byte ← item bitmap ((value - 1) * 32 + 256 + (character &&& 0xFF) / 8);
    Some (truth (byte &&& Z.shiftl 1 (character mod 8)))
  else Some false.

(** [unicode_combinable] (bsd/vfs/vfs_utfconv.c, 83-101); the parameter is a [u_int16_t]. *)
Definition unicode_combinable (character : Z) : option bool :=
  let character := u16 character in
  if character <? 0x0300 then Some false else in_bitmap __CFUniCharCombiningBitmap character.

(** [unicode_decomposeable] (bsd/vfs/vfs_utfconv.c, 108-125). *)
Definition unicode_decomposeable (character : Z) : option bool :=
  let character := u16 character in
  if character <? 0x00C0 then Some false else in_bitmap __CFUniCharDecomposableBitmap character.

(** [get_combining_class] (bsd/vfs/vfs_utfconv.c, 133-144). *)
Definition get_combining_class (character : Z) : option Z :=
  let character := u16 character in
  value ← item __CFUniCharCombiningPropertyBitmap (Z.shiftr character 8);
  if truth value then item __CFUniCharCombiningPropertyBitmap (value * 256 + character mod 256)
  else Some 0.

(** [utf_extrabytes] (bsd/vfs/vfs_utfconv.c, 158-161). *)
Definition utf_extrabytes : list Z :=
  [ 0;  0;  0;  0;  0;  0;  0;  0;  0;  0;  0;  0;  0;  0;  0;  0;
   -1; -1; -1; -1; -1; -1; -1; -1;  1;  1;  1;  1;  2;  2;  3; -1].

(** [hexdigits] (bsd/vfs/vfs_utfconv.c, 163-166). *)
Definition hexdigits : list Z := bytes_of "0123456789ABCDEF".

(** ** Decomposition and composition *)

(** The binary search of [getmappedvalue32] and [getmappedvalue16], over the pairs of [t] from
    [p] to [q] (bsd/vfs/vfs_utfconv.c, 871-882). *)
Fixpoint map_loop (fuel : nat) (t : list Z) (p q character : Z) : option Z :=
  match fuel with
  | 0%nat => None
  | S fuel =>
      if q <? p then Some 0
      else
        let divider := p + Z.shiftr (q - p) 1 in
        key ← item t (2 * divider);
        if character <? key then map_loop fuel t p (divider - 1) character
        else if key <? character then map_loop fuel t (divider + 1) q character
        else item t (2 * divider + 1)
  end.

(** [getmappedvalue32] (bsd/vfs/vfs_utfconv.c, 834-852); the pairs start at pair [start]. *)
Definition getmappedvalue32 (t : list Z) (start numElem character : Z) : option Z :=
  first ← item t (2 * start);
  if character <? first then Some 0
  else
    last ← item t (2 * (start + numElem - 1));
    if last <? character then Some 0
    else map_loop (S (Z.to_nat numElem)) t start (start + (numElem - 1)) character.

(** [getmappedvalue16] (bsd/vfs/vfs_utfconv.c, 862-883). *)
Definition getmappedvalue16 (t : list Z) (start numElem character : Z) : option Z :=
  first ← item t (2 * start);
  if character <? first then Some 0
  else
    last ← item t (2 * (start + numElem - 1));
    if last <? character then Some 0
    else map_loop (S (Z.to_nat numElem)) t start (start + (numElem - 1)) character.

(** [__UniCharDecompositionTableLength] (bsd/vfs/vfs_utfconvdata.h, 284-285). *)
Definition __UniCharDecompositionTableLength : Z := zlen __CFUniCharDecompositionTable / 2.

(** [__CFUniCharPrecompositionTableLength] (bsd/vfs/vfs_utfconvdata.h, 668-669). *)
Definition __CFUniCharPrecompositionTableLength : Z := zlen __CFUniCharPrecompSourceTable / 2.

(** [RECURSIVE_DECOMPOSITION] (bsd/vfs/vfs_utfconv.c, 854-854). *)
Definition RECURSIVE_DECOMPOSITION : Z := Z.shiftl 1 15.
(** [EXTRACT_COUNT] (bsd/vfs/vfs_utfconv.c, 855-855). *)
Definition EXTRACT_COUNT (value : Z) : Z := Z.shiftr value 12 &&& 0x0007.

(** [length] characters from a pointer on. *)
Definition copy (length : Z) (chars : list Z) : option (list Z) :=
  if length <=? zlen chars then Some (take (Z.to_nat length) chars) else None.

(** [unicode_recursive_decompose]: the converted characters
    (bsd/vfs/vfs_utfconv.c, 886-921). *)
Fixpoint unicode_recursive_decompose (fuel : nat) (character : Z) : option (list Z) :=
  match fuel with
  | 0%nat => None
  | S fuel =>
      value ← getmappedvalue16 __CFUniCharDecompositionTable 0 __UniCharDecompositionTableLength character;
      let length := EXTRACT_COUNT value in
      let firstChar := value &&& 0x0FFF in
      let bmpMappings :=
        if length =? 1 then [firstChar]
        else drop (Z.to_nat firstChar) __CFUniCharMultipleDecompositionTable in
      if truth (value &&& RECURSIVE_DECOMPOSITION) then
        first ← head bmpMappings;
        used ← unicode_recursive_decompose fuel first;
        if (zlen used =? 0) then Some []
        else more ← copy (u32 (length - 1)) (drop 1 bmpMappings); Some (used ++ more)
      else copy length bmpMappings
  end.

(** [HANGUL_SBASE] and the other constants of Hangul (bsd/vfs/vfs_utfconv.c, 923-932). *)
Definition HANGUL_SBASE : Z := 0xAC00.
Definition HANGUL_LBASE : Z := 0x1100.
Definition HANGUL_VBASE : Z := 0x1161.
Definition HANGUL_TBASE : Z := 0x11A7.
Definition HANGUL_SCOUNT : Z := 11172.
Definition HANGUL_LCOUNT : Z := 19.
Definition HANGUL_VCOUNT : Z := 21.
Definition HANGUL_TCOUNT : Z := 28.
Definition HANGUL_NCOUNT : Z := HANGUL_VCOUNT * HANGUL_TCOUNT.

(** How deep decompositions nest. *)
Definition decompose_depth : nat := 4.

(** [unicode_decompose] (bsd/vfs/vfs_utfconv.c, 944-964). *)
Definition unicode_decompose (character : Z) : option (list Z) :=
  if (HANGUL_SBASE <=? character) && (character <=? HANGUL_SBASE + HANGUL_SCOUNT) then
    let character := u16 (character - HANGUL_SBASE) in
    let length := if truth (character mod HANGUL_TCOUNT) then 3 else 2 in
    Some ([character / HANGUL_NCOUNT + HANGUL_LBASE;
           (character mod HANGUL_NCOUNT) / HANGUL_TCOUNT + HANGUL_VBASE]
          ++ (if 2 <? length then [character mod HANGUL_TCOUNT + HANGUL_TBASE] else []))
  else unicode_recursive_decompose decompose_depth character.

(** [unicode_combine] (bsd/vfs/vfs_utfconv.c, 977-1013). *)
Definition unicode_combine (base combining : Z) : option Z :=
  let mapped :=
    value ← getmappedvalue32 __CFUniCharPrecompSourceTable 0 __CFUniCharPrecompositionTableLength combining;
    if truth value then
      getmappedvalue16 __CFUniCharBMPPrecompDestinationTable (value &&& 0xFFFF) (Z.shiftr value 16) base
    else Some value in
  if (HANGUL_VBASE <=? combining) && (combining <? HANGUL_TBASE + HANGUL_TCOUNT) then
    if (combining <? HANGUL_VBASE + HANGUL_VCOUNT)
       && ((HANGUL_LBASE <=? base) && (base <? HANGUL_LBASE + HANGUL_LCOUNT)) then
      Some (HANGUL_SBASE + (base - HANGUL_LBASE) * (HANGUL_VCOUNT * HANGUL_TCOUNT)
            + (combining - HANGUL_VBASE) * HANGUL_TCOUNT)
    else if (HANGUL_TBASE <? combining)
            && ((HANGUL_SBASE <=? base) && (base <? HANGUL_SBASE + HANGUL_SCOUNT)) then
      if truth ((base - HANGUL_SBASE) mod HANGUL_TCOUNT) then Some 0
      else Some (base + (combining - HANGUL_TBASE))
    else mapped
  else mapped.

(** ** Sorting *)

(** [priortysort], one pass: [ch1] is the character under the first pointer, [rest] the ones
    behind it, [p2] the class that the variable holds (bsd/vfs/vfs_utfconv.c, 1035-1048). *)
Fixpoint sort_pass (p2 ch1 : Z) (rest : list Z) : option (list Z * bool) :=
  match rest with
  | [] => Some ([ch1], false)
  | ch2 :: rest =>
      let p1 := p2 in
      p2 ← get_combining_class ch2;
      if p2 <? p1 then
        '(sorted, _) ← sort_pass p2 ch1 rest; Some (ch2 :: sorted, true)
      else
        '(sorted, changes) ← sort_pass p2 ch2 rest; Some (ch1 :: sorted, changes)
  end.

(** [priortysort], the loop (bsd/vfs/vfs_utfconv.c, 1030-1049). *)
Fixpoint sort_loop (fuel : nat) (characters : list Z) : option (list Z) :=
  match fuel, characters with
  | S fuel, ch1 :: rest =>
      p2 ← get_combining_class ch1;
      '(sorted, changes) ← sort_pass p2 ch1 rest;
      if changes : bool then sort_loop fuel sorted else Some sorted
  | _, _ => None
  end.

(** [priortysort] (bsd/vfs/vfs_utfconv.c, 1021-1050). *)
Definition priortysort (characters : list Z) : option (list Z) :=
  sort_loop (S (length characters * length characters)) characters.

(** ** Services for Macintosh *)

(** [sfm2mac] (bsd/vfs/vfs_utfconv.c, 1087-1095). *)
Definition sfm2mac : list Z :=
  [0x00; 0x01; 0x02; 0x03; 0x04; 0x05; 0x06; 0x07; 0x08; 0x09; 0x0a; 0x0b; 0x0c; 0x0d; 0x0e; 0x0f;
   0x10; 0x11; 0x12; 0x13; 0x14; 0x15; 0x16; 0x17; 0x18; 0x19; 0x1a; 0x1b; 0x1c; 0x1d; 0x1e; 0x1f;
   0x22; 0x2a; 0x3a; 0x3c; 0x3e; 0x3f; 0x5c; 0x7c; 0x20; 0x2e].

(** [mac2sfm], of 112 elements of which 96 are given (bsd/vfs/vfs_utfconv.c, 1097-1111). *)
Definition mac2sfm : list Z :=
  [0x20; 0x21; 0x20; 0x23; 0x24; 0x25; 0x26; 0x27; 0x28; 0x29; 0x21; 0x2b; 0x2c; 0x2d; 0x2e; 0x22;
   0x30; 0x31; 0x32; 0x33; 0x34; 0x35; 0x36; 0x37; 0x38; 0x39; 0x22; 0x3b; 0x23; 0x3d; 0x24; 0x25;
   0x40; 0x41; 0x42; 0x43; 0x44; 0x45; 0x46; 0x47; 0x48; 0x49; 0x4a; 0x4b; 0x4c; 0x4d; 0x4e; 0x4f;
   0x50; 0x51; 0x52; 0x53; 0x54; 0x55; 0x56; 0x57; 0x58; 0x59; 0x5a; 0x5b; 0x26; 0x5d; 0x5e; 0x5f;
   0x60; 0x61; 0x62; 0x63; 0x64; 0x65; 0x66; 0x67; 0x68; 0x69; 0x6a; 0x6b; 0x6c; 0x6d; 0x6e; 0x6f;
   0x70; 0x71; 0x72; 0x73; 0x74; 0x75; 0x76; 0x77; 0x78; 0x79; 0x7a; 0x7b; 0x27; 0x7d; 0x7e; 0x7f]
  ++ repeat 0 16.

(** [MAX_SFM2MAC] (bsd/vfs/vfs_utfconv.c, 1077-1077). *)
Definition MAX_SFM2MAC : Z := 0x29.
(** [SFMCODE_PREFIX_MASK] (bsd/vfs/vfs_utfconv.c, 1078-1078). *)
Definition SFMCODE_PREFIX_MASK : Z := 0xf000.

(** [ucs_to_sfm] (bsd/vfs/vfs_utfconv.c, 1119-1140). *)
Definition ucs_to_sfm (ucs_ch : Z) (lastchar : bool) : option Z :=
  if lastchar && (ucs_ch =? 0x20) then Some 0xf028
  else if lastchar && (ucs_ch =? 0x2e) then Some 0xf029
  else if ucs_ch <=? 0x1f then Some (ucs_ch ||| 0xf000)
  else
    lsb ← item mac2sfm (ucs_ch - 0x0020);
    Some (if negb (lsb =? ucs_ch) then 0xf000 ||| lsb else ucs_ch).

(** [sfm_to_ucs] (bsd/vfs/vfs_utfconv.c, 1145-1153). *)
Definition sfm_to_ucs (ucs_ch : Z) : option Z :=
  if ((ucs_ch &&& 0xffC0) =? SFMCODE_PREFIX_MASK) && ((ucs_ch &&& 0x003f) <=? MAX_SFM2MAC)
  then item sfm2mac (ucs_ch &&& 0x003f) else Some ucs_ch.

(** ** Encoding *)

(** The arguments that do not change: [flags] and [altslash] (bsd/vfs/vfs_utfconv.c, 411-412). *)
Record config := Config { altslash : Z; flags : Z }.

(** The flags as the functions read them: [swapbytes] (bsd/vfs/vfs_utfconv.c, 424-428). *)
Definition swapbytes (c : config) : bool := truth (flags c &&& UTF_REVERSE_ENDIAN).
(** [nullterm] (bsd/vfs/vfs_utfconv.c, 271-271). *)
Definition nullterm (c : config) : bool := (flags c &&& UTF_NO_NULL_TERM) =? 0.
(** [decompose] (bsd/vfs/vfs_utfconv.c, 424-424). *)
Definition decompose (c : config) : bool := truth (flags c &&& UTF_DECOMPOSED).
(** [precompose] (bsd/vfs/vfs_utfconv.c, 425-425). *)
Definition precompose (c : config) : bool := truth (flags c &&& UTF_PRECOMPOSED).
(** [escaping] (bsd/vfs/vfs_utfconv.c, 427-427). *)
Definition escaping (c : config) : bool := truth (flags c &&& UTF_ESCAPE_ILLEGAL).
(** [sfmconv] (bsd/vfs/vfs_utfconv.c, 428-428). *)
Definition sfmconv (c : config) : bool := truth (flags c &&& UTF_SFM_CONVERSIONS).

(** A character in the byte order of the caller, [swapbytes] (bsd/vfs/vfs_utfconv.c, 287-287). *)
Definition swapped (c : config) (ch : Z) : Z := if swapbytes c then OSSwapInt16 ch else ch.

(** [unicode_decompose] into the array [sequence] of eight characters (bsd/vfs/vfs_utfconv.c, 516-528). *)
Definition into_sequence (ucs_ch : Z) : option (list Z) :=
  sequence ← unicode_decompose ucs_ch;
  if zlen sequence <=? 8 then Some sequence else None.

(** [utf8_encodelen], the loop: [ucsp], [chp] and [extra] as in the code
    (bsd/vfs/vfs_utfconv.c, 207-228). *)
Fixpoint len_loop (fuel : nat) (c : config) (charcnt : Z) (ucsp chp : list Z) (extra len : Z) : option Z :=
  match fuel with
  | 0%nat => None
  | S fuel =>
      if charcnt <=? 0 then Some len
      else
        let charcnt := charcnt - 1 in
        if 0 <? extra then
          ucs_ch ← head chp;
          len_loop fuel c charcnt ucsp (tail chp) (extra - 1) (len + UNICODE_TO_UTF8_LEN ucs_ch)
        else
          raw ← head ucsp;
          let ucs_ch := swapped c raw in
          let ucsp := tail ucsp in
          if ucs_ch =? 0x2f then
            let ucs_ch := if truth (altslash c) then altslash c else 0x5f in
            len_loop fuel c charcnt ucsp chp extra (len + UNICODE_TO_UTF8_LEN ucs_ch)
          else if ucs_ch =? 0 then
            len_loop fuel c charcnt ucsp chp extra (len + UNICODE_TO_UTF8_LEN UCS_ALT_NULL)
          else
            composed ← and_also (decompose c) (unicode_decomposeable ucs_ch);
            if composed : bool then
              sequence ← into_sequence ucs_ch;
              ucs_ch ← head sequence;
              let extra := zlen sequence - 1 in
              len_loop fuel c (charcnt + extra) ucsp (tail sequence) extra (len + UNICODE_TO_UTF8_LEN ucs_ch)
            else len_loop fuel c charcnt ucsp chp extra (len + UNICODE_TO_UTF8_LEN ucs_ch)
  end.

(** The passes that are enough for an input: a character is at most eight after decomposition. *)
Definition enough (ucs : list Z) : nat := S (8 * length ucs).

(** [utf8_encodelen] (bsd/vfs/vfs_utfconv.c, 192-231). *)
Definition utf8_encodelen (ucs : list Z) (ucslen : Z) (c : config) : option Z :=
  len_loop (enough ucs) c (ucslen / 2) ucs [] 0 0.

(** Bytes stored through [utf8p]. *)
Definition put (buflen : Z) (out bytes : list Z) : option (list Z) :=
  if zlen out + zlen bytes <=? buflen then Some (out ++ map u8 bytes) else None.

(** [utf8_encodestr], the next character: decomposed, or from the input
    (bsd/vfs/vfs_utfconv.c, 283-295). *)
Definition next_char (c : config) (charcnt : Z) (ucsp chp : list Z) (extra : Z)
    : option (Z * (Z * list Z * list Z * Z)) :=
  if 0 <? extra then
    ucs_ch ← head chp;
    Some (ucs_ch, (charcnt, ucsp, tail chp, extra - 1))
  else
    raw ← head ucsp;
    let ucs_ch := swapped c raw in
    composed ← and_also (decompose c) (unicode_decomposeable ucs_ch);
    if composed : bool then
      sequence ← into_sequence ucs_ch;
      ucs_ch ← head sequence;
      let extra := zlen sequence - 1 in
      Some (ucs_ch, (charcnt + extra, tail ucsp, tail sequence, extra))
    else Some (ucs_ch, (charcnt, tail ucsp, chp, extra)).

(** [utf8_encodestr], a slash or a null (bsd/vfs/vfs_utfconv.c, 297-307). *)
Definition permitted (c : config) (ucs_ch result : Z) : Z * Z :=
  if ucs_ch =? 0x2f then
    if truth (altslash c) then (altslash c, result) else (0x5f, EINVAL)
  else if ucs_ch =? 0 then (UCS_ALT_NULL, result)
  else (ucs_ch, result).

(** [utf8_encodestr], the loop; [bufend] is counted from the start of the buffer
    (bsd/vfs/vfs_utfconv.c, 282-372). *)
Fixpoint encode_loop (fuel : nat) (c : config) (buflen bufend charcnt : Z) (ucsp chp : list Z) (extra : Z)
    (out : list Z) (result : Z) : option (Z * list Z) :=
  match fuel with
  | 0%nat => None
  | S fuel =>
      if charcnt <=? 0 then Some (result, out)
      else
        '(ucs_ch, (charcnt, ucsp, chp, extra)) ← next_char c (charcnt - 1) ucsp chp extra;
        let '(ucs_ch, result) := permitted c ucs_ch result in
        let three ucs_ch :=
          if bufend <=? zlen out + 2 then Some (ENAMETOOLONG, out)
          else
            out ← put buflen out [0xe0 ||| Z.shiftr ucs_ch 12; 0x80 ||| (0x3f &&& Z.shiftr ucs_ch 6);
                                  0x80 ||| (0x3f &&& ucs_ch)];
            encode_loop fuel c buflen bufend charcnt ucsp chp extra out result in
        let one ucs_ch :=
          if bufend <=? zlen out then Some (ENAMETOOLONG, out)
          else
            out ← put buflen out [ucs_ch];
            encode_loop fuel c buflen bufend charcnt ucsp chp extra out result in
        if ucs_ch <? 0x0080 then one ucs_ch
        else if ucs_ch <? 0x800 then
          if bufend <=? zlen out + 1 then Some (ENAMETOOLONG, out)
          else
            out ← put buflen out [0xc0 ||| Z.shiftr ucs_ch 6; 0x80 ||| (0x3f &&& ucs_ch)];
            encode_loop fuel c buflen bufend charcnt ucsp chp extra out result
        else if (ucs_ch =? 0xFFFE) || (ucs_ch =? 0xFFFF) then Some (EINVAL, out)
        else if (SP_HIGH_FIRST <=? ucs_ch) && (ucs_ch <=? SP_HIGH_LAST) && (0 <? charcnt) then
          raw ← head ucsp;
          let ch2 := swapped c raw in
          if (SP_LOW_FIRST <=? ch2) && (ch2 <=? SP_LOW_LAST) then
            let pair := Z.shiftl (ucs_ch - SP_HIGH_FIRST) SP_HALF_SHIFT + (ch2 - SP_LOW_FIRST) + SP_HALF_BASE in
            if bufend <=? zlen out + 3 then Some (ENAMETOOLONG, out)
            else
              out ← put buflen out [0xf0 ||| Z.shiftr pair 18; 0x80 ||| (0x3f &&& Z.shiftr pair 12);
                                    0x80 ||| (0x3f &&& Z.shiftr pair 6); 0x80 ||| (0x3f &&& pair)];
              encode_loop fuel c buflen bufend (charcnt - 1) (tail ucsp) chp extra out result
          else three ucs_ch
        else if sfmconv c then
          ucs_ch ← sfm_to_ucs ucs_ch;
          if ucs_ch <? 0x0080 then one ucs_ch else three ucs_ch
        else three ucs_ch
  end.

(** [utf8_encodestr]: the result, the length and the bytes of the buffer
    (bsd/vfs/vfs_utfconv.c, 259-379). *)
Definition utf8_encodestr (ucs : list Z) (ucslen buflen : Z) (c : config) : option (Z * Z * list Z) :=
  let bufend := if nullterm c then buflen - 1 else buflen in
  '(result, out) ← encode_loop (enough ucs) c buflen bufend (ucslen / 2) ucs [] 0 [] 0;
  let utf8len := zlen out in
  if nullterm c then out ← put buflen out [0]; Some (result, utf8len, out)
  else Some (result, utf8len, out).

(** ** Decoding *)

(** What the bytes of a character come to: the jumps to [escape2], [escape3] and [escape4]
    (which move [utf8p] back to behind the first byte), a character, a surrogate pair or the
    default case of the switch. *)
Inductive sequence :=
  | Escape
  | Char (ucs_ch : Z) (rest : list Z)
  | Pair (ch : Z) (rest : list Z)
  | Default.

Definition next (l : list Z) : option (Z * list Z) :=
  match l with [] => None | b :: l => Some (b, l) end.

(** The test that a [byte] continues a character (bsd/vfs/vfs_utfconv.c, 453-453). *)
Definition continues (byte : Z) : bool := Z.shiftr byte 6 =? 2.

(** [utf8_decodestr], the switch over the length of a character
    (bsd/vfs/vfs_utfconv.c, 449-513). *)
Definition decode_sequence (extrabytes byte : Z) (rest : list Z) : option sequence :=
  if extrabytes =? 1 then
    let ch := u32 (Z.shiftl byte 6) in
    '(byte, rest) ← next rest;
    if negb (continues byte) then Some Escape
    else
      let ch := u32 (u32 (ch + byte) - 0x00003080) in
      if ch <? 0x0080 then Some Escape else Some (Char ch rest)
  else if extrabytes =? 2 then
    let ch := u32 (Z.shiftl byte 6) in
    '(byte, rest) ← next rest;
    if negb (continues byte) then Some Escape
    else
      let ch := u32 (Z.shiftl (u32 (ch + byte)) 6) in
      '(byte, rest) ← next rest;
      if negb (continues byte) then Some Escape
      else
        let ch := u32 (u32 (ch + byte) - 0x000E2080) in
        if ch <? 0x0800 then Some Escape
        else if (0xD800 <=? ch) && ((ch <=? 0xDFFF) || (ch =? 0xFFFE) || (ch =? 0xFFFF)) then Some Escape
        else Some (Char ch rest)
  else if extrabytes =? 3 then
    let ch := u32 (Z.shiftl byte 6) in
    '(byte, rest) ← next rest;
    if negb (continues byte) then Some Escape
    else
      let ch := u32 (Z.shiftl (u32 (ch + byte)) 6) in
      '(byte, rest) ← next rest;
      if negb (continues byte) then Some Escape
      else
        let ch := u32 (Z.shiftl (u32 (ch + byte)) 6) in
        '(byte, rest) ← next rest;
        if negb (continues byte) then Some Escape
        else
          let ch := u32 (u32 (ch + byte) - (0x03C82080 + SP_HALF_BASE)) in
          let ucs_ch := Z.shiftr ch SP_HALF_SHIFT + SP_HIGH_FIRST in
          if (ucs_ch <? SP_HIGH_FIRST) || (SP_HIGH_LAST <? ucs_ch) then Some Escape
          else Some (Pair ch rest)
  else Some Default.

(** A [size_t] as an [int]. *)
Definition s32 (z : Z) : Z := if z <? 2 ^ 31 then z else z - 2 ^ 32.

(** The pointers and counters of [utf8_decodestr] (bsd/vfs/vfs_utfconv.c, 411-418). *)
Record decoder := Decoder {
  utf8p : list Z;
  utf8len : Z;
  ucsp : list Z;
  combcharcnt : Z }.

(** A character stored through [ucsp], in a buffer of [buflen] bytes (bsd/vfs/vfs_utfconv.c, 531-531). *)
Definition store_char (c : config) (buflen : Z) (out : list Z) (ucs_ch : Z) : option (list Z) :=
  if 2 * zlen out + 2 <=? buflen then Some (out ++ [swapped c (u16 ucs_ch)]) else None.

(** The test of [bufend] (bsd/vfs/vfs_utfconv.c, 434-435). *)
Definition at_end (buflen : Z) (out : list Z) : bool := buflen <=? 2 * zlen out.

(** [priortysort] of the last [count] characters (bsd/vfs/vfs_utfconv.c, 524-524). *)
Definition sort_last (out : list Z) (count : Z) : option (list Z) :=
  if count <=? zlen out then
    let start := Z.to_nat (zlen out - count) in
    sorted ← priortysort (drop start out);
    Some (take start out ++ sorted)
  else None.

(** [utf8_decodestr], a run of combining characters made canonical
    (bsd/vfs/vfs_utfconv.c, 610-612). *)
Definition sort_run (out : list Z) (combcharcnt : Z) : option (list Z) :=
  if 1 <? combcharcnt then sort_last out combcharcnt else Some out.

(** [utf8_decodestr], the characters of a decomposition are stored: [inl] is the jump to
    [toolong] (bsd/vfs/vfs_utfconv.c, 529-534). *)
Fixpoint store_all (c : config) (buflen : Z) (out sequence : list Z) : option (list Z + list Z) :=
  match sequence with
  | [] => Some (inr out)
  | ucs_ch :: sequence =>
      out ← store_char c buflen out ucs_ch;
      if at_end buflen out then Some (inl out) else store_all c buflen out sequence
  end.

(** [utf8_decodestr], the end of a round: a character is stored, and counted when it combines
    (bsd/vfs/vfs_utfconv.c, 553-569). *)
Definition finish_char (c : config) (buflen : Z) (s : decoder) (ucs_ch : Z) : option decoder :=
  let ucs_ch := if ucs_ch =? altslash c then 0x2f else ucs_ch in
  combines ← unicode_combinable ucs_ch;
  '(out, count) ←
    (if combines : bool then Some (ucsp s, combcharcnt s + 1)
     else if truth (combcharcnt s) then out ← sort_run (ucsp s) (combcharcnt s); Some (out, 0)
     else Some (ucsp s, combcharcnt s));
  out ← store_char c buflen out ucs_ch;
  Some (Decoder (utf8p s) (utf8len s) out count).

(** [utf8_decodestr], an illegal byte: the rest of the loop after the label [escape]
    (bsd/vfs/vfs_utfconv.c, 582-605). *)
Definition decode_escape (c : config) (buflen byte extrabytes : Z) (s : decoder)
    : option (decoder + Z * list Z) :=
  if negb (escaping c) then Some (inr (EINVAL, ucsp s))
  else
    let len := if 0 <? extrabytes then u32 (utf8len s + extrabytes) else utf8len s in
    if buflen <=? 2 * (zlen (ucsp s) + 2) then Some (inr (ENAMETOOLONG, ucsp s))
    else
      out ← sort_run (ucsp s) (combcharcnt s);
      out ← store_char c buflen out 0x25;
      high ← item hexdigits (Z.shiftr byte 4);
      out ← store_char c buflen out high;
      low ← item hexdigits (byte &&& 0x0F);
      out ← store_char c buflen out low;
      Some (inl (Decoder (utf8p s) len out 0)).

(** [utf8_decodestr], a character of several bytes: decomposed or composed
    (bsd/vfs/vfs_utfconv.c, 514-569). *)
Definition decode_char (c : config) (buflen : Z) (s : decoder) (ucs_ch : Z)
    : option (decoder + Z * list Z) :=
  let alt_null ucs_ch := if ucs_ch =? UCS_ALT_NULL then 0 else ucs_ch in
  if decompose c then
    composed ← unicode_decomposeable ucs_ch;
    if composed : bool then
      out ← sort_run (ucsp s) (combcharcnt s);
      sequence ← into_sequence ucs_ch;
      stored ← store_all c buflen out sequence;
      match stored with
      | inl out => Some (inr (ENAMETOOLONG, out))
      | inr out => Some (inl (Decoder (utf8p s) (utf8len s) out (zlen sequence - 1)))
      end
    else s ← finish_char c buflen s (alt_null ucs_ch); Some (inl s)
  else
    combines ← and_also (precompose c && negb (zlen (ucsp s) =? 0)) (unicode_combinable ucs_ch);
    if combines : bool then
      last ← last (ucsp s);
      composite ← unicode_combine (swapped c last) ucs_ch;
      if truth composite then
        let s := Decoder (utf8p s) (utf8len s) (removelast (ucsp s)) (combcharcnt s) in
        s ← finish_char c buflen s (alt_null composite); Some (inl s)
      else s ← finish_char c buflen s (alt_null ucs_ch); Some (inl s)
    else s ← finish_char c buflen s (alt_null ucs_ch); Some (inl s).

(** [utf8_decodestr], one round of the loop for a byte that is not null: the state after it, or
    the result (bsd/vfs/vfs_utfconv.c, 434-605). *)
Definition decode_step (c : config) (buflen byte : Z) (s : decoder) : option (decoder + Z * list Z) :=
  if at_end buflen (ucsp s) then Some (inr (ENAMETOOLONG, ucsp s))
  else if byte <? 0x80 then
    ucs_ch ← (if sfmconv c then ucs_to_sfm byte (utf8len s =? 0) else Some byte);
    s ← finish_char c buflen s ucs_ch;
    Some (inl s)
  else
    extrabytes ← item utf_extrabytes (Z.shiftr byte 3);
    if (extrabytes <? 0) || (s32 (utf8len s) <? extrabytes) then decode_escape c buflen byte extrabytes s
    else
      let s := Decoder (utf8p s) (utf8len s - extrabytes) (ucsp s) (combcharcnt s) in
      character ← decode_sequence extrabytes byte (utf8p s);
      match character with
      | Escape => decode_escape c buflen byte extrabytes s
      | Char ucs_ch rest =>
          decode_char c buflen (Decoder rest (utf8len s) (ucsp s) (combcharcnt s)) ucs_ch
      | Pair ch rest =>
          out ← store_char c buflen (ucsp s) (Z.shiftr ch SP_HALF_SHIFT + SP_HIGH_FIRST);
          if at_end buflen out then Some (inr (ENAMETOOLONG, out))
          else
            let ucs_ch := (ch &&& SP_HALF_MASK) + SP_LOW_FIRST in
            if (ucs_ch <? SP_LOW_FIRST) || (SP_LOW_LAST <? ucs_ch)
            then decode_escape c buflen byte extrabytes s
            else
              out ← store_char c buflen out ucs_ch;
              Some (inl (Decoder rest (utf8len s) out (combcharcnt s)))
      | Default => Some (inr (EINVAL, ucsp s))
      end.

(** [utf8_decodestr], the loop (bsd/vfs/vfs_utfconv.c, 433-621). *)
Fixpoint decode_loop (fuel : nat) (c : config) (buflen : Z) (s : decoder) : option (Z * list Z) :=
  let finish := out ← sort_run (ucsp s) (combcharcnt s); Some (0, out) in
  match fuel with
  | 0%nat => None
  | S fuel =>
      if utf8len s =? 0 then finish
      else
        '(byte, rest) ← next (utf8p s);
        if byte =? 0 then finish
        else
          stepped ← decode_step c buflen byte (Decoder rest (utf8len s - 1) (ucsp s) (combcharcnt s));
          match stepped with
          | inl s => decode_loop fuel c buflen s
          | inr exit => Some exit
          end
  end.

(** [utf8_decodestr]: the result and the characters of the buffer; the length it returns is that
    of these in bytes (bsd/vfs/vfs_utfconv.c, 410-621). *)
Definition utf8_decodestr (utf8 : list Z) (len buflen : Z) (c : config) : option (Z * list Z) :=
  decode_loop (S (length utf8)) c buflen (Decoder utf8 len [] 0).

(** ** Validation *)

(** [utf8_validatestr], the switch: what is left of the input, or [inl] for the jump to
    [invalid] (bsd/vfs/vfs_utfconv.c, 645-699). *)
Definition validate_sequence (extrabytes byte : Z) (rest : list Z) : option (unit + list Z) :=
  if extrabytes =? 1 then
    let ch := u32 (Z.shiftl byte 6) in
    '(byte, rest) ← next rest;
    if negb (continues byte) then Some (inl tt)
    else
      let ch := u32 (u32 (ch + byte) - 0x00003080) in
      if ch <? 0x0080 then Some (inl tt) else Some (inr rest)
  else if extrabytes =? 2 then
    let ch := u32 (Z.shiftl byte 6) in
    '(byte, rest) ← next rest;
    if negb (continues byte) then Some (inl tt)
    else
      let ch := u32 (Z.shiftl (u32 (ch + byte)) 6) in
      '(byte, rest) ← next rest;
      if negb (continues byte) then Some (inl tt)
      else
        let ch := u32 (u32 (ch + byte) - 0x000E2080) in
        if ch <? 0x0800 then Some (inl tt)
        else if (0xD800 <=? ch) && ((ch <=? 0xDFFF) || (ch =? 0xFFFE) || (ch =? 0xFFFF)) then Some (inl tt)
        else Some (inr rest)
  else if extrabytes =? 3 then
    let ch := u32 (Z.shiftl byte 6) in
    '(byte, rest) ← next rest;
    if negb (continues byte) then Some (inl tt)
    else
      let ch := u32 (Z.shiftl (u32 (ch + byte)) 6) in
      '(byte, rest) ← next rest;
      if negb (continues byte) then Some (inl tt)
      else
        let ch := u32 (Z.shiftl (u32 (ch + byte)) 6) in
        '(byte, rest) ← next rest;
        if negb (continues byte) then Some (inl tt)
        else
          let ch := u32 (u32 (ch + byte) - (0x03C82080 + SP_HALF_BASE)) in
          let ucs_ch := Z.shiftr ch SP_HALF_SHIFT + SP_HIGH_FIRST in
          if (ucs_ch <? SP_HIGH_FIRST) || (SP_HIGH_LAST <? ucs_ch) then Some (inl tt)
          else
            let ucs_ch := (ch &&& SP_HALF_MASK) + SP_LOW_FIRST in
            if (ucs_ch <? SP_LOW_FIRST) || (SP_LOW_LAST <? ucs_ch) then Some (inl tt)
            else Some (inr rest)
  else Some (inl tt).

(** [utf8_validatestr], the loop (bsd/vfs/vfs_utfconv.c, 635-705). *)
Fixpoint validate_loop (fuel : nat) (utf8p : list Z) (utf8len : Z) : option Z :=
  match fuel with
  | 0%nat => None
  | S fuel =>
      if utf8len =? 0 then Some 0
      else
        '(byte, rest) ← next utf8p;
        let utf8len := utf8len - 1 in
        if byte =? 0 then Some 0
        else if byte <? 0x80 then validate_loop fuel rest utf8len
        else
          extrabytes ← item utf_extrabytes (Z.shiftr byte 3);
          let extrabytes := u32 extrabytes in
          if utf8len <? extrabytes then Some EINVAL
          else
            valid ← validate_sequence extrabytes byte rest;
            match valid with
            | inl _ => Some EINVAL
            | inr rest => validate_loop fuel rest (utf8len - extrabytes)
            end
  end.

(** [utf8_validatestr] (bsd/vfs/vfs_utfconv.c, 627-706). *)
Definition utf8_validatestr (utf8 : list Z) (utf8len : Z) : option Z :=
  validate_loop (S (length utf8)) utf8 utf8len.

(** ** Normalization *)

(** What stopped the loop over the ASCII characters (bsd/vfs/vfs_utfconv.c, 760-765). *)
Inductive ascii_end := AllCopied | NoRoom | NonAscii.

(** [utf8_normalizestr], the loop over the ASCII characters (bsd/vfs/vfs_utfconv.c, 759-769). *)
Fixpoint ascii_loop (instr : list Z) (inlen buflen : Z) (out : list Z) : option (ascii_end * list Z) :=
  if inlen =? 0 then Some (AllCopied, out)
  else
    match instr with
    | [] => None
    | byte :: instr =>
        if byte =? 0 then Some (AllCopied, out)
        else if buflen <=? zlen out then Some (NoRoom, out)
        else if 0x80 <=? byte then Some (NonAscii, out)
        else out ← put buflen out [byte]; ascii_loop instr (inlen - 1) buflen out
    end.

(** [utf8_normalizestr], the way out (bsd/vfs/vfs_utfconv.c, 770-778). *)
Definition normalize_exit (flags buflen result : Z) (out : list Z) : option (Z * Z * list Z) :=
  if (flags &&& UTF_NO_NULL_TERM) =? 0 then
    if zlen out <? buflen then term ← put buflen out [0]; Some (result, zlen out, term)
    else Some (ENAMETOOLONG, zlen out, out)
  else Some (result, zlen out, out).

(** [utf8_normalizestr]: the result, the length and the bytes of the buffer, or nothing stored
    for wrong flags (bsd/vfs/vfs_utfconv.c, 731-822). *)
Definition utf8_normalizestr (instr : list Z) (inlen buflen flags : Z) : option (Z * Z * list Z) :=
  let decompose := truth (flags &&& UTF_DECOMPOSED) in
  let precompose := truth (flags &&& UTF_PRECOMPOSED) in
  if truth (Z.ldiff flags (UTF_DECOMPOSED ||| UTF_PRECOMPOSED ||| UTF_NO_NULL_TERM ||| UTF_ESCAPE_ILLEGAL))
  then Some (EINVAL, 0, [])
  else if (decompose && precompose) || (negb decompose && negb precompose) then Some (EINVAL, 0, [])
  else
    '(stop, out) ← ascii_loop instr inlen buflen [];
    match stop with
    | AllCopied => normalize_exit flags buflen 0 out
    | NoRoom => normalize_exit flags buflen ENAMETOOLONG out
    | NonAscii =>
        if MAXPATHLEN <? inlen then normalize_exit flags buflen ENAMETOOLONG out
        else
          let unicode_bytes := if precompose then inlen * 2 else inlen * 3 in
          '(result, unistr) ← utf8_decodestr instr inlen unicode_bytes
                                (Config 0 (Z.ldiff flags UTF_NO_NULL_TERM));
          if result =? 0 then
            '(result, _, encoded) ← utf8_encodestr unistr (2 * zlen unistr) buflen (Config 0 UTF_NO_NULL_TERM);
            normalize_exit flags buflen result encoded
          else normalize_exit flags buflen result out
    end.

End Utf.
