(* ===== verification/UtfTables.v ===== *)
(** What the tables of the Unicode conversions say: the binary searches find the entry of their
    character, the bitmaps agree with the lists, every decomposition is complete and fits the
    array it is stored in, and composition is undone by decomposition.

    A table of pairs in a flat array is read as a list of pairs, and a bitmap as the list of its
    bits, so that a statement about every character becomes one pass over a list. *)

From S2P Require Import Prelude.
From S2P Require Import UtfData.
From S2P Require Import Utf.
Import UtfData.UtfData Utf.Utf.

Module UtfTables.

(** ** Reads inside of a table *)

Lemma item_lookup t i x : 0 <= i -> t !! Z.to_nat i = Some x -> item t i = Some x.
Proof. intros Hi E. unfold item. by rewrite (proj2 (Z.ltb_ge i 0)). Qed.

Lemma item_inside t i : 0 <= i < zlen t -> ∃ x, t !! Z.to_nat i = Some x /\ item t i = Some x.
Proof.
  intros Hi. destruct (lookup_lt_is_Some_2 t (Z.to_nat i)) as [x Hx]; [lia|].
  exists x. split; [done|]. apply item_lookup; [lia|done].
Qed.

(** ** Tables of pairs *)

Fixpoint pairs_of (t : list Z) : list (Z * Z) :=
  match t with
  | k :: v :: t => (k, v) :: pairs_of t
  | _ => []
  end.

(** The value of a key, 0 for none. *)
Fixpoint value_of (l : list (Z * Z)) (key : Z) : Z :=
  match l with
  | [] => 0
  | (k, v) :: l => if k =? key then v else value_of l key
  end.

Fixpoint increasing (l : list (Z * Z)) : bool :=
  match l with
  | (k, _) :: ((k', _) :: _) as l' => (k <? k') && increasing l'
  | _ => true
  end.

(** The pairs [start] to [start + num] of a table. *)
Definition pairs_at (t : list Z) (start num : Z) : list (Z * Z) :=
  take (Z.to_nat num) (drop (Z.to_nat start) (pairs_of t)).

(** A table that [getmappedvalue16] can search. *)
Definition searchable (t : list Z) (start num : Z) : bool :=
  (0 <=? start) && (0 <? num) && (start + num <=? zlen (pairs_of t)) && increasing (pairs_at t start num).

Lemma pairs_lookup t : ∀ i k v, pairs_of t !! i = Some (k, v) ->
  t !! (2 * i)%nat = Some k /\ t !! (2 * i + 1)%nat = Some v.
Proof.
  induction t as [t IH] using (induction_ltof1 _ length). intros i k v.
  destruct t as [|a [|b t]]; [done..|]. destruct i as [|i]; [by intros [= -> ->]|].
  simpl. intros [H1 H2]%IH; [|unfold ltof; simpl; lia].
  replace (i + S (i + 0))%nat with (S (2 * i)) by lia.
  replace (i + S (i + 0) + 1)%nat with (S (2 * i + 1)) by lia. done.
Qed.

Lemma item_pairs t i k v : 0 <= i -> pairs_of t !! Z.to_nat i = Some (k, v) ->
  item t (2 * i) = Some k /\ item t (2 * i + 1) = Some v.
Proof.
  intros Hi [H1 H2]%pairs_lookup. split; apply item_lookup; try lia.
  - by replace (Z.to_nat (2 * i)) with (2 * Z.to_nat i)%nat by lia.
  - by replace (Z.to_nat (2 * i + 1)) with (2 * Z.to_nat i + 1)%nat by lia.
Qed.

Lemma increasing_cons k v k' v' l :
  increasing ((k, v) :: (k', v') :: l) = (k <? k') && increasing ((k', v') :: l).
Proof. done. Qed.

Lemma increasing_tail p l : increasing (p :: l) = true -> increasing l = true.
Proof.
  destruct p, l as [|[]]; [done|]. rewrite increasing_cons, andb_true_iff. by intros [_ ?].
Qed.

Lemma increasing_first l : ∀ k v j k' v', increasing ((k, v) :: l) = true ->
  l !! j = Some (k', v') -> k < k'.
Proof.
  induction l as [|[k1 v1] l IH]; [done|]. intros k v j k' v' Hs.
  rewrite increasing_cons in Hs. apply andb_true_iff in Hs as [Hlt%Z.ltb_lt Hs].
  destruct j as [|j]; simpl; [by intros [= -> ->]|].
  intros Hj. pose proof (IH _ _ _ _ _ Hs Hj). lia.
Qed.

Lemma increasing_lt l : ∀ i j k v k' v', increasing l = true -> (i < j)%nat ->
  l !! i = Some (k, v) -> l !! j = Some (k', v') -> k < k'.
Proof.
  induction l as [|[k1 v1] l IH]; [done|]. intros [|i] [|j] k v k' v' Hs Hlt; try lia; simpl.
  - intros [= -> ->]. by apply (increasing_first l k v j k' v').
  - intros Hi Hj. eapply (IH i j); [by eapply increasing_tail|lia|done..].
Qed.

Lemma value_of_found l : ∀ i k v, increasing l = true -> l !! i = Some (k, v) -> value_of l k = v.
Proof.
  induction l as [|[k1 v1] l IH]; [done|]. intros [|i] k v Hs; simpl.
  - intros [= -> ->]. by rewrite Z.eqb_refl.
  - intros Hi. pose proof (increasing_first _ _ _ _ _ _ Hs Hi).
    destruct (Z.eqb_spec k1 k); [lia|]. eapply IH; [by eapply increasing_tail|done].
Qed.

Lemma value_of_missing l key : (∀ i k v, l !! i = Some (k, v) -> k <> key) -> value_of l key = 0.
Proof.
  induction l as [|[k v] l IH]; [done|]. intros H. simpl.
  destruct (Z.eqb_spec k key); [by destruct (H 0%nat k v)|].
  apply IH. intros i. apply (H (S i)).
Qed.

Lemma value_of_in l key : value_of l key <> 0 -> ∃ i, l !! i = Some (key, value_of l key).
Proof.
  induction l as [|[k v] l IH]; [done|]. simpl.
  destruct (Z.eqb_spec k key) as [->|]; [by exists 0%nat|].
  intros [i ?]%IH. by exists (S i).
Qed.

(** ** Binary search *)

Section search.
Context (t : list Z) (start num c : Z).
Let l := pairs_at t start num.
Hypothesis Hok : searchable t start num = true.

Lemma searchable_facts : 0 <= start /\ 0 < num /\ zlen l = num /\ increasing l = true.
Proof.
  unfold searchable in Hok. rewrite !andb_true_iff, !Z.leb_le, Z.ltb_lt in Hok.
  destruct Hok as [[[]]]. repeat split; try done.
  unfold l, pairs_at. rewrite length_take, length_drop. lia.
Qed.

Lemma entry_item i : start <= i < start + num -> ∃ k v,
  l !! Z.to_nat (i - start) = Some (k, v) /\ item t (2 * i) = Some k /\ item t (2 * i + 1) = Some v.
Proof.
  intros Hi. pose proof searchable_facts as (? & ? & Hlen & _).
  destruct (lookup_lt_is_Some_2 l (Z.to_nat (i - start))) as [[k v] Hk]; [lia|].
  exists k, v. split; [done|]. apply item_pairs; [lia|].
  unfold l, pairs_at in Hk. apply lookup_take_Some in Hk as [Hk _]. rewrite lookup_drop in Hk.
  by replace (Z.to_nat start + Z.to_nat (i - start))%nat with (Z.to_nat i) in Hk by lia.
Qed.

(** Nothing outside of the pairs [p] to [q] has the key. *)
Definition outside (p q : Z) : Prop := ∀ i k v,
  l !! i = Some (k, v) -> ~ p <= start + Z.of_nat i <= q -> k <> c.

Lemma map_loop_finds fuel : ∀ p q, start <= p -> q < start + num -> (Z.to_nat (q - p + 1) < fuel)%nat ->
  outside p q -> map_loop fuel t p q c = Some (value_of l c).
Proof.
  pose proof searchable_facts as (_ & _ & Hlen & Hinc).
  induction fuel as [|fuel IH]; intros p q Hp Hq Hf Hout; [lia|]. simpl.
  destruct (Z.ltb_spec q p) as [Hqp|Hpq].
  { f_equal. symmetry. apply value_of_missing. intros i k v Hi. apply (Hout i k v Hi). lia. }
  rewrite Z.shiftr_div_pow2 by lia. change (2 ^ 1) with 2.
  set (d := p + (q - p) / 2).
  assert (p <= d <= q) by (unfold d; Z.to_euclidean_division_equations; lia).
  assert (q - d <= q - p /\ d - p <= q - p) by lia.
  destruct (entry_item d) as (k & v & Hd & Ek & Ev); [lia|]. rewrite Ek, Ev. cbn [mbind option_bind].
  assert (Hside : ∀ i k' v', l !! i = Some (k', v') ->
    (start + Z.of_nat i < d -> k' < k) /\ (d < start + Z.of_nat i -> k < k')).
  { intros i k' v' Hi. split; intros ?.
    - by apply (increasing_lt l i (Z.to_nat (d - start)) k' v' k v); [done|lia|..].
    - by apply (increasing_lt l (Z.to_nat (d - start)) i k v k' v'); [done|lia|..]. }
  destruct (Z.ltb_spec c k) as [?|?]; [|destruct (Z.ltb_spec k c) as [?|?]].
  - apply IH; [lia..|]. intros i k' v' Hi Hni.
    destruct (decide (p <= start + Z.of_nat i <= q)); [|by eapply Hout].
    destruct (Hside i k' v' Hi) as [_ Hgt].
    destruct (decide (start + Z.of_nat i = d)) as [Ed|]; [|specialize (Hgt ltac:(lia)); lia].
    replace (Z.to_nat (d - start)) with i in Hd by lia. rewrite Hi in Hd. injection Hd as -> ->. lia.
  - apply IH; [lia..|]. intros i k' v' Hi Hni.
    destruct (decide (p <= start + Z.of_nat i <= q)); [|by eapply Hout].
    destruct (Hside i k' v' Hi) as [Hlt' _].
    destruct (decide (start + Z.of_nat i = d)) as [Ed|]; [|specialize (Hlt' ltac:(lia)); lia].
    replace (Z.to_nat (d - start)) with i in Hd by lia. rewrite Hi in Hd. injection Hd as -> ->. lia.
  - f_equal. symmetry. assert (k = c) as -> by lia. by eapply value_of_found.
Qed.

Lemma search_finds :
  (first ← item t (2 * start);
   if c <? first then Some 0
   else
     last ← item t (2 * (start + num - 1));
     if last <? c then Some 0
     else map_loop (S (Z.to_nat num)) t start (start + (num - 1)) c) = Some (value_of l c).
Proof.
  pose proof searchable_facts as (? & ? & Hlen & Hinc).
  destruct (entry_item start) as (k & v & Hk & -> & _); [lia|].
  destruct (entry_item (start + num - 1)) as (k' & v' & Hk' & -> & _); [lia|].
  replace (start - start) with 0 in Hk by lia. change (Z.to_nat 0) with 0%nat in Hk.
  cbn [mbind option_bind]. destruct (Z.ltb_spec c k) as [E|?].
  { f_equal. symmetry. apply value_of_missing. intros i k1 v1 Hi ->.
    destruct i as [|i]; [rewrite Hk in Hi; injection Hi as <- <-; lia|].
    pose proof (increasing_lt l 0 (S i) _ _ _ _ Hinc ltac:(lia) Hk Hi). lia. }
  destruct (Z.ltb_spec k' c) as [E|?].
  - f_equal. symmetry. apply value_of_missing. intros i k1 v1 Hi ->.
    pose proof (lookup_lt_Some _ _ _ Hi).
    destruct (decide (i = Z.to_nat (start + num - 1 - start))) as [->|].
    + rewrite Hk' in Hi. injection Hi as <- <-. lia.
    + pose proof (increasing_lt l i (Z.to_nat (start + num - 1 - start)) _ _ _ _ Hinc ltac:(lia) Hi Hk'). lia.
  - apply map_loop_finds; [lia..|]. intros i k1 v1 Hi%lookup_lt_Some. lia.
Qed.
End search.

Lemma getmappedvalue16_finds t start num c : searchable t start num = true ->
  getmappedvalue16 t start num c = Some (value_of (pairs_at t start num) c).
Proof. intros. by apply search_finds. Qed.

Lemma getmappedvalue32_finds t start num c : searchable t start num = true ->
  getmappedvalue32 t start num c = Some (value_of (pairs_at t start num) c).
Proof. intros. by apply search_finds. Qed.

(** ** Bitmaps *)

(** The numbers of the bits that are set in bytes, from [base] on. *)
Definition byte_bits (base byte : Z) : list Z :=
  filter (λ c, Z.testbit byte (c - base) = true) (map (Z.add base) [0; 1; 2; 3; 4; 5; 6; 7]).

Fixpoint set_bits (base : Z) (bytes : list Z) : list Z :=
  match bytes with
  | [] => []
  | b :: bytes => byte_bits base b ++ set_bits (base + 8) bytes
  end.

(** The bits of the page [hi] whose entry in the bitmap is [value]. *)
Definition page_bits (bitmap : list Z) (hi value : Z) : list Z :=
  if (value =? 0) || (value =? 0xFF) then []
  else set_bits (256 * hi) (take 32 (drop (Z.to_nat ((value - 1) * 32 + 256)) bitmap)).

(** The characters of a bitmap that are set one by one, from page [hi] on, and the full pages. *)
Fixpoint listed (bitmap : list Z) (hi : Z) (pages : list Z) : list Z :=
  match pages with
  | [] => []
  | value :: pages => page_bits bitmap hi value ++ listed bitmap (hi + 1) pages
  end.

Fixpoint full_pages (hi : Z) (pages : list Z) : list Z :=
  match pages with
  | [] => []
  | value :: pages => (if value =? 0xFF then [hi] else []) ++ full_pages (hi + 1) pages
  end.

Lemma byte_bits_in base byte i : 0 <= i < 8 -> Z.testbit byte i = true -> base + i ∈ byte_bits base byte.
Proof.
  intros Hi Hb. apply list_elem_of_filter. split; [by replace (base + i - base) with i by lia|].
  apply list_elem_of_fmap. exists i. split; [done|].
  apply list_elem_of_In. simpl. lia.
Qed.

Lemma set_bits_in bytes : ∀ base j b i, bytes !! j = Some b -> 0 <= i < 8 -> Z.testbit b i = true ->
  base + 8 * Z.of_nat j + i ∈ set_bits base bytes.
Proof.
  induction bytes as [|b0 bytes IH]; [done|]. intros base [|j] b i; simpl.
  - intros [= ->] ? ?. apply elem_of_app. left.
    replace (base + 8 * Z.of_nat 0 + i) with (base + i) by lia. by apply byte_bits_in.
  - intros Hj ? ?. apply elem_of_app. right.
    replace (base + 8 * Z.of_nat (S j) + i) with (base + 8 + 8 * Z.of_nat j + i) by lia. by eapply IH.
Qed.

Lemma listed_in bitmap pages : ∀ hi j value c, pages !! j = Some value ->
  c ∈ page_bits bitmap (hi + Z.of_nat j) value -> c ∈ listed bitmap hi pages.
Proof.
  induction pages as [|v pages IH]; [done|]. intros hi [|j] value c; simpl.
  - intros [= ->] Hc. rewrite Z.add_0_r in Hc. set_solver.
  - intros Hj Hc. apply elem_of_app. right. eapply IH; [done|].
    by replace (hi + 1 + Z.of_nat j) with (hi + Z.of_nat (S j)) by lia.
Qed.

Lemma full_pages_in pages : ∀ hi j, pages !! j = Some 0xFF -> hi + Z.of_nat j ∈ full_pages hi pages.
Proof.
  induction pages as [|v pages IH]; [done|]. intros hi [|j]; simpl.
  - intros [= ->]. rewrite Z.add_0_r. simpl. set_solver.
  - intros Hj. apply elem_of_app. right. apply (IH (hi + 1)) in Hj.
    by replace (hi + Z.of_nat (S j)) with (hi + 1 + Z.of_nat j) by lia.
Qed.

(** Pages whose bytes are all in the bitmap. *)
Definition pages_inside (bitmap : list Z) : bool :=
  (256 <=? zlen bitmap)
  && forallb (λ value, (0 <=? value) && ((value =? 0) || (value =? 0xFF) || (value * 32 + 256 <=? zlen bitmap)))
       (take 256 bitmap).

(** A character with its page and its bit. *)
Lemma page_of c : in_range 16 c ->
  Z.shiftr c 8 &&& 0xFF = c / 256 /\ c &&& 0xFF = c mod 256 /\ 0 <= c / 256 < 256 /\
  c = 256 * (c / 256) + 8 * ((c mod 256) / 8) + c mod 8 /\ 0 <= (c mod 256) / 8 < 32 /\ 0 <= c mod 8 < 8.
Proof.
  unfold in_range. intros H. change 0xFF with (Z.ones 8). rewrite !Z.land_ones, Z.shiftr_div_pow2 by lia.
  change (2 ^ 8) with 256. change (2 ^ 16) with 65536 in H.
  assert (0 <= c / 256 < 256) by (Z.to_euclidean_division_equations; lia).
  rewrite (Z.mod_small (c / 256)) by lia.
  repeat split; try lia; Z.to_euclidean_division_equations; lia.
Qed.

(** What the two reads of a bitmap find: both are inside of it. *)
Lemma in_bitmap_reads bitmap c : in_range 16 c -> pages_inside bitmap = true -> ∃ value b,
  bitmap !! Z.to_nat (c / 256) = Some value /\ 0 <= value /\ in_bitmap bitmap c = Some b /\
  (b = true -> value = 0xFF \/ value <> 0 /\ value <> 0xFF /\ ∃ byte,
     bitmap !! (Z.to_nat ((value - 1) * 32 + 256) + Z.to_nat ((c mod 256) / 8))%nat = Some byte /\
     Z.testbit byte (c mod 8) = true).
Proof.
  intros (E1 & E2 & Hhi & _ & Hj & Hi)%page_of Hin.
  unfold pages_inside in Hin. apply andb_true_iff in Hin as [Hlen%Z.leb_le Hin]. rewrite forallb_forall in Hin.
  destruct (item_inside bitmap (c / 256)) as (value & Hv & Ev); [lia|].
  assert (Hok : In value (take 256 bitmap)).
  { apply list_elem_of_In, list_elem_of_lookup_2 with (Z.to_nat (c / 256)). by rewrite lookup_take_lt by lia. }
  apply Hin in Hok. rewrite andb_true_iff, !orb_true_iff, !Z.leb_le, !Z.eqb_eq in Hok.
  exists value. unfold in_bitmap. rewrite E1, E2, Ev. cbn [mbind option_bind].
  destruct (Z.eqb_spec value 0xFF) as [Hff|Hff]; [exists true; split_and!; try done || lia; by left|].
  destruct (truth value) eqn:Ht; [apply truth_true in Ht|by exists false; split_and!; try lia].
  destruct (item_inside bitmap ((value - 1) * 32 + 256 + (c mod 256) / 8)) as (byte & Hb & ->); [lia|].
  eexists. split; [done|]. split; [lia|]. split; [done|]. intros Hbit. right.
  rewrite Z.shiftl_1_l, truth_land_bit in Hbit by lia. split; [done|]. split; [done|]. exists byte. split; [|done].
  rewrite <- Hb. f_equal. lia.
Qed.

Lemma in_bitmap_listed bitmap c : in_range 16 c -> pages_inside bitmap = true ->
  in_bitmap bitmap c = Some true ->
  c ∈ listed bitmap 0 (take 256 bitmap) \/ c / 256 ∈ full_pages 0 (take 256 bitmap).
Proof.
  intros Hc Hin Hb. destruct (in_bitmap_reads bitmap c Hc Hin) as (value & b & Hv & Hv0 & E & Hbit).
  rewrite Hb in E. injection E as <-. apply page_of in Hc as (_ & _ & Hhi & Ec & Hj & Hi).
  assert (Hp : take 256 bitmap !! Z.to_nat (c / 256) = Some value) by (by rewrite lookup_take_lt by lia).
  destruct (Hbit eq_refl) as [->|(H0 & Hff & byte & Hbyte & Hset)].
  { right. apply (full_pages_in _ 0) in Hp. by rewrite Z2Nat.id in Hp by lia. }
  left. eapply (listed_in bitmap _ 0); [done|].
  unfold page_bits. rewrite (proj2 (Z.eqb_neq value 0)), (proj2 (Z.eqb_neq value 0xFF)) by done. cbn [orb].
  rewrite Z2Nat.id, Z.add_0_l by lia. rewrite Ec at 1.
  rewrite <- (Z2Nat.id ((c mod 256) / 8)) by lia.
  apply (set_bits_in _ _ _ byte); [|done..].
  rewrite lookup_take_lt by lia. by rewrite lookup_drop.
Qed.

(** ** Properties of characters *)

Lemma bitmaps_inside :
  pages_inside __CFUniCharCombiningBitmap = true /\ pages_inside __CFUniCharDecomposableBitmap = true.
Proof. by vm_compute. Qed.

(** The pages of the classes are inside of their table. *)
Lemma class_pages :
  forallb (λ value, (0 <=? value) && (value * 256 + 255 <? zlen __CFUniCharCombiningPropertyBitmap))
    (take 256 __CFUniCharCombiningPropertyBitmap) = true /\
  (256 <=? zlen __CFUniCharCombiningPropertyBitmap) = true.
Proof. by vm_compute. Qed.

(** What the tables say of a character of 16 bits. *)
Definition combinable (c : Z) : bool := default false (unicode_combinable c).
Definition decomposeable (c : Z) : bool := default false (unicode_decomposeable c).
Definition combining_class (c : Z) : Z := default 0 (get_combining_class c).

(** They are read inside of the tables, for every character. *)
Lemma combinable_read c : unicode_combinable c = Some (combinable c).
Proof.
  unfold combinable, unicode_combinable. destruct (_ <? _); [done|].
  destruct (in_bitmap_reads __CFUniCharCombiningBitmap (u16 c)) as (? & b & _ & _ & -> & _);
    [by apply wrap_range|apply bitmaps_inside|done].
Qed.

Lemma decomposeable_read c : unicode_decomposeable c = Some (decomposeable c).
Proof.
  unfold decomposeable, unicode_decomposeable. destruct (_ <? _); [done|].
  destruct (in_bitmap_reads __CFUniCharDecomposableBitmap (u16 c)) as (? & b & _ & _ & -> & _);
    [by apply wrap_range|apply bitmaps_inside|done].
Qed.

Lemma class_read c : get_combining_class c = Some (combining_class c).
Proof.
  unfold combining_class, get_combining_class. pose proof (wrap_range 16 c ltac:(lia)) as Hc.
  set (ch := u16 c) in *. unfold in_range in Hc. rewrite Z.shiftr_div_pow2 by lia. change (2 ^ 8) with 256.
  assert (Hp : 0 <= ch / 256 < 256) by (Z.to_euclidean_division_equations; lia).
  destruct class_pages as [Hok Hlen%Z.leb_le]. rewrite forallb_forall in Hok.
  destruct (item_inside __CFUniCharCombiningPropertyBitmap (ch / 256)) as (value & Hv & ->); [lia|].
  cbn [mbind option_bind]. destruct (truth value); [|done].
  assert (Hin : In value (take 256 __CFUniCharCombiningPropertyBitmap)).
  { apply list_elem_of_In, list_elem_of_lookup_2 with (Z.to_nat (ch / 256)). by rewrite lookup_take_lt by lia. }
  apply Hok in Hin. rewrite andb_true_iff, Z.leb_le, Z.ltb_lt in Hin. pose proof (Z.mod_pos_bound ch 256).
  by destruct (item_inside __CFUniCharCombiningPropertyBitmap (value * 256 + ch mod 256)) as (x & _ & ->); [lia|].
Qed.

Lemma decomposeable_low c : 0 <= c < 0x00C0 -> decomposeable c = false.
Proof.
  intros Hc. unfold decomposeable, unicode_decomposeable. rewrite wrap_small by (unfold in_range; lia).
  by rewrite (proj2 (Z.ltb_lt c _)) by lia.
Qed.

End UtfTables.
