(* ===== verification/UtfDecompose.v ===== *)
(** Decomposition and composition of characters: what one knows of the decomposition of every
    character, and that composition is undone by decomposition. *)

From S2P Require Import Prelude.
From S2P Require Import UtfData.
From S2P Require Import Utf.
From S2P Require Import UtfTables.
Import UtfData.UtfData Utf.Utf UtfTables.UtfTables.

Module UtfDecompose.

(** ** The decompositions *)

Definition entries : list (Z * Z) := pairs_of __CFUniCharDecompositionTable.

(** The characters of the decomposition described by [value]. *)
Fixpoint expand_value (fuel : nat) (value : Z) : option (list Z) :=
  match fuel with
  | 0%nat => None
  | S fuel =>
      let length := EXTRACT_COUNT value in
      let firstChar := value &&& 0x0FFF in
      let bmpMappings :=
        if length =? 1 then [firstChar]
        else drop (Z.to_nat firstChar) __CFUniCharMultipleDecompositionTable in
      if truth (value &&& RECURSIVE_DECOMPOSITION) then
        first ← head bmpMappings;
        used ← expand_value fuel (value_of entries first);
        if (zlen used =? 0) then Some []
        else more ← copy (u32 (length - 1)) (drop 1 bmpMappings); Some (used ++ more)
      else copy length bmpMappings
  end.

Lemma entries_searchable :
  searchable __CFUniCharDecompositionTable 0 __UniCharDecompositionTableLength = true /\
  __UniCharDecompositionTableLength = 970 /\ zlen entries = 970.
Proof. by vm_compute. Qed.

Lemma entries_all : pairs_at __CFUniCharDecompositionTable 0 __UniCharDecompositionTableLength = entries.
Proof.
  destruct entries_searchable as (_ & -> & E). unfold pairs_at. change (Z.to_nat 0) with 0%nat.
  rewrite drop_0. apply take_ge. unfold entries in *. lia.
Qed.

Lemma decomposition_value c :
  getmappedvalue16 __CFUniCharDecompositionTable 0 __UniCharDecompositionTableLength c
  = Some (value_of entries c).
Proof. rewrite <- entries_all. apply getmappedvalue16_finds, entries_searchable. Qed.

Lemma recursive_decompose_value fuel : ∀ c,
  unicode_recursive_decompose fuel c = expand_value fuel (value_of entries c).
Proof.
  induction fuel as [|fuel IH]; intros c; [done|].
  cbn [unicode_recursive_decompose expand_value]. rewrite decomposition_value. cbn [mbind option_bind].
  destruct (truth _); [|done]. destruct (head _) as [first|]; [|done].
  cbn [mbind option_bind]. by rewrite IH.
Qed.

(** A character that no part of the code treats in a special way. *)
Definition ordinary (c : Z) : bool :=
  (0 <? c) && (c <? 0xFFFE) && negb (c =? 0x2f) && negb (c =? UCS_ALT_NULL)
  && negb ((SP_HIGH_FIRST <=? c) && (c <=? SP_LOW_LAST)).

(** A decomposition that is complete and short, and a base with its marks when the character is no
    mark. *)
Definition complete (c : Z) (sequence : list Z) : bool :=
  forallb (λ u, ordinary u && negb (decomposeable u)) sequence
  && match sequence with
     | h :: t => (zlen t <=? (if c <? 0x800 then 2 else 3)) && (combinable c || (negb (combinable h) && forallb combinable t))
     | [] => false
     end.

Definition entry_ok (entry : Z * Z) : bool :=
  match expand_value decompose_depth entry.2 with
  | Some sequence => complete entry.1 sequence
  | None => false
  end.

Lemma entries_ok : forallb entry_ok entries = true.
Proof. vm_compute. reflexivity. Qed.

(** ** Characters that decompose *)

(** The syllables that are composed by arithmetic. *)
Definition hangul (c : Z) : bool := (HANGUL_SBASE <=? c) && (c <? HANGUL_SBASE + HANGUL_SCOUNT).

Lemma decomposable_pages :
  forallb (λ page, (0xAC <=? page) && (page <? 0xD7)) (full_pages 0 (take 256 __CFUniCharDecomposableBitmap))
  = true.
Proof. by vm_compute. Qed.

Lemma decomposable_listed :
  filter (λ c, hangul c = false) (listed __CFUniCharDecomposableBitmap 0 (take 256 __CFUniCharDecomposableBitmap))
  = entries.*1.
Proof. vm_compute. reflexivity. Qed.

(** The bitmap of the characters with a decomposition agrees with the table and the syllables. *)
Lemma decomposeable_cases c : in_range 16 c -> decomposeable c = true ->
  hangul c = true \/ ∃ v, (c, v) ∈ entries.
Proof.
  intros Hc Hd. pose proof (decomposeable_read c) as Hin. rewrite Hd in Hin.
  unfold unicode_decomposeable in Hin. rewrite wrap_small in Hin by done.
  destruct (c <? 0x00C0); [done|].
  destruct (hangul c) eqn:Hh; [by left|right].
  apply in_bitmap_listed in Hin as [Hin|Hin]; [|exfalso|done|apply bitmaps_inside].
  - assert (Hk : c ∈ entries.*1).
    { rewrite <- decomposable_listed. by apply list_elem_of_filter. }
    apply list_elem_of_fmap in Hk as [[k v] [-> ?]]. by exists v.
  - pose proof decomposable_pages as Hp. rewrite forallb_forall in Hp.
    apply list_elem_of_In, Hp in Hin. rewrite andb_true_iff, Z.leb_le, Z.ltb_lt in Hin.
    unfold hangul, HANGUL_SBASE, HANGUL_SCOUNT in Hh.
    rewrite andb_false_iff, Z.leb_gt, Z.ltb_ge in Hh. Z.to_euclidean_division_equations. lia.
Qed.

(** The numbers from [first] on, [count] of them. *)
Lemma forallb_range (P : Z -> bool) first count c :
  forallb P (seqZ first count) = true -> first <= c < first + count -> P c = true.
Proof. rewrite forallb_forall. intros H ?. apply H, list_elem_of_In, elem_of_seqZ. lia. Qed.

(** The parts of syllables. *)
Lemma jamo_ordinary c : 0x1100 <= c < 0x1200 -> ordinary c = true.
Proof.
  intros. unfold ordinary, UCS_ALT_NULL, SP_HIGH_FIRST, SP_LOW_LAST.
  rewrite !andb_true_iff, !negb_true_iff, !Z.ltb_lt, !Z.eqb_neq, andb_false_iff, !Z.leb_gt. lia.
Qed.

Lemma jamo_final c : 0x1100 <= c < 0x1100 + 256 -> decomposeable c = false.
Proof.
  intros Hc. apply negb_true_iff. revert Hc.
  apply (forallb_range (λ c, negb (decomposeable c))). by vm_compute.
Qed.

Lemma leading_base c : HANGUL_LBASE <= c < HANGUL_LBASE + HANGUL_LCOUNT -> combinable c = false.
Proof.
  intros Hc. apply negb_true_iff. revert Hc.
  apply (forallb_range (λ c, negb (combinable c))). by vm_compute.
Qed.

Lemma vowel_combines c : HANGUL_VBASE <= c < HANGUL_TBASE + HANGUL_TCOUNT -> 
  c < HANGUL_VBASE + HANGUL_VCOUNT \/ HANGUL_TBASE < c -> combinable c = true.
Proof.
  intros Hc Hg.
  assert (H : (HANGUL_VBASE + HANGUL_VCOUNT <=? c) && (c <=? HANGUL_TBASE) || combinable c = true).
  { revert Hc. change (HANGUL_TBASE + HANGUL_TCOUNT) with (HANGUL_VBASE + 98).
    apply (forallb_range (λ c, (HANGUL_VBASE + HANGUL_VCOUNT <=? c) && (c <=? HANGUL_TBASE) || combinable c)).
    by vm_compute. }
  apply orb_true_iff in H as [H|H]; [|done]. rewrite andb_true_iff, !Z.leb_le in H. lia.
Qed.

(** The parts of syllable number [s]. *)
Definition leading (s : Z) : Z := s / HANGUL_NCOUNT + HANGUL_LBASE.
Definition vowel (s : Z) : Z := (s mod HANGUL_NCOUNT) / HANGUL_TCOUNT + HANGUL_VBASE.
Definition trailing (s : Z) : list Z :=
  if truth (s mod HANGUL_TCOUNT) then [s mod HANGUL_TCOUNT + HANGUL_TBASE] else [].

Lemma hangul_range c : hangul c = true -> 0 <= c - HANGUL_SBASE < HANGUL_SCOUNT.
Proof. unfold hangul. rewrite andb_true_iff, Z.leb_le, Z.ltb_lt. lia. Qed.

Lemma part_ranges s : 0 <= s < HANGUL_SCOUNT ->
  HANGUL_LBASE <= leading s < HANGUL_LBASE + HANGUL_LCOUNT /\
  HANGUL_VBASE <= vowel s < HANGUL_VBASE + HANGUL_VCOUNT /\
  Forall (λ t, HANGUL_TBASE < t < HANGUL_TBASE + HANGUL_TCOUNT) (trailing s).
Proof.
  unfold leading, vowel, trailing. unfold HANGUL_NCOUNT, HANGUL_VCOUNT, HANGUL_TCOUNT, HANGUL_SCOUNT,
    HANGUL_LBASE, HANGUL_LCOUNT, HANGUL_VBASE, HANGUL_TBASE.
  change (21 * 28) with 588. intros H.
  split; [Z.to_euclidean_division_equations; lia|]. split; [Z.to_euclidean_division_equations; lia|].
  destruct (truth (s mod 28)) eqn:E; [|done]. apply truth_true in E.
  repeat constructor; pose proof (Z.mod_pos_bound s 28 ltac:(lia)); lia.
Qed.

Lemma hangul_decompose c : hangul c = true ->
  into_sequence c = Some ([leading (c - HANGUL_SBASE); vowel (c - HANGUL_SBASE)] ++ trailing (c - HANGUL_SBASE)).
Proof.
  intros H%hangul_range. unfold into_sequence, unicode_decompose.
  rewrite (proj2 (Z.leb_le HANGUL_SBASE c)), (proj2 (Z.leb_le c (HANGUL_SBASE + HANGUL_SCOUNT))) by lia.
  cbn [andb]. rewrite wrap_small by (unfold in_range, HANGUL_SCOUNT in *; lia).
  unfold trailing, leading, vowel. set (s := c - HANGUL_SBASE).
  by destruct (truth (s mod HANGUL_TCOUNT)).
Qed.

Lemma hangul_complete c : hangul c = true ->
  complete c ([leading (c - HANGUL_SBASE); vowel (c - HANGUL_SBASE)] ++ trailing (c - HANGUL_SBASE)) = true.
Proof.
  intros H%hangul_range. destruct (part_ranges _ H) as (Hl & Hv & Ht).
  assert (Hp : ∀ u, HANGUL_LBASE <= u < HANGUL_LBASE + 256 ->
    ordinary u && negb (decomposeable u) = true).
  { unfold HANGUL_LBASE. intros u Hu. rewrite jamo_ordinary, jamo_final by lia. done. }
  rewrite List.Forall_forall in Ht.
  assert (Hm : ∀ u, In u (vowel (c - HANGUL_SBASE) :: trailing (c - HANGUL_SBASE)) ->
    HANGUL_VBASE <= u < HANGUL_TBASE + HANGUL_TCOUNT /\ (u < HANGUL_VBASE + HANGUL_VCOUNT \/ HANGUL_TBASE < u)).
  { unfold HANGUL_VBASE, HANGUL_VCOUNT, HANGUL_TBASE, HANGUL_TCOUNT in *.
    intros u [<-|Hu]; [|apply Ht in Hu]; lia. }
  unfold complete. apply andb_true_iff. split; [|apply andb_true_iff; split].
  - apply forallb_forall. intros u Hu. apply Hp.
    unfold HANGUL_LBASE, HANGUL_LCOUNT, HANGUL_VBASE, HANGUL_TBASE, HANGUL_TCOUNT in *.
    destruct Hu as [<-|Hu]; [lia|]. apply Hm in Hu. lia.
  - unfold HANGUL_SBASE, HANGUL_SCOUNT in H. rewrite (proj2 (Z.ltb_ge c _)) by lia.
    simpl. unfold trailing. by destruct (truth _).
  - apply orb_true_iff. right. rewrite leading_base by done. apply forallb_forall.
    intros u Hu. by apply vowel_combines; apply Hm.
Qed.

(** ** Every character that decomposes *)

Lemma entry_range :
  forallb (λ entry, negb ((HANGUL_SBASE <=? entry.1) && (entry.1 <=? HANGUL_SBASE + HANGUL_SCOUNT))) entries
  = true.
Proof. by vm_compute. Qed.

Lemma entry_decompose c v : (c, v) ∈ entries -> unicode_decompose c = expand_value decompose_depth v.
Proof.
  intros Hv. pose proof entry_range as Hr. rewrite forallb_forall in Hr.
  pose proof (Hr _ (proj1 (list_elem_of_In _ _) Hv)) as Hh. cbn [fst] in Hh. apply negb_true_iff in Hh.
  unfold unicode_decompose. rewrite Hh, recursive_decompose_value. f_equal.
  apply list_elem_of_lookup in Hv as [i Hi]. eapply value_of_found; [|done].
  pose proof entries_searchable as [Hs _]. apply searchable_facts in Hs as (_ & _ & _ & Hs).
  by rewrite entries_all in Hs.
Qed.

(** The array that a decomposition is stored in is large enough, and the decomposition is a complete
    one: its characters do not decompose. *)
Lemma decompose_complete c : in_range 16 c -> decomposeable c = true ->
  ∃ h t, into_sequence c = Some (h :: t) /\ complete c (h :: t) = true.
Proof.
  intros Hc Hd. destruct (decomposeable_cases c Hc Hd) as [Hh|[v Hv]].
  - do 2 eexists. split; [by apply hangul_decompose|by apply hangul_complete].
  - pose proof entries_ok as Hok. rewrite forallb_forall in Hok.
    specialize (Hok _ (proj1 (list_elem_of_In _ _) Hv)). unfold entry_ok in Hok. cbn [fst snd] in Hok.
    rewrite <- (entry_decompose c v Hv) in Hok. unfold into_sequence.
    destruct (unicode_decompose c) as [[|h t]|] eqn:E; [by apply andb_true_iff in Hok as [_ ?]| |done].
    exists h, t. split; [|done]. cbn [mbind option_bind].
    unfold complete in Hok. rewrite !andb_true_iff, Z.leb_le in Hok.
    rewrite (proj2 (Z.leb_le _ _)); [done|]. simpl. destruct (c <? 0x800); lia.
Qed.

(** The full decomposition of a character: itself when it has none. *)
Definition decomposition (c : Z) : list Z :=
  if decomposeable c then default [] (into_sequence c) else [c].

Lemma decomposition_into c : in_range 16 c -> decomposeable c = true ->
  into_sequence c = Some (decomposition c) /\ complete c (decomposition c) = true.
Proof.
  intros Hc Hd. destruct (decompose_complete c Hc Hd) as (h & t & E & ?).
  unfold decomposition. by rewrite Hd, E.
Qed.

Lemma decomposition_self c : decomposeable c = false -> decomposition c = [c].
Proof. unfold decomposition. by intros ->. Qed.

(** ** Composition *)

Definition sources : list (Z * Z) := pairs_of __CFUniCharPrecompSourceTable.

(** The bases that compose with the mark whose entry is [value]. *)
Definition bases (value : Z) : list (Z * Z) :=
  pairs_at __CFUniCharBMPPrecompDestinationTable (value &&& 0xFFFF) (Z.shiftr value 16).

(** Decomposing the composite gives what the base and the mark decompose to.  The mathematical
    operators that are struck out with U+0338 have no decomposition in the tables. *)
Definition composite_ok (base combining composite : Z) : Prop :=
  decomposition composite = decomposition base ++ decomposition combining \/
  (combining = 0x338 /\ decomposition composite = [composite]).

#[global] Instance composite_ok_dec base combining composite : Decision (composite_ok base combining composite).
Proof. unfold composite_ok. apply _. Defined.

Definition source_ok (source : Z * Z) : bool :=
  searchable __CFUniCharBMPPrecompDestinationTable (source.2 &&& 0xFFFF) (Z.shiftr source.2 16)
  && forallb (λ entry, bool_decide (in_range 16 entry.2) && bool_decide (composite_ok entry.1 source.1 entry.2))
       (bases source.2).

Lemma sources_ok : forallb source_ok sources = true.
Proof. vm_compute. reflexivity. Qed.

Lemma sources_searchable :
  searchable __CFUniCharPrecompSourceTable 0 __CFUniCharPrecompositionTableLength = true /\
  pairs_at __CFUniCharPrecompSourceTable 0 __CFUniCharPrecompositionTableLength = sources.
Proof. by vm_compute. Qed.

(** What composition may answer. *)
Definition composed (base combining composite : Z) : Prop :=
  in_range 16 composite /\ (composite = 0 \/ composite_ok base combining composite).

(** The composite of the tables: the value of the base in the list of the mark, 0 for none. *)
Definition table_composite (base combining : Z) : Z := value_of (bases (value_of sources combining)) base.

Lemma table_reads base combining :
  (value ← getmappedvalue32 __CFUniCharPrecompSourceTable 0 __CFUniCharPrecompositionTableLength combining;
   if truth value then
     getmappedvalue16 __CFUniCharBMPPrecompDestinationTable (value &&& 0xFFFF) (Z.shiftr value 16) base
   else Some value) = Some (table_composite base combining) /\
  composed base combining (table_composite base combining).
Proof.
  rewrite getmappedvalue32_finds by apply sources_searchable.
  rewrite (proj2 sources_searchable). cbn [mbind option_bind]. unfold table_composite.
  destruct (truth (value_of sources combining)) eqn:Ht.
  2:{ apply truth_false in Ht. rewrite Ht. split; [done|]. split; [done|by left]. }
  apply truth_true, value_of_in in Ht as [i Hi].
  pose proof sources_ok as Hok. rewrite forallb_forall in Hok.
  apply list_elem_of_lookup_2, list_elem_of_In, Hok in Hi. apply andb_true_iff in Hi as [Hs Hb]. cbn [snd fst] in *.
  rewrite getmappedvalue16_finds by done. fold (bases (value_of sources combining)).
  split; [done|]. destruct (decide (value_of (bases (value_of sources combining)) base = 0)) as [->|Hn].
  { split; [done|by left]. }
  apply value_of_in in Hn as [j Hj]. rewrite forallb_forall in Hb.
  apply list_elem_of_lookup_2, list_elem_of_In, Hb in Hj. rewrite andb_true_iff, !bool_decide_eq_true in Hj.
  destruct Hj. split; [done|by right].
Qed.

Lemma hangul_pages :
  forallb (λ hi, bool_decide (item __CFUniCharDecomposableBitmap hi = Some 0xFF)) (seqZ 0xAC 43) = true.
Proof. by vm_compute. Qed.

Lemma hangul_last : forallb decomposeable (seqZ 0xD700 0xA4) = true.
Proof. by vm_compute. Qed.

Lemma hangul_decomposeable c : hangul c = true -> decomposeable c = true.
Proof.
  intros H%hangul_range. unfold HANGUL_SBASE, HANGUL_SCOUNT in H.
  destruct (decide (0xD700 <= c)).
  - by apply (forallb_range _ 0xD700 0xA4); [apply hangul_last|lia].
  - destruct (page_of c) as (E & _ & Hp & Ec & _); [unfold in_range; lia|].
    pose proof (forallb_range _ _ _ (c / 256) hangul_pages) as Hpage. rewrite bool_decide_eq_true in Hpage.
    unfold decomposeable, unicode_decomposeable. rewrite wrap_small by (unfold in_range; lia).
    rewrite (proj2 (Z.ltb_ge c _)) by lia. unfold in_bitmap. rewrite E, Hpage; [done|].
    pose proof (Z.mod_pos_bound c 256). pose proof (Z.div_mod c 256). lia.
Qed.

Lemma decomposition_hangul c : hangul c = true ->
  decomposition c = [leading (c - HANGUL_SBASE); vowel (c - HANGUL_SBASE)] ++ trailing (c - HANGUL_SBASE).
Proof. intros H. unfold decomposition. by rewrite hangul_decomposeable, hangul_decompose. Qed.

(** A leading consonant and a vowel. *)
Lemma pair_composes base combining :
  HANGUL_LBASE <= base < HANGUL_LBASE + HANGUL_LCOUNT -> HANGUL_VBASE <= combining < HANGUL_VBASE + HANGUL_VCOUNT ->
  composed base combining (HANGUL_SBASE + (base - HANGUL_LBASE) * (HANGUL_VCOUNT * HANGUL_TCOUNT)
                           + (combining - HANGUL_VBASE) * HANGUL_TCOUNT).
Proof.
  intros Hb Hv. unfold HANGUL_LBASE, HANGUL_LCOUNT, HANGUL_VBASE, HANGUL_VCOUNT, HANGUL_SBASE, HANGUL_TCOUNT in *.
  set (s := (base - 4352) * (21 * 28) + (combining - 4449) * 28).
  replace (44032 + _ + _) with (44032 + s) by (unfold s; lia).
  assert (Hs : 0 <= s < 11172) by (unfold s; lia).
  split; [unfold in_range; lia|]. right. left.
  rewrite (decomposition_self base), (decomposition_self combining) by (apply jamo_final; lia).
  rewrite decomposition_hangul by (unfold hangul, HANGUL_SBASE, HANGUL_SCOUNT; lia).
  replace (44032 + s - HANGUL_SBASE) with s by (unfold HANGUL_SBASE; lia).
  unfold leading, vowel, trailing, HANGUL_NCOUNT, HANGUL_VCOUNT, HANGUL_TCOUNT, HANGUL_LBASE, HANGUL_VBASE.
  change (21 * 28) with 588 in *.
  replace (s mod 28) with 0 by (unfold s; Z.to_euclidean_division_equations; lia). simpl.
  replace (s / 588) with (base - 4352) by (unfold s; Z.to_euclidean_division_equations; lia).
  replace (s mod 588) with ((combining - 4449) * 28) by (unfold s; Z.to_euclidean_division_equations; lia).
  rewrite Z.div_mul by lia. by rewrite !Z.sub_add.
Qed.

(** A syllable without trailing consonant and a trailing consonant. *)
Lemma syllable_composes base combining : hangul base = true -> (base - HANGUL_SBASE) mod HANGUL_TCOUNT = 0 ->
  HANGUL_TBASE < combining < HANGUL_TBASE + HANGUL_TCOUNT ->
  composed base combining (base + (combining - HANGUL_TBASE)).
Proof.
  intros Hb Hm Ht. pose proof (hangul_range _ Hb) as Hr.
  unfold HANGUL_TBASE, HANGUL_TCOUNT, HANGUL_SBASE, HANGUL_SCOUNT in *.
  set (s := base - 44032) in *. set (t := combining - 4519).
  assert (Hs : 0 <= s + t < 11172) by (unfold t; Z.to_euclidean_division_equations; lia).
  split; [unfold in_range; lia|]. right. left.
  rewrite (decomposition_self combining) by (apply jamo_final; lia).
  rewrite !decomposition_hangul by (unfold hangul, HANGUL_SBASE, HANGUL_SCOUNT in *; lia).
  replace (base + t - HANGUL_SBASE) with (s + t) by (unfold s, HANGUL_SBASE; lia).
  replace (base - HANGUL_SBASE) with s by done.
  unfold leading, vowel, trailing, HANGUL_NCOUNT, HANGUL_VCOUNT, HANGUL_TCOUNT, HANGUL_LBASE, HANGUL_VBASE, HANGUL_TBASE.
  change (21 * 28) with 588 in *. rewrite Hm.
  replace ((s + t) mod 28) with t by (unfold t in *; Z.to_euclidean_division_equations; lia).
  replace ((s + t) / 588) with (s / 588) by (unfold t in *; Z.to_euclidean_division_equations; lia).
  replace (((s + t) mod 588) / 28) with ((s mod 588) / 28) by (unfold t in *; Z.to_euclidean_division_equations; lia).
  rewrite (proj2 (truth_true t)) by lia. simpl. by replace (t + 4519) with combining by lia.
Qed.

(** The parts of syllables: leading consonants, vowels and trailing consonants, and the syllables
    that end with the vowel. *)
Definition is_leading (c : Z) : bool := (HANGUL_LBASE <=? c) && (c <? HANGUL_LBASE + HANGUL_LCOUNT).
Definition is_vowel (c : Z) : bool := (HANGUL_VBASE <=? c) && (c <? HANGUL_VBASE + HANGUL_VCOUNT).
Definition is_trailing (c : Z) : bool := (HANGUL_TBASE <? c) && (c <? HANGUL_TBASE + HANGUL_TCOUNT).
Definition open_syllable (c : Z) : bool := hangul c && ((c - HANGUL_SBASE) mod HANGUL_TCOUNT =? 0).

(** What two characters compose to, 0 for nothing: syllables by arithmetic, the others by a look at
    the lists of the tables. *)
Definition composite_of (base combining : Z) : Z :=
  if is_leading base && is_vowel combining then
    HANGUL_SBASE + ((base - HANGUL_LBASE) * HANGUL_VCOUNT + (combining - HANGUL_VBASE)) * HANGUL_TCOUNT
  else if open_syllable base && is_trailing combining then base + (combining - HANGUL_TBASE)
  else table_composite base combining.

(** No trailing consonant is in the tables. *)
Lemma trailing_not_listed combining : is_trailing combining = true -> ∀ base, table_composite base combining = 0.
Proof.
  unfold is_trailing, HANGUL_TBASE, HANGUL_TCOUNT. rewrite andb_true_iff, !Z.ltb_lt. intros Hc base.
  assert (H : forallb (λ c, value_of sources c =? 0) (seqZ 0x11A8 27) = true) by (by vm_compute).
  apply (forallb_range _ _ _ combining) in H; [|lia]. apply Z.eqb_eq in H. unfold table_composite. by rewrite H.
Qed.

Lemma unicode_combine_composes base combining :
  unicode_combine base combining = Some (composite_of base combining) /\
  composed base combining (composite_of base combining).
Proof.
  destruct (table_reads base combining) as [Ht Hc].
  unfold unicode_combine. rewrite Ht. clear Ht. unfold composite_of, open_syllable.
  fold (is_leading base). fold (hangul base).
  destruct ((HANGUL_VBASE <=? combining) && (combining <? HANGUL_TBASE + HANGUL_TCOUNT)) eqn:Erange.
  2:{ assert (is_vowel combining = false /\ is_trailing combining = false) as [-> ->].
      { unfold is_vowel, is_trailing, HANGUL_VBASE, HANGUL_TBASE, HANGUL_TCOUNT, HANGUL_VCOUNT in *.
        rewrite andb_false_iff, Z.leb_gt, Z.ltb_ge in Erange. rewrite !andb_false_iff, Z.leb_gt, !Z.ltb_ge. lia. }
      by rewrite !andb_false_r. }
  apply andb_true_iff in Erange as [Hlo Hhi].
  replace (combining <? HANGUL_VBASE + HANGUL_VCOUNT) with (is_vowel combining) by (unfold is_vowel; by rewrite Hlo).
  replace (HANGUL_TBASE <? combining) with (is_trailing combining)
    by (unfold is_trailing; by rewrite Hhi, andb_true_r).
  rewrite (andb_comm (is_vowel _)), (andb_comm (is_trailing _)).
  destruct (is_leading base && is_vowel combining) eqn:Epair.
  { unfold is_leading, is_vowel in Epair. rewrite !andb_true_iff, !Z.leb_le, !Z.ltb_lt in Epair.
    replace (HANGUL_SBASE + (_ + _) * HANGUL_TCOUNT) with (HANGUL_SBASE + (base - HANGUL_LBASE)
      * (HANGUL_VCOUNT * HANGUL_TCOUNT) + (combining - HANGUL_VBASE) * HANGUL_TCOUNT) by lia.
    split; [done|]. apply pair_composes; lia. }
  destruct (hangul base) eqn:Eh; cbn [andb]; [|done].
  destruct (is_trailing combining) eqn:Et; [|by rewrite andb_false_r]. rewrite andb_true_r.
  destruct (Z.eqb_spec ((base - HANGUL_SBASE) mod HANGUL_TCOUNT) 0) as [Em|Em].
  - rewrite Em. split; [done|]. unfold is_trailing in Et. rewrite andb_true_iff, !Z.ltb_lt in Et.
    apply syllable_composes; done || lia.
  - rewrite (proj2 (truth_true _)) by done. rewrite trailing_not_listed by done. split; [done|]. split; [done|by left].
Qed.

(** Every character that the bitmap says to decompose has a decomposition of one to
    four characters, so that it fits the array of eight that the callers have; it is complete, that
    is none of its characters decomposes again; none of them is a slash, a null, its replacement,
    half of a surrogate pair or a value that is no character; and, unless the character is itself a
    mark, it is a base followed by marks.  For the Hangul syllables this is arithmetic. *)
Theorem decompose_correct c (Hc : in_range 16 c) (Hd : decomposeable c = true) :
  ∃ base marks, unicode_decompose c = Some (base :: marks) /\ (length marks <= 3)%nat /\
    Forall (λ u, ordinary u = true /\ decomposeable u = false) (base :: marks) /\
    (combinable c = false ->
     combinable base = false /\ Forall (λ u, combinable u = true) marks).
Proof.
  destruct (decompose_complete c Hc Hd) as (h & t & E & Hok). exists h, t.
  unfold into_sequence in E. destruct (unicode_decompose c) as [sequence|]; [|done].
  cbn [mbind option_bind] in E. destruct (_ <=? 8); [|done]. injection E as ->.
  unfold complete in Hok. rewrite !andb_true_iff, orb_true_iff, andb_true_iff, !forallb_forall, Z.leb_le in Hok.
  destruct Hok as (Hall & Hlen & Hmarks). split; [done|]. split; [destruct (c <? 0x800); lia|]. split.
  - apply List.Forall_forall. intros u Hu%Hall. by rewrite andb_true_iff, negb_true_iff in Hu.
  - intros Hn. rewrite Hn in Hmarks. destruct Hmarks as [?|[Hh%negb_true_iff ?]]; [done|].
    split; [done|]. by apply List.Forall_forall.
Qed.

Lemma decompose_correct_witness : ∃ base marks,
  unicode_decompose 0x1E69 = Some (base :: marks) /\ (length marks <= 3)%nat /\
    Forall (λ u, ordinary u = true /\ decomposeable u = false) (base :: marks) /\
    (combinable 0x1E69 = false ->
     combinable base = false /\ Forall (λ u, combinable u = true) marks).
Proof. apply (decompose_correct 0x1E69); by vm_compute. Defined.

(** C37 (equivalence): composing two characters reads only inside of the tables and gives exactly what
    [composite_of] says: a leading consonant and a vowel the syllable of the two, a syllable without
    trailing consonant and a trailing one the syllable with it, and any other two the value of the
    base in the list of the mark, found by a look through the tables one after the other, or 0 when
    they are not listed.  A composite is equivalent to the two: its full decomposition is that of
    the base followed by that of the mark, except for the mathematical operators struck out with
    U+0338, which the tables of decomposition leave out. *)
Theorem combine_correct base combining :
  let composite := composite_of base combining in
  unicode_combine base combining = Some composite /\ in_range 16 composite /\
    (composite <> 0 ->
     decomposition composite = decomposition base ++ decomposition combining \/
     combining = 0x338 /\ decomposition composite = [composite]).
Proof.
  intros composite. destruct (unicode_combine_composes base combining) as (E & Hr & Hok).
  split; [done|]. split; [done|]. intros Hn. by destruct Hok.
Qed.

(** A base of the tables, and the two ways to a syllable. *)
Example composites :
  unicode_combine 0x65 0x301 = Some 0xE9 /\ unicode_combine 0x1100 0x1161 = Some 0xAC00 /\
  unicode_combine 0xAC00 0x11A8 = Some 0xAC01 /\ unicode_combine 0xAC01 0x11A8 = Some 0.
Proof. by vm_compute. Qed.

(** A composite that does not decompose. *)
Example struck_out_stays :
  unicode_combine 0x3C 0x338 = Some 0x226E /\ unicode_decomposeable 0x226E = Some false.
Proof. by vm_compute. Qed.

End UtfDecompose.
