(* ===== verification/UtfSort.v ===== *)
(** The canonical order of combining characters: [priortysort] ends and sorts stably by class.

    [priortysort] is an exchange sort whose passes remember the class of the neighbour and not of
    the character that moved, so that a pass may leave inversions.  It only ever exchanges
    neighbours that are out of order, which does not change what a stable sort gives and lowers the
    number of inversions; and a pass without exchange has compared all neighbours. *)

From S2P Require Import Prelude.
From S2P Require Import UtfData.
From S2P Require Import Utf.
From S2P Require Import UtfTables.
Import UtfData.UtfData Utf.Utf UtfTables.UtfTables.

Module UtfSort.

(** ** Stable sorting by a key *)

Section stable.
Context {A : Type} (key : A -> Z).

Fixpoint insert_by (x : A) (l : list A) : list A :=
  match l with
  | [] => [x]
  | y :: l' => if key x <=? key y then x :: l else y :: insert_by x l'
  end.

Fixpoint stable_sort (l : list A) : list A :=
  match l with
  | [] => []
  | x :: l => insert_by x (stable_sort l)
  end.

Definition ordered (x y : A) : Prop := key x <= key y.

Lemma insert_perm x l : insert_by x l ≡ₚ x :: l.
Proof.
  induction l as [|y l IH]; [done|]. simpl. destruct (_ <=? _); [done|].
  rewrite IH. apply Permutation_swap.
Qed.

Lemma stable_sort_perm l : stable_sort l ≡ₚ l.
Proof. induction l as [|x l IH]; [done|]. simpl. by rewrite insert_perm, IH. Qed.

Lemma insert_sorted x l : StronglySorted ordered l -> StronglySorted ordered (insert_by x l).
Proof.
  induction 1 as [|y l Hs IH Hy]; [by repeat constructor|]. simpl.
  destruct (Z.leb_spec (key x) (key y)) as [Hle|Hlt].
  - constructor; [by constructor|]. constructor; [done|].
    eapply Forall_impl; [done|]. unfold ordered. intros; lia.
  - constructor; [done|]. rewrite insert_perm. constructor; [unfold ordered; lia|done].
Qed.

Lemma stable_sort_sorted l : StronglySorted ordered (stable_sort l).
Proof. induction l; [constructor|]. by apply insert_sorted. Qed.

(** Elements that are out of order may come in either order. *)
Lemma insert_swap x y l : key y < key x -> insert_by x (insert_by y l) = insert_by y (insert_by x l).
Proof.
  intros H. induction l as [|z l IH]; simpl.
  - destruct (Z.leb_spec (key x) (key y)), (Z.leb_spec (key y) (key x)); try lia; done.
  - destruct (Z.leb_spec (key y) (key z)), (Z.leb_spec (key x) (key z)); simpl;
      destruct (Z.leb_spec (key x) (key y)), (Z.leb_spec (key y) (key x)); simpl;
      destruct (Z.leb_spec (key y) (key z)), (Z.leb_spec (key x) (key z)); try lia; try done.
    by rewrite IH.
Qed.

Lemma insert_first x l : Forall (ordered x) l -> insert_by x l = x :: l.
Proof.
  destruct 1 as [|y l Hy]; [done|]. simpl. unfold ordered in Hy. by rewrite (proj2 (Z.leb_le _ _)).
Qed.

Lemma stable_sort_id l : StronglySorted ordered l -> stable_sort l = l.
Proof. induction 1 as [|x l _ IH Hx]; [done|]. simpl. rewrite IH. by apply insert_first. Qed.

(** The elements with one key keep their order. *)
Lemma insert_keeps k x l : StronglySorted ordered l ->
  filter (λ y, key y = k) (insert_by x l) = filter (λ y, key y = k) (x :: l).
Proof.
  induction 1 as [|y l Hs IH Hy]; [done|]. simpl insert_by.
  destruct (Z.leb_spec (key x) (key y)) as [|Hlt]; [done|].
  rewrite !filter_cons, IH, filter_cons.
  destruct (decide (key y = k)), (decide (key x = k)); try done. lia.
Qed.

Lemma stable_sort_keeps k l :
  filter (λ y, key y = k) (stable_sort l) = filter (λ y, key y = k) l.
Proof.
  induction l as [|x l IH]; [done|]. simpl stable_sort.
  rewrite insert_keeps, !filter_cons, IH by apply stable_sort_sorted. done.
Qed.

(** ** Inversions *)

(** The elements behind [x] that should be before it. *)
Fixpoint below (x : A) (l : list A) : nat :=
  match l with
  | [] => 0
  | y :: l => (if key y <? key x then 1 else 0) + below x l
  end.

Fixpoint inversions (l : list A) : nat :=
  match l with
  | [] => 0
  | x :: l => below x l + inversions l
  end.

Lemma below_perm x l l' : l ≡ₚ l' -> below x l = below x l'.
Proof. induction 1; simpl; lia. Qed.

Lemma below_bound x l : (below x l <= length l)%nat.
Proof. induction l as [|y l IH]; simpl; [done|]. destruct (_ <? _); lia. Qed.

Lemma inversions_bound l : (inversions l <= length l * length l)%nat.
Proof. induction l as [|x l IH]; simpl; [done|]. pose proof (below_bound x l). nia. Qed.

Lemma inversions_swap x y l : key y < key x ->
  inversions (x :: y :: l) = S (inversions (y :: x :: l)).
Proof.
  intros H. simpl. rewrite (proj2 (Z.ltb_lt _ _)) by done.
  rewrite (proj2 (Z.ltb_ge (key x) (key y))) by lia. lia.
Qed.
End stable.

(** ** The passes *)

Abbreviation class := combining_class.
Abbreviation canonical := (stable_sort class).

(** A pass: nothing is lost, inversions go, and without a change the characters are in order. *)
Lemma sort_pass_correct rest : ∀ p2 ch1, p2 <= class ch1 -> ∃ sorted changes,
  sort_pass p2 ch1 rest = Some (sorted, changes) /\
  canonical sorted = canonical (ch1 :: rest) /\
  (inversions class sorted <= inversions class (ch1 :: rest))%nat /\
  (if changes then (inversions class sorted < inversions class (ch1 :: rest))%nat
   else sorted = ch1 :: rest /\ (p2 = class ch1 -> Sorted (ordered class) (ch1 :: rest))).
Proof.
  induction rest as [|ch2 rest IH]; intros p2 ch1 Hp.
  { do 2 eexists. split; [done|]. split; [done|]. split; [done|]. split; [done|]. intros _.
    by repeat constructor. }
  simpl sort_pass. rewrite class_read. cbn [mbind option_bind]. destruct (Z.ltb_spec (class ch2) p2) as [Hlt|Hge].
  - specialize (IH (class ch2) ch1 ltac:(lia)).
    destruct IH as (sorted & changes & -> & Hc & Hinv & _). cbn [mbind option_bind].
    do 2 eexists. split; [done|].
    assert (Hperm : sorted ≡ₚ ch1 :: rest).
    { by rewrite <- (stable_sort_perm class sorted), Hc, stable_sort_perm. }
    assert (Hdrop : (inversions class (ch2 :: sorted) < inversions class (ch1 :: ch2 :: rest))%nat).
    { rewrite inversions_swap by lia. apply Nat.lt_succ_r.
      change (below class ch2 sorted + inversions class sorted
              <= below class ch2 (ch1 :: rest) + inversions class (ch1 :: rest))%nat.
      rewrite (below_perm class ch2 _ _ Hperm). lia. }
    split; [|split; [lia|done]].
    change (insert_by class ch2 (canonical sorted) = canonical (ch1 :: ch2 :: rest)). rewrite Hc. simpl.
    symmetry. apply insert_swap. lia.
  - specialize (IH (class ch2) ch2 ltac:(lia)).
    destruct IH as (sorted & changes & -> & Hc & Hinv & Hch). cbn [mbind option_bind].
    do 2 eexists. split; [done|].
    assert (Hperm : sorted ≡ₚ ch2 :: rest).
    { by rewrite <- (stable_sort_perm class sorted), Hc, stable_sort_perm. }
    split; [|split].
    + change (insert_by class ch1 (canonical sorted) = insert_by class ch1 (canonical (ch2 :: rest))). by rewrite Hc.
    + change (below class ch1 sorted + inversions class sorted
              <= below class ch1 (ch2 :: rest) + inversions class (ch2 :: rest))%nat.
      rewrite (below_perm class ch1 _ _ Hperm). lia.
    + destruct changes.
      * change (below class ch1 sorted + inversions class sorted
                < below class ch1 (ch2 :: rest) + inversions class (ch2 :: rest))%nat.
        rewrite (below_perm class ch1 _ _ Hperm). lia.
      * destruct Hch as [-> Hs]. split; [done|]. intros ->.
        constructor; [by apply Hs|]. constructor. done.
Qed.

Lemma sort_loop_correct fuel : ∀ characters, characters <> [] -> (inversions class characters < fuel)%nat ->
  sort_loop fuel characters = Some (canonical characters).
Proof.
  induction fuel as [|fuel IH]; intros characters Hne Hf; [lia|].
  destruct characters as [|ch1 rest]; [done|]. simpl sort_loop.
  destruct (sort_pass_correct rest (class ch1) ch1 ltac:(lia)) as (sorted & changes & E & Hc & _ & Hch).
  rewrite class_read. cbn [mbind option_bind]. rewrite E. cbn [mbind option_bind]. clear E. destruct changes.
  - rewrite IH; [by rewrite Hc| |lia]. intros ->.
    pose proof (stable_sort_perm class (ch1 :: rest)) as Hp. rewrite <- Hc in Hp.
    by apply Permutation_nil_cons in Hp.
  - destruct Hch as [-> Hs]. f_equal. symmetry. apply stable_sort_id.
    apply Sorted_StronglySorted; [|by apply Hs]. intros x y z. unfold ordered. lia.
Qed.

Lemma priortysort_canonical characters : characters <> [] ->
  priortysort characters = Some (canonical characters).
Proof.
  intros Hne. apply sort_loop_correct; [done|].
  pose proof (inversions_bound class characters). lia.
Qed.

(** C38 (termination): sorting at least one character ends, in at most one pass more than the square
    of their number, and gives the same characters in the order of their combining classes, those of
    one class in the order in which they were: the canonical order of a run of marks.  The classes are
    those that [get_combining_class] reads, inside of its table for every character. *)
Theorem priortysort_stable characters (Hsome : characters <> []) : ∃ sorted,
  priortysort characters = Some sorted /\ sorted ≡ₚ characters /\
  StronglySorted (ordered combining_class) sorted /\
  ∀ k, filter (λ ch, combining_class ch = k) sorted = filter (λ ch, combining_class ch = k) characters.
Proof.
  exists (canonical characters). split; [by apply priortysort_canonical|]. split; [apply stable_sort_perm|].
  split; [apply stable_sort_sorted|]. intros k. apply stable_sort_keeps.
Qed.

Lemma priortysort_stable_witness : ∃ sorted,
  priortysort [0x301; 0x315; 0x323; 0x300; 0x316] = Some sorted /\ sorted ≡ₚ [0x301; 0x315; 0x323; 0x300; 0x316] /\
  StronglySorted (ordered combining_class) sorted /\
  ∀ k, filter (λ ch, combining_class ch = k) sorted
       = filter (λ ch, combining_class ch = k) [0x301; 0x315; 0x323; 0x300; 0x316].
Proof. apply (priortysort_stable [0x301; 0x315; 0x323; 0x300; 0x316]). done. Defined.

End UtfSort.
