(* ===== verification/UtfSpec.v ===== *)
(** UTF-8 and UTF-16 as encodings of characters: what the conversions are to compute.

    A character is a number; [utf8_of] and [utf16_of] are its encodings by arithmetic.  The switch
    of the decoders reads exactly the encodings of characters. *)

From S2P Require Import Prelude.
From S2P Require Import UtfData.
From S2P Require Import Utf.
From S2P Require Import UtfTables.
Import UtfData.UtfData Utf.Utf UtfTables.UtfTables.

Module UtfSpec.

(** ** Encodings *)

(** A character: not half of a surrogate pair, and not one of the two values that the code refuses. *)
Definition character (c : Z) : Prop :=
  (0 <= c < 0xD800 \/ 0xE000 <= c < 0x110000) /\ c <> 0xFFFE /\ c <> 0xFFFF.

#[global] Instance character_dec c : Decision (character c).
Proof. unfold character. apply _. Defined.

Definition utf8_of (c : Z) : list Z :=
  if c <? 0x80 then [c]
  else if c <? 0x800 then [0xC0 + c / 2 ^ 6; 0x80 + c mod 2 ^ 6]
  else if c <? 0x10000 then [0xE0 + c / 2 ^ 12; 0x80 + (c / 2 ^ 6) mod 2 ^ 6; 0x80 + c mod 2 ^ 6]
  else [0xF0 + c / 2 ^ 18; 0x80 + (c / 2 ^ 12) mod 2 ^ 6; 0x80 + (c / 2 ^ 6) mod 2 ^ 6; 0x80 + c mod 2 ^ 6].

Definition utf16_of (c : Z) : list Z :=
  if c <? 0x10000 then [c] else [0xD800 + (c - 0x10000) / 2 ^ 10; 0xDC00 + c mod 2 ^ 10].

Definition utf8 (cs : list Z) : list Z := flat_map utf8_of cs.
Definition utf16 (cs : list Z) : list Z := flat_map utf16_of cs.

(** The bytes of a string before its null. *)
Fixpoint upto_nul (l : list Z) : list Z :=
  match l with
  | [] => []
  | b :: l => if b =? 0 then [] else b :: upto_nul l
  end.

Ltac div_lia := Z.to_euclidean_division_equations; lia.

(** The shapes of an encoding. *)
Lemma utf8_of_cases c : 0 <= c < 0x110000 ->
  (c < 0x80 /\ utf8_of c = [c]) \/
  (0x80 <= c < 0x800 /\ ∃ x y, utf8_of c = [0xC0 + x; 0x80 + y] /\ c = 64 * x + y /\ 2 <= x < 32 /\ 0 <= y < 64) \/
  (0x800 <= c < 0x10000 /\ ∃ x y z, utf8_of c = [0xE0 + x; 0x80 + y; 0x80 + z] /\
     c = 4096 * x + 64 * y + z /\ 0 <= x < 16 /\ 0 <= y < 64 /\ 0 <= z < 64) \/
  (0x10000 <= c /\ ∃ x y z t, utf8_of c = [0xF0 + x; 0x80 + y; 0x80 + z; 0x80 + t] /\
     c = 262144 * x + 4096 * y + 64 * z + t /\ 0 <= x < 5 /\ 0 <= y < 64 /\ 0 <= z < 64 /\ 0 <= t < 64).
Proof.
  intros Hc. unfold utf8_of.
  change (2 ^ 6) with 64. change (2 ^ 12) with 4096. change (2 ^ 18) with 262144.
  destruct (Z.ltb_spec c 0x80); [left; done|right].
  destruct (Z.ltb_spec c 0x800).
  { left. split; [done|]. exists (c / 64), (c mod 64). split; [done|]. div_lia. }
  right. destruct (Z.ltb_spec c 0x10000).
  - left. split; [done|]. exists (c / 4096), ((c / 64) mod 64), (c mod 64). split; [done|]. div_lia.
  - right. split; [done|]. exists (c / 262144), ((c / 4096) mod 64), ((c / 64) mod 64), (c mod 64).
    split; [done|]. div_lia.
Qed.

Lemma utf8_of_bytes c : 0 <= c < 0x110000 -> Forall byte_ok (utf8_of c).
Proof.
  intros Hc. unfold byte_ok, in_range.
  destruct (utf8_of_cases c Hc) as [[? ->]|[(? & x & y & -> & ?)|[(? & x & y & z & -> & ?)|(? & x & y & z & t & -> & ?)]]];
    repeat constructor; lia.
Qed.

Lemma utf8_of_nonzero c : 0 < c < 0x110000 -> Forall (λ b, b <> 0) (utf8_of c).
Proof.
  intros Hc. destruct (utf8_of_cases c) as [[? ->]|[(? & x & y & -> & ?)|[(? & x & y & z & -> & ?)|(? & x & y & z & t & -> & ?)]]];
    [lia|..]; repeat constructor; lia.
Qed.

Lemma utf8_of_length c : 0 <= c < 0x110000 ->
  zlen (utf8_of c) = if c <? 0x80 then 1 else if c <? 0x800 then 2 else if c <? 0x10000 then 3 else 4.
Proof. intros Hc. unfold utf8_of. repeat (destruct (_ <? _); [done|]). done. Qed.

Lemma character_range c : character c -> 0 <= c < 0x110000.
Proof. unfold character. lia. Qed.

(** No encoding is the beginning of another one. *)
Lemma utf8_prefix_free c c' r r' : 0 <= c < 0x110000 -> 0 <= c' < 0x110000 ->
  utf8_of c ++ r = utf8_of c' ++ r' -> c = c' /\ r = r'.
Proof.
  intros Hc Hc'.
  destruct (utf8_of_cases c Hc) as [[? ->]|[(? & x & y & -> & ?)|[(? & x & y & z & -> & ?)|(? & x & y & z & t & -> & ?)]]];
  destruct (utf8_of_cases c' Hc') as [[? ->]|[(? & x' & y' & -> & ?)|[(? & x' & y' & z' & -> & ?)|(? & x' & y' & z' & t' & -> & ?)]]];
    simpl; intros E; injection E; intros; try (exfalso; lia); split; try done; lia.
Qed.

(** ** The bytes of a character *)

Lemma continues_iff b : 0 <= b -> continues b = true <-> 0x80 <= b < 0xC0.
Proof.
  intros. unfold continues. rewrite Z.eqb_eq, Z.shiftr_div_pow2 by lia. change (2 ^ 6) with 64.
  div_lia.
Qed.

Lemma continues_byte x : 0 <= x < 64 -> continues (0x80 + x) = true.
Proof. intros. apply continues_iff; lia. Qed.

(** How many bytes follow a first byte. *)
Definition extra_bytes (b : Z) : Z :=
  if b <? 0xC0 then -1 else if b <? 0xE0 then 1 else if b <? 0xF0 then 2 else if b <? 0xF8 then 3 else -1.

Lemma extra_bytes_read b : 0x80 <= b < 0x100 -> item utf_extrabytes (Z.shiftr b 3) = Some (extra_bytes b).
Proof.
  intros Hb. rewrite Z.shiftr_div_pow2 by lia. change (2 ^ 3) with 8.
  assert (H : forallb (λ b, bool_decide (item utf_extrabytes (b / 8) = Some (extra_bytes b))) (seqZ 0x80 0x80) = true)
    by (by vm_compute).
  rewrite forallb_forall in H. eapply bool_decide_eq_true, H, list_elem_of_In, elem_of_seqZ. lia.
Qed.

Ltac small_wrap := repeat rewrite (wrap_small 32) by (unfold in_range; lia).

Lemma shift_6 b : Z.shiftl b 6 = b * 64.
Proof. by rewrite Z.shiftl_mul_pow2. Qed.

(** What the decoders make of a character. *)
Definition read (c : Z) (rest : list Z) : sequence :=
  if c <? 0x10000 then Char c rest else Pair (c - 0x10000) rest.

Lemma u32_small z : 0 <= z < 2 ^ 32 -> u32 z = z.
Proof. intros. by apply wrap_small. Qed.

Ltac open_sequence := unfold decode_sequence; cbn [Z.eqb Pos.eqb mbind option_bind next].

(** The three forms of the switch, on any bytes of the right classes. *)
Lemma decode_two x y rest : 0 <= x < 32 -> 0 <= y < 64 ->
  decode_sequence 1 (0xC0 + x) (0x80 + y :: rest) =
  Some (if 64 * x + y <? 0x80 then Escape else Char (64 * x + y) rest).
Proof.
  intros. open_sequence. rewrite continues_byte, shift_6 by lia. simpl.
  rewrite (u32_small ((192 + x) * 64)), (u32_small (_ + (128 + y))) by lia.
  replace (_ - 12416) with (64 * x + y) by lia. rewrite u32_small by lia. by destruct (_ <? _).
Qed.

Lemma decode_three x y z rest : 0 <= x < 16 -> 0 <= y < 64 -> 0 <= z < 64 ->
  let c := 4096 * x + 64 * y + z in
  decode_sequence 2 (0xE0 + x) (0x80 + y :: 0x80 + z :: rest) =
  Some (if c <? 0x800 then Escape
        else if (0xD800 <=? c) && ((c <=? 0xDFFF) || (c =? 0xFFFE) || (c =? 0xFFFF)) then Escape
        else Char c rest).
Proof.
  intros Hx Hy Hz c. open_sequence.
  rewrite !continues_byte, !shift_6 by lia. cbn [negb].
  assert (0 <= c < 65536) by (unfold c; lia).
  rewrite (u32_small ((224 + x) * 64)) by lia.
  rewrite (u32_small ((224 + x) * 64 + (128 + y))) by lia.
  rewrite (u32_small (_ * 64)) by lia. rewrite (u32_small (_ + (128 + z))) by lia.
  replace (_ - 925824) with c by (unfold c; lia). rewrite u32_small by lia.
  destruct (c <? 2048); [done|]. by destruct (_ && _).
Qed.

Lemma decode_four x y z t rest : 0 <= x < 8 -> 0 <= y < 64 -> 0 <= z < 64 -> 0 <= t < 64 ->
  let c := 262144 * x + 4096 * y + 64 * z + t in
  decode_sequence 3 (0xF0 + x) (0x80 + y :: 0x80 + z :: 0x80 + t :: rest) =
  Some (if (c <? 0x10000) || (0x10FFFF <? c) then Escape else Pair (c - 0x10000) rest).
Proof.
  intros Hx Hy Hz Ht c. open_sequence.
  rewrite !continues_byte, !shift_6 by lia. cbn [negb].
  assert (0 <= c < 2097152) by (unfold c; lia).
  rewrite (u32_small ((240 + x) * 64)) by lia.
  rewrite (u32_small ((240 + x) * 64 + (128 + y))) by lia.
  rewrite (u32_small (((240 + x) * 64 + (128 + y)) * 64)) by lia.
  rewrite (u32_small (_ + (128 + z))) by lia.
  rewrite (u32_small (_ * 64)) by lia. rewrite (u32_small (_ + (128 + t))) by lia.
  replace (_ - _) with (c - 65536) by (unfold c, SP_HALF_BASE; lia).
  rewrite Z.shiftr_div_pow2 by (unfold SP_HALF_SHIFT; lia).
  unfold SP_HALF_SHIFT, SP_HIGH_FIRST, SP_HIGH_LAST. change (2 ^ 10) with 1024. unfold wrap.
  destruct (Z.ltb_spec c 0x10000); simpl.
  - replace ((c - 65536) mod 2 ^ 32) with (c - 65536 + 2 ^ 32)
      by (rewrite <- (Z_mod_plus_full _ 1), Z.mod_small; lia).
    rewrite (proj2 (Z.ltb_ge _ _)), (proj2 (Z.ltb_lt 56319 _)) by div_lia. done.
  - rewrite Z.mod_small by lia.
    destruct (Z.ltb_spec 0x10FFFF c); simpl.
    + rewrite (proj2 (Z.ltb_lt 56319 _)) by div_lia. by rewrite orb_true_r.
    + rewrite !(proj2 (Z.ltb_ge _ _)) by div_lia. done.
Qed.

(** The encoding of a character is read as that character. *)
Lemma decode_sequence_char c b extra rest : character c -> utf8_of c = b :: extra -> extra <> [] ->
  extra_bytes b = zlen extra /\
  decode_sequence (zlen extra) b (extra ++ rest) = Some (read c rest).
Proof.
  intros Hc E Hne. pose proof (character_range c Hc) as Hr. unfold character in Hc. unfold read.
  destruct (utf8_of_cases c Hr) as [[? Hu]|[(? & x & y & Hu & ?)|[(? & x & y & z & Hu & ?)|(? & x & y & z & t & Hu & ?)]]];
    rewrite Hu in E; injection E as <- <-; [done|..]; unfold extra_bytes; cbn [length app].
  - rewrite (proj2 (Z.ltb_ge (192 + x) 192)), (proj2 (Z.ltb_lt (192 + x) 224)) by lia. split; [done|].
    change (Z.of_nat 1) with 1. rewrite decode_two by lia. replace (64 * x + y) with c by lia.
    by rewrite (proj2 (Z.ltb_ge c 128)), (proj2 (Z.ltb_lt c 65536)) by lia.
  - rewrite (proj2 (Z.ltb_ge (224 + x) 192)), (proj2 (Z.ltb_ge (224 + x) 224)), (proj2 (Z.ltb_lt (224 + x) 240)) by lia.
    split; [done|]. change (Z.of_nat 2) with 2. rewrite decode_three by lia. cbv zeta.
    replace (4096 * x + 64 * y + z) with c by lia.
    rewrite (proj2 (Z.ltb_ge c 2048)), (proj2 (Z.ltb_lt c 65536)) by lia.
    destruct (Z.leb_spec 0xD800 c); [|done]. cbn [andb].
    by rewrite (proj2 (Z.leb_gt _ _)), !(proj2 (Z.eqb_neq _ _)) by lia.
  - rewrite (proj2 (Z.ltb_ge (240 + x) 192)), (proj2 (Z.ltb_ge (240 + x) 224)), (proj2 (Z.ltb_ge (240 + x) 240)),
      (proj2 (Z.ltb_lt (240 + x) 248)) by lia.
    split; [done|]. change (Z.of_nat 3) with 3. rewrite decode_four by lia. cbv zeta.
    replace (262144 * x + 4096 * y + 64 * z + t) with c by lia.
    by rewrite (proj2 (Z.ltb_ge c 65536)), (proj2 (Z.ltb_ge 1114111 c)) by lia.
Qed.

(** What was read is a character, and its bytes were its encoding. *)
Definition reads (bytes : list Z) (r : sequence) : Prop :=
  match r with
  | Escape => True
  | Char c rest => character c /\ 0x80 <= c < 0x10000 /\ bytes = utf8_of c ++ rest
  | Pair ch rest => character (ch + 0x10000) /\ 0 <= ch < 0x100000 /\ bytes = utf8_of (ch + 0x10000) ++ rest
  | Default => False
  end.

Lemma continuation y : byte_ok y -> continues y = true -> ∃ y', y = 0x80 + y' /\ 0 <= y' < 64.
Proof. intros [Hy _] Hc%continues_iff; [|done]. exists (y - 0x80). lia. Qed.

Lemma two_reads b rest : 0xC0 <= b < 0xE0 -> Forall byte_ok rest -> 1 <= zlen rest ->
  ∃ r, decode_sequence 1 b rest = Some r /\ reads (b :: rest) r.
Proof.
  intros Hb Hr Hl. destruct rest as [|y rest]; [simpl in Hl; lia|]. apply Forall_cons in Hr as [Hy _].
  destruct (continues y) eqn:Ey.
  2:{ exists Escape. split; [|done]. open_sequence. by rewrite Ey. }
  apply continuation in Ey as (y' & -> & ?); [|done].
  replace b with (0xC0 + (b - 0xC0)) by lia. set (x := b - 0xC0). assert (0 <= x < 32) by (unfold x; lia).
  rewrite decode_two by lia. eexists. split; [done|].
  destruct (Z.ltb_spec (64 * x + y') 0x80); [done|]. simpl. unfold character.
  split; [lia|]. split; [lia|]. unfold utf8_of.
  rewrite (proj2 (Z.ltb_ge _ 128)), (proj2 (Z.ltb_lt _ 2048)) by lia. simpl.
  change (Z.pow_pos 2 6) with 64. repeat f_equal; div_lia.
Qed.

Lemma three_reads b rest : 0xE0 <= b < 0xF0 -> Forall byte_ok rest -> 2 <= zlen rest ->
  ∃ r, decode_sequence 2 b rest = Some r /\ reads (b :: rest) r.
Proof.
  intros Hb Hr Hl. destruct rest as [|y [|z rest]]; [simpl in Hl; lia..|].
  apply Forall_cons in Hr as [Hy Hr]. apply Forall_cons in Hr as [Hz _].
  destruct (continues y) eqn:Ey.
  2:{ exists Escape. split; [|done]. open_sequence. by rewrite Ey. }
  destruct (continues z) eqn:Ez.
  2:{ exists Escape. split; [|done]. open_sequence. by rewrite Ey, Ez. }
  apply continuation in Ey as (y' & -> & ?); [|done]. apply continuation in Ez as (z' & -> & ?); [|done].
  replace b with (0xE0 + (b - 0xE0)) by lia. set (x := b - 0xE0). assert (0 <= x < 16) by (unfold x; lia).
  rewrite decode_three by lia. cbv zeta. eexists. split; [done|].
  set (c := 4096 * x + 64 * y' + z'). destruct (Z.ltb_spec c 0x800); [done|].
  destruct (_ && _) eqn:E; [done|]. simpl.
  rewrite andb_false_iff, !orb_false_iff, !Z.leb_gt, !Z.eqb_neq in E.
  unfold character. split; [unfold c in *; lia|]. split; [unfold c in *; lia|]. unfold utf8_of.
  rewrite (proj2 (Z.ltb_ge _ 128)), (proj2 (Z.ltb_ge _ 2048)), (proj2 (Z.ltb_lt _ 65536)) by (unfold c in *; lia).
  simpl. change (Z.pow_pos 2 6) with 64. change (Z.pow_pos 2 12) with 4096. unfold c. repeat f_equal; div_lia.
Qed.

Lemma four_reads b rest : 0xF0 <= b < 0xF8 -> Forall byte_ok rest -> 3 <= zlen rest ->
  ∃ r, decode_sequence 3 b rest = Some r /\ reads (b :: rest) r.
Proof.
  intros Hb Hr Hl. destruct rest as [|y [|z [|t rest]]]; [simpl in Hl; lia..|].
  apply Forall_cons in Hr as [Hy Hr]. apply Forall_cons in Hr as [Hz Hr]. apply Forall_cons in Hr as [Ht _].
  destruct (continues y) eqn:Ey.
  2:{ exists Escape. split; [|done]. open_sequence. by rewrite Ey. }
  destruct (continues z) eqn:Ez.
  2:{ exists Escape. split; [|done]. open_sequence. by rewrite Ey, Ez. }
  destruct (continues t) eqn:Et.
  2:{ exists Escape. split; [|done]. open_sequence. by rewrite Ey, Ez, Et. }
  apply continuation in Ey as (y' & -> & ?); [|done]. apply continuation in Ez as (z' & -> & ?); [|done].
  apply continuation in Et as (t' & -> & ?); [|done].
  replace b with (0xF0 + (b - 0xF0)) by lia. set (x := b - 0xF0). assert (0 <= x < 8) by (unfold x; lia).
  rewrite decode_four by lia. cbv zeta. eexists. split; [done|].
  set (c := 262144 * x + 4096 * y' + 64 * z' + t').
  destruct (Z.ltb_spec c 0x10000); [done|]. destruct (Z.ltb_spec 0x10FFFF c); [done|]. cbn [orb reads].
  rewrite Z.sub_add. unfold character. split; [lia|]. split; [lia|]. unfold utf8_of.
  rewrite (proj2 (Z.ltb_ge _ 128)), (proj2 (Z.ltb_ge _ 2048)), (proj2 (Z.ltb_ge _ 65536)) by lia.
  change (2 ^ 6) with 64. change (2 ^ 12) with 4096. change (2 ^ 18) with 262144. unfold c.
  cbn [app]. repeat f_equal; div_lia.
Qed.

(** For every byte that can begin a character, with enough bytes behind it. *)
Lemma sequence_reads b rest : 0x80 <= b < 0x100 -> Forall byte_ok rest ->
  let extrabytes := extra_bytes b in
  0 <= extrabytes <= zlen rest ->
  ∃ r, decode_sequence extrabytes b rest = Some r /\ reads (b :: rest) r.
Proof.
  intros Hb Hr extrabytes. unfold extrabytes, extra_bytes.
  destruct (Z.ltb_spec b 0xC0); [lia|]. destruct (Z.ltb_spec b 0xE0); [intros; apply two_reads; (done || lia)|].
  destruct (Z.ltb_spec b 0xF0); [intros; apply three_reads; (done || lia)|].
  destruct (Z.ltb_spec b 0xF8); [intros; apply four_reads; (done || lia)|lia].
Qed.

End UtfSpec.
