(* ===== verification/UtfText.v ===== *)
(** Reading UTF-8: validation accepts exactly the encodings, and decoding agrees with it.

    A string is the bytes before the first null and within the given length; it is valid when it is
    the encoding of some characters.  [scan] is the step that validation and decoding share. *)

From S2P Require Import Prelude.
From S2P Require Import UtfData.
From S2P Require Import Utf.
From S2P Require Import UtfTables.
From S2P Require Import UtfSpec.
Import UtfData.UtfData Utf.Utf UtfTables.UtfTables UtfSpec.UtfSpec.

Module UtfText.

(** ** Valid strings *)

Definition valid (bytes : list Z) : Prop := ∃ cs, Forall character cs /\ bytes = utf8 cs.

(** The string of a caller: [len] bytes, or fewer when there is a null. *)
Definition string_of (bytes : list Z) (len : Z) : list Z := upto_nul (take (Z.to_nat len) bytes).

Lemma valid_nil : valid [].
Proof. by exists []. Qed.

Lemma valid_cons c bytes : character c -> valid (utf8_of c ++ bytes) <-> valid bytes.
Proof.
  intros Hc. split.
  - intros (cs & Hcs & E). destruct cs as [|c' cs].
    { pose proof (utf8_of_length c (character_range c Hc)) as Hl. simpl in E.
      apply app_eq_nil in E as [E _]. rewrite E in Hl. simpl in Hl. repeat destruct (_ <? _); lia. }
    apply Forall_cons in Hcs as [Hc' Hcs]. simpl in E.
    apply utf8_prefix_free in E as [_ ->]; [by exists cs|by apply character_range..].
  - intros (cs & Hcs & ->). exists (c :: cs). split; [by constructor|done].
Qed.

Lemma valid_split bytes : valid bytes -> bytes = [] \/
  ∃ c bytes', character c /\ bytes = utf8_of c ++ bytes' /\ valid bytes'.
Proof.
  intros (cs & Hcs & ->). destruct cs as [|c cs]; [by left|right].
  apply Forall_cons in Hcs as [? ?]. exists c, (utf8 cs). split; [done|]. split; [done|]. by exists cs.
Qed.

Lemma upto_nul_app p r : Forall (λ b, b <> 0) p -> upto_nul (p ++ r) = p ++ upto_nul r.
Proof.
  induction 1 as [|b p Hb _ IH]; [done|]. simpl. rewrite (proj2 (Z.eqb_neq b 0) Hb). by rewrite IH.
Qed.

Lemma upto_nul_prefix l : ∃ r, l = upto_nul l ++ r.
Proof.
  induction l as [|b l [r E]]; [by exists []|]. simpl.
  destruct (b =? 0); [by exists (b :: l)|]. exists r. simpl. by rewrite <- E.
Qed.

Lemma string_of_prefix bytes len : ∃ r, bytes = string_of bytes len ++ r.
Proof.
  destruct (upto_nul_prefix (take (Z.to_nat len) bytes)) as [r E].
  exists (r ++ drop (Z.to_nat len) bytes). unfold string_of. rewrite app_assoc, <- E. by rewrite take_drop.
Qed.

Lemma string_of_length bytes len : 0 <= len -> zlen (string_of bytes len) <= len.
Proof.
  intros Hl. destruct (upto_nul_prefix (take (Z.to_nat len) bytes)) as [r E].
  apply (f_equal length) in E. rewrite length_app, length_take in E. unfold string_of. lia.
Qed.

Lemma string_of_cons b bytes len : b <> 0 -> 0 < len -> string_of (b :: bytes) len = b :: string_of bytes (len - 1).
Proof.
  intros Hb Hl. unfold string_of. replace (Z.to_nat len) with (S (Z.to_nat (len - 1))) by lia. simpl.
  by rewrite (proj2 (Z.eqb_neq b 0) Hb).
Qed.

Lemma string_of_app p bytes len : Forall (λ b, b <> 0) p -> zlen p <= len ->
  string_of (p ++ bytes) len = p ++ string_of bytes (len - zlen p).
Proof.
  intros Hp Hl. unfold string_of. rewrite take_app.
  rewrite take_ge by lia. rewrite upto_nul_app by done.
  by replace (Z.to_nat len - length p)%nat with (Z.to_nat (len - zlen p)) by lia.
Qed.

(** ** The step of the readers *)

Inductive scanned (b : Z) (rest : list Z) (len : Z) : Prop :=
  | scan_short : (extra_bytes b < 0 \/ len < extra_bytes b) ->
      ~ valid (b :: string_of rest len) -> scanned b rest len
  | scan_illegal : 0 <= extra_bytes b <= len ->
      decode_sequence (extra_bytes b) b rest = Some Escape ->
      ~ valid (b :: string_of rest len) -> scanned b rest len
  | scan_char c rest' : 0 <= extra_bytes b <= len ->
      character c -> 0x80 <= c ->
      decode_sequence (extra_bytes b) b rest = Some (read c rest') ->
      b :: rest = utf8_of c ++ rest' -> zlen (utf8_of c) = 1 + extra_bytes b ->
      b :: string_of rest len = utf8_of c ++ string_of rest' (len - extra_bytes b) ->
      scanned b rest len.

Lemma utf8_of_first c : 0 <= c < 0x110000 -> ∃ b extra, utf8_of c = b :: extra /\
  (c < 0x80 /\ b = c /\ extra = [] \/ 0x80 <= c /\ 0x80 <= b /\ extra <> []).
Proof.
  intros Hc. destruct (utf8_of_cases c Hc) as [[? ->]|[(? & x & y & -> & ?)|[(? & x & y & z & -> & ?)|(? & x & y & z & t & -> & ?)]]];
    do 2 eexists; (split; [done|]); [left|right..]; repeat split; done || lia.
Qed.

(** A valid string that begins with a byte of a longer character. *)
Lemma valid_first b rest len : 0x80 <= b -> 0 <= len -> valid (b :: string_of rest len) ->
  ∃ c rest', character c /\ zlen (utf8_of c) = 1 + extra_bytes b /\
    extra_bytes b <= len /\
    decode_sequence (extra_bytes b) b rest = Some (read c rest').
Proof.
  intros Hb Hl Hv. apply valid_split in Hv as [E|(c & bytes & Hc & E & _)]; [done|].
  destruct (utf8_of_first c (character_range c Hc)) as (b' & extra & Eu & Hcase). rewrite Eu in E.
  injection E as <- E. destruct Hcase as [(? & -> & _)|(? & _ & Hne)]; [lia|].
  destruct (string_of_prefix rest len) as [r Er]. rewrite E, <- app_assoc in Er.
  destruct (decode_sequence_char c b extra (bytes ++ r) Hc Eu Hne) as [Hi Hd].
  exists c, (bytes ++ r). rewrite Hi. split; [done|]. split; [rewrite Eu; simpl; lia|]. split.
  - pose proof (string_of_length rest len Hl) as Hs. rewrite E, length_app in Hs. lia.
  - by rewrite Er.
Qed.

Lemma scan b rest len : 0x80 <= b < 0x100 -> Forall byte_ok rest -> 0 <= len <= zlen rest -> scanned b rest len.
Proof.
  intros Hb Hr Hl. set (e := extra_bytes b).
  destruct (decide (e < 0 \/ len < e)) as [Hs|Hs].
  { apply scan_short; [done|]. intros (c & rest' & Hc & Hlen & He & _)%valid_first; [|lia..].
    fold e in Hlen, He. pose proof (utf8_of_length c (character_range c Hc)) as Hlc.
    destruct Hs as [Hs|Hs]; [|lia]. repeat destruct (_ <? _); lia. }
  destruct (sequence_reads b rest Hb Hr) as (r & Hd & Hreads); [fold e; lia|]. fold e in Hd.
  assert (Hchar : ∀ c rest', character c -> 0x80 <= c -> b :: rest = utf8_of c ++ rest' ->
    zlen (utf8_of c) = 1 + e /\ b :: string_of rest len = utf8_of c ++ string_of rest' (len - e)).
  { intros c rest' Hc Hc80 E. pose proof (character_range c Hc) as Hrange.
    destruct (utf8_of_first c Hrange) as (b' & extra & Eu & Hcase).
    destruct Hcase as [(? & _)|(_ & _ & Hne)]; [lia|].
    rewrite Eu in E. injection E as <- E.
    destruct (decode_sequence_char c b extra rest' Hc Eu Hne) as [Hi _]. fold e in Hi.
    assert (Hlen : zlen (utf8_of c) = 1 + e) by (rewrite Eu, Hi; simpl; lia).
    split; [done|]. replace (b :: string_of rest len) with (string_of (b :: rest) (len + 1)).
    2:{ rewrite string_of_cons by lia. by rewrite Z.add_simpl_r. }
    rewrite E, app_comm_cons, <- Eu, string_of_app.
    - do 2 f_equal. lia.
    - apply utf8_of_nonzero. lia.
    - lia. }
  destruct r as [|c rest'|ch rest'|]; cbn [reads] in Hreads; [| | |done].
  - apply scan_illegal; [fold e; lia|done|]. intros (c & rest' & _ & _ & _ & Hread)%valid_first; [|lia..].
    fold e in Hread. rewrite Hd in Hread. injection Hread as E. unfold read in E. by destruct (_ <? _).
  - destruct Hreads as (Hc & Hc80 & E). destruct (Hchar c rest' Hc ltac:(lia) E) as [Hlen Hs'].
    apply (scan_char _ _ _ c rest'); fold e; try done; [lia..|].
    rewrite Hd. unfold read. by rewrite (proj2 (Z.ltb_lt _ _)) by lia.
  - destruct Hreads as (Hc & Hc80 & E). destruct (Hchar (ch + 0x10000) rest' Hc ltac:(lia) E) as [Hlen Hs'].
    apply (scan_char _ _ _ (ch + 0x10000) rest'); fold e; try done; [lia..|].
    rewrite Hd. unfold read. rewrite (proj2 (Z.ltb_ge _ _)) by lia. by rewrite Z.add_simpl_r.
Qed.

(** ** Validation *)

(** The switch of [utf8_validatestr] is that of [utf8_decodestr] without its results. *)
Lemma validate_decode extrabytes byte rest :
  validate_sequence extrabytes byte rest =
  match decode_sequence extrabytes byte rest with
  | Some (Char _ rest) | Some (Pair _ rest) => Some (inr rest)
  | Some _ => Some (inl tt)
  | None => None
  end.
Proof.
  unfold validate_sequence, decode_sequence.
  destruct (extrabytes =? 1).
  { destruct rest as [|y rest]; [done|]. cbn [next mbind option_bind].
    destruct (continues y); [|done]. cbn [negb]. by destruct (_ <? _). }
  destruct (extrabytes =? 2).
  { destruct rest as [|y rest]; [done|]. cbn [next mbind option_bind].
    destruct (continues y); [|done]. cbn [negb]. destruct rest as [|z rest]; [done|]. cbn [next mbind option_bind].
    destruct (continues z); [|done]. cbn [negb]. destruct (_ <? _); [done|]. by destruct (_ && _). }
  destruct (extrabytes =? 3); [|done].
  destruct rest as [|y rest]; [done|]. cbn [next mbind option_bind].
  destruct (continues y); [|done]. cbn [negb]. destruct rest as [|z rest]; [done|]. cbn [next mbind option_bind].
  destruct (continues z); [|done]. cbn [negb]. destruct rest as [|t rest]; [done|]. cbn [next mbind option_bind].
  destruct (continues t); [|done]. cbn [negb]. destruct (_ || _); [done|].
  unfold SP_HALF_MASK, SP_LOW_FIRST, SP_LOW_LAST. change 0x3FF with (Z.ones 10). rewrite Z.land_ones by lia.
  set (m := _ mod _). assert (0 <= m < 1024) by (apply Z.mod_pos_bound; lia).
  by rewrite !(proj2 (Z.ltb_ge _ _)) by lia.
Qed.

Lemma u32_extrabytes b : 0x80 <= b < 0x100 ->
  u32 (extra_bytes b) =
  if extra_bytes b <? 0 then 2 ^ 32 - 1 else extra_bytes b.
Proof.
  intros Hb. unfold extra_bytes.
  destruct (b <? 0xC0), (b <? 0xE0), (b <? 0xF0), (b <? 0xF8); done.
Qed.

Lemma string_of_nul bytes len : string_of (0 :: bytes) len = [].
Proof. unfold string_of. by destruct (Z.to_nat len). Qed.

Lemma string_of_0 bytes : string_of bytes 0 = [].
Proof. done. Qed.

Lemma utf8_of_ascii b : b < 0x80 -> utf8_of b = [b].
Proof. intros. unfold utf8_of. by rewrite (proj2 (Z.ltb_lt _ _)). Qed.

Lemma ascii_character b : 0 <= b < 0x80 -> character b.
Proof. unfold character. lia. Qed.

Lemma validate_loop_exact fuel : ∀ bytes len, (length bytes < fuel)%nat -> Forall byte_ok bytes ->
  0 <= len <= zlen bytes -> len < 2 ^ 32 - 1 ->
  ∃ result, validate_loop fuel bytes len = Some result /\
    (valid (string_of bytes len) /\ result = 0 \/ ~ valid (string_of bytes len) /\ result = EINVAL).
Proof.
  induction fuel as [|fuel IH]; intros bytes len Hf Hb Hl Hw; [lia|]. cbn [validate_loop].
  destruct (Z.eqb_spec len 0) as [->|Hn].
  { exists 0. split; [done|]. left. split; [apply valid_nil|done]. }
  destruct bytes as [|b rest]; [simpl in Hl; lia|]. cbn [next mbind option_bind].
  apply Forall_cons in Hb as [Hb Hr]. unfold byte_ok, in_range in Hb. simpl in Hf.
  rewrite length_cons in Hl.
  destruct (Z.eqb_spec b 0) as [->|Hb0].
  { exists 0. split; [done|]. left. rewrite string_of_nul. split; [apply valid_nil|done]. }
  rewrite string_of_cons by lia. destruct (Z.ltb_spec b 0x80) as [Ha|Ha].
  { destruct (IH rest (len - 1)) as (result & E & H); [lia|done|lia..|].
    exists result. split; [done|].
    pose proof (valid_cons b (string_of rest (len - 1)) (ascii_character b ltac:(lia))) as Hv.
    rewrite utf8_of_ascii in Hv by done. simpl in Hv. by rewrite Hv. }
  rewrite extra_bytes_read by lia. cbn [mbind option_bind]. rewrite u32_extrabytes by lia. rewrite validate_decode.
  destruct (scan b rest (len - 1)) as [Hs Hv|He Hd Hv|c rest' He Hc Hc80 Hd E Hlen Es]; [lia|done|lia|..].
  - exists EINVAL. split; [|by right].
    destruct (Z.ltb_spec (extra_bytes b) 0); by rewrite (proj2 (Z.ltb_lt _ _)) by lia.
  - exists EINVAL. split; [|by right].
    by rewrite (proj2 (Z.ltb_ge _ 0)), (proj2 (Z.ltb_ge (len - 1) _)), Hd by lia.
  - rewrite (proj2 (Z.ltb_ge _ 0)), (proj2 (Z.ltb_ge (len - 1) _)), Hd by lia.
    assert (Hlr : zlen rest = extra_bytes b + zlen rest').
    { apply (f_equal length) in E. rewrite length_app, length_cons in E. lia. }
    assert (Hrest' : Forall byte_ok rest').
    { assert (Hall : Forall byte_ok (b :: rest)) by (constructor; [unfold byte_ok, in_range; lia|done]).
      rewrite E in Hall. by apply Forall_app in Hall as [_ ?]. }
    destruct (IH rest' (len - 1 - extra_bytes b)) as (result & E' & H); [lia|done|lia..|].
    exists result. split.
    + unfold read. by destruct (c <? 0x10000).
    + rewrite Es. by rewrite (valid_cons c _ Hc).
Qed.

(** C15 (equivalence): validation looks at no byte outside of the string and answers 0 exactly when the
    bytes of the string, up to its length or a null, are the UTF-8 encoding of some characters, with
    no overlong form, no half of a surrogate pair and no U+FFFE or U+FFFF, and [EINVAL] otherwise. *)
Theorem validatestr_exact bytes len (Hbytes : Forall byte_ok bytes) (Hlen : 0 <= len <= zlen bytes)
    (Hsize : len < 2 ^ 32 - 1) :
  ∃ result, utf8_validatestr bytes len = Some result /\
    (valid (string_of bytes len) /\ result = 0 \/ ~ valid (string_of bytes len) /\ result = EINVAL).
Proof. apply validate_loop_exact; done || lia. Qed.

Lemma validatestr_exact_witness : ∃ result,
  utf8_validatestr [0x61; 0xC3; 0xA9; 0xF0; 0x9F; 0x98; 0x80; 0xC0; 0x80] 9 = Some result /\
    (valid (string_of [0x61; 0xC3; 0xA9; 0xF0; 0x9F; 0x98; 0x80; 0xC0; 0x80] 9) /\ result = 0 \/
     ~ valid (string_of [0x61; 0xC3; 0xA9; 0xF0; 0x9F; 0x98; 0x80; 0xC0; 0x80] 9) /\ result = EINVAL).
Proof.
  apply validatestr_exact; [|by vm_compute..].
  repeat (constructor; [by vm_compute|]). constructor.
Defined.

End UtfText.
