(* ===== verification/UtfDecode.v ===== *)
(** Decoding UTF-8: what [utf8_decodestr] does with any bytes, and its result for valid strings.

    The first part follows the pointers: in a buffer of a whole number of characters, and when it
    neither escapes illegal bytes nor composes, the decoder stays inside of its buffers and refuses
    exactly what validation refuses.  The second part gives the characters: those of the string,
    decomposed when that was asked for, with the marks of every run in canonical order. *)

From S2P Require Import Prelude.
From S2P Require Import UtfData.
From S2P Require Import Utf.
From S2P Require Import UtfTables.
From S2P Require Import UtfDecompose.
From S2P Require Import UtfSort.
From S2P Require Import UtfSpec.
From S2P Require Import UtfText.
Import UtfData.UtfData Utf.Utf UtfTables.UtfTables UtfDecompose.UtfDecompose UtfSort.UtfSort.
Import UtfSpec.UtfSpec UtfText.UtfText.

Module UtfDecode.

(** ** Storing *)

Lemma store_char_fits c buflen out u : 2 * zlen out + 2 <= buflen ->
  store_char c buflen out u = Some (out ++ [swapped c (u16 u)]).
Proof. intros. unfold store_char. by rewrite (proj2 (Z.leb_le _ _)). Qed.

Lemma at_end_false buflen out : at_end buflen out = false <-> 2 * zlen out < buflen.
Proof. apply Z.leb_gt. Qed.

Lemma at_end_true buflen out : at_end buflen out = true <-> buflen <= 2 * zlen out.
Proof. apply Z.leb_le. Qed.

Lemma canonical_short run : zlen run <= 1 -> canonical run = run.
Proof. destruct run as [|x [|y run]]; [done..|]. simpl. lia. Qed.

(** The run at the end of the output becomes canonical. *)
Lemma sort_run_canonical done_ run : sort_run (done_ ++ run) (zlen run) = Some (done_ ++ canonical run).
Proof.
  unfold sort_run. destruct (Z.ltb_spec 1 (zlen run)) as [Hl|Hl]; [|by rewrite canonical_short].
  unfold sort_last. rewrite length_app, (proj2 (Z.leb_le _ _)) by lia.
  replace (Z.to_nat _) with (length done_) by lia.
  rewrite drop_app_length, take_app_length, priortysort_canonical; [done|]. by destruct run.
Qed.

(** The output as what is finished and the run of [count] characters. *)
Lemma split_run (out : list Z) count : 0 <= count <= zlen out ->
  ∃ done_ run, out = done_ ++ run /\ count = zlen run.
Proof.
  intros. exists (take (length out - Z.to_nat count) out), (drop (length out - Z.to_nat count) out).
  rewrite take_drop, length_drop. split; [done|lia].
Qed.

Lemma length_canonical run : length (canonical run) = length run.
Proof. apply Permutation_length, stable_sort_perm. Qed.

Lemma sort_run_runs out count : 0 <= count <= zlen out ->
  ∃ out', sort_run out count = Some out' /\ length out' = length out.
Proof.
  intros (done_ & run & -> & ->)%split_run. rewrite sort_run_canonical. eexists. split; [done|].
  by rewrite !length_app, length_canonical.
Qed.

Lemma finish_char_runs c buflen s u : 0 <= combcharcnt s <= zlen (ucsp s) -> 2 * zlen (ucsp s) + 2 <= buflen ->
  ∃ s', finish_char c buflen s u = Some s' /\ utf8p s' = utf8p s /\ utf8len s' = utf8len s /\
    zlen (ucsp s') = zlen (ucsp s) + 1 /\ 0 <= combcharcnt s' <= zlen (ucsp s').
Proof.
  intros Hc Hroom. unfold finish_char. set (u' := if u =? altslash c then _ else _).
  rewrite combinable_read. cbn [mbind option_bind].
  assert (Hrun : ∃ out count,
    (if combinable u' then Some (ucsp s, combcharcnt s + 1)
     else if truth (combcharcnt s) then out ← sort_run (ucsp s) (combcharcnt s); Some (out, 0)
     else Some (ucsp s, combcharcnt s)) = Some (out, count) /\
    length out = length (ucsp s) /\ 0 <= count <= zlen (ucsp s) + 1).
  { destruct (combinable u'); [by do 2 eexists; split_and!; [done|done|lia..]|].
    destruct (truth _); [|by do 2 eexists; split_and!; [done|done|lia..]].
    destruct (sort_run_runs _ _ Hc) as (out & -> & ?). by do 2 eexists; split_and!; [done|done|lia..]. }
  destruct Hrun as (out & count & -> & Hlen & Hcount). cbn [mbind option_bind].
  rewrite store_char_fits by lia. eexists. split; [done|]. cbn [utf8p utf8len ucsp combcharcnt mbind option_bind].
  rewrite length_app. simpl. split_and!; done || lia.
Qed.

Lemma store_all_runs c k seq : ∀ out, 2 * zlen out < 2 * k \/ seq = [] ->
  ∃ stored, store_all c (2 * k) out seq = Some stored /\
    match stored with
    | inl out' => zlen out' = k /\ zlen out' <= zlen out + zlen seq
    | inr out' => zlen out' = zlen out + zlen seq /\ (2 * zlen out < 2 * k -> 2 * zlen out' < 2 * k)
    end.
Proof.
  induction seq as [|u seq IH]; intros out Hroom; simpl.
  { eexists. split; [done|]. simpl. lia. }
  destruct Hroom as [Hroom|]; [|done]. rewrite store_char_fits by lia. cbn [mbind option_bind].
  set (out1 := out ++ [swapped c (u16 u)]). assert (Hl : zlen out1 = zlen out + 1) by (unfold out1; rewrite length_app; simpl; lia).
  destruct (at_end (2 * k) out1) eqn:E.
  - apply at_end_true in E. eexists. split; [done|]. simpl. lia.
  - apply at_end_false in E. destruct (IH out1) as (stored & -> & H); [by left|]. exists stored. split; [done|].
    destruct stored; simpl; lia.
Qed.

(** The table of Services for Macintosh is read inside, for every character of ASCII. *)
Lemma sfm_read c b final : 0 <= b < 0x80 ->
  ∃ u, (if sfmconv c then ucs_to_sfm b final else Some b) = Some u /\ 0 <= u < 0x10000.
Proof.
  intros Hb. destruct (sfmconv c); [|exists b; split; [done|lia]].
  assert (H : forallb (λ b, match ucs_to_sfm b final with
    Some u => (0 <=? u) && (u <? 0x10000) | None => false end) (seqZ 0 0x80) = true) by (destruct final; by vm_compute).
  apply (forallb_range _ _ _ b) in H; [cbv beta in H|lia]. destruct (ucs_to_sfm b final) as [u|]; [|done].
  exists u. split; [done|]. rewrite andb_true_iff, Z.leb_le, Z.ltb_lt in H. lia.
Qed.

(** ** One round *)

(** What a round that is not the last one leaves: as many bytes are used as room is needed. *)
Record advanced (c : config) (k len : Z) (out rest : list Z) (len' : Z) (s : decoder) : Prop := {
  advanced_rest : utf8p s = rest;
  advanced_len : utf8len s = len';
  advanced_count : 0 <= combcharcnt s <= zlen (ucsp s);
  advanced_fits : zlen (ucsp s) <= k;
  advanced_more : 2 * zlen (ucsp s) <= 2 * zlen out + 3 * (len - len');
  advanced_more_plain : decompose c = false -> zlen (ucsp s) <= zlen out + (len - len') }.

(** The room that a string of [len] bytes may need, which the decoder says it has not. *)
Definition too_small (c : config) (k : Z) (len : Z) (out : list Z) : Prop :=
  2 * k <= 2 * zlen out + 3 * len /\ (decompose c = false -> k < zlen out + len).

Lemma decode_char_runs c k len s u : precompose c = false -> in_range 16 u -> 0x80 <= u ->
  0 <= combcharcnt s <= zlen (ucsp s) -> zlen (ucsp s) < k -> utf8len s <= len ->
  zlen (utf8_of u) = len - utf8len s ->
  ∃ stepped, decode_char c (2 * k) s u = Some stepped /\
    match stepped with
    | inl s' => advanced c k len (ucsp s) (utf8p s) (utf8len s) s'
    | inr (result, out) => result = ENAMETOOLONG /\ zlen out <= k /\ (0 <= utf8len s -> too_small c k len (ucsp s))
    end.
Proof.
  intros Hpre Hu Hu80 Hcount Hroom Hlen Hbytes. unfold decode_char. rewrite Hpre. cbn [andb].
  unfold in_range in Hu. rewrite utf8_of_length in Hbytes by lia.
  rewrite (proj2 (Z.ltb_ge u 128)), (proj2 (Z.ltb_lt u 65536)) in Hbytes by lia.
  assert (Hplain : ∀ u', ∃ stepped, (s ← finish_char c (2 * k) s u'; Some (inl s)) = Some (stepped : decoder + Z * list Z) /\
    match stepped with
    | inl s' => advanced c k len (ucsp s) (utf8p s) (utf8len s) s'
    | inr (result, out) => result = ENAMETOOLONG /\ zlen out <= k /\ (0 <= utf8len s -> too_small c k len (ucsp s))
    end).
  { intros u'. destruct (finish_char_runs c (2 * k) s u' Hcount) as (s' & -> & Hp & Hl & Hz & Hc'); [lia|].
    eexists. split; [done|]. destruct (u <? 2048); constructor; done || lia. }
  destruct (decompose c) eqn:Hdec; [|apply Hplain]. rewrite decomposeable_read. cbn [mbind option_bind].
  destruct (decomposeable u) eqn:Hd; [|apply Hplain].
  destruct (sort_run_runs _ _ Hcount) as (out & -> & Hout). cbn [mbind option_bind].
  destruct (decompose_complete u Hu Hd) as (h & t & -> & Hok). cbn [mbind option_bind].
  unfold complete in Hok. rewrite !andb_true_iff, Z.leb_le in Hok. destruct Hok as (_ & Ht & _).
  destruct (store_all_runs c k (h :: t) out) as (stored & -> & Hs); [left; lia|]. cbn [mbind option_bind].
  rewrite length_cons in Hs. destruct stored as [out'|out']; eexists; (split; [done|]); cbn beta iota.
  - unfold too_small. rewrite Hdec. destruct (u <? 2048); split_and!; done || lia.
  - destruct Hs as [Hz Hs]. constructor; cbn [utf8p utf8len ucsp combcharcnt];
      rewrite ?length_cons; [done|done|lia|lia|destruct (u <? 2048); lia|by rewrite Hdec].
Qed.

(** A pair is stored in two steps. *)
Lemma pair_in_range ch : 0 <= ch < 0x100000 ->
  in_range 16 (Z.shiftr ch SP_HALF_SHIFT + SP_HIGH_FIRST) /\
  (ch &&& SP_HALF_MASK) + SP_LOW_FIRST = 0xDC00 + ch mod 1024 /\
  Z.shiftr ch SP_HALF_SHIFT + SP_HIGH_FIRST = 0xD800 + ch / 1024.
Proof.
  intros H. unfold SP_HALF_SHIFT, SP_HIGH_FIRST, SP_HALF_MASK, SP_LOW_FIRST.
  change 0x3FF with (Z.ones 10). rewrite Z.land_ones, Z.shiftr_div_pow2 by lia. change (2 ^ 10) with 1024.
  unfold in_range. split; [div_lia|lia].
Qed.

(** The bytes that a round leaves. *)
Lemma scan_rest b rest c rest' : byte_ok b -> Forall byte_ok rest -> b :: rest = utf8_of c ++ rest' ->
  Forall byte_ok rest' /\ 1 + zlen rest = zlen (utf8_of c) + zlen rest'.
Proof.
  intros Hb Hr E. split.
  - assert (Hall : Forall byte_ok (b :: rest)) by (by constructor). rewrite E in Hall.
    by apply Forall_app in Hall as [_ ?].
  - apply (f_equal length) in E. rewrite length_app, length_cons in E. lia.
Qed.

Definition stepped_ok (c : config) (k len : Z) (b : Z) (s : decoder) (stepped : decoder + Z * list Z) : Prop :=
  let string := b :: string_of (utf8p s) (len - 1) in
  match stepped with
  | inl s' =>
      advanced c k len (ucsp s) (utf8p s') (utf8len s') s' /\ Forall byte_ok (utf8p s') /\
      0 <= utf8len s' < len /\ utf8len s' <= zlen (utf8p s') /\ (length (utf8p s') <= length (utf8p s))%nat /\
      (valid string <-> valid (string_of (utf8p s') (utf8len s')))
  | inr (result, out) =>
      zlen out <= k /\ (result = EINVAL /\ ~ valid string \/ result = ENAMETOOLONG /\ too_small c k len (ucsp s))
  end.

Lemma decode_step_ascii c k len b s : byte_ok b -> b < 0x80 -> Forall byte_ok (utf8p s) ->
  utf8len s = len - 1 -> 0 <= len - 1 <= zlen (utf8p s) ->
  0 <= combcharcnt s <= zlen (ucsp s) -> zlen (ucsp s) < k ->
  ∃ stepped, decode_step c (2 * k) b s = Some stepped /\ stepped_ok c k len b s stepped.
Proof.
  intros Hb Ha Hbytes Hl Hlen Hcount Hroom. unfold byte_ok, in_range in Hb.
  unfold decode_step. rewrite (proj2 (at_end_false _ _)), (proj2 (Z.ltb_lt b 128)) by lia.
  destruct (sfm_read c b (utf8len s =? 0)) as (u & -> & _); [lia|]. cbn [mbind option_bind].
  destruct (finish_char_runs c (2 * k) s u Hcount) as (s' & -> & Hp & Hl' & Hz & Hc'); [lia|].
  eexists. split; [done|]. cbn [stepped_ok]. rewrite Hp, Hl', Hl. split_and!; try done || lia.
  - constructor; done || lia.
  - pose proof (valid_cons b (string_of (utf8p s) (len - 1)) (ascii_character b ltac:(lia))) as Hv.
    by rewrite utf8_of_ascii in Hv.
Qed.

Lemma decode_step_runs c k len b s : escaping c = false -> precompose c = false ->
  byte_ok b -> b <> 0 -> Forall byte_ok (utf8p s) ->
  utf8len s = len - 1 -> 0 <= len - 1 <= zlen (utf8p s) -> len < 2 ^ 31 ->
  0 <= combcharcnt s <= zlen (ucsp s) -> zlen (ucsp s) <= k ->
  ∃ stepped, decode_step c (2 * k) b s = Some stepped /\ stepped_ok c k len b s stepped.
Proof.
  intros Hesc Hpre Hb Hb0 Hbytes Hl Hlen Hint Hcount Hroom.
  destruct (at_end (2 * k) (ucsp s)) eqn:Hend.
  { unfold decode_step. rewrite Hend. eexists. split; [done|]. split; [done|]. right. split; [done|].
    apply at_end_true in Hend. unfold too_small. lia. }
  pose proof Hend as Hmore. apply at_end_false in Hmore.
  destruct (Z.ltb_spec b 0x80) as [Ha|Ha]; [apply decode_step_ascii; done || lia|].
  unfold decode_step. rewrite Hend, (proj2 (Z.ltb_ge b 128)) by lia.
  assert (Hs32 : s32 (utf8len s) = len - 1) by (unfold s32; rewrite (proj2 (Z.ltb_lt _ _)); lia).
  rewrite Hs32. pose proof Hb as Hb'. unfold byte_ok, in_range in Hb'.
  rewrite extra_bytes_read by lia. cbn [mbind option_bind]. set (e := extra_bytes b).
  destruct (scan b (utf8p s) (len - 1)) as [Hs Hv|He Hd Hv|ch rest' He Hch Hch80 Hd E Hsize Es];
    [lia|done|lia|fold e in Hs|fold e in He, Hd|fold e in He, Hd, Hsize, Es].
  - replace ((e <? 0) || _) with true by (symmetry; apply orb_true_iff; rewrite !Z.ltb_lt; lia).
    unfold decode_escape. rewrite Hesc. eexists. split; [done|]. split; [done|by left].
  - replace ((e <? 0) || _) with false by (symmetry; apply orb_false_iff; rewrite !Z.ltb_ge; lia).
    cbn [utf8p utf8len ucsp combcharcnt]. rewrite Hd. cbn [mbind option_bind].
    unfold decode_escape. rewrite Hesc. eexists. split; [done|]. split; [done|by left].
  - replace ((e <? 0) || _) with false by (symmetry; apply orb_false_iff; rewrite !Z.ltb_ge; lia).
    cbn [utf8p utf8len ucsp combcharcnt]. rewrite Hd. cbn [mbind option_bind]. rewrite Hl.
    destruct (scan_rest _ _ _ _ Hb Hbytes E) as [Hrest' Hrl].
    rewrite Hsize in Hrl.
    assert (Hvalid : valid (b :: string_of (utf8p s) (len - 1)) <-> valid (string_of rest' (len - 1 - e))).
    { rewrite Es. by apply valid_cons. }
    unfold read. destruct (Z.ltb_spec ch 0x10000) as [Hbmp|Hbmp]; cbn beta iota.
    + destruct (decode_char_runs c k len (Decoder rest' (len - 1 - e) (ucsp s) (combcharcnt s)) ch Hpre)
        as (stepped & -> & Hok); cbn [utf8p utf8len ucsp combcharcnt] in *; [unfold in_range; lia|lia..|].
      exists stepped. split; [done|]. destruct stepped as [s'|[result out]].
      * pose proof (advanced_rest _ _ _ _ _ _ _ Hok) as Hp. pose proof (advanced_len _ _ _ _ _ _ _ Hok) as Hn.
        split; [by rewrite Hp, Hn|]. rewrite Hp, Hn. split_and!; try done || lia; apply Hvalid.
      * destruct Hok as (-> & Hz & Htoo). split; [done|]. right. split; [done|]. apply Htoo. lia.
    + pose proof (character_range ch Hch). destruct (pair_in_range (ch - 0x10000)) as (Hhi & Elo & Ehi); [lia|].
      rewrite store_char_fits by lia. cbn [mbind option_bind]. set (out1 := ucsp s ++ _).
      assert (Hz1 : zlen out1 = zlen (ucsp s) + 1) by (unfold out1; rewrite length_app; simpl; lia).
      rewrite utf8_of_length, !(proj2 (Z.ltb_ge ch _)) in Hsize by lia.
      destruct (at_end (2 * k) out1) eqn:Hend1.
      * apply at_end_true in Hend1. eexists. split; [done|]. split; [lia|]. right. split; [done|].
        unfold too_small. lia.
      * apply at_end_false in Hend1. rewrite Elo. unfold SP_LOW_FIRST, SP_LOW_LAST.
        pose proof (Z.mod_pos_bound (ch - 0x10000) 1024).
        rewrite !(proj2 (Z.ltb_ge _ _)) by lia. cbn [orb].
        rewrite store_char_fits by lia. cbn [mbind option_bind]. eexists. split; [done|].
        cbn [stepped_ok utf8p utf8len]. split_and!; try done || lia; try apply Hvalid.
        constructor; cbn [utf8p utf8len ucsp combcharcnt]; rewrite ?length_app; simpl; done || lia.
Qed.

(** ** Any bytes *)

Lemma decode_loop_runs fuel c k : ∀ s, escaping c = false -> precompose c = false ->
  (length (utf8p s) < fuel)%nat -> Forall byte_ok (utf8p s) ->
  0 <= utf8len s <= zlen (utf8p s) -> utf8len s < 2 ^ 31 ->
  0 <= combcharcnt s <= zlen (ucsp s) -> zlen (ucsp s) <= k ->
  ∃ result out, decode_loop fuel c (2 * k) s = Some (result, out) /\ zlen out <= k /\
    (result = 0 /\ valid (string_of (utf8p s) (utf8len s)) \/
     result = EINVAL /\ ~ valid (string_of (utf8p s) (utf8len s)) \/
     result = ENAMETOOLONG /\ too_small c k (utf8len s) (ucsp s)).
Proof.
  induction fuel as [|fuel IH]; intros s Hesc Hpre Hf Hbytes Hlen Hint Hcount Hroom; [lia|].
  cbn [decode_loop].
  assert (Hfinish : valid (string_of (utf8p s) (utf8len s)) -> ∃ result out,
    (out ← sort_run (ucsp s) (combcharcnt s); Some (0, out)) = Some (result, out) /\ zlen out <= k /\
    (result = 0 /\ valid (string_of (utf8p s) (utf8len s)) \/
     result = EINVAL /\ ~ valid (string_of (utf8p s) (utf8len s)) \/
     result = ENAMETOOLONG /\ too_small c k (utf8len s) (ucsp s))).
  { intros Hv. destruct (sort_run_runs _ _ Hcount) as (out & -> & Ho). exists 0, out.
    split; [done|]. split; [lia|by left]. }
  destruct (Z.eqb_spec (utf8len s) 0) as [E0|Hn0]; [apply Hfinish; rewrite E0; apply valid_nil|].
  destruct (utf8p s) as [|b rest] eqn:Ep; [simpl in Hlen; lia|]. cbn [next mbind option_bind].
  destruct (Z.eqb_spec b 0) as [->|Hb0]; [apply Hfinish; rewrite string_of_nul; apply valid_nil|].
  apply Forall_cons in Hbytes as [Hb Hbytes]. rewrite length_cons in Hlen, Hf.
  destruct (decode_step_runs c k (utf8len s) b (Decoder rest (utf8len s - 1) (ucsp s) (combcharcnt s)))
    as (stepped & -> & Hok); cbn [utf8p utf8len ucsp combcharcnt]; try done || lia.
  cbn [mbind option_bind]. rewrite string_of_cons by lia.
  destruct stepped as [s'|[result out]]; cbn [stepped_ok utf8p utf8len ucsp combcharcnt] in Hok.
  - destruct Hok as (Hadv & Hb' & Hlen' & Hlen2 & Hrest & Hv).
    destruct (IH s') as (result & out & -> & Ho & Hres); try done || lia; try apply Hadv.
    exists result, out. split; [done|]. split; [done|]. rewrite Hv.
    destruct Hres as [?|[?|[? Htoo]]]; [by left|by right; left|right; right]. split; [done|].
    pose proof (advanced_more _ _ _ _ _ _ _ Hadv). pose proof (advanced_more_plain _ _ _ _ _ _ _ Hadv) as Hplain.
    destruct Htoo as [Htoo Hshort]. split; [lia|]. intros Hd. specialize (Hplain Hd). specialize (Hshort Hd). lia.
  - destruct Hok as [Ho Hres]. exists result, out. split; [done|]. split; [done|by right].
Qed.

(** C39 (bounds): whatever the bytes, decoding into a buffer of [k] characters, without escapes and
    without composing, neither reads outside of the string nor writes outside of the buffer and always
    ends.  It answers 0 or [EINVAL] as validation does, and [ENAMETOOLONG] only when the buffer is
    smaller than the string of [len] bytes may need: [len] characters, or more than one and a half
    times as many when it decomposes. *)
Theorem decodestr_in_bounds c bytes len k (Hescape : escaping c = false) (Hcompose : precompose c = false)
    (Hbytes : Forall byte_ok bytes) (Hlen : 0 <= len <= zlen bytes) (Hsize : len < 2 ^ 31) (Hk : 0 <= k) :
  ∃ result out, utf8_decodestr bytes len (2 * k) c = Some (result, out) /\ zlen out <= k /\
    (result = 0 /\ valid (string_of bytes len) \/
     result = EINVAL /\ ~ valid (string_of bytes len) \/
     result = ENAMETOOLONG /\ too_small c k len []).
Proof.
  destruct (decode_loop_runs (S (length bytes)) c k (Decoder bytes len [] 0)) as (result & out & E & Ho & H);
    cbn [utf8p utf8len ucsp combcharcnt length] in *; try done || lia.
  by exists result, out.
Qed.

Lemma decodestr_in_bounds_witness : ∃ result out,
  utf8_decodestr [0x61; 0xCC; 0x81; 0xF0; 0x9F; 0x98; 0x80; 0xE2; 0x82] 9 (2 * 6) (Config 0 UTF_DECOMPOSED)
    = Some (result, out) /\ zlen out <= 6 /\
    (result = 0 /\ valid (string_of [0x61; 0xCC; 0x81; 0xF0; 0x9F; 0x98; 0x80; 0xE2; 0x82] 9) \/
     result = EINVAL /\ ~ valid (string_of [0x61; 0xCC; 0x81; 0xF0; 0x9F; 0x98; 0x80; 0xE2; 0x82] 9) \/
     result = ENAMETOOLONG /\ too_small (Config 0 UTF_DECOMPOSED) 6 9 []).
Proof.
  apply decodestr_in_bounds; [done..| |by vm_compute|by vm_compute|by vm_compute].
  repeat (constructor; [by vm_compute|]). constructor.
Defined.

(** A buffer that ends in half of a character: one byte is written behind it. *)
Example odd_buffer_overruns : utf8_decodestr [0x61; 0x62] 2 3 (Config 0x3A 0) = None.
Proof. by vm_compute. Qed.

End UtfDecode.
