(* ===== verification/UtfCanon.v ===== *)
(** Decoding of valid strings: the characters that [utf8_decodestr] stores.

    Every character of the string becomes a piece: one or more characters of the output, each a mark
    that continues a run or not.  The output is the pieces with the marks of each run in canonical
    order, [arrange].  A character outside of the basic plane does not end a run in the code (an
    example shows what happens then), so that the statement is for strings in which such a character
    does not directly follow a mark. *)

From S2P Require Import Prelude.
From S2P Require Import UtfData.
From S2P Require Import Utf.
From S2P Require Import UtfTables.
From S2P Require Import UtfDecompose.
From S2P Require Import UtfSort.
From S2P Require Import UtfSpec.
From S2P Require Import UtfText.
From S2P Require Import UtfDecode.
Import UtfData.UtfData Utf.Utf UtfTables.UtfTables UtfDecompose.UtfDecompose UtfSort.UtfSort.
Import UtfSpec.UtfSpec UtfText.UtfText UtfDecode.UtfDecode.

Module UtfCanon.

(** ** Pieces *)

(** A character with whether it is a mark of the run before it. *)
Abbreviation marked := (Z * bool)%type.

(** A character that is stored alone. *)
Definition single (c : config) (u : Z) : list marked :=
  let u := if u =? altslash c then 0x2f else u in [(u, combinable u)].

(** The names of Services for Macintosh: the characters that Windows forbids in a name are private
    characters, the controls U+F000 on, these ones the next (the slash and the colon share one), and
    a space or a period at the end of a name the two behind them. *)
Definition sfm_names : list (Z * Z) :=
  [(0x22, 0xF020); (0x2A, 0xF021); (0x2F, 0xF022); (0x3A, 0xF022); (0x3C, 0xF023);
   (0x3E, 0xF024); (0x3F, 0xF025); (0x5C, 0xF026); (0x7C, 0xF027)].
Definition sfm_final_names : list (Z * Z) := [(0x20, 0xF028); (0x2E, 0xF029)].

(** The private character for a character of ASCII, or itself. *)
Definition sfm_name (final : bool) (ch : Z) : Z :=
  if ch <? 0x20 then 0xF000 + ch
  else let names := if final then sfm_names ++ sfm_final_names else sfm_names in
       if value_of names ch =? 0 then ch else value_of names ch.

(** What a character of the string becomes; [final] says that it is the last one. *)
Definition piece (c : config) (final : bool) (ch : Z) : list marked :=
  if ch <? 0x80 then single c (if sfmconv c then sfm_name final ch else ch)
  else if ch <? 0x10000 then
    if decompose c && decomposeable ch then
      match decomposition ch with
      | [] => []
      | base :: marks => (base, false) :: map (λ u, (u, true)) marks
      end
    else single c (if ch =? UCS_ALT_NULL then 0 else ch)
  else [(ch, false)].

Definition is_nil {A} (l : list A) : bool := match l with [] => true | _ => false end.

Fixpoint pieces (c : config) (cs : list Z) : list marked :=
  match cs with
  | [] => []
  | ch :: cs => piece c (is_nil cs) ch ++ pieces c cs
  end.

(** The runs of marks in canonical order; [run] is the run so far. *)
Fixpoint arrange (run : list Z) (l : list marked) : list Z :=
  match l with
  | [] => canonical run
  | (u, true) :: l => arrange (run ++ [u]) l
  | (u, false) :: l => canonical run ++ u :: arrange [] l
  end.

(** What decoding gives for the characters [cs]. *)
Definition arranged (c : config) (cs : list Z) : list Z := arrange [] (pieces c cs).

Definition ends_in_mark (p : list marked) : bool :=
  match last p with Some (_, mark) => mark | None => false end.

(** No character outside of the basic plane directly behind a mark; [inrun] says that the characters
    before ended with one. *)
Fixpoint separated (c : config) (inrun : bool) (cs : list Z) : bool :=
  match cs with
  | [] => true
  | ch :: cs =>
      (if 0x10000 <=? ch then negb inrun else true) && separated c (ends_in_mark (piece c (is_nil cs) ch)) cs
  end.

(** The units of the output. *)
Definition span (p : list marked) : Z := zlen (utf16 p.*1).

Lemma arrange_marks marks : ∀ run l, arrange run (map (λ u, (u, true)) marks ++ l) = arrange (run ++ marks) l.
Proof.
  induction marks as [|u marks IH]; intros run l; simpl; [by rewrite app_nil_r|].
  rewrite IH. by rewrite <- app_assoc.
Qed.

Lemma marked_fst marks : (map (λ u : Z, (u, true)) marks).*1 = marks.
Proof. induction marks as [|u marks IH]; [done|]. simpl. by f_equal. Qed.

Lemma utf16_app a b : utf16 (a ++ b) = utf16 a ++ utf16 b.
Proof. apply flat_map_app. Qed.

Definition basic (u : Z) : Prop := 0 <= u < 0x10000.

Lemma utf16_of_basic u : basic u -> utf16_of u = [u].
Proof. intros [_ H]. unfold utf16_of. by rewrite (proj2 (Z.ltb_lt _ _)). Qed.

Lemma utf16_basic us : Forall basic us -> utf16 us = us.
Proof. induction 1 as [|u us Hu _ IH]; [done|]. unfold utf16 in *. simpl. by rewrite utf16_of_basic, IH. Qed.

Lemma canonical_basic run : Forall basic run -> Forall basic (canonical run).
Proof. intros. by rewrite stable_sort_perm. Qed.

Lemma span_app p q : span (p ++ q) = span p + span q.
Proof. unfold span. rewrite fmap_app, utf16_app, length_app. lia. Qed.

Lemma ends_in_mark_marks base marks :
  ends_in_mark ((base, false) :: map (λ u, (u, true)) marks) = negb (is_nil marks).
Proof.
  unfold ends_in_mark. induction marks as [|u marks _] using rev_ind; [done|].
  rewrite map_app, app_comm_cons. simpl map. rewrite last_snoc. by destruct marks.
Qed.

(** ** A round *)

(** The decoder before and after a piece: [D] is finished and [run] is the run at the end. *)
Record takes (p : list marked) (D run D' run' : list Z) : Prop := {
  takes_basic : Forall basic run';
  takes_arranged : ∀ l, D ++ utf16 (arrange run (p ++ l)) = D' ++ utf16 (arrange run' l);
  takes_span : zlen (D' ++ run') = zlen (D ++ run) + span p;
  takes_run : negb (is_nil run') = ends_in_mark p }.

Definition state (rest : list Z) (len : Z) (D run : list Z) : decoder :=
  Decoder rest len (D ++ run) (zlen run).

Lemma takes_mark u D run : Forall basic run -> basic u -> takes [(u, true)] D run D (run ++ [u]).
Proof.
  intros Hr Hu. constructor.
  - apply Forall_app. by split; [|constructor].
  - done.
  - unfold span. simpl. rewrite (utf16_of_basic u Hu), !length_app. simpl. lia.
  - by destruct run.
Qed.

Lemma takes_base u marks D run : Forall basic run -> 0 <= u < 0x110000 -> Forall basic marks ->
  takes ((u, false) :: map (λ u, (u, true)) marks) D run (D ++ canonical run ++ utf16_of u) marks.
Proof.
  intros Hr Hu Hm. constructor; [done| | |].
  - intros l. simpl. rewrite arrange_marks. unfold utf16.
    rewrite flat_map_app. simpl. fold (utf16 (canonical run)).
    rewrite (utf16_basic (canonical run)) by (by apply canonical_basic).
    by rewrite <- !app_assoc.
  - unfold span. rewrite fmap_cons. simpl. rewrite !length_app, length_canonical.
    rewrite marked_fst, (utf16_basic marks Hm). lia.
  - by rewrite ends_in_mark_marks.
Qed.

Lemma store_basic c buflen out u : swapbytes c = false -> basic u -> 2 * zlen out + 2 <= buflen ->
  store_char c buflen out u = Some (out ++ [u]).
Proof.
  intros Hswap [Hu0 Hu] Hroom. rewrite store_char_fits by done. unfold swapped. rewrite Hswap.
  by rewrite wrap_small by (unfold in_range; lia).
Qed.

Lemma finish_char_takes c buflen rest len D run u : swapbytes c = false -> basic u -> Forall basic run ->
  2 * zlen (D ++ run) + 2 <= buflen ->
  ∃ D' run', finish_char c buflen (state rest len D run) u = Some (state rest len D' run') /\
    takes (single c u) D run D' run'.
Proof.
  intros Hswap Hu Hr Hroom. unfold finish_char, single. set (u' := if u =? altslash c then 0x2f else u).
  assert (Hu' : basic u') by (unfold u'; destruct (_ =? _); [unfold basic; lia|done]).
  clearbody u'. unfold state. cbn [utf8p utf8len ucsp combcharcnt].
  rewrite combinable_read. cbn [mbind option_bind].
  destruct (combinable u') eqn:Hm.
  { exists D, (run ++ [u']). cbn [mbind option_bind]. rewrite store_basic by done. cbn [mbind option_bind].
    split; [|by apply takes_mark]. rewrite <- app_assoc, (length_app run). do 2 f_equal. simpl. lia. }
  exists (D ++ canonical run ++ utf16_of u'), []. split; [|apply (takes_base u' []); [done|unfold basic in *; lia|done]].
  rewrite app_nil_r, utf16_of_basic by done.
  assert (E : (if truth (zlen run) then out ← sort_run (D ++ run) (zlen run); Some (out, 0)
               else Some (D ++ run, zlen run)) = Some (D ++ canonical run, 0)).
  { rewrite sort_run_canonical. cbn [mbind option_bind]. by destruct run. }
  rewrite E. cbn [mbind option_bind]. rewrite store_basic; [|done|done|].
  - cbn [mbind option_bind]. by rewrite <- app_assoc.
  - rewrite length_app in *. by rewrite length_canonical.
Qed.

(** ** A character *)

(** Room for what is still to come; decomposing needs one character more. *)
Definition room (c : config) (buflen needed : Z) : Prop :=
  2 * needed + (if decompose c then 2 else 0) <= buflen.

Lemma store_all_fits c buflen seq : swapbytes c = false -> Forall basic seq -> ∀ out,
  2 * (zlen out + zlen seq) + 2 <= buflen -> store_all c buflen out seq = Some (inr (out ++ seq)).
Proof.
  intros Hswap. induction 1 as [|u seq Hu _ IH]; intros out Hroom; simpl; [by rewrite app_nil_r|].
  rewrite length_cons in Hroom. rewrite store_basic by (done || lia). cbn [mbind option_bind].
  rewrite (proj2 (at_end_false _ _)) by (rewrite length_app; simpl; lia).
  rewrite IH by (rewrite length_app; simpl; lia). by rewrite <- app_assoc.
Qed.

Lemma ordinary_basic u : ordinary u = true -> basic u.
Proof. unfold ordinary, basic. rewrite !andb_true_iff, !Z.ltb_lt. lia. Qed.

(** The conversion of the code is that of the names. *)
Lemma sfm_stores b final : 0 <= b < 0x80 ->
  ucs_to_sfm b final = Some (sfm_name final b) /\ basic (sfm_name final b).
Proof.
  intros Hb. assert (H : forallb (λ b, bool_decide (ucs_to_sfm b final = Some (sfm_name final b))
    && ((0 <=? sfm_name final b) && (sfm_name final b <? 0x10000))) (seqZ 0 0x80) = true)
    by (destruct final; by vm_compute).
  apply (forallb_range _ _ _ b) in H; [cbv beta in H|lia]. unfold basic.
  by rewrite !andb_true_iff, bool_decide_eq_true, Z.leb_le, Z.ltb_lt in H.
Qed.

Lemma span_single c u : basic u -> span (single c u) = 1.
Proof.
  intros Hu. unfold span, single. destruct (u =? altslash c); simpl; by rewrite ?(utf16_of_basic u Hu).
Qed.

Lemma complete_parts ch base marks : complete ch (base :: marks) = true ->
  basic base /\ Forall basic marks /\ Forall basic (base :: marks).
Proof.
  unfold complete. rewrite andb_true_iff, forallb_forall. intros [H _].
  assert (Hall : Forall basic (base :: marks)).
  { apply List.Forall_forall. intros u Hu%H. apply andb_true_iff in Hu as [Hu _]. by apply ordinary_basic. }
  split; [|split; [|done]]; by apply Forall_cons in Hall as [? ?].
Qed.

Lemma decode_char_takes c buflen rest len D run ch : swapbytes c = false -> precompose c = false ->
  0x80 <= ch < 0x10000 -> Forall basic run -> 
  room c buflen (zlen (D ++ run) + span (piece c false ch)) ->
  ∃ D' run', decode_char c buflen (state rest len D run) ch = Some (inl (state rest len D' run')) /\
    takes (piece c false ch) D run D' run'.
Proof.
  intros Hswap Hpre Hch Hr Hroom. unfold decode_char, piece in *.
  rewrite (proj2 (Z.ltb_ge ch 0x80)), (proj2 (Z.ltb_lt ch 0x10000)) in * by lia.
  rewrite Hpre. cbn [andb]. unfold room in Hroom.
  set (u := if ch =? UCS_ALT_NULL then 0 else ch) in *.
  assert (Hu : basic u) by (unfold u, basic; destruct (_ =? _); lia).
  assert (Hplain : room c buflen (zlen (D ++ run) + span (single c u)) -> ∃ D' run',
    (s ← finish_char c buflen (state rest len D run) u; Some (inl s)) = Some (inl (state rest len D' run') : decoder + Z * list Z) /\
    takes (single c u) D run D' run').
  { unfold room. rewrite span_single by done. intros Hroom'.
    destruct (finish_char_takes c buflen rest len D run u Hswap Hu Hr) as (D' & run' & -> & Ht);
      [destruct (decompose c); lia|]. by exists D', run'. }
  destruct (decompose c) eqn:Hdec; [|apply Hplain; unfold room; by rewrite Hdec].
  rewrite decomposeable_read. cbn [mbind option_bind].
  destruct (decomposeable ch) eqn:Hd; cbn [andb] in *; [|apply Hplain; unfold room; by rewrite Hdec].
  destruct (decompose_complete ch) as (base & marks & E & Hok); [unfold in_range; lia|done|].
  assert (Ed : decomposition ch = base :: marks) by (unfold decomposition; by rewrite Hd, E).
  rewrite Ed in *. destruct (complete_parts ch base marks Hok) as (Hbase & Hmarks & Hall).
  unfold state at 1 2 3. cbn [utf8p utf8len ucsp combcharcnt].
  rewrite sort_run_canonical, E. cbn [mbind option_bind].
  assert (Hspan : span ((base, false) :: map (λ u : Z, (u, true)) marks) = 1 + zlen marks).
  { unfold span. rewrite fmap_cons, marked_fst. simpl fst. rewrite utf16_basic by done. simpl. lia. }
  rewrite Hspan, length_app in Hroom.
  rewrite store_all_fits; [|done|done|rewrite !length_app, length_canonical, length_cons; lia].
  cbn [mbind option_bind]. exists (D ++ canonical run ++ utf16_of base), marks.
  split; [|apply takes_base; [done|unfold basic in Hbase; lia|done]].
  unfold state. rewrite utf16_of_basic, length_cons, <- !app_assoc by done. simpl.
  do 3 f_equal. lia.
Qed.

Lemma piece_final c final ch : 0x80 <= ch -> piece c final ch = piece c false ch.
Proof. intros. unfold piece. by rewrite (proj2 (Z.ltb_ge ch 0x80)). Qed.

Lemma utf16_of_pair ch : 0x10000 <= ch < 0x110000 ->
  utf16_of ch = [0xD800 + (ch - 0x10000) / 1024; 0xDC00 + (ch - 0x10000) mod 1024].
Proof.
  intros. unfold utf16_of. rewrite (proj2 (Z.ltb_ge _ _)) by lia. change (2 ^ 10) with 1024.
  replace ((ch - 0x10000) mod 1024) with (ch mod 1024) by div_lia. done.
Qed.

Lemma utf16_of_some ch : 1 <= zlen (utf16_of ch) <= 2.
Proof. unfold utf16_of. destruct (_ <? _); simpl; lia. Qed.

Lemma span_piece c final ch : character ch -> 1 <= span (piece c final ch).
Proof.
  intros Hch. pose proof (character_range ch Hch) as Hrange.
  assert (Hsingle : ∀ u, 1 <= span (single c u)).
  { intros u. unfold span, single. simpl. rewrite app_nil_r.
    pose proof (utf16_of_some (if u =? altslash c then 0x2f else u)). lia. }
  unfold piece. destruct (Z.ltb_spec ch 0x80); [apply Hsingle|]. destruct (Z.ltb_spec ch 0x10000).
  - destruct (decompose c && decomposeable ch) eqn:E; [|apply Hsingle].
    apply andb_true_iff in E as [_ Hd].
    destruct (decompose_complete ch) as (base & marks & E & _); [unfold in_range; lia|done|].
    unfold decomposition. rewrite Hd, E. unfold span. simpl. rewrite length_app.
    pose proof (utf16_of_some base). lia.
  - unfold span. simpl. rewrite app_nil_r. pose proof (utf16_of_some ch). lia.
Qed.

Section round.
Context (c : config) (buflen : Z).
Hypothesis Hswap : swapbytes c = false.
Hypothesis Hpre : precompose c = false.

(** A character of one byte. *)
Lemma step_ascii ch rest n D run : 0 <= ch < 0x80 -> Forall basic run ->
  room c buflen (zlen (D ++ run) + span (piece c (n =? 0) ch)) ->
  ∃ D' run', decode_step c buflen ch (state rest n D run) = Some (inl (state rest n D' run')) /\
    takes (piece c (n =? 0) ch) D run D' run'.
Proof.
  intros Hch Hr Hroom. pose proof (span_piece c (n =? 0) ch (ascii_character ch ltac:(lia))) as Hs.
  unfold decode_step, piece, room in *. rewrite (proj2 (Z.ltb_lt ch 0x80)) in * by lia.
  rewrite (proj2 (at_end_false _ _)) by (simpl; destruct (decompose c); lia).
  change (utf8len (state rest n D run)) with n.
  destruct (sfm_stores ch (n =? 0) Hch) as [Esfm Hsfm].
  set (u := if sfmconv c then sfm_name (n =? 0) ch else ch) in *.
  assert (Hu : basic u) by (unfold u; destruct (sfmconv c); [done|unfold basic; lia]).
  replace (if sfmconv c then ucs_to_sfm ch (n =? 0) else Some ch) with (Some u)
    by (unfold u; rewrite Esfm; by destruct (sfmconv c)).
  cbn [mbind option_bind].
  destruct (finish_char_takes c buflen rest n D run u Hswap Hu Hr) as (D' & run' & -> & Ht);
    [destruct (decompose c); lia|]. by exists D', run'.
Qed.

(** A character of several bytes. *)
Lemma step_longer ch b extra rest n D run : character ch -> 0x80 <= ch -> utf8_of ch = b :: extra ->
  0 <= n -> zlen extra + n < 2 ^ 31 -> Forall basic run -> (0x10000 <= ch -> run = []) ->
  room c buflen (zlen (D ++ run) + span (piece c (n =? 0) ch)) ->
  ∃ D' run', decode_step c buflen b (state (extra ++ rest) (zlen extra + n) D run)
             = Some (inl (state rest n D' run')) /\
    takes (piece c (n =? 0) ch) D run D' run'.
Proof.
  intros Hch Hch80 Eu Hn Hint Hr Hpair Hroom. pose proof (character_range ch Hch) as Hrange.
  pose proof (span_piece c (n =? 0) ch Hch) as Hs. rewrite piece_final in * by done.
  destruct (utf8_of_first ch Hrange) as (b' & extra' & Eu' & Hfirst). rewrite Eu in Eu'. injection Eu' as <- <-.
  destruct Hfirst as [(? & _)|(_ & Hb80 & Hne)]; [lia|].
  destruct (decode_sequence_char ch b extra rest Hch Eu Hne) as [He Hd].
  pose proof (utf8_of_bytes ch Hrange) as Hb. rewrite Eu in Hb. apply Forall_cons in Hb as [[_ Hb] _].
  unfold decode_step. pose proof Hroom as Hroom'. unfold room in Hroom'.
  rewrite (proj2 (at_end_false _ _)) by (simpl; destruct (decompose c); lia).
  rewrite (proj2 (Z.ltb_ge b 0x80)), extra_bytes_read by (done || lia). cbn [mbind option_bind]. rewrite He.
  unfold state. cbn [utf8p utf8len ucsp combcharcnt]. unfold s32. rewrite (proj2 (Z.ltb_lt _ (2 ^ 31))) by lia.
  rewrite (proj2 (Z.ltb_ge _ 0)), (proj2 (Z.ltb_ge (zlen extra + n) _)) by lia. cbn [orb].
  rewrite Hd. cbn [mbind option_bind]. replace (zlen extra + n - zlen extra) with n by lia.
  unfold read. destruct (Z.ltb_spec ch 0x10000).
  - by apply decode_char_takes.
  - rewrite (Hpair ltac:(lia)), app_nil_r in *. unfold piece in *.
    rewrite (proj2 (Z.ltb_ge ch 0x80)), (proj2 (Z.ltb_ge ch 0x10000)) in * by lia.
    destruct (pair_in_range (ch - 0x10000)) as (Hhi & Elo & Ehi); [lia|].
    pose proof (Z.mod_pos_bound (ch - 0x10000) 1024) as Hmod. specialize (Hmod ltac:(lia)).
    assert (Hspan : span [(ch, false)] = 2) by (unfold span; simpl; by rewrite utf16_of_pair by lia).
    rewrite store_basic; [|done|unfold basic; unfold in_range in Hhi; lia|destruct (decompose c); lia].
    cbn [mbind option_bind]. rewrite (proj2 (at_end_false _ _)) by (rewrite length_app; simpl; destruct (decompose c); lia).
    rewrite Elo. unfold SP_LOW_FIRST, SP_LOW_LAST. rewrite !(proj2 (Z.ltb_ge _ _)) by lia. cbn [orb].
    rewrite store_basic; [|done|unfold basic; lia|rewrite length_app; simpl; destruct (decompose c); lia].
    cbn [mbind option_bind]. exists (D ++ canonical [] ++ utf16_of ch), [].
    split; [|by apply (takes_base ch []); [|lia|]].
    unfold state. rewrite utf16_of_pair, Ehi, app_nil_r, <- app_assoc by lia. done.
Qed.
End round.

(** ** A string *)

Lemma decode_loop_takes c buflen fuel : swapbytes c = false -> precompose c = false -> ∀ cs D run rest,
  (length cs < fuel)%nat -> Forall character cs -> Forall (λ ch, ch <> 0) cs -> zlen (utf8 cs) < 2 ^ 31 ->
  Forall basic run -> separated c (negb (is_nil run)) cs = true ->
  room c buflen (zlen (D ++ run) + span (pieces c cs)) ->
  decode_loop fuel c buflen (state (utf8 cs ++ rest) (zlen (utf8 cs)) D run)
  = Some (0, D ++ utf16 (arrange run (pieces c cs))).
Proof.
  intros Hswap Hpre. induction fuel as [|fuel IH]; intros cs D run rest Hf Hcs Hnz Hint Hr Hsep Hroom; [lia|].
  cbn [decode_loop]. destruct cs as [|ch cs].
  { unfold state. cbn [utf8 flat_map length utf8len ucsp combcharcnt pieces arrange]. cbn [Z.of_nat Z.eqb]. rewrite sort_run_canonical. cbn [mbind option_bind].
    by rewrite (utf16_basic _ (canonical_basic run Hr)). }
  apply Forall_cons in Hcs as [Hch Hcs]. apply Forall_cons in Hnz as [Hch0 Hnz].
  pose proof (character_range ch Hch) as Hrange.
  destruct (utf8_of_first ch Hrange) as (b & extra & Eu & Hfirst).
  assert (Hb0 : b <> 0) by (destruct Hfirst as [(? & -> & _)|(_ & ? & _)]; lia).
  assert (E8 : utf8 (ch :: cs) = b :: extra ++ utf8 cs) by (unfold utf8; simpl; by rewrite Eu).
  assert (Hlen : zlen (utf8 (ch :: cs)) = 1 + (zlen extra + zlen (utf8 cs))).
  { rewrite E8, length_cons, length_app. lia. }
  unfold state. cbn [utf8len utf8p ucsp combcharcnt]. rewrite (proj2 (Z.eqb_neq (zlen (utf8 (ch :: cs))) 0)) by lia.
  assert (En : next (utf8 (ch :: cs) ++ rest) = Some (b, (extra ++ utf8 cs) ++ rest)) by (by rewrite E8).
  rewrite En. cbn [mbind option_bind]. rewrite (proj2 (Z.eqb_neq b 0) Hb0).
  replace (zlen (utf8 (ch :: cs)) - 1) with (zlen extra + zlen (utf8 cs)) by lia.
  assert (Hfinal : is_nil cs = (zlen (utf8 cs) =? 0)).
  { destruct cs as [|ch2 cs]; [done|]. apply Forall_cons in Hcs as [Hch2 _].
    destruct (utf8_of_first ch2 (character_range _ Hch2)) as (b2 & extra2 & Eu2 & _).
    unfold utf8. simpl. rewrite Eu2. done. }
  cbn [pieces separated] in *. rewrite Hfinal in *. rewrite span_app in Hroom.
  apply andb_true_iff in Hsep as [Hpair Hsep].
  assert (Hstep : ∃ D' run', decode_step c buflen b (state ((extra ++ utf8 cs) ++ rest) (zlen extra + zlen (utf8 cs)) D run)
      = Some (inl (state (utf8 cs ++ rest) (zlen (utf8 cs)) D' run')) /\
    takes (piece c (zlen (utf8 cs) =? 0) ch) D run D' run').
  { assert (Hroom1 : room c buflen (zlen (D ++ run) + span (piece c (zlen (utf8 cs) =? 0) ch))).
    { unfold room in *. unfold span in *. lia. }
    rewrite <- app_assoc. destruct Hfirst as [(Ha & -> & ->)|(Ha & _ & _)].
    - apply step_ascii; try done. lia.
    - apply step_longer; try done || lia. intros Hbig. rewrite (proj2 (Z.leb_le _ _)) in Hpair by done.
      by destruct run. }
  destruct Hstep as (D' & run' & E & Ht).
  unfold state in E at 1. rewrite E. cbn [mbind option_bind].
  rewrite IH; [|simpl in Hf; lia|done|done|lia|apply Ht| |].
  - f_equal. f_equal. by rewrite (takes_arranged _ _ _ _ _ Ht).
  - by rewrite (takes_run _ _ _ _ _ Ht).
  - unfold room in *. rewrite (takes_span _ _ _ _ _ Ht). lia.
Qed.

Lemma length_flat_map_perm {A B} (f : A -> list B) l l' : l ≡ₚ l' -> length (flat_map f l) = length (flat_map f l').
Proof. induction 1; simpl; rewrite ?length_app; lia. Qed.

Lemma span_cons u mark l : span ((u, mark) :: l) = zlen (utf16_of u) + span l.
Proof. unfold span. rewrite fmap_cons. unfold utf16. simpl. rewrite length_app. lia. Qed.

Lemma arrange_length l : ∀ run, zlen (utf16 (arrange run l)) = zlen (utf16 run) + span l.
Proof.
  assert (Hrun : ∀ run, zlen (utf16 (canonical run)) = zlen (utf16 run)).
  { intros run. unfold utf16. rewrite (length_flat_map_perm _ (canonical run) run); [done|apply stable_sort_perm]. }
  induction l as [|[u [|]] l IH]; intros run; simpl arrange.
  - rewrite Hrun. unfold span. simpl. lia.
  - rewrite IH, utf16_app, length_app, span_cons. unfold utf16. simpl. rewrite app_nil_r. lia.
  - rewrite utf16_app, length_app, Nat2Z.inj_add, Hrun, span_cons. specialize (IH []).
    unfold utf16 in *. simpl in *. rewrite length_app. lia.
Qed.

Lemma utf8_length cs : Forall character cs -> (length cs <= length (utf8 cs))%nat.
Proof.
  induction 1 as [|ch cs Hch _ IH]; simpl; [done|]. rewrite length_app.
  destruct (utf8_of_first ch (character_range ch Hch)) as (b & extra & -> & _). simpl. lia.
Qed.

(** Decoding a string from the beginning. *)
Lemma decode_string c cs rest buflen : swapbytes c = false -> precompose c = false ->
  Forall character cs -> Forall (λ ch, ch <> 0) cs -> zlen (utf8 cs) < 2 ^ 31 ->
  separated c false cs = true -> room c buflen (span (pieces c cs)) ->
  utf8_decodestr (utf8 cs ++ rest) (zlen (utf8 cs)) buflen c = Some (0, utf16 (arranged c cs)).
Proof.
  intros Hswap Hpre Hcs Hnull Hsize Hsep Hroom.
  apply (decode_loop_takes c buflen _ Hswap Hpre cs [] [] rest); try done.
  rewrite length_app. pose proof (utf8_length cs Hcs). lia.
Qed.

Lemma arranged_length c cs : zlen (utf16 (arranged c cs)) = span (pieces c cs).
Proof. unfold arranged. rewrite arrange_length. simpl. lia. Qed.

(** C8 (functional): decoding the UTF-8 encoding of characters, none of them null, in the byte order of
    the machine (without [UTF_REVERSE_ENDIAN], with which the marks are not put in order) and without
    composing, gives the UTF-16 encoding of these characters: a character that decomposes replaced by
    its full decomposition when that was asked for, the characters of ASCII that Services for
    Macintosh rename replaced by their private characters ([sfm_name]) when that was asked for, the
    replacements of the slash and the null turned back, and the marks of every run in canonical
    order.  The buffer has room for the result, and for one unit more when decomposing (a buffer that
    is filled exactly is then refused with [ENAMETOOLONG]); the string is shorter than 2 GB; and a
    character outside of the basic plane must not directly follow a mark. *)
Theorem decodestr_correct c cs rest buflen (Hswap : swapbytes c = false) (Hcompose : precompose c = false)
    (Hcs : Forall character cs) (Hnull : Forall (λ ch, ch <> 0) cs) (Hsize : zlen (utf8 cs) < 2 ^ 31)
    (Hsep : separated c false cs = true) (Hroom : room c buflen (zlen (utf16 (arranged c cs)))) :
  utf8_decodestr (utf8 cs ++ rest) (zlen (utf8 cs)) buflen c = Some (0, utf16 (arranged c cs)).
Proof. rewrite arranged_length in Hroom. by apply decode_string. Qed.

(** An accent before a cedilla, and a character outside of the basic plane. *)
Lemma decodestr_correct_witness :
  utf8_decodestr (utf8 [0xE9; 0x327; 0x61; 0x1F600] ++ []) (zlen (utf8 [0xE9; 0x327; 0x61; 0x1F600]))
    14 (Config 0x3A UTF_DECOMPOSED) = Some (0, utf16 (arranged (Config 0x3A UTF_DECOMPOSED) [0xE9; 0x327; 0x61; 0x1F600])).
Proof.
  apply decodestr_correct; [done|done| | |by vm_compute|by vm_compute|by vm_compute].
  - repeat (constructor; [unfold character; lia|]). constructor.
  - by repeat constructor.
Defined.

(** What it gives there: the cedilla goes before the accent. *)
Example decoded_example :
  utf16 (arranged (Config 0x3A UTF_DECOMPOSED) [0xE9; 0x327; 0x61; 0x1F600])
  = [0x65; 0x327; 0x301; 0x61; 0xD83D; 0xDE00].
Proof. by vm_compute. Qed.

(** ** Where the statement ends *)

(** A decomposition that fills the buffer exactly is refused. *)
Example exact_fit_refused :
  utf8_decodestr (utf8 [0xE9]) 2 4 (Config 0x3A UTF_DECOMPOSED) = Some (ENAMETOOLONG, [0x65; 0x301]).
Proof. by vm_compute. Qed.

(** A character outside of the basic plane does not end a run of marks: the marks before it are
    sorted behind it. *)
Example pair_takes_mark :
  utf8_decodestr (utf8 [0x61; 0x301; 0x302; 0x303; 0x1F600]) 11 100 (Config 0x3A UTF_DECOMPOSED)
  = Some (0, [0x61; 0x301; 0x302; 0xD83D; 0xDE00; 0x303]).
Proof. by vm_compute. Qed.

(** A mark that decomposes begins a new run: U+0344 is two marks of class 230, that belong before the
    U+0315 of class 232. *)
Example mark_breaks_run :
  utf8_decodestr (utf8 [0x61; 0x315; 0x344]) 5 100 (Config 0x3A UTF_DECOMPOSED) = Some (0, [0x61; 0x315; 0x308; 0x301]) /\
  utf8_decodestr (utf8 [0x61; 0x315; 0x308; 0x301]) 7 100 (Config 0x3A UTF_DECOMPOSED)
  = Some (0, [0x61; 0x308; 0x301; 0x315]).
Proof. by vm_compute. Qed.

(** Composing leaves the length of the run one too high: the sort reaches before the buffer. *)
Example compose_counts_base :
  utf8_decodestr (utf8 [0x9C7; 0x9BE]) 6 100 (Config 0x3A UTF_PRECOMPOSED) = None.
Proof. by vm_compute. Qed.

(** A truncated character gives back bytes that it had not taken: the decoder reads behind the
    string. *)
Example truncated_escape_overruns :
  utf8_decodestr [0xC3] 1 100 (Config 0x3A UTF_ESCAPE_ILLEGAL) = None.
Proof. by vm_compute. Qed.

(** In the other byte order the classes are those of the characters with their bytes exchanged: the
    marks stay out of order. *)
Example swapped_not_sorted :
  utf8_decodestr (utf8 [0x61; 0x301; 0x327]) 5 100 (Config 0x3A UTF_REVERSE_ENDIAN)
  = Some (0, map OSSwapInt16 [0x61; 0x301; 0x327]).
Proof. by vm_compute. Qed.

End UtfCanon.
