(* ===== verification/UtfEncode.v ===== *)
(** Encoding UTF-16: [utf8_encodestr] against a reference that works on characters.

    The reference first reads the input as characters: the byte order put right, decompositions
    replaced, surrogate pairs joined.  Then it writes the UTF-8 encoding of one after the other as
    long as they fit. *)

From S2P Require Import Prelude.
From S2P Require Import UtfData.
From S2P Require Import Utf.
From S2P Require Import UtfTables.
From S2P Require Import UtfDecompose.
From S2P Require Import UtfSpec.
Import UtfData.UtfData Utf.Utf UtfTables.UtfTables UtfDecompose.UtfDecompose UtfSpec.UtfSpec.

Module UtfEncode.

(** ** The reference *)

(** The units that a unit of the input stands for. *)
Definition expanded (c : config) (raw : Z) : list Z :=
  let u := swapped c raw in if decompose c then decomposition u else [u].

Definition units (c : config) (ucs : list Z) : list Z := flat_map (expanded c) ucs.

Definition high (u : Z) : bool := (SP_HIGH_FIRST <=? u) && (u <=? SP_HIGH_LAST).
Definition low (u : Z) : bool := (SP_LOW_FIRST <=? u) && (u <=? SP_LOW_LAST).

(** Surrogate pairs joined; half of a pair that is alone stays. *)
Fixpoint code_points (us : list Z) : list Z :=
  match us with
  | [] => []
  | u :: t =>
      match t with
      | [] => [u]
      | lo :: t' =>
          if high u && low lo
          then (0x10000 + (u - SP_HIGH_FIRST) * 1024 + (lo - SP_LOW_FIRST)) :: code_points t'
          else u :: code_points t
      end
  end.

(** A slash and a null must not be in a name: the slash is replaced as the caller says, or by an
    underscore, which is an error when the caller says nothing; and the null by U+2400. *)
Definition replacement (c : config) (cp : Z) : Z :=
  if cp =? 0x2F then (if altslash c =? 0 then 0x5F else altslash c)
  else if cp =? 0 then 0x2400
  else cp.
Definition refused (c : config) (cp : Z) : bool := (cp =? 0x2F) && (altslash c =? 0).

(** The characters that the private characters of Services for Macintosh stand for: U+F000 on the
    controls, then those that Windows forbids, and a space and a period at the end. *)
Definition sfm_originals : list (Z * Z) :=
  [(0xF020, 0x22); (0xF021, 0x2A); (0xF022, 0x3A); (0xF023, 0x3C); (0xF024, 0x3E);
   (0xF025, 0x3F); (0xF026, 0x5C); (0xF027, 0x7C); (0xF028, 0x20); (0xF029, 0x2E)].
Definition sfm_original (u : Z) : Z :=
  if (0xF000 <=? u) && (u <? 0xF020) then u - 0xF000
  else if value_of sfm_originals u =? 0 then u else value_of sfm_originals u.

(** The character that is written for [cp]. *)
Definition written (c : config) (cp : Z) : Z := if sfmconv c then sfm_original cp else cp.

(** The result and the bytes for the characters [cps] behind [out]. *)
Fixpoint encode_points (c : config) (bufend : Z) (cps out : list Z) (result : Z) : Z * list Z :=
  match cps with
  | [] => (result, out)
  | cp :: cps =>
      let result := if refused c cp then EINVAL else result in
      let cp := replacement c cp in
      if (cp =? 0xFFFE) || (cp =? 0xFFFF) then (EINVAL, out)
      else
        let bytes := utf8_of (written c cp) in
        if bufend <? zlen out + zlen bytes then (ENAMETOOLONG, out)
        else encode_points c bufend cps (out ++ bytes) result
  end.

(** The code replaces the same characters. *)
Lemma permitted_eq c u result :
  permitted c u result = (replacement c u, if refused c u then EINVAL else result).
Proof.
  unfold permitted, replacement, refused, UCS_ALT_NULL, truth.
  by destruct (u =? 0x2F), (altslash c =? 0), (u =? 0).
Qed.

(** ** Bytes by bit operations *)

Lemma or_lead lead n x : forallb (λ x, Z.lor lead x =? lead + x) (seqZ 0 n) = true -> 0 <= x < n ->
  lead ||| x = lead + x.
Proof. intros H Hx. apply Z.eqb_eq. by apply (forallb_range (λ x, Z.lor lead x =? lead + x) 0 n x). Qed.

Lemma or_continuation u : 0x80 ||| (0x3f &&& u) = 0x80 + u mod 2 ^ 6.
Proof.
  rewrite Z.land_comm. change 0x3f with (Z.ones 6). rewrite Z.land_ones by lia.
  apply (or_lead _ 64); [by vm_compute|]. apply Z.mod_pos_bound. lia.
Qed.

Lemma bytes_two u : 0x80 <= u < 0x800 -> [0xc0 ||| Z.shiftr u 6; 0x80 ||| (0x3f &&& u)] = utf8_of u.
Proof.
  intros Hu. unfold utf8_of. rewrite (proj2 (Z.ltb_ge u _)), (proj2 (Z.ltb_lt u _)) by lia.
  rewrite or_continuation, Z.shiftr_div_pow2 by lia. f_equal.
  apply (or_lead _ 32); [by vm_compute|]. change (2 ^ 6) with 64. div_lia.
Qed.

Lemma bytes_three u : 0x800 <= u < 0x10000 ->
  [0xe0 ||| Z.shiftr u 12; 0x80 ||| (0x3f &&& Z.shiftr u 6); 0x80 ||| (0x3f &&& u)] = utf8_of u.
Proof.
  intros Hu. unfold utf8_of. rewrite !(proj2 (Z.ltb_ge u _)), (proj2 (Z.ltb_lt u _)) by lia.
  rewrite !or_continuation, !Z.shiftr_div_pow2 by lia. f_equal.
  apply (or_lead _ 16); [by vm_compute|]. change (2 ^ 12) with 4096. div_lia.
Qed.

Lemma bytes_four u : 0x10000 <= u < 0x110000 ->
  [0xf0 ||| Z.shiftr u 18; 0x80 ||| (0x3f &&& Z.shiftr u 12); 0x80 ||| (0x3f &&& Z.shiftr u 6);
   0x80 ||| (0x3f &&& u)] = utf8_of u.
Proof.
  intros Hu. unfold utf8_of. rewrite !(proj2 (Z.ltb_ge u _)) by lia.
  rewrite !or_continuation, !Z.shiftr_div_pow2 by lia. f_equal.
  apply (or_lead _ 8); [by vm_compute|]. change (2 ^ 18) with 262144. div_lia.
Qed.

Lemma put_utf8 buflen out u : 0 <= u < 0x110000 -> zlen out + zlen (utf8_of u) <= buflen ->
  put buflen out (utf8_of u) = Some (out ++ utf8_of u).
Proof.
  intros Hu Hroom. unfold put. rewrite (proj2 (Z.leb_le _ _)) by done.
  pose proof (utf8_of_bytes u Hu) as Hb. do 2 f_equal. clear Hroom.
  induction Hb as [|b l Hb _ IH]; [done|]. simpl. rewrite IH. by rewrite wrap_small.
Qed.

(** ** The character that is next *)

Lemma ordinary_not_high u : ordinary u = true -> high u = false /\ low u = false.
Proof.
  unfold ordinary, high, low, SP_HIGH_FIRST, SP_HIGH_LAST, SP_LOW_FIRST, SP_LOW_LAST.
  rewrite !andb_true_iff, !negb_true_iff, !andb_false_iff, !Z.leb_gt. lia.
Qed.

Lemma complete_ordinary ch h t : complete ch (h :: t) = true -> Forall (λ u, ordinary u = true) (h :: t).
Proof.
  unfold complete. rewrite andb_true_iff, forallb_forall. intros [H _].
  apply List.Forall_forall. intros u Hu%H. by apply andb_true_iff in Hu as [Hu _].
Qed.

Lemma swapped_range c raw : in_range 16 raw -> in_range 16 (swapped c raw).
Proof.
  intros Hr. unfold swapped. destruct (swapbytes c); [|done]. unfold OSSwapInt16.
  pose proof (wrap_range 16 (Z.shiftl raw 8) ltac:(lia)) as Hw. unfold in_range in *.
  assert (Hs : 0 <= Z.shiftr raw 8 < 2 ^ 16) by (rewrite Z.shiftr_div_pow2 by lia; div_lia).
  split; [apply Z.lor_nonneg; lia|].
  destruct (decide (u16 (Z.shiftl raw 8) ||| Z.shiftr raw 8 = 0)) as [->|Hne]; [lia|].
  apply Z.log2_lt_cancel. assert (0 <= u16 (Z.shiftl raw 8) ||| Z.shiftr raw 8) by (apply Z.lor_nonneg; lia).
  rewrite Z.log2_lor by lia. rewrite Z.log2_pow2 by lia.
  assert (Hlog : ∀ z, 0 <= z < 2 ^ 16 -> Z.log2 z < 16).
  { intros z Hz. destruct (decide (z = 0)) as [->|]; [done|]. apply Z.log2_lt_pow2; lia. }
  apply Z.max_lub_lt; by apply Hlog.
Qed.

(** The state of the loop: [pending] is what is left of a decomposition and [us] of the input. *)
Definition at_state (charcnt : Z) (ucsp chp : list Z) (extra : Z) (pending us beyond : list Z) : Prop :=
  extra = zlen pending /\ charcnt = zlen pending + zlen us /\ ucsp = us ++ beyond /\ (∃ more, chp = pending ++ more) /\
  Forall (λ u, ordinary u = true) pending /\ Forall (in_range 16) us.

Lemma next_char_step c charcnt ucsp chp extra pending us beyond :
  at_state charcnt ucsp chp extra pending us beyond -> 0 < charcnt ->
  ∃ u charcnt' ucsp' chp' extra' pending' us',
    next_char c (charcnt - 1) ucsp chp extra = Some (u, (charcnt', ucsp', chp', extra')) /\
    at_state charcnt' ucsp' chp' extra' pending' us' beyond /\
    pending ++ units c us = u :: pending' ++ units c us' /\
    (length pending' + 4 * length us' < length pending + 4 * length us)%nat /\ in_range 16 u /\
    (ordinary u = true \/ pending' = []).
Proof.
  intros (-> & -> & -> & (more & ->) & Hp & Hus) Hpos. unfold next_char.
  destruct pending as [|u pending].
  - simpl in *. destruct us as [|raw us]; [simpl in Hpos; lia|].
    apply Forall_cons in Hus as [Hraw Hus]. pose proof (swapped_range c raw Hraw) as Hu.
    rewrite length_cons. cbn [app head mbind option_bind tail].
    unfold units. cbn [flat_map]. unfold expanded at 1.
    assert (Hplain : ∃ u charcnt' ucsp' chp' extra' pending' us',
      Some (swapped c raw, (Z.of_nat (S (length us)) - 1, us ++ beyond, more, 0)) = Some (u, (charcnt', ucsp', chp', extra')) /\
      at_state charcnt' ucsp' chp' extra' pending' us' beyond /\
      [swapped c raw] ++ flat_map (expanded c) us = u :: pending' ++ flat_map (expanded c) us' /\
      (length pending' + 4 * length us' < 4 * S (length us))%nat /\ in_range 16 u /\
      (ordinary u = true \/ pending' = [])).
    { do 5 eexists. exists [], us. split; [done|]. split.
      - repeat split; [simpl; lia|by exists more|done|done].
      - repeat split; [simpl; lia|apply Hu..|by right]. }
    rewrite decomposeable_read. unfold and_also.
    destruct (decompose c); cbn [mbind option_bind]; [|apply Hplain].
    destruct (decomposeable (swapped c raw)) eqn:Hd; [|by rewrite decomposition_self].
    destruct (decompose_complete _ Hu Hd) as (h & t & E & Hok). rewrite E. cbn [mbind option_bind head tail].
    unfold decomposition. rewrite Hd, E. cbn [default].
    pose proof (complete_ordinary _ _ _ Hok) as Hord. apply Forall_cons in Hord as [Hh Ht].
    unfold complete in Hok. rewrite !andb_true_iff, Z.leb_le in Hok. destruct Hok as (_ & Hlen & _).
    do 5 eexists. exists t, us. split; [done|]. split.
    + repeat split; [rewrite length_cons; lia|rewrite length_cons; lia|by exists []; rewrite app_nil_r|done|done].
    + split; [done|]. split; [destruct (_ <? 0x800); lia|].
      split; [|by left]. unfold ordinary in Hh. rewrite !andb_true_iff, !Z.ltb_lt in Hh. unfold in_range. lia.
  - apply Forall_cons in Hp as [Hu Hp]. rewrite length_cons in *. rewrite (proj2 (Z.ltb_lt 0 _)) by lia.
    cbn [app head tail mbind option_bind]. do 5 eexists. exists pending, us. split; [done|]. split.
    + repeat split; [lia|lia|by exists more|done|done].
    + split; [done|]. split; [lia|]. split; [|by left].
      unfold ordinary in Hu. rewrite !andb_true_iff, !Z.ltb_lt in Hu. unfold in_range. lia.
Qed.

(** ** Writing one character *)

(** The conversion of the code is that of the list. *)
Lemma sfm_reads u : 0 <= u < 0x10000 -> sfm_to_ucs u = Some (sfm_original u).
Proof.
  intros Hu. unfold sfm_to_ucs, SFMCODE_PREFIX_MASK, MAX_SFM2MAC.
  replace 0xffC0 with (Z.shiftl (Z.ones 10) 6) by done. rewrite land_field by lia.
  change 0x3f with (Z.ones 6). rewrite Z.land_ones by lia.
  change (2 ^ 6) with 64. change (2 ^ 10) with 1024.
  destruct (_ && _) eqn:E.
  - apply andb_true_iff in E as [E1%Z.eqb_eq E2%Z.leb_le].
    assert (H : forallb (λ u, bool_decide (item sfm2mac (u mod 64) = Some (sfm_original u))) (seqZ 0xF000 42) = true)
      by (by vm_compute).
    apply (forallb_range _ _ _ u) in H; [cbv beta in H; by rewrite bool_decide_eq_true in H|div_lia].
  - rewrite andb_false_iff, Z.eqb_neq, Z.leb_gt in E. f_equal. symmetry.
    assert (Hout : u < 0xF000 \/ 0xF02A <= u) by div_lia. unfold sfm_original.
    replace ((0xF000 <=? u) && (u <? 0xF020)) with false
      by (symmetry; rewrite andb_false_iff, Z.leb_gt, Z.ltb_ge; lia).
    cbn [value_of sfm_originals]. by repeat rewrite (proj2 (Z.eqb_neq _ u)) by lia.
Qed.

Lemma sfm_range u : sfm_original u = u \/ 0 <= sfm_original u < 0x80 /\ 0xF000 <= u < 0xF02A.
Proof.
  unfold sfm_original. destruct ((0xF000 <=? u) && (u <? 0xF020)) eqn:E.
  { apply andb_true_iff in E as [?%Z.leb_le ?%Z.ltb_lt]. lia. }
  destruct (Z.eqb_spec (value_of sfm_originals u) 0) as [|Hn]; [by left|]. right.
  assert (H : forallb (λ '(k, v), (0 <=? v) && (v <? 0x80) && (0xF000 <=? k) && (k <? 0xF02A)) sfm_originals = true)
    by done.
  rewrite forallb_forall in H. apply value_of_in in Hn as [i Hi%list_elem_of_lookup_2%list_elem_of_In].
  apply H in Hi. rewrite !andb_true_iff, !Z.leb_le, !Z.ltb_lt in Hi. lia.
Qed.

Lemma written_low c u : u < 0xf000 \/ 0xf02A <= u -> written c u = u.
Proof. intros Hu. unfold written. destruct (sfmconv c); [|done]. destruct (sfm_range u); [done|lia]. Qed.

Section emit.
Context (buflen bufend : Z) (out : list Z) (K : list Z -> option (Z * list Z)).
Hypothesis Hend : bufend <= buflen.

(** The reference writes [u] and goes on. *)
Let emitted (u : Z) : option (Z * list Z) :=
  if bufend <? zlen out + zlen (utf8_of u) then Some (ENAMETOOLONG, out) else K (out ++ utf8_of u).

Lemma emit_bytes u n bytes : 0 <= u < 0x110000 -> bytes = utf8_of u -> zlen bytes = n + 1 ->
  (if bufend <=? zlen out + n then Some (ENAMETOOLONG, out) else o ← put buflen out bytes; K o) = emitted u.
Proof.
  intros Hu -> Hn. unfold emitted. rewrite Hn.
  destruct (Z.leb_spec bufend (zlen out + n)), (Z.ltb_spec bufend (zlen out + (n + 1))); try lia; [done|].
  by rewrite put_utf8 by lia.
Qed.

Lemma emit_one u : 0 <= u < 0x80 ->
  (if bufend <=? zlen out then Some (ENAMETOOLONG, out) else o ← put buflen out [u]; K o) = emitted u.
Proof.
  intros Hu. rewrite <- (emit_bytes u 0 [u]); [by rewrite Z.add_0_r|lia| |done].
  unfold utf8_of. by rewrite (proj2 (Z.ltb_lt u _)) by lia.
Qed.

Lemma emit_two u : 0x80 <= u < 0x800 ->
  (if bufend <=? zlen out + 1 then Some (ENAMETOOLONG, out)
   else o ← put buflen out [0xc0 ||| Z.shiftr u 6; 0x80 ||| (0x3f &&& u)]; K o) = emitted u.
Proof. intros Hu. apply emit_bytes; [lia|by apply bytes_two|done]. Qed.

Lemma emit_three u : 0x800 <= u < 0x10000 ->
  (if bufend <=? zlen out + 2 then Some (ENAMETOOLONG, out)
   else o ← put buflen out [0xe0 ||| Z.shiftr u 12; 0x80 ||| (0x3f &&& Z.shiftr u 6); 0x80 ||| (0x3f &&& u)]; K o)
  = emitted u.
Proof. intros Hu. apply emit_bytes; [lia|by apply bytes_three|done]. Qed.

Lemma emit_four u : 0x10000 <= u < 0x110000 ->
  (if bufend <=? zlen out + 3 then Some (ENAMETOOLONG, out)
   else o ← put buflen out [0xf0 ||| Z.shiftr u 18; 0x80 ||| (0x3f &&& Z.shiftr u 12);
                            0x80 ||| (0x3f &&& Z.shiftr u 6); 0x80 ||| (0x3f &&& u)]; K o) = emitted u.
Proof. intros Hu. apply emit_bytes; [lia|by apply bytes_four|done]. Qed.

(** A character of three bytes, or of one when it stands for a character that Windows forbids. *)
Lemma emit_sfm c u : 0x800 <= u < 0x10000 ->
  (if sfmconv c then
     u ← sfm_to_ucs u;
     if u <? 0x80 then
       if bufend <=? zlen out then Some (ENAMETOOLONG, out) else o ← put buflen out [u]; K o
     else
       if bufend <=? zlen out + 2 then Some (ENAMETOOLONG, out)
       else o ← put buflen out [0xe0 ||| Z.shiftr u 12; 0x80 ||| (0x3f &&& Z.shiftr u 6); 0x80 ||| (0x3f &&& u)]; K o
   else
     if bufend <=? zlen out + 2 then Some (ENAMETOOLONG, out)
     else o ← put buflen out [0xe0 ||| Z.shiftr u 12; 0x80 ||| (0x3f &&& Z.shiftr u 6); 0x80 ||| (0x3f &&& u)]; K o)
  = emitted (written c u).
Proof.
  intros Hu. unfold written. destruct (sfmconv c); [|by apply emit_three].
  rewrite sfm_reads by lia. cbn [mbind option_bind].
  destruct (sfm_range u) as [->|[Hs _]].
  - rewrite (proj2 (Z.ltb_ge u 0x80)) by lia. by apply emit_three.
  - rewrite (proj2 (Z.ltb_lt _ 0x80)) by lia. by apply emit_one.
Qed.
End emit.

(** ** Pairs *)

Lemma high_range u : high u = true -> 0xD800 <= u <= 0xDBFF.
Proof. unfold high, SP_HIGH_FIRST, SP_HIGH_LAST. rewrite andb_true_iff, !Z.leb_le. lia. Qed.

Lemma low_range u : low u = true -> 0xDC00 <= u <= 0xDFFF.
Proof. unfold low, SP_LOW_FIRST, SP_LOW_LAST. rewrite andb_true_iff, !Z.leb_le. lia. Qed.

Lemma code_points_single u us :
  high u = false \/ match us with [] => True | lo :: _ => low lo = false end ->
  code_points (u :: us) = u :: code_points us.
Proof.
  intros H. destruct us as [|lo us]; [done|]. simpl. by destruct H as [-> | ->]; rewrite ?andb_false_r.
Qed.

Lemma code_points_pair u lo us : high u = true -> low lo = true ->
  code_points (u :: lo :: us) = (0x10000 + (u - SP_HIGH_FIRST) * 1024 + (lo - SP_LOW_FIRST)) :: code_points us.
Proof. intros Hu Hlo. simpl. by rewrite Hu, Hlo. Qed.

(** A unit of a pair does not decompose. *)
Lemma expanded_low c raw : in_range 16 raw -> low (swapped c raw) = true -> expanded c raw = [swapped c raw].
Proof.
  intros Hr Hl. unfold expanded. destruct (decompose c); [|done]. apply decomposition_self.
  destruct (decomposeable (swapped c raw)) eqn:Hd; [|done]. exfalso.
  assert (Hx : in_range 16 (swapped c raw)) by (by apply swapped_range).
  destruct (decomposeable_cases _ Hx Hd) as [Hh%hangul_range|[v Hv]].
  - apply low_range in Hl. unfold HANGUL_SBASE, HANGUL_SCOUNT in Hh. lia.
  - assert (Hall : forallb (λ entry, negb (low entry.1)) entries = true) by (by vm_compute).
    rewrite forallb_forall in Hall. apply list_elem_of_In, Hall in Hv. cbn [fst] in Hv. by rewrite Hl in Hv.
Qed.

(** Otherwise nothing that the unit stands for begins with the second half of a pair. *)
Lemma units_not_low c raw us : in_range 16 raw -> low (swapped c raw) = false ->
  match units c (raw :: us) with [] => True | lo :: _ => low lo = false end.
Proof.
  intros Hr Hl. unfold units. cbn [flat_map]. unfold expanded at 1. destruct (decompose c); [|done].
  destruct (decomposeable (swapped c raw)) eqn:Hd; [|by rewrite decomposition_self].
  destruct (decompose_complete _ (swapped_range c raw Hr) Hd) as (h & t & E & Hok).
  unfold decomposition. rewrite Hd, E. simpl.
  apply complete_ordinary, Forall_cons in Hok as [Hh _]. by apply ordinary_not_high.
Qed.

(** ** The loop *)

(** The replacement of the slash is no half of a pair. *)
Definition altslash_ok (c : config) : Prop :=
  in_range 16 (altslash c) /\ high (altslash c) = false /\ low (altslash c) = false.

Lemma replacement_range c u : altslash_ok c -> in_range 16 u ->
  in_range 16 (replacement c u) /\
  (replacement c u = u /\ refused c u = false \/ high (replacement c u) = false /\ high u = false).
Proof.
  intros (Ha & Hh & _) Hu. unfold replacement, refused.
  destruct (Z.eqb_spec u 0x2f) as [->|]; [destruct (altslash c =? 0)|destruct (Z.eqb_spec u 0) as [->|]]; cbn [andb];
    (split; [done|]); try (by right); by left.
Qed.

Section loop.
Context (c : config) (buflen bufend : Z).
Hypothesis Hend : bufend <= buflen.
Hypothesis Hslash : altslash_ok c.

Lemma at_state_pair charcnt ucsp chp extra raw us beyond :
  at_state charcnt ucsp chp extra [] (raw :: us) beyond ->
  at_state (charcnt - 1) (tail ucsp) chp extra [] us beyond.
Proof.
  intros (-> & -> & -> & ? & ? & Hus). apply Forall_cons in Hus as [_ Hus].
  repeat split; try done. rewrite length_cons. lia.
Qed.

(** A round that writes one character, [u1] for [u]; [us] are the units behind it and [K] the rest of
    the loop. *)
Section single.
Context (u u1 result result1 : Z) (out us : list Z) (K : list Z -> Z -> option (Z * list Z)).
Hypothesis Hreplaced : u1 = replacement c u.
Hypothesis Hresult : result1 = if refused c u then EINVAL else result.
Hypothesis Hrest : ∀ out result, K out result = Some (encode_points c bufend (code_points us) out result).

Lemma round_single : code_points (u :: us) = u :: code_points us -> (u1 =? 0xFFFE) || (u1 =? 0xFFFF) = false ->
  (if bufend <? zlen out + zlen (utf8_of (written c u1)) then Some (ENAMETOOLONG, out)
   else K (out ++ utf8_of (written c u1)) result1)
  = Some (encode_points c bufend (code_points (u :: us)) out result).
Proof.
  intros E Hok. rewrite E. cbn [encode_points]. rewrite <- Hreplaced, <- Hresult, Hok. destruct (_ <? _); [done|]. apply Hrest.
Qed.

Lemma round_short : high u = false -> 0 <= u1 < 0x800 ->
  (if bufend <? zlen out + zlen (utf8_of u1) then Some (ENAMETOOLONG, out) else K (out ++ utf8_of u1) result1)
  = Some (encode_points c bufend (code_points (u :: us)) out result).
Proof.
  intros Hh Hu1. rewrite <- (written_low c u1) by lia. apply round_single.
  - apply code_points_single. by left.
  - by rewrite !(proj2 (Z.eqb_neq u1 _)) by lia.
Qed.
End single.

(** The same for a surrogate pair. *)
Lemma round_pair fuel u raw us charcnt ucsp chp extra beyond out result :
  (∀ charcnt ucsp chp extra pending us beyond out result, at_state charcnt ucsp chp extra pending us beyond ->
     (length pending + 4 * length us < fuel)%nat ->
     encode_loop fuel c buflen bufend charcnt ucsp chp extra out result
     = Some (encode_points c bufend (code_points (pending ++ units c us)) out result)) ->
  at_state charcnt ucsp chp extra [] (raw :: us) beyond -> (4 * length us < fuel)%nat ->
  in_range 16 raw -> high u = true -> low (swapped c raw) = true ->
  let p := 0x10000 + (u - SP_HIGH_FIRST) * 1024 + (swapped c raw - SP_LOW_FIRST) in
  (if bufend <? zlen out + zlen (utf8_of p) then Some (ENAMETOOLONG, out)
   else encode_loop fuel c buflen bufend (charcnt - 1) (tail ucsp) chp extra (out ++ utf8_of p) result)
  = Some (encode_points c bufend (code_points (u :: units c (raw :: us))) out result).
Proof.
  intros IH Hst Hf Hraw Hu Hlow p. unfold units. cbn [flat_map].
  rewrite expanded_low by done. cbn [app]. rewrite code_points_pair by done. fold p.
  assert (Hp : 0x10000 <= p).
  { apply high_range in Hu. apply low_range in Hlow. unfold p, SP_HIGH_FIRST, SP_LOW_FIRST. lia. }
  cbn [encode_points]. unfold replacement, refused.
  rewrite !(proj2 (Z.eqb_neq p _)) by lia. cbn [andb orb]. rewrite written_low by lia.
  destruct (_ <? _); [done|]. rewrite (IH _ _ _ _ [] us beyond); [done| |done].
  by apply (at_state_pair _ _ _ _ raw).
Qed.

(** What is written for a unit below the surrogates is not for the first half of a pair. *)
Lemma below_not_high u u1 (result result1 : Z) : u1 = u /\ result1 = result \/ high u1 = false /\ high u = false ->
  u1 < 0xD800 \/ 0xDBFF < u1 -> high u = false.
Proof. intros [[-> _]|[_ Hu]] Hr; [|done]. apply not_true_is_false. intros Hh%high_range. lia. Qed.

Lemma encode_loop_points fuel : ∀ charcnt ucsp chp extra pending us beyond out result,
  at_state charcnt ucsp chp extra pending us beyond ->
  (length pending + 4 * length us < fuel)%nat ->
  encode_loop fuel c buflen bufend charcnt ucsp chp extra out result
  = Some (encode_points c bufend (code_points (pending ++ units c us)) out result).
Proof.
  induction fuel as [|fuel IH]; intros charcnt ucsp chp extra pending us beyond out result Hst Hf; [lia|].
  cbn [encode_loop]. destruct (Z.leb_spec charcnt 0) as [Hdone|Hmore].
  { destruct Hst as (_ & -> & _). destruct pending as [|? ?]; [|simpl in Hdone; lia].
    destruct us as [|? ?]; [done|simpl in Hdone; lia]. }
  destruct (next_char_step c _ _ _ _ _ _ _ Hst Hmore)
    as (u & charcnt' & ucsp' & chp' & extra' & pending' & us' & -> & Hst' & -> & Hlt & Hu & Hord).
  cbn [mbind option_bind].
  rewrite permitted_eq. destruct (replacement_range c u Hslash Hu) as [Hu1 Hsame0].
  remember (replacement c u) as u1 eqn:Eu1. remember (if refused c u then EINVAL else result) as result1 eqn:Er1.
  assert (Hsame : u1 = u /\ result1 = result \/ high u1 = false /\ high u = false).
  { destruct Hsame0 as [[-> Hr]|?]; [left|by right]. by rewrite Er1, Hr. }
  assert (Hgo : ∀ out result, encode_loop fuel c buflen bufend charcnt' ucsp' chp' extra' out result
    = Some (encode_points c bufend (code_points (pending' ++ units c us')) out result)).
  { intros. eapply IH; [done|lia]. }
  pose proof (below_not_high _ _ _ _ Hsame) as Hnh. unfold in_range in Hu1.
  destruct (Z.ltb_spec u1 0x80) as [H80|H80].
  { rewrite (emit_one _ _ _ _ Hend) by lia. eapply round_short; [done|done|apply Hgo|apply Hnh; lia|lia]. }
  destruct (Z.ltb_spec u1 0x800) as [H800|H800].
  { rewrite (emit_two _ _ _ _ Hend) by lia. eapply round_short; [done|done|apply Hgo|apply Hnh; lia|lia]. }
  destruct ((u1 =? 0xFFFE) || (u1 =? 0xFFFF)) eqn:Hbad.
  { rewrite code_points_single; [cbn [encode_points]; by rewrite <- Eu1, Hbad|].
    left. apply Hnh. rewrite orb_true_iff, !Z.eqb_eq in Hbad. lia. }
  fold (high u1). destruct (high u1 && (0 <? charcnt')) eqn:Hpair.
  - apply andb_true_iff in Hpair as [Hhigh Hpos%Z.ltb_lt].
    destruct Hsame as [[-> ->]|[? _]]; [|congruence].
    destruct Hord as [Hord| ->]; [apply ordinary_not_high in Hord as [? _]; congruence|].
    pose proof Hst' as (_ & Ecnt & Eucsp & _ & _ & Hus'). destruct us' as [|raw us2]; [simpl in Ecnt; lia|].
    apply Forall_cons in Hus' as [Hraw _].
    rewrite Eucsp at 1. cbn [app head mbind option_bind]. fold (low (swapped c raw)).
    destruct (low (swapped c raw)) eqn:Hlow.
    + apply high_range in Hhigh as Hh. apply low_range in Hlow as Hl.
      unfold SP_HALF_SHIFT, SP_HALF_BASE. rewrite Z.shiftl_mul_pow2 by lia. change (2 ^ 10) with 1024.
      replace (_ + _ + 65536) with (0x10000 + (u - SP_HIGH_FIRST) * 1024 + (swapped c raw - SP_LOW_FIRST)) by lia.
      rewrite (emit_four _ _ _ _ Hend) by (unfold SP_HIGH_FIRST, SP_LOW_FIRST; lia).
      apply (round_pair fuel u raw us2 _ _ _ _ beyond); try done. simpl in Hlt, Hf. lia.
    + rewrite (emit_three _ _ _ _ Hend) by lia. apply high_range in Hhigh.
      replace (utf8_of u) with (utf8_of (written c u)) by (by rewrite written_low by lia). eapply round_single; [done|done|apply Hgo| |done].
      apply code_points_single. right. by apply units_not_low.
  - rewrite (emit_sfm _ _ _ _ Hend) by lia. eapply round_single; [done|done|apply Hgo| |done].
    apply code_points_single. apply andb_false_iff in Hpair as [Hn|Hpos%Z.ltb_ge].
    + left. by destruct Hsame as [[<- _]|[_ ?]].
    + right. destruct Hst' as (_ & -> & _).
      destruct pending' as [|? ?]; [|simpl in Hpos; lia]. by destruct us' as [|? ?]; [|simpl in Hpos; lia].
Qed.
End loop.

(** ** The whole string *)

Lemma encode_points_length c bufend cps : ∀ out result, zlen out <= bufend ->
  zlen (encode_points c bufend cps out result).2 <= bufend.
Proof.
  induction cps as [|cp cps IH]; intros out result Hout; [done|]. cbn [encode_points].
  destruct (_ || _); [done|].
  destruct (Z.ltb_spec bufend (zlen out + zlen (utf8_of (written c (replacement c cp))))); [done|].
  apply IH. rewrite length_app. lia.
Qed.

(** The bytes of the buffer for the encoder, one being kept for the null. *)
Definition room_end (c : config) (buflen : Z) : Z := if nullterm c then buflen - 1 else buflen.
Definition terminator (c : config) : list Z := if nullterm c then [0] else [].

Lemma encodestr_points c ucs beyond ucslen buflen : altslash_ok c -> Forall (in_range 16) ucs ->
  ucslen / 2 = zlen ucs -> 0 <= room_end c buflen ->
  utf8_encodestr (ucs ++ beyond) ucslen buflen c =
  Some (let '(result, out) := encode_points c (room_end c buflen) (code_points (units c ucs)) [] 0 in
        (result, zlen out, out ++ terminator c)).
Proof.
  intros Hslash Hucs Hlen Hroom. unfold utf8_encodestr. fold (room_end c buflen).
  rewrite (encode_loop_points c buflen (room_end c buflen)
    ltac:(unfold room_end; destruct (nullterm c); lia) Hslash _ _ _ _ _ [] ucs beyond).
  - cbn [app mbind option_bind].
    pose proof (encode_points_length c (room_end c buflen) (code_points (units c ucs)) [] 0 Hroom) as Hl.
    destruct (encode_points _ _ _ _ _) as [result out]. cbn [snd] in Hl.
    unfold terminator, room_end in *. destruct (nullterm c); [|by rewrite app_nil_r].
    unfold put. rewrite (proj2 (Z.leb_le _ _)) by (simpl; lia). done.
  - rewrite Hlen. repeat split; [by exists []|done|done].
  - unfold enough. rewrite length_app. simpl. lia.
Qed.

(** C9 (equivalence): encoding any units into any buffer with at least a byte for the null is the
    reference on characters: the byte order put right, decompositions replaced, surrogate pairs
    joined, then the UTF-8 encodings one after the other up to the first character that does not fit
    or is U+FFFE or U+FFFF.  A slash is replaced by the caller's character, or by an underscore with
    [EINVAL] when there is none, a null by U+2400, and the private characters of Services for
    Macintosh by those they stand for when that was asked for.  It reads only the units of the length
    and stays inside of the buffer.  The caller's replacement is a unit of 16 bits that is no half of
    a surrogate pair. *)
Theorem encodestr_correct c ucs beyond ucslen buflen (Hslash : altslash_ok c) (Hucs : Forall (in_range 16) ucs)
    (Hlen : ucslen / 2 = zlen ucs) (Hroom : 0 <= room_end c buflen) :
  ∃ result out, encode_points c (room_end c buflen) (code_points (units c ucs)) [] 0 = (result, out) /\
    utf8_encodestr (ucs ++ beyond) ucslen buflen c = Some (result, zlen out, out ++ terminator c) /\
    zlen (out ++ terminator c) <= buflen.
Proof.
  pose proof (encode_points_length c (room_end c buflen) (code_points (units c ucs)) [] 0 Hroom) as Hl.
  rewrite encodestr_points by done. destruct (encode_points _ _ _ _ _) as [result out].
  exists result, out. split; [done|]. split; [done|]. cbn [snd] in Hl.
  rewrite length_app. unfold terminator, room_end in *. destruct (nullterm c); simpl; lia.
Qed.

Lemma encodestr_correct_witness :
  let c := Config 0x3A UTF_DECOMPOSED in let ucs := [0x61; 0x2F; 0xE9; 0xD83D; 0xDE00; 0xDC00; 0xFFFE] in
  ∃ result out, encode_points c (room_end c 20) (code_points (units c ucs)) [] 0 = (result, out) /\
    utf8_encodestr (ucs ++ []) 15 20 c = Some (result, zlen out, out ++ terminator c) /\
    zlen (out ++ terminator c) <= 20.
Proof.
  cbv zeta. apply encodestr_correct; [by vm_compute| |done|by vm_compute].
  repeat (constructor; [by vm_compute|]). constructor.
Defined.

(** What the reference gives there: a lone second half is written, the bad unit ends it. *)
Example encoded_example :
  let c := Config 0x3A UTF_DECOMPOSED in
  encode_points c 19 (code_points (units c [0x61; 0x2F; 0xE9; 0xD83D; 0xDE00; 0xDC00; 0xFFFE])) [] 0
  = (EINVAL, [0x61; 0x3A; 0x65; 0xCC; 0x81; 0xF0; 0x9F; 0x98; 0x80; 0xED; 0xB0; 0x80]).
Proof. by vm_compute. Qed.

(** A null that Services for Macintosh stand for is written as a null byte. *)
Example sfm_writes_null :
  utf8_encodestr [0x61; 0xF000; 0x62] 6 10 (Config 0x3A (UTF_SFM_CONVERSIONS + UTF_NO_NULL_TERM))
  = Some (0, 3, [0x61; 0; 0x62]).
Proof. by vm_compute. Qed.

(** Without room for the null one byte is written behind the buffer. *)
Example encode_needs_a_byte : utf8_encodestr [0x61] 2 0 (Config 0x3A 0) = None.
Proof. by vm_compute. Qed.

End UtfEncode.
