(* ===== verification/UtfMain.v ===== *)
(** The conversions together: the length in advance, names there and back, and normalization. *)

From S2P Require Import Prelude.
From S2P Require Import UtfData.
From S2P Require Import Utf.
From S2P Require Import UtfTables.
From S2P Require Import UtfDecompose.
From S2P Require Import UtfSort.
From S2P Require Import UtfSpec.
From S2P Require Import UtfText.
From S2P Require Import UtfDecode.
From S2P Require Import UtfCanon.
From S2P Require Import UtfEncode.
Import UtfData.UtfData Utf.Utf UtfTables.UtfTables UtfDecompose.UtfDecompose UtfSort.UtfSort.
Import UtfSpec.UtfSpec UtfText.UtfText UtfDecode.UtfDecode UtfCanon.UtfCanon UtfEncode.UtfEncode.

Module UtfMain.

(** ** Characters as units *)

(** What is written for a character when slashes have a replacement. *)
Definition shown (c : config) (cp : Z) : Z := written c (replacement c cp).

(** The result of a string with a slash that has no replacement. *)
Definition slash_result (c : config) (cps : list Z) : Z :=
  if truth (altslash c) then 0 else if existsb (Z.eqb 0x2f) cps then EINVAL else 0.

Lemma character_units ch : character ch ->
  Forall (in_range 16) (utf16_of ch) /\ ∀ us, code_points (utf16_of ch ++ us) = ch :: code_points us.
Proof.
  intros Hch. pose proof (character_range ch Hch) as Hr. unfold utf16_of, character in *.
  destruct (Z.ltb_spec ch 0x10000).
  - split; [by repeat constructor; unfold in_range; lia|]. intros us. apply code_points_single. left.
    apply not_true_is_false. intros ?%high_range. lia.
  - change (2 ^ 10) with 1024. split; [repeat constructor; unfold in_range; div_lia|].
    intros us. cbn [app]. rewrite code_points_pair.
    + f_equal. unfold SP_HIGH_FIRST, SP_LOW_FIRST. div_lia.
    + unfold high, SP_HIGH_FIRST, SP_HIGH_LAST. rewrite andb_true_iff, !Z.leb_le. div_lia.
    + unfold low, SP_LOW_FIRST, SP_LOW_LAST. rewrite andb_true_iff, !Z.leb_le. div_lia.
Qed.

Lemma code_points_utf16 cs : Forall character cs -> code_points (utf16 cs) = cs.
Proof.
  induction 1 as [|ch cs Hch _ IH]; [done|]. unfold utf16 in *. simpl.
  by rewrite (proj2 (character_units ch Hch)), IH.
Qed.

Lemma utf16_range cs : Forall character cs -> Forall (in_range 16) (utf16 cs).
Proof.
  induction 1 as [|ch cs Hch _ IH]; [done|]. unfold utf16 in *. simpl.
  apply Forall_app. split; [|done]. by apply character_units.
Qed.

Lemma units_plain c us : swapbytes c = false -> decompose c = false -> units c us = us.
Proof.
  intros Hs Hd. unfold units. induction us as [|u us IH]; [done|]. simpl. rewrite IH.
  unfold expanded, swapped. by rewrite Hs, Hd.
Qed.

(** ** Encoding what fits *)

Lemma encode_points_fits c bufend cps : ∀ out result,
  Forall (λ cp, replacement c cp <> 0xFFFE /\ replacement c cp <> 0xFFFF) cps ->
  zlen out + zlen (utf8 (map (shown c) cps)) <= bufend ->
  encode_points c bufend cps out result
  = (if slash_result c cps =? 0 then result else EINVAL, out ++ utf8 (map (shown c) cps)).
Proof.
  induction cps as [|cp cps IH]; intros out result Hok Hroom.
  { simpl. rewrite app_nil_r. unfold slash_result. by destruct (truth _). }
  apply Forall_cons in Hok as [[H1 H2] Hok]. unfold utf8 in *. cbn [encode_points map flat_map] in *.
  rewrite (proj2 (Z.eqb_neq (replacement c cp) _)), (proj2 (Z.eqb_neq (replacement c cp) _)) by done. cbn [orb]. fold (shown c cp). rewrite length_app in Hroom.
  rewrite (proj2 (Z.ltb_ge _ _)) by lia. rewrite IH; [|done|rewrite length_app; lia].
  rewrite <- app_assoc. f_equal. unfold slash_result. cbn [existsb]. rewrite (Z.eqb_sym 0x2f cp). unfold refused, truth.
  destruct (altslash c =? 0); cbn [negb]; [rewrite andb_true_r|by rewrite andb_false_r].
  destruct (cp =? 0x2f); simpl; by destruct (existsb _ _).
Qed.

(** ** Names there and back *)

(** The directions without options. *)
Record plain (c : config) : Prop := {
  plain_swap : swapbytes c = false;
  plain_decompose : decompose c = false;
  plain_precompose : precompose c = false;
  plain_sfm : sfmconv c = false }.

(** A character of a name on disk: not the replacements of slash and null. *)
Definition name_char (c : config) (ch : Z) : Prop := character ch /\ ch <> altslash c /\ ch <> UCS_ALT_NULL.

Definition mark (ch : Z) : bool := (ch <? 0x10000) && combinable ch.

(** The characters with the marks of every run in canonical order. *)
Definition in_order (cs : list Z) : list Z := arrange [] (map (λ ch, (ch, mark ch)) cs).

(** No character outside of the basic plane directly behind a mark. *)
Fixpoint spaced (inrun : bool) (cs : list Z) : bool :=
  match cs with
  | [] => true
  | ch :: cs => (if 0x10000 <=? ch then negb inrun else true) && spaced (mark ch) cs
  end.

Section names.
Context (c : config).
Hypothesis Hplain : plain c.
Hypothesis Halt : character (altslash c) /\ altslash c < 0x10000 /\ altslash c <> 0 /\ altslash c <> UCS_ALT_NULL.

Lemma shown_char ch : name_char c ch -> character (shown c ch) /\ shown c ch <> 0 /\
  ∀ final, piece c final (shown c ch) = [(ch, mark ch)].
Proof.
  intros (Hch & Ha & Hn). pose proof (character_range ch Hch) as Hr.
  destruct Halt as (Hac & Ha16 & Ha0 & Han). destruct Hplain as [Hs Hd Hp Hf].
  unfold shown, written, replacement, mark. rewrite Hf, (proj2 (Z.eqb_neq (altslash c) 0)) by done.
  destruct (Z.eqb_spec ch 0x2f) as [->|H2f].
  { split; [done|]. split; [done|]. intros final. unfold piece. rewrite Hf, Hd. cbn [andb].
    rewrite (proj2 (Z.ltb_lt _ 0x10000)), (proj2 (Z.eqb_neq (altslash c) UCS_ALT_NULL)) by done.
    unfold single. rewrite Z.eqb_refl. by destruct (_ <? _). }
  destruct (Z.eqb_spec ch 0) as [->|H0].
  { split; [by unfold character, UCS_ALT_NULL; lia|]. split; [done|]. intros final. unfold piece.
    rewrite Hd. cbn -[single]. unfold single. by rewrite (proj2 (Z.eqb_neq 0 _)) by lia. }
  split; [done|]. split; [done|]. intros final. unfold piece. rewrite Hd, Hf. cbn [andb].
  assert (Hone : single c ch = [(ch, combinable ch)]).
  { unfold single. by rewrite (proj2 (Z.eqb_neq ch _)). }
  destruct (Z.ltb_spec ch 0x80); [by rewrite (proj2 (Z.ltb_lt ch 0x10000)) by lia|].
  destruct (Z.ltb_spec ch 0x10000); [|done]. by rewrite (proj2 (Z.eqb_neq ch UCS_ALT_NULL)).
Qed.

Lemma shown_pieces cs : Forall (name_char c) cs ->
  pieces c (map (shown c) cs) = map (λ ch, (ch, mark ch)) cs.
Proof.
  induction 1 as [|ch cs Hch _ IH]; [done|]. simpl.
  destruct (shown_char ch Hch) as (_ & _ & ->). by rewrite IH.
Qed.

Lemma shown_separated cs : Forall (name_char c) cs -> ∀ inrun, spaced inrun cs = true ->
  separated c inrun (map (shown c) cs) = true.
Proof.
  induction 1 as [|ch cs Hch _ IH]; [done|]. intros inrun. simpl.
  destruct (shown_char ch Hch) as (Hs & _ & ->). rewrite !andb_true_iff. intros [Hpair Hsp].
  split; [|by apply IH]. destruct Hch as (Hch & _). destruct Halt as (_ & Ha16 & _).
  destruct (Z.leb_spec 0x10000 (shown c ch)) as [Hbig|]; [|done].
  replace (0x10000 <=? ch) with true in Hpair; [done|]. symmetry. apply Z.leb_le.
  unfold shown, written, replacement in Hbig. rewrite (plain_sfm _ Hplain) in Hbig.
  destruct (ch =? 0x2f); [destruct (altslash c =? 0); lia|]. destruct (ch =? 0); [lia|done].
Qed.

Lemma shown_replacement ch : replacement c ch = shown c ch.
Proof. unfold shown, written. by rewrite (plain_sfm c Hplain). Qed.

Lemma shown_encodable cs : Forall (name_char c) cs ->
  Forall (λ ch, replacement c ch <> 0xFFFE /\ replacement c ch <> 0xFFFF) cs.
Proof.
  intros H. eapply Forall_impl; [done|]. intros ch Hch. simpl. rewrite shown_replacement.
  destruct (shown_char ch Hch) as ((_ & ? & ?) & _). done.
Qed.

Lemma shown_string cs : Forall (name_char c) cs ->
  Forall character (map (shown c) cs) /\ Forall (λ ch, ch <> 0) (map (shown c) cs).
Proof.
  intros H. split; apply List.Forall_map; (eapply Forall_impl; [done|]); intros ch Hch;
    by destruct (shown_char ch Hch) as (? & ? & _).
Qed.

Lemma altslash_fine : altslash_ok c.
Proof.
  destruct Halt as (Ha & Ha16 & _). pose proof (character_range _ Ha). unfold character in Ha. split; [unfold in_range; lia|].
  split; apply not_true_is_false; intros Hh; [apply high_range in Hh|apply low_range in Hh]; lia.
Qed.
End names.

Lemma in_order_span cs : span (map (λ ch, (ch, mark ch)) cs) = zlen (utf16 cs).
Proof.
  assert (E : (map (λ ch, (ch, mark ch)) cs).*1 = cs).
  { induction cs as [|ch cs IH]; [done|]. simpl. by f_equal. }
  unfold span. by rewrite E.
Qed.

Lemma in_order_bases cs : Forall (λ ch, mark ch = false) cs -> in_order cs = cs.
Proof.
  unfold in_order. induction 1 as [|ch cs Hm _ IH]; [done|]. simpl. rewrite Hm. simpl. by rewrite IH.
Qed.

(** C16 (roundtrip): a name of characters, written to UTF-8 and read back in the byte order of the
    machine, without decomposing, composing or the conversions of Services for Macintosh and with the
    same replacement for the slash, gives the same characters with the marks of every run in canonical
    order, so that a name without marks comes back as it was.  On the way every slash is written as
    the replacement and every null as U+2400 ([replacement]), and they come back.  The replacement is
    a character of the basic plane, not null and not U+2400; the name contains neither it nor U+2400,
    and no character outside of the basic plane directly behind a mark; the buffers have room, and the
    bytes are less than 2 GB. *)
Theorem names_roundtrip c cs buflen buflen' (Hplain : plain c)
    (Halt : character (altslash c) /\ altslash c < 0x10000 /\ altslash c <> 0 /\ altslash c <> UCS_ALT_NULL)
    (Hname : Forall (name_char c) cs) (Hspaced : spaced false cs = true)
    (Hsize : zlen (utf8 (map (shown c) cs)) < 2 ^ 31)
    (Hroom : zlen (utf8 (map (shown c) cs) ++ terminator c) <= buflen) (Hroom' : 2 * zlen (utf16 cs) <= buflen') :
  let bytes := utf8 (map (shown c) cs) in
  utf8_encodestr (utf16 cs) (2 * zlen (utf16 cs)) buflen c = Some (0, zlen bytes, bytes ++ terminator c) /\
  utf8_decodestr (bytes ++ terminator c) (zlen bytes) buflen' c = Some (0, utf16 (in_order cs)) /\
  (Forall (λ ch, mark ch = false) cs -> in_order cs = cs).
Proof.
  intros bytes. destruct (shown_string c Hplain Halt cs Hname) as [Hchars Hnz].
  assert (Hcs : Forall character cs) by (eapply Forall_impl; [done|]; by intros ch (? & _)).
  rewrite length_app in Hroom. split; [|split; [|apply in_order_bases]].
  - rewrite <- (app_nil_r (utf16 cs)) at 1.
    rewrite encodestr_points; [|by apply altslash_fine|by apply utf16_range|by rewrite Z.mul_comm, Z.div_mul|].
    + rewrite units_plain, code_points_utf16 by (done || apply Hplain).
      rewrite encode_points_fits; [|by apply shown_encodable|unfold terminator, room_end in *; destruct (nullterm c); simpl in *; lia].
      unfold slash_result. destruct Halt as (_ & _ & Ha & _). by rewrite (proj2 (truth_true _) Ha).
    + unfold terminator, room_end in *. destruct (nullterm c); simpl in Hroom; lia.
  - unfold bytes. rewrite decode_string; [|apply Hplain..|done|done|done|by apply shown_separated|].
    + unfold arranged. by rewrite shown_pieces.
    + rewrite shown_pieces, in_order_span by done. unfold room. rewrite (plain_decompose c Hplain). lia.
Qed.

Lemma names_roundtrip_witness :
  let c := Config 0x3A 0 in let cs := [0x61; 0x2F; 0x301; 0x327; 0; 0x1F600; 0xE9] in
  let bytes := utf8 (map (shown c) cs) in
  utf8_encodestr (utf16 cs) (2 * zlen (utf16 cs)) 40 c = Some (0, zlen bytes, bytes ++ terminator c) /\
  utf8_decodestr (bytes ++ terminator c) (zlen bytes) 40 c = Some (0, utf16 (in_order cs)) /\
  (Forall (λ ch, mark ch = false) cs -> in_order cs = cs).
Proof.
  cbv zeta. apply names_roundtrip; [done|unfold character, UCS_ALT_NULL; simpl; lia| |by vm_compute|by vm_compute|by vm_compute|by vm_compute].
  repeat (constructor; [unfold name_char, character, UCS_ALT_NULL; simpl; lia|]). constructor.
Defined.

(** ** The length in advance *)

(** The bytes that [utf8_encodelen] counts for units. *)
Fixpoint counted (c : config) (us : list Z) : Z :=
  match us with
  | [] => 0
  | u :: us => UNICODE_TO_UTF8_LEN (replacement c u) + counted c us
  end.

Lemma ordinary_kept c u : ordinary u = true -> replacement c u = u.
Proof.
  unfold ordinary, replacement. rewrite !andb_true_iff, !negb_true_iff, Z.ltb_lt, !Z.eqb_neq.
  intros [[[[H0 _] H2f] _] _]. by rewrite !(proj2 (Z.eqb_neq u _)) by lia.
Qed.

(** A round of the loop counts the character that [utf8_encodestr] takes next. *)
Lemma len_loop_step fuel c charcnt ucsp chp extra pending us beyond len :
  at_state charcnt ucsp chp extra pending us beyond -> 0 < charcnt ->
  len_loop (S fuel) c charcnt ucsp chp extra len =
  match next_char c (charcnt - 1) ucsp chp extra with
  | Some (u, (charcnt', ucsp', chp', extra')) =>
      len_loop fuel c charcnt' ucsp' chp' extra' (len + UNICODE_TO_UTF8_LEN (replacement c u))
  | None => None
  end.
Proof.
  intros (-> & -> & -> & (more & ->) & Hp & Hus) Hpos. cbn [len_loop]. rewrite (proj2 (Z.leb_gt _ 0)) by done.
  unfold next_char. destruct pending as [|u pending].
  - cbn [length app]. change (0 <? Z.of_nat 0) with false. cbn iota.
    destruct us as [|raw us]; [simpl in Hpos; lia|]. cbn [app head mbind option_bind tail].
    apply Forall_cons in Hus as [Hraw _]. pose proof (swapped_range c raw Hraw) as Hu.
    rewrite decomposeable_read. unfold replacement.
    destruct (Z.eqb_spec (swapped c raw) 0x2f) as [E|H2f].
    { rewrite E. replace (and_also (decompose c) (Some (decomposeable 0x2f))) with (Some false)
        by (by destruct (decompose c)).
      cbn. unfold truth. by destruct (altslash c =? 0). }
    destruct (Z.eqb_spec (swapped c raw) 0) as [E|H0].
    { rewrite E. by replace (and_also (decompose c) (Some (decomposeable 0))) with (Some false)
        by (by destruct (decompose c)). }
    unfold and_also. destruct (decompose c); cbn [mbind option_bind]; [|by rewrite !(proj2 (Z.eqb_neq (swapped c raw) _))].
    destruct (decomposeable (swapped c raw)) eqn:Hd; [|by rewrite !(proj2 (Z.eqb_neq (swapped c raw) _))].
    destruct (decompose_complete _ Hu Hd) as (h & t & -> & Hok).
    cbn [mbind option_bind head tail]. apply complete_ordinary, Forall_cons in Hok as [Hh _].
    fold (replacement c h). by rewrite ordinary_kept.
  - apply Forall_cons in Hp as [Hu _]. rewrite length_cons, (proj2 (Z.ltb_lt 0 _)) by lia.
    cbn [app head mbind option_bind tail]. by rewrite ordinary_kept.
Qed.

Lemma len_loop_counts c fuel : ∀ charcnt ucsp chp extra pending us beyond len,
  at_state charcnt ucsp chp extra pending us beyond -> (length pending + 4 * length us < fuel)%nat ->
  len_loop fuel c charcnt ucsp chp extra len = Some (len + counted c (pending ++ units c us)).
Proof.
  induction fuel as [|fuel IH]; intros charcnt ucsp chp extra pending us beyond len Hst Hf; [lia|].
  destruct (Z.leb_spec charcnt 0) as [Hdone|Hmore].
  { cbn [len_loop]. rewrite (proj2 (Z.leb_le _ 0)) by done. destruct Hst as (_ & -> & _).
    destruct pending as [|? ?]; [|simpl in Hdone; lia]. destruct us as [|? ?]; [|simpl in Hdone; lia].
    simpl. f_equal. lia. }
  rewrite (len_loop_step _ _ _ _ _ _ _ _ _ _ Hst Hmore).
  destruct (next_char_step c _ _ _ _ _ _ _ Hst Hmore)
    as (u & charcnt' & ucsp' & chp' & extra' & pending' & us' & -> & Hst' & -> & Hlt & _).
  rewrite (IH _ _ _ _ _ _ _ _ Hst') by lia. cbn [counted]. f_equal. lia.
Qed.

(** The length of one unit, with two bytes for each half of a pair. *)
Lemma unit_length u : in_range 16 u -> high u = false -> low u = false ->
  UNICODE_TO_UTF8_LEN u = zlen (utf8_of u).
Proof.
  unfold in_range. intros Hu Hh Hl. rewrite utf8_of_length by lia. unfold UNICODE_TO_UTF8_LEN.
  destruct (u <? 0x80); [done|]. destruct (Z.ltb_spec u 0x800); [done|]. rewrite (proj2 (Z.ltb_lt u 0x10000)) by lia.
  replace 0xf800 with (Z.shiftl (Z.ones 5) 11) by done. rewrite land_field by lia.
  unfold high, SP_HIGH_FIRST, SP_HIGH_LAST, low, SP_LOW_FIRST, SP_LOW_LAST in *.
  rewrite andb_false_iff, !Z.leb_gt in Hh, Hl. change (2 ^ 11) with 2048. change (2 ^ 5) with 32.
  rewrite (proj2 (Z.eqb_neq _ _)); [done|]. div_lia.
Qed.

Lemma half_length u : high u = true \/ low u = true -> ∀ c, UNICODE_TO_UTF8_LEN (replacement c u) = 2.
Proof.
  intros Hh c. assert (Hu : 0xD800 <= u <= 0xDFFF) by (destruct Hh as [?%high_range|?%low_range]; lia).
  unfold replacement. rewrite !(proj2 (Z.eqb_neq u _)) by lia. unfold UNICODE_TO_UTF8_LEN.
  rewrite !(proj2 (Z.ltb_ge u _)) by lia. replace 0xf800 with (Z.shiftl (Z.ones 5) 11) by done.
  rewrite land_field by lia. change (2 ^ 11) with 2048. change (2 ^ 5) with 32.
  by replace ((u / 2048) mod 32 * 2048 =? 0xd800) with true by (symmetry; apply Z.eqb_eq; div_lia).
Qed.

(** Units without a lone half of a pair. *)
Definition paired (us : list Z) : Prop := Forall (λ cp, high cp = false /\ low cp = false) (code_points us).

Lemma shown_unit c u : altslash_ok c -> sfmconv c = false -> in_range 16 u -> high u = false -> low u = false ->
  UNICODE_TO_UTF8_LEN (replacement c u) = zlen (utf8_of (shown c u)).
Proof.
  intros (Ha & Hah & Hal) Hsfm Hu Hh Hl. unfold shown, written. rewrite Hsfm.
  unfold replacement. destruct (u =? 0x2f); [destruct (altslash c =? 0)|destruct (u =? 0)]; by apply unit_length.
Qed.

Lemma counted_points c : altslash_ok c -> sfmconv c = false -> ∀ us, Forall (in_range 16) us -> paired us ->
  counted c us = zlen (utf8 (map (shown c) (code_points us))).
Proof.
  intros Hslash Hsfm us. induction us as [us IH] using (induction_ltof1 _ length). intros Hus Hpaired.
  destruct us as [|u us]; [done|]. apply Forall_cons in Hus as [Hu Hus].
  assert (Hsingle : code_points (u :: us) = u :: code_points us ->
    counted c (u :: us) = zlen (utf8 (map (shown c) (code_points (u :: us))))).
  { intros E. unfold paired in Hpaired. rewrite E in *. apply Forall_cons in Hpaired as [[Hh Hl] Hpaired].
    cbn [counted map]. unfold utf8. cbn [flat_map]. rewrite length_app, shown_unit, IH; try done; [unfold utf8; lia|].
    unfold ltof. simpl. lia. }
  destruct us as [|lo us]; [by apply Hsingle|].
  destruct (high u) eqn:Hh; [|apply Hsingle, code_points_single; by left].
  destruct (low lo) eqn:Hl; [|apply Hsingle, code_points_single; by right].
  unfold paired in Hpaired. rewrite code_points_pair in * by done. apply Forall_cons in Hpaired as [_ Hpaired].
  apply Forall_cons in Hus as [Hlo Hus]. cbn [counted map]. unfold utf8. cbn [flat_map].
  rewrite length_app, (half_length u), (half_length lo), IH; try done; [|unfold ltof; simpl; lia|by right|by left].
  apply high_range in Hh. apply low_range in Hl. unfold SP_HIGH_FIRST, SP_LOW_FIRST.
  set (p := _ + _ + _). assert (Hp : 0x10000 <= p < 0x110000) by (unfold p; lia).
  replace (shown c p) with p.
  - pose proof (utf8_of_length p ltac:(lia)) as E. rewrite !(proj2 (Z.ltb_ge p _)) in E by lia. unfold utf8. lia.
  - unfold shown, replacement. rewrite !(proj2 (Z.eqb_neq p _)) by lia. unfold written. by rewrite Hsfm.
Qed.

Lemma expanded_range c raw : in_range 16 raw -> Forall (in_range 16) (expanded c raw).
Proof.
  intros Hraw. pose proof (swapped_range c raw Hraw) as Hu. unfold expanded.
  destruct (decompose c); [|by constructor]. destruct (decomposeable (swapped c raw)) eqn:Hd.
  - destruct (decompose_complete _ Hu Hd) as (h & t & E & Hok). unfold decomposition. rewrite Hd, E.
    destruct (complete_parts _ _ _ Hok) as (_ & _ & Hall).
    eapply Forall_impl; [apply Hall|]. intros u. unfold basic, in_range. lia.
  - rewrite decomposition_self by done. by constructor.
Qed.

Lemma units_range c us : Forall (in_range 16) us -> Forall (in_range 16) (units c us).
Proof.
  induction 1 as [|raw us Hraw _ IH]; [done|]. unfold units in *. simpl.
  apply Forall_app. split; [by apply expanded_range|done].
Qed.

(** For units without a lone half of a surrogate pair and without conversion for
    Services for Macintosh, [utf8_encodelen] is the number of bytes that [utf8_encodestr] writes before
    the null into a buffer of that size and one more for the null, decompositions and replacements
    included, unless it meets U+FFFE or U+FFFF. *)
Theorem encodelen_exact c ucs beyond ucslen (Hslash : altslash_ok c) (Hsfm : sfmconv c = false)
    (Hucs : Forall (in_range 16) ucs) (Hlen : ucslen / 2 = zlen ucs) (Hpaired : paired (units c ucs))
    (Hvalid : Forall (λ cp, replacement c cp <> 0xFFFE /\ replacement c cp <> 0xFFFF)
                (code_points (units c ucs))) :
  ∃ len result out, utf8_encodelen (ucs ++ beyond) ucslen c = Some len /\ zlen out = len /\
    utf8_encodestr (ucs ++ beyond) ucslen (len + zlen (terminator c)) c
    = Some (result, len, out ++ terminator c).
Proof.
  set (out := utf8 (map (shown c) (code_points (units c ucs)))).
  assert (Hend : room_end c (zlen out + zlen (terminator c)) = zlen out).
  { unfold room_end, terminator. destruct (nullterm c); simpl; lia. }
  eexists (zlen out), _, out. split; [|split; [done|]].
  - unfold utf8_encodelen. rewrite (len_loop_counts c _ _ _ _ _ [] ucs beyond).
    + simpl. by rewrite counted_points by (done || by apply units_range).
    + rewrite Hlen. repeat split; [by exists []|done|done].
    + unfold enough. rewrite length_app. simpl. lia.
  - rewrite encodestr_points by (done || rewrite Hend; lia). rewrite Hend.
    rewrite encode_points_fits; [done|done|]. simpl. unfold out. lia.
Qed.

Lemma encodelen_exact_witness :
  let c := Config 0x3A UTF_DECOMPOSED in let ucs := [0x61; 0x2F; 0xE9; 0xD83D; 0xDE00; 0] in
  ∃ len result out, utf8_encodelen (ucs ++ []) 12 c = Some len /\ zlen out = len /\
    utf8_encodestr (ucs ++ []) 12 (len + zlen (terminator c)) c = Some (result, len, out ++ terminator c).
Proof.
  cbv zeta. apply encodelen_exact; [by vm_compute|done| |done| |].
  - repeat (constructor; [by vm_compute|]). constructor.
  - vm_compute. by repeat constructor.
  - vm_compute. by repeat constructor.
Defined.

(** A lone half counts as two bytes and is written as three: the length is too small. *)
Example lone_half_counts_two :
  utf8_encodelen [0xD83D] 2 (Config 0x3A 0) = Some 2 /\
  utf8_encodestr [0xD83D] 2 3 (Config 0x3A 0) = Some (ENAMETOOLONG, 0, [0]).
Proof. by vm_compute. Qed.

End UtfMain.
