(* ===== verification/UtfNormal.v ===== *)
(** Normalization: [utf8_normalizestr] to the decomposed form.

    It is decoding with decomposition followed by encoding; a string without a character outside of
    ASCII is copied.  For strings that decoding puts in order ([UtfCanon.separated]) the result is the
    encoding of the characters that [UtfCanon.arranged] gives, and normalizing it again changes
    nothing. *)

From S2P Require Import Prelude.
From S2P Require Import UtfData.
From S2P Require Import Utf.
From S2P Require Import UtfTables.
From S2P Require Import UtfDecompose.
From S2P Require Import UtfSort.
From S2P Require Import UtfSpec.
From S2P Require Import UtfText.
From S2P Require Import UtfDecode.
From S2P Require Import UtfCanon.
From S2P Require Import UtfEncode.
From S2P Require Import UtfMain.
Import UtfData.UtfData Utf.Utf UtfTables.UtfTables UtfDecompose.UtfDecompose UtfSort.UtfSort.
Import UtfSpec.UtfSpec UtfText.UtfText UtfDecode.UtfDecode UtfCanon.UtfCanon UtfEncode.UtfEncode UtfMain.UtfMain.

Module UtfNormal.

(** The decoder of the decomposed form. *)
Definition nfd : config := Config 0 UTF_DECOMPOSED.

(** The flags with and without the null at the end. *)
Definition nfd_flags (nullterm : bool) : Z := UTF_DECOMPOSED + (if nullterm then 0 else UTF_NO_NULL_TERM).

Definition nul (nullterm : bool) : list Z := if nullterm then [0] else [].

(** A character of a string that normalization keeps: no slash, and nothing that becomes a null. *)
Definition normal_char (ch : Z) : Prop := character ch /\ ch <> 0 /\ ch <> 0x2f /\ ch <> UCS_ALT_NULL.

(** ** The characters of the result *)

Lemma arrange_perm l : ∀ run, arrange run l ≡ₚ run ++ l.*1.
Proof.
  induction l as [|[u [|]] l IH]; intros run; simpl.
  - rewrite app_nil_r. apply stable_sort_perm.
  - rewrite IH. by rewrite <- app_assoc.
  - rewrite IH, stable_sort_perm. done.
Qed.

Lemma ordinary_normal u : ordinary u = true -> normal_char u.
Proof.
  unfold ordinary, normal_char, character, SP_HIGH_FIRST, SP_LOW_LAST.
  rewrite !andb_true_iff, !negb_true_iff, andb_false_iff, !Z.ltb_lt, !Z.eqb_neq, !Z.leb_gt. lia.
Qed.

(** What a character becomes. *)
Lemma nfd_piece final ch : normal_char ch ->
  piece nfd final ch = [(ch, mark ch)] /\ decomposeable ch = false \/
  piece nfd final ch = [(ch, false)] /\ 0x10000 <= ch \/
  decomposeable ch = true /\ ∃ base marks, piece nfd final ch = (base, false) :: map (λ u, (u, true)) marks /\
    complete ch (base :: marks) = true /\ ch < 0x10000.
Proof.
  intros (Hch & H0 & H2f & Hn). pose proof (character_range ch Hch) as Hr. unfold piece, mark.
  assert (Hsingle : single nfd ch = [(ch, combinable ch)]).
  { unfold single. cbn [altslash nfd]. by rewrite (proj2 (Z.eqb_neq ch 0)). }
  destruct (Z.ltb_spec ch 0x80).
  { left. rewrite (proj2 (Z.ltb_lt ch 0x10000)) by lia. cbn [andb]. split; [done|].
    apply decomposeable_low. lia. }
  destruct (Z.ltb_spec ch 0x10000); [|by right; left]. cbn [andb].
  change (decompose nfd) with true. cbn [andb]. destruct (decomposeable ch) eqn:Hd.
  - right. right. split; [done|].
    destruct (decompose_complete ch) as (base & marks & E & Hok); [unfold in_range; lia|done|].
    exists base, marks. unfold decomposition. rewrite Hd, E. done.
  - left. rewrite (proj2 (Z.eqb_neq ch UCS_ALT_NULL)) by done. done.
Qed.

(** The characters of the result are kept by normalization, and do not decompose. *)
Definition final_char (u : Z) : Prop := normal_char u /\ (0x10000 <= u \/ decomposeable u = false).

Lemma piece_chars final ch : normal_char ch -> Forall final_char (piece nfd final ch).*1 /\ (piece nfd final ch).*1 <> [].
Proof.
  intros Hch. destruct (nfd_piece final ch Hch) as [[-> Hd]|[[-> Hb]|(_ & base & marks & -> & Hok & _)]].
  - split; [|done]. constructor; [|done]. by split; [|right].
  - split; [|done]. constructor; [|done]. by split; [|left].
  - split; [|done]. rewrite fmap_cons, marked_fst. cbn [fst]. unfold complete in Hok.
    apply andb_true_iff in Hok as [Hall _]. rewrite forallb_forall in Hall. apply List.Forall_forall.
    intros u Hu%Hall. apply andb_true_iff in Hu as [Hu Hnd%negb_true_iff].
    split; [by apply ordinary_normal|by right].
Qed.

Lemma pieces_chars cs : Forall normal_char cs ->
  Forall final_char (pieces nfd cs).*1 /\ (length cs <= length (pieces nfd cs))%nat.
Proof.
  induction 1 as [|ch cs Hch _ [IH1 IH2]]; [done|]. cbn [pieces]. rewrite fmap_app, length_app.
  destruct (piece_chars (is_nil cs) ch Hch) as [Hp Hne]. split; [by apply Forall_app|].
  simpl. destruct (piece nfd (is_nil cs) ch); [done|]. simpl. lia.
Qed.

Lemma arranged_chars cs : Forall normal_char cs ->
  Forall final_char (arranged nfd cs) /\ (length cs <= length (arranged nfd cs))%nat.
Proof.
  intros Hcs. destruct (pieces_chars cs Hcs) as [Hp Hl]. unfold arranged.
  rewrite arrange_perm. split; [done|]. simpl. by rewrite length_fmap.
Qed.

(** ** Characters outside of ASCII *)

Lemma ascii_loop_stops cs : ∀ rest buflen out, Forall character cs -> Forall (λ ch, ch <> 0) cs ->
  Exists (λ ch, 0x80 <= ch) cs -> zlen out + zlen cs <= buflen ->
  ∃ out', ascii_loop (utf8 cs ++ rest) (zlen (utf8 cs)) buflen out = Some (NonAscii, out').
Proof.
  induction cs as [|ch cs IH]; intros rest buflen out Hcs Hnz Hex Hroom; [by inversion Hex|].
  apply Forall_cons in Hcs as [Hch Hcs]. apply Forall_cons in Hnz as [Hch0 Hnz]. rewrite length_cons in Hroom.
  pose proof (character_range ch Hch) as Hr.
  destruct (utf8_of_first ch Hr) as (b & extra & Eu & Hfirst). unfold utf8 in *. cbn [flat_map].
  rewrite Eu. cbn [app ascii_loop]. rewrite length_cons. rewrite (proj2 (Z.eqb_neq (Z.of_nat (S _)) 0)) by lia.
  destruct Hfirst as [(Ha & -> & ->)|(Ha & Hb & _)].
  - rewrite (proj2 (Z.eqb_neq ch 0)), (proj2 (Z.leb_gt _ (zlen out))), (proj2 (Z.leb_gt _ ch)) by lia.
    unfold put. rewrite (proj2 (Z.leb_le _ _)) by (simpl; lia). cbn [mbind option_bind app].
    replace (Z.of_nat (S (length (flat_map utf8_of cs))) - 1) with (zlen (flat_map utf8_of cs)) by lia.
    apply IH; [done|done| |rewrite length_app; simpl; lia].
    apply Exists_cons in Hex as [?|?]; [lia|done].
  - rewrite (proj2 (Z.eqb_neq b 0)), (proj2 (Z.leb_gt _ (zlen out))), (proj2 (Z.leb_le _ b)) by lia. by eexists.
Qed.

(** A string of ASCII is copied. *)
Lemma ascii_loop_copies cs : ∀ rest buflen out, Forall (λ ch, 0 < ch < 0x80) cs -> zlen out + zlen cs <= buflen ->
  ascii_loop (cs ++ rest) (zlen cs) buflen out = Some (AllCopied, out ++ cs).
Proof.
  induction cs as [|ch cs IH]; intros rest buflen out Hcs Hroom.
  { rewrite app_nil_r. by destruct rest. }
  apply Forall_cons in Hcs as [Hch Hcs]. cbn [app ascii_loop]. rewrite length_cons in *.
  rewrite (proj2 (Z.eqb_neq (Z.of_nat (S _)) 0)), (proj2 (Z.eqb_neq ch 0)), (proj2 (Z.leb_gt _ (zlen out))),
    (proj2 (Z.leb_gt _ ch)) by lia.
  unfold put. rewrite (proj2 (Z.leb_le _ _)) by (simpl; lia). cbn [mbind option_bind map].
  rewrite wrap_small by (unfold in_range; lia).
  replace (Z.of_nat (S (length cs)) - 1) with (zlen cs) by lia.
  rewrite IH; [by rewrite <- app_assoc|done|rewrite length_app; simpl; lia].
Qed.

(** ** The result *)

Lemma nfd_flag_tests nullterm :
  Z.ldiff (nfd_flags nullterm) UTF_NO_NULL_TERM = UTF_DECOMPOSED /\
  truth (Z.ldiff (nfd_flags nullterm) (UTF_DECOMPOSED ||| UTF_PRECOMPOSED ||| UTF_NO_NULL_TERM ||| UTF_ESCAPE_ILLEGAL))
  = false /\
  truth (nfd_flags nullterm &&& UTF_DECOMPOSED) = true /\ truth (nfd_flags nullterm &&& UTF_PRECOMPOSED) = false /\
  ((nfd_flags nullterm &&& UTF_NO_NULL_TERM) =? 0) = nullterm.
Proof. by destruct nullterm. Qed.

Lemma normalize_exit_fits nullterm buflen result out : zlen (out ++ nul nullterm) <= buflen ->
  normalize_exit (nfd_flags nullterm) buflen result out = Some (result, zlen out, out ++ nul nullterm).
Proof.
  intros Hroom. unfold normalize_exit. destruct (nfd_flag_tests nullterm) as (_ & _ & _ & _ & ->).
  rewrite length_app in Hroom. destruct nullterm; simpl in *; [|by rewrite app_nil_r].
  rewrite (proj2 (Z.ltb_lt _ _)) by lia. unfold put. by rewrite (proj2 (Z.leb_le _ _)) by (simpl; lia).
Qed.

(** Nothing is replaced when the result is written. *)
Lemma shown_final cs : Forall final_char cs -> let c := Config 0 UTF_NO_NULL_TERM in
  map (shown c) cs = cs /\ slash_result c cs = 0 /\
  Forall (λ cp, replacement c cp <> 0xFFFE /\ replacement c cp <> 0xFFFF) cs.
Proof.
  intros H c.
  assert (Hone : ∀ u, final_char u -> replacement c u = u).
  { intros u ((_ & H0 & H2f & _) & _). unfold replacement. by rewrite !(proj2 (Z.eqb_neq u _)). }
  induction H as [|u cs Hu _ (IH1 & IH2 & IH3)]; [done|]. unfold slash_result in *. cbn [map existsb altslash c] in *.
  unfold shown at 1, written. rewrite (Hone u Hu). change (sfmconv c) with false. cbn iota. rewrite IH1.
  pose proof (Hone u Hu) as Hu'. destruct Hu as [(Hch & _ & H2f & _) _]. rewrite (proj2 (Z.eqb_neq 0x2f u)) by done.
  split; [done|]. split; [done|]. constructor; [|done]. rewrite Hu'. apply Hch.
Qed.

Lemma final_character cs : Forall final_char cs -> Forall character cs /\ Forall (λ ch, ch <> 0) cs /\ Forall normal_char cs.
Proof.
  intros H. split; [|split]; (eapply Forall_impl; [done|]); intros ch [Hch _].
  - apply Hch.
  - apply Hch.
  - done.
Qed.

(** A string with a character outside of ASCII. *)
Lemma normalize_nonascii nullterm cs rest buflen : Forall normal_char cs -> Exists (λ ch, 0x80 <= ch) cs ->
  separated nfd false cs = true -> zlen (utf8 cs) <= MAXPATHLEN ->
  2 * zlen (utf16 (arranged nfd cs)) + 2 <= 3 * zlen (utf8 cs) ->
  zlen (utf8 (arranged nfd cs) ++ nul nullterm) <= buflen ->
  utf8_normalizestr (utf8 cs ++ rest) (zlen (utf8 cs)) buflen (nfd_flags nullterm)
  = Some (0, zlen (utf8 (arranged nfd cs)), utf8 (arranged nfd cs) ++ nul nullterm).
Proof.
  intros Hcs Hex Hsep Hmax Hroom Hbuf.
  destruct (arranged_chars cs Hcs) as [Hfinal Hlen]. destruct (final_character _ Hfinal) as (HA & _ & _).
  assert (Hchars : Forall character cs) by (eapply Forall_impl; [done|]; by intros ch (? & _)).
  assert (Hnz : Forall (λ ch, ch <> 0) cs) by (eapply Forall_impl; [exact Hcs|]; intros ch (_ & H0 & _); exact H0).
  unfold utf8_normalizestr. destruct (nfd_flag_tests nullterm) as (Eflags & -> & -> & -> & _). cbn [andb orb negb].
  destruct (ascii_loop_stops cs rest buflen [] Hchars Hnz Hex) as (out' & ->).
  { pose proof (utf8_length _ HA). rewrite length_app in Hbuf. simpl. lia. }
  cbn [mbind option_bind]. rewrite (proj2 (Z.ltb_ge MAXPATHLEN _)) by done. rewrite Eflags.
  fold nfd. rewrite decode_string; [|done|done|done|done|unfold MAXPATHLEN in Hmax; lia|done|].
  2:{ rewrite <- arranged_length. unfold room. change (decompose nfd) with true. cbn iota. lia. }
  cbn [mbind option_bind Z.eqb]. set (A := arranged nfd cs) in *.
  destruct (shown_final A Hfinal) as (Eshown & Eslash & Hok).
  rewrite <- (app_nil_r (utf16 A)) at 1. rewrite length_app in Hbuf.
  rewrite encodestr_points; [|by vm_compute|by apply utf16_range|by rewrite Z.mul_comm, Z.div_mul|change (0 <= buflen); lia].
  change (room_end (Config 0 UTF_NO_NULL_TERM) buflen) with buflen.
  rewrite units_plain, code_points_utf16 by done.
  rewrite encode_points_fits; [|done|rewrite Eshown; simpl; lia].
  rewrite Eslash, Eshown. cbn [Z.eqb app mbind option_bind].
  change (terminator (Config 0 UTF_NO_NULL_TERM)) with (@nil Z). rewrite app_nil_r.
  apply normalize_exit_fits. rewrite length_app. lia.
Qed.

(** A string of ASCII. *)
Lemma normalize_ascii nullterm cs rest buflen : Forall (λ ch, 0 < ch < 0x80) cs ->
  zlen (cs ++ nul nullterm) <= buflen ->
  utf8_normalizestr (cs ++ rest) (zlen cs) buflen (nfd_flags nullterm) = Some (0, zlen cs, cs ++ nul nullterm).
Proof.
  intros Hcs Hbuf. unfold utf8_normalizestr.
  destruct (nfd_flag_tests nullterm) as (_ & -> & -> & -> & _). cbn [andb orb negb].
  rewrite ascii_loop_copies; [|done|rewrite length_app in Hbuf; simpl; lia].
  cbn [mbind option_bind app]. by apply normalize_exit_fits.
Qed.

(** ** Once is enough *)

Definition flag (u : Z) : marked := (u, mark u).

(** Every piece is flagged as its characters are. *)
Definition flagged (l : list marked) : Prop := Forall (λ '(u, m), mark u = m) l.

(** A mark that decomposes is taken for a base, and is not put in order. *)
Definition no_split_mark (ch : Z) : Prop := combinable ch = true -> decomposeable ch = false.

Lemma mark_basic u : basic u -> mark u = combinable u.
Proof. intros [_ H]. unfold mark. by rewrite (proj2 (Z.ltb_lt _ _)). Qed.

Lemma pieces_flagged cs : Forall normal_char cs -> Forall no_split_mark cs -> flagged (pieces nfd cs).
Proof.
  induction 1 as [|ch cs Hch _ IH]; [by constructor|]. intros [Hsplit Hs]%Forall_cons. cbn [pieces].
  apply Forall_app. split; [|by apply IH].
  destruct (nfd_piece (is_nil cs) ch Hch) as [[-> _]|[[-> Hb]|(Hd & base & marks & -> & Hok & _)]].
  - by constructor.
  - constructor; [|done]. unfold mark. by rewrite (proj2 (Z.ltb_ge _ _)).
  - destruct (complete_parts _ _ _ Hok) as (Hbase & Hmarks & _). unfold complete in Hok.
    rewrite !andb_true_iff, orb_true_iff, andb_true_iff, negb_true_iff in Hok.
    destruct Hok as (_ & _ & [Hc|[Hcb Hcm]]); [specialize (Hsplit Hc); congruence|]. rewrite forallb_forall in Hcm.
    constructor; [rewrite mark_basic by done; apply Hcb|]. apply List.Forall_map, List.Forall_forall. intros u Hu.
    rewrite mark_basic; [by apply Hcm|]. rewrite List.Forall_forall in Hmarks. by apply Hmarks.
Qed.

Lemma canonical_twice run : canonical (canonical run) = canonical run.
Proof. apply stable_sort_id, stable_sort_sorted. Qed.

Lemma flag_marks run : Forall (λ u, mark u = true) run -> map flag run = map (λ u, (u, true)) run.
Proof. induction 1 as [|u run Hu _ IH]; [done|]. simpl. unfold flag at 1. by rewrite Hu, IH. Qed.

Lemma arrange_again l : ∀ run, Forall (λ u, mark u = true) run -> flagged l ->
  arrange [] (map flag (arrange run l)) = arrange run l.
Proof.
  assert (Hrun : ∀ run, Forall (λ u, mark u = true) run -> Forall (λ u, mark u = true) (canonical run)).
  { intros run Hr. by rewrite stable_sort_perm. }
  induction l as [|[u m] l IH]; intros run Hr Hl.
  - simpl. rewrite flag_marks by auto. rewrite <- (app_nil_r (map _ _)), arrange_marks. simpl. apply canonical_twice.
  - apply Forall_cons in Hl as [Hu Hl]. destruct m; cbn [arrange].
    + apply IH; [|done]. apply Forall_app. by split; [|constructor].
    + rewrite map_app, flag_marks, arrange_marks by auto. cbn [map]. unfold flag at 1. rewrite Hu. cbn [arrange app].
      by rewrite canonical_twice, IH.
Qed.

Lemma final_pieces cs : Forall final_char cs -> pieces nfd cs = map flag cs.
Proof.
  induction 1 as [|ch cs [Hch Hd] _ IH]; [done|]. cbn [pieces map]. rewrite IH.
  destruct (nfd_piece (is_nil cs) ch Hch) as [[-> _]|[[-> Hb]|(Hd' & base & marks & _ & _ & Hb)]]; [done| |].
  - unfold flag at 2, mark. by rewrite (proj2 (Z.ltb_ge ch _)).
  - destruct Hd; [lia|congruence].
Qed.

(** What [separated] says, on pieces. *)
Fixpoint apart (inrun : bool) (l : list marked) : bool :=
  match l with
  | [] => true
  | (u, m) :: l => (if 0x10000 <=? u then negb inrun else true) && apart m l
  end.

Lemma apart_marks marks : ∀ inrun l, Forall (λ u, u < 0x10000) marks ->
  apart inrun (map (λ u, (u, true)) marks ++ l) = apart (if is_nil marks then inrun else true) l.
Proof.
  induction marks as [|u marks IH]; [done|]. intros inrun l [Hu Hm]%Forall_cons. cbn [map app apart is_nil].
  rewrite (proj2 (Z.leb_gt _ u)) by lia. cbn [andb]. rewrite IH by done. by destruct marks.
Qed.

Lemma separated_apart cs : Forall normal_char cs -> ∀ inrun, separated nfd inrun cs = true ->
  apart inrun (pieces nfd cs) = true.
Proof.
  induction 1 as [|ch cs Hch _ IH]; [done|]. intros inrun. cbn [separated pieces].
  rewrite andb_true_iff. intros [Hpair Hsep].
  destruct (nfd_piece (is_nil cs) ch Hch) as [[E _]|[[E Hb]|(_ & base & marks & E & Hok & Hb)]]; rewrite E in *.
  - cbn [app apart]. by rewrite Hpair, IH.
  - cbn [app apart]. by rewrite Hpair, IH.
  - destruct (complete_parts _ _ _ Hok) as (Hbase & Hmarks & _). unfold basic in Hbase.
    cbn [app apart]. rewrite (proj2 (Z.leb_gt _ base)) by lia. cbn [andb].
    rewrite apart_marks by (eapply Forall_impl; [done|]; intros u; unfold basic; lia).
    rewrite ends_in_mark_marks in Hsep. apply IH in Hsep. by destruct marks.
Qed.

Lemma apart_separated cs : Forall final_char cs -> ∀ inrun, apart inrun (map flag cs) = true ->
  separated nfd inrun cs = true.
Proof.
  induction 1 as [|ch cs Hch Hcs IH]; [done|]. intros inrun. cbn [separated map]. unfold flag at 1. cbn [apart].
  rewrite !andb_true_iff. intros [Hpair Hap]. split; [done|].
  assert (E : piece nfd (is_nil cs) ch = [flag ch]).
  { pose proof (final_pieces (ch :: cs) ltac:(by constructor)) as E. cbn [pieces map] in E.
    rewrite (final_pieces cs Hcs) in E. by apply (app_inv_tail (map flag cs)). }
  rewrite E. by apply IH.
Qed.

Lemma mark_small u : mark u = true -> u < 0x10000.
Proof. unfold mark. rewrite andb_true_iff, Z.ltb_lt. by intros [? _]. Qed.

Lemma apart_arranged l : ∀ run, Forall (λ u, mark u = true) run -> flagged l ->
  apart (negb (is_nil run)) l = true -> apart false (map flag (arrange run l)) = true.
Proof.
  assert (Hrun : ∀ run, Forall (λ u, mark u = true) run ->
    Forall (λ u, mark u = true) (canonical run) /\ Forall (λ u, u < 0x10000) (canonical run) /\
    is_nil (canonical run) = is_nil run).
  { intros run Hr. assert (Hr' : Forall (λ u, mark u = true) (canonical run)) by (by rewrite stable_sort_perm).
    split; [done|]. split.
    - eapply Forall_impl; [done|]. apply mark_small.
    - pose proof (length_canonical run). by destruct run, (canonical _). }
  induction l as [|[u m] l IH]; intros run Hr Hl Hap; destruct (Hrun run Hr) as (Hm & Hs & En).
  - cbn [arrange]. rewrite flag_marks, <- (app_nil_r (map _ _)), apart_marks by done. done.
  - apply Forall_cons in Hl as [Hu Hl]. cbn [apart] in Hap. apply andb_true_iff in Hap as [Hpair Hap].
    destruct m; cbn [arrange].
    + apply IH; [apply Forall_app; by split; [|constructor]|done|]. by destruct run.
    + rewrite map_app, flag_marks, apart_marks by done. cbn [map]. unfold flag at 1. rewrite Hu. cbn [apart].
      rewrite (IH []) by done. rewrite En, andb_true_r. by destruct run.
Qed.

(** The units of a string never need more than one and a half times its bytes, and less when it is
    not ASCII. *)
Lemma nfd_room cs : Forall character cs ->
  2 * zlen (utf16 cs) <= 3 * zlen (utf8 cs) /\ (Exists (λ ch, 0x80 <= ch) cs -> 2 * zlen (utf16 cs) + 2 <= 3 * zlen (utf8 cs)).
Proof.
  induction 1 as [|ch cs Hch _ [IH1 IH2]]; [split; [done|by intros H; inversion H]|].
  unfold utf8, utf16 in *. cbn [flat_map]. rewrite !length_app.
  pose proof (utf8_of_length ch (character_range ch Hch)) as E8.
  assert (E16 : zlen (utf16_of ch) = if ch <? 0x10000 then 1 else 2) by (unfold utf16_of; destruct (ch <? 0x10000); reflexivity).
  split; [|intros [Hex|Hex]%Exists_cons; [|specialize (IH2 Hex)]]; revert E8 E16;
    destruct (Z.ltb_spec ch 0x80), (Z.ltb_spec ch 0x800), (Z.ltb_spec ch 0x10000); intros E8 E16; lia.
Qed.

(** C40 (functional): normalizing a string to the decomposed form gives the encoding of its characters,
    each replaced by its full decomposition and the marks of every run in canonical order, with the
    null behind it when there is to be one; and normalizing the result again changes nothing.  The
    string is not ASCII and has at most [MAXPATHLEN] bytes (a longer one is refused with
    [ENAMETOOLONG]); it has no slash, no null and no U+2400, and no character outside of the basic
    plane directly follows a mark; the buffer that the code allocates for the units, three bytes for
    every byte of the string, has room for the result and one unit more (it can lack them); and the
    caller's buffer has room for the result.  For the second statement no mark decomposes, and the
    result has at most [MAXPATHLEN] bytes as well. *)
Theorem normalizestr_nfd nullterm cs rest buflen (Hcs : Forall normal_char cs) (Hex : Exists (λ ch, 0x80 <= ch) cs)
    (Hsep : separated nfd false cs = true) (Hmax : zlen (utf8 cs) <= MAXPATHLEN)
    (Hroom : 2 * zlen (utf16 (arranged nfd cs)) + 2 <= 3 * zlen (utf8 cs))
    (Hbuf : zlen (utf8 (arranged nfd cs) ++ nul nullterm) <= buflen) :
  let out := utf8 (arranged nfd cs) in
  utf8_normalizestr (utf8 cs ++ rest) (zlen (utf8 cs)) buflen (nfd_flags nullterm) = Some (0, zlen out, out ++ nul nullterm) /\
  (Forall no_split_mark cs -> zlen out <= MAXPATHLEN ->
   utf8_normalizestr (out ++ rest) (zlen out) buflen (nfd_flags nullterm) = Some (0, zlen out, out ++ nul nullterm)).
Proof.
  intros out. split; [by apply normalize_nonascii|]. intros Hsplit Hmax'. unfold out in *.
  destruct (arranged_chars cs Hcs) as [Hfinal _]. destruct (final_character _ Hfinal) as (HA & HAnz & HAn).
  assert (Hagain : arranged nfd (arranged nfd cs) = arranged nfd cs).
  { unfold arranged at 1. rewrite final_pieces by done. apply arrange_again; [done|by apply pieces_flagged]. }
  assert (Hsep' : separated nfd false (arranged nfd cs) = true).
  { apply apart_separated; [done|]. apply apart_arranged; [done|by apply pieces_flagged|by apply separated_apart]. }
  set (A := arranged nfd cs) in *.
  destruct (decide (Exists (λ ch, 0x80 <= ch) A)) as [Hex'|Hascii].
  - rewrite <- Hagain at 3 4. apply normalize_nonascii; rewrite ?Hagain; try done. by apply nfd_room.
  - assert (Ha : Forall (λ ch, 0 < ch < 0x80) A).
    { apply List.Forall_forall. intros ch Hin. rewrite List.Forall_forall in HA, HAnz.
      pose proof (character_range _ (HA ch Hin)). specialize (HAnz ch Hin).
      destruct (decide (0x80 <= ch)); [|lia]. destruct Hascii. apply List.Exists_exists. by exists ch. }
    assert (E8 : utf8 A = A).
    { clear -Ha. induction Ha as [|ch A Hch _ IH]; [done|]. unfold utf8 in *. cbn [flat_map].
      by rewrite utf8_of_ascii, IH by lia. }
    rewrite E8 in *. by apply normalize_ascii.
Qed.

Lemma normalizestr_nfd_witness :
  let cs := [0x61; 0xE9; 0x327; 0x61; 0x1F600] in let out := utf8 (arranged nfd cs) in
  utf8_normalizestr (utf8 cs ++ []) (zlen (utf8 cs)) 40 (nfd_flags true) = Some (0, zlen out, out ++ nul true) /\
  (Forall no_split_mark cs -> zlen out <= MAXPATHLEN ->
   utf8_normalizestr (out ++ []) (zlen out) 40 (nfd_flags true) = Some (0, zlen out, out ++ nul true)).
Proof.
  cbv zeta. apply normalizestr_nfd; [| |by vm_compute|by vm_compute|by vm_compute|by vm_compute].
  - repeat (constructor; [unfold normal_char, character, UCS_ALT_NULL; lia|]). constructor.
  - right. left. lia.
Defined.

(** ** Where the statement ends *)

(** A character of two bytes that decomposes to three fills the buffer of the code exactly, and is
    refused although its result would fit. *)
Example exactly_filled :
  utf8_normalizestr (utf8 [0x1D5]) 2 40 (nfd_flags true) = Some (ENAMETOOLONG, 0, [0]).
Proof. by vm_compute. Qed.

(** U+2400 becomes a null, the null equals the replacement of the slash, which is absent, and the
    slash is refused. *)
Example alt_null_refused :
  utf8_normalizestr (utf8 [UCS_ALT_NULL]) 3 40 (nfd_flags true) = Some (EINVAL, 1, [0x5F; 0]).
Proof. by vm_compute. Qed.

(** A mark that decomposes: normalizing twice differs from normalizing once. *)
Example split_mark_not_stable :
  utf8_normalizestr (utf8 [0x61; 0x301; 0x9CB]) 6 40 (nfd_flags false)
  = Some (0, 9, utf8 [0x61; 0x301; 0x9C7; 0x9BE]) /\
  utf8_normalizestr (utf8 [0x61; 0x301; 0x9C7; 0x9BE]) 9 40 (nfd_flags false)
  = Some (0, 9, utf8 [0x61; 0x9C7; 0x9BE; 0x301]).
Proof. by vm_compute. Qed.

End UtfNormal.
